(* ===== verification/_CoqProject ===== *)
-Q . S2P
Prelude.v
Float32.v
FloatOrder.v
Float64.v
FloatRound.v
PvShaping.v
Protocol.v
CanBus.v
SocketCan.v
MotorHandle.v
World.v
MotorOps.v
Controller.v
ControllerGroup.v
RuntimeTypes.v
DdsProtocol.v
Lease.v
Config.v
Threads.v
ServiceState.v
Service.v
ServiceProofs.v
ServiceSound.v
ServiceTheorems.v
NativeTypes.v
Trajectory.v
SafetyState.v
Motions.v
Gripper.v
Safety.v
Feedback.v
Disable.v
Faults.v
Commands.v
Planning.v
JointPosition.v
Enable.v
Lifecycle.v
Construct.v
Maintenance.v
Power.v
Recover.v
TrajectoryCycle.v
Completion.v
Gravity.v
ArmCycle.v
SafetyWorker.v
Health.v
Yunyi.v
Product.v
ProductCommands.v
ProductOps.v
Facade.v
Drivers.v
CartesianMath.v
CartesianTiming.v
Cartesian.v
IkSearch.v
SafetyLaws.v
SafetyActions.v
MotionActions.v
LifecycleActions.v
SafetyDiscipline.v
SafetyThreads.v
SafetyLifecycle.v
SafetyMotion.v
SafetyRecovery.v
SafetyApi.v
SafetyTermination.v
SafetySystem.v
SafetyTheorems.v
ProductLaws.v
ProductSystem.v
ProductTheorems.v
DriverLaws.v
OpeningLaws.v
CartesianLaws.v
PlannerLaws.v
RequestLaws.v
CartesianTheorems.v
