(* ===== verification/Prelude.v ===== *)
(** * Verification of motorbridge

    motorbridge drives a two-armed robot of Damiao motors over CAN-FD and
    offers it to clients over DDS.  This library models the C++ of the program
    as executable Rocq definitions and proves what its parts promise.

    ** The program and its parts

    - [motor/]: the wire protocol of the motors ([protocol.hpp],
      [registers.hpp]), the SocketCAN-FD transport ([socketcan_fd_bus.cpp]) and
      [runtime.cpp]: motor handles, the controller of one bus with its receive
      worker and its pacing, and the group that drives several controllers with
      one worker thread each.
    - [runtime/]: [articore::SafetyRuntime], the safety state machine of the
      robot: one worker thread runs the control cycle, API threads connect,
      enable, command, stop and maintain the motors; on top of it the product
      runtime [YunyiRuntime], its facade and the kinematics.
    - [dds/]: the network service: a configuration file, a control lease so
      that one client at a time owns the robot, and two threads that move
      requests and commands from the middleware to the product runtime.

    A command goes down: sample, [handle_request], queue of 32, control worker,
    product runtime, safety runtime and its worker, controller group,
    controller, handle, pacing bus, socket.  A feedback frame goes up: socket,
    receive worker, [accepts_frame] and [process_feedback_frame] of every
    handle, the caches the waiting operations look at, and the freshness
    checks of the safety worker.

    ** Files of the motor layer

    - [Float32]: the C++ [float] as correctly rounded binary32 ([SpecFloat] of
      the Standard Library), with the lemmas on bounds under rounding;
      [FloatOrder]: its order as one total preorder on non-NaN values, products
      with a factor of the unit interval and percentages;
      [Float64]: [double], and what the messages print of floats; [FloatRound]:
      what rounding keeps, of either format (order, sign, finiteness).
    - [Protocol]: [registers.hpp], [protocol.hpp] and the limits of
      [motor.hpp]; quantisation, the frames of every command and reply.
    - [CanBus], [SocketCan]: [can_bus.hpp] and [socketcan_fd_bus.cpp]: frame
      encoding, the transmit and receive loops, shutdown and health counters.
    - [MotorHandle]: the record of a [damiao::MotorHandle] and the two
      operations of the receive worker on it; its Module [BareMotor]:
      [damiao::Motor], the class that drives one motor over a bus of its own.
    - [World], [MotorOps], [Controller]: the state one bus shares, an
      environment that moves between any two actions, the methods of a handle
      and of [damiao::Controller] in that order ([motor/src/runtime.cpp]).
    - [ControllerGroup]: the generation-counted worker pool as a transition
      system of critical sections, and with its condition variables.

    ** Files of the service

    - [RuntimeTypes]: the value types of [runtime.hpp].
    - [DdsProtocol], [Lease], [Config]: [protocol.hpp]/[protocol.cpp],
      [lease.hpp]/[lease.cpp] and [config.cpp] of [dds/].
    - [Threads]: threads as trees of atomic actions, the interleaving step
      relation, a rely-guarantee logic for them, and what is observed along runs
      within a discipline.
    - [ServiceState], [Service]: the members of [CycloneService::Impl]
      ([cyclone_service.cpp], [articore_protocol.idl]) and all its operations; one
      body per thread.
    - [ServiceProofs], [ServiceSound], [ServiceTheorems]: the invariant of the
      service, every program kept sound for it, and the theorems, with a
      concrete run that reaches the interesting states.

    ** Files of the safety runtime

    - [PvShaping]: the ramps of a reference and of the drive-velocity ceiling
      ([detail/runtime.hpp]).
    - [NativeTypes]: the enumerations and structs of the C interface
      ([detail/native_types.hpp], [detail/runtime_types.hpp]); [SafetyState]: the members of
      [SafetyRuntime] ([detail/runtime.hpp]), the classes [MotorBackend] and
      [ArmDynamics] the runtime calls, and the actions on the shared state.
    - [Trajectory], [Motions]: the segments of a trajectory and the queue and
      archive of motions ([runtime_trajectory.cpp]).
    - [Gripper]: the pure part of [runtime_gripper.cpp]: force profiles,
      contact state machine, commands prepared and committed.
    - [Safety], [Feedback], [Disable], [Faults]: holds, freshness and transport
      health, the disable barrier, [enter_fault], [enter_degraded] and
      [enter_safe_stop] ([runtime_safety.cpp], [runtime_enable.cpp],
      [runtime_commands.cpp]).
    - [Commands], [Enable], [Lifecycle], [Construct], [Maintenance]: the API
      operations ([runtime_commands.cpp], [runtime_enable.cpp],
      [runtime.cpp], [runtime_maintenance.cpp]); [Planning]: starting a
      trajectory ([runtime_trajectory.cpp]); [JointPosition]: ordinary joint
      positions ([runtime_joint_position.cpp]); [Power], [Recover]: the power of
      single motors and the recovery of a stopped robot
      ([runtime_enable.cpp]).
    - [TrajectoryCycle], [Completion], [Gravity], [ArmCycle], [SafetyWorker]:
      one period of the worker: the trajectory advanced, completion judged,
      gravity compensation and follower mode, the batch sent, the loop
      ([runtime_trajectory.cpp], [runtime_gravity.cpp], [runtime_commands.cpp],
      [runtime_worker.cpp]).
    - [SafetyLaws], [SafetyActions], [MotionActions], [LifecycleActions]: what
      the actions keep of the shared state; [SafetyDiscipline]: the two-level
      discipline (which thread may move the state machine where) as a
      rely-guarantee logic; [SafetyThreads], [SafetyLifecycle], [SafetyMotion],
      [SafetyApi]: the worker, the lifecycle operations, trajectories, joint
      positions and motor power, and every other API operation keep it;
      [SafetyRecovery]: what [recover] promises beyond it, and the calls of the
      backend that one that returns has made;
      [Health]: the health and connection reports ([runtime_safety.cpp]);
      [SafetyTermination]: every operation and every round of the worker comes
      to an end; [SafetySystem]: the threads together; [SafetyTheorems]: the
      theorems on all runs, with a sample robot.

    ** Files of the product runtime

    - [Yunyi]: the tables and types of the product and the construction of a
      safety runtime from the motors found ([yunyi_product.hpp],
      [yunyi_runtime.hpp], [yunyi_runtime.cpp]): the joints of both arms with
      their limits, motor models and identifiers.
    - [Product]: [YunyiRuntimeCoreState], the members of [YunyiRuntime::Impl]
      and the helpers of [yunyi_runtime_core.cpp], with the classes
      [CartesianPlanner] and [Libm]; [ProductCommands]: motions, joint commands,
      speed and grippers; [ProductOps]: lifecycle, modes, power, tool offsets and
      reports, with the class [RobotModels] of forward kinematics.
    - [Facade]: [yunyi_runtime_facade.cpp] and the methods of
      [YunyiRuntimeCore]: the creation with its checks, the classification of
      exceptions, the terminal mutex; [product_runtime] is the instance of the
      [YunyiRuntime] class the service is proved against.
    - [ProductLaws], [ProductSystem], [ProductTheorems]: the tables are safe,
      every product operation calls the safety runtime in its discipline, the
      product runtime and its clients as one system, and the theorems.

    ** Files between the product and its motors

    - [Drivers]: [YunyiMotorBackend] ([yunyi_runtime.cpp]): every call of the
      safety runtime on the controllers and handles of both sides, with the
      return codes of failures; [yunyi_backend] is the instance of
      [MotorBackend].  Then the opening of a product: the channels, the
      discovery of each side, which joint owns which handle, the checks and the
      runtime constructed from what was found.
    - [DriverLaws], [OpeningLaws]: workers that run on state of their own may
      run in any order; the commands that reach the wire, what is read back, and
      the products that open.

    ** Files of the Cartesian motions

    - [CartesianMath]: [cartesian_math.hpp]: vectors, quaternions, the arc
      through three points.
    - [CartesianTiming]: the time law of [product_cartesian.cpp]: a path of joint
      positions becomes knots with times, subdivided until they follow it and
      stretched until velocity and acceleration keep their limits.
    - [Cartesian]: the rest of [product_cartesian.cpp],
      [product_cartesian_validation.cpp] and [product_cartesian.hpp]: poses,
      samples of lines and arcs, inverse kinematics checked for limits and
      continuity, the request for the runtime, approaches to a declared start;
      [cartesian_planner] is the instance of [CartesianPlanner].
    - [IkSearch]: the search of [robot_model.cpp]: limits, seeds, the damped
      iteration with its line search and deadline, ranking; [yunyi_searches] is
      the instance of [InverseKinematics].  What it computes with Pinocchio and
      Eigen is the class [RigidBody].
    - [CartesianLaws], [PlannerLaws], [RequestLaws], [CartesianTheorems]: what
      the timing keeps, what every plan is, why the safety runtime accepts it,
      and the theorems, with an arm that moves on a line as the sample.

    ** How state and effects are modelled

    The motor layer is written in a state and error monad over [World].  Its
    environment (class [Environment]) answers every system call and may, before
    each primitive action, let time pass and let the receive worker handle any
    list of frames.  Every access of the source is under a mutex or atomic, so
    quantifying over the environment covers every schedule of caller and worker.
    A handle is an object in a store, named by a location, since the table of
    the controller, a batch and a discovery may hold the same one.

    The service and the safety runtime have threads with long conversations on
    shared state; their programs are resumptions ([Threads.prog]) whose actions
    are the critical sections and foreign calls.  The middleware is part of the
    environment of the service, which may change readers and return codes
    between any two actions.  To the service the product runtime is the class
    [ServiceState.YunyiRuntime], one operation per method the service calls, so
    the service theorems hold for every implementation of it.

    Planning is a pure function of the reference it starts from: its outcome
    monad ([CartesianMath]) has the exceptions of the code and the undefined
    conversions.  Every [double] and [float] operation is rounded as the code
    rounds it; only what [<cmath>] does not round correctly is the class [Libm].

    In the safety runtime a mutex of the source is an action that takes it and
    one that releases it where a section spans foreign calls, and one atomic
    action otherwise.  The motor layer below is the class [MotorBackend] (any
    state of its own, any answers), the rigid-body dynamics the class
    [ArmDynamics].  [Drivers.yunyi_backend] is the implementation of
    [MotorBackend] the program has: the two worlds of the sides, the handles of
    the joints, and the calls of the motor layer on them.  The class wants an
    answer of every call; what answers one that does not end or is undefined is
    an argument of the instance.  Thread 0 is the worker; every other thread is a client
    that runs a list of API calls ([SafetyApi.ApiCall]).  Where the source
    drives both sides with two helper threads, the turn of the helpers is
    chosen by the backend.

    Integers are [Z] with the wrap-around of their C++ type written out; sizes
    and indices of containers are [nat].  A point in time and a duration are
    nanoseconds.  Exceptions are values of the outcome type; what C++ leaves
    undefined (the service's casts of wire floats) is an outcome of its own.

    ** What the theorems show

    - Safety runtime: for every backend, every number of clients and every
      interleaving, an emergency stop or fault is not left by anything but a
      maintenance operation or a recovery; every control frame is handed over
      under the command mutex; the state machine moves only along the documented edges;
      the lists of motors, profiles and commands keep one shape; [recover]
      returns only after every motor has confirmed that it is disabled, has had
      its faults cleared and, at the end, has confirmed once more that it is
      disabled, with READY and every latch cleared, and otherwise throws and
      leaves a latched emergency stop in FAULT; every API call and every round of
      the worker comes to an end.
    - Product runtime: a product that [create] returned keeps the safety
      theorems under any number of clients, whatever calls they make and however
      they interleave; the position checks of the product and of the safety
      runtime accept the same targets; the ordinary profiles never exceed the
      limits of the joint; no method of a product reports a refused argument as
      INVALID_ARGUMENT (arrays of different lengths apart), which [create] does
      for its configuration.
      A query beside a disconnect of the same product reaches undefined
      behaviour.
    - Cartesian motions: a timed path keeps the maximum velocity within one part
      and the maximum acceleration within 2.1 parts in ten thousand, ends in time
      and within the capacity; a joint path is
      refused exactly when it jumps or chatters; the search reports only
      configurations that have converged, the nearest first; a motion with a
      declared start begins there or approaches it and stops there; the safety
      runtime accepts shape, joints and limits of every planned request at every
      speed.
    - Wire protocol: an MIT command loses nothing but its quantisation, every
      decoded feedback is finite and inside the limits, SocketCAN-FD encoding
      round-trips, two motors never accept one frame.
    - Motor operations: register reads, writes, mode changes and state requests
      return only on an answer received after they began, and they end for
      every behaviour of motor and bus; parameters are stored only into a motor
      known to be disabled.
    - Controller: discovery either settles every candidate or rolls back;
      feedback rounds and batches do what their result says; shutdown seals.
    - Group: whatever the schedule of its workers, a dispatch returns the result
      and leaves the state of the run that takes one controller after the other;
      where every send comes back a dispatch does not hang, nobody missing the
      notification that would wake him; one whose partition fails touches nothing.
    - Motor backend: a group command reported as sent has put exactly the frames
      of its commands on the bus, in their order; a mode and a gain that are
      reported as set were read back from the motor after the call began.
    - Opening: a product that opens has each joint on the side and handle of its
      own identifiers, and the creation of its runtime succeeds.
    - Lease: accepted requests are fresh, strictly ordered and of one owner,
      over every history of calls; when the lost callback runs.
    - Service: the queued and the streamed commands the runtime receives are
      subsequences of those the lease accepted on their channel, none is executed
      twice, the queue is first-in first-out and bounded, and a motion ends at
      most once, in every interleaving.
    - Configuration: what loads satisfies what the service relies on, and the
      XML built from it contains no character that could escape its element.

    Some theorems record behaviour that the code probably does not intend: an
    expired lease can be taken over without the lost callback, wire floats
    reach an undefined cast, an accepted motion can be overwritten before
    its end is reported, refused arguments lose their code, a gain that reads
    back as NaN passes for the one that was written, and answers of
    inverse kinematics at the limits of the model are refused by the product
    ([model_limits_refused]).

    ** Fuel and bounds

    A retry or wait loop takes fuel; running out of it is the outcome
    [Unfinished] (the motor layer) or a thread that has stopped (the safety
    runtime), distinct from every result of the code.  The termination
    theorems ([ensure_mode_terminates], [write_frame_terminates] and the lemmas
    [ends_after] behind them) compute a fuel that is enough from the timeouts,
    for every environment in which each action takes at least a nanosecond.
    A loop of the safety runtime that ends at a deadline takes one round of
    fuel for every millisecond to it, and one more: a round sleeps at least a
    millisecond and the clock only goes forward.  [SafetyTermination] proves
    that this is enough for every operation and round of the worker, whatever
    drivers and other threads do, so that no thread of a run ever stops for want
    of fuel ([rounds_end]).  Loops over containers are structural, and so are the
    loops of the planner, which the source bounds (20 durations, 32 levels of
    subdivision, the iterations and retries of the search).

    ** Not modelled

    - thread affinity and priorities, the signal handler and exit codes of
      [main.cpp], creation of DDS entities and their QoS: system calls without
      effect on the state modelled;
    - how the system opens a CAN channel: whether it can be opened and what
      is on it is an argument of [open_yunyi] ([Platform]);
    - of the safety runtime: the [struct_size] checks of its C interface and the
      control trace; an exception thrown on the worker thread outside its handlers
      (the thread stops); the contraction of products and sums a compiler may
      apply to [float] expressions;
    - of [robot_model.cpp]: the rigid-body functions of Pinocchio and the
      wrappers around them (Jacobian, mass matrix, Coriolis, RNEA, ABA,
      [get_info]), which keep no state; forward kinematics and gravity are the
      classes [RobotModels] and [ArmDynamics];
    - of [product_cartesian_validation.cpp]: two overloads of
      [validate_cartesian_start_pose] that no motion calls. *)

From stdpp Require Export base list strings gmap pretty.
From Stdlib Require Export ZArith Lia Bool.

#[global] Open Scope Z_scope.

Declare Scope mdl_scope.
Delimit Scope mdl_scope with mdl.

(** ** Machine words

    An unsigned w-bit integer of the source is a [Z]; a conversion or an
    arithmetic result is wrapped where the C++ type wraps it. *)
Section Words.

Definition wrap (w z : Z) : Z := z mod 2 ^ w.
Definition u8 (z : Z) : Z := wrap 8 z.
Definition u16 (z : Z) : Z := wrap 16 z.
Definition u32 (z : Z) : Z := wrap 32 z.
Definition u64 (z : Z) : Z := wrap 64 z.

Definition in_word (w z : Z) : Prop := 0 <= z < 2 ^ w.

Lemma wrap_bounds w z : 0 <= w -> in_word w (wrap w z).
Proof. intros. apply Z.mod_pos_bound, Z.pow_pos_nonneg; lia. Qed.

Lemma wrap_small w z : in_word w z -> wrap w z = z.
Proof. apply Z.mod_small. Qed.

Lemma wrap_land w z : 0 <= w -> wrap w z = Z.land z (Z.ones w).
Proof. intros. unfold wrap. by rewrite Z.land_ones. Qed.

Lemma u64_add_l a b : u64 (u64 a + b) = u64 (a + b).
Proof. apply Zplus_mod_idemp_l. Qed.

End Words.

(** [is_byte] is the type invariant of [uint8_t]. *)
Definition is_byte (b : Z) : Prop := in_word 8 b.

Lemma u8_byte z : is_byte (u8 z).
Proof. apply wrap_bounds; lia. Qed.

Lemma u8_small z : is_byte z -> u8 z = z.
Proof. apply wrap_small. Qed.

(** [std::array<uint8_t, 8>] and [std::array<uint8_t, 4>]: a list of bytes of
    that length; [byte_at] is [operator[]]. *)
Definition byte_at (l : list Z) (i : nat) : Z := nth i l 0.

Definition bytes_ok (n : nat) (l : list Z) : Prop :=
  length l = n /\ Forall is_byte l.

Lemma byte_at_ok n l i : bytes_ok n l -> is_byte (byte_at l i).
Proof.
  intros [_ H]. unfold byte_at. destruct (nth_in_or_default i l 0) as [Hin | ->].
  - rewrite Forall_forall in H. apply H. by apply list_elem_of_In.
  - unfold is_byte, in_word. lia.
Qed.

Create HintDb mdl discriminated.
#[export] Hint Resolve u8_byte : mdl.

(** Little-endian composition, the shape of every multi-byte field read by the
    source: [b0 | b1 << 8 | ...]. *)
Fixpoint le_value (l : list Z) : Z :=
  match l with
  | [] => 0
  | b :: t => Z.lor b (Z.shiftl (le_value t) 8)
  end.

(** Little-endian split: [v & 0xFF, (v >> 8) & 0xFF, ...]. *)
Fixpoint le_bytes (n : nat) (v : Z) : list Z :=
  match n with
  | O => []
  | S n => u8 (Z.land v 255) :: le_bytes n (Z.shiftr v 8)
  end.

Lemma lor_shiftl_add a b k :
  0 <= k -> 0 <= a < 2 ^ k -> Z.lor a (Z.shiftl b k) = a + b * 2 ^ k.
Proof.
  intros Hk Ha. rewrite Z.shiftl_mul_pow2 by lia.
  rewrite <- Z.lxor_lor, <- Z.add_nocarry_lxor; [done | |].
  all: apply Z.bits_inj'; intros n Hn; rewrite Z.land_spec, Z.bits_0.
  all: destruct (decide (n < k)).
  1,3: rewrite (Z.mul_pow2_bits_low b) by lia; apply andb_false_r.
  all: rewrite <- (Z.mod_small a (2 ^ k)) by lia;
       rewrite Z.mod_pow2_bits_high by lia; done.
Qed.

Lemma land_255 v : Z.land v 255 = v mod 256.
Proof. change 255 with (Z.ones 8). by rewrite Z.land_ones. Qed.

Lemma le_bytes_ok n v : bytes_ok n (le_bytes n v).
Proof.
  revert v. induction n as [|n IH]; intros v; [by split|].
  destruct (IH (Z.shiftr v 8)) as [Hl Hf]. split; simpl; [by rewrite Hl|].
  constructor; auto using u8_byte.
Qed.

Lemma le_value_bytes n v :
  le_value (le_bytes n v) = v mod 2 ^ (8 * Z.of_nat n).
Proof.
  revert v. induction n as [|n IH]; intros v.
  - simpl. by rewrite Z.mod_1_r.
  - cbn [le_bytes le_value]. rewrite IH, u8_small, land_255.
    + rewrite lor_shiftl_add by (try apply Z.mod_pos_bound; lia).
      rewrite Z.shiftr_div_pow2 by lia.
      replace (8 * Z.of_nat (S n)) with (8 + 8 * Z.of_nat n) by lia.
      rewrite Z.pow_add_r by lia. change (2 ^ 8) with 256.
      rewrite (Z.rem_mul_r v 256) by (try apply Z.pow_pos_nonneg; lia). lia.
    + rewrite land_255. apply Z.mod_pos_bound. lia.
Qed.

Lemma le_value_bound l : Forall is_byte l -> 0 <= le_value l < 2 ^ (8 * Z.of_nat (length l)).
Proof.
  induction 1 as [|b l Hb _ IH]; [simpl; lia|]. unfold is_byte, in_word in Hb.
  cbn [le_value]. rewrite lor_shiftl_add by lia.
  cbn [length]. replace (8 * Z.of_nat (S (length l))) with (8 * Z.of_nat (length l) + 8) by lia.
  rewrite Z.pow_add_r by lia. change (2 ^ 8) with 256 in *. nia.
Qed.

Lemma le_bytes_value l :
  Forall is_byte l -> le_bytes (length l) (le_value l) = l.
Proof.
  induction 1 as [|b l Hb Hl IH]; [done|].
  pose proof (le_value_bound l Hl) as Hv. unfold is_byte, in_word in Hb.
  cbn [length le_bytes le_value]. rewrite lor_shiftl_add by lia.
  change (2 ^ 8) with 256 in *. f_equal.
  - rewrite land_255, Z.mod_add, Z.mod_small by lia. by apply u8_small.
  - rewrite Z.shiftr_div_pow2 by lia. change (2 ^ 8) with 256.
    rewrite Z.div_add, Z.div_small by lia. by rewrite Z.add_0_l.
Qed.

(** ** Text

    [std::string] is [string]; [find (needle) != npos] is [str_contains]. *)
Fixpoint str_contains (needle hay : string) : bool :=
  String.prefix needle hay ||
  match hay with
  | EmptyString => false
  | String _ rest => str_contains needle rest
  end.

(** [std::string::size] as the integer the source compares. *)
Definition str_size (s : string) : Z := Z.of_nat (String.length s).

(** [std::to_string] on an integer. *)
Definition to_string (z : Z) : string := pretty z.

Definition str_empty (s : string) : bool :=
  match s with EmptyString => true | _ => false end.

(** ** Exceptions and outcomes

    The exception classes the source throws and distinguishes when catching. *)
Inductive exn :=
| RuntimeError (what : string)
| InvalidArgument (what : string)
| LogicError (what : string)
| InvalidRuntimeState (what : string)
| OtherException (what : string).

#[export] Instance exn_eq_dec : EqDecision exn.
Proof. solve_decision. Defined.

Definition exn_what (e : exn) : string :=
  match e with
  | RuntimeError w | InvalidArgument w | LogicError w | InvalidRuntimeState w
  | OtherException w => w
  end.

(** How a call ends: it returns, it throws, it executes undefined behaviour
    (an out-of-range float-to-integer conversion), or the fuel of a modelled
    loop runs out.  The last case is never the program's: the theorems show
    the fuel chosen is enough. *)
Inductive outcome (A : Type) :=
| Returned (a : A)
| Thrown (e : exn)
| Undefined
| Unfinished.
Arguments Returned {A} a.
Arguments Thrown {A} e.
Arguments Undefined {A}.
Arguments Unfinished {A}.

(** Case analysis on the integer comparisons of the goal. *)
Ltac zcase :=
  rewrite ?Z.geb_leb, ?Z.gtb_ltb;
  match goal with
  | |- context [?a <=? ?b] => destruct (Z.leb_spec a b)
  | |- context [?a <? ?b] => destruct (Z.ltb_spec a b)
  | |- context [?a =? ?b] => destruct (Z.eqb_spec a b)
  end.

(** ** Effects: explicit state passing with exceptions *)
Definition M (S A : Type) : Type := S -> outcome A * S.

Section Effects.
Context {S : Type}.

Definition ret {A} (a : A) : M S A := fun s => (Returned a, s).
Definition throw {A} (e : exn) : M S A := fun s => (Thrown e, s).
Definition undefined {A} : M S A := fun s => (Undefined, s).
Definition unfinished {A} : M S A := fun s => (Unfinished, s).

Definition bind {A B} (m : M S A) (k : A -> M S B) : M S B := fun s =>
  match m s with
  | (Returned a, s') => k a s'
  | (Thrown e, s') => (Thrown e, s')
  | (Undefined, s') => (Undefined, s')
  | (Unfinished, s') => (Unfinished, s')
  end.

(** [catch (...)]: every exception reaches the handler. *)
Definition try_catch {A} (m : M S A) (h : exn -> M S A) : M S A := fun s =>
  match m s with
  | (Thrown e, s') => h e s'
  | r => r
  end.

(** [catch (const std::runtime_error&)]. *)
Definition catch_runtime {A} (m : M S A) (h : string -> M S A) : M S A :=
  try_catch m (fun e => match e with RuntimeError w => h w | _ => throw e end).

(** [catch (const std::exception& error)]: everything but a thrown value
    outside the [std::exception] hierarchy. *)
Definition catch_std {A} (m : M S A) (h : string -> M S A) : M S A :=
  try_catch m (fun e => match e with OtherException _ => throw e | _ => h (exn_what e) end).

Definition gets {A} (f : S -> A) : M S A := fun s => (Returned (f s), s).
Definition modify (f : S -> S) : M S unit := fun s => (Returned tt, f s).

(** A cast that is undefined behaviour where the argument is [None]. *)
Definition defined {A} (o : option A) : M S A :=
  match o with Some a => ret a | None => undefined end.

(** [for (;;) body] where the body either starts another round with a new
    loop state ([inl]) or leaves the loop with a result ([inr]). *)
Fixpoint loop {X A} (fuel : nat) (body : X -> M S (X + A)) (x : X) : M S A :=
  match fuel with
  | O => unfinished
  | Datatypes.S n => bind (body x) (fun r =>
      match r with inl x' => loop n body x' | inr a => ret a end)
  end.

(** A range-based [for] over a vector whose body may throw. *)
Fixpoint for_each {X} (l : list X) (body : X -> M S unit) : M S unit :=
  match l with
  | [] => ret tt
  | x :: t => bind (body x) (fun _ => for_each t body)
  end.

End Effects.

Notation "'do' x <- m ; k" := (bind m (fun x => k))
  (at level 10, x name, m at level 100, k at level 200) : mdl_scope.
Notation "'do' ' x <- m ; k" := (bind m (fun x => k))
  (at level 10, x strict pattern, m at level 100, k at level 200) : mdl_scope.
Notation "m ;;; k" := (bind m (fun _ => k))
  (at level 190, right associativity) : mdl_scope.

(** Destruct the computation at the head of a [bind] in hypothesis [H]. *)
Ltac inv_bind H :=
  unfold bind in H;
  match type of H with
  | context [match ?m ?s with (_, _) => _ end] =>
      let o := fresh "o" in let s' := fresh "s'" in let E := fresh "E" in
      destruct (m s) as [o s'] eqn:E; destruct o; simplify_eq
  end.

Section EffectLemmas.
Context {S : Type}.

Definition finished {A} (r : outcome A * S) : Prop := fst r <> Unfinished.

Lemma bind_returned {A B} (m : M S A) (k : A -> M S B) s b s' :
  bind m k s = (Returned b, s') ->
  exists a s1, m s = (Returned a, s1) /\ k a s1 = (Returned b, s').
Proof. unfold bind. destruct (m s) as [[a|e| |] s1]; naive_solver. Qed.

Lemma bind_thrown {A B} (m : M S A) (k : A -> M S B) s e s' :
  bind m k s = (Thrown e, s') ->
  m s = (Thrown e, s') \/
  exists a s1, m s = (Returned a, s1) /\ k a s1 = (Thrown e, s').
Proof. unfold bind. destruct (m s) as [[a|e1| |] s1]; naive_solver. Qed.

Lemma try_catch_thrown {A} (m : M S A) h s e s' :
  try_catch m h s = (Thrown e, s') ->
  exists e1 s1, m s = (Thrown e1, s1) /\ h e1 s1 = (Thrown e, s').
Proof. unfold try_catch. destruct (m s) as [[a|e1| |] s1]; naive_solver. Qed.

Lemma try_catch_returned {A} (m : M S A) h s a s' :
  try_catch m h s = (Returned a, s') ->
  m s = (Returned a, s') \/
  exists e1 s1, m s = (Thrown e1, s1) /\ h e1 s1 = (Returned a, s').
Proof. unfold try_catch. destruct (m s) as [[a1|e1| |] s1]; naive_solver. Qed.

Lemma bind_run {A B} (m : M S A) (k : A -> M S B) s a s1 :
  m s = (Returned a, s1) -> bind m k s = k a s1.
Proof. intros E. unfold bind. by rewrite E. Qed.

Lemma bind_finished {A B} (m : M S A) (k : A -> M S B) s :
  finished (m s) -> (forall a s1, m s = (Returned a, s1) -> finished (k a s1)) ->
  finished (bind m k s).
Proof.
  unfold bind, finished. destruct (m s) as [[a|e| |] s1]; simpl; [|done..].
  intros _ H. by apply H.
Qed.

Lemma try_catch_finished {A} (m : M S A) h s :
  finished (m s) -> (forall e s1, m s = (Thrown e, s1) -> finished (h e s1)) ->
  finished (try_catch m h s).
Proof.
  unfold try_catch, finished. destruct (m s) as [[a|e| |] s1]; simpl; try done.
  intros _ H. by apply H.
Qed.

Lemma for_each_finished {X} (l : list X) (body : X -> M S unit) s :
  (forall x s, x ∈ l -> finished (body x s)) -> finished (for_each l body s).
Proof.
  revert s. induction l as [|x l IH]; intros s H; [done|].
  cbn [for_each]. apply bind_finished; [apply H; left|].
  intros _ s1 _. apply IH. intros y s2 Hy. apply H. by right.
Qed.

(** Total correctness of [loop]: an invariant kept by every round, a measure
    that every further round strictly lowers, and fuel above the measure. *)
Lemma loop_total {X A} (body : X -> M S (X + A))
    (I : X -> S -> Prop) (mu : X -> S -> nat) (Q : outcome A -> S -> Prop) :
  (forall x s, I x s ->
    match body x s with
    | (Returned (inl x'), s') => I x' s' /\ (mu x' s' < mu x s)%nat
    | (Returned (inr a), s') => Q (Returned a) s'
    | (Thrown e, s') => Q (Thrown e) s'
    | (Undefined, s') => Q Undefined s'
    | (Unfinished, _) => False
    end) ->
  forall fuel x s, I x s -> (mu x s < fuel)%nat ->
    Q (fst (loop fuel body x s)) (snd (loop fuel body x s)) /\
    finished (loop fuel body x s).
Proof.
  intros Hbody. induction fuel as [|fuel IH]; intros x s HI Hmu; [lia|].
  specialize (Hbody x s HI). cbn [loop]. unfold bind, finished.
  destruct (body x s) as [[[x'|a]|e| |] s']; simpl; try done.
  destruct Hbody as [HI' Hlt]. apply IH; [done | lia].
Qed.

(** Partial correctness of [loop], for any fuel. *)
Lemma loop_invariant {X A} (body : X -> M S (X + A))
    (I : X -> S -> Prop) (Q : outcome A -> S -> Prop) :
  (forall x s, I x s ->
    match body x s with
    | (Returned (inl x'), s') => I x' s'
    | (Returned (inr a), s') => Q (Returned a) s'
    | (Thrown e, s') => Q (Thrown e) s'
    | (Undefined, s') => Q Undefined s'
    | (Unfinished, s') => Q Unfinished s'
    end) ->
  (forall x s, I x s -> Q Unfinished s) ->
  forall fuel x s, I x s -> Q (fst (loop fuel body x s)) (snd (loop fuel body x s)).
Proof.
  intros Hbody Hfuel. induction fuel as [|fuel IH]; intros x s HI; [by apply Hfuel in HI|].
  specialize (Hbody x s HI). cbn [loop]. unfold bind.
  destruct (body x s) as [[[x'|a]|e| |] s']; simpl; try done. by apply IH.
Qed.

(** A loop that returned did so from a round whose entry state satisfied the
    invariant. *)
Lemma loop_returned {X A} (I : X -> S -> Prop) (body : X -> M S (X + A)) :
  (forall x s x' s', I x s -> body x s = (Returned (inl x'), s') -> I x' s') ->
  forall fuel x s a s', I x s -> loop fuel body x s = (Returned a, s') ->
    exists y s0, I y s0 /\ body y s0 = (Returned (inr a), s').
Proof.
  intros HI. induction fuel as [|fuel IH]; intros x s a s' Hx H; [done|].
  cbn [loop] in H. apply bind_returned in H as ([x'|a'] & s1 & E & H).
  - apply (IH x' s1); [by apply (HI x s)|done].
  - injection H as <- <-. by exists x, s.
Qed.

(** ** Relations every run respects

    [keeps R m]: however [m] ends, the state it leaves is related to the one
    it started in.  For a preorder the structure of [m] carries the proof. *)
Definition keeps (R : S -> S -> Prop) {A} (m : M S A) : Prop := forall s, R s (snd (m s)).

Section Keeps.
Context (R : S -> S -> Prop) `{!PreOrder R}.

Lemma keeps_ret {A} (a : A) : keeps R (ret a).
Proof. intros s. simpl. reflexivity. Qed.

Lemma keeps_throw {A} e : keeps R (throw (A := A) e).
Proof. intros s. simpl. reflexivity. Qed.

Lemma keeps_undefined {A} : keeps R (undefined (A := A)).
Proof. intros s. simpl. reflexivity. Qed.

Lemma keeps_unfinished {A} : keeps R (unfinished (A := A)).
Proof. intros s. simpl. reflexivity. Qed.

Lemma keeps_bind {A B} (m : M S A) (k : A -> M S B) :
  keeps R m -> (forall a, keeps R (k a)) -> keeps R (bind m k).
Proof.
  intros Hm Hk s. specialize (Hm s). unfold bind.
  destruct (m s) as [[a|e| |] s1]; simpl in *; try done.
  etrans; [done|]. apply Hk.
Qed.

Lemma keeps_try_catch {A} (m : M S A) h :
  keeps R m -> (forall e, keeps R (h e)) -> keeps R (try_catch m h).
Proof.
  intros Hm Hh s. specialize (Hm s). unfold try_catch.
  destruct (m s) as [[a|e| |] s1]; simpl in *; try done.
  etrans; [done|]. apply Hh.
Qed.

Lemma keeps_catch_runtime {A} (m : M S A) h :
  keeps R m -> (forall e, keeps R (h e)) -> keeps R (catch_runtime m h).
Proof.
  intros Hm Hh. apply keeps_try_catch; [done|]. intros []; auto using keeps_throw.
Qed.

Lemma keeps_catch_std {A} (m : M S A) h :
  keeps R m -> (forall e, keeps R (h e)) -> keeps R (catch_std m h).
Proof.
  intros Hm Hh. apply keeps_try_catch; [done|]. intros []; auto using keeps_throw.
Qed.

Lemma keeps_gets {A} (f : S -> A) : keeps R (gets f).
Proof. intros s. simpl. reflexivity. Qed.

Lemma keeps_defined {A} (o : option A) : keeps R (defined o).
Proof. destruct o; simpl; auto using keeps_ret, keeps_undefined. Qed.

Lemma keeps_loop {X A} fuel (body : X -> M S (X + A)) x :
  (forall x, keeps R (body x)) -> keeps R (loop fuel body x).
Proof.
  intros Hb. revert x. induction fuel as [|fuel IH]; intros x; simpl;
    [apply keeps_unfinished|].
  apply keeps_bind; [done|]. intros [x'|a]; [done|apply keeps_ret].
Qed.

Lemma keeps_for_each {X} (l : list X) (body : X -> M S unit) :
  (forall x, keeps R (body x)) -> keeps R (for_each l body).
Proof.
  intros Hb. induction l as [|x l IH]; simpl; [apply keeps_ret|].
  apply keeps_bind; auto.
Qed.

End Keeps.

(** A run that returned, at the state it returned in. *)
Lemma keeps_returned (R : S -> S -> Prop) {A} (m : M S A) s o s' :
  keeps R m -> m s = (o, s') -> R s s'.
Proof. intros H E. specialize (H s). by rewrite E in H. Qed.

End EffectLemmas.

Create HintDb keeps discriminated.
#[export] Hint Resolve keeps_ret keeps_throw keeps_undefined keeps_unfinished keeps_bind
  keeps_try_catch keeps_catch_runtime keeps_catch_std keeps_gets keeps_defined keeps_loop
  keeps_for_each : keeps.
#[export] Hint Extern 0 (PreOrder _) => typeclasses eauto : keeps.

(** Follows the structure of a computation and splits on its conditions;
    primitives are left to the hints. *)
Ltac keeps_step :=
  match goal with
  | |- PreOrder _ => typeclasses eauto
  | |- keeps _ (match ?x with _ => _ end) => destruct x
  | |- forall _, _ => intro
  | |- keeps _ _ => first [solve [eauto 2 with keeps] |
      apply keeps_bind | apply keeps_catch_runtime |
      apply keeps_catch_std | apply keeps_try_catch |
      apply keeps_loop | apply keeps_for_each ]
  end.
Ltac keeps_tac := repeat keeps_step.

#[export] Hint Resolve bind_finished try_catch_finished for_each_finished : mdl.

(** ** [std::map<uint16_t, V>]

    An association list in ascending key order, the order every traversal of
    the source follows. *)
Section OrderedMap.
Context {V : Type}.

Definition omap : Type := list (Z * V).

Fixpoint omap_find (k : Z) (m : omap) : option V :=
  match m with
  | [] => None
  | (k', v) :: t => if k =? k' then Some v else omap_find k t
  end.

(** [m[k] = v]. *)
Fixpoint omap_set (k : Z) (v : V) (m : omap) : omap :=
  match m with
  | [] => [(k, v)]
  | (k', v') :: t =>
      if k <? k' then (k, v) :: m
      else if k =? k' then (k, v) :: t
      else (k', v') :: omap_set k v t
  end.

(** [m.emplace(k, v)]: keeps an existing entry. *)
Definition omap_emplace (k : Z) (v : V) (m : omap) : omap :=
  match omap_find k m with Some _ => m | None => omap_set k v m end.

(** [m.erase(k)]. *)
Fixpoint omap_erase (k : Z) (m : omap) : omap :=
  match m with
  | [] => []
  | (k', v) :: t => if k =? k' then t else (k', v) :: omap_erase k t
  end.

(** Strictly ascending keys above [lo]. *)
Fixpoint omap_above (lo : Z) (m : omap) : Prop :=
  match m with
  | [] => True
  | (k, _) :: t => lo < k /\ omap_above k t
  end.

Definition omap_sorted (m : omap) : Prop :=
  match m with [] => True | (k, _) :: t => omap_above k t end.

Lemma omap_above_weaken lo lo' m : lo' <= lo -> omap_above lo m -> omap_above lo' m.
Proof. destruct m as [|[k v] t]; simpl; [done|]. intros ? [??]; split; [lia|done]. Qed.

Lemma omap_above_find lo m k v : omap_above lo m -> omap_find k m = Some v -> lo < k.
Proof.
  revert lo. induction m as [|[k' v'] t IH]; intros lo; [done|]. simpl.
  intros [Hlo Ht]. destruct (Z.eqb_spec k k') as [->|]; [lia|].
  intros Hf. pose proof (IH _ Ht Hf). lia.
Qed.

Lemma omap_sorted_above m : omap_sorted m -> exists lo, omap_above lo m.
Proof. destruct m as [|[k v] t]; [by exists 0|]. intros H. exists (k - 1). split; [lia|done]. Qed.

Lemma omap_above_sorted lo m : omap_above lo m -> omap_sorted m.
Proof. destruct m as [|[k v] t]; [done|]. by intros [_ ?]. Qed.

Lemma omap_set_above lo k v m : lo < k -> omap_above lo m -> omap_above lo (omap_set k v m).
Proof.
  revert lo. induction m as [|[k' v'] t IH]; intros lo Hk; simpl; [done|].
  intros [Hlo Ht]. destruct (Z.ltb_spec k k'); [by repeat split|].
  destruct (Z.eqb_spec k k') as [->|]; [done|]. split; [done|]. apply IH; [lia|done].
Qed.

Lemma omap_set_sorted k v m : omap_sorted m -> omap_sorted (omap_set k v m).
Proof.
  intros [lo H]%omap_sorted_above.
  apply (omap_above_sorted (Z.min (k - 1) lo)), omap_set_above; [lia|].
  eapply omap_above_weaken; [|done]. lia.
Qed.

Lemma omap_emplace_sorted k v m : omap_sorted m -> omap_sorted (omap_emplace k v m).
Proof. unfold omap_emplace. destruct (omap_find k m); auto using omap_set_sorted. Qed.

Lemma omap_erase_above lo k m : omap_above lo m -> omap_above lo (omap_erase k m).
Proof.
  revert lo. induction m as [|[k' v'] t IH]; intros lo; simpl; [done|].
  intros [Hlo Ht]. destruct (Z.eqb_spec k k') as [->|].
  - eapply omap_above_weaken; [|done]. lia.
  - split; [done|]. by apply IH.
Qed.

Lemma omap_erase_sorted k m : omap_sorted m -> omap_sorted (omap_erase k m).
Proof. intros [lo H]%omap_sorted_above. by eapply omap_above_sorted, omap_erase_above. Qed.

Lemma omap_find_set k k' v m :
  omap_find k (omap_set k' v m) = if k =? k' then Some v else omap_find k m.
Proof.
  induction m as [|[k1 v1] t IH]; simpl; [done|].
  destruct (Z.ltb_spec k' k1); simpl; [done|].
  destruct (Z.eqb_spec k' k1) as [->|]; simpl; [by destruct (k =? k1)|].
  rewrite IH. destruct (Z.eqb_spec k k1) as [->|], (Z.eqb_spec k1 k'); try done; lia.
Qed.

Lemma omap_find_erase k k' m :
  omap_sorted m ->
  omap_find k (omap_erase k' m) = if k =? k' then None else omap_find k m.
Proof.
  intros [lo H]%omap_sorted_above. revert lo H.
  induction m as [|[k1 v1] t IH]; intros lo; simpl; [by destruct (k =? k')|].
  intros [Hlo Ht]. destruct (Z.eqb_spec k' k1) as [->|Hne].
  - destruct (Z.eqb_spec k k1) as [->|]; [|done].
    destruct (omap_find k1 t) eqn:E; [|done].
    pose proof (omap_above_find _ _ _ _ Ht E). lia.
  - simpl. rewrite (IH _ Ht).
    destruct (Z.eqb_spec k k1) as [->|]; [|done]. destruct (Z.eqb_spec k1 k'); [lia|done].
Qed.

Lemma omap_find_In k m v : omap_find k m = Some v -> In (k, v) m.
Proof.
  induction m as [|[k' v'] t IH]; simpl; [done|].
  destruct (Z.eqb_spec k k') as [->|]; [intros [= ->]; by left|]. auto.
Qed.

Lemma omap_In_find k m v : omap_sorted m -> In (k, v) m -> omap_find k m = Some v.
Proof.
  intros [lo H]%omap_sorted_above. revert lo H.
  induction m as [|[k' v'] t IH]; intros lo; simpl; [done|]. intros [_ Ht] [[= <- <-]|Hin].
  - by rewrite Z.eqb_refl.
  - pose proof (IH _ Ht Hin) as Hf. pose proof (omap_above_find _ _ _ _ Ht Hf).
    destruct (Z.eqb_spec k k'); [lia|done].
Qed.

(** A table that finds nothing is empty. *)
Lemma omap_find_nil m : (forall k, omap_find k m = None) -> m = [].
Proof.
  destruct m as [|[k v] t]; [done|]. intros H. specialize (H k). simpl in H.
  by rewrite Z.eqb_refl in H.
Qed.

Lemma omap_find_emplace k k' v m :
  omap_find k' m = None ->
  omap_find k (omap_emplace k' v m) = if k =? k' then Some v else omap_find k m.
Proof. intros H. unfold omap_emplace. rewrite H. apply omap_find_set. Qed.

End OrderedMap.
Arguments omap V : clear implicits.

#[export] Hint Resolve omap_set_sorted omap_emplace_sorted omap_erase_sorted : mdl.
