(* ===== verification/Float32.v ===== *)
(** * IEEE-754 binary32 arithmetic, as the C++ [float] of the source

    A [float] is a [spec_float] of the Standard Library at precision 24 and
    maximal exponent 128; every operation rounds once, to nearest even (no
    contraction, no extended precision).  A NaN carries no payload.  The file
    ends with the lemma family the bounds of the wire protocol rest on: an
    operation whose exact result lies between zero and a representable number
    does not leave that interval by rounding. *)

From Stdlib Require Export SpecFloat.
From S2P Require Import Prelude.

Abbreviation f32 := spec_float.

Definition f32_zero : f32 := S754_zero false.
Definition f32_add : f32 -> f32 -> f32 := SFadd 24 128.
Definition f32_sub : f32 -> f32 -> f32 := SFsub 24 128.
Definition f32_mul : f32 -> f32 -> f32 := SFmul 24 128.
Definition f32_div : f32 -> f32 -> f32 := SFdiv 24 128.
Definition f32_sqrt : f32 -> f32 := SFsqrt 24 128.

(** [static_cast<float>(n)] on an integer. *)
Definition f32_of_Z (z : Z) : f32 := binary_normalize 24 128 z 0 false.

(** The literal [n/d] of the source ([0.15f] is [f32_lit 15 100]): both parts
    are below 2^24, so one correctly rounded division gives the nearest float. *)
Definition f32_lit (n d : Z) : f32 := f32_div (f32_of_Z n) (f32_of_Z d).

(** Comparisons: false as soon as an operand is NaN. *)
Definition f32_lt : f32 -> f32 -> bool := SFltb.
Definition f32_le : f32 -> f32 -> bool := SFleb.
Definition f32_gt (x y : f32) : bool := SFltb y x.
Definition f32_ge (x y : f32) : bool := SFleb y x.

Definition f32_isfinite (x : f32) : bool :=
  match x with S754_zero _ | S754_finite _ _ _ => true | _ => false end.
Definition f32_isnan (x : f32) : bool :=
  match x with S754_nan => true | _ => false end.

(** [std::max(a, b)] is [(a < b) ? b : a]; [std::min(a, b)] is
    [(b < a) ? b : a]; [std::clamp(v, lo, hi)] is
    [(v < lo) ? lo : (hi < v) ? hi : v]. *)
Definition f32_max (a b : f32) : f32 := if f32_lt a b then b else a.
Definition f32_min (a b : f32) : f32 := if f32_lt b a then b else a.
Definition f32_clamp (v lo hi : f32) : f32 :=
  if f32_lt v lo then lo else if f32_lt hi v then hi else v.

(** [std::fabs], [std::copysign] and unary minus. *)
Definition f32_abs : f32 -> f32 := SFabs.
Definition f32_opp : f32 -> f32 := SFopp.
Definition f32_signbit (x : f32) : bool :=
  match x with
  | S754_zero s | S754_infinity s | S754_finite s _ _ => s
  | S754_nan => false
  end.
Definition f32_copysign (magnitude sign : f32) : f32 :=
  if f32_signbit sign then SFopp (SFabs magnitude) else SFabs magnitude.

(** [static_cast<uintN_t>(x)]: truncation toward zero, undefined behaviour
    ([None]) for NaN and for a value that does not fit. *)
Definition f32_trunc (x : f32) : option Z :=
  match x with
  | S754_zero _ => Some 0
  | S754_finite s m e =>
      let a := if 0 <=? e then Zpos m * 2 ^ e else Zpos m / 2 ^ (- e) in
      Some (if s then - a else a)
  | _ => None
  end.

Definition f32_to_unsigned (w : Z) (x : f32) : option Z :=
  match f32_trunc x with
  | Some z => if (0 <=? z) && (z <? 2 ^ w) then Some z else None
  | None => None
  end.

(** ** The object representation: 32 bits, little endian *)
Definition bits_of_f32 (x : f32) : Z :=
  match x with
  | S754_zero s => if s then 2 ^ 31 else 0
  | S754_infinity s => (if s then 2 ^ 31 else 0) + 255 * 2 ^ 23
  | S754_nan => 511 * 2 ^ 22
  | S754_finite s m e =>
      (if s then 2 ^ 31 else 0) +
      (if Zpos m <? 2 ^ 23 then Zpos m else (e + 150) * 2 ^ 23 + (Zpos m - 2 ^ 23))
  end.

Definition f32_of_bits (b : Z) : f32 :=
  let s := Z.testbit b 31 in
  let ef := (b / 2 ^ 23) mod 2 ^ 8 in
  let mf := b mod 2 ^ 23 in
  if ef =? 255 then if mf =? 0 then S754_infinity s else S754_nan
  else if ef =? 0 then
    match mf with Zpos m => S754_finite s m (-149) | _ => S754_zero s end
  else
    match mf + 2 ^ 23 with Zpos m => S754_finite s m (ef - 150) | _ => S754_nan end.

(** ** Numerical value

    Every finite float is an integer multiple of 2^-149: [f32_units] counts
    these units, so order and exact arithmetic are order and arithmetic of Z. *)
Definition f32_units (x : f32) : Z :=
  match x with
  | S754_finite s m e => cond_Zopp s (Zpos m * 2 ^ (e + 149))
  | _ => 0
  end.

Definition f32_valid (x : f32) : Prop := valid_binary 24 128 x = true.

(** Finite, with an exponent the format has. *)
Definition f32_regular (x : f32) : Prop :=
  match x with
  | S754_zero _ => True
  | S754_finite _ m e => -149 <= e
  | _ => False
  end.

(** A bound the format represents: [mb * 2^eb] with a 24-bit significand. *)
Definition f32_bound (b : Z) : Prop :=
  exists mb eb, b = mb * 2 ^ eb /\ 0 <= mb < 2 ^ 24 /\ 0 <= eb <= 253.

(** The same without a largest exponent. *)
Definition f32_scale (b : Z) : Prop :=
  exists mb eb, b = mb * 2 ^ eb /\ 0 <= mb < 2 ^ 24 /\ 0 <= eb.

Lemma f32_bound_scale b : f32_bound b -> f32_scale b.
Proof. intros (mb & eb & ? & ? & ?). exists mb, eb. lia. Qed.

(** ** Rounding

    [digits2_pos m] brackets [m] between two powers of two. *)
Lemma digits2_pos_bounds m :
  2 ^ (Zpos (digits2_pos m) - 1) <= Zpos m < 2 ^ Zpos (digits2_pos m).
Proof.
  induction m as [m IH|m IH|]; cbn [digits2_pos]; rewrite ?Pos2Z.inj_succ; [| |lia];
    replace (Z.succ (Zpos (digits2_pos m)) - 1) with (Zpos (digits2_pos m) - 1 + 1) by lia;
    rewrite Z.pow_succ_r, Z.pow_add_r by lia; lia.
Qed.

Lemma digits2_pos_le m k : Zpos m < 2 ^ k -> Zpos (digits2_pos m) <= k.
Proof.
  intros H. destruct (digits2_pos_bounds m) as [Hlo _].
  assert (0 <= k) by (destruct (decide (0 <= k)); [done|]; rewrite Z.pow_neg_r in H; lia).
  assert (Zpos (digits2_pos m) - 1 < k) by (apply (Z.pow_lt_mono_r_iff 2); lia). lia.
Qed.

Lemma digits2_pos_ge m k : 0 <= k -> 2 ^ k <= Zpos m -> k < Zpos (digits2_pos m).
Proof.
  intros Hk H. destruct (digits2_pos_bounds m) as [_ Hhi].
  apply (Z.pow_lt_mono_r_iff 2); lia.
Qed.

(** One right shift of a nonnegative significand: the quotient, and a round bit
    that is only set when a one was shifted out. *)
Lemma shr_1_spec m r s :
  0 <= m ->
  shr_m (shr_1 {| shr_m := m; shr_r := r; shr_s := s |}) = m / 2 /\
  (shr_r (shr_1 {| shr_m := m; shr_r := r; shr_s := s |}) = true -> m mod 2 = 1).
Proof.
  intros Hm. destruct m as [|[p|p|]|p]; simpl; try lia; split; try done.
  - rewrite (Pos2Z.inj_xI p). apply (Z.div_unique _ _ _ 1); lia.
  - intros _. rewrite (Pos2Z.inj_xI p). symmetry. apply (Z.mod_unique _ _ (Zpos p)); lia.
  - rewrite (Pos2Z.inj_xO p). apply (Z.div_unique _ _ _ 0); lia.
Qed.

Lemma iter_pos_swap {A} (f : A -> A) n x :
  SpecFloat.iter_pos f n (f x) = f (SpecFloat.iter_pos f n x).
Proof. revert x. induction n as [n IH|n IH|]; intros x; simpl; by rewrite ?IH. Qed.

Lemma iter_pos_succ {A} (f : A -> A) n x :
  SpecFloat.iter_pos f (Pos.succ n) x = SpecFloat.iter_pos f n (f x).
Proof.
  revert x. induction n as [n IH|n IH|]; intros x; simpl; try done.
  by rewrite !IH, !iter_pos_swap.
Qed.

Lemma shr_iter_spec p : forall m r s,
  0 <= m ->
  let o := SpecFloat.iter_pos shr_1 p {| shr_m := m; shr_r := r; shr_s := s |} in
  shr_m o = m / 2 ^ Zpos p /\ (shr_r o = true -> 0 < m mod 2 ^ Zpos p).
Proof.
  induction p as [|p IH] using Pos.peano_ind; intros m r s Hm o; subst o.
  - simpl SpecFloat.iter_pos. destruct (shr_1_spec m r s Hm) as [H1 H2].
    change (2 ^ 1) with 2. split; [done|]. intros H. specialize (H2 H). lia.
  - rewrite iter_pos_succ. destruct (shr_1_spec m r s Hm) as [H1 H2].
    destruct (shr_1 {| shr_m := m; shr_r := r; shr_s := s |}) as [m1 r1 s1] eqn:E.
    simpl in H1, H2. subst m1.
    destruct (IH (m / 2) r1 s1 ltac:(apply Z.div_pos; lia)) as [IH1 IH2].
    rewrite Pos2Z.inj_succ, Z.pow_succ_r by lia.
    assert (0 < 2 ^ Zpos p) by (apply Z.pow_pos_nonneg; lia).
    split; [rewrite IH1, Z.div_div by lia; done|].
    intros Hr. specialize (IH2 Hr). rewrite Z.rem_mul_r by lia.
    pose proof (Z.mod_pos_bound m 2). nia.
Qed.

(** The mantissa a shift by [e' - e] leaves, and when rounding may go up. *)
Lemma shr_fexp_spec {prec emax} m e l mrs e' :
  0 <= m -> shr_fexp prec emax m e l = (mrs, e') ->
  e' = Z.max e (fexp prec emax (Zdigits2 m + e)) /\
  shr_m mrs = m / 2 ^ (e' - e) /\
  (shr_r mrs = true -> 0 < m mod 2 ^ (e' - e) \/ (e' = e /\ l <> loc_Exact)).
Proof.
  intros Hm. unfold shr_fexp, shr.
  set (n := fexp prec emax (Zdigits2 m + e) - e).
  assert (Hrec : shr_record_of_loc m l = {| shr_m := m;
    shr_r := match l with loc_Inexact (Eq | Gt) => true | _ => false end;
    shr_s := match l with loc_Inexact (Lt | Gt) => true | _ => false end |})
    by (destruct l as [|[]]; done).
  destruct n as [|p|p] eqn:En; intros [= <- <-].
  - replace (Z.max _ _) with e by lia. rewrite Z.sub_diag, Z.div_1_r, Hrec. simpl.
    split; [done|]. split; [done|]. intros H. right. split; [done|]. by destruct l.
  - replace (Z.max _ _) with (e + Zpos p) by lia. split; [done|].
    replace (e + Zpos p - e) with (Zpos p) by lia. rewrite Hrec.
    edestruct (shr_iter_spec p m) as [H1 H2]; [done|].
    rewrite H1. split; [done|]. intros H. left. by apply H2.
  - replace (Z.max _ _) with e by lia. rewrite Z.sub_diag, Z.div_1_r, Hrec. simpl.
    split; [done|]. split; [done|]. intros H. right. split; [done|]. by destruct l.
Qed.

(** Rounding a mantissa up needs a set round bit. *)
Lemma round_nearest_even_cases mrs :
  let m := shr_m mrs in
  let r := round_nearest_even m (loc_of_shr_record mrs) in
  r = m \/ (r = m + 1 /\ shr_r mrs = true).
Proof. destruct mrs as [m [] []]; simpl; try destruct (Z.even m); auto. Qed.

(** *** Rounding stays below a representable bound

    [b] is the bound in units, and the exact value is known by two facts: it is
    at least [m * 2^(e+149)] units, strictly when the location is inexact, and
    at most [b]. *)
Lemma f32_scale_multiple b k t :
  f32_scale b -> 0 <= k -> 0 <= t ->
  t * 2 ^ k < b -> (k = 0 \/ 2 ^ 23 <= t) -> (t + 1) * 2 ^ k <= b.
Proof.
  intros (mb & eb & -> & Hmb & Heb) Hk Ht Hlt Hnorm.
  assert (0 < 2 ^ k) by (apply Z.pow_pos_nonneg; lia).
  destruct (decide (k <= eb)) as [Hle|Hgt].
  - replace eb with ((eb - k) + k) in * by lia. rewrite Z.pow_add_r in * by lia.
    set (c := mb * 2 ^ (eb - k)) in *.
    replace (mb * (2 ^ (eb - k) * 2 ^ k)) with (c * 2 ^ k) in * by (subst c; lia).
    assert (t < c) by nia. nia.
  - exfalso. destruct Hnorm as [->|Hn]; [lia|].
    replace k with (eb + (k - eb)) in Hlt by lia. rewrite Z.pow_add_r in Hlt by lia.
    assert (2 <= 2 ^ (k - eb)).
    { replace (k - eb) with (1 + (k - eb - 1)) by lia. rewrite Z.pow_add_r by lia.
      assert (0 < 2 ^ (k - eb - 1)) by (apply Z.pow_pos_nonneg; lia). lia. }
    assert (0 < 2 ^ eb) by (apply Z.pow_pos_nonneg; lia).
    assert (2 ^ 24 <= t * 2 ^ (k - eb)) by nia.
    set (c := t * 2 ^ (k - eb)) in *. set (a := 2 ^ eb) in *.
    replace (t * (a * 2 ^ (k - eb))) with (c * a) in Hlt by (subst c; lia). nia.
Qed.

Lemma fexp_ge d : -149 <= fexp 24 128 d.
Proof. unfold fexp, emin. lia. Qed.

Lemma Zdigits2_pos m : 0 < m -> 2 ^ (Zdigits2 m - 1) <= m < 2 ^ Zdigits2 m.
Proof. destruct m as [|p|p]; try lia. intros _. apply digits2_pos_bounds. Qed.

Lemma Zdigits2_nonneg m : 0 <= m -> 0 <= Zdigits2 m.
Proof. destruct m; simpl; lia. Qed.

(** [m * 2^e], at least one unit in the last place apart from [lx], is at most
    [b] units; strictly less when [lx] records a lost remainder. *)
Definition at_most (m e : Z) (lx : location) (b : Z) : Prop :=
  let p := m * 2 ^ Z.max 0 (e + 149) in
  let q := b * 2 ^ Z.max 0 (- (e + 149)) in
  p <= q /\ (lx <> loc_Exact -> p < q).

Lemma pow2_pos k : 0 <= k -> 0 < 2 ^ k.
Proof. intros. by apply Z.pow_pos_nonneg. Qed.

(** After the first shift: the mantissa has at most 24 bits, exactly 24 unless
    the exponent is the least one, and rounding it keeps the value below [b]. *)
Lemma shift_round_below m e lx b mrs e' :
  0 <= m -> e <= fexp 24 128 (Zdigits2 m + e) -> f32_scale b -> at_most m e lx b ->
  shr_fexp 24 128 m e lx = (mrs, e') ->
  let t := shr_m mrs in
  let r := round_nearest_even t (loc_of_shr_record mrs) in
  -149 <= e' /\ 0 <= t < 2 ^ 24 /\ (e' = -149 \/ 2 ^ 23 <= t) /\ t <= r <= t + 1 /\
  r * 2 ^ (e' + 149) <= b.
Proof.
  intros Hm Hex Hb Hle Hshr t r.
  destruct (shr_fexp_spec m e lx mrs e' Hm Hshr) as (He' & Ht & Hr).
  pose proof (fexp_ge (Zdigits2 m + e)) as Hmin.
  pose proof (pow2_pos (e' - e) ltac:(lia)) as Hpow.
  assert (Ht0 : 0 <= t) by (subst t; rewrite Ht; apply Z.div_pos; lia).
  assert (Hnorm : e' = -149 \/ 2 ^ 23 <= t).
  { destruct (decide (e' = -149)) as [|Hne]; [by left|right].
    assert (e' = Zdigits2 m + e - 24) by (unfold fexp, emin in *; lia).
    assert (0 < m) by (destruct m; simpl in *; lia).
    destruct (Zdigits2_pos m) as [Hlo _]; [done|]. subst t. rewrite Ht.
    apply Z.div_le_lower_bound; [lia|]. rewrite <- Z.pow_add_r by lia.
    etrans; [|done]. apply Z.pow_le_mono_r; lia. }
  assert (Htlt : t < 2 ^ 24).
  { subst t. rewrite Ht. apply Z.div_lt_upper_bound; [lia|].
    rewrite <- Z.pow_add_r by lia. destruct (decide (m = 0)) as [->|].
    - apply pow2_pos. lia.
    - destruct (Zdigits2_pos m) as [_ Hhi]; [lia|]. eapply Z.lt_le_trans; [done|].
      apply Z.pow_le_mono_r; unfold fexp, emin in *; lia. }
  (* the shifted value, and its strictness when bits were lost *)
  assert (Hval : t * 2 ^ (e' + 149) <= b /\
                 (shr_r mrs = true -> t * 2 ^ (e' + 149) < b)).
  { destruct Hle as [Hle Hlt]. subst t. rewrite Ht.
    pose proof (Z.div_mod m (2 ^ (e' - e)) ltac:(lia)) as Hdm.
    pose proof (Z.mod_pos_bound m (2 ^ (e' - e)) ltac:(lia)) as Hmod.
    set (q := m / 2 ^ (e' - e)) in *. set (w := m mod 2 ^ (e' - e)) in *.
    set (P := Z.max 0 (e + 149)) in *. set (N := Z.max 0 (- (e + 149))) in *.
    pose proof (pow2_pos P ltac:(lia)). pose proof (pow2_pos N ltac:(lia)).
    assert (Hsplit : 2 ^ (e' - e) * 2 ^ P = 2 ^ (e' + 149) * 2 ^ N)
      by (rewrite <- !Z.pow_add_r by lia; f_equal; lia).
    assert (Heq : m * 2 ^ P = q * 2 ^ (e' + 149) * 2 ^ N + w * 2 ^ P) by nia.
    split; [nia|]. intros Hrt. destruct (Hr Hrt) as [Hw|[_ Hne]]; [nia|].
    specialize (Hlt Hne). nia. }
  destruct Hval as [Hval Hstrict].
  destruct (round_nearest_even_cases mrs) as [Hre|[Hre Hbit]]; fold t in Hre; fold r in Hre.
  - rewrite Hre. split_and!; try done; lia.
  - rewrite Hre. split_and!; try done; try lia.
    apply f32_scale_multiple; [done|lia|done|by apply Hstrict|].
    destruct Hnorm; [left; lia | by right].
Qed.

(** The renormalising second shift keeps the value from growing and leaves a
    canonical mantissa. *)
Lemma renormalise r e' mrs e'' :
  0 <= r <= 2 ^ 24 -> -149 <= e' -> (e' = -149 \/ 2 ^ 23 <= r) ->
  shr_fexp 24 128 r e' loc_Exact = (mrs, e'') ->
  let m := shr_m mrs in
  -149 <= e'' /\ 0 <= m < 2 ^ 24 /\ (e'' = -149 \/ 2 ^ 23 <= m) /\
  m * 2 ^ (e'' + 149) <= r * 2 ^ (e' + 149).
Proof.
  intros Hr He' Hnorm Hshr m.
  destruct (shr_fexp_spec r e' loc_Exact mrs e'' ltac:(lia) Hshr) as (He'' & Hm & _).
  destruct (decide (r = 2 ^ 24)) as [->|Hne].
  - assert (Hd : Zdigits2 (2 ^ 24) = 25) by reflexivity.
    rewrite Hd in He''. unfold fexp, emin in He''.
    assert (e'' = e' + 1) as -> by lia. subst m. rewrite Hm.
    replace (e' + 1 - e') with 1 by lia. change (2 ^ 24 / 2 ^ 1) with (2 ^ 23).
    replace (e' + 1 + 149) with (1 + (e' + 149)) by lia.
    rewrite Z.pow_add_r by lia. split_and!; lia.
  - assert (Hd : 0 <= Zdigits2 r <= 24).
    { destruct r as [|p|p]; simpl; try lia. pose proof (digits2_pos_le p 24). lia. }
    assert (e'' = e') as -> by (unfold fexp, emin in *; lia).
    subst m. rewrite Hm, Z.sub_diag, Z.div_1_r. split_and!; try done; lia.
Qed.

Lemma f32_valid_intro s m e :
  -149 <= e <= 104 -> Zpos m < 2 ^ 24 -> (e = -149 \/ 2 ^ 23 <= Zpos m) ->
  f32_valid (S754_finite s m e).
Proof.
  intros He Hm Hnorm. unfold f32_valid, valid_binary, bounded, canonical_mantissa.
  pose proof (digits2_pos_le m 24 Hm) as Hd.
  assert (Hge : 2 ^ 23 <= Zpos m -> 23 < Zpos (digits2_pos m)) by (apply digits2_pos_ge; lia).
  apply andb_true_intro. split; [|apply Z.leb_le; lia].
  apply Z.eqb_eq. unfold fexp, emin. lia.
Qed.

Lemma f32_valid_inv s m e :
  f32_valid (S754_finite s m e) ->
  -149 <= e <= 104 /\ Zpos m < 2 ^ 24 /\ (e = -149 \/ 2 ^ 23 <= Zpos m).
Proof.
  unfold f32_valid, valid_binary, bounded, canonical_mantissa.
  intros [Hc He]%andb_prop. apply Z.eqb_eq in Hc. apply Z.leb_le in He.
  unfold fexp, emin in Hc. destruct (digits2_pos_bounds m) as [Hlo Hhi].
  split_and!; [lia|lia| |].
  - eapply Z.lt_le_trans; [done|]. apply Z.pow_le_mono_r; lia.
  - destruct (decide (e = -149)) as [|]; [by left|right].
    etrans; [|done]. apply Z.pow_le_mono_r; lia.
Qed.

(** A finite valid float with the given sign and at most [b] units. *)
Definition f32_within (s : bool) (b : Z) (x : f32) : Prop :=
  f32_valid x /\ f32_isfinite x = true /\ (f32_units x <> 0 -> f32_signbit x = s) /\
  0 <= Z.abs (f32_units x) <= b.

Lemma binary_round_aux_below s m e lx b :
  0 <= m -> e <= fexp 24 128 (Zdigits2 m + e) -> f32_bound b -> at_most m e lx b ->
  f32_within s b (binary_round_aux 24 128 s m e lx).
Proof.
  intros Hm Hex Hb Hle. unfold binary_round_aux.
  destruct (shr_fexp 24 128 m e lx) as [mrs e'] eqn:E1.
  destruct (shift_round_below m e lx b mrs e' Hm Hex (f32_bound_scale b Hb) Hle E1) as (He' & Ht & Hn & Hr & Hv).
  set (r := round_nearest_even _ _) in *.
  destruct (shr_fexp 24 128 r e' loc_Exact) as [mrs2 e''] eqn:E2.
  destruct (renormalise r e' mrs2 e'' ltac:(lia) He' ltac:(lia) E2) as (He'' & Hm2 & Hn2 & Hv2).
  assert (Hb0 : 0 <= b < 2 ^ 277).
  { destruct Hb as (mb & eb & -> & Hmb & Heb). pose proof (pow2_pos eb ltac:(lia)).
    split; [nia|]. change (2 ^ 277) with (2 ^ 24 * 2 ^ 253).
    assert (2 ^ eb <= 2 ^ 253) by (apply Z.pow_le_mono_r; lia). nia. }
  destruct (shr_m mrs2) as [|m2|m2]; [| |lia].
  - unfold f32_within. simpl. split_and!; try done; lia.
  - assert (He104 : e'' <= 104).
    { destruct (decide (e'' <= 104)); [done|]. exfalso.
      assert (2 ^ 277 <= Zpos m2 * 2 ^ (e'' + 149)); [|lia].
      change (2 ^ 277) with (2 ^ 23 * 2 ^ 254).
      assert (2 ^ 254 <= 2 ^ (e'' + 149)) by (apply Z.pow_le_mono_r; lia).
      pose proof (pow2_pos 254 ltac:(lia)). nia. }
    destruct (Z.leb_spec e'' (128 - 24)); [|lia].
    unfold f32_within. split_and!; simpl; try done.
    + apply f32_valid_intro; lia.
    + lia.
    + pose proof (pow2_pos (e'' + 149) ltac:(lia)).
      destruct s; cbn [cond_Zopp]; rewrite ?Z.abs_opp, Z.abs_eq; nia.
Qed.

(** *** The operations *)

Lemma f32_units_signed x :
  f32_units x = (if f32_signbit x then -1 else 1) * Z.abs (f32_units x).
Proof.
  destruct x as [s|s| |s m e]; simpl; try lia.
  assert (0 <= Zpos m * 2 ^ (e + 149)) by (apply Z.mul_nonneg_nonneg; [lia|apply Z.pow_nonneg; lia]).
  destruct s; cbn [cond_Zopp]; lia.
Qed.

Lemma cond_Zopp_mul s t z : cond_Zopp s (z * t) = cond_Zopp s z * t.
Proof. destruct s; cbn [cond_Zopp]; lia. Qed.

Lemma iter_xO_spec p d : Zpos (Pos.iter xO p d) = Zpos p * 2 ^ Zpos d.
Proof.
  induction d as [|d IH] using Pos.peano_ind; [simpl; lia|].
  rewrite Pos.iter_succ, Pos2Z.inj_succ, Z.pow_succ_r by lia.
  rewrite (Pos2Z.inj_xO (Pos.iter xO p d)), IH. lia.
Qed.

Lemma shl_align_spec m e e' :
  let '(m', e1) := shl_align m e e' in
  e1 = Z.min e e' /\ Zpos m' = Zpos m * 2 ^ (e - e1).
Proof.
  unfold shl_align. destruct (e' - e) as [|d|d] eqn:E.
  - split; [lia|]. rewrite Z.sub_diag. lia.
  - split; [lia|]. rewrite Z.sub_diag. lia.
  - split; [lia|]. rewrite iter_xO_spec. f_equal. f_equal. lia.
Qed.

Lemma Zdigits2_shift m k : 0 < m -> 0 <= k -> Zdigits2 (m * 2 ^ k) = Zdigits2 m + k.
Proof.
  intros Hm Hk. destruct (Zdigits2_pos m Hm) as [H1 H2].
  pose proof (pow2_pos k Hk). assert (Hmk : 0 < m * 2 ^ k) by nia.
  destruct (Zdigits2_pos _ Hmk) as [H3 H4].
  assert (Zdigits2 m - 1 + k < Zdigits2 (m * 2 ^ k)).
  { apply (Z.pow_lt_mono_r_iff 2); [lia|apply Zdigits2_nonneg; lia|].
    assert (0 <= Zdigits2 m - 1).
    { destruct (decide (0 <= Zdigits2 m - 1)); [done|]. destruct m; simpl in *; lia. }
    rewrite Z.pow_add_r by lia. nia. }
  assert (Zdigits2 (m * 2 ^ k) - 1 < Zdigits2 m + k).
  { apply (Z.pow_lt_mono_r_iff 2); [lia| pose proof (Zdigits2_nonneg m); lia|].
    rewrite Z.pow_add_r by (pose proof (Zdigits2_nonneg m); lia). nia. }
  lia.
Qed.

(** Rounding [z * 2^e] with [e] not below the least exponent. *)
Lemma binary_normalize_below z e s0 b :
  -149 <= e -> f32_bound b -> Z.abs z * 2 ^ (e + 149) <= b ->
  f32_within (z <? 0) b (binary_normalize 24 128 z e s0).
Proof.
  intros He Hb Hz.
  assert (Hround : forall p s, Zpos p * 2 ^ (e + 149) <= b ->
    f32_within s b (binary_round 24 128 s p e)).
  { intros p s Hp. unfold binary_round.
    set (f := fexp 24 128 (Zpos (digits2_pos p) + e)).
    pose proof (shl_align_spec p e f) as Hal.
    destruct (shl_align p e f) as [p' e1]. destruct Hal as [-> Hp'].
    pose proof (fexp_ge (Zpos (digits2_pos p) + e)).
    apply binary_round_aux_below; [lia| |done|].
    - rewrite Hp'. change (Zpos (digits2_pos p)) with (Zdigits2 (Zpos p)) in *.
      rewrite Zdigits2_shift by lia.
      replace (Zdigits2 (Zpos p) + (e - Z.min e f) + Z.min e f) with (Zdigits2 (Zpos p) + e) by lia.
      subst f. lia.
    - unfold at_most. rewrite Hp'. replace (Z.max 0 (- (_))) with 0 by lia.
      replace (Z.max 0 (Z.min e f + 149)) with (Z.min e f + 149) by lia.
      rewrite <- Z.mul_assoc, <- Z.pow_add_r by lia.
      replace (e - Z.min e f + (Z.min e f + 149)) with (e + 149) by lia.
      split; [lia|done]. }
  destruct z as [|p|p]; cbn [binary_normalize Z.abs Z.ltb Z.compare] in *.
  - unfold f32_within. simpl. split_and!; done.
  - by apply Hround.
  - by apply Hround.
Qed.

Lemma f32_within_self s m e b :
  f32_valid (S754_finite s m e) -> Z.abs (f32_units (S754_finite s m e)) <= b ->
  f32_within s b (S754_finite s m e).
Proof. intros Hv Hb. unfold f32_within. split_and!; simpl in *; try done; lia. Qed.

Lemma f32_within_sign s s' b x : s = s' -> f32_within s b x -> f32_within s' b x.
Proof. by intros ->. Qed.

(** The aligned mantissa of one operand of an addition. *)
Lemma aligned_units s m e ez :
  -149 <= ez <= e ->
  cond_Zopp s (Zpos (fst (shl_align m e ez))) * 2 ^ (ez + 149) = f32_units (S754_finite s m e).
Proof.
  intros H. pose proof (shl_align_spec m e ez) as Hal.
  destruct (shl_align m e ez) as [m' e1]. destruct Hal as [-> Hm']. cbn [fst f32_units].
  rewrite Z.min_r in Hm' by lia. rewrite <- cond_Zopp_mul. f_equal.
  rewrite Hm', <- Z.mul_assoc, <- Z.pow_add_r by lia. f_equal. f_equal. lia.
Qed.

Lemma f32_units_pos s m e :
  -149 <= e -> (f32_units (S754_finite s m e) <? 0) = s.
Proof.
  intros He. cbn [f32_units]. pose proof (pow2_pos (e + 149) ltac:(lia)).
  destruct s; cbn [cond_Zopp]; [apply Z.ltb_lt|apply Z.ltb_ge]; nia.
Qed.

Lemma mul_pow_ltb z k : 0 <= k -> (z <? 0) = (z * 2 ^ k <? 0).
Proof.
  intros Hk. pose proof (pow2_pos k Hk).
  destruct (Z.ltb_spec z 0), (Z.ltb_spec (z * 2 ^ k) 0); try done; nia.
Qed.

Lemma f32_add_below x y b :
  f32_valid x -> f32_valid y -> f32_isfinite x = true -> f32_isfinite y = true ->
  f32_bound b -> Z.abs (f32_units x + f32_units y) <= b ->
  f32_within (f32_units x + f32_units y <? 0) b (f32_add x y).
Proof.
  intros Hx Hy Fx Fy Hb Hz.
  assert (Hzero : forall s, 0 <= b -> f32_within s b (S754_zero false))
    by (intros; unfold f32_within; simpl; split_and!; done).
  destruct x as [sx|?| |sx mx ex], y as [sy|?| |sy my ey]; try done; cbn [f32_add SFadd].
  - assert (0 <= b) by (simpl in Hz; lia).
    destruct sx, sy; unfold f32_within; simpl; split_and!; done.
  - destruct (f32_valid_inv _ _ _ Hy) as [He _].
    change (f32_units (S754_zero sx)) with 0 in *. rewrite Z.add_0_l in *.
    rewrite f32_units_pos by lia. by apply f32_within_self.
  - destruct (f32_valid_inv _ _ _ Hx) as [He _].
    change (f32_units (S754_zero sy)) with 0 in *. rewrite Z.add_0_r in *.
    rewrite f32_units_pos by lia. by apply f32_within_self.
  - destruct (f32_valid_inv _ _ _ Hx) as [Hex _], (f32_valid_inv _ _ _ Hy) as [Hey _].
    unfold f32_add, SFadd. set (ez := Z.min ex ey).
    match goal with |- f32_within _ _ (binary_normalize _ _ ?w _ _) => set (z := w) end.
    assert (Hsum : z * 2 ^ (ez + 149) =
        f32_units (S754_finite sx mx ex) + f32_units (S754_finite sy my ey)).
    { subst z. rewrite Z.mul_add_distr_r, !aligned_units by lia. done. }
    rewrite <- Hsum, <- mul_pow_ltb in * by lia.
    apply binary_normalize_below; [lia|done|].
    rewrite Z.abs_mul, (Z.abs_eq (2 ^ _)) in Hz by (apply Z.pow_nonneg; lia). done.
Qed.

Lemma f32_opp_units x : f32_units (SFopp x) = - f32_units x.
Proof. destruct x as [| | |[]]; simpl; lia. Qed.

Lemma f32_sub_below x y b :
  f32_valid x -> f32_valid y -> f32_isfinite x = true -> f32_isfinite y = true ->
  f32_bound b -> Z.abs (f32_units x - f32_units y) <= b ->
  f32_within (f32_units x - f32_units y <? 0) b (f32_sub x y).
Proof.
  intros Hx Hy Fx Fy Hb Hz.
  assert (Hval : f32_valid (SFopp y)) by (by destruct y).
  assert (Hfin : f32_isfinite (SFopp y) = true) by (by destruct y).
  pose proof (f32_add_below x (SFopp y) b Hx Hval Fx Hfin Hb) as H.
  rewrite f32_opp_units in H. specialize (H Hz).
  replace (f32_sub x y) with (f32_add x (SFopp y)); [done|].
  destruct x as [sx|?| |sx mx ex], y as [sy|?| |sy my ey]; try done.
  - by destruct sx, sy.
  - cbn [f32_add f32_sub SFadd SFsub SFopp]. unfold f32_add, f32_sub, SFadd, SFsub, SFopp.
    f_equal. destruct sy; cbn [negb cond_Zopp]; lia.
Qed.

Lemma f32_mul_below x y b :
  f32_valid x -> f32_valid y -> f32_isfinite x = true -> f32_isfinite y = true ->
  f32_bound b -> Z.abs (f32_units x * f32_units y) <= b * 2 ^ 149 ->
  f32_within (xorb (f32_signbit x) (f32_signbit y)) b (f32_mul x y).
Proof.
  intros Hx Hy Fx Fy Hb Hz.
  assert (Hb0 : 0 <= b) by (pose proof (pow2_pos 149 ltac:(lia)); nia).
  assert (Hzero : forall s, f32_within (f32_signbit (S754_zero s)) b (S754_zero s))
    by (intros; unfold f32_within; simpl; split_and!; done).
  destruct x as [sx|?| |sx mx ex], y as [sy|?| |sy my ey]; try done; try apply Hzero.
  destruct (f32_valid_inv _ _ _ Hx) as (Hex & Hmx & Hnx).
  destruct (f32_valid_inv _ _ _ Hy) as (Hey & Hmy & Hny).
  unfold f32_mul, SFmul. apply binary_round_aux_below; [lia| |done|].
  - pose proof (fexp_ge (Zdigits2 (Zpos (mx * my)) + (ex + ey))).
    destruct (decide (ex = -149 /\ ey = -149)); [lia|].
    assert (23 < Zdigits2 (Zpos (mx * my)))
      by (apply digits2_pos_ge; [lia|]; rewrite Pos2Z.inj_mul; nia).
    unfold fexp, emin in *. lia.
  - unfold at_most. set (P := Z.max 0 _). set (N := Z.max 0 (- _)).
    split; [|done]. rewrite Pos2Z.inj_mul.
    cbn [f32_units] in Hz. rewrite Z.abs_mul in Hz.
    assert (Habs : forall s m e, Z.abs (cond_Zopp s (Zpos m * 2 ^ (e + 149))) = Zpos m * 2 ^ (e + 149)).
    { intros s m e. assert (0 <= 2 ^ (e + 149)) by (apply Z.pow_nonneg; lia).
      destruct s; cbn [cond_Zopp]; nia. }
    rewrite !Habs in Hz.
    pose proof (pow2_pos (149 - N) ltac:(lia)).
    assert (H1 : 2 ^ (ex + 149) * 2 ^ (ey + 149) = 2 ^ P * 2 ^ (149 - N))
      by (rewrite <- !Z.pow_add_r by lia; f_equal; lia).
    assert (H2 : 2 ^ 149 = 2 ^ N * 2 ^ (149 - N))
      by (rewrite <- Z.pow_add_r by lia; f_equal; lia).
    rewrite H2 in Hz.
    replace (Zpos mx * 2 ^ (ex + 149) * (Zpos my * 2 ^ (ey + 149)))
      with (Zpos mx * Zpos my * (2 ^ (ex + 149) * 2 ^ (ey + 149))) in Hz by lia.
    rewrite H1 in Hz. nia.
Qed.

(** The quotient computed by long division: its mantissa has no fewer digits
    than the operands promise, and it is the floor of the exact quotient. *)
Lemma SFdiv_core_spec {prec emax} mx ex my ey q e l :
  SFdiv_core_binary prec emax (Zpos mx) ex (Zpos my) ey = (q, e, l) ->
  let s := ex - ey - e in
  0 <= s /\ e <= fexp prec emax (Zdigits2 q + e) /\ 0 <= q /\
  q * Zpos my <= Zpos mx * 2 ^ s /\
  (l <> loc_Exact -> q * Zpos my < Zpos mx * 2 ^ s).
Proof.
  unfold SFdiv_core_binary. set (dx := Zdigits2 (Zpos mx)). set (dy := Zdigits2 (Zpos my)).
  set (e0 := Z.min _ _). set (s := ex - ey - e0).
  assert (Hs : 0 <= s) by lia.
  replace (match s with Z0 => Zpos mx | Zpos _ => Z.shiftl (Zpos mx) s | Zneg _ => 0 end)
    with (Zpos mx * 2 ^ s)
    by (destruct s; [simpl; lia|rewrite Z.shiftl_mul_pow2; lia|lia]).
  pose proof (Z_div_mod (Zpos mx * 2 ^ s) (Zpos my) ltac:(lia)) as Hdm.
  destruct (Z.div_eucl _ _) as [q0 r0]. destruct Hdm as [Heq Hr0].
  intros [= <- <- <-]. cbv zeta. fold s. pose proof (pow2_pos s Hs).
  assert (Hq : 0 <= q0) by nia.
  split_and!; [done| |done|lia|].
  - assert (dx + s - dy <= Zdigits2 q0).
    { destruct (decide (dx + s - dy <= 0)); [pose proof (Zdigits2_nonneg q0); lia|].
      destruct (Zdigits2_pos (Zpos mx)) as [Hx _], (Zdigits2_pos (Zpos my)) as [_ Hy]; try lia.
      fold dx in Hx. fold dy in Hy.
      assert (Hpow : 2 ^ (dx - 1) * 2 ^ s = 2 ^ (dx + s - 1 - dy) * 2 ^ dy).
      { assert (0 < dx) by (destruct mx; done). assert (0 < dy) by (destruct my; done).
        rewrite <- !Z.pow_add_r by lia. f_equal. lia. }
      pose proof (pow2_pos (dx + s - 1 - dy) ltac:(lia)).
      assert (2 ^ (dx + s - 1 - dy) <= q0) by nia.
      destruct q0 as [|q0|q0]; try lia.
      pose proof (digits2_pos_ge q0 (dx + s - 1 - dy) ltac:(lia) ltac:(lia)). simpl. lia. }
    unfold fexp, emin in *. lia.
  - intros Hl. assert (r0 <> 0); [|lia]. intros ->. apply Hl.
    unfold new_location, new_location_even, new_location_odd. by destruct (Z.even _).
Qed.

Lemma f32_div_below x y b :
  f32_valid x -> f32_valid y -> f32_isfinite x = true -> f32_units y <> 0 ->
  f32_isfinite y = true -> f32_bound b ->
  Z.abs (f32_units x) * 2 ^ 149 <= b * Z.abs (f32_units y) ->
  f32_within (xorb (f32_signbit x) (f32_signbit y)) b (f32_div x y).
Proof.
  intros Hx Hy Fx Hy0 Fy Hb Hz.
  assert (Hb0 : 0 <= b) by (pose proof (pow2_pos 149 ltac:(lia)); nia).
  destruct y as [sy|?| |sy my ey]; try done.
  destruct x as [sx|?| |sx mx ex]; try done.
  destruct (f32_valid_inv _ _ _ Hx) as (Hex & _). destruct (f32_valid_inv _ _ _ Hy) as (Hey & _).
  unfold f32_div, SFdiv. destruct (SFdiv_core_binary _ _ _ _ _ _) as [[q e] l] eqn:E.
  pose proof (fexp_ge (Zdigits2 (Zpos mx) + ex - (Zdigits2 (Zpos my) + ey))) as Hf.
  assert (He : -253 <= e).
  { unfold SFdiv_core_binary in E. destruct (Z.div_eucl _ _). simplify_eq. lia. }
  destruct (SFdiv_core_spec _ _ _ _ _ _ _ E) as (Hs & Hexp & Hq & Hle & Hlt).
  apply binary_round_aux_below; [done|done|done|].
  unfold at_most. set (P := Z.max 0 _). set (N := Z.max 0 (- _)).
  assert (Habs : forall s m e, Z.abs (f32_units (S754_finite s m e)) = Zpos m * 2 ^ (e + 149)).
  { intros s m e1. cbn [f32_units]. assert (0 <= 2 ^ (e1 + 149)) by (apply Z.pow_nonneg; lia).
    destruct s; cbn [cond_Zopp]; nia. }
  rewrite !Habs in Hz.
  assert (Hfit : Zpos mx * 2 ^ (ex - ey - e) * 2 ^ P <= b * 2 ^ N * Zpos my).
  { pose proof (pow2_pos (ey + 149) ltac:(lia)). pose proof (pow2_pos N ltac:(lia)).
    apply (Z.mul_le_mono_pos_r _ _ (2 ^ (ey + 149))); [done|].
    replace (Zpos mx * 2 ^ (ex - ey - e) * 2 ^ P * 2 ^ (ey + 149))
      with (Zpos mx * 2 ^ (ex + 149) * 2 ^ 149 * 2 ^ N).
    - replace (b * 2 ^ N * Zpos my * 2 ^ (ey + 149)) with (b * (Zpos my * 2 ^ (ey + 149)) * 2 ^ N) by lia.
      apply Z.mul_le_mono_nonneg_r; lia.
    - rewrite <- !Z.mul_assoc, <- !Z.pow_add_r by lia. do 2 f_equal. lia. }
  pose proof (pow2_pos P ltac:(lia)). split; [nia|]. intros Hl. specialize (Hlt Hl). nia.
Qed.

(** ** Order *)

Lemma mag_compare m1 e1 m2 e2 :
  f32_valid (S754_finite false m1 e1) -> f32_valid (S754_finite false m2 e2) ->
  match Z.compare e1 e2 with Eq => Pos.compare_cont Eq m1 m2 | c => c end =
  Z.compare (Zpos m1 * 2 ^ (e1 + 149)) (Zpos m2 * 2 ^ (e2 + 149)).
Proof.
  assert (Hlt : forall m1 e1 m2 e2,
    f32_valid (S754_finite false m1 e1) -> f32_valid (S754_finite false m2 e2) ->
    e1 < e2 -> Zpos m1 * 2 ^ (e1 + 149) < Zpos m2 * 2 ^ (e2 + 149)).
  { intros a1 c1 a2 c2 (Hc1 & Ha1 & _)%f32_valid_inv (Hc2 & _ & Hn2)%f32_valid_inv Hc.
    pose proof (pow2_pos (c1 + 149) ltac:(lia)).
    assert (2 ^ (c1 + 149) * 2 <= 2 ^ (c2 + 149)).
    { rewrite Z.mul_comm, <- Z.pow_succ_r by lia. apply Z.pow_le_mono_r; lia. }
    assert (2 ^ 23 <= Zpos a2) by lia. nia. }
  intros H1 H2. destruct (Z.compare_spec e1 e2) as [->|He|He]; symmetry.
  - pose proof (f32_valid_inv _ _ _ H2) as [? _]. pose proof (pow2_pos (e2 + 149) ltac:(lia)).
    change (Pos.compare_cont Eq m1 m2) with (Pos.compare m1 m2).
    change (Pos.compare m1 m2) with (Z.compare (Zpos m1) (Zpos m2)).
    destruct (Z.compare_spec (Zpos m1) (Zpos m2)) as [->|?|?];
      [apply Z.compare_refl|apply Z.compare_lt_iff; nia|apply Z.compare_gt_iff; nia].
  - apply Z.compare_lt_iff. by apply Hlt.
  - apply Z.compare_gt_iff. by apply Hlt.
Qed.

Lemma SFcompare_units x y :
  f32_valid x -> f32_valid y -> f32_isfinite x = true -> f32_isfinite y = true ->
  SFcompare x y = Some (Z.compare (f32_units x) (f32_units y)).
Proof.
  intros Hx Hy Fx Fy.
  destruct x as [sx|?| |sx mx ex], y as [sy|?| |sy my ey]; try done; cbn [SFcompare].
  - destruct (f32_valid_inv _ _ _ Hy) as [? _]. pose proof (pow2_pos (ey + 149) ltac:(lia)).
    f_equal. destruct sy; cbn [f32_units cond_Zopp]; symmetry;
      [apply Z.compare_gt_iff|apply Z.compare_lt_iff]; nia.
  - destruct (f32_valid_inv _ _ _ Hx) as [? _]. pose proof (pow2_pos (ex + 149) ltac:(lia)).
    f_equal. destruct sx; cbn [f32_units cond_Zopp]; symmetry;
      [apply Z.compare_lt_iff|apply Z.compare_gt_iff]; nia.
  - destruct (f32_valid_inv _ _ _ Hx) as [? _]. pose proof (pow2_pos (ex + 149) ltac:(lia)).
    destruct (f32_valid_inv _ _ _ Hy) as [? _]. pose proof (pow2_pos (ey + 149) ltac:(lia)).
    f_equal. pose proof (mag_compare mx ex my ey Hx Hy) as Hm.
    destruct sx, sy; cbn [f32_units cond_Zopp].
    + rewrite Z.compare_opp, (Z.compare_antisym (Zpos mx * _)), <- Hm.
      by destruct (Z.compare ex ey).
    + symmetry. apply Z.compare_lt_iff. nia.
    + symmetry. apply Z.compare_gt_iff. nia.
    + by rewrite <- Hm; destruct (Z.compare ex ey).
Qed.

Lemma f32_lt_units x y :
  f32_valid x -> f32_valid y -> f32_isfinite x = true -> f32_isfinite y = true ->
  f32_lt x y = (f32_units x <? f32_units y).
Proof.
  intros. unfold f32_lt, SFltb. rewrite SFcompare_units by done.
  unfold Z.ltb. by destruct (Z.compare _ _).
Qed.

(** [min(max(x, lo), hi)] of anything but a NaN is a number between the
    bounds, infinities included. *)
Lemma f32_clip_between x lo hi :
  f32_valid x -> f32_isnan x = false ->
  f32_valid lo -> f32_isfinite lo = true -> f32_valid hi -> f32_isfinite hi = true ->
  f32_units lo <= f32_units hi ->
  let c := f32_min (f32_max x lo) hi in
  f32_valid c /\ f32_isfinite c = true /\ f32_units lo <= f32_units c <= f32_units hi.
Proof.
  intros Hx Hn Hlo Flo Hhi Fhi Hle. destruct (f32_isfinite x) eqn:Fx.
  - unfold f32_min, f32_max. rewrite (f32_lt_units x lo) by done.
    destruct (Z.ltb_spec (f32_units x) (f32_units lo)); rewrite f32_lt_units by done;
      destruct (Z.ltb_spec (f32_units hi) (f32_units lo)), (Z.ltb_spec (f32_units hi) (f32_units x));
      cbv zeta; split_and!; try done; lia.
  - destruct x as [|s| |]; try done. unfold f32_min, f32_max. cbv zeta.
    assert (Hinf : f32_lt (S754_infinity s) lo = s /\ f32_lt hi (S754_infinity s) = negb s)
      by (destruct lo, hi, s; done).
    destruct Hinf as [H1 H2]. rewrite H1. destruct s.
    + rewrite f32_lt_units by done. destruct (Z.ltb_spec (f32_units hi) (f32_units lo));
        split_and!; try done; lia.
    + rewrite H2. split_and!; try done; lia.
Qed.

(** Truncation of a nonnegative number below an integer. *)
Lemma f32_trunc_below x n :
  f32_valid x -> f32_isfinite x = true -> 0 <= f32_units x <= n * 2 ^ 149 ->
  exists z, f32_trunc x = Some z /\ 0 <= z <= n.
Proof.
  intros Hx Fx Hu. pose proof (pow2_pos 149 ltac:(lia)).
  destruct x as [s|?| |s m e]; try done; [exists 0; simpl in *; split; [done|nia]|].
  destruct (f32_valid_inv _ _ _ Hx) as [He _].
  assert (s = false) as ->.
  { pose proof (f32_units_pos s m e ltac:(lia)) as Hs. by destruct (Z.ltb_spec (f32_units (S754_finite s m e)) 0); [lia|]. }
  cbn [f32_units cond_Zopp] in Hu. cbn [f32_trunc]. eexists. split; [done|].
  destruct (Z.leb_spec 0 e).
  - rewrite Z.pow_add_r in Hu by lia. pose proof (pow2_pos e ltac:(lia)). nia.
  - pose proof (pow2_pos (- e) ltac:(lia)). pose proof (pow2_pos (e + 149) ltac:(lia)).
    split; [apply Z.div_pos; lia|]. apply Z.div_le_upper_bound; [done|].
    assert (Hsplit : 2 ^ 149 = 2 ^ (e + 149) * 2 ^ (- e))
      by (rewrite <- Z.pow_add_r by lia; f_equal; lia).
    rewrite Hsplit in Hu. nia.
Qed.

Lemma f32_bound_int n : 0 <= n < 2 ^ 24 -> f32_bound (n * 2 ^ 149).
Proof. intros. exists n, 149. lia. Qed.

(** ** The representation is faithful *)

Lemma bits_fields s ef mf :
  0 <= ef < 2 ^ 8 -> 0 <= mf < 2 ^ 23 ->
  let b := (if s : bool then 2 ^ 31 else 0) + (ef * 2 ^ 23 + mf) in
  in_word 32 b /\ Z.testbit b 31 = s /\ (b / 2 ^ 23) mod 2 ^ 8 = ef /\ b mod 2 ^ 23 = mf.
Proof.
  intros He Hm b.
  assert (Hd : b / 2 ^ 23 = (if s then 1 else 0) * 2 ^ 8 + ef).
  { symmetry. apply (Z.div_unique _ _ _ mf); [lia|]. subst b. destruct s; lia. }
  split_and!.
  - unfold in_word. subst b. destruct s; lia.
  - apply Z.b2z_inj. rewrite Z.testbit_spec' by lia.
    change (2 ^ 31) with (2 ^ 23 * 2 ^ 8). rewrite <- Z.div_div, Hd by lia.
    rewrite Z.add_comm, Z.div_add, (Z.div_small ef) by lia. by destruct s.
  - rewrite Hd, Z.add_comm, Z.mod_add, Z.mod_small by lia. done.
  - symmetry. apply (Z.mod_unique _ _ ((if s then 1 else 0) * 2 ^ 8 + ef)); [lia|].
    subst b. destruct s; lia.
Qed.

Lemma bits_of_f32_word x : f32_valid x -> in_word 32 (bits_of_f32 x).
Proof.
  intros Hx. unfold in_word. destruct x as [s|s| |s m e]; cbn [bits_of_f32].
  - destruct s; lia.
  - destruct s; lia.
  - lia.
  - destruct (f32_valid_inv _ _ _ Hx) as (He & Hm & Hn). 
    destruct (Z.ltb_spec (Zpos m) (2 ^ 23)); destruct s; lia.
Qed.

Lemma f32_of_bits_of_f32 x : f32_valid x -> f32_of_bits (bits_of_f32 x) = x.
Proof.
  intros Hx. destruct x as [s|s| |s m e]; [by destruct s|by destruct s|done|].
  destruct (f32_valid_inv _ _ _ Hx) as (He & Hm & Hn). cbn [bits_of_f32].
  destruct (Z.ltb_spec (Zpos m) (2 ^ 23)) as [Hlt|Hge].
  - destruct (bits_fields s 0 (Zpos m)) as (_ & H1 & H2 & H3); [lia|lia|].
    rewrite Z.mul_0_l, Z.add_0_l in *. unfold f32_of_bits. rewrite H1, H2, H3. simpl.
    f_equal. lia.
  - destruct (bits_fields s (e + 150) (Zpos m - 2 ^ 23)) as (_ & H1 & H2 & H3); [lia|lia|].
    unfold f32_of_bits. rewrite H1, H2, H3.
    destruct (Z.eqb_spec (e + 150) 255), (Z.eqb_spec (e + 150) 0); try lia.
    replace (Zpos m - 2 ^ 23 + 2 ^ 23) with (Zpos m) by lia. f_equal. lia.
Qed.

(** ** Nonnegative quantities below a bound *)

Definition f32_upto (b : Z) (x : f32) : Prop :=
  f32_valid x /\ f32_isfinite x = true /\ 0 <= f32_units x <= b.

Lemma f32_within_upto b x : f32_within false b x -> f32_upto b x.
Proof.
  intros (Hv & Hf & Hs & Hb). split_and!; [done|done| |lia].
  destruct (decide (f32_units x = 0)) as [|Hne]; [lia|].
  specialize (Hs Hne). rewrite f32_units_signed, Hs. lia.
Qed.

Lemma f32_upto_sign b x : f32_upto b x -> f32_units x <> 0 -> f32_signbit x = false.
Proof.
  intros (_ & _ & Hb) Hne. rewrite (f32_units_signed x) in Hb, Hne.
  destruct (f32_signbit x); [lia|done].
Qed.

Lemma f32_units_zero x :
  f32_valid x -> f32_isfinite x = true -> f32_units x = 0 -> exists s, x = S754_zero s.
Proof.
  intros Hv Hf H0. destruct x as [s|?| |s m e]; try done; [by exists s|].
  destruct (f32_valid_inv _ _ _ Hv) as [He _]. pose proof (pow2_pos (e + 149) ltac:(lia)).
  cbn [f32_units] in H0. destruct s; cbn [cond_Zopp] in H0; nia.
Qed.

Lemma f32_sub_upto x y b :
  f32_valid x -> f32_isfinite x = true -> f32_valid y -> f32_isfinite y = true ->
  f32_bound b -> 0 <= f32_units x - f32_units y <= b -> f32_upto b (f32_sub x y).
Proof.
  intros. apply f32_within_upto. eapply f32_within_sign; [|apply f32_sub_below; try done; lia].
  apply Z.ltb_ge. lia.
Qed.

Lemma f32_add_upto x y b :
  f32_valid x -> f32_isfinite x = true -> f32_valid y -> f32_isfinite y = true ->
  f32_bound b -> 0 <= f32_units x + f32_units y <= b -> f32_upto b (f32_add x y).
Proof.
  intros. apply f32_within_upto. eapply f32_within_sign; [|apply f32_add_below; try done; lia].
  apply Z.ltb_ge. lia.
Qed.

Lemma f32_mul_upto x y bx by' b :
  f32_upto bx x -> f32_upto by' y -> f32_bound b ->
  f32_units x * f32_units y <= b * 2 ^ 149 -> f32_upto b (f32_mul x y).
Proof.
  intros Hx Hy Hb Hz. assert (Hb0 : 0 <= b).
  { pose proof (pow2_pos 149 ltac:(lia)). destruct Hx as (_ & _ & ?), Hy as (_ & _ & ?). nia. }
  assert (Hzero : forall s, f32_upto b (S754_zero s)) by (intros; split_and!; simpl; done || lia).
  pose proof Hx as (Vx & Fx & Ux). pose proof Hy as (Vy & Fy & Uy).
  destruct (decide (f32_units x = 0)) as [H0|Hx0].
  - destruct (f32_units_zero x Vx Fx H0) as [s ->]. destruct y; try done; apply Hzero.
  - destruct (decide (f32_units y = 0)) as [H0|Hy0].
    + destruct (f32_units_zero y Vy Fy H0) as [s ->]. destruct x; try done; apply Hzero.
    + apply f32_within_upto. eapply f32_within_sign; [|apply f32_mul_below; try done].
      * by rewrite (f32_upto_sign _ _ Hx Hx0), (f32_upto_sign _ _ Hy Hy0).
      * rewrite Z.abs_eq; nia.
Qed.

Lemma f32_div_upto x y bx by' b :
  f32_upto bx x -> f32_upto by' y -> 0 < f32_units y -> f32_bound b ->
  f32_units x * 2 ^ 149 <= b * f32_units y -> f32_upto b (f32_div x y).
Proof.
  intros Hx Hy Hpos Hb Hz. assert (Hb0 : 0 <= b).
  { pose proof (pow2_pos 149 ltac:(lia)). destruct Hx as (_ & _ & ?). nia. }
  pose proof Hx as (Vx & Fx & Ux). pose proof Hy as (Vy & Fy & Uy).
  destruct (decide (f32_units x = 0)) as [H0|Hx0].
  - destruct (f32_units_zero x Vx Fx H0) as [s ->].
    destruct y; try done; split_and!; simpl; done || lia.
  - apply f32_within_upto. eapply f32_within_sign; [|apply f32_div_below; try done; lia].
    rewrite (f32_upto_sign _ _ Hx Hx0), (f32_upto_sign _ _ Hy); [done|lia].
Qed.
