(* ===== verification/FloatOrder.v ===== *)
(** * Order of floats, infinities included

    Every float but a NaN has a place on a line of integers: its units, or a
    number beyond all of them for an infinity.  Comparisons are comparisons of
    places, [std::min] and [std::max] are minimum and maximum, and a sum, a
    product and a square root of nonnegative numbers are nonnegative, whether
    or not they overflow.  A float times 1 is itself and times -1 its opposite,
    exactly, subnormal numbers included.  A percentage up to 100 of a float does
    not exceed it where the two roundings on the way are not unlucky, which
    [percent_safe] decides. *)

From S2P Require Import Prelude Float32.

Definition f32_place (x : f32) : Z :=
  match x with
  | S754_infinity s => if s then - 2 ^ 300 else 2 ^ 300
  | _ => f32_units x
  end.

(** A number: in the format, and not a NaN. *)
Definition f32_number (x : f32) : Prop := f32_valid x /\ f32_isnan x = false.

(** A number that is zero or positive. *)
Definition f32_nonneg (x : f32) : Prop := f32_number x /\ 0 <= f32_place x.

Lemma f32_units_range x : f32_valid x -> - 2 ^ 277 < f32_units x < 2 ^ 277.
Proof.
  intros Hx. destruct x as [s|s| |s m e]; cbn [f32_units]; try lia.
  destruct (f32_valid_inv _ _ _ Hx) as (He & Hm & _).
  assert (2 ^ (e + 149) <= 2 ^ 253) by (apply Z.pow_le_mono_r; lia).
  pose proof (pow2_pos (e + 149) ltac:(lia)).
  change (2 ^ 277) with (2 ^ 24 * 2 ^ 253). destruct s; cbn [cond_Zopp]; nia.
Qed.

Lemma f32_place_finite x : f32_isfinite x = true -> f32_place x = f32_units x.
Proof. by destruct x. Qed.

Lemma SFcompare_place x y :
  f32_number x -> f32_number y -> SFcompare x y = Some (Z.compare (f32_place x) (f32_place y)).
Proof.
  intros [Vx Nx] [Vy Ny].
  pose proof (f32_units_range x Vx) as Rx. pose proof (f32_units_range y Vy) as Ry.
  assert (Hbig : 2 ^ 277 < 2 ^ 300) by (apply Z.pow_lt_mono_r; lia).
  destruct (f32_isfinite x) eqn:Fx, (f32_isfinite y) eqn:Fy.
  - rewrite !f32_place_finite by done. by apply SFcompare_units.
  - rewrite (f32_place_finite x) by done. destruct y as [|s| |]; try done.
    replace (SFcompare x (S754_infinity s)) with (Some (if s then Gt else Lt))
      by (destruct x; done).
    f_equal. destruct s; cbn [f32_place]; symmetry;
      [apply Z.compare_gt_iff|apply Z.compare_lt_iff]; lia.
  - rewrite (f32_place_finite y) by done. destruct x as [|s| |]; try done.
    replace (SFcompare (S754_infinity s) y) with (Some (if s then Lt else Gt))
      by (destruct y; done).
    f_equal. destruct s; cbn [f32_place]; symmetry;
      [apply Z.compare_lt_iff|apply Z.compare_gt_iff]; lia.
  - destruct x as [|sx| |], y as [|sy| |]; try done. by destruct sx, sy.
Qed.

Lemma f32_lt_place x y :
  f32_number x -> f32_number y -> f32_lt x y = (f32_place x <? f32_place y).
Proof.
  intros. unfold f32_lt, SFltb. rewrite SFcompare_place by done.
  unfold Z.ltb. by destruct (Z.compare _ _).
Qed.

Lemma f32_le_place x y :
  f32_number x -> f32_number y -> f32_le x y = (f32_place x <=? f32_place y).
Proof.
  intros. unfold f32_le, SFleb. rewrite SFcompare_place by done.
  unfold Z.leb. by destruct (Z.compare _ _).
Qed.

(** A comparison that holds has numbers on both sides. *)
Lemma f32_le_number x y : f32_le x y = true -> f32_isnan x = false /\ f32_isnan y = false.
Proof. unfold f32_le, SFleb. by destruct x, y. Qed.

Lemma f32_min_place x y :
  f32_number x -> f32_number y ->
  f32_number (f32_min x y) /\ f32_place (f32_min x y) = Z.min (f32_place x) (f32_place y).
Proof.
  intros. unfold f32_min. rewrite f32_lt_place by done.
  destruct (Z.ltb_spec (f32_place y) (f32_place x)); split; try done; lia.
Qed.

Lemma f32_max_place x y :
  f32_number x -> f32_number y ->
  f32_number (f32_max x y) /\ f32_place (f32_max x y) = Z.max (f32_place x) (f32_place y).
Proof.
  intros. unfold f32_max. rewrite f32_lt_place by done.
  destruct (Z.ltb_spec (f32_place x) (f32_place y)); split; try done; lia.
Qed.

(** With a number on the left, [std::max] is a number at least as large,
    whatever stands on the right. *)
Lemma f32_max_left x y :
  f32_number x -> f32_valid y ->
  f32_number (f32_max x y) /\ f32_place x <= f32_place (f32_max x y).
Proof.
  intros Hx Hy. destruct (f32_isnan y) eqn:E.
  - destruct y; try done. unfold f32_max. replace (f32_lt x S754_nan) with false by (by destruct x).
    split; [done|lia].
  - destruct (f32_max_place x y Hx (conj Hy E)) as [Hn Hp]. split; [done|lia].
Qed.

Lemma f32_clamp_place v lo hi :
  f32_number v -> f32_number lo -> f32_number hi -> f32_place lo <= f32_place hi ->
  f32_number (f32_clamp v lo hi) /\
  f32_place lo <= f32_place (f32_clamp v lo hi) <= f32_place hi.
Proof.
  intros. unfold f32_clamp. rewrite !f32_lt_place by done.
  destruct (Z.ltb_spec (f32_place v) (f32_place lo)),
    (Z.ltb_spec (f32_place hi) (f32_place v)); split; try done; lia.
Qed.

Lemma f32_abs_nonneg x : f32_number x -> f32_nonneg (f32_abs x).
Proof.
  intros [V N]. destruct x as [|s| |s m e]; try done.
  split; [done|]. destruct (f32_valid_inv _ _ _ V) as [? _]. cbn.
  pose proof (pow2_pos (e + 149) ltac:(lia)). lia.
Qed.

(** ** Signs of results *)

(** Whatever is rounded, the result is a number of the given sign. *)
Definition f32_signed (s : bool) (x : f32) : Prop :=
  f32_number x /\ f32_signbit x = s.

Lemma f32_signed_nonneg x : f32_signed false x -> f32_nonneg x.
Proof.
  intros [[V N] S]. split; [done|]. destruct x as [|s| |s m e]; try done; cbn in S; subst.
  - done.
  - destruct (f32_valid_inv _ _ _ V) as [? _]. cbn. pose proof (pow2_pos (e + 149) ltac:(lia)). lia.
Qed.

Lemma at_most_some m e lx : 0 <= m -> exists b, f32_scale b /\ at_most m e lx b.
Proof.
  intros Hm. set (P := Z.max 0 (e + 149)). exists (2 ^ (m + 1 + P)). split.
  - exists 1, (m + 1 + P). lia.
  - unfold at_most. fold P. set (N := Z.max 0 _).
    pose proof (pow2_pos N ltac:(lia)). pose proof (pow2_pos P ltac:(lia)).
    pose proof (Z.pow_gt_lin_r 2 (m + 1) ltac:(lia)).
    rewrite (Z.pow_add_r 2 (m + 1) P) by lia.
    assert (m * 2 ^ P < 2 ^ (m + 1) * 2 ^ P) by nia.
    split; [|intros _]; nia.
Qed.

Lemma binary_round_aux_signed s m e lx :
  0 <= m -> e <= fexp 24 128 (Zdigits2 m + e) ->
  f32_signed s (binary_round_aux 24 128 s m e lx).
Proof.
  intros Hm Hex. destruct (at_most_some m e lx Hm) as (b & Hb & Hle). unfold binary_round_aux.
  destruct (shr_fexp 24 128 m e lx) as [mrs e'] eqn:E1.
  destruct (shift_round_below m e lx b mrs e' Hm Hex Hb Hle E1) as (He' & Ht & Hn & Hr & _).
  set (r := round_nearest_even _ _) in *.
  destruct (shr_fexp 24 128 r e' loc_Exact) as [mrs2 e''] eqn:E2.
  destruct (renormalise r e' mrs2 e'' ltac:(lia) He' ltac:(lia) E2) as (He'' & Hm2 & Hn2 & _).
  destruct (shr_m mrs2) as [|m2|m2]; [done| |lia].
  destruct (Z.leb_spec e'' (128 - 24)); [|done].
  split; [|done]. split; [|done]. apply f32_valid_intro; lia.
Qed.

Lemma binary_round_signed s p e :
  f32_signed s (binary_round 24 128 s p e).
Proof.
  unfold binary_round. set (f := fexp 24 128 (Zpos (digits2_pos p) + e)).
  pose proof (shl_align_spec p e f) as Hal.
  destruct (shl_align p e f) as [p' e1]. destruct Hal as [-> Hp'].
  apply binary_round_aux_signed; [lia|].
  rewrite Hp'. change (Zpos (digits2_pos p)) with (Zdigits2 (Zpos p)) in *.
  rewrite Zdigits2_shift by lia.
  replace (Zdigits2 (Zpos p) + (e - Z.min e f) + Z.min e f) with (Zdigits2 (Zpos p) + e) by lia.
  subst f. lia.
Qed.

Lemma binary_normalize_number z e s0 : f32_number (binary_normalize 24 128 z e s0).
Proof.
  destruct z as [|p|p]; cbn [binary_normalize]; [done| |]; apply binary_round_signed.
Qed.

(** A sum of a number that is not an opposite infinity is in the format. *)
Lemma f32_add_valid x y : f32_valid x -> f32_valid y -> f32_valid (f32_add x y).
Proof.
  intros Hx Hy. unfold f32_add.
  destruct x as [[]|[]| |sx mx ex], y as [[]|[]| |sy my ey]; try done;
    apply binary_normalize_number.
Qed.

Lemma f32_sub_valid x y : f32_valid x -> f32_valid y -> f32_valid (f32_sub x y).
Proof.
  intros Hx Hy. unfold f32_sub.
  destruct x as [[]|[]| |sx mx ex], y as [[]|[]| |sy my ey]; try done;
    apply binary_normalize_number.
Qed.

Lemma f32_nonneg_cases x :
  f32_nonneg x -> (exists s, x = S754_zero s) \/ f32_signed false x.
Proof.
  intros [[V N] H]. destruct x as [s|s| |s m e]; try done; [by left; exists s| |].
  - right. split; [done|]. destruct s; [cbn in H; lia|done].
  - right. split; [done|]. destruct (f32_valid_inv _ _ _ V) as [? _].
    pose proof (pow2_pos (e + 149) ltac:(lia)). destruct s; [cbn in H; lia|done].
Qed.

Lemma f32_add_nonneg x y : f32_nonneg x -> f32_nonneg y -> f32_nonneg (f32_add x y).
Proof.
  intros Hx Hy. pose proof Hx as [[Vx Nx] _]. pose proof Hy as [[Vy Ny] _].
  destruct (f32_nonneg_cases x Hx) as [[sx ->]|[_ Sx]].
  - destruct y as [sy|sy| |sy my ey]; try done; unfold f32_add; cbn;
      first [exact Hy|by destruct sx, sy].
  - destruct (f32_nonneg_cases y Hy) as [[sy ->]|[_ Sy]].
    + destruct x as [s|s| |s m e]; try done; unfold f32_add; cbn;
        first [exact Hx|by destruct s, sy].
    + apply f32_signed_nonneg.
      destruct x as [s|s| |s m e], y as [t|t| |t my ey]; try done; cbn in Sx, Sy; subst; try done.
      unfold f32_add, SFadd. cbn [cond_Zopp]. apply binary_round_signed.
Qed.

Lemma digits2_pos_mul p q :
  2 ^ 23 <= Zpos p -> 23 < Zdigits2 (Zpos (p * q)).
Proof. intros. apply digits2_pos_ge; [lia|]. rewrite Pos2Z.inj_mul. nia. Qed.

(** A product of nonnegative numbers, one of them finite and the other not
    zero times infinity. *)
Lemma f32_mul_nonneg x y :
  f32_nonneg x -> f32_nonneg y -> f32_isfinite x = true -> f32_isfinite y = true ->
  f32_nonneg (f32_mul x y).
Proof.
  intros Hx Hy Fx Fy. pose proof Hx as [[Vx Nx] _]. pose proof Hy as [[Vy Ny] _].
  destruct (f32_nonneg_cases x Hx) as [[sx ->]|[_ Sx]]; [by destruct y|].
  destruct (f32_nonneg_cases y Hy) as [[sy ->]|[_ Sy]]; [by destruct x|].
  destruct x as [s|s| |s m e], y as [t|t| |t my ey]; try done; cbn in Sx, Sy; subst.
  apply f32_signed_nonneg. unfold f32_mul, SFmul.
  destruct (f32_valid_inv _ _ _ Vx) as (Hex & Hmx & Hnx).
  destruct (f32_valid_inv _ _ _ Vy) as (Hey & Hmy & Hny).
  apply binary_round_aux_signed; [lia|].
  pose proof (fexp_ge (Zdigits2 (Zpos (m * my)) + (e + ey))).
  destruct (decide (e = -149 /\ ey = -149)); [lia|].
  assert (23 < Zdigits2 (Zpos (m * my))).
  { destruct Hnx; [|by apply digits2_pos_mul]. rewrite Pos.mul_comm. apply digits2_pos_mul. lia. }
  unfold fexp, emin in *. lia.
Qed.

(** The root of a positive float, before it is rounded: it has at least half
    the digits of the radicand. *)
Lemma SFsqrt_core_spec {prec emax} m e q e' l :
  SFsqrt_core_binary prec emax (Zpos m) e = (q, e', l) ->
  0 <= q /\ e' <= fexp prec emax (Zdigits2 q + e').
Proof.
  unfold SFsqrt_core_binary. set (ez := Z.min _ _). set (s := e - 2 * ez).
  assert (Hs : 0 <= s) by (subst s ez; rewrite !Z.div2_div; pose proof (Z.mul_div_le e 2 ltac:(lia)); lia).
  replace (match s with Z0 => Zpos m | Zpos _ => Z.shiftl (Zpos m) s | Zneg _ => 0 end)
    with (Zpos m * 2 ^ s)
    by (destruct s; [simpl; lia|rewrite Z.shiftl_mul_pow2; lia|lia]).
  pose proof (pow2_pos s Hs).
  pose proof (Z.sqrtrem_spec (Zpos m * 2 ^ s) ltac:(lia)) as Hsq.
  destruct (Z.sqrtrem _) as [q0 r0]. destruct Hsq as [Hq Hr]. intros [= <- <- <-].
  assert (Hq0 : 0 <= q0) by nia. split; [done|].
  set (d := Zdigits2 (Zpos m)) in *.
  destruct (Zdigits2_pos (Zpos m)) as [Hlo _]; [lia|]. fold d in Hlo.
  assert (Hd : 0 < d) by (subst d; simpl; lia).
  assert (Hroot : (d + s + 1) / 2 - 1 < Zdigits2 q0).
  { destruct (decide ((d + s + 1) / 2 - 1 < 0)); [pose proof (Zdigits2_nonneg q0 Hq0); lia|].
    set (h := (d + s + 1) / 2 - 1) in *.
    assert (Hh : 2 * h <= d - 1 + s) by (subst h; pose proof (Z.mul_div_le (d + s + 1) 2); lia).
    assert (Hge : 2 ^ h <= q0).
    { assert (2 ^ h * 2 ^ h <= Zpos m * 2 ^ s).
      { rewrite <- Z.pow_add_r by lia. etrans; [apply (Z.pow_le_mono_r 2 (h + h) (d - 1 + s)); lia|].
        rewrite Z.pow_add_r by lia. nia. }
      nia. }
    pose proof (pow2_pos h ltac:(lia)). destruct q0 as [|q0|q0]; try lia.
    apply digits2_pos_ge; lia. }
  assert (He' : ez <= fexp prec emax (Z.div2 (d + e + 1))) by (subst ez; lia).
  clearbody ez. subst s. rewrite Z.div2_div in He'.
  replace ((d + (e - 2 * ez) + 1) / 2) with ((d + e + 1) / 2 - ez) in Hroot
    by (replace (d + (e - 2 * ez) + 1) with (d + e + 1 + (- ez) * 2) by lia;
        rewrite Z.div_add by lia; lia).
  unfold fexp, emin in *. lia.
Qed.

(** It is the integer root of the scaled significand. *)
Lemma SFsqrt_core_root {prec emax} m e q e' l :
  SFsqrt_core_binary prec emax (Zpos m) e = (q, e', l) ->
  0 <= e - 2 * e' /\ Zpos m * 2 ^ (e - 2 * e') < (q + 1) * (q + 1).
Proof.
  unfold SFsqrt_core_binary. set (ez := Z.min _ _). set (s := e - 2 * ez).
  assert (Hs : 0 <= s) by (subst s ez; rewrite !Z.div2_div; pose proof (Z.mul_div_le e 2 ltac:(lia)); lia).
  replace (match s with Z0 => Zpos m | Zpos _ => Z.shiftl (Zpos m) s | Zneg _ => 0 end)
    with (Zpos m * 2 ^ s)
    by (destruct s; [simpl; lia|rewrite Z.shiftl_mul_pow2; lia|lia]).
  pose proof (pow2_pos s Hs).
  pose proof (Z.sqrtrem_spec (Zpos m * 2 ^ s) ltac:(lia)) as Hsq.
  destruct (Z.sqrtrem _) as [q0 r0]. destruct Hsq as [Hq Hr]. intros [= <- <- <-].
  fold s. split; [done|]. nia.
Qed.

Lemma f32_sqrt_nonneg x : f32_nonneg x -> f32_nonneg (f32_sqrt x).
Proof.
  intros Hx. pose proof Hx as [[Vx Nx] _].
  destruct (f32_nonneg_cases x Hx) as [[sx ->]|[_ Sx]]; [done|].
  destruct x as [s|s| |s m e]; try done; cbn in Sx; subst; [done|].
  apply f32_signed_nonneg. unfold f32_sqrt, SFsqrt.
  destruct (SFsqrt_core_binary 24 128 (Zpos m) e) as [[q ez] l] eqn:E.
  apply SFsqrt_core_spec in E as [Hq He]. by apply binary_round_aux_signed.
Qed.

(** ** Opposites, units and percentages *)

Lemma f32_units_opp x : f32_place (f32_opp x) = - f32_place x.
Proof. destruct x as [s|s| |s m e]; try done; destruct s; cbn; lia. Qed.

Lemma f32_opp_number x : f32_number x -> f32_number (f32_opp x).
Proof. intros [V N]. by destruct x. Qed.

Lemma f32_le_opp x y :
  f32_number x -> f32_number y -> f32_le (f32_opp x) (f32_opp y) = f32_le y x.
Proof.
  intros Hx Hy. rewrite !f32_le_place by auto using f32_opp_number. rewrite !f32_units_opp.
  apply eq_true_iff_eq. rewrite !Z.leb_le. lia.
Qed.

Lemma f32_lt_opp x y :
  f32_number x -> f32_number y -> f32_lt (f32_opp x) (f32_opp y) = f32_lt y x.
Proof.
  intros Hx Hy. rewrite !f32_lt_place by auto using f32_opp_number. rewrite !f32_units_opp.
  apply eq_true_iff_eq. rewrite !Z.ltb_lt. lia.
Qed.

(** ** Rounding what is representable *)

(** A valid significand, shifted left, rounds back to itself. *)
Lemma binary_round_aux_shifted s m e k :
  f32_valid (S754_finite false m e) -> 0 <= k ->
  binary_round_aux 24 128 s (Zpos m * 2 ^ k) (e - k) loc_Exact = S754_finite s m e.
Proof.
  intros V Hk. pose proof (f32_valid_inv _ _ _ V) as (He & _ & _).
  assert (Hf : fexp 24 128 (Zdigits2 (Zpos m) + e) = e).
  { unfold f32_valid, valid_binary, bounded, canonical_mantissa in V.
    apply andb_prop in V as [V _]. by apply Z.eqb_eq in V. }
  pose proof (pow2_pos k Hk) as Hp. unfold binary_round_aux.
  destruct (shr_fexp 24 128 (Zpos m * 2 ^ k) (e - k) loc_Exact) as [r e'] eqn:Hr.
  apply shr_fexp_spec in Hr as (He' & Hm & Hb); [|nia].
  rewrite Zdigits2_shift in He' by lia.
  replace (Zdigits2 (Zpos m) + k + (e - k)) with (Zdigits2 (Zpos m) + e) in He' by lia.
  rewrite Hf, Z.max_r in He' by lia. subst e'.
  replace (e - (e - k)) with k in * by lia. rewrite Z.div_mul in Hm by lia.
  assert (Hnr : shr_r r = false).
  { destruct (shr_r r); [|done]. rewrite Z.mod_mul in Hb by lia.
    by destruct (Hb eq_refl) as [|[_ ?]]; [lia|]. }
  assert (Hround : round_nearest_even (shr_m r) (loc_of_shr_record r) = Zpos m).
  { destruct (round_nearest_even_cases r) as [->|[_ E]]; [done|]. congruence. }
  rewrite Hround.
  destruct (shr_fexp 24 128 (Zpos m) e loc_Exact) as [r2 e2] eqn:Hr2.
  apply shr_fexp_spec in Hr2 as (He2 & Hm2 & _); [|lia].
  rewrite Hf, Z.max_id in He2. subst e2. rewrite Z.sub_diag, Z.div_1_r in Hm2. rewrite Hm2.
  destruct (Z.leb_spec e (128 - 24)); [done|lia].
Qed.

Definition f32_unit (s : bool) : f32 := S754_finite s 8388608 (-23).

(** What a product with 1 or -1 is. *)
Lemma f32_mul_unit s x :
  f32_valid x -> f32_mul (f32_unit s) x = if s then f32_opp x else x.
Proof.
  destruct x as [sx|sx| |sx m e]; intros V; try by destruct s; try destruct sx.
  unfold f32_mul, f32_unit. cbn [SFmul]. rewrite Pos2Z.inj_mul, Z.mul_comm.
  replace (Zpos 8388608) with (2 ^ 23) by reflexivity.
  replace (-23 + e) with (e - 23) by lia.
  rewrite binary_round_aux_shifted; [|by destruct sx|lia]. by destruct s, sx.
Qed.

(** ** Percentages *)

Definition f32_hundred : f32 := f32_of_Z 100.

(** The largest float below one that has all its digits and is not a power of
    two. *)
Definition f32_below (x : f32) : Z := f32_units x - 2 ^ (Z.log2 (f32_units x) - 23).

Definition f32_dense (x : f32) : bool :=
  valid_binary 24 128 x && f32_isfinite x && (23 <=? Z.log2 (f32_units x)) &&
  (2 ^ Z.log2 (f32_units x) <? f32_units x).

Lemma f32_upto_below x y :
  f32_dense y = true -> f32_upto (f32_units y) x -> f32_units x <> f32_units y ->
  f32_upto (f32_below y) x.
Proof.
  unfold f32_dense. rewrite !andb_true_iff, Z.leb_le, Z.ltb_lt.
  intros [[[Vy Fy] Hl] Hp] (Vx & Fx & Hx) Hne. split_and!; try done; [lia|].
  unfold f32_below. destruct y as [|?| |sy my ey]; try done.
  destruct (f32_valid_inv _ _ _ Vy) as (He & Hm & Hn).
  pose proof (pow2_pos (ey + 149) ltac:(lia)) as Hey.
  assert (sy = false) as ->. { destruct sy; [|done]. cbn [f32_units cond_Zopp] in *. nia. }
  cbn [f32_units cond_Zopp] in *.
  rewrite (Z.log2_mul_pow2 (Zpos my) (ey + 149)) in * by lia.
  assert (Hlog : Z.log2 (Zpos my) = 23).
  { assert (Z.log2 (Zpos my) < 24) by (apply Z.log2_lt_pow2; lia).
    destruct Hn as [->|Hn]; [lia|]. apply Z.log2_le_pow2 in Hn; lia. }
  rewrite Hlog in *. replace (ey + 149 + 23 - 23) with (ey + 149) by lia.
  rewrite Z.pow_add_r in Hp by lia.
  assert (Hbig : 2 ^ 23 < Zpos my) by (apply (Z.mul_lt_mono_pos_r (2 ^ (ey + 149))); lia).
  set (p := 2 ^ (ey + 149)) in *.
  destruct x as [|?| |sx mx ex]; try done.
  { cbn [f32_units]. nia. }
  destruct (f32_valid_inv _ _ _ Vx) as (He' & Hm' & _).
  pose proof (pow2_pos (ex + 149) ltac:(lia)) as Hex.
  assert (sx = false) as ->. { destruct sx; [|done]. cbn [f32_units cond_Zopp] in *. nia. }
  cbn [f32_units cond_Zopp] in *.
  destruct (Z.le_gt_cases ey ex) as [Hle|Hgt].
  - assert (Hx' : 2 ^ (ex + 149) = 2 ^ (ex - ey) * p).
    { subst p. rewrite <- Z.pow_add_r by lia. f_equal. lia. }
    rewrite Hx' in *. pose proof (pow2_pos (ex - ey) ltac:(lia)) as Hk.
    set (k := 2 ^ (ex - ey)) in *. assert (Zpos mx * k < Zpos my) by nia. nia.
  - assert (Hd : 2 * 2 ^ (ex + 149) <= p).
    { subst p. rewrite <- Z.pow_succ_r by lia. apply Z.pow_le_mono_r; lia. }
    set (q := 2 ^ (ex + 149)) in *. nia.
Qed.

Lemma f32_upto_mono b b' x : b <= b' -> f32_upto b x -> f32_upto b' x.
Proof. intros ? (? & ? & ?). split_and!; done || lia. Qed.

Lemma f32_bound_of_units x : f32_valid x -> 0 <= f32_units x -> f32_bound (f32_units x).
Proof.
  intros V H. destruct x as [|?| |s m e]; try by exists 0, 0.
  destruct (f32_valid_inv _ _ _ V) as (He & Hm & _).
  pose proof (pow2_pos (e + 149) ltac:(lia)).
  destruct s; cbn [f32_units cond_Zopp] in *; [nia|]. exists (Zpos m), (e + 149). lia.
Qed.

(** A product of two factors up to [x] and [y] is at most their rounded
    product, where the float below each is far enough away. *)
Definition product_safe (x y : f32) : bool :=
  let z := f32_mul x y in
  f32_dense x && f32_dense y && f32_isfinite z &&
  (f32_below x * f32_units y <=? f32_units z * 2 ^ 149) &&
  (f32_units x * f32_below y <=? f32_units z * 2 ^ 149).

Lemma f32_units_eq x y :
  f32_valid x -> f32_valid y -> 0 < f32_units x -> f32_units x = f32_units y -> x = y.
Proof.
  intros Vx Vy Hp He.
  destruct x as [|?| |sx mx ex], y as [|?| |sy my ey]; cbn [f32_units cond_Zopp] in *; try lia;
    destruct (f32_valid_inv _ _ _ Vx) as (Hex & Hmx & Hnx);
    pose proof (pow2_pos (ex + 149) ltac:(lia)).
  all: try (destruct sx; cbn [cond_Zopp] in *; nia).
  destruct (f32_valid_inv _ _ _ Vy) as (Hey & Hmy & Hny).
  pose proof (pow2_pos (ey + 149) ltac:(lia)).
  destruct sx; cbn [cond_Zopp] in *; [nia|]. destruct sy; cbn [cond_Zopp] in *; [nia|].
  assert (ex = ey) as ->.
  { destruct (Z.lt_trichotomy ex ey) as [Hlt|[?|Hlt]]; [exfalso|done|exfalso].
    - assert (2 * 2 ^ (ex + 149) <= 2 ^ (ey + 149))
        by (rewrite <- Z.pow_succ_r by lia; apply Z.pow_le_mono_r; lia).
      destruct Hny as [|Hny]; [lia|]. nia.
    - assert (2 * 2 ^ (ey + 149) <= 2 ^ (ex + 149))
        by (rewrite <- Z.pow_succ_r by lia; apply Z.pow_le_mono_r; lia).
      destruct Hnx as [|Hnx]; [lia|]. nia. }
  f_equal. apply Pos2Z.inj. nia.
Qed.

Lemma f32_upto_nonneg b x : f32_upto b x -> f32_nonneg x.
Proof.
  intros (V & F & ? & _). split; [split; [done|by destruct x]|]. by rewrite f32_place_finite.
Qed.

Lemma f32_dense_upto x : f32_dense x = true -> 0 < f32_units x /\ f32_upto (f32_units x) x.
Proof.
  unfold f32_dense. rewrite !andb_true_iff, Z.leb_le, Z.ltb_lt. intros [[[V F] Hl] Hp].
  assert (0 < f32_units x).
  { destruct (Z.le_gt_cases (f32_units x) 0) as [H0|]; [|done]. apply Z.log2_nonpos in H0. lia. }
  split; [done|]. split; [exact V|]. split; [done|lia].
Qed.

Lemma f32_product_upto x y a b :
  product_safe x y = true -> f32_upto (f32_units x) a -> f32_upto (f32_units y) b ->
  f32_upto (f32_units (f32_mul x y)) (f32_mul a b).
Proof.
  unfold product_safe. rewrite !andb_true_iff, !Z.leb_le. intros [[[[Dx Dy] F] Hx] Hy] Ha Hb.
  destruct (f32_dense_upto x Dx) as [Px Ux], (f32_dense_upto y Dy) as [Py Uy].
  destruct (f32_mul_nonneg x y) as [[V _] P]; eauto using f32_upto_nonneg.
  { apply Ux. } { apply Uy. }
  rewrite f32_place_finite in P by done. pose proof (f32_bound_of_units _ V P) as Hz.
  pose proof (f32_upto_below a x Dx Ha) as Bx. pose proof (f32_upto_below b y Dy Hb) as By.
  pose proof Ha as (Va & _ & Ra). pose proof Hb as (Vb & _ & Rb).
  destruct (decide (f32_units a = f32_units x)) as [Ea|Ea].
  - destruct (decide (f32_units b = f32_units y)) as [Eb|Eb].
    + rewrite (f32_units_eq a x), (f32_units_eq b y) by first [done|lia|apply Ux|apply Uy].
      split; [done|]. split; [done|lia].
    + specialize (By Eb). pose proof By as (_ & _ & ?).
      apply (f32_mul_upto a b _ _ _ Ha By Hz). nia.
  - specialize (Bx Ea). pose proof Bx as (_ & _ & ?).
    apply (f32_mul_upto a b _ _ _ Bx Hb Hz). nia.
Qed.

(** The same of a quotient. *)
Definition quotient_safe (x y : f32) : bool :=
  let z := f32_div x y in
  f32_dense x && f32_dense y && f32_isfinite z && valid_binary 24 128 z && (0 <=? f32_units z) &&
  (f32_below x * 2 ^ 149 <=? f32_units z * f32_units y).

Lemma f32_quotient_upto x y a :
  quotient_safe x y = true -> f32_upto (f32_units x) a ->
  f32_upto (f32_units (f32_div x y)) (f32_div a y).
Proof.
  unfold quotient_safe. rewrite !andb_true_iff, !Z.leb_le.
  intros [[[[[Dx Dy] F] V] P] Hx] Ha.
  destruct (f32_dense_upto x Dx) as [Px Ux], (f32_dense_upto y Dy) as [Py Uy].
  pose proof (f32_bound_of_units _ V P) as Hz. pose proof (f32_upto_below a x Dx Ha) as Bx.
  pose proof Ha as (Va & _ & Ra).
  destruct (decide (f32_units a = f32_units x)) as [Ea|Ea].
  - rewrite (f32_units_eq a x) by first [done|lia|apply Ux]. split; [done|]. split; [done|lia].
  - specialize (Bx Ea). pose proof Bx as (_ & _ & ?).
    apply (f32_div_upto a y _ _ _ Bx Uy Py Hz). lia.
Qed.

(** [value * percent / 100] for a value up to [v] and a percentage up to 100. *)
Definition percent_safe (v : f32) : bool :=
  let full := f32_mul v f32_hundred in
  product_safe v f32_hundred && quotient_safe full f32_hundred &&
  (f32_units (f32_div full f32_hundred) <=? f32_units v).

Lemma f32_percent_upto v x p :
  percent_safe v = true -> f32_upto (f32_units v) x -> f32_upto (f32_units f32_hundred) p ->
  f32_upto (f32_units v) (f32_div (f32_mul x p) f32_hundred).
Proof.
  unfold percent_safe. rewrite !andb_true_iff, Z.leb_le. intros [[Hm Hq] Hle] Hx Hp.
  eapply f32_upto_mono; [exact Hle|]. apply f32_quotient_upto; [done|].
  by apply f32_product_upto.
Qed.
