(* ===== verification/Float64.v ===== *)
(** * IEEE-754 binary64 arithmetic, as the C++ [double] of the source

    The same representation as [Float32] at precision 53 and maximal exponent
    1024, with the conversions between the two formats: widening is exact,
    narrowing rounds once; and the text [std::ostream] writes for a [float]. *)

From Stdlib Require Import String.
From S2P Require Import Prelude Float32 FloatOrder.

Abbreviation f64 := spec_float.

Definition f64_zero : f64 := S754_zero false.
Definition f64_add : f64 -> f64 -> f64 := SFadd 53 1024.
Definition f64_sub : f64 -> f64 -> f64 := SFsub 53 1024.
Definition f64_mul : f64 -> f64 -> f64 := SFmul 53 1024.
Definition f64_div : f64 -> f64 -> f64 := SFdiv 53 1024.
Definition f64_of_Z (z : Z) : f64 := binary_normalize 53 1024 z 0 false.

(** The literal [n/d], both parts below 2^53. *)
Definition f64_lit (n d : Z) : f64 := f64_div (f64_of_Z n) (f64_of_Z d).

Definition f64_lt : f64 -> f64 -> bool := SFltb.
Definition f64_le : f64 -> f64 -> bool := SFleb.
Definition f64_eq : f64 -> f64 -> bool := SFeqb.
Definition f64_opp : f64 -> f64 := SFopp.
Definition f64_abs : f64 -> f64 := SFabs.
Definition f64_sqrt : f64 -> f64 := SFsqrt 53 1024.
Definition f64_signbit : f64 -> bool := f32_signbit.
Definition f64_min : f64 -> f64 -> f64 := f32_min.
Definition f64_max : f64 -> f64 -> f64 := f32_max.
Definition f64_clamp : f64 -> f64 -> f64 -> f64 := f32_clamp.
Definition f64_isfinite : f64 -> bool := f32_isfinite.

Definition recode (prec emax : Z) (x : spec_float) : spec_float :=
  match x with
  | S754_finite s m e => binary_round prec emax s m e
  | _ => x
  end.

(** [static_cast<double>(x)] and [static_cast<float>(x)]. *)
Definition f64_of_f32 : f32 -> f64 := recode 53 1024.
Definition f32_of_f64 : f64 -> f32 := recode 24 128.

(** Narrowing gives a float, whatever it is given. *)
Lemma f32_of_f64_valid x : f32_valid (f32_of_f64 x).
Proof. destruct x as [s|s| |s m e]; try done. apply binary_round_signed. Qed.

Lemma f32_of_f64_number x : f32_isnan x = false -> f32_number (f32_of_f64 x).
Proof. destruct x as [s|s| |s m e]; try done. intros _. apply binary_round_signed. Qed.

(** ** Floats as text

    [std::ostream << float] with the default format: [%g] with six significant
    digits, for the diagnostic messages of the runtime.  A decimal is rounded
    once, from the exact value, ties to even.  A NaN has no sign here. *)

#[local] Open Scope mdl_scope.
#[local] Notation "s +++ t" := (String.append s t) (at level 60, right associativity).

(** The quotient rounded to the nearest integer, ties to even. *)
Definition div_nearest (n d : Z) : Z :=
  let q := n / d in
  let r := n mod d in
  if (2 * r <? d) || ((2 * r =? d) && Z.even q) then q else q + 1.

(** A positive float as a fraction. *)
Definition fraction (m : positive) (e : Z) : Z * Z :=
  if 0 <=? e then (Zpos m * 2 ^ e, 1) else (Zpos m, 2 ^ (- e)).

(** [n / d * 10 ^ k], as a fraction. *)
Definition scale10 (f : Z * Z) (k : Z) : Z * Z :=
  if 0 <=? k then (fst f * 10 ^ k, snd f) else (fst f, snd f * 10 ^ (- k)).

(** The decimal exponent of a fraction, found from [x] upwards. *)
Fixpoint exponent10 (fuel : nat) (f : Z * Z) (x : Z) : Z :=
  match fuel with
  | O => x
  | S fuel =>
      let '(n, d) := scale10 f (- (x + 1)) in
      if d <=? n then exponent10 fuel f (x + 1) else x
  end.

(** Six digits and the exponent they belong to. *)
Definition six_digits (f : Z * Z) : Z * Z :=
  let x := exponent10 700 f (-330) in
  let '(n, d) := scale10 f (5 - x) in
  let q := div_nearest n d in
  if q =? 10 ^ 6 then (10 ^ 5, x + 1) else (q, x).

(** The digits of [q] without the zeros at the end; [k] digits are left. *)
Fixpoint drop_zeros (k : nat) (q : Z) : nat * Z :=
  match k with
  | S (S k' as k1) => if q mod 10 =? 0 then drop_zeros k1 (q / 10) else (k, q)
  | _ => (k, q)
  end.

(** A number written with exactly [width] digits. *)
Fixpoint pad (width : nat) (q : Z) : string :=
  match width with
  | O => ""
  | S w => pad w (q / 10) +++ to_string (q mod 10)
  end.

Definition show_positive (f : Z * Z) : string :=
  let '(q, x) := six_digits f in
  let '(k, q) := drop_zeros 6 q in
  let n := Z.of_nat k in
  if (x <? -4) || (6 <=? x) then
    let mantissa :=
      if (k =? 1)%nat then to_string q
      else to_string (q / 10 ^ (n - 1)) +++ "." +++ pad (k - 1) (q mod 10 ^ (n - 1)) in
    mantissa +++ "e" +++ (if x <? 0 then "-" else "+") ++
      (if Z.abs x <? 10 then "0" else "") +++ to_string (Z.abs x)
  else if x <? 0 then
    "0." +++ pad (Z.to_nat (- x - 1)) 0 +++ pad k q
  else if n <=? x + 1 then to_string (q * 10 ^ (x + 1 - n))
  else
    to_string (q / 10 ^ (n - 1 - x)) +++ "." ++
      pad (Z.to_nat (n - 1 - x)) (q mod 10 ^ (n - 1 - x)).

Definition sign_text (s : bool) : string := if s then "-" else "".

Definition show_float (x : f64) : string :=
  match x with
  | S754_zero s => sign_text s +++ "0"
  | S754_infinity s => sign_text s +++ "inf"
  | S754_nan => "nan"
  | S754_finite s m e => sign_text s +++ show_positive (fraction m e)
  end.

(** [std::to_string(float)]: six decimals. *)
Definition fixed_six (x : f64) : string :=
  match x with
  | S754_zero s => sign_text s +++ "0.000000"
  | S754_infinity s => sign_text s +++ "inf"
  | S754_nan => "nan"
  | S754_finite s m e =>
      let '(n, d) := scale10 (fraction m e) 6 in
      let q := div_nearest n d in
      sign_text s +++ to_string (q / 10 ^ 6) +++ "." +++ pad 6 (q mod 10 ^ 6)
  end.

Example fixed_six_samples :
  map fixed_six [f32_lit 6 100; f32_of_Z (-3); f32_lit 1 10000000] =
  ["0.060000"; "-3.000000"; "0.000000"].
Proof. vm_compute. reflexivity. Qed.

Example show_float_samples :
  map show_float [f32_lit 1 10; f32_of_Z 100; f32_lit 12345678 10; f32_lit 1 100000;
                  f32_lit (-5) 2; f32_of_Z 1234567; f32_lit 2 1000; f32_of_Z 999999] =
  ["0.1"; "100"; "1.23457e+06"; "1e-05"; "-2.5"; "1.23457e+06"; "0.002"; "999999"].
Proof. vm_compute. reflexivity. Qed.
