(* ===== verification/FloatRound.v ===== *)
(** * Order and rounding in any binary format

    Comparisons of [spec_float] are a lexicographic order whatever the format;
    a NaN is below and above nothing.  A rounded result is in the format, and
    it is not below a float that the exact value is not below.  Instances for
    [double]: quotients and square roots are in the format, and a product with
    a factor above one is not below the other factor. *)

From S2P Require Import Prelude Float32 FloatOrder Float64.

(** ** Order *)

(** Sign class, exponent and significand, in the order of the values. *)
Definition sf_rank (x : spec_float) : Z * Z * Z :=
  match x with
  | S754_zero _ | S754_nan => (0, 0, 0)
  | S754_infinity s => (if s then -2 else 2, 0, 0)
  | S754_finite s m e => if s then (-1, - e, Zneg m) else (1, e, Zpos m)
  end.

Definition rank_lt (a b : Z * Z * Z) : Prop :=
  a.1.1 < b.1.1 \/ (a.1.1 = b.1.1 /\ (a.1.2 < b.1.2 \/ (a.1.2 = b.1.2 /\ a.2 < b.2))).

Definition is_number (x : spec_float) : Prop := f32_isnan x = false.

Lemma SFcompare_rank x y :
  is_number x -> is_number y ->
  SFcompare x y = Some Lt /\ rank_lt (sf_rank x) (sf_rank y) \/
  SFcompare x y = Some Eq /\ sf_rank x = sf_rank y \/
  SFcompare x y = Some Gt /\ rank_lt (sf_rank y) (sf_rank x).
Proof.
  unfold rank_lt. intros Nx Ny.
  destruct x as [sx|sx| |sx mx ex], y as [sy|sy| |sy my ey]; try done;
    try destruct sx; try destruct sy; cbn; try (intuition lia);
    destruct (Z.compare_spec ex ey) as [->|?|?]; cbn; try (intuition lia);
    fold (Pos.compare mx my); destruct (Pos.compare_spec mx my) as [->|?|?]; cbn; intuition lia.
Qed.

Lemma f64_lt_number x y : f64_lt x y = true -> is_number x /\ is_number y.
Proof. unfold is_number, f64_lt, SFltb. by destruct x, y. Qed.

Lemma f64_le_number x y : f64_le x y = true -> is_number x /\ is_number y.
Proof. exact (f32_le_number x y). Qed.

Lemma f64_lt_rank x y :
  is_number x -> is_number y -> f64_lt x y = true <-> rank_lt (sf_rank x) (sf_rank y).
Proof.
  intros Nx Ny. unfold f64_lt, SFltb, rank_lt.
  destruct (SFcompare_rank x y Nx Ny) as [[-> H]|[[-> H]|[-> H]]]; unfold rank_lt in H;
    try rewrite H; intuition (done || lia).
Qed.

Lemma f64_le_rank x y :
  is_number x -> is_number y -> f64_le x y = true <-> ~ rank_lt (sf_rank y) (sf_rank x).
Proof.
  intros Nx Ny. unfold f64_le, SFleb, rank_lt.
  destruct (SFcompare_rank x y Nx Ny) as [[-> H]|[[-> H]|[-> H]]]; unfold rank_lt in H;
    try rewrite H; intuition (done || lia).
Qed.

(** What holds of a comparison and of one that fails. *)
Lemma f64_not_lt x y : is_number x -> is_number y -> f64_lt x y = false <-> f64_le y x = true.
Proof.
  intros Nx Ny. rewrite f64_le_rank by done. rewrite <- (f64_lt_rank x y) by done.
  by destruct (f64_lt x y).
Qed.

Lemma f64_not_le x y : is_number x -> is_number y -> f64_le x y = false <-> f64_lt y x = true.
Proof.
  intros Nx Ny. rewrite f64_lt_rank by done. pose proof (f64_le_rank x y Nx Ny) as H.
  destruct (f64_le x y).
  - split; [done|]. intros Hlt. by apply H in Hlt.
  - split; [intros _|done]. unfold rank_lt in *. assert (~ ~ rank_lt (sf_rank y) (sf_rank x));
      unfold rank_lt in *; [|lia]. intros Hn. by apply H in Hn.
Qed.

Lemma f64_lt_trans x y z : f64_lt x y = true -> f64_lt y z = true -> f64_lt x z = true.
Proof.
  intros H1 H2. destruct (f64_lt_number x y H1), (f64_lt_number y z H2).
  rewrite f64_lt_rank in * by done. unfold rank_lt in *. lia.
Qed.

Lemma f64_lt_le_trans x y z : f64_lt x y = true -> f64_le y z = true -> f64_lt x z = true.
Proof.
  intros H1 H2. destruct (f64_lt_number x y H1), (f64_le_number y z H2).
  rewrite f64_lt_rank in * by done. rewrite f64_le_rank in H2 by done. unfold rank_lt in *. lia.
Qed.

Lemma f64_le_lt_trans x y z : f64_le x y = true -> f64_lt y z = true -> f64_lt x z = true.
Proof.
  intros H1 H2. destruct (f64_le_number x y H1), (f64_lt_number y z H2).
  rewrite f64_lt_rank in * by done. rewrite f64_le_rank in H1 by done. unfold rank_lt in *. lia.
Qed.

Lemma f64_lt_irrefl x : f64_lt x x = false.
Proof.
  destruct (f64_lt x x) eqn:E; [|done]. destruct (f64_lt_number x x E).
  apply f64_lt_rank in E; [|done|done]. unfold rank_lt in E. lia.
Qed.

Lemma f64_lt_asym x y : f64_lt x y = true -> f64_lt y x = false.
Proof.
  intros H. destruct (f64_lt y x) eqn:E; [|done].
  pose proof (f64_lt_trans x y x H E) as C. by rewrite f64_lt_irrefl in C.
Qed.

(** [std::max] with a number on the left: it is a number, and what is not
    exceeded by it is not exceeded by either. *)
Lemma f64_max_number x y : is_number x -> is_number (f64_max x y).
Proof.
  intros Nx. unfold f64_max, f32_max. change (f32_lt x y) with (f64_lt x y).
  destruct (f64_lt x y) eqn:E; [|done]. apply (f64_lt_number x y E).
Qed.

Lemma f64_max_not_above c x y :
  is_number x -> f64_lt c (f64_max x y) = false ->
  f64_lt c x = false /\ f64_lt c y = false.
Proof.
  intros Nx. unfold f64_max, f32_max. change (f32_lt x y) with (f64_lt x y).
  destruct (f64_lt x y) eqn:E; intros H.
  - split; [|done]. destruct (f64_lt c x) eqn:Ec; [|done].
    by rewrite (f64_lt_trans c x y) in H.
  - split; [done|]. destruct (f64_lt c y) eqn:Ec; [|done].
    destruct (f64_lt_number c y Ec) as [Nc Ny].
    rewrite (f64_lt_le_trans c y x Ec) in H; [done|]. by apply f64_not_lt.
Qed.

Lemma f64_max_left x y : is_number x -> f64_le x (f64_max x y) = true.
Proof.
  intros Nx. apply f64_not_lt; [by apply f64_max_number|done|].
  by apply (f64_max_not_above (f64_max x y) x y Nx), f64_lt_irrefl.
Qed.

Lemma f64_max_cases (P : f64 -> Prop) x y : P x -> P y -> P (f64_max x y).
Proof. intros. unfold f64_max, f32_max. by destruct (f32_lt x y). Qed.

(** ** Rounding *)

Section Format.
Variables prec emax : Z.
Hypothesis prec_pos : 1 < prec.
Hypothesis prec_lt : prec + 2 < emax.

#[local] Abbreviation emin := (SpecFloat.emin prec emax).
#[local] Abbreviation fexp := (SpecFloat.fexp prec emax).

Lemma fexp_max d : fexp d = Z.max (d - prec) emin.
Proof. done. Qed.

(** A significand of the format: within the precision, and full unless the
    exponent is the least one. *)
Definition canonical (m e : Z) : Prop :=
  emin <= e /\ 0 <= m < 2 ^ prec /\ (e = emin \/ 2 ^ (prec - 1) <= m).

Lemma first_shift m e l mrs e' :
  0 <= m -> e <= fexp (Zdigits2 m + e) -> shr_fexp prec emax m e l = (mrs, e') ->
  e <= e' /\ shr_m mrs = m / 2 ^ (e' - e) /\ canonical (shr_m mrs) e'.
Proof.
  intros Hm Hex Hs. destruct (shr_fexp_spec m e l mrs e' Hm Hs) as (He' & Ht & _).
  rewrite Z.max_r in He' by lia. rewrite fexp_max in He', Hex. split; [lia|]. split; [done|].
  pose proof (pow2_pos (e' - e) ltac:(lia)). rewrite Ht. unfold canonical. split; [lia|].
  split; [split|].
  - apply Z.div_pos; lia.
  - apply Z.div_lt_upper_bound; [lia|]. rewrite <- Z.pow_add_r by lia.
    destruct (decide (m = 0)) as [->|]; [apply pow2_pos; lia|].
    destruct (Zdigits2_pos m) as [_ Hhi]; [lia|]. eapply Z.lt_le_trans; [done|].
    apply Z.pow_le_mono_r; lia.
  - destruct (decide (e' = emin)) as [|Hne]; [by left|right].
    assert (0 < m) by (destruct m; cbn [Zdigits2] in *; lia).
    destruct (Zdigits2_pos m) as [Hlo _]; [done|].
    apply Z.div_le_lower_bound; [lia|]. rewrite <- Z.pow_add_r by lia.
    etrans; [|done]. apply Z.pow_le_mono_r; lia.
Qed.

(** The second shift: a significand of the format again, of the same value. *)
Lemma second_shift r e' mrs e'' :
  emin <= e' -> 0 <= r <= 2 ^ prec -> (e' = emin \/ 2 ^ (prec - 1) <= r) ->
  shr_fexp prec emax r e' loc_Exact = (mrs, e'') ->
  e' <= e'' /\ canonical (shr_m mrs) e'' /\ shr_m mrs * 2 ^ (e'' - e') = r.
Proof.
  intros He Hr Hn Hs. destruct (shr_fexp_spec r e' loc_Exact mrs e'' ltac:(lia) Hs) as (He'' & Ht & _).
  rewrite fexp_max in He''.
  assert (Hp : 2 ^ prec = 2 * 2 ^ (prec - 1))
    by (rewrite <- Z.pow_succ_r by lia; f_equal; lia).
  pose proof (pow2_pos (prec - 1) ltac:(lia)).
  destruct (decide (r = 2 ^ prec)) as [->|Hne].
  - assert (Hd : Zdigits2 (2 ^ prec) = prec + 1).
    { pose proof (Zdigits2_shift 1 prec ltac:(lia) ltac:(lia)) as D. rewrite Z.mul_1_l in D.
      rewrite D. cbn. lia. }
    rewrite Hd in He''. assert (e'' = e' + 1) as -> by lia. rewrite Ht.
    replace (e' + 1 - e') with 1 by lia. change (2 ^ 1) with 2.
    rewrite Hp, (Z.mul_comm 2), Z.div_mul by lia. unfold canonical. split_and!; lia.
  - assert (Hd : Zdigits2 r <= prec).
    { destruct r as [|p|p]; cbn [Zdigits2]; try lia. apply digits2_pos_le. lia. }
    assert (e'' = e') as -> by lia. rewrite Ht, Z.sub_diag, Z.div_1_r. unfold canonical.
    split_and!; try done; lia.
Qed.

Lemma canonical_valid s p e : canonical (Zpos p) e -> e <= emax - prec ->
  valid_binary prec emax (S754_finite s p e) = true.
Proof.
  intros (He & Hm & Hn) Hmax. unfold valid_binary, bounded, canonical_mantissa.
  pose proof (digits2_pos_le p prec ltac:(lia)) as Hd. rewrite fexp_max.
  apply andb_true_intro. split; [|apply Z.leb_le; lia]. apply Z.eqb_eq.
  destruct Hn as [->|Hn]; [lia|].
  pose proof (digits2_pos_ge p (prec - 1) ltac:(lia) Hn). lia.
Qed.

Lemma valid_canonical s p e : valid_binary prec emax (S754_finite s p e) = true ->
  canonical (Zpos p) e /\ fexp (Zdigits2 (Zpos p) + e) = e.
Proof.
  unfold valid_binary, bounded, canonical_mantissa. intros [Hc He]%andb_prop.
  apply Z.eqb_eq in Hc. split; [|done]. rewrite fexp_max in Hc.
  destruct (digits2_pos_bounds p) as [Hlo Hhi]. unfold canonical. split_and!; try lia.
  - eapply Z.lt_le_trans; [done|]. apply Z.pow_le_mono_r; lia.
  - destruct (decide (e = emin)) as [|]; [by left|right].
    etrans; [|done]. apply Z.pow_le_mono_r; lia.
Qed.

(** The steps of [binary_round_aux]. *)
Lemma round_cases s m e l :
  0 <= m -> e <= fexp (Zdigits2 m + e) ->
  exists r e' t e'',
    e <= e' /\ (r = m / 2 ^ (e' - e) \/ r = m / 2 ^ (e' - e) + 1) /\
    canonical (m / 2 ^ (e' - e)) e' /\ e' <= e'' /\ canonical t e'' /\ t * 2 ^ (e'' - e') = r /\
    binary_round_aux prec emax s m e l =
      match t with
      | Z0 => S754_zero s
      | Zpos p => if e'' <=? emax - prec then S754_finite s p e'' else S754_infinity s
      | Zneg _ => S754_nan
      end.
Proof.
  intros Hm Hex. unfold binary_round_aux.
  destruct (shr_fexp prec emax m e l) as [mrs e'] eqn:E1.
  destruct (first_shift m e l mrs e' Hm Hex E1) as (Hle & Ht & Hc).
  pose proof (round_nearest_even_cases mrs) as Hr. cbv zeta in Hr.
  set (r := round_nearest_even _ _) in *.
  assert (Hr' : r = shr_m mrs \/ r = shr_m mrs + 1) by intuition.
  destruct (shr_fexp prec emax r e' loc_Exact) as [mrs2 e''] eqn:E2.
  destruct Hc as (Hc1 & Hc2 & Hc3).
  destruct (second_shift r e' mrs2 e'') as (Hle2 & Hc' & Hv); [done|lia|lia|done|].
  exists r, e', (shr_m mrs2), e''. rewrite <- Ht. split_and!; try done.
Qed.

Lemma round_aux_valid s m e l :
  0 <= m -> e <= fexp (Zdigits2 m + e) ->
  valid_binary prec emax (binary_round_aux prec emax s m e l) = true.
Proof.
  intros Hm Hex. destruct (round_cases s m e l Hm Hex) as (r & e' & t & e'' & H).
  destruct H as (_ & _ & _ & _ & Hc & _ & ->).
  destruct t as [|p|p]; [done| |destruct Hc as (_ & ? & _); lia].
  destruct (Z.leb_spec e'' (emax - prec)); [|done]. by apply canonical_valid.
Qed.

Lemma round_aux_number s m e l :
  0 <= m -> e <= fexp (Zdigits2 m + e) -> is_number (binary_round_aux prec emax s m e l).
Proof.
  intros Hm Hex. destruct (round_cases s m e l Hm Hex) as (r & e' & t & e'' & H).
  destruct H as (_ & _ & _ & _ & Hc & _ & ->).
  destruct t as [|p|p]; [done| |destruct Hc as (_ & ? & _); lia]. by destruct (e'' <=? _).
Qed.

(** Two positive floats of the format, compared as integers of the smaller
    exponent. *)
Lemma canonical_not_above pb eb p e :
  canonical (Zpos pb) eb -> canonical (Zpos p) e ->
  Zpos pb * 2 ^ (eb - Z.min eb e) <= Zpos p * 2 ^ (e - Z.min eb e) ->
  f64_lt (S754_finite false p e) (S754_finite false pb eb) = false.
Proof.
  intros (Hb1 & Hb2 & Hb3) (H1 & H2 & H3) Hle.
  destruct (f64_lt _ _) eqn:E; [|done]. apply f64_lt_rank in E; [|done|done].
  unfold rank_lt in E. cbn in E.
  assert (Hp : 2 ^ prec = 2 * 2 ^ (prec - 1))
    by (rewrite <- Z.pow_succ_r by lia; f_equal; lia).
  destruct E as [|[_ [E|[-> E]]]]; [lia| |].
  - rewrite Z.min_r, Z.sub_diag, Z.pow_0_r, Z.mul_1_r in Hle by lia.
    assert (2 * 1 <= 2 ^ (eb - e)).
    { replace (eb - e) with (1 + (eb - e - 1)) by lia. rewrite Z.pow_add_r by lia.
      pose proof (pow2_pos (eb - e - 1) ltac:(lia)). lia. }
    destruct Hb3; [lia|]. nia.
  - rewrite Z.min_id, Z.sub_diag, Z.pow_0_r in Hle. lia.
Qed.

(** A value that is not below a float of the format rounds to one that is not
    below it. *)
Lemma round_aux_above m e l pb eb :
  0 <= m -> e <= fexp (Zdigits2 m + e) -> canonical (Zpos pb) eb -> e <= eb ->
  Zpos pb * 2 ^ (eb - e) <= m ->
  f64_lt (binary_round_aux prec emax false m e l) (S754_finite false pb eb) = false.
Proof.
  intros Hm Hex Hb Hbe Hv. pose proof Hb as (Hb1 & Hb2 & Hb3).
  destruct (round_cases false m e l Hm Hex) as (r & e' & t & e'' & H).
  destruct H as (Hle & Hr & (Hc1 & Hc2 & Hc3) & Hle2 & Ht & Hrt & ->).
  set (q := m / 2 ^ (e' - e)) in *.
  pose proof (pow2_pos (e' - e) ltac:(lia)) as P1.
  pose proof (pow2_pos (e'' - e') ltac:(lia)) as P2.
  assert (Hlow : Zpos pb * 2 ^ (eb - Z.min eb e') <= q * 2 ^ (e' - Z.min eb e')).
  { destruct (Z.le_gt_cases e' eb) as [Hge|Hlt].
    - rewrite Z.min_r, Z.sub_diag, Z.pow_0_r, Z.mul_1_r by lia.
      apply Z.div_le_lower_bound; [lia|].
      rewrite Z.mul_comm, <- Z.mul_assoc, <- Z.pow_add_r by lia.
      replace (eb - e' + (e' - e)) with (eb - e) by lia. done.
    - rewrite Z.min_l, Z.sub_diag, Z.pow_0_r, Z.mul_1_r by lia.
      destruct Hc3; [lia|].
      assert (Hp : 2 ^ prec = 2 * 2 ^ (prec - 1))
        by (rewrite <- Z.pow_succ_r by lia; f_equal; lia).
      assert (2 * 1 <= 2 ^ (e' - eb)).
      { replace (e' - eb) with (1 + (e' - eb - 1)) by lia. rewrite Z.pow_add_r by lia.
        pose proof (pow2_pos (e' - eb - 1) ltac:(lia)). lia. }
      nia. }
  assert (Hq : q <= r) by lia.
  assert (Hval : Zpos pb * 2 ^ (eb - Z.min eb e') <= t * 2 ^ (e'' - Z.min eb e')).
  { replace (e'' - Z.min eb e') with ((e'' - e') + (e' - Z.min eb e')) by lia.
    rewrite Z.pow_add_r by lia. pose proof (pow2_pos (e' - Z.min eb e') ltac:(lia)). nia. }
  assert (0 < t).
  { pose proof (pow2_pos (eb - Z.min eb e') ltac:(lia)).
    pose proof (pow2_pos (e'' - Z.min eb e') ltac:(lia)). nia. }
  destruct t as [|p|p]; [lia| |lia].
  destruct (Z.leb_spec e'' (emax - prec)); [|done].
  apply canonical_not_above; [done|done|].
  apply (Z.mul_le_mono_pos_r _ _ (2 ^ (Z.min eb e'' - Z.min eb e'))); [apply pow2_pos; lia|].
  rewrite <- !Z.mul_assoc, <- !Z.pow_add_r by lia.
  replace (eb - Z.min eb e'' + (Z.min eb e'' - Z.min eb e')) with (eb - Z.min eb e') by lia.
  replace (e'' - Z.min eb e'' + (Z.min eb e'' - Z.min eb e')) with (e'' - Z.min eb e') by lia.
  done.
Qed.

End Format.

(** ** [double] *)

Definition f64_valid (x : f64) : Prop := valid_binary 53 1024 x = true.

Lemma f64_round_valid s m e l :
  0 <= m -> e <= SpecFloat.fexp 53 1024 (Zdigits2 m + e) ->
  f64_valid (binary_round_aux 53 1024 s m e l).
Proof. apply round_aux_valid; lia. Qed.

Lemma f64_div_valid x y : f64_valid (f64_div x y).
Proof.
  destruct x as [sx|sx| |sx mx ex], y as [sy|sy| |sy my ey]; try done.
  unfold f64_div, SFdiv. destruct (SFdiv_core_binary _ _ _ _ _ _) as [[q e] l] eqn:E.
  apply SFdiv_core_spec in E as (_ & ? & ? & _). by apply f64_round_valid.
Qed.

Lemma f64_sqrt_valid x : f64_valid (f64_sqrt x).
Proof.
  destruct x as [s|[]| |[] m e]; try done. unfold f64_sqrt, SFsqrt.
  destruct (SFsqrt_core_binary _ _ _ _) as [[q e'] l] eqn:E.
  apply SFsqrt_core_spec in E as [? ?]. by apply f64_round_valid.
Qed.

Lemma canonical_full p e : -1074 <= e -> 2 ^ 52 <= Zpos p < 2 ^ 53 -> canonical 53 1024 (Zpos p) e.
Proof.
  intros He Hp. split; [exact He|]. change (53 - 1) with 52. split; [lia|right; lia].
Qed.

(** The root of what exceeds [mc * 2 ^ -52] is not below [pb * 2 ^ -52] where the
    square of the latter is not above the former. *)
Lemma f64_sqrt_above x mc pb :
  f64_valid x -> 2 ^ 52 <= Zpos mc < 2 ^ 53 -> 2 ^ 52 <= Zpos pb < 2 ^ 53 ->
  Zpos pb * Zpos pb <= Zpos mc * 2 ^ 52 ->
  f64_lt (S754_finite false mc (-52)) x = true ->
  f64_lt (f64_sqrt x) (S754_finite false pb (-52)) = false.
Proof.
  intros V Hmc Hpb Hsq H. destruct x as [s|[]| |[] m e]; try done.
  destruct (valid_canonical 53 1024 _ _ _ V) as [(Ce & Cm & Cn) _].
  assert (Hv : -52 <= e /\ Zpos mc <= Zpos m * 2 ^ (e + 52)).
  { apply f64_lt_rank in H; [|done|done]. unfold rank_lt in H. cbn in H.
    destruct (decide (e = -52)) as [->|Hne]; [change (2 ^ (-52 + 52)) with 1; lia|].
    assert (-52 < e) by lia. split; [lia|].
    destruct Cn as [Cn|Cn]; [unfold SpecFloat.emin in Cn; lia|].
    replace (e + 52) with (1 + (e + 51)) by lia. rewrite Z.pow_add_r by lia.
    pose proof (pow2_pos (e + 51) ltac:(lia)). change (53 - 1) with 52 in Cn. nia. }
  destruct Hv as [Hge Hv]. unfold f64_sqrt, SFsqrt.
  destruct (SFsqrt_core_binary 53 1024 (Zpos m) e) as [[q ez] l] eqn:E.
  pose proof (SFsqrt_core_spec _ _ _ _ _ E) as [Hq Hex].
  destruct (Z.le_gt_cases ez (-52)) as [Hez|Hez].
  - apply (round_aux_above 53 1024); try lia; [by apply canonical_full|].
    pose proof (SFsqrt_core_root _ _ _ _ _ E) as [Hs Hroot].
    assert (Hm : Zpos pb * Zpos pb * 2 ^ (2 * (-52 - ez)) <= Zpos m * 2 ^ (e - 2 * ez)).
    { replace (e - 2 * ez) with ((e + 52) + (2 * (-52 - ez) + 52)) by lia.
      rewrite (Z.pow_add_r 2 (e + 52)), (Z.pow_add_r 2 (2 * (-52 - ez)) 52) by lia.
      pose proof (pow2_pos (2 * (-52 - ez)) ltac:(lia)).
      transitivity (Zpos mc * 2 ^ 52 * 2 ^ (2 * (-52 - ez))); [by apply Z.mul_le_mono_nonneg_r; [lia|]|].
      transitivity (Zpos m * 2 ^ (e + 52) * 2 ^ 52 * 2 ^ (2 * (-52 - ez))); [|lia].
      apply Z.mul_le_mono_nonneg_r; [lia|]. by apply Z.mul_le_mono_nonneg_r. }
    replace (2 * (-52 - ez)) with ((-52 - ez) + (-52 - ez)) in Hm by lia.
    rewrite Z.pow_add_r in Hm by lia. pose proof (pow2_pos (-52 - ez) ltac:(lia)).
    apply Z.le_ngt. intros Hlt.
    pose proof (Z.mul_le_mono_nonneg (q + 1) (Zpos pb * 2 ^ (-52 - ez)) (q + 1)
      (Zpos pb * 2 ^ (-52 - ez)) ltac:(lia) ltac:(lia) ltac:(lia) ltac:(lia)). lia.
  - assert (Hd : 2 ^ 52 <= q).
    { unfold SpecFloat.fexp, SpecFloat.emin in Hex. destruct q as [|q|q]; cbn [Zdigits2] in *; [lia| |lia].
      destruct (digits2_pos_bounds q) as [Hlo _]. etrans; [|exact Hlo]. apply Z.pow_le_mono_r; lia. }
    assert (Hr : f64_lt (binary_round_aux 53 1024 false q ez l) (S754_finite false (2 ^ 52) ez) = false).
    { apply (round_aux_above 53 1024); try lia; [|rewrite Z.sub_diag; lia].
      apply canonical_full; [lia|]. by vm_compute. }
    apply f64_not_lt; [by apply (round_aux_number 53 1024)|done|].
    apply f64_not_lt in Hr; [|by apply (round_aux_number 53 1024)|done].
    destruct (f64_le_number _ _ Hr). rewrite f64_le_rank in * by done. unfold rank_lt in *. cbn in Hr |- *.
    lia.
Qed.

Lemma f64_sqrt_number x : f64_lt f64_zero x = true -> is_number (f64_sqrt x).
Proof.
  intros H. destruct x as [s|[]| |[] m e]; try done. unfold f64_sqrt, SFsqrt.
  destruct (SFsqrt_core_binary _ _ _ _) as [[q e'] l] eqn:E.
  apply SFsqrt_core_spec in E as [? ?]. by apply (round_aux_number 53 1024).
Qed.

Lemma f64_max_valid x y : f64_valid x -> f64_valid y -> f64_valid (f64_max x y).
Proof. apply f64_max_cases. Qed.

(** A factor with the exponent of one and at least its significand. *)
Lemma f64_mul_grows x mc :
  f64_valid x -> f64_lt f64_zero x = true -> 2 ^ 52 <= Zpos mc ->
  f64_le x (f64_mul x (S754_finite false mc (-52))) = true.
Proof.
  intros V H Hc. destruct x as [s|[]| |[] m e]; try done.
  unfold f64_mul, SFmul. cbn [xorb].
  destruct (valid_canonical 53 1024 _ _ _ V) as [Cm He].
  assert (Hd : Zdigits2 (Zpos m) + 52 <= Zdigits2 (Zpos (m * mc))).
  { destruct (Zdigits2_pos (Zpos m)) as [Hlo _]; [lia|].
    cbn [Zdigits2] in *.
    assert (Hp : 2 ^ (Zpos (digits2_pos m) - 1 + 52) <= Zpos (m * mc)).
    { rewrite Pos2Z.inj_mul, Z.pow_add_r by lia. nia. }
    apply digits2_pos_ge in Hp; lia. }
  assert (Hex : e + -52 <= SpecFloat.fexp 53 1024 (Zdigits2 (Zpos (m * mc)) + (e + -52)))
    by (unfold SpecFloat.fexp in *; lia).
  apply f64_not_lt; [by apply (round_aux_number 53 1024)|done|].
  apply (round_aux_above 53 1024); try lia; [done|].
  replace (e - (e + -52)) with 52 by lia. rewrite Pos2Z.inj_mul. nia.
Qed.
