(* ===== verification/PvShaping.v ===== *)
(** * Shaping of position and velocity references

    The inline functions at the top of [articore/detail/runtime.hpp]: which
    position a trajectory sends, the drive-velocity ceilings of the POS_VEL
    modes, and the references that ordinary control moves cycle by cycle. *)

From S2P Require Import Prelude Float32 FloatOrder Float64.

Definition kNativePvFinalHoldVelocityLimit : f32 := f32_zero.
Definition kNativePvSettlingVelocityLimit : f32 := f32_lit 5 100.
Definition kNativeOrdinaryPvDefaultAcceleration : f32 := f32_of_Z 6.
Definition kNativeTrajectoryPvAccelerationLimit : f32 := f32_of_Z 6.
Definition kNativeOrdinaryPvHoldPositionTolerance : f32 := f32_lit 2 1000.
Definition kNativeOrdinaryPvHoldVelocityTolerance : f32 := f32_lit 2 100.
Definition kNativeOrdinaryPvHoldReleaseTolerance : f32 := kNativeOrdinaryPvHoldPositionTolerance.
Definition kNativeOrdinaryPvHoldConfirmationCycles : Z := 25.
Definition kNativePvPositionFeedbackQuantum : f32 := f32_div (f32_of_Z 25) (f32_of_Z 65535).
Definition kNativeOrdinaryPvHoldTargetTolerance : f32 := kNativePvPositionFeedbackQuantum.

Definition kNativeCartesianTrajectoryPvVelocityGain : f32 := f32_lit 15 10.
Definition kNativeCartesianTrajectoryPvVelocityMargin : f32 := f32_lit 5 100.
Definition kNativeCartesianTrajectoryPvTrackingCatchupGain : f32 := f32_of_Z 5.
Definition kNativeCartesianTrajectoryPvFinalCatchupGain : f32 := f32_of_Z 10.
Definition kNativeCartesianTrajectoryPvFinalCatchupMaximum : f32 := f32_lit 50 100.
Definition kNativeCartesianReferenceMinimumStep : f32 := f32_lit 5 10000.
Definition kNativeCartesianReferenceMaximumHoldSeconds : f64 := f64_lit 10 1000.
Definition kNativeCartesianContinuousReferenceVelocity : f32 := f32_lit 10 100.
Definition kNativeCartesianFifoHandoffMaximumError : f32 := f32_lit 40 1000.
Definition kNativeCartesianTrackingPauseError : f32 := f32_lit 60 1000.
(** One second, in nanoseconds. *)
Definition kNativeCartesianTrackingPauseTimeout : Z := 1000000000.

Definition native_trajectory_pv_effective_position
    (ideal_position previous_command_position : f32) (force_exact : bool) : f32 :=
  if force_exact ||
     f32_ge (f32_abs (f32_sub ideal_position previous_command_position))
       kNativePvPositionFeedbackQuantum
  then ideal_position else previous_command_position.

Definition native_trajectory_pv_drive_velocity_limit
    (planned_velocity minimum_velocity product_ceiling : f32) : f32 :=
  f32_clamp
    (f32_add (f32_mul kNativeCartesianTrajectoryPvVelocityGain (f32_abs planned_velocity))
       kNativeCartesianTrajectoryPvVelocityMargin)
    minimum_velocity product_ceiling.

Definition native_cartesian_trajectory_pv_velocity_limit
    (planned_velocity tracking_position_error minimum_velocity product_ceiling : f32) : f32 :=
  f32_clamp
    (f32_max
       (f32_add (f32_mul kNativeCartesianTrajectoryPvVelocityGain (f32_abs planned_velocity))
          kNativeCartesianTrajectoryPvVelocityMargin)
       (f32_mul kNativeCartesianTrajectoryPvTrackingCatchupGain
          (f32_abs tracking_position_error)))
    minimum_velocity product_ceiling.

Definition native_cartesian_trajectory_pv_final_velocity_limit
    (tracking_position_error minimum_velocity product_ceiling : f32) : f32 :=
  f32_clamp
    (f32_mul kNativeCartesianTrajectoryPvFinalCatchupGain (f32_abs tracking_position_error))
    minimum_velocity
    (f32_min product_ceiling kNativeCartesianTrajectoryPvFinalCatchupMaximum).

Definition native_cartesian_tracking_scale (position_error : f32) : f32 :=
  if f32_isfinite position_error && f32_ge position_error kNativeCartesianTrackingPauseError
  then f32_zero else f32_of_Z 1.

Definition native_cartesian_reference_update_due
    (maximum_position_change : f32) (held_seconds : f64) (force_update : bool) : bool :=
  force_update || negb (f32_isfinite maximum_position_change) ||
  negb (f64_isfinite held_seconds) ||
  f32_ge maximum_position_change kNativeCartesianReferenceMinimumStep ||
  f64_le kNativeCartesianReferenceMaximumHoldSeconds held_seconds.

Definition advance_pv_position_reference (current_position target_position max_delta : f32) : f32 :=
  let error := f32_sub target_position current_position in
  f32_add current_position (f32_clamp error (f32_opp max_delta) max_delta).

Record NativePvReferenceStep := { step_position : f32; step_velocity : f32 }.

Definition advance_acceleration_limited_pv_reference
    (current_position current_velocity target_position maximum_velocity maximum_acceleration
     period_s : f32) : NativePvReferenceStep :=
  let error := f32_sub target_position current_position in
  let maximum_velocity_from_distance :=
    f32_sqrt (f32_max f32_zero
      (f32_mul (f32_mul (f32_of_Z 2) maximum_acceleration) (f32_abs error))) in
  let desired_velocity :=
    f32_copysign (f32_min maximum_velocity maximum_velocity_from_distance) error in
  let maximum_velocity_change := f32_mul maximum_acceleration period_s in
  let next_velocity :=
    f32_clamp desired_velocity
      (f32_sub current_velocity maximum_velocity_change)
      (f32_add current_velocity maximum_velocity_change) in
  let next_position :=
    f32_add current_position
      (f32_mul (f32_mul (f32_lit 5 10) (f32_add current_velocity next_velocity)) period_s) in
  let crossed :=
    (f32_gt error f32_zero && f32_ge next_position target_position) ||
    (f32_lt error f32_zero && f32_le next_position target_position) in
  if (f32_le (f32_abs error) (f32_lit 1 10000000) || crossed) &&
     f32_le (f32_abs current_velocity) maximum_velocity_change
  then {| step_position := target_position; step_velocity := f32_zero |}
  else {| step_position := next_position; step_velocity := next_velocity |}.

(** The guard of [advance_ordinary_pv_drive_velocity]. *)
Definition drive_inputs_valid
    (previous_velocity_limit feedback_velocity remaining_distance maximum_velocity
     maximum_acceleration period_s : f32) : bool :=
  f32_isfinite previous_velocity_limit && negb (f32_lt previous_velocity_limit f32_zero) &&
  f32_isfinite feedback_velocity &&
  f32_isfinite remaining_distance && negb (f32_lt remaining_distance f32_zero) &&
  f32_isfinite maximum_velocity && negb (f32_le maximum_velocity f32_zero) &&
  f32_isfinite maximum_acceleration && negb (f32_le maximum_acceleration f32_zero) &&
  f32_isfinite period_s && negb (f32_le period_s f32_zero).

(** The velocity from which the remaining distance still suffices to brake. *)
Definition braking_envelope (maximum_acceleration remaining_distance : f32) : f32 :=
  f32_sqrt (f32_max f32_zero
    (f32_mul (f32_mul (f32_of_Z 2) maximum_acceleration) remaining_distance)).

Definition advance_ordinary_pv_drive_velocity
    (previous_velocity_limit feedback_velocity remaining_distance maximum_velocity
     maximum_acceleration period_s : f32) : f32 :=
  if negb (drive_inputs_valid previous_velocity_limit feedback_velocity remaining_distance
             maximum_velocity maximum_acceleration period_s)
  then f32_zero
  else
    let braking_velocity := braking_envelope maximum_acceleration remaining_distance in
    let desired_velocity := f32_min maximum_velocity braking_velocity in
    let maximum_change := f32_mul maximum_acceleration period_s in
    let bounded_previous := f32_min previous_velocity_limit maximum_velocity in
    let measured_speed := f32_min (f32_abs feedback_velocity) maximum_velocity in
    if f32_ge desired_velocity bounded_previous then
      f32_min desired_velocity (f32_add (f32_max bounded_previous measured_speed) maximum_change)
    else
      f32_min bounded_previous
        (f32_max desired_velocity (f32_sub measured_speed maximum_change)).

(** [detail::advance_periodic_deadline]: points in time and the period in
    nanoseconds, the epoch being the initial value of a deadline.  The division
    truncates; [overdue] is not negative where it is reached. *)
Definition advance_periodic_deadline (deadline period now : Z) : Z :=
  let deadline := if deadline =? 0 then now else deadline in
  if now <? deadline then deadline
  else deadline + period * (Z.quot (now - deadline) period + 1).

(** ** The ceilings *)

Lemma valid_nonneg x :
  f32_valid x -> f32_isfinite x = true -> f32_lt x f32_zero = false -> f32_nonneg x.
Proof.
  intros V F L. assert (N : f32_number x) by (split; [done|by destruct x]).
  split; [done|]. rewrite f32_lt_place in L by done. apply Z.ltb_ge in L. exact L.
Qed.

Lemma valid_positive x :
  f32_valid x -> f32_isfinite x = true -> f32_le x f32_zero = false -> f32_nonneg x.
Proof.
  intros V F L. assert (N : f32_number x) by (split; [done|by destruct x]).
  split; [done|]. rewrite f32_le_place in L by done. apply Z.leb_gt in L. cbn in L. lia.
Qed.

Lemma braking_envelope_nonneg a d :
  f32_nonneg a -> f32_isfinite a = true -> f32_nonneg d -> f32_isfinite d = true ->
  f32_nonneg (braking_envelope a d).
Proof.
  intros Ha Fa Hd Fd. apply f32_sqrt_nonneg.
  assert (H0 : f32_nonneg f32_zero) by (split; [done|done]).
  assert (H2a : f32_nonneg (f32_mul (f32_of_Z 2) a)).
  { by apply f32_mul_nonneg. }
  assert (Hv : f32_valid (f32_mul (f32_mul (f32_of_Z 2) a) d)).
  { destruct (f32_isfinite (f32_mul (f32_of_Z 2) a)) eqn:E.
    - by apply f32_mul_nonneg.
    - destruct (f32_mul _ a) as [|s| |]; try done. by destruct d. }
  destruct (f32_max_left f32_zero (f32_mul (f32_mul (f32_of_Z 2) a) d)) as [Hn Hp]; [by destruct H0|done|].
  split; [done|]. etrans; [|exact Hp]. done.
Qed.

(** A guard that holds, as facts about the inputs. *)
Lemma drive_inputs_valid_inv p v d m a t :
  f32_valid p -> f32_valid v -> f32_valid d -> f32_valid m -> f32_valid a -> f32_valid t ->
  drive_inputs_valid p v d m a t = true ->
  f32_nonneg p /\ f32_number v /\ (f32_nonneg d /\ f32_isfinite d = true) /\
  (f32_nonneg m /\ f32_isfinite m = true) /\ (f32_nonneg a /\ f32_isfinite a = true) /\
  (f32_nonneg t /\ f32_isfinite t = true).
Proof.
  intros Vp Vv Vd Vm Va Vt H. unfold drive_inputs_valid in H.
  rewrite !andb_true_iff, !negb_true_iff in H. destruct_and! H.
  split_and!; try done; try (by apply valid_nonneg); try (by apply valid_positive).
  split; [done|by destruct v].
Qed.

(** C40. The ceiling that ordinary POS_VEL control sends to a drive is a number
    between zero and the configured maximum, whatever the feedback.  While the
    ceiling opens it stays inside the braking envelope of the remaining
    distance, and above the previous ceiling and the measured speed by at most
    one cycle of acceleration.  While it closes it lies between the envelope and
    its previous value, and it is down at the envelope unless the motor is still
    faster: one cycle of deceleration below the measured speed is the most that
    is left of it. *)
Theorem ordinary_pv_ceiling p v d m a t :
  f32_valid p -> f32_valid v -> f32_valid d -> f32_valid m -> f32_valid a -> f32_valid t ->
  let r := advance_ordinary_pv_drive_velocity p v d m a t in
  let desired := f32_min m (braking_envelope a d) in
  let measured := f32_min (f32_abs v) m in
  f32_nonneg r /\
  (drive_inputs_valid p v d m a t = true ->
   f32_le r m = true /\
   if f32_ge desired (f32_min p m) then
     f32_le r (braking_envelope a d) = true /\
     f32_le r (f32_add (f32_max (f32_min p m) measured) (f32_mul a t)) = true
   else
     f32_le desired r = true /\ f32_le r p = true /\
     f32_le r (f32_max desired (f32_sub measured (f32_mul a t))) = true).
Proof.
  intros Vp Vv Vd Vm Va Vt r desired ms. unfold advance_ordinary_pv_drive_velocity in r.
  destruct (drive_inputs_valid p v d m a t) eqn:E; cbn [negb] in r; [|by subst r].
  destruct (drive_inputs_valid_inv p v d m a t) as (Hp & Hv & [Hd Fd] & [Hm Fm] & [Ha Fa] & [Ht Ft]);
    try done.
  pose proof (braking_envelope_nonneg a d Ha Fa Hd Fd) as He.
  pose proof (f32_mul_nonneg a t Ha Ht Fa Ft) as Hc.
  pose proof (f32_abs_nonneg v Hv) as Hs.
  destruct (f32_min_place m _ (proj1 Hm) (proj1 He)) as [Nd Pd]. fold desired in Nd, Pd, r.
  destruct (f32_min_place p m (proj1 Hp) (proj1 Hm)) as [Nb Pb].
  destruct (f32_min_place (f32_abs v) m (proj1 Hs) (proj1 Hm)) as [Nm Pm].
  fold ms in Nm, Pm, r. set (b := f32_min p m) in *.
  set (c := f32_mul a t) in *. set (env := braking_envelope a d) in *.
  destruct Hp as [Np Zp], Hm as [Nmx Zm], He as [Ne Ze], Hs as [Ns Zs].
  destruct (f32_ge desired b) eqn:G.
  - destruct (f32_max_place b ms Nb Nm) as [Nx Px].
    assert (Hx : f32_nonneg (f32_add (f32_max b ms) c))
      by (apply f32_add_nonneg; [split; [done|lia]|done]).
    destruct (f32_min_place desired _ Nd (proj1 Hx)) as [Nr Pr]. fold r in Nr, Pr.
    destruct Hx as [Nx2 Zx]. split; [split; [done|lia]|]. intros _.
    rewrite !f32_le_place, !Z.leb_le by done. lia.
  - assert (Hl : f32_place desired < f32_place b)
      by (unfold f32_ge in G; change SFleb with f32_le in G; rewrite f32_le_place in G by done; lia).
    destruct (f32_max_left desired (f32_sub ms c) Nd) as [Nx Px];
      [apply f32_sub_valid; [apply Nm|apply Hc]|].
    destruct (f32_min_place b _ Nb Nx) as [Nr Pr]. fold r in Nr, Pr.
    split; [split; [done|lia]|]. intros _.
    rewrite !f32_le_place, !Z.leb_le by done. lia.
Qed.

(** Ten radians per second at most, an acceleration of six: with half a radian
    to go the ceiling opens, and with a thousandth of a radian to go it closes
    from five to the envelope, the motor being slow. *)
Definition sample_ceiling (previous remaining : f32) : f32 :=
  advance_ordinary_pv_drive_velocity previous (f32_lit 1 1000) remaining (f32_of_Z 10)
    (f32_of_Z 6) (f32_lit 2 1000).

Lemma ordinary_pv_ceiling_witness :
  f32_nonneg (sample_ceiling (f32_of_Z 1) (f32_lit 1 2)) /\
  f32_lt (f32_of_Z 1) (sample_ceiling (f32_of_Z 1) (f32_lit 1 2)) = true /\
  f32_le (sample_ceiling (f32_of_Z 5) (f32_lit 1 1000)) (f32_of_Z 5) = true /\
  sample_ceiling (f32_of_Z 5) (f32_lit 1 1000) = braking_envelope (f32_of_Z 6) (f32_lit 1 1000).
Proof.
  pose proof (ordinary_pv_ceiling (f32_of_Z 1) (f32_lit 1 1000) (f32_lit 1 2) (f32_of_Z 10)
                (f32_of_Z 6) (f32_lit 2 1000) eq_refl eq_refl eq_refl eq_refl eq_refl eq_refl)
    as [H1 _].
  pose proof (ordinary_pv_ceiling (f32_of_Z 5) (f32_lit 1 1000) (f32_lit 1 1000) (f32_of_Z 10)
                (f32_of_Z 6) (f32_lit 2 1000) eq_refl eq_refl eq_refl eq_refl eq_refl eq_refl)
    as [_ H2].
  split; [exact H1|]. split; [vm_compute; reflexivity|].
  split; [exact (proj1 (proj2 (proj2 (H2 ltac:(vm_compute; reflexivity)))))|].
  vm_compute. reflexivity.
Defined.

(** The clamped ceilings of the trajectory modes lie between their two limits,
    for every number the planner computes. *)
Lemma drive_velocity_limit_between v lo hi :
  f32_number v -> f32_isfinite v = true -> f32_number lo -> f32_number hi ->
  f32_place lo <= f32_place hi ->
  f32_place lo <= f32_place (native_trajectory_pv_drive_velocity_limit v lo hi) <= f32_place hi.
Proof.
  intros Hv Fv Hlo Hhi Hle. unfold native_trajectory_pv_drive_velocity_limit.
  apply f32_clamp_place; try done.
  assert (H : f32_nonneg (f32_mul kNativeCartesianTrajectoryPvVelocityGain (f32_abs v))).
  { apply f32_mul_nonneg; [done|by apply f32_abs_nonneg|done|by destruct v]. }
  by apply f32_add_nonneg.
Qed.

(** ** Periodic deadlines *)

(** The next deadline lies after [now], by at most one period unless it was
    ahead already, and on the grid of the old one. *)
Lemma advance_periodic_deadline_next deadline period now :
  0 < period -> deadline <> 0 ->
  let d := advance_periodic_deadline deadline period now in
  now < d /\ (deadline <= now -> d <= now + period) /\ (d - deadline) mod period = 0.
Proof.
  intros Hp H0 d. subst d. unfold advance_periodic_deadline.
  destruct (Z.eqb_spec deadline 0); [done|]. destruct (Z.ltb_spec now deadline).
  - rewrite Z.sub_diag, Z.mod_0_l by lia. lia.
  - rewrite Z.quot_div_nonneg by lia.
    pose proof (Z.div_mod (now - deadline) period ltac:(lia)) as Hd.
    pose proof (Z.mod_pos_bound (now - deadline) period Hp).
    set (q := (now - deadline) / period) in *.
    replace (deadline + period * (q + 1) - deadline) with ((q + 1) * period) by lia.
    rewrite Z.mod_mul by lia. lia.
Qed.
