(* ===== verification/Protocol.v ===== *)
(** * The Damiao CAN payloads

    [damiao/registers.hpp] and [damiao/protocol.hpp]: the register table, the
    quantisation of floats to 12- and 16-bit codes, and the eight-byte frames
    of every command, reply and feedback message. *)

From S2P Require Import Prelude Float32.

(** ** Registers *)

Inductive RegisterAccess := ReadOnly | ReadWrite.
Inductive RegisterDataType := Float | UInt32.

#[export] Instance RegisterAccess_eq_dec : EqDecision RegisterAccess.
Proof. solve_decision. Defined.
#[export] Instance RegisterDataType_eq_dec : EqDecision RegisterDataType.
Proof. solve_decision. Defined.

Record RegisterInfo := {
  ri_rid : Z;
  ri_access : RegisterAccess;
  ri_data_type : RegisterDataType
}.

Definition register_info (rid : Z) : option RegisterInfo :=
  let info a t := Some {| ri_rid := rid; ri_access := a; ri_data_type := t |} in
  if rid <=? 6 then info ReadWrite Float
  else if rid <=? 10 then info ReadWrite UInt32
  else if (rid =? 11) || (rid =? 12) then info ReadOnly Float
  else if (rid >=? 13) && (rid <=? 16) then info ReadOnly UInt32
  else if (rid >=? 17) && (rid <=? 20) then info ReadOnly Float
  else if (rid >=? 21) && (rid <=? 34) then info ReadWrite Float
  else if rid =? 35 then info ReadWrite UInt32
  else if rid =? 36 then info ReadOnly UInt32
  else if ((rid >=? 50) && (rid <=? 56)) || ((rid >=? 59) && (rid <=? 65)) ||
          (rid =? 80) || (rid =? 81) then info ReadOnly Float
  else None.

(** ** Data *)

Definition kKpMin : f32 := f32_of_Z 0.
Definition kKpMax : f32 := f32_of_Z 500.
Definition kKdMin : f32 := f32_of_Z 0.
Definition kKdMax : f32 := f32_of_Z 5.

Record Limits := {
  p_min : f32; p_max : f32;
  v_min : f32; v_max : f32;
  t_min : f32; t_max : f32
}.

Record SensorFeedback := {
  sf_can_id : Z;
  sf_status_code : Z;
  sf_pos : f32;
  sf_vel : f32;
  sf_torq : f32;
  sf_t_mos : f32;
  sf_t_rotor : f32
}.

Record RegisterValue := { rv_rid : Z; rv_data : list Z }.

Definition status_name (status : Z) : string :=
  if status =? 0x0 then "DISABLED"
  else if status =? 0x1 then "ENABLED"
  else if status =? 0x8 then "OVER_VOLTAGE"
  else if status =? 0x9 then "UNDER_VOLTAGE"
  else if status =? 0xA then "OVER_CURRENT"
  else if status =? 0xB then "MOS_OVER_TEMP"
  else if status =? 0xC then "ROTOR_OVER_TEMP"
  else if status =? 0xD then "LOST_COMM"
  else if status =? 0xE then "OVERLOAD"
  else "UNKNOWN".

(** ** Quantisation *)

Definition code_max (bits : Z) : Z := u32 (Z.shiftl 1 bits - 1).

(** [None] is the undefined behaviour of the cast, for a NaN argument. *)
Definition float_to_uint (x x_min x_max : f32) (bits : Z) : option Z :=
  let span := f32_sub x_max x_min in
  let clipped := f32_min (f32_max x x_min) x_max in
  f32_to_unsigned 32
    (f32_div (f32_mul (f32_sub clipped x_min) (f32_of_Z (code_max bits))) span).

Definition uint_to_float (x : Z) (x_min x_max : f32) (bits : Z) : f32 :=
  let span := f32_sub x_max x_min in
  f32_add (f32_div (f32_mul (f32_of_Z x) span) (f32_of_Z (code_max bits))) x_min.

(** ** Command frames *)

(** The eight bytes of an MIT frame from its five codes. *)
Definition pack_mit (pos_u vel_u kp_u kd_u torq_u : Z) : list Z :=
  [ u8 (Z.land (Z.shiftr pos_u 8) 0xFF);
    u8 (Z.land pos_u 0xFF);
    u8 (Z.land (Z.shiftr vel_u 4) 0xFF);
    u8 (Z.lor (Z.shiftl (Z.land vel_u 0xF) 4) (Z.land (Z.shiftr kp_u 8) 0xF));
    u8 (Z.land kp_u 0xFF);
    u8 (Z.land (Z.shiftr kd_u 4) 0xFF);
    u8 (Z.lor (Z.shiftl (Z.land kd_u 0xF) 4) (Z.land (Z.shiftr torq_u 8) 0xF));
    u8 (Z.land torq_u 0xFF) ].

Definition encode_mit_command (pos vel torq kp kd : f32) (limits : Limits) : option (list Z) :=
  match float_to_uint pos (p_min limits) (p_max limits) 16,
        float_to_uint vel (v_min limits) (v_max limits) 12,
        float_to_uint kp kKpMin kKpMax 12,
        float_to_uint kd kKdMin kKdMax 12,
        float_to_uint torq (t_min limits) (t_max limits) 12 with
  | Some pos_u, Some vel_u, Some kp_u, Some kd_u, Some torq_u =>
      Some (pack_mit pos_u vel_u kp_u kd_u torq_u)
  | _, _, _, _, _ => None
  end.

Definition zero_frame : list Z := [0; 0; 0; 0; 0; 0; 0; 0].

(** The four object bytes of a float, in memory order. *)
Definition f32_raw (value : f32) : list Z := le_bytes 4 (bits_of_f32 value).
Definition f32_of_raw (raw : list Z) : f32 := f32_of_bits (le_value raw).

Definition write_f32_le (out : list Z) (offset : nat) (value : f32) : list Z :=
  let raw := f32_raw value in
  <[(offset + 3)%nat := byte_at raw 3]>
    (<[(offset + 2)%nat := byte_at raw 2]>
      (<[(offset + 1)%nat := byte_at raw 1]>
        (<[offset := byte_at raw 0]> out))).

Definition encode_position_velocity_command (target_position velocity_limit : f32) : list Z :=
  write_f32_le (write_f32_le zero_frame 0 target_position) 4 velocity_limit.

Definition encode_velocity_command (target_velocity : f32) : list Z :=
  write_f32_le zero_frame 0 target_velocity.

Definition write_u16_le (out : list Z) (offset : nat) (value : Z) : list Z :=
  <[(offset + 1)%nat := u8 (Z.land (Z.shiftr value 8) 0xFF)]>
    (<[offset := u8 (Z.land value 0xFF)]> out).

Definition encode_force_position_command
    (target_position velocity_limit torque_limit_ratio : f32) : option (list Z) :=
  let v := f32_mul (f32_min (f32_max velocity_limit (f32_of_Z 0)) (f32_of_Z 100)) (f32_of_Z 100) in
  let i := f32_mul (f32_min (f32_max torque_limit_ratio (f32_of_Z 0)) (f32_of_Z 1)) (f32_of_Z 10000) in
  match f32_to_unsigned 16 v, f32_to_unsigned 16 i with
  | Some v_des, Some i_des =>
      let out := write_f32_le zero_frame 0 target_position in
      let out := write_u16_le out 4 (Z.min v_des 10000) in
      Some (write_u16_le out 6 (Z.min i_des 10000))
  | _, _ => None
  end.

Definition encode_enable_command : list Z := [0xFF; 0xFF; 0xFF; 0xFF; 0xFF; 0xFF; 0xFF; 0xFC].
Definition encode_disable_command : list Z := [0xFF; 0xFF; 0xFF; 0xFF; 0xFF; 0xFF; 0xFF; 0xFD].
Definition encode_set_zero_command : list Z := [0xFF; 0xFF; 0xFF; 0xFF; 0xFF; 0xFF; 0xFF; 0xFE].
Definition encode_clear_error_command : list Z := [0xFF; 0xFF; 0xFF; 0xFF; 0xFF; 0xFF; 0xFF; 0xFB].

Definition id_low (motor_id : Z) : Z := u8 (Z.land motor_id 0xFF).
Definition id_high (motor_id : Z) : Z := u8 (Z.land (Z.shiftr motor_id 8) 0xFF).

Definition encode_register_read_command (motor_id rid : Z) : list Z :=
  [id_low motor_id; id_high motor_id; 0x33; rid; 0; 0; 0; 0].

Definition encode_register_write_command (motor_id rid : Z) (data : list Z) : list Z :=
  [id_low motor_id; id_high motor_id; 0x55; rid;
   byte_at data 0; byte_at data 1; byte_at data 2; byte_at data 3].

Definition encode_store_parameters_command (motor_id : Z) : list Z :=
  [id_low motor_id; id_high motor_id; 0xAA; 0x01; 0; 0; 0; 0].

Definition encode_feedback_request_command (motor_id : Z) : list Z :=
  [id_low motor_id; id_high motor_id; 0xCC; 0; 0; 0; 0; 0].

(** ** Received frames *)

Definition decode_sensor_feedback (data : list Z) (limits : Limits) : SensorFeedback :=
  let can_id := Z.land (byte_at data 0) 0x0F in
  let status := Z.shiftr (byte_at data 0) 4 in
  let pos_int := Z.lor (Z.shiftl (byte_at data 1) 8) (byte_at data 2) in
  let vel_int := Z.lor (Z.shiftl (byte_at data 3) 4) (Z.shiftr (byte_at data 4) 4) in
  let torq_int := Z.lor (Z.shiftl (Z.land (byte_at data 4) 0x0F) 8) (byte_at data 5) in
  {| sf_can_id := can_id;
     sf_status_code := status;
     sf_pos := uint_to_float pos_int (p_min limits) (p_max limits) 16;
     sf_vel := uint_to_float vel_int (v_min limits) (v_max limits) 12;
     sf_torq := uint_to_float torq_int (t_min limits) (t_max limits) 12;
     sf_t_mos := f32_of_Z (byte_at data 6);
     sf_t_rotor := f32_of_Z (byte_at data 7) |}.

Definition is_known_register (rid : Z) : bool :=
  match register_info rid with Some _ => true | None => false end.

Definition is_register_frame (data : list Z) (marker : Z) : bool :=
  (byte_at data 1 <=? 0x0F) && (byte_at data 2 =? marker) && is_known_register (byte_at data 3).

Definition is_register_reply (data : list Z) : bool := is_register_frame data 0x33.
Definition is_register_write_ack (data : list Z) : bool := is_register_frame data 0x55.

Definition register_payload (data : list Z) : list Z :=
  [byte_at data 4; byte_at data 5; byte_at data 6; byte_at data 7].

Definition decode_register_value (data : list Z) : outcome RegisterValue :=
  if negb (is_register_reply data) then Thrown (RuntimeError "not a register reply frame")
  else Returned {| rv_rid := byte_at data 3; rv_data := register_payload data |}.

(** ** Installed motor models ([damiao/motor.hpp]) *)

Definition model_limits (model : string) : outcome Limits :=
  let limits p v t :=
    Returned {| p_min := f32_lit (- p) 2; p_max := f32_lit p 2;
                v_min := f32_of_Z (- v); v_max := f32_of_Z v;
                t_min := f32_of_Z (- t); t_max := f32_of_Z t |} in
  if String.eqb model "4310" then limits 25 30 10
  else if String.eqb model "4340P" then limits 25 10 28
  else if String.eqb model "8009" then limits 25 45 54
  else Thrown (InvalidArgument
    ("motor model is not installed in yunyi_v1_0: " ++ model)%string).

(** ** Quantisation is total and stays inside the code range *)

(** A range whose span is an integer, computed without rounding, and whose
    product with the largest code is a 24-bit integer.  Every range of the
    source is of this kind, so each operation of the two conversions keeps its
    exact bound. *)
Definition exact_range (lo hi : f32) (bits : Z) : bool :=
  let span := (f32_units hi - f32_units lo) / 2 ^ 149 in
  valid_binary 24 128 lo && f32_isfinite lo && valid_binary 24 128 hi && f32_isfinite hi &&
  (f32_units hi - f32_units lo =? span * 2 ^ 149) && (0 <? span) &&
  valid_binary 24 128 (f32_sub hi lo) && f32_isfinite (f32_sub hi lo) &&
  (f32_units (f32_sub hi lo) =? span * 2 ^ 149) &&
  valid_binary 24 128 (f32_of_Z (code_max bits)) && f32_isfinite (f32_of_Z (code_max bits)) &&
  (f32_units (f32_of_Z (code_max bits)) =? code_max bits * 2 ^ 149) &&
  (0 <? code_max bits) && (code_max bits <? 2 ^ 24) && (span * code_max bits <? 2 ^ 24).

Record exact_range_facts (lo hi : f32) (bits span : Z) : Prop := {
  er_lo : f32_valid lo /\ f32_isfinite lo = true;
  er_hi : f32_valid hi /\ f32_isfinite hi = true;
  er_units : f32_units hi = f32_units lo + span * 2 ^ 149;
  er_span : 0 < span < 2 ^ 24;
  er_sub : f32_upto (span * 2 ^ 149) (f32_sub hi lo) /\ f32_units (f32_sub hi lo) = span * 2 ^ 149;
  er_code : f32_upto (code_max bits * 2 ^ 149) (f32_of_Z (code_max bits)) /\
            f32_units (f32_of_Z (code_max bits)) = code_max bits * 2 ^ 149;
  er_max : 0 < code_max bits < 2 ^ 24;
  er_prod : span * code_max bits < 2 ^ 24
}.

Lemma exact_range_spec lo hi bits :
  exact_range lo hi bits = true -> exists span, exact_range_facts lo hi bits span.
Proof.
  unfold exact_range. set (span := (_ / _)). intros H.
  repeat (apply andb_prop in H; destruct H as [H ?]).
  repeat match goal with
  | H : (_ =? _) = true |- _ => apply Z.eqb_eq in H
  | H : (_ <? _) = true |- _ => apply Z.ltb_lt in H
  end.
  exists span. pose proof (pow2_pos 149 ltac:(lia)).
  split; try done; try lia; try nia.
  - split; [split_and!; try done; nia|done].
  - split; [split_and!; try done; nia|done].
Qed.

Lemma float_to_uint_in_range x lo hi bits :
  exact_range lo hi bits = true -> f32_valid x -> f32_isnan x = false ->
  exists u, float_to_uint x lo hi bits = Some u /\ 0 <= u <= code_max bits.
Proof.
  intros [span F]%exact_range_spec Hx Hn.
  destruct F as [[Vlo Flo] [Vhi Fhi] Hu Hspan [Hsub Esub] [Hcode Ecode] Hmax Hprod].
  pose proof (pow2_pos 149 ltac:(lia)) as Hp.
  destruct (f32_clip_between x lo hi) as (Vc & Fc & Bc); try done; [nia|].
  unfold float_to_uint. set (c := f32_min _ _) in *.
  assert (Hd : f32_upto (span * 2 ^ 149) (f32_sub c lo))
    by (apply f32_sub_upto; try done; [apply f32_bound_int; lia|nia]).
  assert (Hm : f32_upto (span * code_max bits * 2 ^ 149)
                 (f32_mul (f32_sub c lo) (f32_of_Z (code_max bits)))).
  { eapply f32_mul_upto; [done|done|apply f32_bound_int; nia|].
    rewrite Ecode. destruct Hd as (_ & _ & Hd). nia. }
  assert (Hq : f32_upto (code_max bits * 2 ^ 149)
     (f32_div (f32_mul (f32_sub c lo) (f32_of_Z (code_max bits))) (f32_sub hi lo))).
  { eapply f32_div_upto; [done|done|nia|apply f32_bound_int; lia|].
    rewrite Esub. destruct Hm as (_ & _ & Hm). nia. }
  destruct Hq as (Vq & Fq & Uq).
  destruct (f32_trunc_below _ (code_max bits) Vq Fq Uq) as (u & Ht & Hr).
  exists u. split; [|done]. unfold f32_to_unsigned. rewrite Ht.
  destruct (Z.leb_spec 0 u), (Z.ltb_spec u (2 ^ 32)); done || lia.
Qed.

Lemma f32_bound_units y :
  f32_valid y -> f32_isfinite y = true -> f32_bound (Z.abs (f32_units y)).
Proof.
  intros Vy Fy. destruct y as [s|?| |s m e]; try done; [exists 0, 0; simpl; lia|].
  destruct (f32_valid_inv _ _ _ Vy) as (He & Hmm & _). exists (Zpos m), (e + 149).
  split; [|lia]. cbn [f32_units]. pose proof (pow2_pos (e + 149) ltac:(lia)).
  destruct s; cbn [cond_Zopp]; nia.
Qed.

Lemma uint_to_float_in_range u lo hi bits :
  exact_range lo hi bits = true -> f32_units lo <= 0 <= f32_units hi ->
  0 <= u <= code_max bits ->
  let x := uint_to_float u lo hi bits in
  f32_valid x /\ f32_isfinite x = true /\ f32_units lo <= f32_units x <= f32_units hi.
Proof.
  intros [span F]%exact_range_spec Hz Hu0.
  destruct F as [[Vlo Flo] [Vhi Fhi] Hu Hspan [Hsub Esub] [Hcode Ecode] Hmax Hprod].
  pose proof (pow2_pos 149 ltac:(lia)) as Hp.
  assert (Hun : f32_upto (u * 2 ^ 149) (f32_of_Z u)).
  { apply f32_within_upto, (f32_within_sign (u <? 0)); [apply Z.ltb_ge; lia|].
    apply binary_normalize_below; [lia|apply f32_bound_int; lia|].
    rewrite Z.abs_eq by lia. done. }
  assert (Hm : f32_upto (u * span * 2 ^ 149) (f32_mul (f32_of_Z u) (f32_sub hi lo))).
  { eapply f32_mul_upto; [done|done|apply f32_bound_int; nia|].
    rewrite Esub. destruct Hun as (_ & _ & ?). nia. }
  assert (Hq : f32_upto (span * 2 ^ 149)
     (f32_div (f32_mul (f32_of_Z u) (f32_sub hi lo)) (f32_of_Z (code_max bits)))).
  { eapply f32_div_upto; [done|done|nia|apply f32_bound_int; lia|].
    rewrite Ecode. destruct Hm as (_ & _ & ?). nia. }
  unfold uint_to_float. set (q := f32_div _ _) in *. destruct Hq as (Vq & Fq & Uq).
  cbv zeta. set (x := f32_add q lo).
  set (b := if f32_units q + f32_units lo <? 0 then Z.abs (f32_units lo) else Z.abs (f32_units hi)).
  destruct (f32_add_below q lo b) as (V & Fi & Sg & Bd); try done.
  - subst b. destruct (_ <? 0); by apply f32_bound_units.
  - subst b. destruct (Z.ltb_spec (f32_units q + f32_units lo) 0); lia.
  - fold x in V, Fi, Sg, Bd. split_and!; try done; subst b.
    all: destruct (decide (f32_units x = 0)) as [->|Hne]; [lia|].
    all: specialize (Sg Hne); pose proof (f32_units_signed x) as Hs; rewrite Sg in Hs.
    all: destruct (Z.ltb_spec (f32_units q + f32_units lo) 0); lia.
Qed.

(** ** Bit fields *)

Lemma land_15 v : Z.land v 15 = v mod 16.
Proof. change 15 with (Z.ones 4). by rewrite Z.land_ones. Qed.

Lemma shiftr_4 v : Z.shiftr v 4 = v / 16.
Proof. by rewrite Z.shiftr_div_pow2. Qed.

Lemma shiftr_8 v : Z.shiftr v 8 = v / 256.
Proof. by rewrite Z.shiftr_div_pow2. Qed.

Lemma nibbles a b : 0 <= b < 16 -> Z.lor (Z.shiftl a 4) b = 16 * a + b.
Proof. intros. rewrite Z.lor_comm, lor_shiftl_add by (change (2 ^ 4) with 16; lia). lia. Qed.

Lemma bytes_be a b : 0 <= b < 256 -> Z.lor (Z.shiftl a 8) b = 256 * a + b.
Proof. intros. rewrite Z.lor_comm, lor_shiftl_add by (change (2 ^ 8) with 256; lia). lia. Qed.

Create Rewrite HintDb bitfield.
#[export] Hint Rewrite land_255 land_15 shiftr_4 shiftr_8 : bitfield.

(** Turn masks and shifts into quotients and remainders. *)
Ltac bitfield_step :=
  match goal with
  | |- context [Z.lor (Z.shiftl ?a 4) ?b] => rewrite (nibbles a b) by bitfield_side
  | |- context [Z.lor (Z.shiftl ?a 8) ?b] => rewrite (bytes_be a b) by bitfield_side
  | |- context [u8 ?a] => rewrite (u8_small a) by bitfield_side
  end
with bitfield_side :=
  unfold is_byte, in_word; Z.to_euclidean_division_equations; lia.
Ltac bitfield := autorewrite with bitfield; repeat bitfield_step.

(** The reader of the MIT layout: one field per code. *)
Definition unpack_mit (data : list Z) : Z * Z * Z * Z * Z :=
  ( Z.lor (Z.shiftl (byte_at data 0) 8) (byte_at data 1),
    Z.lor (Z.shiftl (byte_at data 2) 4) (Z.shiftr (byte_at data 3) 4),
    Z.lor (Z.shiftl (Z.land (byte_at data 3) 0xF) 8) (byte_at data 4),
    Z.lor (Z.shiftl (byte_at data 5) 4) (Z.shiftr (byte_at data 6) 4),
    Z.lor (Z.shiftl (Z.land (byte_at data 6) 0xF) 8) (byte_at data 7) ).

Lemma unpack_pack_mit pos_u vel_u kp_u kd_u torq_u :
  0 <= pos_u < 2 ^ 16 -> 0 <= vel_u < 2 ^ 12 -> 0 <= kp_u < 2 ^ 12 ->
  0 <= kd_u < 2 ^ 12 -> 0 <= torq_u < 2 ^ 12 ->
  unpack_mit (pack_mit pos_u vel_u kp_u kd_u torq_u) = (pos_u, vel_u, kp_u, kd_u, torq_u).
Proof.
  intros. unfold unpack_mit, pack_mit, byte_at. cbn [nth]. bitfield.
  repeat apply (f_equal2 pair); Z.to_euclidean_division_equations; lia.
Qed.

Lemma pack_mit_ok pos_u vel_u kp_u kd_u torq_u :
  bytes_ok 8 (pack_mit pos_u vel_u kp_u kd_u torq_u).
Proof. split; [done|]. unfold pack_mit. repeat constructor; apply wrap_bounds; lia. Qed.

(** ** Frames of floats and register values *)

Lemma encode_position_velocity_bytes p v :
  encode_position_velocity_command p v = f32_raw p ++ f32_raw v.
Proof. reflexivity. Qed.

Lemma f32_raw_ok x : bytes_ok 4 (f32_raw x).
Proof. apply le_bytes_ok. Qed.

Lemma f32_of_raw_raw x : f32_valid x -> f32_of_raw (f32_raw x) = x.
Proof.
  intros Hx. unfold f32_of_raw, f32_raw. rewrite le_value_bytes.
  change (8 * Z.of_nat 4) with 32. rewrite Z.mod_small by (by apply bits_of_f32_word).
  by apply f32_of_bits_of_f32.
Qed.

Lemma f32_raw_of_raw l :
  bytes_ok 4 l -> f32_isnan (f32_of_raw l) = false -> f32_valid (f32_of_raw l).
Proof.
  intros [Hl Hf] _. unfold f32_of_raw. pose proof (le_value_bound l Hf) as Hb.
  rewrite Hl in Hb. set (b := le_value l) in *. change (8 * Z.of_nat 4) with 32 in Hb.
  unfold f32_of_bits.
  pose proof (Z.mod_pos_bound (b / 2 ^ 23) (2 ^ 8) ltac:(lia)) as He.
  pose proof (Z.mod_pos_bound b (2 ^ 23) ltac:(lia)) as Hm.
  destruct (Z.eqb_spec ((b / 2 ^ 23) mod 2 ^ 8) 255); [by destruct (_ =? 0)|].
  destruct (Z.eqb_spec ((b / 2 ^ 23) mod 2 ^ 8) 0).
  - destruct (b mod 2 ^ 23) as [|m|m] eqn:E; try done. apply f32_valid_intro; lia.
  - destruct (b mod 2 ^ 23 + 2 ^ 23) as [|m|m] eqn:E; try done. apply f32_valid_intro; lia.
Qed.

(** ** The limits of the installed models *)

Lemma model_limits_cases model l :
  model_limits model = Returned l ->
  exact_range (p_min l) (p_max l) 16 = true /\ exact_range (v_min l) (v_max l) 12 = true /\
  exact_range (t_min l) (t_max l) 12 = true /\
  f32_units (p_min l) <= 0 <= f32_units (p_max l) /\
  f32_units (v_min l) <= 0 <= f32_units (v_max l) /\
  f32_units (t_min l) <= 0 <= f32_units (t_max l).
Proof.
  unfold model_limits.
  destruct (String.eqb _ _); [intros [= <-]; vm_compute; intuition discriminate|].
  destruct (String.eqb _ _); [intros [= <-]; vm_compute; intuition discriminate|].
  destruct (String.eqb _ _); [intros [= <-]; vm_compute; intuition discriminate|done].
Qed.

Lemma gain_ranges : exact_range kKpMin kKpMax 12 = true /\ exact_range kKdMin kKdMax 12 = true.
Proof. split; vm_compute; reflexivity. Qed.

(** A float argument of a command: a binary32 number that is not a NaN. *)
Definition command_float (x : f32) : Prop := f32_valid x /\ f32_isnan x = false.

(** C33. For every installed motor model, encoding an MIT command from any
    arguments that are not NaN (infinities included) never leaves the defined
    range of the float-to-integer casts: it yields eight bytes whose bit fields
    read back as exactly the five quantised codes, each within its field. *)
Theorem encode_mit_command_lossless model limits pos vel torq kp kd :
  model_limits model = Returned limits ->
  Forall command_float [pos; vel; torq; kp; kd] ->
  exists data pos_u vel_u kp_u kd_u torq_u,
    encode_mit_command pos vel torq kp kd limits = Some data /\ bytes_ok 8 data /\
    unpack_mit data = (pos_u, vel_u, kp_u, kd_u, torq_u) /\
    float_to_uint pos (p_min limits) (p_max limits) 16 = Some pos_u /\
    float_to_uint vel (v_min limits) (v_max limits) 12 = Some vel_u /\
    float_to_uint torq (t_min limits) (t_max limits) 12 = Some torq_u /\
    float_to_uint kp kKpMin kKpMax 12 = Some kp_u /\
    float_to_uint kd kKdMin kKdMax 12 = Some kd_u /\
    0 <= pos_u <= 65535 /\ Forall (fun u => 0 <= u <= 4095) [vel_u; kp_u; kd_u; torq_u].
Proof.
  intros (Hp & Hv & Ht & _)%model_limits_cases Hall.
  destruct gain_ranges as [Hkp Hkd].
  repeat match goal with H : Forall _ (_ :: _) |- _ => apply Forall_cons in H as [[? ?] ?] end.
  destruct (float_to_uint_in_range pos _ _ 16 Hp) as (pu & Ep & Bp); [done..|].
  destruct (float_to_uint_in_range vel _ _ 12 Hv) as (vu & Ev & Bv); [done..|].
  destruct (float_to_uint_in_range torq _ _ 12 Ht) as (tu & Et & Bt); [done..|].
  destruct (float_to_uint_in_range kp _ _ 12 Hkp) as (ku & Ek & Bk); [done..|].
  destruct (float_to_uint_in_range kd _ _ 12 Hkd) as (du & Ed & Bd); [done..|].
  change (code_max 16) with 65535 in *. change (code_max 12) with 4095 in *.
  exists (pack_mit pu vu ku du tu), pu, vu, ku, du, tu. unfold encode_mit_command.
  rewrite Ep, Ev, Et, Ek, Ed. split; [done|]. split; [apply pack_mit_ok|].
  split; [apply unpack_pack_mit; lia|]. do 6 (split; [done|]).
  repeat (apply Forall_cons; split; [lia|]). constructor.
Qed.

Lemma encode_mit_command_lossless_witness :
  exists data pos_u vel_u kp_u kd_u torq_u,
    encode_mit_command (f32_lit 3 2) (f32_of_Z (-2)) (f32_of_Z 4) (f32_of_Z 60) (f32_lit 3 2)
      {| p_min := f32_lit (-25) 2; p_max := f32_lit 25 2; v_min := f32_of_Z (-45);
         v_max := f32_of_Z 45; t_min := f32_of_Z (-54); t_max := f32_of_Z 54 |} = Some data /\
    unpack_mit data = (pos_u, vel_u, kp_u, kd_u, torq_u) /\ 0 <= pos_u <= 65535.
Proof.
  destruct (encode_mit_command_lossless "8009" _ (f32_lit 3 2) (f32_of_Z (-2)) (f32_of_Z 4)
    (f32_of_Z 60) (f32_lit 3 2) eq_refl) as (d & p & v & k & kd & t & H1 & _ & H2 & H3).
  - repeat (apply Forall_cons; split; [vm_compute; split; reflexivity|]). constructor.
  - exists d, p, v, k, kd, t. split; [exact H1|]. split; [exact H2|]. apply H3.
Defined.

(** C34. Decoding any eight-byte feedback payload of an installed model gives
    finite numbers inside the model's ranges: no bit pattern a motor can send
    becomes a NaN, an infinity or a value outside its limits. *)
Theorem decode_sensor_feedback_in_limits model limits data :
  model_limits model = Returned limits -> bytes_ok 8 data ->
  let fb := decode_sensor_feedback data limits in
  0 <= sf_can_id fb < 16 /\ 0 <= sf_status_code fb < 16 /\
  (f32_isfinite (sf_pos fb) = true /\
     f32_units (p_min limits) <= f32_units (sf_pos fb) <= f32_units (p_max limits)) /\
  (f32_isfinite (sf_vel fb) = true /\
     f32_units (v_min limits) <= f32_units (sf_vel fb) <= f32_units (v_max limits)) /\
  (f32_isfinite (sf_torq fb) = true /\
     f32_units (t_min limits) <= f32_units (sf_torq fb) <= f32_units (t_max limits)).
Proof.
  intros (Hp & Hv & Ht & Zp & Zv & Zt)%model_limits_cases Hd.
  pose proof (fun i => byte_at_ok 8 data i Hd) as Hb. unfold is_byte, in_word in Hb.
  change (2 ^ 8) with 256 in Hb.
  pose proof (Hb 0%nat). pose proof (Hb 1%nat). pose proof (Hb 2%nat). pose proof (Hb 3%nat).
  pose proof (Hb 4%nat). pose proof (Hb 5%nat).
  unfold decode_sensor_feedback; cbv zeta; cbn [sf_can_id sf_status_code sf_pos sf_vel sf_torq].
  bitfield.
  split_and!; try (Z.to_euclidean_division_equations; lia).
  all: try (apply (uint_to_float_in_range _ _ _ 16); [done|done|]).
  all: try (apply (uint_to_float_in_range _ _ _ 12); [done|done|]).
  all: change (code_max 16) with 65535; change (code_max 12) with 4095;
       Z.to_euclidean_division_equations; lia.
Qed.

Lemma decode_sensor_feedback_in_limits_witness :
  bytes_ok 8 [0x13; 0xFF; 0xFF; 0x7F; 0xF7; 0xFF; 40; 41] /\
  f32_isfinite (sf_pos (decode_sensor_feedback [0x13; 0xFF; 0xFF; 0x7F; 0xF7; 0xFF; 40; 41]
    {| p_min := f32_lit (-25) 2; p_max := f32_lit 25 2; v_min := f32_of_Z (-30);
       v_max := f32_of_Z 30; t_min := f32_of_Z (-10); t_max := f32_of_Z 10 |})) = true.
Proof.
  assert (H : bytes_ok 8 [0x13; 0xFF; 0xFF; 0x7F; 0xF7; 0xFF; 40; 41])
    by (split; [reflexivity | repeat constructor; unfold is_byte, in_word; lia]).
  split; [exact H|].
  exact (proj1 (proj1 (proj2 (proj2
    (decode_sensor_feedback_in_limits "4310" _ _ eq_refl H))))).
Defined.

(** The POS_VEL frame carries its two floats unchanged: the first four
    bytes read back as the target position and the last four as the velocity
    limit, bit for bit, for every binary32 value. *)
Theorem encode_position_velocity_roundtrip p v :
  f32_valid p -> f32_valid v ->
  let data := encode_position_velocity_command p v in
  bytes_ok 8 data /\ f32_of_raw (take 4 data) = p /\ f32_of_raw (drop 4 data) = v.
Proof.
  intros Hp Hv. cbv zeta. rewrite encode_position_velocity_bytes.
  destruct (f32_raw_ok p) as [Lp Fp], (f32_raw_ok v) as [Lv Fv].
  split_and!.
  - split; [rewrite length_app; lia|by apply Forall_app].
  - rewrite take_app_length' by done. by apply f32_of_raw_raw.
  - rewrite drop_app_length' by done. by apply f32_of_raw_raw.
Qed.

Lemma encode_position_velocity_roundtrip_witness :
  f32_of_raw (drop 4 (encode_position_velocity_command (f32_lit (-7) 4) (f32_lit 15 100)))
    = f32_lit 15 100.
Proof. apply (encode_position_velocity_roundtrip (f32_lit (-7) 4) (f32_lit 15 100)); reflexivity. Defined.
