(* ===== verification/CanBus.v ===== *)
(** * CAN frames, the SocketCAN-FD transport and its health accounting

    [damiao/can_bus.hpp], [socketcan_fd_bus.cpp] and [Controller::PacingBus] of
    [motor/src/runtime.cpp].  System calls are parameters: an oracle answers
    each [write] and [poll], and the clock advances by an arbitrary amount
    between two steps. *)

From S2P Require Import Prelude.

Record CanFrame := {
  cf_id : Z;
  cf_data : list Z;
  cf_dlc : Z;
  cf_is_extended : bool;
  cf_channel : Z
}.

(** [CanFrame{id, data}]: the aggregate's default member initialisers. *)
Definition can_frame (id : Z) (data : list Z) : CanFrame :=
  {| cf_id := u32 id; cf_data := data; cf_dlc := 8; cf_is_extended := false; cf_channel := 0xFF |}.

Record TransportCapabilities := {
  tc_transport : string;
  tc_max_payload_bytes : Z;
  tc_channel_count : Z;
  tc_can_fd : bool;
  tc_parallel_batches : bool;
  tc_hardware_rx_timestamps : bool;
  tc_reconnect : bool;
  tc_process_session_reuse : bool;
  tc_can_fd_brs : bool
}.

Record TransportHealth := {
  th_connected : bool;
  th_healthy : bool;
  th_tx_frames : Z;
  th_rx_frames : Z;
  th_send_errors : Z;
  th_receive_errors : Z;
  th_last_tx_age : option Z;
  th_last_rx_age : option Z;
  th_last_error : string
}.

(** ** The frame codec *)
Module SocketCanCodec.

Record SocketCanFdRawFrame := {
  raw_can_id : Z;
  raw_len : Z;
  raw_flags : Z;
  raw_data : list Z
}.

Definition kCanEffFlag : Z := 0x80000000.
Definition kCanEffMask : Z := 0x1FFFFFFF.
Definition kCanSffMask : Z := 0x000007FF.
Definition kCanFdBrs : Z := 0x01.

Definition validate_frame (frame : CanFrame) : outcome unit :=
  if cf_dlc frame >? 8 then Thrown (InvalidArgument "invalid DLC, expected <= 8")
  else if negb (cf_is_extended frame) && (cf_id frame >? kCanSffMask) then
    Thrown (InvalidArgument "invalid standard CAN id")
  else if cf_is_extended frame && (cf_id frame >? kCanEffMask) then
    Thrown (InvalidArgument "invalid extended CAN id")
  else Returned tt.

Definition encode_fd (frame : CanFrame) (enable_brs : bool) : outcome SocketCanFdRawFrame :=
  match validate_frame frame with
  | Returned _ => Returned
      {| raw_can_id := if cf_is_extended frame then Z.lor (cf_id frame) kCanEffFlag
                       else cf_id frame;
         raw_len := cf_dlc frame;
         raw_flags := if enable_brs then kCanFdBrs else 0;
         raw_data := cf_data frame ++ replicate 56 0 |}
  | Thrown e => Thrown e
  | Undefined => Undefined
  | Unfinished => Unfinished
  end.

Definition decode_fd (raw : SocketCanFdRawFrame) : CanFrame :=
  let is_extended := negb (Z.land (raw_can_id raw) kCanEffFlag =? 0) in
  {| cf_id := if is_extended then Z.land (raw_can_id raw) kCanEffMask
              else Z.land (raw_can_id raw) kCanSffMask;
     cf_data := take 8 (raw_data raw);
     cf_dlc := Z.min (raw_len raw) 8;
     cf_is_extended := is_extended;
     cf_channel := 0xFF |}.

(** The frames the transport accepts. *)
Definition valid_frame (f : CanFrame) : Prop :=
  0 <= cf_dlc f <= 8 /\ length (cf_data f) = 8%nat /\
  0 <= cf_id f <= (if cf_is_extended f then kCanEffMask else kCanSffMask).

Lemma validate_frame_spec f :
  0 <= cf_dlc f -> 0 <= cf_id f -> length (cf_data f) = 8%nat ->
  validate_frame f = Returned tt <-> valid_frame f.
Proof.
  intros H1 H2 H3. unfold validate_frame, valid_frame, kCanSffMask, kCanEffMask.
  rewrite !Z.gtb_ltb.
  destruct (Z.ltb_spec 8 (cf_dlc f)); [split; [done|lia]|].
  destruct (cf_is_extended f); simpl;
    [destruct (Z.ltb_spec 536870911 (cf_id f))|destruct (Z.ltb_spec 2047 (cf_id f))];
    split; intros; try done; lia.
Qed.

Lemma land_ones_id k v : 0 <= k -> 0 <= v < 2 ^ k -> Z.land v (Z.ones k) = v.
Proof. intros. rewrite Z.land_ones by done. by apply Z.mod_small. Qed.

Lemma lor_flag v : 0 <= v <= kCanEffMask -> Z.lor v kCanEffFlag = v + 2 ^ 31.
Proof.
  intros H. change kCanEffFlag with (Z.shiftl 1 31).
  rewrite lor_shiftl_add by (unfold kCanEffMask in *; lia). lia.
Qed.

Lemma land_flag v : 0 <= v < 2 ^ 31 ->
  Z.land v kCanEffFlag = 0 /\ Z.land (v + 2 ^ 31) kCanEffFlag <> 0.
Proof.
  intros Hv. change kCanEffFlag with (2 ^ 31). split.
  - apply Z.bits_inj'. intros n Hn. rewrite Z.land_spec, Z.bits_0, Z.pow2_bits_eqb by lia.
    destruct (Z.eqb_spec 31 n) as [<-|]; [|apply andb_false_r].
    rewrite <- (Z.mod_small v (2 ^ 31)) by lia. by rewrite Z.mod_pow2_bits_high by lia.
  - intros Hz. apply (f_equal (fun z => Z.testbit z 31)) in Hz.
    rewrite Z.land_spec, Z.bits_0, Z.pow2_bits_true, andb_true_r in Hz by lia.
    assert (Ht : Z.testbit (v + 2 ^ 31) 31 = true); [|congruence].
    apply Z.b2z_inj. rewrite Z.testbit_spec' by lia.
    rewrite <- (Z.mul_1_l (2 ^ 31)) at 1. by rewrite Z.div_add, Z.div_small by lia.
Qed.

(** A frame survives the SocketCAN-FD encoding: every valid frame encodes,
    with the BRS bit exactly when it was asked for, and decodes to itself up
    to the receive channel, which the raw frame does not carry. *)
Theorem decode_encode_fd frame enable_brs :
  valid_frame frame ->
  exists raw, encode_fd frame enable_brs = Returned raw /\
    raw_flags raw = (if enable_brs then 1 else 0) /\ length (raw_data raw) = 64%nat /\
    decode_fd raw = {| cf_id := cf_id frame; cf_data := cf_data frame; cf_dlc := cf_dlc frame;
                       cf_is_extended := cf_is_extended frame; cf_channel := 0xFF |}.
Proof.
  intros Hv. pose proof Hv as (Hd & Hl & Hid).
  assert (He : validate_frame frame = Returned tt) by (apply validate_frame_spec; try lia; done).
  unfold encode_fd. rewrite He. eexists. split; [done|]. split; [done|].
  split; [cbn; rewrite length_app, Hl; done|].
  unfold decode_fd. cbn [raw_can_id raw_len raw_data raw_flags].
  rewrite take_app_length', Z.min_l by (done || lia).
  destruct (cf_is_extended frame).
  - rewrite lor_flag by lia. unfold kCanEffMask in Hid.
    destruct (land_flag (cf_id frame)) as [_ H1]; [lia|].
    assert (H2 : Z.land (cf_id frame + 2 ^ 31) kCanEffMask = cf_id frame).
    { change kCanEffMask with (Z.ones 29). rewrite Z.land_ones by lia.
      replace (cf_id frame + 2 ^ 31) with (cf_id frame + 4 * 2 ^ 29) by lia.
      rewrite Z.mod_add, Z.mod_small; lia. }
    rewrite H2. destruct (Z.eqb_spec (Z.land (cf_id frame + 2 ^ 31) kCanEffFlag) 0); done.
  - unfold kCanSffMask in Hid. destruct (land_flag (cf_id frame)) as [H1 _]; [lia|].
    rewrite H1. simpl. f_equal. change kCanSffMask with (Z.ones 11). apply land_ones_id; lia.
Qed.

Lemma decode_encode_fd_witness :
  exists raw, encode_fd (can_frame 0x7FF [1; 0; 0xCC; 0; 0; 0; 0; 0]) true = Returned raw /\
    cf_data (decode_fd raw) = [1; 0; 0xCC; 0; 0; 0; 0; 0].
Proof.
  destruct (decode_encode_fd (can_frame 0x7FF [1; 0; 0xCC; 0; 0; 0; 0; 0]) true) as (raw & H1 & _ & _ & H2).
  - split; [simpl; lia|]. split; [reflexivity|]. simpl. vm_compute. split; discriminate.
  - exists raw. split; [exact H1|]. rewrite H2. reflexivity.
Defined.

End SocketCanCodec.
