(* ===== verification/SocketCan.v ===== *)
(** * The SocketCAN-FD bus: bounded sends, receives and shutdown

    [motor/src/socketcan_fd_bus.cpp].  An oracle answers every [write], [poll]
    and [read]; the monotonic clock advances by an arbitrary nonnegative amount
    before each of them. *)

From S2P Require Import Prelude CanBus.
Import SocketCanCodec.
#[local] Open Scope mdl_scope.

Inductive errno := EINTR | EAGAIN | EWOULDBLOCK | ENOBUFS | EOTHER (code : Z).

#[export] Instance errno_eq_dec : EqDecision errno.
Proof. solve_decision. Defined.

Inductive write_result := Wrote (bytes : Z) | WriteError (e : errno).
Inductive poll_result := PollError (e : errno) | PollTimeout | PollReady (revents : Z).

Definition POLLIN : Z := 0x01.
(** [POLLERR | POLLHUP | POLLNVAL]. *)
Definition POLL_BROKEN : Z := 0x38.
Definition has_flag (revents mask : Z) : bool := negb (Z.land revents mask =? 0).

(** [sizeof(canfd_frame)]. *)
Definition canfd_frame_size : Z := 72.

Definition kDefaultSendTimeout : Z := 0.
Definition kMaximumSendTimeoutMs : Z := 60000.

Definition ms (n : Z) : Z := n * 1000000.

(** [std::chrono::ceil<milliseconds>] on nanoseconds. *)
Definition ceil_ms (ns : Z) : Z := (ns + 999999) / 1000000.

(** [std::from_chars] on an unsigned 64-bit integer that must consume the
    whole text: digits only, no sign, no overflow. *)
Fixpoint digits_value (acc : Z) (s : string) : option Z :=
  match s with
  | EmptyString => Some acc
  | String c rest =>
      let d := Z.of_nat (Ascii.nat_of_ascii c) - 48 in
      if (0 <=? d) && (d <=? 9) then digits_value (acc * 10 + d) rest else None
  end.

Definition parse_u64 (s : string) : option Z :=
  match s with
  | EmptyString => None
  | _ => match digits_value 0 s with
         | Some v => if v <? 2 ^ 64 then Some v else None
         | None => None
         end
  end.

(** The environment variable, when set, overrides the fail-fast default. *)
Definition configured_send_timeout (raw : option string) : Z :=
  match raw with
  | None => kDefaultSendTimeout
  | Some text =>
      match parse_u64 text with
      | None => kDefaultSendTimeout
      | Some timeout_ms =>
          if timeout_ms >? kMaximumSendTimeoutMs then kDefaultSendTimeout else ms timeout_ms
      end
  end.

(** ** The transmit loop *)

Record OsState := {
  os_now : Z;
  os_step : nat;
  os_writes : nat;
  os_polls : list Z
}.

Section Transmit.
Context (os_write : nat -> write_result) (os_poll : nat -> poll_result)
        (os_delay : nat -> N) (strerror : errno -> string).

Definition os_tick (s : OsState) : OsState :=
  {| os_now := os_now s + Z.of_N (os_delay (os_step s)); os_step := S (os_step s);
     os_writes := os_writes s; os_polls := os_polls s |}.

Definition os_clock : M OsState Z := fun s =>
  let s := os_tick s in (Returned (os_now s), s).

Definition sys_write : M OsState write_result := fun s =>
  let r := os_write (os_step s) in
  let s := os_tick s in
  (Returned r, {| os_now := os_now s; os_step := os_step s;
                  os_writes := S (os_writes s); os_polls := os_polls s |}).

Definition sys_poll (timeout_ms : Z) : M OsState poll_result := fun s =>
  let r := os_poll (os_step s) in
  let s := os_tick s in
  (Returned r, {| os_now := os_now s; os_step := os_step s;
                  os_writes := os_writes s; os_polls := timeout_ms :: os_polls s |}).

(** One round of the loop.  [inl e] continues with queue error [e]; [inr None]
    returns; [inr (Some e)] breaks out of the loop. *)
Definition write_round (frame_size deadline : Z) (endpoint : string)
    (queue_error : errno) : M OsState (errno + option errno) :=
  do written <- sys_write;
  match written with
  | Wrote n =>
      if n =? frame_size then ret (inr None)
      else throw (RuntimeError (endpoint ++ " send failed: short frame write (" ++
             to_string n ++ "/" ++ to_string frame_size ++ " bytes)")%string)
  | WriteError EINTR =>
      do now <- os_clock;
      if now >=? deadline then ret (inr (Some queue_error)) else ret (inl queue_error)
  | WriteError (EOTHER code) =>
      throw (RuntimeError (endpoint ++ " send failed: " ++ strerror (EOTHER code))%string)
  | WriteError error =>
      do now <- os_clock;
      if now >=? deadline then ret (inr (Some error)) else
      let poll_ms := Z.min (ceil_ms (deadline - now)) (2 ^ 31 - 1) in
      do rc <- sys_poll poll_ms;
      match rc with
      | PollError EINTR =>
          do now <- os_clock;
          if now >=? deadline then ret (inr (Some error)) else ret (inl error)
      | PollError e =>
          throw (RuntimeError (endpoint ++ " send poll failed: " ++ strerror e)%string)
      | PollTimeout => ret (inr (Some error))
      | PollReady revents =>
          if has_flag revents POLL_BROKEN then
            throw (RuntimeError (endpoint ++ " send poll reported socket error (revents=" ++
              to_string revents ++ ")")%string)
          else ret (inl error)
      end
  end.

Definition timed_out_message (endpoint : string) (timeout : Z) (e : errno) : string :=
  (endpoint ++ " send timed out after " ++ to_string (timeout / 1000000) ++
   " ms: transmit queue remained full (" ++ strerror e ++ ")")%string.

Definition write_frame_with_timeout (fuel : nat) (frame_size timeout : Z)
    (endpoint : string) : M OsState unit :=
  do start <- os_clock;
  do left_by <- loop fuel (write_round frame_size (start + timeout) endpoint) EAGAIN;
  match left_by with
  | None => ret tt
  | Some e => throw (RuntimeError (timed_out_message endpoint timeout e))
  end.

(** ** The bus object *)

Record SocketCanFdBus := {
  fd_ : Z;
  wake_fd_ : Z;
  interface_ : string;
  enable_brs_ : bool;
  send_timeout_ : Z
}.

Definition bus_send (fuel : nat) (bus : SocketCanFdBus) (frame : CanFrame) : M OsState unit :=
  match encode_fd frame (enable_brs_ bus) with
  | Returned _ =>
      if fd_ bus <? 0 then throw (RuntimeError "socketcanfd fd already closed")
      else write_frame_with_timeout fuel canfd_frame_size (send_timeout_ bus)
             ("socketcanfd " ++ interface_ bus)%string
  | Thrown e => throw e
  | Undefined => undefined
  | Unfinished => unfinished
  end.

Inductive receive_poll := RPollError (e : errno) | RPollTimeout | RPollReady (bus_revents wake_revents : Z).
Inductive read_result := ReadFrame (raw : SocketCanFdRawFrame) | ReadShort | ReadError (e : errno).

Definition receive_for (bus : SocketCanFdBus) (poll : receive_poll) (read : read_result)
    : outcome (option CanFrame) :=
  if (fd_ bus <? 0) || (wake_fd_ bus <? 0) then
    Thrown (RuntimeError "socketcanfd fd already closed")
  else match poll with
  | RPollError EINTR => Returned None
  | RPollError e => Thrown (RuntimeError ("socketcanfd poll failed: " ++ strerror e)%string)
  | RPollTimeout => Returned None
  | RPollReady bus_revents wake_revents =>
      if has_flag wake_revents POLLIN then Returned None
      else if has_flag bus_revents POLL_BROKEN then
        Thrown (RuntimeError "socketcanfd receive poll reported socket error")
      else match read with
      | ReadError (EAGAIN | EWOULDBLOCK | EINTR) => Returned None
      | ReadError e => Thrown (RuntimeError ("socketcanfd read failed: " ++ strerror e)%string)
      | ReadShort => Thrown (RuntimeError "socketcanfd read failed")
      | ReadFrame raw => Returned (Some (decode_fd raw))
      end
  end.

Definition bus_shutdown (bus : SocketCanFdBus) : SocketCanFdBus :=
  {| fd_ := if fd_ bus >=? 0 then -1 else fd_ bus;
     wake_fd_ := if wake_fd_ bus >=? 0 then -1 else wake_fd_ bus;
     interface_ := interface_ bus; enable_brs_ := enable_brs_ bus;
     send_timeout_ := send_timeout_ bus |}.

Definition bus_capabilities (bus : SocketCanFdBus) : TransportCapabilities :=
  {| tc_transport := "socketcanfd"; tc_max_payload_bytes := 8; tc_channel_count := 1;
     tc_can_fd := true; tc_parallel_batches := true; tc_hardware_rx_timestamps := false;
     tc_reconnect := true; tc_process_session_reuse := false;
     tc_can_fd_brs := enable_brs_ bus |}.

(** ** Properties *)

(** Close the parts of a statement about one concrete outcome. *)
Ltac outcome_cases :=
  repeat match goal with |- _ /\ _ => split | |- _ <-> _ => split end;
  intros; try done; try congruence; try (by eexists).

Lemma os_tick_now s : os_now s <= os_now (os_tick s).
Proof. unfold os_tick; simpl. lia. Qed.

(** With the default zero timeout a control frame is fail-fast: the send
    performs exactly one [write] and never waits in [poll], and it returns
    normally exactly when that write took the whole frame. *)
Theorem write_frame_fail_fast fuel frame_size endpoint s :
  let r := write_frame_with_timeout (S fuel) frame_size kDefaultSendTimeout endpoint s in
  os_writes (snd r) = S (os_writes s) /\ os_polls (snd r) = os_polls s /\
  (fst r = Returned tt <-> os_write (S (os_step s)) = Wrote frame_size) /\
  (fst r <> Returned tt -> exists what, fst r = Thrown (RuntimeError what)).
Proof.
  unfold write_frame_with_timeout, kDefaultSendTimeout. cbn [bind os_clock loop].
  unfold bind, os_clock, write_round, sys_write, ret, throw. cbn.
  destruct (os_write (S (os_step s))) as [n|[| | | |c]]; cbn.
  1: destruct (Z.eqb_spec n frame_size) as [->|Hne]; cbn; by outcome_cases.
  5: by outcome_cases.
  all: rewrite Z.geb_leb;
       destruct (Z.leb_spec (os_now s + Z.of_N (os_delay (os_step s)) + 0)
         (os_now s + Z.of_N (os_delay (os_step s)) + Z.of_N (os_delay (S (os_step s))) +
          Z.of_N (os_delay (S (S (os_step s)))))); [cbn|lia].
  all: by outcome_cases.
Qed.

(** The oracle's clock makes progress between two steps. *)
Definition clock_progresses : Prop := forall k, (0 < os_delay k)%N.

(** C35. The transmit loop always ends: as long as the clock progresses it
    leaves the loop within one round per nanosecond of the timeout, whatever
    the kernel answers, so fuel above the timeout is never exhausted. *)
Theorem write_frame_terminates fuel frame_size timeout endpoint s :
  clock_progresses -> Z.max 0 timeout + 1 <= Z.of_nat fuel ->
  finished (write_frame_with_timeout fuel frame_size timeout endpoint s).
Proof.
  intros Hclk Hfuel. unfold write_frame_with_timeout.
  apply bind_finished; [done|]. intros start s1 [= <- <-].
  set (deadline := os_now (os_tick s) + timeout).
  apply bind_finished; [|intros [e|] s2 _; done].
  pose proof (loop_total (write_round frame_size deadline endpoint)
    (fun _ _ => True) (fun _ s => Z.to_nat (deadline - os_now s)) (fun _ _ => True)) as HL.
  apply HL; [|done|subst deadline; simpl; lia].
  clear HL. intros qe s0 _. unfold write_round, bind, sys_write, os_clock, sys_poll, ret, throw.
  cbn. pose proof (Hclk (os_step s0)). pose proof (Hclk (S (os_step s0))).
  destruct (os_write (os_step s0)) as [n|[| | | |c]]; cbn; [by destruct (n =? frame_size)|..|done].
  all: rewrite Z.geb_leb;
    destruct (Z.leb_spec deadline (os_now s0 + Z.of_N (os_delay (os_step s0)) +
                                   Z.of_N (os_delay (S (os_step s0))))); cbn; [done|].
  1: split; [done|lia].
  all: destruct (os_poll (S (S (os_step s0)))) as [[]| |rev]; cbn; try done;
    try (by destruct (has_flag rev POLL_BROKEN); [|split; [done|cbn; lia]]).
  all: zcase; [done|split; [done|cbn; lia]].
Qed.

(** After [shutdown] the bus is closed for good: every send and every
    receive throws, and closing again changes nothing. *)
Theorem bus_shutdown_closes fuel bus frame poll read s :
  let closed := bus_shutdown bus in
  bus_shutdown closed = closed /\
  (exists e, fst (bus_send fuel closed frame s) = Thrown e) /\ snd (bus_send fuel closed frame s) = s /\
  receive_for closed poll read = Thrown (RuntimeError "socketcanfd fd already closed").
Proof.
  unfold bus_shutdown. cbn [fd_ wake_fd_ interface_ enable_brs_ send_timeout_].
  assert (Hneg : forall z, (if z >=? 0 then -1 else z) < 0)
    by (intros z; rewrite Z.geb_leb; destruct (Z.leb_spec 0 z); lia).
  pose proof (Hneg (fd_ bus)). pose proof (Hneg (wake_fd_ bus)).
  split_and!.
  - f_equal; repeat zcase; lia || done.
  - unfold bus_send, encode_fd, validate_frame. cbn [fd_ enable_brs_].
    repeat destruct (_ && _); destruct (cf_dlc frame >? 8); try (by eexists);
    by (destruct (Z.ltb_spec (if fd_ bus >=? 0 then -1 else fd_ bus) 0); [eexists|lia]).
  - unfold bus_send. destruct (encode_fd frame _); try done. cbn [fd_].
    by destruct (Z.ltb_spec (if fd_ bus >=? 0 then -1 else fd_ bus) 0); [|lia].
  - unfold receive_for. cbn [fd_ wake_fd_].
    by destruct (Z.ltb_spec (if fd_ bus >=? 0 then -1 else fd_ bus) 0); [|lia].
Qed.

End Transmit.

Lemma write_frame_terminates_witness :
  clock_progresses (fun _ => 1%N) /\
  finished (write_frame_with_timeout (fun _ => WriteError EAGAIN) (fun _ => PollReady 4)
    (fun _ => 1%N) (fun _ => "queue full"%string) 21 canfd_frame_size 20 "can-left"
    {| os_now := 0; os_step := 0; os_writes := 0; os_polls := [] |}).
Proof.
  assert (H : clock_progresses (fun _ => 1%N)) by (intros k; lia).
  split; [exact H|]. apply write_frame_terminates; [exact H|lia].
Defined.
