(* ===== verification/MotorHandle.v ===== *)
(** * One motor as the controller sees it

    The data of [damiao::MotorHandle] and the two operations the receive worker
    performs on it: [accepts_frame] (identity of a frame, with the integrity
    statistics of rejected ones) and [process_feedback_frame] (register
    replies, write acknowledgements and the plausibility check on feedback).
    Both run under the handle's mutexes, so each is one step on the record. *)

From S2P Require Import Prelude Float32 Protocol CanBus SocketCan.

Record MotorState := {
  ms_can_id : Z;
  ms_arbitration_id : Z;
  ms_status_code : Z;
  ms_pos : f32;
  ms_vel : f32;
  ms_torq : f32;
  ms_t_mos : f32;
  ms_t_rotor : f32
}.

Record FeedbackStats := {
  fs_has_feedback : bool;
  fs_update_count : Z;
  fs_age : Z
}.

Record MotorStateSnapshot := {
  snap_state : option MotorState;
  snap_feedback : FeedbackStats
}.

Inductive FeedbackRejectionReason :=
| RejectNone | ShortFrame | IdentityMismatch | ImplausiblePositionJump.

#[export] Instance FeedbackRejectionReason_eq_dec : EqDecision FeedbackRejectionReason.
Proof. solve_decision. Defined.

(** The diagnostic text of a rejection: a fixed sentence, or the stream of
    values the jump message prints. *)
Inductive rejection_text :=
| PlainText (s : string)
| JumpText (channel arbitration_id can_id : Z)
           (previous_position position actual_delta allowed_delta elapsed : f32).

Record FeedbackIntegrityStats := {
  rejected_frame_count : Z;
  short_frame_count : Z;
  identity_mismatch_count : Z;
  implausible_position_jump_count : Z;
  last_reason : FeedbackRejectionReason;
  is_channel : Z;
  is_arbitration_id : Z;
  is_expected_arbitration_id : Z;
  is_decoded_can_id : Z;
  is_expected_can_id : Z;
  is_position : f32;
  is_previous_position : f32;
  is_allowed_position_delta : f32;
  is_error : rejection_text
}.

Definition no_rejections : FeedbackIntegrityStats :=
  {| rejected_frame_count := 0; short_frame_count := 0; identity_mismatch_count := 0;
     implausible_position_jump_count := 0; last_reason := RejectNone; is_channel := 0xFF;
     is_arbitration_id := 0; is_expected_arbitration_id := 0; is_decoded_can_id := 0;
     is_expected_can_id := 0; is_position := f32_zero; is_previous_position := f32_zero;
     is_allowed_position_delta := f32_zero; is_error := PlainText "" |}.

Record MotorHandle := {
  motor_id_ : Z;
  feedback_id_ : Z;
  model_ : string;
  limits_ : Limits;
  state_ : option MotorState;
  state_time_ : option Z;
  feedback_update_count_ : Z;
  integrity_stats_ : FeedbackIntegrityStats;
  disabled_hint_ : bool;
  register_replies_ : gmap Z (list Z * Z);
  register_acks_ : gmap Z (list Z * Z);
  register_ack_update_counts_ : gmap Z Z
}.

(** The constructor: throws when the model is not installed. *)
Definition make_MotorHandle (motor_id feedback_id : Z) (model : string) : outcome MotorHandle :=
  match model_limits model with
  | Returned limits => Returned
      {| motor_id_ := motor_id; feedback_id_ := feedback_id; model_ := model; limits_ := limits;
         state_ := None; state_time_ := None; feedback_update_count_ := 0;
         integrity_stats_ := no_rejections; disabled_hint_ := true; register_replies_ := ∅;
         register_acks_ := ∅; register_ack_update_counts_ := ∅ |}
  | Thrown e => Thrown e
  | Undefined => Undefined
  | Unfinished => Unfinished
  end.

(** ** Field updates *)

Definition set_feedback (m : MotorHandle) (st : MotorState) (now : Z) : MotorHandle :=
  {| motor_id_ := motor_id_ m; feedback_id_ := feedback_id_ m; model_ := model_ m;
     limits_ := limits_ m; state_ := Some st; state_time_ := Some now;
     feedback_update_count_ := u64 (feedback_update_count_ m + 1);
     integrity_stats_ := integrity_stats_ m; disabled_hint_ := disabled_hint_ m;
     register_replies_ := register_replies_ m; register_acks_ := register_acks_ m;
     register_ack_update_counts_ := register_ack_update_counts_ m |}.

Definition set_integrity (m : MotorHandle) (i : FeedbackIntegrityStats) : MotorHandle :=
  {| motor_id_ := motor_id_ m; feedback_id_ := feedback_id_ m; model_ := model_ m;
     limits_ := limits_ m; state_ := state_ m; state_time_ := state_time_ m;
     feedback_update_count_ := feedback_update_count_ m;
     integrity_stats_ := i; disabled_hint_ := disabled_hint_ m;
     register_replies_ := register_replies_ m; register_acks_ := register_acks_ m;
     register_ack_update_counts_ := register_ack_update_counts_ m |}.

Definition set_disabled_hint (m : MotorHandle) (b : bool) : MotorHandle :=
  {| motor_id_ := motor_id_ m; feedback_id_ := feedback_id_ m; model_ := model_ m;
     limits_ := limits_ m; state_ := state_ m; state_time_ := state_time_ m;
     feedback_update_count_ := feedback_update_count_ m;
     integrity_stats_ := integrity_stats_ m; disabled_hint_ := b;
     register_replies_ := register_replies_ m; register_acks_ := register_acks_ m;
     register_ack_update_counts_ := register_ack_update_counts_ m |}.

Definition set_registers (m : MotorHandle) (replies acks : gmap Z (list Z * Z))
    (counts : gmap Z Z) : MotorHandle :=
  {| motor_id_ := motor_id_ m; feedback_id_ := feedback_id_ m; model_ := model_ m;
     limits_ := limits_ m; state_ := state_ m; state_time_ := state_time_ m;
     feedback_update_count_ := feedback_update_count_ m;
     integrity_stats_ := integrity_stats_ m; disabled_hint_ := disabled_hint_ m;
     register_replies_ := replies; register_acks_ := acks;
     register_ack_update_counts_ := counts |}.

(** [register_ack_update_counts_[rid]]: absent entries count zero. *)
Definition ack_count (m : MotorHandle) (rid : Z) : Z :=
  default 0 (register_ack_update_counts_ m !! rid).

(** ** Identity of a frame *)

Definition matches_feedback_arbitration_id
    (arbitration_id configured_feedback_id motor_id : Z) : bool :=
  let compact_id := u16 (Z.land motor_id 0x0F) in
  let configured_feedback := u16 (Z.lor 0x10 compact_id) in
  let socketcanfd_feedback := u32 (Z.lor 0x200 compact_id) in
  (arbitration_id =? configured_feedback_id) ||
  ((configured_feedback_id =? configured_feedback) && (arbitration_id =? socketcanfd_feedback)).

Definition validate_register (rid : Z) (expected_type : RegisterDataType) (writing : bool)
    : outcome unit :=
  match register_info rid with
  | None => Thrown (InvalidArgument ("unknown Damiao register: " ++ to_string rid)%string)
  | Some info =>
      if writing && negb (bool_decide (ri_access info = ReadWrite)) then
        Thrown (InvalidArgument ("Damiao register is read-only: " ++ to_string rid)%string)
      else if negb (bool_decide (ri_data_type info = expected_type)) then
        Thrown (InvalidArgument
          ("Damiao register has a different data type: " ++ to_string rid)%string)
      else Returned tt
  end.

Definition record_feedback_rejection (m : MotorHandle) (reason : FeedbackRejectionReason)
    (frame : CanFrame) (decoded_can_id : Z)
    (position previous_position allowed_position_delta : f32) (error : rejection_text)
    : MotorHandle :=
  let i := integrity_stats_ m in
  let bump r n := if bool_decide (reason = r) then u64 (n + 1) else n in
  set_integrity m
    {| rejected_frame_count := u64 (rejected_frame_count i + 1);
       short_frame_count := bump ShortFrame (short_frame_count i);
       identity_mismatch_count := bump IdentityMismatch (identity_mismatch_count i);
       implausible_position_jump_count :=
         bump ImplausiblePositionJump (implausible_position_jump_count i);
       last_reason := reason;
       is_channel := cf_channel frame;
       is_arbitration_id := cf_id frame;
       is_expected_arbitration_id := feedback_id_ m;
       is_decoded_can_id := decoded_can_id;
       is_expected_can_id := motor_id_ m;
       is_position := position;
       is_previous_position := previous_position;
       is_allowed_position_delta := allowed_position_delta;
       is_error := error |}.

Definition is_register_message (data : list Z) : bool :=
  is_register_reply data || is_register_write_ack data.

(** The identity a payload claims and the one this handle expects. *)
Definition payload_can_id (data : list Z) : Z :=
  if is_register_message data
  then Z.lor (byte_at data 0) (Z.shiftl (byte_at data 1) 8)
  else Z.land (byte_at data 0) 0x0F.

Definition expected_can_id (m : MotorHandle) (data : list Z) : Z :=
  if is_register_message data then motor_id_ m else Z.land (motor_id_ m) 0x0F.

(** The verdict, and the handle with its (mutable) statistics. *)
Definition accepts_frame (m : MotorHandle) (frame : CanFrame) : bool * MotorHandle :=
  if cf_is_extended frame ||
     negb (matches_feedback_arbitration_id (cf_id frame) (feedback_id_ m) (motor_id_ m))
  then (false, m)
  else if negb (cf_dlc frame =? 8) then
    (false, record_feedback_rejection m ShortFrame frame 0 f32_zero f32_zero f32_zero
      (PlainText "feedback frame is shorter than the required 8-byte Damiao payload"))
  else
    let decoded_can_id := payload_can_id (cf_data frame) in
    if negb (decoded_can_id =? expected_can_id m (cf_data frame)) then
      (false, record_feedback_rejection m IdentityMismatch frame decoded_can_id
        f32_zero f32_zero f32_zero
        (PlainText "feedback arbitration ID matched but payload CAN ID did not match the MotorHandle"))
    else (true, m).

(** ** Accepting a frame *)

(** [duration<float>(now - then).count()]: nanoseconds as float seconds. *)
Definition float_seconds (ns : Z) : f32 := f32_div (f32_of_Z ns) (f32_of_Z 1000000000).

(** The largest position change the handle believes between two feedbacks. *)
Definition allowed_delta (limits : Limits) (previous_vel decoded_vel elapsed : f32) : f32 :=
  let observed_velocity := f32_max (f32_abs previous_vel) (f32_abs decoded_vel) in
  let velocity_bound := f32_max (f32_mul observed_velocity (f32_of_Z 4))
                                (f32_mul (f32_abs (v_max limits)) (f32_lit 3 2)) in
  f32_max (f32_lit 15 100) (f32_add (f32_lit 3 100) (f32_mul velocity_bound elapsed)).

Definition decoded_state (frame : CanFrame) (limits : Limits) : MotorState :=
  let decoded := decode_sensor_feedback (cf_data frame) limits in
  {| ms_can_id := sf_can_id decoded;
     ms_arbitration_id := cf_id frame;
     ms_status_code := sf_status_code decoded;
     ms_pos := sf_pos decoded;
     ms_vel := sf_vel decoded;
     ms_torq := sf_torq decoded;
     ms_t_mos := sf_t_mos decoded;
     ms_t_rotor := sf_t_rotor decoded |}.

Definition process_feedback_frame (now : Z) (m : MotorHandle) (frame : CanFrame) : MotorHandle :=
  let data := cf_data frame in
  if is_register_reply data then
    set_registers m (<[byte_at data 3 := (register_payload data, now)]> (register_replies_ m))
      (register_acks_ m) (register_ack_update_counts_ m)
  else if is_register_write_ack data then
    let rid := byte_at data 3 in
    set_registers m (register_replies_ m)
      (<[rid := (register_payload data, now)]> (register_acks_ m))
      (<[rid := u64 (ack_count m rid + 1)]> (register_ack_update_counts_ m))
  else
    let state := decoded_state frame (limits_ m) in
    match state_ m, state_time_ m with
    | Some previous, Some state_time =>
        let elapsed := f32_max f32_zero (float_seconds (now - state_time)) in
        let allowed := allowed_delta (limits_ m) (ms_vel previous) (ms_vel state) elapsed in
        let actual_delta := f32_abs (f32_sub (ms_pos state) (ms_pos previous)) in
        if f32_gt actual_delta allowed then
          record_feedback_rejection m ImplausiblePositionJump frame (ms_can_id state)
            (ms_pos state) (ms_pos previous) allowed
            (JumpText (cf_channel frame) (cf_id frame) (ms_can_id state)
               (ms_pos previous) (ms_pos state) actual_delta allowed elapsed)
        else set_feedback m state now
    | _, _ => set_feedback m state now
    end.

(** What the receive worker does with a frame offered to this handle. *)
Definition offer_frame (now : Z) (m : MotorHandle) (frame : CanFrame) : bool * MotorHandle :=
  match accepts_frame m frame with
  | (true, m') => (true, process_feedback_frame now m' frame)
  | r => r
  end.

(** ** Observers *)

Definition latest_state (m : MotorHandle) : option MotorState := state_ m.

Definition feedback_stats (now : Z) (m : MotorHandle) : FeedbackStats :=
  {| fs_has_feedback := match state_time_ m with Some _ => true | None => false end;
     fs_update_count := feedback_update_count_ m;
     fs_age := match state_time_ m with Some t => now - t | None => 0 end |}.

Definition state_snapshot (now : Z) (m : MotorHandle) : MotorStateSnapshot :=
  {| snap_state := state_ m; snap_feedback := feedback_stats now m |}.

(** ** Properties *)

(** A frame is this handle's: standard identifier, one of the two arbitration
    identities, full payload, and a payload identity that agrees. *)
Definition addressed_to (m : MotorHandle) (frame : CanFrame) : Prop :=
  cf_is_extended frame = false /\
  matches_feedback_arbitration_id (cf_id frame) (feedback_id_ m) (motor_id_ m) = true /\
  cf_dlc frame = 8 /\
  payload_can_id (cf_data frame) = expected_can_id m (cf_data frame).

Lemma accepts_frame_cases m frame :
  (accepts_frame m frame = (true, m) /\ addressed_to m frame) \/
  (exists m', accepts_frame m frame = (false, m') /\ ~ addressed_to m frame /\
    (m' = m \/ exists reason id text,
       (reason = ShortFrame \/ reason = IdentityMismatch) /\
       m' = record_feedback_rejection m reason frame id f32_zero f32_zero f32_zero text)).
Proof.
  unfold accepts_frame, addressed_to.
  destruct (cf_is_extended frame); simpl; [right; eexists; split; [done|]; split; [intros (?&?&?&?); congruence|auto]|].
  destruct (matches_feedback_arbitration_id _ _ _); simpl;
    [|right; eexists; split; [done|]; split; [intros (?&?&?&?); congruence|auto]].
  destruct (Z.eqb_spec (cf_dlc frame) 8); simpl;
    [|right; eexists; split; [done|]; split; [intros (?&?&?&?); congruence|]; right; eauto 10].
  destruct (Z.eqb_spec (payload_can_id (cf_data frame)) (expected_can_id m (cf_data frame))); simpl.
  - left. auto.
  - right. eexists. split; [done|]. split; [intros (?&?&?&?); congruence|]. right. eauto 10.
Qed.

Lemma accepted_addressed m frame : fst (accepts_frame m frame) = true -> addressed_to m frame.
Proof. by destruct (accepts_frame_cases m frame) as [[-> H]|(m' & -> & _ & _)]. Qed.

(** [accepts_frame] accepts exactly the frames addressed to the handle.  An
    accepted frame leaves the handle alone; a rejected one changes nothing but
    the integrity statistics. *)
Theorem accepts_frame_spec m frame :
  (fst (accepts_frame m frame) = true <-> addressed_to m frame) /\
  (fst (accepts_frame m frame) = true -> snd (accepts_frame m frame) = m) /\
  exists i, snd (accepts_frame m frame) = set_integrity m i.
Proof.
  assert (Hself : m = set_integrity m (integrity_stats_ m)) by (by destruct m).
  destruct (accepts_frame_cases m frame) as [[-> H]|(m' & -> & H & Hm)]; simpl.
  - split; [done|]. split; [done|]. eauto.
  - split; [done|]. split; [done|]. destruct Hm as [->|(r & id & t & _ & ->)]; [eauto|].
    unfold record_feedback_rejection. eauto.
Qed.

Lemma lor_shiftl_8_nibble a b : Z.lor a (Z.shiftl b 8) mod 16 = a mod 16.
Proof.
  rewrite <- !land_15. apply Z.bits_inj'. intros n Hn.
  rewrite !Z.land_spec, Z.lor_spec. change 15 with (Z.ones 4).
  destruct (decide (n < 4)).
  - rewrite (Z.shiftl_spec_low b 8 n) by lia. by rewrite orb_false_r.
  - rewrite Z.ones_spec_high by lia. by rewrite !andb_false_r.
Qed.

(** The low nibble of the payload identity is the motor's. *)
Lemma addressed_nibble m frame :
  addressed_to m frame -> byte_at (cf_data frame) 0 mod 16 = motor_id_ m mod 16.
Proof.
  intros (_ & _ & _ & H). unfold payload_can_id, expected_can_id in H.
  destruct (is_register_message _).
  - rewrite <- H. by rewrite lor_shiftl_8_nibble.
  - by rewrite !land_15 in H.
Qed.

(** Motors on one channel never steal each other's frames: handles whose
    CAN ids differ in the low nibble cannot both accept a frame, so the order
    in which the receive worker offers it is irrelevant. *)
Theorem accepts_frame_exclusive m1 m2 frame :
  motor_id_ m1 mod 16 <> motor_id_ m2 mod 16 ->
  fst (accepts_frame m1 frame) = true -> fst (accepts_frame m2 frame) = false.
Proof.
  intros Hne H1. destruct (fst (accepts_frame m2 frame)) eqn:H2; [|done].
  exfalso. apply Hne.
  rewrite <- (addressed_nibble m1 frame) by (by apply accepted_addressed).
  by rewrite <- (addressed_nibble m2 frame) by (by apply accepted_addressed).
Qed.

(** The invariant of a handle. *)
Record handle_ok (m : MotorHandle) : Prop := {
  ok_limits : model_limits (model_ m) = Returned (limits_ m);
  ok_time : state_ m = None <-> state_time_ m = None;
  ok_rejections :
    let i := integrity_stats_ m in
    rejected_frame_count i =
      u64 (short_frame_count i + identity_mismatch_count i + implausible_position_jump_count i);
  ok_state : forall st, state_ m = Some st ->
    0 <= ms_can_id st < 16 /\ 0 <= ms_status_code st < 16 /\
    f32_isfinite (ms_pos st) = true /\ f32_isfinite (ms_vel st) = true /\
    f32_isfinite (ms_torq st) = true /\
    f32_units (p_min (limits_ m)) <= f32_units (ms_pos st) <= f32_units (p_max (limits_ m));
  ok_replies : forall rid data t, register_replies_ m !! rid = Some (data, t) ->
    is_known_register rid = true /\ bytes_ok 4 data;
  ok_acks : forall rid data t, register_acks_ m !! rid = Some (data, t) ->
    is_known_register rid = true /\ bytes_ok 4 data
}.

Lemma make_MotorHandle_ok motor_id feedback_id model m :
  make_MotorHandle motor_id feedback_id model = Returned m -> handle_ok m.
Proof.
  unfold make_MotorHandle. destruct (model_limits model) as [l|e| |] eqn:E; try done.
  intros [= <-]. split; try done; intros ? ? ?; simpl; by rewrite lookup_empty.
Qed.

Lemma record_rejection_ok m reason frame id p pp d text :
  reason <> RejectNone -> handle_ok m ->
  handle_ok (record_feedback_rejection m reason frame id p pp d text).
Proof.
  intros Hr [Hl Ht Hrej Hst Hrep Hack]. split; try done.
  cbn [record_feedback_rejection set_integrity integrity_stats_ rejected_frame_count
       short_frame_count identity_mismatch_count implausible_position_jump_count].
  destruct reason; try done;
    repeat first [rewrite bool_decide_true by done | rewrite bool_decide_false by done].
  all: rewrite Hrej, u64_add_l; set (i := integrity_stats_ m).
  - rewrite <- (Z.add_assoc (u64 _)), u64_add_l. f_equal. lia.
  - rewrite (Z.add_comm (short_frame_count i) (u64 _)), <- (Z.add_assoc (u64 _)), u64_add_l. f_equal. lia.
  - rewrite (Z.add_comm _ (u64 (implausible_position_jump_count i + 1))), u64_add_l. f_equal. lia.
Qed.

Lemma register_payload_ok data : bytes_ok 8 data -> bytes_ok 4 (register_payload data).
Proof.
  intros H. split; [done|]. unfold register_payload.
  repeat constructor; apply (byte_at_ok 8); done.
Qed.

Lemma set_feedback_ok m frame now :
  handle_ok m -> bytes_ok 8 (cf_data frame) ->
  handle_ok (set_feedback m (decoded_state frame (limits_ m)) now).
Proof.
  intros [Hl Ht Hrej Hst Hrep Hack] Hd. split; try done.
  simpl. intros st [= <-].
  pose proof (model_limits_cases _ _ Hl) as HL.
  pose proof (fun i => byte_at_ok 8 _ i Hd) as Hb. unfold is_byte, in_word in Hb.
  destruct HL as (Hp & Hv & Hto & Zp & Zv & Zt).
  pose proof (Hb 0%nat). pose proof (Hb 1%nat). pose proof (Hb 2%nat). pose proof (Hb 3%nat).
  pose proof (Hb 4%nat). pose proof (Hb 5%nat). change (2 ^ 8) with 256 in *.
  unfold decoded_state, decode_sensor_feedback.
  cbn [ms_can_id ms_status_code ms_pos ms_vel ms_torq
       sf_can_id sf_status_code sf_pos sf_vel sf_torq]. bitfield.
  split_and!; try (Z.to_euclidean_division_equations; lia).
  all: try (apply (uint_to_float_in_range _ _ _ 16); [done|done|]).
  all: try (apply (uint_to_float_in_range _ _ _ 12); [done|done|]).
  all: change (code_max 16) with 65535; change (code_max 12) with 4095;
       Z.to_euclidean_division_equations; lia.
Qed.

Lemma process_feedback_frame_ok now m frame :
  handle_ok m -> bytes_ok 8 (cf_data frame) -> handle_ok (process_feedback_frame now m frame).
Proof.
  intros Hm Hd. unfold process_feedback_frame.
  destruct (is_register_reply (cf_data frame)) eqn:Er.
  { pose proof Hm as [Hl Ht Hrej Hst Hrep Hack]. split; try done. simpl. intros rid data t.
    rewrite lookup_insert. case_decide; [|apply Hrep]. intros [= <- <-]. subst.
    split; [|by apply register_payload_ok].
    unfold is_register_reply, is_register_frame in Er. by apply andb_prop in Er as [_ ?]. }
  destruct (is_register_write_ack (cf_data frame)) eqn:Ea.
  { pose proof Hm as [Hl Ht Hrej Hst Hrep Hack]. split; try done. simpl. intros rid data t.
    rewrite lookup_insert. case_decide; [|apply Hack]. intros [= <- <-]. subst.
    split; [|by apply register_payload_ok].
    unfold is_register_write_ack, is_register_frame in Ea. by apply andb_prop in Ea as [_ ?]. }
  destruct (state_ m); [|by apply set_feedback_ok].
  destruct (state_time_ m); [|by apply set_feedback_ok].
  destruct (f32_gt _ _); [by apply record_rejection_ok|by apply set_feedback_ok].
Qed.

(** The handle invariant (plausible state, consistent timestamps, rejection
    counters that add up, registers holding only known four-byte values)
    survives every frame the bus can deliver. *)
Theorem offer_frame_preserves_ok now m frame :
  handle_ok m -> bytes_ok 8 (cf_data frame) -> handle_ok (snd (offer_frame now m frame)).
Proof.
  intros Hm Hd. unfold offer_frame.
  destruct (accepts_frame_cases m frame) as [[-> _]|(m' & -> & _ & Hm')]; simpl.
  - by apply process_feedback_frame_ok.
  - destruct Hm' as [->|(r & id & t & Hr & ->)]; [done|].
    apply record_rejection_ok; [|done]. by destruct Hr; subst.
Qed.

(** A feedback frame is either taken whole, when its position lies within
    the allowed distance of the previous one, or leaves state, timestamp and
    update count untouched and counts one implausible jump.  Nothing else
    moves. *)
Theorem process_feedback_plausible now m frame previous state_time :
  is_register_message (cf_data frame) = false ->
  state_ m = Some previous -> state_time_ m = Some state_time ->
  let state := decoded_state frame (limits_ m) in
  let elapsed := f32_max f32_zero (float_seconds (now - state_time)) in
  let allowed := allowed_delta (limits_ m) (ms_vel previous) (ms_vel state) elapsed in
  let jump := f32_gt (f32_abs (f32_sub (ms_pos state) (ms_pos previous))) allowed in
  let m' := process_feedback_frame now m frame in
  register_replies_ m' = register_replies_ m /\ register_acks_ m' = register_acks_ m /\
  if jump then
    state_ m' = Some previous /\ state_time_ m' = Some state_time /\
    feedback_update_count_ m' = feedback_update_count_ m /\
    implausible_position_jump_count (integrity_stats_ m') =
      u64 (implausible_position_jump_count (integrity_stats_ m) + 1)
  else
    state_ m' = Some state /\ state_time_ m' = Some now /\
    feedback_update_count_ m' = u64 (feedback_update_count_ m + 1) /\
    integrity_stats_ m' = integrity_stats_ m.
Proof.
  intros Hr Hs Ht. unfold is_register_message in Hr. apply orb_false_elim in Hr as [H1 H2].
  cbv zeta. unfold process_feedback_frame. rewrite H1, H2, Hs, Ht.
  by destruct (f32_gt _ _).
Qed.

(** A 4340P handle that saw position code 0x8000 at time 0. *)
Definition sample_handle : MotorHandle :=
  match make_MotorHandle 3 0x13 "4340P" with
  | Returned m => process_feedback_frame 0 m
      (can_frame 0x13 [0x13; 0x80; 0; 0x7F; 0xF7; 0xFF; 30; 31])
  | _ => {| motor_id_ := 0; feedback_id_ := 0; model_ := ""; state_ := None; state_time_ := None;
            limits_ := {| p_min := f32_zero; p_max := f32_zero; v_min := f32_zero;
                          v_max := f32_zero; t_min := f32_zero; t_max := f32_zero |};
            feedback_update_count_ := 0; integrity_stats_ := no_rejections; disabled_hint_ := true;
            register_replies_ := ∅; register_acks_ := ∅; register_ack_update_counts_ := ∅ |}
  end.

(** Ten milliseconds later a frame three radians away is refused. *)
Definition sample_jump : CanFrame :=
  can_frame 0x203 [0x13; 0x9F; 0; 0x7F; 0xF7; 0xFF; 30; 31].

Lemma accepts_frame_exclusive_witness :
  motor_id_ sample_handle mod 16 <> motor_id_ (set_registers sample_handle ∅ ∅ ∅) mod 16 + 1 /\
  fst (accepts_frame sample_handle sample_jump) = true /\
  forall other, motor_id_ sample_handle mod 16 <> motor_id_ other mod 16 ->
    fst (accepts_frame other sample_jump) = false.
Proof.
  split; [vm_compute; discriminate|]. split; [vm_compute; reflexivity|].
  intros other H. apply (accepts_frame_exclusive sample_handle other sample_jump H).
  vm_compute. reflexivity.
Defined.

Lemma sample_handle_ok : handle_ok sample_handle.
Proof.
  unfold sample_handle.
  destruct (make_MotorHandle 3 0x13 "4340P") as [m|e| |] eqn:E; [|vm_compute in E; discriminate..].
  apply process_feedback_frame_ok; [by apply (make_MotorHandle_ok _ _ _ _ E)|].
  split; [done|]. simpl. repeat constructor; unfold is_byte, in_word; lia.
Qed.

Lemma offer_frame_preserves_ok_witness :
  handle_ok (snd (offer_frame 10000000 sample_handle sample_jump)).
Proof.
  apply offer_frame_preserves_ok; [exact sample_handle_ok|].
  split; [reflexivity|]. simpl. repeat constructor; unfold is_byte, in_word; lia.
Defined.

Lemma process_feedback_plausible_witness :
  exists previous, state_ sample_handle = Some previous /\
  state_ (process_feedback_frame 10000000 sample_handle sample_jump) = Some previous /\
  implausible_position_jump_count
    (integrity_stats_ (process_feedback_frame 10000000 sample_handle sample_jump)) = 1.
Proof.
  destruct (state_ sample_handle) as [previous|] eqn:E; [|vm_compute in E; discriminate].
  exists previous. split; [reflexivity|].
  assert (Ht : state_time_ sample_handle = Some 0) by (vm_compute; reflexivity).
  pose proof (process_feedback_plausible 10000000 sample_handle sample_jump previous 0
    eq_refl E Ht) as H.
  cbv zeta in H.
  assert (Hj : f32_gt (f32_abs (f32_sub (ms_pos (decoded_state sample_jump (limits_ sample_handle)))
      (ms_pos previous)))
    (allowed_delta (limits_ sample_handle) (ms_vel previous)
      (ms_vel (decoded_state sample_jump (limits_ sample_handle)))
      (f32_max f32_zero (float_seconds (10000000 - 0)))) = true).
  { vm_compute in E. injection E as <-. vm_compute. reflexivity. }
  rewrite Hj in H. destruct H as (_ & _ & H1 & _ & _ & H2).
  split; [exact H1|]. rewrite H2. vm_compute. reflexivity.
Defined.

(** ** A motor on a bus of its own

    The class [damiao::Motor] of [damiao/motor.hpp]: the commands of one motor,
    without a controller and without a receive worker, on a [CanBus] given by
    reference. *)

Module BareMotor.
#[local] Open Scope mdl_scope.

Record Motor := {
  mt_motor_id : Z;
  mt_feedback_id : Z;
  mt_limits : Limits;
  mt_disabled_hint : bool
}.

(** The constructor. *)
Definition make_Motor (motor_id feedback_id : Z) (limits : Limits) : Motor :=
  {| mt_motor_id := motor_id; mt_feedback_id := feedback_id; mt_limits := limits;
     mt_disabled_hint := true |}.

(** The bus: what the n-th call of [send] throws, and what the n-th call of
    [receive_for] yields. *)
Class MotorBus := {
  mb_send : nat -> CanFrame -> option exn;
  mb_receive : nat -> Z -> outcome (option CanFrame)
}.

(** The motor, the calls of its bus, the frames written and the time slept. *)
Record MotorRun := {
  mr_motor : Motor;
  mr_calls : nat;
  mr_sent : list CanFrame;
  mr_slept : Z
}.

Section Commands.
Context `{!MotorBus}.

Definition the_motor {A} (f : Motor -> A) : M MotorRun A := gets (fun r => f (mr_motor r)).

Definition motor_send (frame : CanFrame) : M MotorRun unit := fun r =>
  let called sent := {| mr_motor := mr_motor r; mr_calls := S (mr_calls r); mr_sent := sent;
                        mr_slept := mr_slept r |} in
  match mb_send (mr_calls r) frame with
  | None => (Returned tt, called (mr_sent r ++ [frame]))
  | Some e => (Thrown e, called (mr_sent r))
  end.

Definition motor_sleep (ns : Z) : M MotorRun unit :=
  modify (fun r => {| mr_motor := mr_motor r; mr_calls := mr_calls r; mr_sent := mr_sent r;
                      mr_slept := mr_slept r + ns |}).

Definition set_hint (b : bool) : M MotorRun unit :=
  modify (fun r => {| mr_motor := {| mt_motor_id := mt_motor_id (mr_motor r);
                        mt_feedback_id := mt_feedback_id (mr_motor r);
                        mt_limits := mt_limits (mr_motor r); mt_disabled_hint := b |};
                      mr_calls := mr_calls r; mr_sent := mr_sent r; mr_slept := mr_slept r |}).

Definition motor_send_to_motor (data : list Z) : M MotorRun unit :=
  do id <- the_motor mt_motor_id; motor_send (can_frame id data).

Definition motor_send_mode_frame (base_id : Z) (data : list Z) : M MotorRun unit :=
  do id <- the_motor mt_motor_id; motor_send (can_frame (u32 (base_id + id)) data).

Definition Motor_enable : M MotorRun unit :=
  motor_send_to_motor encode_enable_command ;;; set_hint false.

Definition Motor_disable : M MotorRun unit :=
  motor_send_to_motor encode_disable_command ;;; set_hint true.

Definition Motor_set_zero_position : M MotorRun unit :=
  do disabled <- the_motor mt_disabled_hint;
  if negb disabled then
    throw (InvalidArgument "motor is not disabled; call disable() before set_zero_position()")
  else motor_send_to_motor encode_set_zero_command ;;; motor_sleep (ms 20).

Definition Motor_clear_error : M MotorRun unit := motor_send_to_motor encode_clear_error_command.

Definition Motor_request_feedback : M MotorRun unit :=
  do id <- the_motor mt_motor_id;
  motor_send (can_frame 0x7FF (encode_feedback_request_command id)).

Definition Motor_store_parameters : M MotorRun unit :=
  do disabled <- the_motor mt_disabled_hint;
  (if negb disabled then Motor_disable ;;; motor_sleep (ms 20) else ret tt) ;;;
  do id <- the_motor mt_motor_id;
  motor_send (can_frame 0x7FF (encode_store_parameters_command id)) ;;;
  motor_sleep (ms 30).

Definition Motor_send_mit (pos vel kp kd tau : f32) : M MotorRun unit :=
  do limits <- the_motor mt_limits;
  do data <- defined (encode_mit_command pos vel tau kp kd limits);
  motor_send_to_motor data.

Definition Motor_send_position_velocity (pos velocity_limit : f32) : M MotorRun unit :=
  motor_send_mode_frame 0x100 (encode_position_velocity_command pos velocity_limit).

Definition Motor_send_velocity (velocity : f32) : M MotorRun unit :=
  motor_send_mode_frame 0x200 (encode_velocity_command velocity).

Definition Motor_send_force_position (pos velocity_limit torque_limit_ratio : f32) :
    M MotorRun unit :=
  do data <- defined (encode_force_position_command pos velocity_limit torque_limit_ratio);
  motor_send_mode_frame 0x300 data.

(** Only the arbitration id of the frame is compared. *)
Definition Motor_receive_feedback (timeout : Z) : M MotorRun (option SensorFeedback) :=
  do received <- (fun r =>
    (mb_receive (mr_calls r) timeout,
     {| mr_motor := mr_motor r; mr_calls := S (mr_calls r); mr_sent := mr_sent r;
        mr_slept := mr_slept r |}));
  match received with
  | None => ret None
  | Some frame =>
      do m <- the_motor (fun m => m);
      if negb (cf_id frame =? mt_feedback_id m) then ret None
      else ret (Some (decode_sensor_feedback (cf_data frame) (mt_limits m)))
  end.

(** Parameters are stored on a motor that this object takes to be disabled: one
    it has enabled is sent the disable frame first, and nothing between the two
    frames. *)
Theorem Motor_store_guarded r r' :
  Motor_store_parameters r = (Returned tt, r') ->
  let id := mt_motor_id (mr_motor r) in
  mt_disabled_hint (mr_motor r') = true /\
  mr_sent r' = mr_sent r ++
    (if mt_disabled_hint (mr_motor r) then [] else [can_frame id encode_disable_command]) ++
    [can_frame 0x7FF (encode_store_parameters_command id)].
Proof.
  unfold Motor_store_parameters, Motor_disable, motor_send_to_motor, the_motor, gets, bind,
    motor_send, motor_sleep, set_hint, modify, ret.
  intros R. destruct (mt_disabled_hint (mr_motor r)) eqn:Eh; cbn in R.
  - destruct (mb_send _ _); [done|]. injection R as <-. by cbn.
  - destruct (mb_send (mr_calls r) _); [done|]. cbn in R. destruct (mb_send _ _); [done|].
    injection R as <-. cbn. by rewrite <- app_assoc.
Qed.

(** The zero of a motor that this object has enabled is not set. *)
Theorem Motor_set_zero_guarded r :
  mt_disabled_hint (mr_motor r) = false ->
  Motor_set_zero_position r =
    (Thrown (InvalidArgument "motor is not disabled; call disable() before set_zero_position()"), r).
Proof. intros E. unfold Motor_set_zero_position, the_motor, gets, bind. by rewrite E. Qed.

End Commands.

Definition sample_motor : MotorRun :=
  {| mr_motor := {| mt_motor_id := 3; mt_feedback_id := 0x13;
       mt_limits := {| p_min := f32_of_Z (-12); p_max := f32_of_Z 12; v_min := f32_of_Z (-10);
                       v_max := f32_of_Z 10; t_min := f32_of_Z (-28); t_max := f32_of_Z 28 |};
       mt_disabled_hint := false |};
     mr_calls := 0; mr_sent := []; mr_slept := 0 |}.

#[local] Instance working_bus : MotorBus :=
  {| mb_send _ _ := None; mb_receive _ _ := Returned None |}.

Lemma Motor_store_guarded_witness :
  mr_sent (snd (Motor_store_parameters sample_motor)) =
    [can_frame 3 encode_disable_command; can_frame 0x7FF (encode_store_parameters_command 3)].
Proof.
  destruct (Motor_store_parameters sample_motor) as [o r] eqn:E.
  assert (o = Returned tt) as -> by (apply (f_equal fst) in E; vm_compute in E; congruence).
  exact (proj2 (Motor_store_guarded _ _ E)).
Defined.

Lemma Motor_set_zero_guarded_witness :
  Motor_set_zero_position sample_motor =
    (Thrown (InvalidArgument "motor is not disabled; call disable() before set_zero_position()"),
     sample_motor).
Proof. exact (Motor_set_zero_guarded sample_motor eq_refl). Defined.

End BareMotor.
