(* ===== verification/World.v ===== *)
(** * The state the motor layer shares, and its environment

    One [Controller] with its pacing bus, its motor handles and its receive
    worker.  A handle is an object in a store, named by a location: the
    controller's table, a batch and a discovery result may hold the same one.

    Concurrency.  Between any two primitive actions of the calling thread (a
    read of the clock or of a guarded field, a sleep, a send) the environment
    takes a step of its own: time passes and the receive worker, when it runs
    and does not wait for [recv_mutex_], handles any list of receive results.
    Every action of the source happens under one mutex or on one atomic, so a
    theorem that holds for every environment holds for every interleaving. *)

From S2P Require Import Prelude Float32 Protocol CanBus MotorHandle.
#[local] Open Scope mdl_scope.

(** [Controller::PacingBus], less the inner bus. *)
Record PacingBus := {
  tx_gap_ : Z;
  last_send_ : option Z;
  connected_ : bool;
  send_healthy_ : bool;
  receive_healthy_ : bool;
  tx_frames_ : Z;
  rx_frames_ : Z;
  send_errors_ : Z;
  receive_errors_ : Z;
  last_tx_ : option Z;
  last_rx_ : option Z;
  last_error_ : string
}.

Definition new_PacingBus : PacingBus :=
  {| tx_gap_ := 0; last_send_ := None; connected_ := true; send_healthy_ := true;
     receive_healthy_ := true; tx_frames_ := 0; rx_frames_ := 0; send_errors_ := 0;
     receive_errors_ := 0; last_tx_ := None; last_rx_ := None; last_error_ := "" |}.

(** [Controller].  [worker_running_] says that [polling_thread_] has been
    started and not yet joined, [recv_held_] that a synchronous reader holds
    [recv_mutex_]. *)
Record Controller := {
  motors_ : omap nat;
  polling_active_ : bool;
  worker_running_ : bool;
  recv_held_ : bool;
  synchronous_receive_waiters_ : Z;
  bus_closed_ : bool;
  tx_gap_env_override_ : bool;
  discovery_finalized_ : bool;
  bulk_op_gap_ : Z;
  endpoint_label_ : string
}.

Record World := {
  w_clock : Z;
  w_step : nat;
  w_sent : list CanFrame;
  w_bus : PacingBus;
  w_store : gmap nat MotorHandle;
  w_ctl : Controller
}.

(** What one call of the inner bus's [receive_for] yields. *)
Inductive rx_event :=
| RxNone
| RxFrame (frame : CanFrame)
| RxError (e : exn).

(** The inner [CanBus], the scheduler and the wire: how long the step takes,
    what the receive worker gets in it (each after a further delay), and the
    answers of the inner bus to calls made in it.  [env_send] answers
    [None] when the frame was written. *)
Class Environment := {
  env_delay : nat -> N;
  env_rx : nat -> list (N * rx_event);
  env_poll : nat -> rx_event;
  env_send : nat -> CanFrame -> option exn;
  env_shutdown : nat -> option exn
}.

(** Every step takes time. *)
Class Progress `(Environment) : Prop := progress : forall n, (1 <= env_delay n)%N.

Definition set_clock (t : Z) (w : World) : World :=
  {| w_clock := t; w_step := w_step w; w_sent := w_sent w; w_bus := w_bus w;
     w_store := w_store w; w_ctl := w_ctl w |}.
Definition set_bus (b : PacingBus) (w : World) : World :=
  {| w_clock := w_clock w; w_step := w_step w; w_sent := w_sent w; w_bus := b;
     w_store := w_store w; w_ctl := w_ctl w |}.
Definition set_store (st : gmap nat MotorHandle) (w : World) : World :=
  {| w_clock := w_clock w; w_step := w_step w; w_sent := w_sent w; w_bus := w_bus w;
     w_store := st; w_ctl := w_ctl w |}.
Definition set_ctl (c : Controller) (w : World) : World :=
  {| w_clock := w_clock w; w_step := w_step w; w_sent := w_sent w; w_bus := w_bus w;
     w_store := w_store w; w_ctl := c |}.
Definition add_sent (f : CanFrame) (w : World) : World :=
  {| w_clock := w_clock w; w_step := w_step w; w_sent := w_sent w ++ [f]; w_bus := w_bus w;
     w_store := w_store w; w_ctl := w_ctl w |}.

(** ** The pacing bus's records *)

Definition record_error (error : string) (sending : bool) (b : PacingBus) : PacingBus :=
  {| tx_gap_ := tx_gap_ b; last_send_ := last_send_ b; connected_ := connected_ b;
     send_healthy_ := if sending then false else send_healthy_ b;
     receive_healthy_ := if sending then receive_healthy_ b else false;
     tx_frames_ := tx_frames_ b; rx_frames_ := rx_frames_ b;
     send_errors_ := if sending then u64 (send_errors_ b + 1) else send_errors_ b;
     receive_errors_ := if sending then receive_errors_ b else u64 (receive_errors_ b + 1);
     last_tx_ := last_tx_ b; last_rx_ := last_rx_ b; last_error_ := error |}.

Definition record_sent (now : Z) (b : PacingBus) : PacingBus :=
  {| tx_gap_ := tx_gap_ b; last_send_ := last_send_ b; connected_ := connected_ b;
     send_healthy_ := true; receive_healthy_ := receive_healthy_ b;
     tx_frames_ := u64 (tx_frames_ b + 1); rx_frames_ := rx_frames_ b;
     send_errors_ := send_errors_ b; receive_errors_ := receive_errors_ b;
     last_tx_ := Some now; last_rx_ := last_rx_ b; last_error_ := last_error_ b |}.

Definition record_received (now : Z) (b : PacingBus) : PacingBus :=
  {| tx_gap_ := tx_gap_ b; last_send_ := last_send_ b; connected_ := connected_ b;
     send_healthy_ := send_healthy_ b; receive_healthy_ := true;
     tx_frames_ := tx_frames_ b; rx_frames_ := u64 (rx_frames_ b + 1);
     send_errors_ := send_errors_ b; receive_errors_ := receive_errors_ b;
     last_tx_ := last_tx_ b; last_rx_ := Some now; last_error_ := last_error_ b |}.

Definition set_last_send (now : Z) (b : PacingBus) : PacingBus :=
  {| tx_gap_ := tx_gap_ b; last_send_ := Some now; connected_ := connected_ b;
     send_healthy_ := send_healthy_ b; receive_healthy_ := receive_healthy_ b;
     tx_frames_ := tx_frames_ b; rx_frames_ := rx_frames_ b;
     send_errors_ := send_errors_ b; receive_errors_ := receive_errors_ b;
     last_tx_ := last_tx_ b; last_rx_ := last_rx_ b; last_error_ := last_error_ b |}.

Definition set_connected (c : bool) (b : PacingBus) : PacingBus :=
  {| tx_gap_ := tx_gap_ b; last_send_ := last_send_ b; connected_ := c;
     send_healthy_ := send_healthy_ b; receive_healthy_ := receive_healthy_ b;
     tx_frames_ := tx_frames_ b; rx_frames_ := rx_frames_ b;
     send_errors_ := send_errors_ b; receive_errors_ := receive_errors_ b;
     last_tx_ := last_tx_ b; last_rx_ := last_rx_ b; last_error_ := last_error_ b |}.

(** [set_tx_gap]: the count of a microsecond duration, stored unsigned. *)
Definition bus_set_tx_gap (gap_us : Z) (b : PacingBus) : PacingBus :=
  {| tx_gap_ := u64 gap_us; last_send_ := last_send_ b; connected_ := connected_ b;
     send_healthy_ := send_healthy_ b; receive_healthy_ := receive_healthy_ b;
     tx_frames_ := tx_frames_ b; rx_frames_ := rx_frames_ b;
     send_errors_ := send_errors_ b; receive_errors_ := receive_errors_ b;
     last_tx_ := last_tx_ b; last_rx_ := last_rx_ b; last_error_ := last_error_ b |}.

(** [PacingBus::health]. *)
Definition bus_health (now : Z) (b : PacingBus) : TransportHealth :=
  {| th_connected := connected_ b;
     th_healthy := connected_ b && send_healthy_ b && receive_healthy_ b;
     th_tx_frames := tx_frames_ b;
     th_rx_frames := rx_frames_ b;
     th_send_errors := send_errors_ b;
     th_receive_errors := receive_errors_ b;
     th_last_tx_age := match last_tx_ b with Some t => Some (now - t) | None => None end;
     th_last_rx_age := match last_rx_ b with Some t => Some (now - t) | None => None end;
     th_last_error := last_error_ b |}.

(** What [record_error] is told: an exception outside [std::exception] has no
    text. *)
Definition error_text (unknown : string) (e : exn) : string :=
  match e with OtherException _ => unknown | _ => exn_what e end.

(** ** The receive worker *)

(** [sorted_motors]: the table's handles in ascending motor id. *)
Definition sorted_motors (c : Controller) : list nat := map snd (motors_ c).

(** The frame goes to the first handle that accepts it; the handles asked
    before it only count their rejection. *)
Fixpoint dispatch (now : Z) (locs : list nat) (frame : CanFrame)
    (st : gmap nat MotorHandle) : gmap nat MotorHandle :=
  match locs with
  | [] => st
  | l :: rest =>
      match st !! l with
      | None => st
      | Some m =>
          let '(taken, m') := offer_frame now m frame in
          if taken then <[l := m']> st else dispatch now rest frame (<[l := m']> st)
      end
  end.

(** One [receive_for] of the pacing bus and what is done with its result, the
    body of [polling_loop] and of [poll_feedback_once]. *)
Definition receive_step (ev : rx_event) (w : World) : World :=
  match ev with
  | RxNone => w
  | RxFrame frame =>
      let w := set_bus (record_received (w_clock w) (w_bus w)) w in
      set_store (dispatch (w_clock w) (sorted_motors (w_ctl w)) frame (w_store w)) w
  | RxError e =>
      set_bus (record_error (error_text "unknown transport receive error" e) false (w_bus w)) w
  end.

Fixpoint worker_steps (evs : list (N * rx_event)) (w : World) : World :=
  match evs with
  | [] => w
  | (d, ev) :: rest => worker_steps rest (receive_step ev (set_clock (w_clock w + Z.of_N d) w))
  end.

Definition worker_may_run (c : Controller) : bool := worker_running_ c && negb (recv_held_ c).

Section Primitives.
Context {Env : Environment}.

Definition env_step (w : World) : World :=
  let n := w_step w in
  let w := if worker_may_run (w_ctl w) then worker_steps (env_rx n) w else w in
  {| w_clock := w_clock w + Z.of_N (env_delay n); w_step := S n; w_sent := w_sent w;
     w_bus := w_bus w; w_store := w_store w; w_ctl := w_ctl w |}.

(** An atomic action of the calling thread, after a step of the rest. *)
Definition atomic {A} (f : World -> outcome A * World) : M World A := fun w => f (env_step w).

Definition now : M World Z := atomic (fun w => (Returned (w_clock w), w)).

(** [std::this_thread::sleep_for]. *)
Definition sleep_for (ns : Z) : M World unit :=
  atomic (fun w => (Returned tt, set_clock (w_clock w + Z.max 0 ns) w)).

(** A critical section on a handle: a read, an update, or both. *)
Definition with_handle {A} (l : nat) (f : MotorHandle -> A * MotorHandle) : M World A :=
  atomic (fun w => match w_store w !! l with
                   | Some m => let '(a, m') := f m in
                               (Returned a, set_store (<[l := m']> (w_store w)) w)
                   | None => (Undefined, w)
                   end).

Definition read_handle {A} (l : nat) (f : MotorHandle -> A) : M World A :=
  atomic (fun w => match w_store w !! l with
                   | Some m => (Returned (f m), w)
                   | None => (Undefined, w)
                   end).

Definition update_handle (l : nat) (f : MotorHandle -> MotorHandle) : M World unit :=
  with_handle l (fun m => (tt, f m)).

Definition read_bus {A} (f : PacingBus -> A) : M World A :=
  atomic (fun w => (Returned (f (w_bus w)), w)).
Definition update_bus (f : PacingBus -> PacingBus) : M World unit :=
  atomic (fun w => (Returned tt, set_bus (f (w_bus w)) w)).
Definition read_ctl {A} (f : Controller -> A) : M World A :=
  atomic (fun w => (Returned (f (w_ctl w)), w)).
Definition update_ctl (f : Controller -> Controller) : M World unit :=
  atomic (fun w => (Returned tt, set_ctl (f (w_ctl w)) w)).

(** The inner bus's [send]. *)
Definition inner_send (frame : CanFrame) : M World (option exn) :=
  atomic (fun w => match env_send (w_step w) frame with
                   | None => (Returned None, add_sent frame w)
                   | Some e => (Returned (Some e), w)
                   end).

(** The count of [std::chrono::microseconds(gap)] for an unsigned [gap]. *)
Definition s64 (z : Z) : Z := (z + 2 ^ 63) mod 2 ^ 64 - 2 ^ 63.

(** The pause [PacingBus::send] makes before a frame. *)
Definition pace : M World unit :=
  do gap <- read_bus tx_gap_;
  if gap >? 0 then
    let min_gap := s64 gap * 1000 in
    do last <- read_bus last_send_;
    match last with
    | Some last_send =>
        do t <- now;
        let elapsed := t - last_send in
        if elapsed <? min_gap then sleep_for (min_gap - elapsed) else ret tt
    | None => ret tt
    end ;;;
    do t <- now;
    update_bus (set_last_send t)
  else ret tt.

(** [PacingBus::send]. *)
Definition bus_send (frame : CanFrame) : M World unit :=
  pace ;;;
  do failed <- inner_send frame;
  match failed with
  | None =>
      do t <- now;
      update_bus (record_sent t)
  | Some e =>
      update_bus (record_error (error_text "unknown transport send error" e) true) ;;;
      throw e
  end.

(** [PacingBus::shutdown]. *)
Definition bus_shutdown : M World unit :=
  do failed <- atomic (fun w => (Returned (env_shutdown (w_step w)), w));
  match failed with
  | None => update_bus (set_connected false)
  | Some e =>
      update_bus (record_error (error_text "unknown transport shutdown error" e) false) ;;;
      update_bus (set_connected false) ;;;
      throw e
  end.

Definition transport_health : M World TransportHealth :=
  atomic (fun w => (Returned (bus_health (w_clock w) (w_bus w)), w)).

End Primitives.

(** ** What every run of every operation respects *)

(** How a handle may have changed since time [c]: its identity is for life, and
    whatever is new in its state or its acknowledgements is no older than [c]. *)
Record moves_on (c : Z) (m m' : MotorHandle) : Prop := {
  mo_motor_id : motor_id_ m' = motor_id_ m;
  mo_feedback_id : feedback_id_ m' = feedback_id_ m;
  mo_model : model_ m' = model_ m;
  mo_limits : limits_ m' = limits_ m;
  mo_feedback :
    (state_ m' = state_ m /\ state_time_ m' = state_time_ m /\
     feedback_update_count_ m' = feedback_update_count_ m) \/
    (exists st t, state_ m' = Some st /\ state_time_ m' = Some t /\ c <= t);
  mo_acks : forall rid,
    (register_acks_ m' !! rid = register_acks_ m !! rid /\ ack_count m' rid = ack_count m rid) \/
    (exists data t, register_acks_ m' !! rid = Some (data, t) /\ c <= t)
}.

Lemma moves_on_refl c m : moves_on c m m.
Proof. split; auto. Qed.

Lemma moves_on_trans c c' m1 m2 m3 :
  c <= c' -> moves_on c m1 m2 -> moves_on c' m2 m3 -> moves_on c m1 m3.
Proof.
  intros Hc [A1 B1 C1 D1 F1 K1] [A2 B2 C2 D2 F2 K2]. split; try congruence.
  - destruct F2 as [(-> & -> & ->)|(st & t & ? & ? & ?)]; [done|].
    right. exists st, t. split_and!; [done|done|lia].
  - intros rid. destruct (K2 rid) as [[-> ->]|(data & t & ? & ?)]; [done|].
    right. exists data, t. split; [done|lia].
Qed.

(** Time does not run backwards, what was sent stays sent, objects stay alive
    and move on. *)
Record evolves (w w' : World) : Prop := {
  ev_clock : w_clock w <= w_clock w';
  ev_sent : w_sent w `prefix_of` w_sent w';
  ev_store : forall l m, w_store w !! l = Some m ->
    exists m', w_store w' !! l = Some m' /\ moves_on (w_clock w) m m'
}.

(** The store clause, when no handle was touched. *)
Lemma same_store w w' : w_store w' = w_store w ->
  forall l m, w_store w !! l = Some m ->
    exists m', w_store w' !! l = Some m' /\ moves_on (w_clock w) m m'.
Proof. intros -> l m ?. exists m. auto using moves_on_refl. Qed.

#[export] Hint Resolve moves_on_refl same_store : mdl.

#[export] Instance evolves_pre : PreOrder evolves.
Proof.
  split.
  - intros w. split; [lia|done|]. eauto with mdl.
  - intros w1 w2 w3 [C1 S1 H1] [C2 S2 H2]. split; [lia|by etrans|].
    intros l m (m1 & E1 & R1)%H1. apply H2 in E1 as (m2 & E2 & R2). exists m2.
    split; [done|]. by eapply moves_on_trans.
Qed.

Lemma process_feedback_moves_on c t m frame :
  c <= t -> moves_on c m (process_feedback_frame t m frame).
Proof.
  intros Hc. unfold process_feedback_frame.
  destruct (is_register_reply _); [by split; auto|].
  destruct (is_register_write_ack _).
  { split; auto. intros rid. simpl. unfold ack_count. simpl.
    rewrite !lookup_insert. case_decide; [right; eauto|left; auto]. }
  assert (Hset : moves_on c m (set_feedback m (decoded_state frame (limits_ m)) t))
    by (split; simpl; eauto 10).
  destruct (state_ m); [|done]. destruct (state_time_ m); [|done].
  destruct (f32_gt _ _); [|done]. split; auto.
Qed.

Lemma offer_frame_moves_on c t m frame : c <= t -> moves_on c m (snd (offer_frame t m frame)).
Proof.
  intros Hc. unfold offer_frame.
  destruct (accepts_frame_cases m frame) as [[-> _]|(m' & -> & _ & Hm)]; simpl.
  - by apply process_feedback_moves_on.
  - destruct Hm as [->|(r & i & x & _ & ->)]; [apply moves_on_refl|by split; auto].
Qed.

(** A property of handles that survives being offered a frame survives the
    dispatch of one. *)
Lemma dispatch_store (R : MotorHandle -> MotorHandle -> Prop) t locs frame st l m :
  (forall m, R m m) -> (forall m1 m2 m3, R m1 m2 -> R m2 m3 -> R m1 m3) ->
  (forall m, R m (snd (offer_frame t m frame))) ->
  st !! l = Some m -> exists m', dispatch t locs frame st !! l = Some m' /\ R m m'.
Proof.
  intros Hrefl Htrans Hoffer. revert st m. induction locs as [|l1 locs IH]; intros st m H; simpl.
  { by exists m. }
  destruct (st !! l1) as [m1|] eqn:E1; [|by exists m].
  pose proof (Hoffer m1) as Hs. destruct (offer_frame t m1 frame) as [taken m1']. simpl in Hs.
  assert (Hi : exists m', (<[l1 := m1']> st) !! l = Some m' /\ R m m').
  { rewrite lookup_insert. case_decide; [|by exists m]. exists m1'. split; [done|congruence]. }
  destruct Hi as (m' & Hm' & Hs'). destruct taken; [by exists m'|].
  destruct (IH _ _ Hm') as (m2 & ? & ?). exists m2. split; [done|by eapply Htrans].
Qed.

Lemma receive_step_evolves ev w : evolves w (receive_step ev w).
Proof.
  destruct ev as [|frame|e]; [reflexivity| |].
  all: split; [done|done|]; eauto with mdl.
  simpl. intros l m H. apply dispatch_store; auto using moves_on_refl.
  - intros ???. by apply moves_on_trans.
  - intros m1. by apply offer_frame_moves_on.
Qed.

Lemma set_clock_evolves t w : w_clock w <= t -> evolves w (set_clock t w).
Proof. intros. split; [done|done|]. eauto with mdl. Qed.

Lemma worker_steps_evolves evs w : evolves w (worker_steps evs w).
Proof.
  revert w. induction evs as [|[d ev] evs IH]; intros w; simpl; [reflexivity|].
  etrans; [|apply IH]. etrans; [|apply receive_step_evolves]. apply set_clock_evolves. lia.
Qed.

Lemma receive_step_ctl ev w : w_ctl (receive_step ev w) = w_ctl w.
Proof. by destruct ev. Qed.

Lemma worker_steps_ctl evs w : w_ctl (worker_steps evs w) = w_ctl w.
Proof.
  revert w. induction evs as [|[d ev] evs IH]; intros w; simpl; [done|].
  by rewrite IH, receive_step_ctl.
Qed.

Lemma receive_step_sent ev w : w_sent (receive_step ev w) = w_sent w.
Proof. by destruct ev. Qed.

Lemma worker_steps_sent evs w : w_sent (worker_steps evs w) = w_sent w.
Proof.
  revert w. induction evs as [|[d ev] evs IH]; intros w; simpl; [done|].
  by rewrite IH, receive_step_sent.
Qed.

Lemma offer_frame_disabled_hint t m frame :
  disabled_hint_ (snd (offer_frame t m frame)) = disabled_hint_ m.
Proof.
  unfold offer_frame. destruct (accepts_frame_cases m frame) as [[-> _]|(m' & -> & _ & Hm)]; simpl.
  - unfold process_feedback_frame. by repeat case_match.
  - by destruct Hm as [->|(r & i & x & _ & ->)].
Qed.

Lemma receive_step_disabled_hint ev w l m : w_store w !! l = Some m ->
  exists m', w_store (receive_step ev w) !! l = Some m' /\ disabled_hint_ m' = disabled_hint_ m.
Proof.
  intros H. destruct ev as [|frame|e]; [by exists m| |by exists m]. simpl.
  apply (dispatch_store (fun m m' => disabled_hint_ m' = disabled_hint_ m)); try done.
  - intros ??? -> ->. done.
  - intros m1. apply offer_frame_disabled_hint.
Qed.

Section PrimitiveLemmas.
Context {Env : Environment}.

Lemma env_step_evolves w :
  evolves w (env_step w) /\ w_clock w + Z.of_N (env_delay (w_step w)) <= w_clock (env_step w).
Proof.
  set (w1 := if worker_may_run (w_ctl w) then worker_steps (env_rx (w_step w)) w else w).
  assert (H1 : evolves w w1) by (subst w1; destruct (worker_may_run _);
    [apply worker_steps_evolves|reflexivity]).
  assert (Hc := ev_clock _ _ H1). split; [|unfold env_step; simpl; fold w1; lia].
  etrans; [exact H1|]. unfold env_step. fold w1. split; simpl; [lia|done|]. eauto with mdl.
Qed.

Lemma env_step_ctl w : w_ctl (env_step w) = w_ctl w.
Proof.
  unfold env_step. simpl. destruct (worker_may_run _); [apply worker_steps_ctl|done].
Qed.

Lemma env_step_sent w : w_sent (env_step w) = w_sent w.
Proof.
  unfold env_step. simpl. destruct (worker_may_run _); [apply worker_steps_sent|done].
Qed.

Lemma env_step_disabled_hint w l m : w_store w !! l = Some m ->
  exists m', w_store (env_step w) !! l = Some m' /\ disabled_hint_ m' = disabled_hint_ m.
Proof.
  unfold env_step. simpl. destruct (worker_may_run _); [|eauto].
  generalize (env_rx (w_step w)). intros evs. revert w m.
  induction evs as [|[d ev] evs IH]; intros w m H; simpl; [eauto|].
  destruct (receive_step_disabled_hint ev (set_clock (w_clock w + Z.of_N d) w) l m H)
    as (m1 & H1 & <-). by apply IH.
Qed.

Lemma keeps_atomic {A} (f : World -> outcome A * World) :
  (forall w, evolves w (snd (f w))) -> keeps evolves (atomic f).
Proof. intros H w. unfold atomic. etrans; [apply env_step_evolves|apply H]. Qed.

Lemma with_handle_evolves {A} l (f : MotorHandle -> A * MotorHandle) :
  (forall c m, moves_on c m (snd (f m))) -> keeps evolves (with_handle l f).
Proof.
  intros Hf. apply keeps_atomic. intros w. destruct (w_store w !! l) as [m|] eqn:E; [|reflexivity].
  specialize (Hf (w_clock w) m). destruct (f m) as [a m']. simpl in *.
  split; [done|done|]. simpl. intros l' m1 H1. rewrite lookup_insert. case_decide.
  - subst. exists m'. split; [done|congruence].
  - exists m1. auto using moves_on_refl.
Qed.

Lemma read_handle_evolves {A} l (f : MotorHandle -> A) : keeps evolves (read_handle l f).
Proof. apply keeps_atomic. intros w. destruct (w_store w !! l); reflexivity. Qed.

Lemma now_evolves : keeps evolves now.
Proof. apply keeps_atomic. reflexivity. Qed.

Lemma sleep_for_evolves ns : keeps evolves (sleep_for ns).
Proof. apply keeps_atomic. intros w. apply set_clock_evolves. lia. Qed.

Lemma read_bus_evolves {A} (f : PacingBus -> A) : keeps evolves (read_bus f).
Proof. apply keeps_atomic. reflexivity. Qed.

Lemma update_bus_evolves f : keeps evolves (update_bus f).
Proof.
  apply keeps_atomic. intros w. split; [done|done|]. eauto with mdl.
Qed.

Lemma read_ctl_evolves {A} (f : Controller -> A) : keeps evolves (read_ctl f).
Proof. apply keeps_atomic. reflexivity. Qed.

Lemma update_ctl_evolves f : keeps evolves (update_ctl f).
Proof.
  apply keeps_atomic. intros w. split; [done|done|]. eauto with mdl.
Qed.

Lemma inner_send_evolves frame : keeps evolves (inner_send frame).
Proof.
  apply keeps_atomic. intros w. destruct (env_send _ _); [reflexivity|].
  split; simpl; [done|by apply prefix_app_r|]. eauto with mdl.
Qed.

Lemma transport_health_evolves : keeps evolves transport_health.
Proof. apply keeps_atomic. reflexivity. Qed.

End PrimitiveLemmas.

#[export] Hint Resolve read_handle_evolves now_evolves sleep_for_evolves read_bus_evolves
  update_bus_evolves read_ctl_evolves update_ctl_evolves inner_send_evolves
  transport_health_evolves : keeps.

Lemma bus_send_evolves `{Env : Environment} frame : keeps evolves (bus_send frame).
Proof. unfold bus_send, pace. keeps_tac. Qed.

Lemma bus_shutdown_evolves `{Env : Environment} : keeps evolves bus_shutdown.
Proof. unfold bus_shutdown. keeps_tac. apply keeps_atomic. reflexivity. Qed.

#[export] Hint Resolve bus_send_evolves bus_shutdown_evolves : keeps.

(** ** What the calling thread sends

    The receive worker never transmits, so the log of sent frames is changed by
    the calling thread alone. *)

Definition quiet (w w' : World) : Prop := w_sent w' = w_sent w.

#[export] Instance quiet_pre : PreOrder quiet.
Proof. split; [done|]. intros w1 w2 w3 H1 H2. unfold quiet in *. congruence. Qed.

(** The controller's own fields are changed by the calling thread alone. *)
Definition same_table (w w' : World) : Prop := w_ctl w' = w_ctl w.

#[export] Instance same_table_pre : PreOrder same_table.
Proof. split; [done|]. intros w1 w2 w3 H1 H2. unfold same_table in *. congruence. Qed.

Section LogLemmas.
Context {Env : Environment}.

Lemma keeps_atomic_quiet {A} (f : World -> outcome A * World) :
  (forall w, quiet w (snd (f w))) -> keeps quiet (atomic f).
Proof. intros H w. unfold atomic. etrans; [apply env_step_sent|apply H]. Qed.

Lemma keeps_atomic_table {A} (f : World -> outcome A * World) :
  (forall w, same_table w (snd (f w))) -> keeps same_table (atomic f).
Proof. intros H w. unfold atomic. etrans; [apply env_step_ctl|apply H]. Qed.

Lemma with_handle_quiet {A} l (f : MotorHandle -> A * MotorHandle) :
  keeps quiet (with_handle l f).
Proof.
  apply keeps_atomic_quiet. intros w. destruct (w_store w !! l) as [m|]; [|done].
  by destruct (f m).
Qed.
Lemma update_handle_quiet l f : keeps quiet (update_handle l f).
Proof. apply with_handle_quiet. Qed.
Lemma read_handle_quiet {A} l (f : MotorHandle -> A) : keeps quiet (read_handle l f).
Proof. apply keeps_atomic_quiet. intros w. by destruct (w_store w !! l). Qed.
Lemma now_quiet : keeps quiet now.
Proof. by apply keeps_atomic_quiet. Qed.
Lemma sleep_for_quiet ns : keeps quiet (sleep_for ns).
Proof. by apply keeps_atomic_quiet. Qed.
Lemma read_bus_quiet {A} (f : PacingBus -> A) : keeps quiet (read_bus f).
Proof. by apply keeps_atomic_quiet. Qed.
Lemma update_bus_quiet f : keeps quiet (update_bus f).
Proof. by apply keeps_atomic_quiet. Qed.
Lemma read_ctl_quiet {A} (f : Controller -> A) : keeps quiet (read_ctl f).
Proof. by apply keeps_atomic_quiet. Qed.
Lemma update_ctl_quiet f : keeps quiet (update_ctl f).
Proof. by apply keeps_atomic_quiet. Qed.
Lemma transport_health_quiet : keeps quiet transport_health.
Proof. by apply keeps_atomic_quiet. Qed.

Lemma with_handle_table {A} l (f : MotorHandle -> A * MotorHandle) :
  keeps same_table (with_handle l f).
Proof.
  apply keeps_atomic_table. intros w. destruct (w_store w !! l) as [m|]; [|done].
  by destruct (f m).
Qed.
Lemma update_handle_table l f : keeps same_table (update_handle l f).
Proof. apply with_handle_table. Qed.
Lemma read_handle_table {A} l (f : MotorHandle -> A) : keeps same_table (read_handle l f).
Proof. apply keeps_atomic_table. intros w. by destruct (w_store w !! l). Qed.
Lemma now_table : keeps same_table now.
Proof. by apply keeps_atomic_table. Qed.
Lemma sleep_for_table ns : keeps same_table (sleep_for ns).
Proof. by apply keeps_atomic_table. Qed.
Lemma read_bus_table {A} (f : PacingBus -> A) : keeps same_table (read_bus f).
Proof. by apply keeps_atomic_table. Qed.
Lemma update_bus_table f : keeps same_table (update_bus f).
Proof. by apply keeps_atomic_table. Qed.
Lemma read_ctl_table {A} (f : Controller -> A) : keeps same_table (read_ctl f).
Proof. by apply keeps_atomic_table. Qed.
Lemma inner_send_table frame : keeps same_table (inner_send frame).
Proof. apply keeps_atomic_table. intros w. by destruct (env_send _ _). Qed.
Lemma transport_health_table : keeps same_table transport_health.
Proof. by apply keeps_atomic_table. Qed.

End LogLemmas.

#[export] Hint Resolve with_handle_quiet update_handle_quiet read_handle_quiet now_quiet
  sleep_for_quiet read_bus_quiet update_bus_quiet read_ctl_quiet update_ctl_quiet
  transport_health_quiet with_handle_table update_handle_table read_handle_table now_table
  sleep_for_table read_bus_table update_bus_table read_ctl_table inner_send_table
  transport_health_table : keeps.

Section Sending.
Context {Env : Environment}.

Lemma pace_quiet : keeps quiet pace.
Proof. unfold pace. keeps_tac. Qed.

Lemma pace_returns w : exists w', pace w = (Returned tt, w').
Proof.
  unfold pace, bind, read_bus, now, sleep_for, update_bus, atomic, ret.
  repeat (case_match; simplify_eq); eauto.
Qed.

(** A send that returns wrote exactly its frame; one that throws wrote
    nothing. *)
Lemma bus_send_cases frame w :
  (exists w', bus_send frame w = (Returned tt, w') /\ w_sent w' = w_sent w ++ [frame]) \/
  (exists e w', bus_send frame w = (Thrown e, w') /\ w_sent w' = w_sent w).
Proof.
  unfold bus_send. destruct (pace_returns w) as [w1 E1].
  pose proof (keeps_returned quiet pace _ _ _ pace_quiet E1) as Q1.
  rewrite (bind_run _ _ _ _ _ E1).
  pose proof (env_step_sent w1) as Q2. unfold quiet in Q1.
  unfold inner_send, atomic, bind, now, update_bus, throw, atomic.
  destruct (env_send _ frame) as [e|].
  - right. eexists _, _. split; [reflexivity|]. cbn [w_sent set_bus]. rewrite env_step_sent. congruence.
  - left. eexists. split; [reflexivity|]. cbn [w_sent set_bus].
    rewrite !env_step_sent. cbn [w_sent add_sent]. congruence.
Qed.

Lemma bus_send_table frame : keeps same_table (bus_send frame).
Proof. unfold bus_send, pace. keeps_tac. Qed.

Lemma read_ctl_run {A} (f : Controller -> A) w o w' :
  read_ctl f w = (o, w') -> o = Returned (f (w_ctl w)) /\ w_ctl w' = w_ctl w.
Proof.
  unfold read_ctl, atomic. intros H.
  assert (o = Returned (f (w_ctl (env_step w))) /\ w' = env_step w) as [-> ->]
    by (split; congruence).
  by rewrite env_step_ctl.
Qed.

Lemma update_ctl_run (f : Controller -> Controller) w o w' :
  update_ctl f w = (o, w') -> o = Returned tt /\ w_ctl w' = f (w_ctl w).
Proof.
  unfold update_ctl, atomic. intros H.
  assert (o = Returned tt /\ w' = set_ctl (f (w_ctl (env_step w))) (env_step w)) as [-> ->]
    by (split; congruence).
  cbn [w_ctl set_ctl]. by rewrite env_step_ctl.
Qed.

Lemma now_returned w t w' : now w = (Returned t, w') ->
  w_clock w + Z.of_N (env_delay (w_step w)) <= t /\ w_clock w' = t.
Proof. intros H. injection H as <- <-. split; [apply env_step_evolves|done]. Qed.

Lemma read_handle_returned {A} l (f : MotorHandle -> A) w a w' :
  read_handle l f w = (Returned a, w') ->
  exists m, w_store w' !! l = Some m /\ a = f m.
Proof.
  unfold read_handle, atomic. destruct (w_store (env_step w) !! l) as [m|] eqn:E; [|done].
  intros [= <- <-]. eauto.
Qed.

Lemma with_handle_returned {A} l (f : MotorHandle -> A * MotorHandle) w a w' :
  with_handle l f w = (Returned a, w') ->
  exists m m', w_store (env_step w) !! l = Some m /\ f m = (a, m') /\
    w_store w' !! l = Some m' /\ w_clock w' = w_clock (env_step w).
Proof.
  unfold with_handle, atomic. destruct (w_store (env_step w) !! l) as [m|] eqn:E; [|done].
  destruct (f m) as [a1 m1] eqn:Ef. intros [= <- <-]. exists m, m1.
  split_and!; try done. simpl. by rewrite lookup_insert_eq.
Qed.

End Sending.

#[export] Hint Resolve bus_send_table : keeps.

(** Inverts the [bind]s of a run that returned, naming what each step left
    behind and relating the worlds. *)
Ltac step_run H :=
  let a := fresh "a" in let w := fresh "w" in let E := fresh "E" in
  apply bind_returned in H as (a & w & E & H).

(** ** Termination

    [ends_after D m]: started at time [D] or later, [m] comes to an end.  The
    deadline loops of the source end because every round they start begins
    before the deadline and takes time. *)
Definition ends_after (D : Z) {A} (m : M World A) : Prop :=
  forall w, D <= w_clock w -> finished (m w).

Section Termination.
Context {Env : Environment} (D : Z).

Lemma ends_ret {A} (a : A) : ends_after D (ret a).
Proof. done. Qed.
Lemma ends_throw {A} e : ends_after D (throw (A := A) e).
Proof. done. Qed.
Lemma ends_defined {A} (o : option A) : ends_after D (defined o).
Proof. by destruct o. Qed.

Lemma ends_bind {A B} (m : M World A) (k : A -> M World B) :
  keeps evolves m -> ends_after D m -> (forall a, ends_after D (k a)) ->
  ends_after D (bind m k).
Proof.
  intros Hv Hm Hk w Hw. apply bind_finished; [by apply Hm|]. intros a w1 E.
  apply Hk. pose proof (ev_clock _ _ (keeps_returned _ _ _ _ _ Hv E)). lia.
Qed.

Lemma ends_try_catch {A} (m : M World A) h :
  keeps evolves m -> ends_after D m -> (forall e, ends_after D (h e)) ->
  ends_after D (try_catch m h).
Proof.
  intros Hv Hm Hk w Hw. apply try_catch_finished; [by apply Hm|]. intros a w1 E.
  apply Hk. pose proof (ev_clock _ _ (keeps_returned _ _ _ _ _ Hv E)). lia.
Qed.

Lemma ends_catch_runtime {A} (m : M World A) h :
  keeps evolves m -> ends_after D m -> (forall e, ends_after D (h e)) ->
  ends_after D (catch_runtime m h).
Proof. intros Hv Hm Hk. apply ends_try_catch; [done|done|]. by intros []. Qed.

Lemma ends_for_each {X} (l : list X) (body : X -> M World unit) :
  (forall x, keeps evolves (body x)) -> (forall x, ends_after D (body x)) ->
  ends_after D (for_each l body).
Proof.
  intros Hv Hb. induction l as [|x l IH]; [done|]. simpl. by apply ends_bind.
Qed.

Lemma ends_atomic {A} (f : World -> outcome A * World) :
  (forall w, finished (f w)) -> ends_after D (atomic f).
Proof. intros H w _. apply H. Qed.

Lemma ends_with_handle {A} l (f : MotorHandle -> A * MotorHandle) :
  ends_after D (with_handle l f).
Proof. apply ends_atomic. intros w. destruct (_ !! l) as [m|]; [|done]. by destruct (f m). Qed.
Lemma ends_read_handle {A} l (f : MotorHandle -> A) : ends_after D (read_handle l f).
Proof. apply ends_atomic. intros w. by destruct (_ !! l). Qed.
Lemma ends_update_handle l f : ends_after D (update_handle l f).
Proof. apply ends_with_handle. Qed.
Lemma ends_now : ends_after D now.
Proof. by apply ends_atomic. Qed.
Lemma ends_sleep_for ns : ends_after D (sleep_for ns).
Proof. by apply ends_atomic. Qed.
Lemma ends_read_bus {A} (f : PacingBus -> A) : ends_after D (read_bus f).
Proof. by apply ends_atomic. Qed.
Lemma ends_update_bus f : ends_after D (update_bus f).
Proof. by apply ends_atomic. Qed.
Lemma ends_read_ctl {A} (f : Controller -> A) : ends_after D (read_ctl f).
Proof. by apply ends_atomic. Qed.
Lemma ends_update_ctl f : ends_after D (update_ctl f).
Proof. by apply ends_atomic. Qed.
Lemma ends_transport_health : ends_after D transport_health.
Proof. by apply ends_atomic. Qed.

Lemma ends_bus_send frame : ends_after D (bus_send frame).
Proof.
  intros w _. unfold finished.
  destruct (bus_send_cases frame w) as [(w' & -> & _)|(e & w' & -> & _)]; done.
Qed.

(** A loop whose every further round starts before [deadline] and takes
    time, given as much fuel as there is time. *)
Lemma ends_loop {X A} fuel deadline (body : X -> M World (X + A)) x :
  (forall x, keeps evolves (body x)) ->
  (forall x, ends_after D (body x)) ->
  (forall x w x' w', body x w = (Returned (inl x'), w') ->
     w_clock w < deadline /\ w_clock w < w_clock w') ->
  Z.max 0 (deadline - D) < Z.of_nat fuel ->
  ends_after D (loop fuel body x).
Proof.
  intros Hv He Hb Hf w Hw.
  apply (loop_total body (fun _ w => D <= w_clock w)
    (fun _ w => Z.to_nat (deadline - w_clock w)) (fun _ _ => True)); [|done|lia].
  clear - Hv He Hb. intros x w Hw. specialize (He x w Hw). specialize (Hv x w).
  pose proof (fun x' w' => Hb x w x' w') as Hb'. unfold finished in He.
  destruct (body x w) as [[[x'|a]|e| |] w'] eqn:E; try done.
  destruct (Hb' _ _ eq_refl). simpl in Hv. apply ev_clock in Hv. split; lia.
Qed.

Lemma sleep_for_returned ns w a w' :
  sleep_for ns w = (Returned a, w') -> w_clock w + Z.max 0 ns <= w_clock w'.
Proof.
  intros H. destruct (env_step_evolves w) as [V _]. apply ev_clock in V.
  assert (w' = set_clock (w_clock (env_step w) + Z.max 0 ns) (env_step w)) as ->
    by (unfold sleep_for, atomic in H; congruence).
  cbn [w_clock set_clock]. lia.
Qed.

End Termination.

Create HintDb ends discriminated.
#[export] Hint Resolve ends_ret ends_throw ends_defined ends_with_handle ends_read_handle
  ends_update_handle ends_now ends_sleep_for ends_read_bus ends_update_bus ends_read_ctl
  ends_update_ctl ends_transport_health ends_bus_send : ends.

Ltac ends_step :=
  match goal with
  | |- keeps _ _ => solve [keeps_tac]
  | |- ends_after _ (match ?x with _ => _ end) => destruct x
  | |- forall _, _ => intro
  | |- ends_after _ _ => first [solve [eauto 2 with ends] | apply ends_bind |
      apply ends_catch_runtime | apply ends_try_catch | apply ends_for_each ]
  end.
Ltac ends_tac := repeat ends_step.
