(* ===== verification/MotorOps.v ===== *)
(** * The operations of a motor handle

    Every method of [damiao::MotorHandle] that talks to the motor, from
    [motor/src/runtime.cpp], on the shared state of [World].  A handle is named
    by its location [l]; [fuel] bounds each retry or wait loop. *)

From S2P Require Import Prelude Float32 Protocol CanBus SocketCan MotorHandle World.
#[local] Open Scope mdl_scope.

Definition kRegisterReadRetryInterval : Z := ms 2.
Definition kRegisterWriteRetryInterval : Z := ms 10.
Definition kRegisterWriteTransactionTimeout : Z := ms 200.

(** [duration_cast<milliseconds>] of nanoseconds: truncation, as a duration. *)
Definition trunc_ms (ns : Z) : Z := ms (Z.quot ns 1000000).

Definition of_outcome {S A} (o : outcome A) : M S A :=
  match o with
  | Returned a => ret a
  | Thrown e => throw e
  | Undefined => undefined
  | Unfinished => unfinished
  end.

(** [std::string(error.what()).find("timed out") != npos]. *)
Definition is_timeout (what : string) : bool := str_contains "timed out" what.

Section Operations.
Context {Env : Environment} (fuel : nat).

Definition send_raw (arbitration_id : Z) (data : list Z) : M World unit :=
  bus_send (can_frame arbitration_id data).

Definition send_to_motor (l : nat) (data : list Z) : M World unit :=
  do id <- read_handle l motor_id_;
  send_raw id data.

Definition send_mode_frame (l : nat) (base_id : Z) (data : list Z) : M World unit :=
  do id <- read_handle l motor_id_;
  send_raw (u32 (base_id + id)) data.

Definition enable (l : nat) : M World unit :=
  send_to_motor l encode_enable_command ;;;
  update_handle l (fun m => set_disabled_hint m false).

Definition disable (l : nat) : M World unit :=
  send_to_motor l encode_disable_command ;;;
  update_handle l (fun m => set_disabled_hint m true).

Definition clear_error (l : nat) : M World unit :=
  send_to_motor l encode_clear_error_command.

Definition set_zero_position (l : nat) : M World unit :=
  do disabled <- read_handle l disabled_hint_;
  if negb disabled then
    throw (InvalidArgument "motor is not disabled; call disable() before set_zero_position()")
  else
    send_to_motor l encode_set_zero_command ;;;
    sleep_for (ms 20).

Definition send_mit (l : nat) (pos vel kp kd tau : f32) : M World unit :=
  do limits <- read_handle l limits_;
  do data <- defined (encode_mit_command pos vel tau kp kd limits);
  send_to_motor l data.

Definition send_pos_vel (l : nat) (pos velocity_limit : f32) : M World unit :=
  send_mode_frame l 0x100 (encode_position_velocity_command pos velocity_limit).

Definition send_vel (l : nat) (velocity : f32) : M World unit :=
  send_mode_frame l 0x200 (encode_velocity_command velocity).

Definition send_force_pos (l : nat) (pos velocity_limit torque_limit_ratio : f32)
    : M World unit :=
  do data <- defined (encode_force_position_command pos velocity_limit torque_limit_ratio);
  send_mode_frame l 0x300 data.

Definition request_feedback (l : nat) : M World unit :=
  do id <- read_handle l motor_id_;
  send_raw 0x7FF (encode_feedback_request_command id).

(** [state_cv_.wait_until(lock, deadline, predicate)]: the predicate is
    tested on entry, after every wake-up (a notification, a spurious one, or
    the deadline), and decides the result at the deadline. *)
Definition wait_for_feedback_after (l : nat) (previous_count deadline : Z) : M World bool :=
  let arrived := read_handle l (fun m => feedback_update_count_ m >? previous_count) in
  loop fuel (fun _ =>
    do yes <- arrived;
    if yes then ret (inr true)
    else
      do t <- now;
      if t >=? deadline then do late <- arrived; ret (inr late) else ret (inl tt)) tt.

Definition request_fresh_state (l : nat) (timeout : Z) : M World (option MotorState) :=
  do start <- now;
  let deadline := start + timeout in
  do previous_count <- read_handle l feedback_update_count_;
  request_feedback l ;;;
  do fresh <- wait_for_feedback_after l previous_count deadline;
  if negb fresh then ret None else read_handle l latest_state.

Definition store_parameters (l : nat) : M World unit :=
  do state <- request_fresh_state l (ms 50);
  (if match state with Some st => negb (ms_status_code st =? 0) | None => true end then
     disable l ;;; sleep_for (ms 20)
   else ret tt) ;;;
  do id <- read_handle l motor_id_;
  send_raw 0x7FF (encode_store_parameters_command id) ;;;
  sleep_for (ms 30).

(** ** Register writes *)

(** The two lookups [wait_for_write_ack] makes under [register_mutex_]. *)
Definition new_ack (rid previous_update_count : Z) (m : MotorHandle) : option (list Z) :=
  match register_ack_update_counts_ m !! rid, register_acks_ m !! rid with
  | Some count, Some (data, _) => if count >? previous_update_count then Some data else None
  | _, _ => None
  end.

Definition wait_for_write_ack (l : nat) (rid : Z) (expected : list Z)
    (previous_update_count timeout : Z) : M World unit :=
  do start <- now;
  let deadline := start + timeout in
  loop fuel (fun _ =>
    do ack <- read_handle l (new_ack rid previous_update_count);
    match ack with
    | Some data =>
        if bool_decide (data = expected) then ret (inr tt)
        else throw (RuntimeError "register write ack mismatched expected value")
    | None =>
        do t <- now;
        if t >=? deadline then throw (RuntimeError "register write ack timed out")
        else sleep_for (ms 1) ;;; ret (inl tt)
    end) tt.

(** [register_ack_update_counts_[rid]] creates the entry it reads. *)
Definition touch_ack_count (rid : Z) (m : MotorHandle) : MotorHandle :=
  set_registers m (register_replies_ m) (register_acks_ m)
    (<[rid := ack_count m rid]> (register_ack_update_counts_ m)).

(** One transmission of the write and the wait for its acknowledgement. *)
Definition write_attempt (l : nat) (rid : Z) (data : list Z)
    (previous_update_count deadline : Z) : M World (unit + unit) :=
  do t <- now;
  if t >=? deadline then throw (RuntimeError "register write ack timed out") else
  do id <- read_handle l motor_id_;
  send_raw 0x7FF (encode_register_write_command id rid data) ;;;
  do t <- now;
  if t >=? deadline then throw (RuntimeError "register write ack timed out") else
  let wait := Z.min kRegisterWriteRetryInterval (trunc_ms (deadline - t)) in
  catch_runtime
    (wait_for_write_ack l rid data previous_update_count wait ;;; ret (inr tt))
    (fun what =>
      if str_contains "mismatched" what then throw (RuntimeError what)
      else
        do t <- now;
        if t >=? deadline then throw (RuntimeError "register write ack timed out")
        else ret (inl tt)).

Definition write_register_until (l : nat) (rid : Z) (data : list Z) (deadline : Z)
    : M World unit :=
  do previous_update_count <-
    with_handle l (fun m => (ack_count m rid, touch_ack_count rid m));
  loop fuel (fun _ => write_attempt l rid data previous_update_count deadline) tt.

Definition write_register_with_retry (l : nat) (rid : Z) (data : list Z) : M World unit :=
  do t <- now;
  write_register_until l rid data (t + kRegisterWriteTransactionTimeout).

Definition write_register_f32 (l : nat) (rid : Z) (value : f32) : M World unit :=
  of_outcome (validate_register rid Float true) ;;;
  write_register_with_retry l rid (f32_raw value).

Definition write_register_u32 (l : nat) (rid value : Z) : M World unit :=
  of_outcome (validate_register rid UInt32 true) ;;;
  write_register_with_retry l rid (le_bytes 4 value).

Definition set_can_timeout_ms (l : nat) (timeout_ms : Z) : M World unit :=
  let ticks := Z.min (u64 (timeout_ms * 20)) (2 ^ 32 - 1) in
  write_register_u32 l 9 (u32 ticks).

(** ** Register reads *)

Definition fresh_reply (rid request_at : Z) (m : MotorHandle) : option (list Z) :=
  match register_replies_ m !! rid with
  | Some (data, at_) => if at_ >=? request_at then Some data else None
  | None => None
  end.

Definition wait_for_register (l : nat) (rid timeout : Z) : M World (list Z) :=
  do request_at <- now;
  let deadline := request_at + timeout in
  loop fuel (fun next_request_at =>
    do reply <- read_handle l (fresh_reply rid request_at);
    match reply with
    | Some data => ret (inr data)
    | None =>
        do t <- now;
        if t >=? deadline then throw (RuntimeError "register read timed out") else
        do next <-
          (if t >=? next_request_at then
             do id <- read_handle l motor_id_;
             send_raw 0x7FF (encode_register_read_command id rid) ;;;
             ret (t + kRegisterReadRetryInterval)
           else ret next_request_at);
        sleep_for (ms 1) ;;;
        ret (inl next)
    end) request_at.

Definition get_register_f32 (l : nat) (rid timeout : Z) : M World f32 :=
  of_outcome (validate_register rid Float false) ;;;
  do raw <- wait_for_register l rid timeout;
  ret (f32_of_raw raw).

Definition get_register_u32 (l : nat) (rid timeout : Z) : M World Z :=
  of_outcome (validate_register rid UInt32 false) ;;;
  do raw <- wait_for_register l rid timeout;
  ret (le_value raw).

(** ** Control mode *)

(** What is left until the deadline: at least a millisecond, or nothing. *)
Definition remaining (deadline : Z) : M World (option Z) :=
  do t <- now;
  ret (if t >=? deadline then None else Some (Z.max (trunc_ms (deadline - t)) (ms 1))).

Definition capped_remaining (deadline cap : Z) : M World (option Z) :=
  do value <- remaining deadline;
  ret (match value with Some v => Some (Z.min v cap) | None => None end).

Definition sleep_reserving (deadline duration reserve : Z) : M World unit :=
  do value <- remaining deadline;
  match value with
  | Some v => if v >? reserve then sleep_for (Z.min duration (v - reserve)) else ret tt
  | None => ret tt
  end.

(** [try { m } catch (...) {}]. *)
Definition attempt (m : M World unit) : M World unit := try_catch m (fun _ => ret tt).

(** Reads register 10; [inr tt] when it holds the mode, otherwise the text of
    the failed verification.  Only a timeout is swallowed. *)
Definition verify_mode (l : nat) (mode read_timeout : Z) : M World (string + unit) :=
  catch_runtime
    (do current <- get_register_u32 l 10 read_timeout;
     if current =? mode then ret (inr tt)
     else ret (inl ("control mode verify failed: expected " ++ to_string mode ++
                    ", got " ++ to_string current)%string))
    (fun what => if is_timeout what then ret (inl what) else throw (RuntimeError what)).

Definition finish_switch (l : nat) (mode : Z) (hold_position : option f32) : M World unit :=
  let hold := default f32_zero hold_position in
  if mode =? 1 then send_mit l hold f32_zero f32_zero f32_zero f32_zero
  else if mode =? 2 then
    match hold_position with Some p => send_pos_vel l p f32_zero | None => ret tt end
  else if mode =? 3 then send_vel l f32_zero
  else if mode =? 4 then
    match hold_position with Some p => send_force_pos l p f32_zero f32_zero | None => ret tt end
  else ret tt.

(** One round of the switch loop: [inl] carries [last_error]; [inr None] is
    the normal return, [inr (Some e)] leaves the loop with [last_error = e]. *)
Definition switch_round (l : nat) (mode deadline mode_read_cap : Z)
    (hold_position : option f32) (last_error : string)
    : M World (string + option string) :=
  do left <- remaining deadline;
  match left with
  | None => ret (inr (Some last_error))
  | Some _ =>
      write_register_until l 10 (le_bytes 4 mode) deadline ;;;
      sleep_reserving deadline (ms 20) mode_read_cap ;;;
      finish_switch l mode hold_position ;;;
      do read_timeout <- capped_remaining deadline mode_read_cap;
      match read_timeout with
      | None => ret (inr (Some last_error))
      | Some t =>
          do verified <- verify_mode l mode t;
          ret (match verified with inr _ => inr None | inl e => inl e end)
      end
  end.

(** The position every mode command holds while the mode is unknown. *)
Definition read_hold_position (l : nat) (mode deadline hold_read_cap : Z)
    : M World (option f32) :=
  if mode =? 3 then ret None else
  do read_timeout <- capped_remaining deadline hold_read_cap;
  match read_timeout with
  | Some t => catch_runtime (do p <- get_register_f32 l 80 t; ret (Some p)) (fun _ => ret None)
  | None => ret None
  end.

(** One harmless command of every mode, whichever the motor is in. *)
Definition send_holds (l : nat) (hold : f32) : M World unit :=
  attempt (send_vel l f32_zero) ;;;
  attempt (send_pos_vel l hold f32_zero) ;;;
  attempt (send_force_pos l hold f32_zero f32_zero) ;;;
  attempt (send_mit l hold f32_zero f32_zero f32_zero f32_zero).

Definition switch_mode (l : nat) (mode deadline mode_read_cap hold_read_cap : Z)
    (last_error : string) : M World unit :=
  do hold_position <- read_hold_position l mode deadline hold_read_cap;
  send_holds l (default f32_zero hold_position) ;;;
  do left_with <- loop fuel (switch_round l mode deadline mode_read_cap hold_position) last_error;
  match left_with with
  | None => ret tt
  | Some e => throw (RuntimeError e)
  end.

(** [timeout / n] on a millisecond count. *)
Definition ms_div (timeout n : Z) : Z := ms (Z.quot (timeout / 1000000) n).

Definition ensure_mode (l : nat) (mode timeout : Z) : M World unit :=
  if (mode <? 1) || (mode >? 4) then
    throw (InvalidArgument
      "Damiao mode must be 1(MIT) / 2(POS_VEL) / 3(VEL) / 4(FORCE_POS)")
  else if timeout <=? 0 then throw (RuntimeError "control mode switch timed out")
  else
    do start <- now;
    let deadline := start + timeout in
    let mode_read_cap := Z.min (Z.max (ms_div timeout 4) (ms 2)) (ms 100) in
    let hold_read_cap := Z.min (Z.max (ms_div timeout 6) (ms 2)) (ms 30) in
    do read_timeout <- capped_remaining deadline mode_read_cap;
    match read_timeout with
    | None => throw (RuntimeError
        "control mode switch timed out before register 10 could be read")
    | Some t =>
        do verified <- verify_mode l mode t;
        match verified with
        | inr _ => ret tt
        | inl e => switch_mode l mode deadline mode_read_cap hold_read_cap e
        end
    end.

End Operations.

(** ** Every operation moves the world on *)

Section Evolution.
Context {Env : Environment} (fuel : nat).

Lemma set_disabled_hint_evolves l b :
  keeps evolves (update_handle l (fun m => set_disabled_hint m b)).
Proof. apply with_handle_evolves. intros c m. split; auto. Qed.

Lemma touch_ack_count_evolves l rid :
  keeps evolves (with_handle l (fun m => (ack_count m rid, touch_ack_count rid m))).
Proof.
  apply with_handle_evolves. intros c m. split; auto. intros rid'. left. split; [done|].
  unfold ack_count. simpl. rewrite lookup_insert. by case_decide; subst.
Qed.

Lemma of_outcome_evolves {A} (o : outcome A) : keeps evolves (of_outcome o).
Proof. destruct o; simpl; keeps_tac. Qed.

#[local] Hint Resolve set_disabled_hint_evolves touch_ack_count_evolves
  of_outcome_evolves : keeps.

Lemma send_raw_evolves id data : keeps evolves (send_raw id data).
Proof. apply bus_send_evolves. Qed.
#[local] Hint Resolve send_raw_evolves : keeps.

Lemma send_to_motor_evolves l data : keeps evolves (send_to_motor l data).
Proof. unfold send_to_motor. keeps_tac. Qed.
Lemma send_mode_frame_evolves l base data : keeps evolves (send_mode_frame l base data).
Proof. unfold send_mode_frame. keeps_tac. Qed.
#[local] Hint Resolve send_to_motor_evolves send_mode_frame_evolves : keeps.

Lemma enable_evolves l : keeps evolves (enable l).
Proof. unfold enable. keeps_tac. Qed.
Lemma disable_evolves l : keeps evolves (disable l).
Proof. unfold disable. keeps_tac. Qed.
Lemma send_mit_evolves l p v kp kd tau : keeps evolves (send_mit l p v kp kd tau).
Proof. unfold send_mit. keeps_tac. Qed.
Lemma send_pos_vel_evolves l p v : keeps evolves (send_pos_vel l p v).
Proof. unfold send_pos_vel. keeps_tac. Qed.
Lemma send_vel_evolves l v : keeps evolves (send_vel l v).
Proof. unfold send_vel. keeps_tac. Qed.
Lemma send_force_pos_evolves l p v r : keeps evolves (send_force_pos l p v r).
Proof. unfold send_force_pos. keeps_tac. Qed.
Lemma request_feedback_evolves l : keeps evolves (request_feedback l).
Proof. unfold request_feedback. keeps_tac. Qed.
Lemma wait_for_feedback_after_evolves l n d : keeps evolves (wait_for_feedback_after fuel l n d).
Proof. unfold wait_for_feedback_after. keeps_tac. Qed.
#[local] Hint Resolve enable_evolves disable_evolves send_mit_evolves send_pos_vel_evolves
  send_vel_evolves send_force_pos_evolves request_feedback_evolves
  wait_for_feedback_after_evolves : keeps.

Lemma request_fresh_state_evolves l t : keeps evolves (request_fresh_state fuel l t).
Proof. unfold request_fresh_state. keeps_tac. Qed.
Lemma wait_for_write_ack_evolves l rid e n t : keeps evolves (wait_for_write_ack fuel l rid e n t).
Proof. unfold wait_for_write_ack. keeps_tac. Qed.
#[local] Hint Resolve request_fresh_state_evolves wait_for_write_ack_evolves : keeps.
Lemma write_attempt_evolves l rid d n t : keeps evolves (write_attempt fuel l rid d n t).
Proof. unfold write_attempt. keeps_tac. Qed.
#[local] Hint Resolve write_attempt_evolves : keeps.
Lemma write_register_until_evolves l rid d t : keeps evolves (write_register_until fuel l rid d t).
Proof. unfold write_register_until. keeps_tac. Qed.
#[local] Hint Resolve write_register_until_evolves : keeps.
Lemma write_register_with_retry_evolves l rid d :
  keeps evolves (write_register_with_retry fuel l rid d).
Proof. unfold write_register_with_retry. keeps_tac. Qed.
Lemma wait_for_register_evolves l rid t : keeps evolves (wait_for_register fuel l rid t).
Proof. unfold wait_for_register. keeps_tac. Qed.
#[local] Hint Resolve write_register_with_retry_evolves wait_for_register_evolves : keeps.
Lemma get_register_u32_evolves l rid t : keeps evolves (get_register_u32 fuel l rid t).
Proof. unfold get_register_u32. keeps_tac. Qed.
Lemma get_register_f32_evolves l rid t : keeps evolves (get_register_f32 fuel l rid t).
Proof. unfold get_register_f32. keeps_tac. Qed.
#[local] Hint Resolve get_register_u32_evolves get_register_f32_evolves : keeps.

Lemma remaining_evolves d : keeps evolves (remaining d).
Proof. unfold remaining. keeps_tac. Qed.
#[local] Hint Resolve remaining_evolves : keeps.
Lemma capped_remaining_evolves d c : keeps evolves (capped_remaining d c).
Proof. unfold capped_remaining. keeps_tac. Qed.
Lemma sleep_reserving_evolves d t r : keeps evolves (sleep_reserving d t r).
Proof. unfold sleep_reserving. keeps_tac. Qed.
Lemma attempt_evolves m : keeps evolves m -> keeps evolves (attempt m).
Proof. intros. unfold attempt. keeps_tac. Qed.
Lemma verify_mode_evolves l mode t : keeps evolves (verify_mode fuel l mode t).
Proof. unfold verify_mode. keeps_tac. Qed.
#[local] Hint Resolve capped_remaining_evolves sleep_reserving_evolves attempt_evolves
  verify_mode_evolves : keeps.
Lemma finish_switch_evolves l mode h : keeps evolves (finish_switch l mode h).
Proof. unfold finish_switch. keeps_tac. Qed.
Lemma send_holds_evolves l h : keeps evolves (send_holds l h).
Proof. unfold send_holds. keeps_tac. Qed.
#[local] Hint Resolve finish_switch_evolves send_holds_evolves : keeps.
Lemma switch_round_evolves l mode d c h e : keeps evolves (switch_round fuel l mode d c h e).
Proof. unfold switch_round. keeps_tac. Qed.
Lemma read_hold_position_evolves l mode d c : keeps evolves (read_hold_position fuel l mode d c).
Proof. unfold read_hold_position. keeps_tac. Qed.
#[local] Hint Resolve switch_round_evolves read_hold_position_evolves : keeps.
Lemma switch_mode_evolves l mode d c h e : keeps evolves (switch_mode fuel l mode d c h e).
Proof. unfold switch_mode. keeps_tac. Qed.
#[local] Hint Resolve switch_mode_evolves : keeps.
Lemma ensure_mode_evolves l mode t : keeps evolves (ensure_mode fuel l mode t).
Proof. unfold ensure_mode. keeps_tac. Qed.

End Evolution.

#[export] Hint Resolve set_disabled_hint_evolves touch_ack_count_evolves of_outcome_evolves
  send_raw_evolves send_to_motor_evolves send_mode_frame_evolves enable_evolves disable_evolves
  send_mit_evolves send_pos_vel_evolves send_vel_evolves send_force_pos_evolves
  request_feedback_evolves wait_for_feedback_after_evolves request_fresh_state_evolves
  wait_for_write_ack_evolves write_attempt_evolves write_register_until_evolves
  write_register_with_retry_evolves wait_for_register_evolves get_register_u32_evolves
  get_register_f32_evolves remaining_evolves capped_remaining_evolves sleep_reserving_evolves
  attempt_evolves verify_mode_evolves finish_switch_evolves send_holds_evolves
  switch_round_evolves read_hold_position_evolves switch_mode_evolves ensure_mode_evolves : keeps.

(** ** What a result says *)

Section Results.
Context {Env : Environment} (fuel : nat).

(** The motor's reply in the store when the read returned it. *)
Definition replied_since (w w' : World) (l : nat) (rid : Z) (data : list Z) : Prop :=
  exists m t, w_store w' !! l = Some m /\ register_replies_ m !! rid = Some (data, t) /\
    w_clock w <= t.

Lemma wait_for_register_returned l rid timeout w data w' :
  wait_for_register fuel l rid timeout w = (Returned data, w') ->
  replied_since w w' l rid data.
Proof.
  unfold wait_for_register. intros H. step_run H.
  apply now_returned in E as [Hlo _].
  apply (loop_returned (fun _ _ => True)) in H as (next & s & _ & H); [|done|done].
  step_run H. apply read_handle_returned in E as (m & Hm & ->).
  destruct (fresh_reply rid a m) as [d|] eqn:Ef.
  - injection H as <- <-. unfold fresh_reply in Ef.
    destruct (register_replies_ m !! rid) as [[d1 t1]|] eqn:El; [|done].
    destruct (Z.geb_spec t1 a); [|done]. injection Ef as ->.
    exists m, t1. split_and!; [done|done|lia].
  - step_run H. destruct (_ >=? _); [done|]. by repeat step_run H.
Qed.

Lemma of_outcome_returned {A} (o : outcome A) (w : World) a w' :
  of_outcome o w = (Returned a, w') -> o = Returned a /\ w' = w.
Proof. destruct o; simpl; [by intros [= -> ->]|done..]. Qed.

Lemma validate_register_returned rid ty writing :
  validate_register rid ty writing = Returned tt ->
  exists info, register_info rid = Some info /\ ri_data_type info = ty /\
    (writing = true -> ri_access info = ReadWrite).
Proof.
  unfold validate_register. destruct (register_info rid) as [info|]; [|done].
  intros H. exists info. split; [done|]. revert H.
  destruct writing, (decide (ri_access info = ReadWrite)), (decide (ri_data_type info = ty));
    rewrite ?bool_decide_true, ?bool_decide_false by done; simpl; try done.
Qed.

(** The acknowledgement in the store when the write returned. *)
Definition acked_since (w w' : World) (l : nat) (rid : Z) (data : list Z) : Prop :=
  exists m t, w_store w' !! l = Some m /\ register_acks_ m !! rid = Some (data, t) /\
    w_clock w <= t.

(** The last frame the log of [w'] shows, sent since [w]. *)
Definition last_sent (w w' : World) (frame : CanFrame) : Prop :=
  exists before, w_sent w' = w_sent w ++ before ++ [frame].

Lemma wait_for_write_ack_quiet l rid e n t : keeps quiet (wait_for_write_ack fuel l rid e n t).
Proof. unfold wait_for_write_ack. keeps_tac. Qed.

Lemma wait_for_write_ack_returned l rid expected n timeout w w' :
  wait_for_write_ack fuel l rid expected n timeout w = (Returned tt, w') ->
  exists m, w_store w' !! l = Some m /\ new_ack rid n m = Some expected.
Proof.
  unfold wait_for_write_ack. intros H. step_run H. clear E.
  apply (loop_returned (fun _ _ => True)) in H as (next & s & _ & H); [|done|done].
  step_run H. apply read_handle_returned in E as (m & Hm & ->).
  destruct (new_ack rid n m) as [d|] eqn:Ef.
  - destruct (bool_decide (d = expected)) eqn:Ed; [|done]. injection H as <-.
    apply bool_decide_eq_true in Ed as ->. by exists m.
  - step_run H. destruct (_ >=? _); [done|]. by repeat step_run H.
Qed.

Lemma bus_send_returned frame w a w' :
  bus_send frame w = (Returned a, w') -> w_sent w' = w_sent w ++ [frame].
Proof.
  intros H. destruct (bus_send_cases frame w) as [(w1 & E & Hs)|(e & w1 & E & _)]; congruence.
Qed.

(** A write attempt that succeeds ends with the write as the last frame sent
    and the acknowledgement in place. *)
Lemma write_attempt_returned l rid data n deadline w w' :
  write_attempt fuel l rid data n deadline w = (Returned (inr tt), w') ->
  exists m, w_store w' !! l = Some m /\ new_ack rid n m = Some data /\
    last_sent w w' (can_frame 0x7FF (encode_register_write_command (motor_id_ m) rid data)).
Proof.
  intros H. pose proof (write_attempt_evolves fuel l rid data n deadline) as _.
  unfold write_attempt in H. step_run H. destruct (_ >=? _); [done|].
  step_run H. step_run H. step_run H. destruct (_ >=? _); [done|].
  pose proof (keeps_returned _ _ _ _ _ now_quiet E) as Q0.
  pose proof (keeps_returned _ _ _ _ _ (read_handle_quiet _ _) E0) as Q1.
  pose proof (keeps_returned _ _ _ _ _ now_quiet E2) as Q2.
  pose proof (keeps_returned _ _ _ _ _ now_evolves E2) as V2.
  apply read_handle_returned in E0 as (m0 & Hm0 & ->).
  pose proof (keeps_returned _ _ _ _ _ (send_raw_evolves _ _) E1) as V1.
  apply bus_send_returned in E1. unfold quiet in *.
  unfold catch_runtime, try_catch in H.
  destruct (bind _ _ w3) as [[r|e| |] s1] eqn:Eb; [|destruct e as [what| | | |]|..]; try done.
  - injection H as -> ->. step_run Eb. injection Eb as <-.
    match type of E0 with _ = (Returned ?x, _) => destruct x end.
    pose proof (keeps_returned _ _ _ _ _ (wait_for_write_ack_evolves _ _ _ _ _ _) E0) as V3.
    pose proof (keeps_returned _ _ _ _ _ (wait_for_write_ack_quiet _ _ _ _ _) E0) as Q3.
    apply wait_for_write_ack_returned in E0 as (m & Hm & Hn).
    exists m. split_and!; [done|done|]. exists []. unfold quiet in *.
    destruct (ev_store _ _ V1 _ _ Hm0) as (m1 & Hm1 & M1).
    destruct (ev_store _ _ V2 _ _ Hm1) as (m2 & Hm2 & M2).
    destruct (ev_store _ _ V3 _ _ Hm2) as (m3 & Hm3 & M3).
    assert (m3 = m) as -> by congruence.
    rewrite (mo_motor_id _ _ _ M3), (mo_motor_id _ _ _ M2), (mo_motor_id _ _ _ M1).
    simpl. congruence.
  - destruct (str_contains _ _); [done|]. step_run H. by destruct (_ >=? _).
Qed.

Lemma evolves_new_ack w w' l rid n m m' data :
  evolves w w' -> w_store w !! l = Some m -> w_store w' !! l = Some m' ->
  ack_count m rid = n -> new_ack rid n m' = Some data ->
  exists t, register_acks_ m' !! rid = Some (data, t) /\ w_clock w <= t.
Proof.
  intros V Hm Hm' Hn Ha. destruct (ev_store _ _ V _ _ Hm) as (m1 & Hm1 & M).
  assert (m1 = m') as -> by congruence. unfold new_ack in Ha.
  destruct (register_ack_update_counts_ m' !! rid) as [c|] eqn:Ec; [|done].
  destruct (register_acks_ m' !! rid) as [[d t]|] eqn:Ed; [|done].
  destruct (Z.gtb_spec c n); [|done]. injection Ha as ->. exists t. split; [done|].
  destruct (mo_acks _ _ _ M rid) as [[_ He]|(d' & t' & Hd & ?)].
  - unfold ack_count at 1 in He. rewrite Ec in He. simpl in He. lia.
  - congruence.
Qed.

Lemma write_register_until_returned l rid data deadline w w' :
  write_register_until fuel l rid data deadline w = (Returned tt, w') ->
  acked_since w w' l rid data /\
  exists m, w_store w' !! l = Some m /\
    last_sent w w' (can_frame 0x7FF (encode_register_write_command (motor_id_ m) rid data)).
Proof.
  unfold write_register_until. intros H. step_run H.
  pose proof (keeps_returned _ _ _ _ _ (touch_ack_count_evolves _ _) E) as V0.
  apply with_handle_returned in E as (m0 & m1 & _ & [= <- <-] & Hm1 & _).
  assert (V1 : evolves w0 w') by (eapply keeps_returned; [|exact H]; keeps_tac).
  apply (loop_returned (fun _ s => evolves w0 s)) in H as (x & s & Hs & H); [|clear|reflexivity].
  2:{ intros x s x' s' V E. etrans; [done|].
      by apply (keeps_returned _ _ _ _ _ (write_attempt_evolves _ _ _ _ _ _) E). }
  apply write_attempt_returned in H as (m & Hm & Ha & before & Hl).
  split.
  - assert (Hn : ack_count (touch_ack_count rid m0) rid = ack_count m0 rid)
      by (unfold ack_count; simpl; by rewrite lookup_insert_eq).
    destruct (evolves_new_ack _ _ _ _ _ _ _ _ V1 Hm1 Hm Hn Ha) as (t & Ht & Hc).
    exists m, t. split_and!; [done|done|]. pose proof (ev_clock _ _ V0). lia.
  - exists m. split; [done|]. destruct (ev_sent _ _ V0) as [l0 H0].
    destruct (ev_sent _ _ Hs) as [l1 H1]. exists (l0 ++ l1 ++ before).
    rewrite Hl, H1, H0. by rewrite <- !app_assoc.
Qed.

End Results.

(** ** Properties *)

(** A relation between the ends of a returned run, from the hints. *)
Ltac run_keeps R H :=
  let K := fresh "K" in
  match type of H with
  | ?m ?w = (_, ?w') => assert (K : R w w') by (eapply keeps_returned; [|exact H]; keeps_tac)
  end.

Section Properties.
Context {Env : Environment} (fuel : nat).

(** A register read never returns a stale value: the register is a known
    integer register, and the value is the payload of a reply the motor sent
    after the call started. *)
Theorem get_register_u32_fresh l rid timeout w v w' :
  get_register_u32 fuel l rid timeout w = (Returned v, w') ->
  (exists info, register_info rid = Some info /\ ri_data_type info = UInt32) /\
  exists data, replied_since w w' l rid data /\ v = le_value data.
Proof.
  unfold get_register_u32. intros H. step_run H.
  apply of_outcome_returned in E as [E ->]. destruct a.
  apply validate_register_returned in E as (info & Hi & Ht & _).
  step_run H. injection H as <- <-. apply wait_for_register_returned in E.
  split; [by exists info|]. by exists a.
Qed.

(** C32. A register write returns only when the motor has confirmed it: the
    register is writable, an acknowledgement carrying exactly the written
    bytes arrived after the call started, and the last frame sent is the
    write itself. *)
Theorem write_register_u32_acknowledged l rid value w w' :
  write_register_u32 fuel l rid value w = (Returned tt, w') ->
  (exists info, register_info rid = Some info /\ ri_data_type info = UInt32 /\
     ri_access info = ReadWrite) /\
  acked_since w w' l rid (le_bytes 4 value) /\
  exists m, w_store w' !! l = Some m /\
    last_sent w w'
      (can_frame 0x7FF (encode_register_write_command (motor_id_ m) rid (le_bytes 4 value))).
Proof.
  unfold write_register_u32. intros H. step_run H.
  apply of_outcome_returned in E as [E ->]. destruct a.
  apply validate_register_returned in E as (info & Hi & Ht & Ha).
  split; [exists info; auto|]. unfold write_register_with_retry in H. step_run H.
  run_keeps quiet E. run_keeps evolves E. unfold quiet in *.
  apply write_register_until_returned in H as [(m & t & Hm & Hk & Hc) (m' & Hm' & b & Hb)].
  pose proof (ev_clock _ _ K0). split; [exists m, t; split_and!; [done|done|lia]|].
  exists m'. split; [done|]. exists b. congruence.
Qed.

Lemma wait_for_feedback_after_true l n deadline w w' :
  wait_for_feedback_after fuel l n deadline w = (Returned true, w') ->
  exists m, w_store w' !! l = Some m /\ n < feedback_update_count_ m.
Proof.
  unfold wait_for_feedback_after. intros H.
  apply (loop_returned (fun _ _ => True)) in H as (next & s & _ & H); [|done|done].
  step_run H. destruct a.
  - injection H as <-. apply read_handle_returned in E as (m & Hm & Hn).
    exists m. split; [done|]. destruct (Z.gtb_spec (feedback_update_count_ m) n); [lia|done].
  - step_run H. destruct (_ >=? _); [|done]. step_run H. injection H as -> ->.
    apply read_handle_returned in E1 as (m & Hm & Hn).
    exists m. split; [done|]. destruct (Z.gtb_spec (feedback_update_count_ m) n); [lia|done].
Qed.

(** A state the handle took over since [w]. *)
Definition felt_since (w : World) (m : MotorHandle) : Prop :=
  exists st t, state_ m = Some st /\ state_time_ m = Some t /\ w_clock w <= t.

Lemma felt_since_count w w1 m m1 l :
  evolves w w1 -> w_store w !! l = Some m -> w_store w1 !! l = Some m1 ->
  feedback_update_count_ m < feedback_update_count_ m1 -> felt_since w m1.
Proof.
  intros V Hm Hm1 Hc. destruct (ev_store _ _ V _ _ Hm) as (m2 & Hm2 & M).
  assert (m2 = m1) as -> by congruence.
  destruct (mo_feedback _ _ _ M) as [(_ & _ & He)|(st & t & ? & ? & ?)]; [lia|].
  by exists st, t.
Qed.

Lemma felt_since_later w w1 w2 m1 m2 l :
  evolves w w1 -> evolves w1 w2 -> w_store w1 !! l = Some m1 -> w_store w2 !! l = Some m2 ->
  felt_since w m1 -> felt_since w m2.
Proof.
  intros V1 V2 H1 H2 (st & t & Hs & Ht & Hc). destruct (ev_store _ _ V2 _ _ H1) as (m & Hm & M).
  assert (m = m2) as -> by congruence. pose proof (ev_clock _ _ V1). unfold felt_since.
  destruct (mo_feedback _ _ _ M) as [(-> & -> & _)|(st' & t' & ? & ? & ?)].
  - by exists st, t.
  - exists st', t'. split_and!; [done|done|lia].
Qed.

Lemma request_fresh_state_returned l timeout w st w' :
  request_fresh_state fuel l timeout w = (Returned (Some st), w') ->
  exists m, w_store w' !! l = Some m /\ state_ m = Some st /\ felt_since w m.
Proof.
  unfold request_fresh_state. intros H. step_run H. step_run H. step_run H. step_run H.
  destruct a2; [|done]. run_keeps evolves E. run_keeps evolves E0. run_keeps evolves E1.
  run_keeps evolves E2. run_keeps evolves H.
  apply read_handle_returned in E0 as (m1 & Hm1 & ->).
  apply wait_for_feedback_after_true in E2 as (m2 & Hm2 & Hn).
  apply read_handle_returned in H as (m3 & Hm3 & Hst).
  assert (V12 : evolves w1 w3) by (by etrans).
  pose proof (felt_since_count _ _ _ _ _ V12 Hm1 Hm2 Hn) as F2.
  pose proof (felt_since_later _ _ _ _ _ _ V12 K3 Hm2 Hm3 F2) as (st' & t & Hs & Ht & Hc).
  exists m3. split_and!; [done|by symmetry|]. exists st', t.
  pose proof (ev_clock _ _ K). pose proof (ev_clock _ _ K0). split_and!; [done|done|lia].
Qed.

(** [request_fresh_state] returns only a state received after it was
    asked for: a cached state is never passed off as fresh. *)
Theorem request_fresh_state_fresh l timeout w st w' :
  request_fresh_state fuel l timeout w = (Returned (Some st), w') ->
  exists m t, w_store w' !! l = Some m /\ state_ m = Some st /\ state_time_ m = Some t /\
    w_clock w <= t.
Proof.
  intros (m & Hm & Hst & st' & t & Hs & Ht & Hc)%request_fresh_state_returned.
  exists m, t. by split_and!.
Qed.

(** [set_zero_position] refuses a motor that was enabled and not disabled
    since: it throws, and no frame leaves the controller. *)
Theorem set_zero_position_guarded l m w :
  w_store w !! l = Some m -> disabled_hint_ m = false ->
  exists w', set_zero_position l w =
    (Thrown (InvalidArgument
       "motor is not disabled; call disable() before set_zero_position()"), w') /\
    w_sent w' = w_sent w.
Proof.
  intros Hm Hd. unfold set_zero_position, bind, read_handle, atomic.
  destruct (env_step_disabled_hint w l m Hm) as (m' & -> & ->). rewrite Hd. simpl.
  eexists. split; [done|]. apply env_step_sent.
Qed.

Lemma evolves_motor_id w w' l m :
  evolves w w' -> w_store w !! l = Some m ->
  exists m', w_store w' !! l = Some m' /\ motor_id_ m' = motor_id_ m.
Proof. intros V H. destruct (ev_store _ _ V _ _ H) as (m' & ? & M). exists m'. by destruct M. Qed.

Lemma send_to_motor_returned l data w a w' :
  send_to_motor l data w = (Returned a, w') ->
  exists m, w_store w' !! l = Some m /\
    w_sent w' = w_sent w ++ [can_frame (motor_id_ m) data].
Proof.
  unfold send_to_motor, send_raw. intros H. step_run H. run_keeps evolves H.
  run_keeps quiet E. apply read_handle_returned in E as (m & Hm & ->).
  destruct (evolves_motor_id _ _ _ _ K Hm) as (m' & Hm' & Hid).
  apply bus_send_returned in H. exists m'. split; [done|]. unfold quiet in *. congruence.
Qed.

Lemma disable_returned l w a w' :
  disable l w = (Returned a, w') ->
  exists m, w_store w' !! l = Some m /\
    w_sent w' = w_sent w ++ [can_frame (motor_id_ m) encode_disable_command].
Proof.
  unfold disable. intros H. step_run H. run_keeps evolves H. run_keeps quiet H.
  apply send_to_motor_returned in E as (m & Hm & Hs).
  destruct (evolves_motor_id _ _ _ _ K Hm) as (m' & Hm' & Hid).
  exists m'. split; [done|]. unfold quiet in *. congruence.
Qed.

Lemma prefix_tail (w w' : World) : evolves w w' -> exists k, w_sent w' = w_sent w ++ k.
Proof. intros V. destruct (ev_sent _ _ V) as [k ?]. by exists k. Qed.

(** Parameters are stored only into a disabled motor: before the store
    frame, either the motor reported status DISABLED after the call began, or
    the controller sent it a disable command. *)
Theorem store_parameters_guarded l w w' :
  store_parameters fuel l w = (Returned tt, w') ->
  exists m before, w_store w' !! l = Some m /\
    w_sent w' = w_sent w ++ before ++
      [can_frame 0x7FF (encode_store_parameters_command (motor_id_ m))] /\
    (can_frame (motor_id_ m) encode_disable_command ∈ before \/
     exists w1 m1 st t, evolves w w1 /\ evolves w1 w' /\ w_store w1 !! l = Some m1 /\
       state_ m1 = Some st /\ ms_status_code st = 0 /\
       state_time_ m1 = Some t /\ w_clock w <= t).
Proof.
  unfold store_parameters, send_raw. intros H. step_run H.
  apply bind_returned in H as (a0 & w1 & E0 & H). step_run H. step_run H.
  run_keeps evolves E. run_keeps evolves E0. run_keeps evolves E1. run_keeps quiet E1.
  run_keeps evolves E2. run_keeps evolves H. run_keeps quiet H. unfold quiet in *.
  apply read_handle_returned in E1 as (m & Hm & ->). apply bus_send_returned in E2.
  destruct (evolves_motor_id w2 w' l m) as (m' & Hm' & Hid); [by etrans|done|].
  destruct (prefix_tail _ _ K) as [k0 P0]. destruct (prefix_tail _ _ K0) as [k1 P1].
  exists m', (k0 ++ k1). split; [done|]. split.
  { rewrite K5, E2, K2, P1, P0, Hid. by rewrite <- !app_assoc. }
  destruct (match a with Some st => negb (ms_status_code st =? 0) | None => true end) eqn:Eg.
  - left. apply elem_of_app. right. step_run E0. run_keeps evolves E1.
    apply disable_returned in E1 as (m1 & Hm1 & Hs1).
    run_keeps quiet E0. run_keeps evolves E0. unfold quiet in *.
    destruct (evolves_motor_id w4 w2 l m1) as (m2 & Hm2 & Hid2); [etrans; eassumption|done|].
    assert (m2 = m) as -> by congruence.
    assert (k1 = [can_frame (motor_id_ m1) encode_disable_command]) as ->.
    { apply (app_inv_head (w_sent w0)). congruence. }
    apply list_elem_of_singleton. congruence.
  - right. destruct a as [st|]; [|done].
    apply request_fresh_state_returned in E as (m1 & Hm1 & Hst & st' & t & Hs & Ht & Hc).
    exists w0, m1, st, t. split_and!; try done; [|lia].
    etrans; [exact K0|]. etrans; [exact K1|]. by etrans.
Qed.

(** [set_can_timeout_ms] saturates instead of wrapping: register 9 holds
    twenty ticks per millisecond, or the largest 32-bit value. *)
Theorem set_can_timeout_ms_saturates l timeout_ms w w' :
  in_word 32 timeout_ms ->
  set_can_timeout_ms fuel l timeout_ms w = (Returned tt, w') ->
  exists data, acked_since w w' l 9 data /\
    le_value data = Z.min (timeout_ms * 20) (2 ^ 32 - 1).
Proof.
  unfold in_word, set_can_timeout_ms, write_register_u32, write_register_with_retry.
  intros Ht H. step_run H. apply of_outcome_returned in E as [_ ->]. step_run H.
  run_keeps evolves E.
  apply write_register_until_returned in H as [(m & t & Hm & Hk & Hc) _].
  pose proof (ev_clock _ _ K).
  eexists. split; [exists m, t; split_and!; [done|exact Hk|lia]|].
  rewrite le_value_bytes. unfold u64, u32, wrap.
  rewrite (Z.mod_small (timeout_ms * 20)) by lia. rewrite Z.mod_mod by lia.
  apply Z.mod_small. lia.
Qed.

(** ** Control mode *)

Lemma verify_mode_returned l mode t w w' :
  verify_mode fuel l mode t w = (Returned (inr tt), w') ->
  exists data, replied_since w w' l 10 data /\ le_value data = mode.
Proof.
  unfold verify_mode, catch_runtime, try_catch. intros H.
  destruct (bind _ _ w) as [[r|e| |] s1] eqn:Eb; [|destruct e as [what| | | |]|..]; try done.
  - injection H as -> ->. step_run Eb. destruct (Z.eqb_spec a mode); [|done].
    injection Eb as <-. unfold get_register_u32 in E. step_run E.
    apply of_outcome_returned in E0 as [_ ->]. step_run E. injection E as <- <-.
    apply wait_for_register_returned in E0. by exists a1.
  - by destruct (is_timeout what).
Qed.

Lemma replied_earlier w w1 w' l rid data :
  evolves w w1 -> replied_since w1 w' l rid data -> replied_since w w' l rid data.
Proof.
  intros V (m & t & Hm & Hr & Hc). pose proof (ev_clock _ _ V).
  exists m, t. split_and!; [done|done|lia].
Qed.

Lemma switch_round_returned l mode deadline cap hold e w w' :
  switch_round fuel l mode deadline cap hold e w = (Returned (inr None), w') ->
  exists data, replied_since w w' l 10 data /\ le_value data = mode.
Proof.
  unfold switch_round. intros H. step_run H. destruct a; [|done].
  step_run H. step_run H. step_run H. step_run H.
  match goal with x : option Z |- _ => destruct x; [|done] end. step_run H.
  run_keeps evolves E. run_keeps evolves E0. run_keeps evolves E1.
  run_keeps evolves E2. run_keeps evolves E3.
  match goal with x : (string + unit)%type |- _ => destruct x as [?|[]]; [done|] end. injection H as <-.
  apply verify_mode_returned in E4 as (data & Hr & Hd). exists data. split; [|done].
  eapply replied_earlier; [|exact Hr]. do 4 (etrans; [eassumption|]). done.
Qed.

Lemma switch_mode_returned l mode deadline cap1 cap2 e w w' :
  switch_mode fuel l mode deadline cap1 cap2 e w = (Returned tt, w') ->
  exists data, replied_since w w' l 10 data /\ le_value data = mode.
Proof.
  unfold switch_mode. intros H. step_run H. step_run H. step_run H.
  destruct a1; [done|]. injection H as <-. run_keeps evolves E. run_keeps evolves E0.
  apply (loop_returned (fun _ s => evolves w1 s)) in E1 as (x & s & Hs & H); [|clear|reflexivity].
  - apply switch_round_returned in H as (data & Hr & Hd). exists data. split; [|done].
    eapply replied_earlier; [|exact Hr]. do 2 (etrans; [eassumption|]). done.
  - intros x s x' s' V E. etrans; [done|]. by run_keeps evolves E.
Qed.

(** [ensure_mode] returns only when the motor itself has confirmed the
    mode: a reply to a read of register 10, received after the call began,
    holds exactly the requested mode. *)
Theorem ensure_mode_verified l mode timeout w w' :
  ensure_mode fuel l mode timeout w = (Returned tt, w') ->
  1 <= mode <= 4 /\ 0 < timeout /\
  exists data, replied_since w w' l 10 data /\ le_value data = mode.
Proof.
  unfold ensure_mode. intros H.
  destruct (Z.ltb_spec mode 1); [done|]. destruct (Z.gtb_spec mode 4); [done|]. simpl in H.
  destruct (Z.leb_spec timeout 0); [done|]. split; [lia|]. split; [lia|].
  step_run H. step_run H. destruct a0; [|done]. step_run H.
  run_keeps evolves E. run_keeps evolves E0. run_keeps evolves E1.
  destruct a0 as [e|[]].
  - apply switch_mode_returned in H as (data & Hr & Hd). exists data. split; [|done].
    eapply replied_earlier; [|exact Hr]. do 2 (etrans; [eassumption|]). done.
  - injection H as <-. apply verify_mode_returned in E1 as (data & Hr & Hd).
    exists data. split; [|done]. eapply replied_earlier; [|exact Hr]. by etrans.
Qed.

End Properties.

(** ** Every transaction comes to an end *)

Section Termination.
Context {Env : Environment} (Hp : Progress Env) (fuel : nat) (D : Z).

Lemma now_takes_time w t w' : now w = (Returned t, w') -> w_clock w < t /\ w_clock w' = t.
Proof. intros [H ->]%now_returned. pose proof (Hp (w_step w)). split; [lia|done]. Qed.

Lemma ends_send_raw id data : ends_after D (send_raw id data).
Proof. apply ends_bus_send. Qed.
#[local] Hint Resolve ends_send_raw : ends.
Lemma ends_send_to_motor l data : ends_after D (send_to_motor l data).
Proof. unfold send_to_motor. ends_tac. Qed.
Lemma ends_send_mode_frame l base data : ends_after D (send_mode_frame l base data).
Proof. unfold send_mode_frame. ends_tac. Qed.
#[local] Hint Resolve ends_send_to_motor ends_send_mode_frame : ends.
Lemma ends_send_mit l p v kp kd tau : ends_after D (send_mit l p v kp kd tau).
Proof. unfold send_mit. ends_tac. Qed.
Lemma ends_send_pos_vel l p v : ends_after D (send_pos_vel l p v).
Proof. unfold send_pos_vel. ends_tac. Qed.
Lemma ends_send_vel l v : ends_after D (send_vel l v).
Proof. unfold send_vel. ends_tac. Qed.
Lemma ends_send_force_pos l p v r : ends_after D (send_force_pos l p v r).
Proof. unfold send_force_pos. ends_tac. Qed.
#[local] Hint Resolve ends_send_mit ends_send_pos_vel ends_send_vel ends_send_force_pos : ends.

Lemma ends_wait_for_feedback_after l n deadline :
  Z.max 0 (deadline - D) < Z.of_nat fuel ->
  ends_after D (wait_for_feedback_after fuel l n deadline).
Proof.
  intros Hf. apply (ends_loop D fuel deadline); [intros; keeps_tac|intros; ends_tac| |done].
  intros x w x' w' H. step_run H. run_keeps evolves E. apply ev_clock in K.
  destruct a; [done|]. step_run H. apply now_takes_time in E0 as [H1 H2].
  destruct (Z.geb_spec a deadline); [by repeat step_run H|]. injection H as <- <-. lia.
Qed.

Lemma ends_wait_for_write_ack l rid e n timeout :
  Z.max 0 timeout < Z.of_nat fuel -> ends_after D (wait_for_write_ack fuel l rid e n timeout).
Proof.
  intros Hf w Hw. unfold wait_for_write_ack. apply bind_finished; [by apply (ends_now D)|].
  intros t w1 E. apply now_takes_time in E as [Ht Hc].
  apply (ends_loop (w_clock w1) fuel (t + timeout));
    [intros; keeps_tac|intros; ends_tac| |lia|lia].
  clear - Hp. intros x w x' w' H. step_run H. run_keeps evolves E. apply ev_clock in K.
  destruct a; [by case_match|]. step_run H. apply now_takes_time in E0 as [H1 H2].
  destruct (Z.geb_spec a (t + timeout)); [done|]. step_run H. injection H as <- <-.
  apply sleep_for_returned in E0. lia.
Qed.

Lemma ends_wait_for_register l rid timeout :
  Z.max 0 timeout < Z.of_nat fuel -> ends_after D (wait_for_register fuel l rid timeout).
Proof.
  intros Hf w Hw. unfold wait_for_register. apply bind_finished; [by apply (ends_now D)|].
  intros t w1 E. apply now_takes_time in E as [Ht Hc].
  apply (ends_loop (w_clock w1) fuel (t + timeout)); [intros; keeps_tac| | |lia|lia].
  { intros x. ends_tac; intros w2 _; apply (ends_bus_send 0); lia. }
  clear - Hp. intros x w x' w' H. step_run H. run_keeps evolves E. apply ev_clock in K.
  destruct a; [done|]. step_run H. apply now_takes_time in E0 as [H1 H2].
  destruct (Z.geb_spec a (t + timeout)); [done|]. step_run H. run_keeps evolves E0.
  apply ev_clock in K0. step_run H. injection H as <- <-.
  apply sleep_for_returned in E1. lia.
Qed.

Lemma trunc_ms_le ns : 0 <= ns -> 0 <= trunc_ms ns <= ns.
Proof.
  intros H. unfold trunc_ms, ms. rewrite Z.quot_div_nonneg by lia.
  pose proof (Z.mul_div_le ns 1000000 ltac:(lia)). pose proof (Z.div_pos ns 1000000). lia.
Qed.

Lemma ends_write_attempt l rid data n deadline :
  ms 10 < Z.of_nat fuel -> ends_after D (write_attempt fuel l rid data n deadline).
Proof.
  intros Hf. unfold write_attempt, kRegisterWriteRetryInterval, ms in *.
  repeat first [apply ends_wait_for_write_ack; lia | ends_step].
Qed.

Lemma ends_write_register_until l rid data deadline :
  ms 10 < Z.of_nat fuel -> Z.max 0 (deadline - D) < Z.of_nat fuel ->
  ends_after D (write_register_until fuel l rid data deadline).
Proof.
  intros Hf Hd. unfold write_register_until. apply ends_bind; [keeps_tac|ends_tac|].
  intros n. apply (ends_loop D fuel deadline); [intros; keeps_tac| | |done].
  { intros _. by apply ends_write_attempt. }
  intros x w x' w' H. unfold write_attempt in H. apply bind_returned in H as (t & w1 & E & H).
  apply now_takes_time in E as [H1 H2]. destruct (Z.geb_spec t deadline); [done|].
  assert (V : evolves w1 w') by (eapply keeps_returned; [|exact H]; keeps_tac).
  apply ev_clock in V. lia.
Qed.

End Termination.

#[export] Hint Resolve ends_send_raw ends_send_to_motor ends_send_mode_frame ends_send_mit
  ends_send_pos_vel ends_send_vel ends_send_force_pos : ends.

Section ModeTermination.
Context {Env : Environment} (Hp : Progress Env) (fuel : nat).

Lemma ends_write_register_with_retry D l rid data :
  ms 200 < Z.of_nat fuel -> ends_after D (write_register_with_retry fuel l rid data).
Proof.
  unfold ms. intros Hf w Hw. unfold write_register_with_retry.
  apply bind_finished; [by apply (ends_now D)|]. intros t w1 E.
  apply now_takes_time in E as [_ Hc]; [|done].
  apply (ends_write_register_until Hp fuel t); unfold kRegisterWriteTransactionTimeout, ms; lia.
Qed.

Lemma ends_of_outcome {A} D (o : outcome A) : o <> Unfinished -> ends_after D (of_outcome o).
Proof. by destruct o. Qed.

Lemma validate_register_finished rid ty w : validate_register rid ty w <> Unfinished.
Proof. unfold validate_register. by repeat case_match. Qed.

Lemma ends_get_register_u32 D l rid t :
  Z.max 0 t < Z.of_nat fuel -> ends_after D (get_register_u32 fuel l rid t).
Proof.
  intros Hf. unfold get_register_u32.
  apply ends_bind; [keeps_tac|apply ends_of_outcome, validate_register_finished|intros _].
  apply ends_bind; [keeps_tac|by apply ends_wait_for_register|ends_tac].
Qed.

Lemma ends_get_register_f32 D l rid t :
  Z.max 0 t < Z.of_nat fuel -> ends_after D (get_register_f32 fuel l rid t).
Proof.
  intros Hf. unfold get_register_f32.
  apply ends_bind; [keeps_tac|apply ends_of_outcome, validate_register_finished|intros _].
  apply ends_bind; [keeps_tac|by apply ends_wait_for_register|ends_tac].
Qed.

Lemma ends_verify_mode D l mode t :
  Z.max 0 t < Z.of_nat fuel -> ends_after D (verify_mode fuel l mode t).
Proof.
  intros Hf. unfold verify_mode. apply ends_catch_runtime; [keeps_tac| |intros e; ends_tac].
  apply ends_bind; [keeps_tac|by apply ends_get_register_u32|ends_tac].
Qed.

(** What is granted to a read never exceeds its cap. *)
Lemma capped_remaining_returned deadline cap w o w' :
  capped_remaining deadline cap w = (Returned o, w') ->
  match o with Some t => t <= cap | None => True end.
Proof.
  unfold capped_remaining. intros H. step_run H. injection H as <- _.
  destruct a; [apply Z.le_min_r|done].
Qed.

Lemma ends_capped_bind {A} D deadline cap (k : option Z -> M World A) :
  (forall t, t <= cap -> ends_after D (k (Some t))) -> ends_after D (k None) ->
  ends_after D (do o <- capped_remaining deadline cap; k o).
Proof.
  intros Hs Hn w Hw. apply bind_finished.
  { unfold capped_remaining, remaining. revert w Hw. fold (ends_after D
      (do value <- (do t <- now; ret (if t >=? deadline then None
         else Some (Z.max (trunc_ms (deadline - t)) (ms 1))));
       ret (match value with Some v => Some (Z.min v cap) | None => None end))). ends_tac. }
  intros o w1 E. pose proof (capped_remaining_returned _ _ _ _ _ E) as Ho.
  run_keeps evolves E. apply ev_clock in K.
  destruct o as [t|]; [apply Hs|apply Hn]; lia.
Qed.

Lemma ends_remaining D deadline : ends_after D (remaining deadline).
Proof. unfold remaining. ends_tac. Qed.
#[local] Hint Resolve ends_remaining : ends.

Lemma ends_sleep_reserving D deadline d r : ends_after D (sleep_reserving deadline d r).
Proof. unfold sleep_reserving. ends_tac. Qed.
Lemma ends_finish_switch D l mode h : ends_after D (finish_switch l mode h).
Proof. unfold finish_switch. ends_tac. Qed.
Lemma ends_send_holds D l h : ends_after D (send_holds l h).
Proof. unfold send_holds, attempt. ends_tac. Qed.
#[local] Hint Resolve ends_sleep_reserving ends_finish_switch ends_send_holds : ends.

Lemma ends_switch_round D l mode deadline cap hold e :
  cap <= ms 100 -> ms 100 < Z.of_nat fuel -> Z.max 0 (deadline - D) < Z.of_nat fuel ->
  ends_after D (switch_round fuel l mode deadline cap hold e).
Proof.
  unfold ms. intros Hc Hf Hd. unfold switch_round.
  apply ends_bind; [keeps_tac|ends_tac|]. intros [v|]; [|ends_tac].
  apply ends_bind; [keeps_tac|apply ends_write_register_until; unfold ms; done || lia|intros _].
  apply ends_bind; [keeps_tac|ends_tac|intros _]. apply ends_bind; [keeps_tac|ends_tac|intros _].
  apply ends_capped_bind; [|ends_tac]. intros t Ht.
  apply ends_bind; [keeps_tac|apply ends_verify_mode; lia|ends_tac].
Qed.

Lemma ends_switch_mode D l mode deadline cap1 cap2 e :
  cap1 <= ms 100 -> cap2 <= ms 100 -> ms 100 < Z.of_nat fuel ->
  Z.max 0 (deadline - D) < Z.of_nat fuel ->
  ends_after D (switch_mode fuel l mode deadline cap1 cap2 e).
Proof.
  intros H1 H2 Hf Hd. unfold switch_mode, read_hold_position.
  apply ends_bind; [keeps_tac| |intros hold].
  { destruct (mode =? 3); [ends_tac|]. apply ends_capped_bind; [|ends_tac]. intros t Ht.
    apply ends_catch_runtime; [keeps_tac| |ends_tac].
    apply ends_bind; [keeps_tac|apply ends_get_register_f32; unfold ms in *; lia|ends_tac]. }
  apply ends_bind; [keeps_tac|ends_tac|intros _].
  apply ends_bind; [keeps_tac| |ends_tac].
  apply (ends_loop D fuel deadline); [intros; keeps_tac| | |done].
  { intros x. by apply ends_switch_round. }
  intros x w x' w' H. unfold switch_round, remaining in H.
  apply bind_returned in H as (left & w1 & E & H).
  apply bind_returned in E as (t & w2 & E & [= <- <-]).
  apply now_takes_time in E as [L1 L2]; [|done]. destruct (Z.geb_spec t deadline); [done|].
  assert (V : evolves w2 w') by (eapply keeps_returned; [|exact H]; keeps_tac).
  apply ev_clock in V. lia.
Qed.

(** C31. [ensure_mode] always comes to an end, whatever the motor and the bus
    do: with one unit of fuel for each nanosecond of its timeout (and of the
    bounded reads it nests) no loop runs out. *)
Theorem ensure_mode_terminates l mode timeout w :
  timeout + ms 100 < Z.of_nat fuel -> finished (ensure_mode fuel l mode timeout w).
Proof.
  unfold ms. intros Hf. unfold ensure_mode.
  destruct (_ || _); [done|]. destruct (Z.leb_spec timeout 0); [done|].
  apply bind_finished; [done|]. intros t w1 E.
  apply now_takes_time in E as [L1 L2]; [|done].
  set (cap1 := Z.min _ (ms 100)). set (cap2 := Z.min _ (ms 30)).
  assert (cap1 <= ms 100) by apply Z.le_min_r.
  assert (cap2 <= ms 100) by (unfold ms; etrans; [apply Z.le_min_r|unfold ms; lia]).
  apply (ends_capped_bind t); [| |lia].
  - intros read Hr. apply ends_bind; [keeps_tac|apply ends_verify_mode; unfold ms in *; lia|].
    intros [e|[]]; [|ends_tac]. apply ends_switch_mode; unfold ms in *; done || lia.
  - ends_tac.
Qed.

End ModeTermination.

(** ** A motor that answers

    A concrete environment: each step takes a microsecond and delivers the
    given frames; every transmission succeeds. *)
Definition answering (frames : list CanFrame) : Environment :=
  {| env_delay := fun _ => 1000%N;
     env_rx := fun _ => map (fun f => (0%N, RxFrame f)) frames;
     env_poll := fun _ => RxNone;
     env_send := fun _ _ => None;
     env_shutdown := fun _ => None |}.

Lemma answering_progress frames : @Progress (answering frames).
Proof. intros n. discriminate. Qed.

Definition sample_controller : Controller :=
  {| motors_ := [(3, 0%nat)]; polling_active_ := true; worker_running_ := true;
     recv_held_ := false; synchronous_receive_waiters_ := 0; bus_closed_ := false;
     tx_gap_env_override_ := false; discovery_finalized_ := true; bulk_op_gap_ := ms 2;
     endpoint_label_ := "arm" |}.

Definition sample_world : World :=
  {| w_clock := 10000000; w_step := 0; w_sent := []; w_bus := new_PacingBus;
     w_store := {[0%nat := sample_handle]}; w_ctl := sample_controller |}.

(** The enabled handle. *)
Definition enabled_world : World :=
  set_store {[0%nat := set_disabled_hint sample_handle false]} sample_world.

(** Register 10 holds mode 1; register 9 acknowledges 200 ticks; the motor
    reports status 0 at the position of the sample handle. *)
Definition mode_reply : CanFrame := can_frame 0x13 [3; 0; 0x33; 10; 1; 0; 0; 0].
Definition timeout_ack : CanFrame := can_frame 0x13 [3; 0; 0x55; 9; 200; 0; 0; 0].
Definition idle_feedback : CanFrame :=
  can_frame 0x13 [0x03; 0x80; 0; 0x7F; 0xF7; 0xFF; 30; 31].

(** Runs a transaction to its result, for the witnesses. *)
Lemma run_result {A S} (r : outcome A * S) v : fst r = v -> exists w, r = (v, w).
Proof. intros <-. exists (snd r). by destruct r. Qed.

Ltac run_to_result m v R :=
  let E := fresh "E" in let w := fresh "w" in
  assert (E : fst m = v) by (vm_compute; reflexivity);
  destruct (run_result m v E) as [w R].

Lemma get_register_u32_fresh_witness :
  exists w' data,
    get_register_u32 (Env := answering [mode_reply]) 3 0 10 (ms 10) sample_world = (Returned 1, w') /\
    replied_since sample_world w' 0 10 data /\ 1 = le_value data.
Proof.
  run_to_result (get_register_u32 (Env := answering [mode_reply]) 3 0 10 (ms 10) sample_world)
    (Returned (A := Z) 1) R.
  destruct (get_register_u32_fresh _ _ _ _ _ _ _ R) as [_ (data & H1 & H2)].
  exists w, data. split_and!; [exact R|exact H1|exact H2].
Defined.

Lemma write_register_u32_acknowledged_witness :
  exists w',
    write_register_u32 (Env := answering [timeout_ack]) 3 0 9 200 sample_world = (Returned tt, w') /\
    acked_since sample_world w' 0 9 [200; 0; 0; 0].
Proof.
  run_to_result (write_register_u32 (Env := answering [timeout_ack]) 3 0 9 200 sample_world)
    (Returned tt) R.
  destruct (write_register_u32_acknowledged _ _ _ _ _ _ R) as (_ & H & _).
  exists w. split; [exact R|exact H].
Defined.

Lemma request_fresh_state_fresh_witness :
  exists st w' m t,
    request_fresh_state (Env := answering [idle_feedback]) 3 0 (ms 50) sample_world =
      (Returned (Some st), w') /\
    w_store w' !! 0%nat = Some m /\ state_ m = Some st /\ state_time_ m = Some t /\
    w_clock sample_world <= t.
Proof.
  destruct (request_fresh_state (Env := answering [idle_feedback]) 3 0 (ms 50) sample_world)
    as [[[st|]|e| |] w'] eqn:R.
  - destruct (request_fresh_state_fresh _ _ _ _ _ _ R) as (m & t & H).
    exists st, w', m, t. split; [reflexivity|exact H].
  - exfalso. apply (f_equal fst) in R. vm_compute in R. discriminate.
  - exfalso. apply (f_equal fst) in R. vm_compute in R. discriminate.
  - exfalso. apply (f_equal fst) in R. vm_compute in R. discriminate.
  - exfalso. apply (f_equal fst) in R. vm_compute in R. discriminate.
Defined.

Lemma set_zero_position_guarded_witness :
  exists w', set_zero_position (Env := answering []) 0 enabled_world =
    (Thrown (InvalidArgument
       "motor is not disabled; call disable() before set_zero_position()"), w') /\
    w_sent w' = [].
Proof.
  apply (set_zero_position_guarded (Env := answering []) 0
    (set_disabled_hint sample_handle false) enabled_world); reflexivity.
Defined.

Lemma store_parameters_guarded_witness :
  exists w' m, store_parameters (Env := answering [idle_feedback]) 3 0 sample_world =
      (Returned tt, w') /\ w_store w' !! 0%nat = Some m /\
    exists before, w_sent w' = before ++
      [can_frame 0x7FF (encode_store_parameters_command (motor_id_ m))].
Proof.
  run_to_result (store_parameters (Env := answering [idle_feedback]) 3 0 sample_world)
    (Returned tt) R.
  destruct (store_parameters_guarded _ _ _ _ R) as (m & before & H1 & H2 & _).
  exists w, m. split; [exact R|]. split; [exact H1|]. exists before. exact H2.
Defined.

Lemma set_can_timeout_ms_saturates_witness :
  exists w' data, set_can_timeout_ms (Env := answering [timeout_ack]) 3 0 10 sample_world =
      (Returned tt, w') /\ acked_since sample_world w' 0 9 data /\ le_value data = 200.
Proof.
  run_to_result (set_can_timeout_ms (Env := answering [timeout_ack]) 3 0 10 sample_world)
    (Returned tt) R.
  assert (Hw : in_word 32 10) by (split; reflexivity || discriminate).
  destruct (set_can_timeout_ms_saturates _ _ _ _ _ Hw R) as (data & H1 & H2).
  exists w, data. split; [exact R|]. split; [exact H1|exact H2].
Defined.

Lemma ensure_mode_verified_witness :
  exists w' data, ensure_mode (Env := answering [mode_reply]) 3 0 1 (ms 500) sample_world =
      (Returned tt, w') /\ replied_since sample_world w' 0 10 data /\ le_value data = 1.
Proof.
  run_to_result (ensure_mode (Env := answering [mode_reply]) 3 0 1 (ms 500) sample_world)
    (Returned tt) R.
  destruct (ensure_mode_verified _ _ _ _ _ _ R) as (_ & _ & data & H).
  exists w, data. split; [exact R|exact H].
Defined.

(** A motor that never answers: the switch still ends. *)
Lemma ensure_mode_terminates_witness :
  finished (ensure_mode (Env := answering []) (Z.to_nat (ms 1000)) 0 1 (ms 500) sample_world).
Proof.
  apply (ensure_mode_terminates (answering_progress []) (Z.to_nat (ms 1000)) 0 1 (ms 500)).
  rewrite Z2Nat.id; [reflexivity|discriminate].
Defined.
