(* ===== verification/Controller.v ===== *)
(** * The controller of one bus

    [damiao::Controller] of [motor/src/runtime.cpp]: construction, discovery of
    the installed motors, feedback rounds, batches, and the life cycle of the
    bus and of its receive worker. *)

From S2P Require Import Prelude Float32 Protocol CanBus SocketCan MotorHandle World MotorOps.
#[local] Open Scope mdl_scope.

Definition kBulkFeedbackRetryDelay : Z := ms 2.
Definition kDefaultMultiMotorTxGap : Z := 120.

Record MitBatchCommand := {
  mit_motor : option nat;
  mit_pos : f32; mit_vel : f32; mit_kp : f32; mit_kd : f32; mit_tau : f32
}.

Record PosVelBatchCommand := {
  pv_motor : option nat;
  pv_pos : f32; pv_velocity_limit : f32
}.

(** [OtherPolicy]: a value of the underlying type that names no enumerator. *)
Inductive PresencePolicy := Required | Optional | Disabled | OtherPolicy (raw : Z).
Inductive PresenceState := NotInstalled | Present | Faulted.

#[export] Instance PresencePolicy_eq_dec : EqDecision PresencePolicy.
Proof. solve_decision. Defined.
#[export] Instance PresenceState_eq_dec : EqDecision PresenceState.
Proof. solve_decision. Defined.

Record MotorCandidate := {
  cand_role : string;
  cand_motor_id : Z;
  cand_feedback_id : Z;
  cand_model : string;
  cand_policy : PresencePolicy
}.

Record MotorDiscoveryResult := {
  res_candidate : MotorCandidate;
  res_state : PresenceState;
  res_motor : option nat;
  res_reason : string
}.

Inductive FeedbackBatchStatus := Ok | Timeout | Incomplete | TransportError.

#[export] Instance FeedbackBatchStatus_eq_dec : EqDecision FeedbackBatchStatus.
Proof. solve_decision. Defined.

Record FeedbackBatchReport := {
  rep_status : FeedbackBatchStatus;
  rep_timeout : Z;
  rep_expected_count : Z;
  rep_received_count : Z;
  rep_missing_motor_ids : list Z;
  rep_error : string
}.

(** ** Construction *)

Definition int64_max : Z := 2 ^ 63 - 1.

(** The value of an environment variable that parses, capped. *)
Definition env_gap (raw : option string) : option Z :=
  match raw with
  | None => None
  | Some text => match parse_u64 text with
                 | Some v => Some (Z.min v int64_max)
                 | None => None
                 end
  end.

(** [tx_gap_us], [bulk_gap_ms]: MOTOR_DRIVE_LAYER_TX_GAP_US and
    MOTOR_DRIVE_LAYER_BULK_OP_GAP_MS. *)
Definition make_Controller (tx_gap_us bulk_gap_ms : option string) (endpoint_label : string)
    : Controller * PacingBus :=
  let tx := env_gap tx_gap_us in
  ({| motors_ := []; polling_active_ := false; worker_running_ := false; recv_held_ := false;
      synchronous_receive_waiters_ := 0; bus_closed_ := false;
      tx_gap_env_override_ := match tx with Some _ => true | None => false end;
      discovery_finalized_ := false;
      bulk_op_gap_ := match env_gap bulk_gap_ms with Some v => ms v | None => ms 2 end;
      endpoint_label_ := endpoint_label |},
   match tx with Some v => bus_set_tx_gap v new_PacingBus | None => new_PacingBus end).

(** ** Field updates *)

Definition set_motors (t : omap nat) (c : Controller) : Controller :=
  {| motors_ := t; polling_active_ := polling_active_ c; worker_running_ := worker_running_ c;
     recv_held_ := recv_held_ c; synchronous_receive_waiters_ := synchronous_receive_waiters_ c;
     bus_closed_ := bus_closed_ c; tx_gap_env_override_ := tx_gap_env_override_ c;
     discovery_finalized_ := discovery_finalized_ c; bulk_op_gap_ := bulk_op_gap_ c;
     endpoint_label_ := endpoint_label_ c |}.
Definition set_finalized (b : bool) (c : Controller) : Controller :=
  {| motors_ := motors_ c; polling_active_ := polling_active_ c;
     worker_running_ := worker_running_ c; recv_held_ := recv_held_ c;
     synchronous_receive_waiters_ := synchronous_receive_waiters_ c;
     bus_closed_ := bus_closed_ c; tx_gap_env_override_ := tx_gap_env_override_ c;
     discovery_finalized_ := b; bulk_op_gap_ := bulk_op_gap_ c;
     endpoint_label_ := endpoint_label_ c |}.
Definition set_polling (active running : bool) (c : Controller) : Controller :=
  {| motors_ := motors_ c; polling_active_ := active; worker_running_ := running;
     recv_held_ := recv_held_ c; synchronous_receive_waiters_ := synchronous_receive_waiters_ c;
     bus_closed_ := bus_closed_ c; tx_gap_env_override_ := tx_gap_env_override_ c;
     discovery_finalized_ := discovery_finalized_ c; bulk_op_gap_ := bulk_op_gap_ c;
     endpoint_label_ := endpoint_label_ c |}.
Definition set_receive (held : bool) (waiters : Z) (c : Controller) : Controller :=
  {| motors_ := motors_ c; polling_active_ := polling_active_ c;
     worker_running_ := worker_running_ c; recv_held_ := held;
     synchronous_receive_waiters_ := u32 waiters;
     bus_closed_ := bus_closed_ c; tx_gap_env_override_ := tx_gap_env_override_ c;
     discovery_finalized_ := discovery_finalized_ c; bulk_op_gap_ := bulk_op_gap_ c;
     endpoint_label_ := endpoint_label_ c |}.
Definition set_closed (c : Controller) : Controller :=
  {| motors_ := motors_ c; polling_active_ := polling_active_ c;
     worker_running_ := worker_running_ c; recv_held_ := recv_held_ c;
     synchronous_receive_waiters_ := synchronous_receive_waiters_ c;
     bus_closed_ := true; tx_gap_env_override_ := tx_gap_env_override_ c;
     discovery_finalized_ := discovery_finalized_ c; bulk_op_gap_ := bulk_op_gap_ c;
     endpoint_label_ := endpoint_label_ c |}.

(** ** Life cycle, motor table *)

Section Operations.
Context {Env : Environment} (fuel : nat).

(** [std::make_shared<MotorHandle>]: a new object. *)
Definition alloc_handle (m : MotorHandle) : M World nat :=
  atomic (fun w => let l := fresh (map fst (map_to_list (w_store w))) in
                   (Returned l, set_store (<[l := m]> (w_store w)) w)).

(** The compare-and-swap on [polling_active_] and the new thread. *)
Definition start_polling : M World unit :=
  update_ctl (fun c => if polling_active_ c then c else set_polling true true c).

(** The worker may still finish its drain until it is joined. *)
Definition stop_polling : M World unit :=
  update_ctl (fun c => set_polling false (worker_running_ c) c) ;;;
  update_ctl (fun c => set_polling (polling_active_ c) false c).

Definition set_default_tx_gap : M World unit :=
  do c <- read_ctl (fun c => c);
  if negb (tx_gap_env_override_ c) && (2 <=? Z.of_nat (length (motors_ c)))
  then update_bus (bus_set_tx_gap kDefaultMultiMotorTxGap) else ret tt.

Definition add_damiao_motor (motor_id feedback_id : Z) (model : string) : M World nat :=
  do m <- of_outcome (make_MotorHandle motor_id feedback_id model);
  do l <- alloc_handle m;
  do c <- read_ctl (fun c => c);
  if discovery_finalized_ c then
    throw (LogicError "controller motor set is fixed for this connection after discovery")
  else match omap_find motor_id (motors_ c) with
  | Some _ => throw (InvalidArgument "device with motor_id already exists")
  | None =>
      update_ctl (fun c => set_motors (omap_set motor_id l (motors_ c)) c) ;;;
      set_default_tx_gap ;;;
      start_polling ;;;
      ret l
  end.

(** One frame drained from the bus by the calling thread; [true] when there
    was none. *)
Definition poll_step : M World bool :=
  atomic (fun w => match env_poll (w_step w) with
                   | RxNone => (Returned true, w)
                   | RxFrame frame => (Returned false, receive_step (RxFrame frame) w)
                   | RxError e => (Thrown e, receive_step (RxError e) w)
                   end).

Definition lock_receive : M World unit :=
  update_ctl (fun c => set_receive (recv_held_ c) (synchronous_receive_waiters_ c + 1) c) ;;;
  update_ctl (fun c => set_receive true (synchronous_receive_waiters_ c) c) ;;;
  update_ctl (fun c => set_receive (recv_held_ c) (synchronous_receive_waiters_ c - 1) c).

Definition unlock_receive : M World unit :=
  update_ctl (fun c => set_receive false (synchronous_receive_waiters_ c) c).

Definition poll_feedback_once : M World unit :=
  lock_receive ;;;
  try_catch
    (loop fuel (fun _ => do empty <- poll_step;
                         ret (if empty then inr tt else inl tt)) tt)
    (fun e => unlock_receive ;;; throw e) ;;;
  unlock_receive.

(** [sorted_motors], [owns_motor]. *)
Definition motors_now : M World (list nat) := read_ctl sorted_motors.

Definition owns_motor (l : nat) : M World bool :=
  do id <- read_handle l motor_id_;
  do found <- read_ctl (fun c => omap_find id (motors_ c));
  ret (bool_decide (found = Some l)).

(** The pause between two motors of a bulk operation. *)
Fixpoint bulk (op : nat -> M World unit) (motors : list nat) : M World unit :=
  match motors with
  | [] => ret tt
  | l :: rest =>
      op l ;;;
      attempt poll_feedback_once ;;;
      match rest with
      | [] => ret tt
      | _ :: _ =>
          do gap <- read_ctl bulk_op_gap_;
          (if gap >? 0 then sleep_for gap else ret tt) ;;;
          bulk op rest
      end
  end.

Definition enable_all : M World unit :=
  do motors <- motors_now;
  bulk enable motors.

Definition disable_all : M World unit :=
  do motors <- motors_now;
  bulk disable motors.

Definition shutdown : M World unit :=
  do closed <- read_ctl bus_closed_;
  if closed then ret tt
  else
    stop_polling ;;;
    attempt disable_all ;;;
    bus_shutdown ;;;
    update_ctl set_closed.

Definition close_bus : M World unit :=
  do closed <- read_ctl bus_closed_;
  if closed then ret tt
  else
    stop_polling ;;;
    bus_shutdown ;;;
    update_ctl set_closed.

(** [~Controller]: what it leaves in [worker_running_] is destroyed with the
    object. *)
Definition destroy_Controller : M World unit := attempt close_bus.

Definition set_tx_gap (gap_us : Z) : M World unit := update_bus (bus_set_tx_gap gap_us).

(** ** Batches *)

Definition foreign_motor (label : string) : exn :=
  InvalidArgument (label ++ " received a motor it does not own")%string.

(** One command of a batch: the motor must be this controller's, and a failed
    send is reported with the motor that failed. *)
Definition batch_command (motor : option nat) (send : nat -> M World unit) : M World unit :=
  do label <- read_ctl endpoint_label_;
  match motor with
  | None => throw (foreign_motor label)
  | Some l =>
      do owned <- owns_motor l;
      if negb owned then throw (foreign_motor label)
      else catch_std (send l) (fun what =>
        do id <- read_handle l motor_id_;
        throw (RuntimeError (label ++ ", motor ID " ++ to_string id ++ ": " ++ what)%string))
  end.

Definition when_open (body : M World unit) : M World unit :=
  do c <- read_ctl (fun c => c);
  if bus_closed_ c then throw (RuntimeError (endpoint_label_ c ++ " is closed")%string) else body.

Definition send_mit_batch (commands : list MitBatchCommand) : M World unit :=
  when_open (for_each commands (fun command =>
    batch_command (mit_motor command) (fun l =>
      send_mit l (mit_pos command) (mit_vel command) (mit_kp command) (mit_kd command)
        (mit_tau command)))).

Definition send_pos_vel_batch (commands : list PosVelBatchCommand) : M World unit :=
  when_open (for_each commands (fun command =>
    batch_command (pv_motor command) (fun l =>
      send_pos_vel l (pv_pos command) (pv_velocity_limit command)))).

End Operations.

(** ** Discovery *)

(** The candidate list: roles non-empty and distinct, a known policy, and,
    among the candidates that are not disabled, a model and distinct ids. *)
Fixpoint validate_candidates (cands : list MotorCandidate) (roles : list string)
    (motor_ids feedback_ids : list Z) : outcome unit :=
  match cands with
  | [] => Returned tt
  | c :: rest =>
      if str_empty (cand_role c) then
        Thrown (InvalidArgument "motor discovery candidate role is empty")
      else if bool_decide (cand_role c ∈ roles) then
        Thrown (InvalidArgument ("duplicate motor discovery role: " ++ cand_role c)%string)
      else let roles := cand_role c :: roles in
      match cand_policy c with
      | OtherPolicy _ =>
          Thrown (InvalidArgument ("invalid presence policy for role " ++ cand_role c)%string)
      | Disabled => validate_candidates rest roles motor_ids feedback_ids
      | _ =>
          if str_empty (cand_model c) then
            Thrown (InvalidArgument ("motor model is empty for role " ++ cand_role c)%string)
          else if bool_decide (cand_motor_id c ∈ motor_ids) then
            Thrown (InvalidArgument ("duplicate active motor_id in discovery: " ++
              to_string (cand_motor_id c))%string)
          else if bool_decide (cand_feedback_id c ∈ feedback_ids) then
            Thrown (InvalidArgument ("duplicate active feedback_id in discovery: " ++
              to_string (cand_feedback_id c))%string)
          else validate_candidates rest roles (cand_motor_id c :: motor_ids)
                 (cand_feedback_id c :: feedback_ids)
      end
  end.

(** A result under way: the public result and its entry of [previous_counts]. *)
Record DiscoveryEntry := {
  ent_result : MotorDiscoveryResult;
  ent_previous_count : Z
}.

Definition mk_result (c : MotorCandidate) (s : PresenceState) (m : option nat) (reason : string)
    : MotorDiscoveryResult :=
  {| res_candidate := c; res_state := s; res_motor := m; res_reason := reason |}.

Definition is_disabled (c : MotorCandidate) : bool := bool_decide (cand_policy c = Disabled).
Definition is_required (c : MotorCandidate) : bool := bool_decide (cand_policy c = Required).

(** Erases every candidate that is not disabled from the table. *)
Definition erase_candidates (cands : list MotorCandidate) (t : omap nat) : omap nat :=
  fold_left (fun t c => if is_disabled c then t else omap_erase (cand_motor_id c) t) cands t.

Definition mismatch_reason (c : MotorCandidate) (state : option MotorState) : string :=
  "received feedback with mismatched identity; expected motor_id=" ++
  to_string (cand_motor_id c) ++ " feedback_id=" ++ to_string (cand_feedback_id c) ++
  match state with
  | Some st => ", got can_id=" ++ to_string (ms_can_id st) ++ " arbitration_id=" ++
               to_string (ms_arbitration_id st)
  | None => ""
  end.

(** The feedback a discovered motor must show: its nibble, on one of the two
    arbitration identities. *)
Definition identity_matches (c : MotorCandidate) (state : option MotorState) : bool :=
  match state with
  | Some st =>
      (ms_can_id st =? u8 (Z.land (cand_motor_id c) 0x0F)) &&
      matches_feedback_arbitration_id (ms_arbitration_id st) (cand_feedback_id c)
        (cand_motor_id c)
  | None => false
  end.

Section Discovery.
Context {Env : Environment} (fuel : nat).

(** The handles of all candidates that are not disabled enter the table. *)
Fixpoint discovery_setup (cands : list MotorCandidate) : M World (list DiscoveryEntry) :=
  match cands with
  | [] => ret []
  | c :: rest =>
      do entry <-
        (if is_disabled c then
           ret {| ent_result := mk_result c NotInstalled None "disabled by policy";
                  ent_previous_count := 0 |}
         else
           do m <- of_outcome
             (make_MotorHandle (cand_motor_id c) (cand_feedback_id c) (cand_model c));
           do l <- alloc_handle m;
           update_ctl (fun ctl =>
             set_motors (omap_emplace (cand_motor_id c) l (motors_ ctl)) ctl) ;;;
           do count <- read_handle l feedback_update_count_;
           ret {| ent_result := mk_result c NotInstalled (Some l) "";
                  ent_previous_count := count |});
      do entries <- discovery_setup rest;
      ret (entry :: entries)
  end.

Definition entry_motor (e : DiscoveryEntry) : option nat := res_motor (ent_result e).

(** Requests feedback from every pending entry, in order. *)
Definition request_pending (entries : list DiscoveryEntry) (pending : list nat)
    : M World unit :=
  for_each pending (fun i =>
    match entries !! i with
    | Some e => match entry_motor e with
                | Some l => request_feedback l
                | None => undefined
                end
    | None => undefined
    end).

(** One pending entry of one attempt; the flag says it stays pending. *)
Definition probe (attempt retry_count deadline : Z) (e : DiscoveryEntry)
    : M World (DiscoveryEntry * bool) :=
  let c := res_candidate (ent_result e) in
  match entry_motor e with
  | None => undefined
  | Some l =>
      do arrived <- wait_for_feedback_after fuel l (ent_previous_count e) deadline;
      if negb arrived then
        let reason := ("fresh feedback timed out on attempt " ++ to_string (attempt + 1) ++
                       " of " ++ to_string (retry_count + 1))%string in
        ret ({| ent_result := mk_result c (res_state (ent_result e)) (Some l) reason;
                ent_previous_count := ent_previous_count e |}, true)
      else
        do state <- read_handle l latest_state;
        if negb (identity_matches c state) then
          do count <- read_handle l feedback_update_count_;
          ret ({| ent_result := mk_result c (res_state (ent_result e)) (Some l)
                                  (mismatch_reason c state);
                  ent_previous_count := count |}, true)
        else ret ({| ent_result := mk_result c Present (Some l) "";
                     ent_previous_count := ent_previous_count e |}, false)
  end.

(** The pending entries in order; what is still pending afterwards. *)
Fixpoint probe_pending (attempt retry_count deadline : Z) (pending : list nat)
    (entries : list DiscoveryEntry) : M World (list DiscoveryEntry * list nat) :=
  match pending with
  | [] => ret (entries, [])
  | i :: rest =>
      match entries !! i with
      | None => undefined
      | Some e =>
          do ' (e', stays) <- probe attempt retry_count deadline e;
          do ' (entries', still) <-
            probe_pending attempt retry_count deadline rest (<[i := e']> entries);
          ret (entries', if stays then i :: still else still)
      end
  end.

(** [tries] attempts remain, [attempt] have been made. *)
Fixpoint attempts (tries : nat) (attempt retry_count timeout : Z) (pending : list nat)
    (entries : list DiscoveryEntry) : M World (list DiscoveryEntry * list nat) :=
  match tries, pending with
  | O, _ | _, [] => ret (entries, pending)
  | S tries, _ =>
      do start <- now;
      request_pending entries pending ;;;
      do ' (entries', still) <-
        probe_pending attempt retry_count (start + timeout) pending entries;
      attempts tries (attempt + 1) retry_count timeout still entries'
  end.

(** The entries a disabled candidate does not occupy. *)
Definition pending_of (cands : list MotorCandidate) : list nat :=
  map fst (filter (fun p => is_disabled (snd p) = false) (imap (fun i c => (i, c)) cands)).

(** Removes the optional motors that never answered from the table and from
    their results; keeps the indices of the required ones. *)
Fixpoint drop_missing (pending : list nat) (entries : list DiscoveryEntry)
    (table : omap nat) : list DiscoveryEntry * omap nat * list nat :=
  match pending with
  | [] => (entries, table, [])
  | i :: rest =>
      match entries !! i with
      | None => drop_missing rest entries table
      | Some e =>
          let r := ent_result e in
          let c := res_candidate r in
          if is_required c then
            let '(entries', table', missing) := drop_missing rest entries table in
            (entries', table', i :: missing)
          else
            drop_missing rest
              (<[i := {| ent_result := mk_result c (res_state r) None (res_reason r);
                         ent_previous_count := ent_previous_count e |}]> entries)
              (omap_erase (cand_motor_id c) table)
      end
  end.

Definition missing_line (entries : list DiscoveryEntry) (i : nat) : string :=
  match entries !! i with
  | Some e =>
      let r := ent_result e in
      (" " ++ cand_role (res_candidate r) ++ " (motor_id=" ++
       to_string (cand_motor_id (res_candidate r)) ++ ", feedback_id=" ++
       to_string (cand_feedback_id (res_candidate r)) ++ ", reason=" ++ res_reason r ++ ")")%string
  | None => ""
  end.

Definition missing_message (label : string) (entries : list DiscoveryEntry)
    (missing : list nat) : string :=
  fold_left (fun text i => text ++ missing_line entries i)%string missing
    ("motor discovery failed on " ++ label ++ "; missing required motors:")%string.

(** The critical section that settles the table. *)
Definition settle (cands : list MotorCandidate) (entries : list DiscoveryEntry)
    (pending : list nat) : M World (list DiscoveryEntry * list nat) :=
  do table <- read_ctl motors_;
  let '(entries', table', missing) := drop_missing pending entries table in
  match missing with
  | [] =>
      update_ctl (fun c => set_finalized true (set_motors table' c)) ;;;
      ret (entries', [])
  | _ :: _ =>
      update_ctl (set_motors (erase_candidates cands table')) ;;;
      ret (entries', missing)
  end.

Definition discovery_body (cands : list MotorCandidate) (timeout retry_count : Z)
    : M World (list MotorDiscoveryResult) :=
  do entries <- discovery_setup cands;
  set_default_tx_gap ;;;
  let pending := pending_of cands in
  (match pending with [] => ret tt | _ :: _ => start_polling end) ;;;
  do ' (entries, pending) <-
    attempts (S (Z.to_nat retry_count)) 0 retry_count timeout pending entries;
  do ' (entries, missing) <- settle cands entries pending;
  match missing with
  | [] => ret (map ent_result entries)
  | _ :: _ =>
      do label <- read_ctl endpoint_label_;
      throw (RuntimeError (missing_message label entries missing))
  end.

Definition discover_damiao_motors (cands : list MotorCandidate) (timeout retry_count : Z)
    : M World (list MotorDiscoveryResult) :=
  if timeout <=? 0 then
    throw (InvalidArgument "motor discovery timeout must be positive")
  else if retry_count >? 10 then
    throw (InvalidArgument "motor discovery retry_count must be in 0..=10")
  else
    of_outcome (validate_candidates cands [] [] []) ;;;
    do c <- read_ctl (fun c => c);
    if discovery_finalized_ c then
      throw (LogicError "motor discovery is already finalized for this connection")
    else match motors_ c with
    | _ :: _ => throw (LogicError "motor discovery must run before adding individual motors")
    | [] =>
        try_catch (discovery_body cands timeout retry_count) (fun e =>
          do c <- read_ctl (fun c => c);
          (if discovery_finalized_ c then ret tt
           else update_ctl (set_motors (erase_candidates cands (motors_ c)))) ;;;
          throw e)
    end.

End Discovery.

(** ** Feedback rounds *)
Section Feedback.
Context {Env : Environment} (fuel : nat).

(** A motor of the round, with the update count it had at the start. *)
Definition FeedbackEntry : Type := nat * Z.

Fixpoint capture_counts (motors : list nat) : M World (list FeedbackEntry) :=
  match motors with
  | [] => ret []
  | l :: rest =>
      do count <- read_handle l feedback_update_count_;
      do entries <- capture_counts rest;
      ret ((l, count) :: entries)
  end.

(** [request_feedback] on the missing motors until the deadline passes. *)
Fixpoint request_missing (deadline : Z) (missing : list FeedbackEntry) : M World unit :=
  match missing with
  | [] => ret tt
  | (l, _) :: rest =>
      do t <- now;
      if t >=? deadline then ret tt
      else request_feedback l ;;; request_missing deadline rest
  end.

Fixpoint await_missing (round_deadline : Z) (missing : list FeedbackEntry)
    : M World (list FeedbackEntry) :=
  match missing with
  | [] => ret []
  | (l, count) :: rest =>
      do arrived <- wait_for_feedback_after fuel l count round_deadline;
      do still <- await_missing round_deadline rest;
      ret (if arrived then still else (l, count) :: still)
  end.

(** [inr (inl missing)]: the rounds ended with these missing;
    [inr (inr text)]: a request threw. *)
Definition feedback_round (deadline : Z) (missing : list FeedbackEntry)
    : M World (list FeedbackEntry + (list FeedbackEntry + string)) :=
  match missing with
  | [] => ret (inr (inl []))
  | _ :: _ =>
      do t <- now;
      if t >=? deadline then ret (inr (inl missing))
      else
        do failed <- catch_std (request_missing deadline missing ;;; ret None)
                               (fun what => ret (Some what));
        match failed with
        | Some what => ret (inr (inr what))
        | None =>
            do t <- now;
            do still <- await_missing (Z.min deadline (t + kBulkFeedbackRetryDelay)) missing;
            ret (inl still)
        end
  end.

(** The ids whose update count has not risen. *)
Fixpoint current_missing (entries : list FeedbackEntry) : M World (list Z) :=
  match entries with
  | [] => ret []
  | (l, count) :: rest =>
      do n <- read_handle l feedback_update_count_;
      do id <- read_handle l motor_id_;
      do ids <- current_missing rest;
      ret (if n <=? count then id :: ids else ids)
  end.

Fixpoint motor_ids (entries : list FeedbackEntry) : M World (list Z) :=
  match entries with
  | [] => ret []
  | (l, _) :: rest =>
      do id <- read_handle l motor_id_;
      do ids <- motor_ids rest;
      ret (id :: ids)
  end.

Definition count_of {A} (l : list A) : Z := u32 (Z.of_nat (length l)).

Definition make_report (status : FeedbackBatchStatus) (timeout expected : Z)
    (missing : list Z) (error : string) : FeedbackBatchReport :=
  {| rep_status := status; rep_timeout := timeout; rep_expected_count := expected;
     rep_received_count := u32 (expected - count_of missing);
     rep_missing_motor_ids := missing; rep_error := error |}.

(** The verdict of a completed round. *)
Definition classify (before after : TransportHealth) (timeout expected : Z)
    (missing : list Z) : FeedbackBatchReport :=
  let r := make_report Ok timeout expected missing "" in
  if negb (th_connected after) ||
     (th_send_errors after >? th_send_errors before) ||
     (th_receive_errors after >? th_receive_errors before)
  then make_report TransportError timeout expected missing
         (if str_empty (th_last_error after)
          then "transport disconnected or reported an I/O error during feedback request"
          else th_last_error after)
  else match missing with
  | [] => r
  | _ :: _ => make_report (if rep_received_count r =? 0 then Timeout else Incomplete)
                timeout expected missing ""
  end.

Definition request_feedback_all_report (timeout : Z) : M World FeedbackBatchReport :=
  if timeout <=? 0 then throw (InvalidArgument "feedback timeout must be positive")
  else
    do motors <- motors_now;
    let expected := count_of motors in
    match motors with
    | [] => ret {| rep_status := Ok; rep_timeout := timeout; rep_expected_count := expected;
                   rep_received_count := 0; rep_missing_motor_ids := []; rep_error := "" |}
    | _ :: _ =>
        do entries <- capture_counts motors;
        do before <- transport_health;
        do start <- now;
        do ended <- loop fuel (feedback_round (start + timeout)) entries;
        match ended with
        | inr what =>
            do ids <- current_missing entries;
            ret (make_report TransportError timeout expected ids what)
        | inl missing =>
            do ids <- motor_ids missing;
            do after <- transport_health;
            ret (classify before after timeout expected ids)
        end
    end.

Definition request_feedback_all (timeout : Z) : M World unit :=
  do report <- request_feedback_all_report timeout;
  match rep_status report with
  | Ok => ret tt
  | TransportError =>
      throw (RuntimeError ("feedback transport failed: " ++ rep_error report)%string)
  | _ =>
      throw (RuntimeError (fold_left (fun text id => text ++ " " ++ to_string id)%string
        (rep_missing_motor_ids report)
        "fresh feedback timed out; missing motor IDs:"%string))
  end.

End Feedback.

(** ** Every operation moves the world on *)

Section Evolution.
Context {Env : Environment} (fuel : nat).

Lemma alloc_handle_fresh (st : gmap nat MotorHandle) :
  st !! fresh (map fst (map_to_list st)) = None.
Proof.
  set (l := fresh _). destruct (st !! l) as [m|] eqn:E; [|done]. exfalso.
  apply (infinite_is_fresh (map fst (map_to_list st))). fold l.
  apply list_elem_of_fmap. exists (l, m). split; [done|]. by apply elem_of_map_to_list.
Qed.

Lemma alloc_handle_evolves m : keeps evolves (alloc_handle m).
Proof.
  apply keeps_atomic. intros w. split; [done|done|]. simpl. intros l m1 H1.
  exists m1. split; [|apply moves_on_refl]. rewrite lookup_insert_ne; [done|].
  intros <-. by rewrite alloc_handle_fresh in H1.
Qed.
Lemma alloc_handle_table m : keeps same_table (alloc_handle m).
Proof. by apply keeps_atomic_table. Qed.
Lemma alloc_handle_quiet m : keeps quiet (alloc_handle m).
Proof. by apply keeps_atomic_quiet. Qed.

Lemma poll_step_evolves : keeps evolves poll_step.
Proof.
  apply keeps_atomic. intros w.
  destruct (env_poll (w_step w)) eqn:E; [reflexivity|apply receive_step_evolves..].
Qed.
Lemma poll_step_table : keeps same_table poll_step.
Proof. apply keeps_atomic_table. intros w. by destruct (env_poll (w_step w)). Qed.
Lemma poll_step_quiet : keeps quiet poll_step.
Proof. apply keeps_atomic_quiet. intros w. by destruct (env_poll (w_step w)). Qed.
#[local] Hint Resolve alloc_handle_evolves alloc_handle_table alloc_handle_quiet
  poll_step_evolves poll_step_table poll_step_quiet : keeps.

Lemma start_polling_evolves : keeps evolves start_polling.
Proof. unfold start_polling. keeps_tac. Qed.
Lemma stop_polling_evolves : keeps evolves stop_polling.
Proof. unfold stop_polling. keeps_tac. Qed.
Lemma set_default_tx_gap_evolves : keeps evolves set_default_tx_gap.
Proof. unfold set_default_tx_gap. keeps_tac. Qed.
Lemma poll_feedback_once_evolves : keeps evolves (poll_feedback_once fuel).
Proof. unfold poll_feedback_once, lock_receive, unlock_receive. keeps_tac. Qed.
Lemma poll_feedback_once_quiet : keeps quiet (poll_feedback_once fuel).
Proof. unfold poll_feedback_once, lock_receive, unlock_receive. keeps_tac. Qed.
#[local] Hint Resolve start_polling_evolves stop_polling_evolves set_default_tx_gap_evolves
  poll_feedback_once_evolves poll_feedback_once_quiet : keeps.

Lemma owns_motor_evolves l : keeps evolves (owns_motor l).
Proof. unfold owns_motor. keeps_tac. Qed.
Lemma owns_motor_quiet l : keeps quiet (owns_motor l).
Proof. unfold owns_motor. keeps_tac. Qed.
Lemma motors_now_evolves : keeps evolves motors_now.
Proof. unfold motors_now. keeps_tac. Qed.
#[local] Hint Resolve owns_motor_evolves owns_motor_quiet motors_now_evolves : keeps.

Lemma bulk_evolves op motors :
  (forall l, keeps evolves (op l)) -> keeps evolves (bulk fuel op motors).
Proof.
  intros Hop. induction motors as [|l [|l2 rest] IH]; simpl; [keeps_tac| |].
  - unfold attempt. keeps_tac.
  - unfold attempt in *. keeps_tac.
Qed.
#[local] Hint Resolve bulk_evolves : keeps.
Lemma enable_all_evolves : keeps evolves (enable_all fuel).
Proof. unfold enable_all. keeps_tac. Qed.
Lemma disable_all_evolves : keeps evolves (disable_all fuel).
Proof. unfold disable_all. keeps_tac. Qed.
#[local] Hint Resolve enable_all_evolves disable_all_evolves : keeps.
Lemma shutdown_evolves : keeps evolves (shutdown fuel).
Proof. unfold shutdown, attempt. keeps_tac. Qed.
Lemma close_bus_evolves : keeps evolves close_bus.
Proof. unfold close_bus. keeps_tac. Qed.
Lemma batch_command_evolves motor send :
  (forall l, keeps evolves (send l)) -> keeps evolves (batch_command motor send).
Proof. intros. unfold batch_command. keeps_tac. Qed.

Lemma send_raw_table id data : keeps same_table (send_raw id data).
Proof. apply bus_send_table. Qed.
#[local] Hint Resolve send_raw_table : keeps.
Lemma send_to_motor_table l data : keeps same_table (send_to_motor l data).
Proof. unfold send_to_motor. keeps_tac. Qed.
Lemma send_mode_frame_table l base data : keeps same_table (send_mode_frame l base data).
Proof. unfold send_mode_frame. keeps_tac. Qed.
Lemma request_feedback_table l : keeps same_table (request_feedback l).
Proof. unfold request_feedback. keeps_tac. Qed.
Lemma wait_for_feedback_after_table l n d :
  keeps same_table (wait_for_feedback_after fuel l n d).
Proof. unfold wait_for_feedback_after. keeps_tac. Qed.

End Evolution.

#[export] Hint Resolve alloc_handle_evolves alloc_handle_table alloc_handle_quiet
  poll_step_evolves poll_step_table poll_step_quiet start_polling_evolves
  stop_polling_evolves set_default_tx_gap_evolves poll_feedback_once_evolves
  poll_feedback_once_quiet owns_motor_evolves owns_motor_quiet motors_now_evolves
  bulk_evolves enable_all_evolves disable_all_evolves shutdown_evolves close_bus_evolves
  batch_command_evolves send_raw_table send_to_motor_table send_mode_frame_table
  request_feedback_table wait_for_feedback_after_table : keeps.

(** ** Discovery leaves the table as it was, or final *)

(** The table holds only candidates that are not disabled. *)
Definition within (cands : list MotorCandidate) (t : omap nat) : Prop :=
  omap_sorted t /\
  forall id l, omap_find id t = Some l ->
    exists c, c ∈ cands /\ is_disabled c = false /\ cand_motor_id c = id.

Lemma erase_candidates_sorted cands t :
  omap_sorted t -> omap_sorted (erase_candidates cands t).
Proof.
  unfold erase_candidates. revert t. induction cands as [|c cands IH]; intros t Ht; [done|].
  simpl. apply IH. destruct (is_disabled c); auto with mdl.
Qed.

Lemma erase_candidates_find cands t id l :
  omap_sorted t -> omap_find id (erase_candidates cands t) = Some l ->
  omap_find id t = Some l /\
  forall c, c ∈ cands -> is_disabled c = false -> cand_motor_id c <> id.
Proof.
  unfold erase_candidates. revert t. induction cands as [|c cands IH]; intros t Ht Hf; simpl in Hf.
  { split; [done|]. intros c Hc. by apply elem_of_nil in Hc. }
  apply IH in Hf as [Hf Hc]; [|destruct (is_disabled c); auto with mdl].
  destruct (is_disabled c) eqn:Ed.
  - split; [done|]. intros c' [->|?]%elem_of_cons; [congruence|auto].
  - rewrite omap_find_erase in Hf by done. destruct (Z.eqb_spec id (cand_motor_id c)); [done|].
    split; [done|]. intros c' [->|?]%elem_of_cons; [congruence|auto].
Qed.

Lemma erase_candidates_within cands t : within cands t -> erase_candidates cands t = [].
Proof.
  intros [Hs Hw]. apply omap_find_nil. intros id.
  destruct (omap_find id (erase_candidates cands t)) as [l|] eqn:E; [|done]. exfalso.
  apply erase_candidates_find in E as [Hf Hc]; [|done].
  destruct (Hw _ _ Hf) as (c & Hin & Hd & Hid). by apply (Hc c).
Qed.

(** An unfinished discovery. *)
Definition discovering (cands : list MotorCandidate) (w : World) : Prop :=
  within cands (motors_ (w_ctl w)) /\ discovery_finalized_ (w_ctl w) = false.

Definition stays_discovering (cands : list MotorCandidate) (w w' : World) : Prop :=
  discovering cands w -> discovering cands w'.

#[export] Instance stays_discovering_pre cands : PreOrder (stays_discovering cands).
Proof. split; unfold stays_discovering; auto. Qed.

Section Rollback.
Context {Env : Environment} (fuel : nat) (cands : list MotorCandidate).

Lemma stays_of_table {A} (m : M World A) :
  keeps same_table m -> keeps (stays_discovering cands) m.
Proof. intros H w. specialize (H w). unfold stays_discovering, discovering. by rewrite H. Qed.

Lemma of_outcome_table {A} (o : outcome A) : keeps same_table (of_outcome o).
Proof. by destruct o. Qed.
#[local] Hint Resolve stays_of_table of_outcome_table : keeps.

Lemma update_ctl_stays (f : Controller -> Controller) :
  (forall c, within cands (motors_ c) -> within cands (motors_ (f c))) ->
  (forall c, discovery_finalized_ (f c) = discovery_finalized_ c) ->
  keeps (stays_discovering cands) (update_ctl f).
Proof.
  intros Hf Hd w [Hw Hn]. unfold update_ctl, atomic. cbn [snd set_ctl w_ctl].
  split; cbn [w_ctl set_ctl]; rewrite env_step_ctl; [by apply Hf|by rewrite Hd].
Qed.

Lemma omap_emplace_within id l t :
  (exists c, c ∈ cands /\ is_disabled c = false /\ cand_motor_id c = id) ->
  within cands t -> within cands (omap_emplace id l t).
Proof.
  intros Hc [Hs Hw]. split; [auto with mdl|]. intros id' l' H.
  destruct (omap_find id t) as [l0|] eqn:E.
  - unfold omap_emplace in H. rewrite E in H. by apply (Hw _ l').
  - rewrite omap_find_emplace in H by done.
    destruct (Z.eqb_spec id' id) as [->|]; [done|]. by apply (Hw _ l').
Qed.

Lemma omap_erase_within id t : within cands t -> within cands (omap_erase id t).
Proof.
  intros [Hs Hw]. split; [auto with mdl|]. intros id' l'.
  rewrite omap_find_erase by done. destruct (id' =? id); [done|]. apply Hw.
Qed.

Lemma discovery_setup_stays cs :
  (forall c, c ∈ cs -> c ∈ cands) -> keeps (stays_discovering cands) (discovery_setup cs).
Proof.
  induction cs as [|c cs IH]; intros Hin; [simpl; keeps_tac|].
  assert (Hc : c ∈ cands) by (apply Hin; by left). simpl.
  apply keeps_bind; [exact _| |].
  - destruct (is_disabled c) eqn:Ed; [keeps_tac|].
    apply keeps_bind; [exact _|keeps_tac|]. intros m.
    apply keeps_bind; [exact _|keeps_tac|]. intros l.
    apply keeps_bind; [exact _| |intros; keeps_tac].
    apply update_ctl_stays; [|done]. intros ctl Hw. apply omap_emplace_within; [eauto|done].
  - intros e. apply keeps_bind; [exact _| |intros; keeps_tac].
    apply IH. intros c' ?. apply Hin. by right.
Qed.

Lemma set_default_tx_gap_table : keeps same_table set_default_tx_gap.
Proof. unfold set_default_tx_gap. keeps_tac. Qed.

Lemma start_polling_stays : keeps (stays_discovering cands) start_polling.
Proof. apply update_ctl_stays; intros c; by destruct (polling_active_ c). Qed.

Lemma probe_table a r d e : keeps same_table (probe fuel a r d e).
Proof. unfold probe. keeps_tac. Qed.
#[local] Hint Resolve probe_table : keeps.

Lemma probe_pending_table a r d pending entries :
  keeps same_table (probe_pending fuel a r d pending entries).
Proof.
  revert entries. induction pending as [|i rest IH]; intros entries; simpl; [keeps_tac|].
  destruct (entries !! i); [|keeps_tac].
  apply keeps_bind; [exact _|keeps_tac|]. intros [e' stays].
  apply keeps_bind; [exact _|apply IH|]. intros [? ?]. keeps_tac.
Qed.
#[local] Hint Resolve probe_pending_table : keeps.

Lemma attempts_table n a r t pending entries :
  keeps same_table (attempts fuel n a r t pending entries).
Proof.
  revert a pending entries. induction n as [|n IH]; intros a pending entries; simpl; [keeps_tac|].
  destruct pending as [|i rest]; [keeps_tac|]. unfold request_pending.
  apply keeps_bind; [exact _|keeps_tac|]. intros start.
  apply keeps_bind; [exact _|keeps_tac|]. intros _.
  apply keeps_bind; [exact _|keeps_tac|]. intros [entries' still]. apply IH.
Qed.

Lemma drop_missing_within pending entries t :
  within cands t -> within cands (snd (fst (drop_missing pending entries t))).
Proof.
  revert entries t. induction pending as [|i rest IH]; intros entries t Hw; simpl; [done|].
  destruct (entries !! i) as [e|]; [|by apply IH].
  destruct (is_required _).
  - specialize (IH entries t Hw). by destruct (drop_missing rest entries t) as [[? ?] ?].
  - apply IH. by apply omap_erase_within.
Qed.

(** [settle] never throws; unless it finalizes the table it leaves an
    unfinished discovery. *)
Lemma settle_returns entries pending w :
  discovering cands w ->
  exists entries' missing w', settle cands entries pending w = (Returned (entries', missing), w') /\
    (missing <> [] -> discovering cands w').
Proof.
  intros [Hw Hn]. unfold settle, bind, read_ctl, atomic. rewrite env_step_ctl.
  pose proof (drop_missing_within pending entries _ Hw) as Hd.
  destruct (drop_missing pending entries (motors_ (w_ctl w))) as [[entries' t'] missing].
  cbn [fst snd] in Hd. destruct missing as [|i missing]; eexists _, _, _; (split; [reflexivity|]).
  - done.
  - intros _. split; cbn [w_ctl set_ctl]; rewrite !env_step_ctl; [|done].
    cbn [motors_ set_motors]. rewrite erase_candidates_within by done. split; done.
Qed.

Lemma discovery_body_thrown timeout retry_count w e w' :
  discovering cands w ->
  discovery_body fuel cands timeout retry_count w = (Thrown e, w') -> discovering cands w'.
Proof.
  intros Hw H. unfold discovery_body in H.
  assert (Hstep : forall A (m : M World A) s o s', keeps (stays_discovering cands) m ->
    m s = (o, s') -> discovering cands s -> discovering cands s').
  { intros A m s o s' Hk E Hs. by apply (keeps_returned _ _ _ _ _ Hk E). }
  apply bind_thrown in H as [H|(entries & w1 & E1 & H)];
    [by eapply Hstep; [apply discovery_setup_stays| |]|].
  assert (H1 : discovering cands w1) by (by eapply Hstep; [apply discovery_setup_stays| |]).
  apply bind_thrown in H as [H|(? & w2 & E2 & H)];
    [by eapply Hstep; [apply stays_of_table, set_default_tx_gap_table| |]|].
  assert (H2 : discovering cands w2)
    by (by eapply Hstep; [apply stays_of_table, set_default_tx_gap_table| |]).
  assert (Hstart : keeps (stays_discovering cands)
    (match pending_of cands with [] => ret tt | _ :: _ => start_polling end))
    by (destruct (pending_of cands); [keeps_tac|apply start_polling_stays]).
  apply bind_thrown in H as [H|(? & w3 & E3 & H)]; [by eapply Hstep|].
  assert (H3 : discovering cands w3) by (by eapply Hstep).
  apply bind_thrown in H as [H|([entries' pending'] & w4 & E4 & H)];
    [by eapply Hstep; [apply stays_of_table, attempts_table| |]|].
  assert (H4 : discovering cands w4)
    by (by eapply Hstep; [apply stays_of_table, attempts_table| |]).
  destruct (settle_returns entries' pending' w4 H4) as (en & mi & w5 & E5 & H5).
  rewrite (bind_run _ _ _ _ _ E5) in H. destruct mi as [|i mi]; [done|].
  specialize (H5 ltac:(done)).
  apply bind_thrown in H as [H|(label & w6 & E6 & H)]; [done|]. injection H as _ <-.
  eapply Hstep; [|exact E6|done]. apply stays_of_table. keeps_tac.
Qed.

End Rollback.

Section DiscoveryTheorems.
Context {Env : Environment} (fuel : nat) (cands : list MotorCandidate).

Lemma table_run {A} (m : M World A) w o w' :
  m w = (o, w') -> keeps same_table m -> w_ctl w' = w_ctl w.
Proof. intros E H. by apply (keeps_returned _ _ _ _ _ H E). Qed.

(** What discovery does before its first effect. *)
Lemma discover_enters timeout retry_count w o w' :
  discover_damiao_motors fuel cands timeout retry_count w = (o, w') ->
  (w_ctl w' = w_ctl w /\ forall r, o <> Returned r) \/
  (0 < timeout /\ retry_count <= 10 /\ validate_candidates cands [] [] [] = Returned tt /\
   discovery_finalized_ (w_ctl w) = false /\ motors_ (w_ctl w) = [] /\
   exists w1, w1 = env_step w /\ w_ctl w1 = w_ctl w /\
     try_catch (discovery_body fuel cands timeout retry_count) (fun e =>
          do c <- read_ctl (fun c => c);
          (if discovery_finalized_ c then ret tt
           else update_ctl (set_motors (erase_candidates cands (motors_ c)))) ;;;
          throw e) w1 = (o, w')).
Proof.
  unfold discover_damiao_motors. intros H.
  destruct (Z.leb_spec timeout 0); [left; injection H as <- <-; done|].
  destruct (Z.gtb_spec retry_count 10); [left; injection H as <- <-; done|].
  unfold bind at 1 in H.
  destruct (validate_candidates cands [] [] []) as [[]|e| |] eqn:Ev; simpl in H;
    try (left; injection H as <- <-; done).
  unfold bind at 1, read_ctl at 1, atomic at 1 in H. pose proof (env_step_ctl w) as Hc.
  rewrite Hc in H.
  destruct (discovery_finalized_ (w_ctl w)) eqn:Ef; [left; injection H as <- <-; done|].
  destruct (motors_ (w_ctl w)) as [|p t] eqn:Em; [|left; injection H as <- <-; done].
  right. split_and!; try done; try lia. by exists (env_step w).
Qed.

(** C27. Discovery is all or nothing: whatever goes wrong (invalid candidates,
    an unknown model, a send error, a required motor that does not answer),
    the controller's motor table and its finalized flag are exactly what they
    were before the call. *)
Theorem discover_rolls_back timeout retry_count w e w' :
  discover_damiao_motors fuel cands timeout retry_count w = (Thrown e, w') ->
  motors_ (w_ctl w') = motors_ (w_ctl w) /\
  discovery_finalized_ (w_ctl w') = discovery_finalized_ (w_ctl w).
Proof.
  intros [[-> _]|(_ & _ & _ & Hf & Hm & w1 & _ & Hc & H)]%discover_enters; [done|].
  rewrite Hf, Hm. apply try_catch_thrown in H as (e1 & w2 & H1 & H).
  assert (D2 : discovering cands w2).
  { eapply discovery_body_thrown; [|exact H1]. unfold discovering. rewrite Hc, Hm, Hf.
    by split. }
  destruct D2 as [Hw Hn].
  apply bind_thrown in H as [[? _]%read_ctl_run|(c & w3 & [[= ->] Hc3]%read_ctl_run & H)]; [done|].
  rewrite Hn in H.
  apply bind_thrown in H as [[? _]%update_ctl_run|(? & w4 & [_ Hc4]%update_ctl_run & H)]; [done|].
  injection H as _ <-. rewrite Hc4, Hc3. cbn [motors_ discovery_finalized_ set_motors].
  by rewrite erase_candidates_within.
Qed.

End DiscoveryTheorems.

(** A required motor that never answers. *)
Definition sample_candidate : MotorCandidate :=
  {| cand_role := "joint_3"; cand_motor_id := 3; cand_feedback_id := 0x13;
     cand_model := "4340P"; cand_policy := Required |}.

Definition empty_world : World :=
  {| w_clock := 10000000; w_step := 0; w_sent := []; w_bus := new_PacingBus; w_store := ∅;
     w_ctl := fst (make_Controller None None "arm") |}.

Lemma discover_rolls_back_witness :
  exists e w', discover_damiao_motors (Env := answering []) 20 [sample_candidate] 5000 0 empty_world =
      (Thrown (RuntimeError e), w') /\
    motors_ (w_ctl w') = [] /\ discovery_finalized_ (w_ctl w') = false.
Proof.
  destruct (discover_damiao_motors (Env := answering []) 20 [sample_candidate] 5000 0 empty_world)
    as [[r|[e|e|e|e|e]| |] w'] eqn:R;
    try (exfalso; apply (f_equal fst) in R; vm_compute in R; discriminate).
  exists e, w'. split; [reflexivity|].
  exact (discover_rolls_back 20 [sample_candidate] 5000 0 empty_world _ w' R).
Defined.

(** ** What a successful discovery establishes *)

Lemma validate_avoids cs roles mids fids c :
  validate_candidates cs roles mids fids = Returned tt ->
  c ∈ cs -> is_disabled c = false -> cand_motor_id c ∉ mids.
Proof.
  revert roles mids fids. induction cs as [|c0 cs IH]; intros roles mids fids H Hc Hd;
    [by apply elem_of_nil in Hc|].
  simpl in H. destruct (str_empty _); [done|].
  destruct (bool_decide (cand_role c0 ∈ roles)); [done|].
  unfold is_disabled in *. apply elem_of_cons in Hc as [<-|Hc].
  - destruct (cand_policy c) eqn:Ep; try done.
    all: destruct (str_empty _); [done|].
    all: destruct (bool_decide (cand_motor_id c ∈ mids)) eqn:Em; [done|].
    all: by apply bool_decide_eq_false in Em.
  - destruct (cand_policy c0) eqn:Ep; try done; [..|by eapply IH].
    all: destruct (str_empty _); [done|].
    all: destruct (bool_decide (cand_motor_id c0 ∈ mids)) eqn:Em; [done|].
    all: destruct (bool_decide (_ ∈ fids)); [done|].
    all: intros Hin; eapply IH; [exact H|exact Hc|done|by right].
Qed.

(** Candidates that are not disabled have distinct motor ids. *)
Definition distinct_ids (cs : list MotorCandidate) : Prop :=
  forall i j ci cj, cs !! i = Some ci -> cs !! j = Some cj ->
    is_disabled ci = false -> is_disabled cj = false ->
    cand_motor_id ci = cand_motor_id cj -> i = j.

Lemma validate_tail c cs roles mids fids :
  validate_candidates (c :: cs) roles mids fids = Returned tt ->
  exists roles' mids' fids', validate_candidates cs roles' mids' fids' = Returned tt /\
    (is_disabled c = false -> cand_motor_id c ∈ mids').
Proof.
  simpl. intros H. destruct (str_empty _); [done|].
  destruct (bool_decide (cand_role c ∈ roles)); [done|]. unfold is_disabled.
  destruct (cand_policy c) eqn:Ep; try done; [..|by (eexists _, _, _; split; [exact H|])].
  all: destruct (str_empty _); [done|].
  all: destruct (bool_decide (cand_motor_id c ∈ mids)); [done|].
  all: destruct (bool_decide (_ ∈ fids)); [done|].
  all: eexists _, _, _; split; [exact H|]; intros _; left.
Qed.

Lemma validate_distinct cs roles mids fids :
  validate_candidates cs roles mids fids = Returned tt -> distinct_ids cs.
Proof.
  revert roles mids fids. induction cs as [|c cs IH]; intros roles mids fids H; [done|].
  destruct (validate_tail _ _ _ _ _ H) as (r & m & f & Ht & Hc).
  specialize (IH _ _ _ Ht). intros [|i] [|j] ci cj Hi Hj Di Dj Hid; simpl in Hi, Hj.
  - done.
  - injection Hi as ->. exfalso.
    apply (validate_avoids _ _ _ _ cj Ht); [by eapply list_elem_of_lookup_2|done|].
    rewrite <- Hid. by apply Hc.
  - injection Hj as ->. exfalso.
    apply (validate_avoids _ _ _ _ ci Ht); [by eapply list_elem_of_lookup_2|done|].
    rewrite Hid. by apply Hc.
  - f_equal. by eapply IH.
Qed.

Definition entry_cand (e : DiscoveryEntry) : MotorCandidate := res_candidate (ent_result e).
Definition entry_state (e : DiscoveryEntry) : PresenceState := res_state (ent_result e).

(** The entries of an attempt in progress: those of disabled candidates are
    idle, the others own their handle in the table; exactly the pending ones
    are not present yet. *)
Definition entry_ok (t : omap nat) (pending : list nat) (i : nat) (c : MotorCandidate)
    (e : DiscoveryEntry) : Prop :=
  entry_cand e = c /\
  if is_disabled c then entry_motor e = None /\ entry_state e = NotInstalled /\ i ∉ pending
  else exists l, entry_motor e = Some l /\ omap_find (cand_motor_id c) t = Some l /\
    entry_state e = if decide (i ∈ pending) then NotInstalled else Present.

Definition entries_ok (t : omap nat) (pending : list nat) (cs : list MotorCandidate)
    (es : list DiscoveryEntry) : Prop :=
  length es = length cs /\
  forall i c e, cs !! i = Some c -> es !! i = Some e -> entry_ok t pending i c e.

(** One or more probing rounds. *)
Definition rounds (es : list DiscoveryEntry) (pending : list nat)
    (es' : list DiscoveryEntry) (still : list nat) : Prop :=
  length es' = length es /\ still ⊆ pending /\ NoDup still /\
  forall i e, es !! i = Some e -> exists e', es' !! i = Some e' /\
    entry_cand e' = entry_cand e /\ entry_motor e' = entry_motor e /\
    (i ∉ pending \/ i ∈ still -> entry_state e' = entry_state e) /\
    (i ∈ pending -> i ∉ still -> entry_state e' = Present).

Lemma rounds_refl es pending : NoDup pending -> rounds es pending es pending.
Proof. intros. split_and!; try done. intros i e ?. exists e. by split_and!. Qed.

Lemma rounds_trans es p es1 p1 es2 p2 :
  rounds es p es1 p1 -> rounds es1 p1 es2 p2 -> rounds es p es2 p2.
Proof.
  intros (L1 & S1 & N1 & H1) (L2 & S2 & N2 & H2).
  split_and!; [congruence|by etrans|done|]. intros i e He.
  destruct (H1 i e He) as (e1 & E1 & C1 & M1 & K1 & P1).
  destruct (H2 i e1 E1) as (e2 & E2 & C2 & M2 & K2 & P2).
  exists e2. split_and!; [done|congruence|congruence| |].
  - intros Hi. rewrite K2, K1; [done| |].
    + destruct Hi; [by left|right; auto].
    + destruct Hi as [Hi|Hi]; [left; auto|by right].
  - intros Hi Hn. destruct (decide (i ∈ p1)) as [H|H]; [by apply P2|].
    rewrite K2 by (by left). by apply P1.
Qed.

Lemma rounds_entries_ok t cs es p es' p' :
  entries_ok t p cs es -> rounds es p es' p' -> entries_ok t p' cs es'.
Proof.
  intros [Hl He] (L & S & N & H). split; [congruence|]. intros i c e' Hc He'.
  destruct (lookup_lt_is_Some_2 es i) as [e E].
  { rewrite <- L. by eapply lookup_lt_Some. }
  destruct (H i e E) as (e1 & E1 & C1 & M1 & K1 & P1).
  assert (e1 = e') as -> by congruence.
  destruct (He i c e Hc E) as [HC HO]. split; [congruence|].
  destruct (is_disabled c).
  - destruct HO as (? & ? & ?). split_and!; [congruence| |auto]. rewrite K1; auto.
  - destruct HO as (l & ? & ? & HS). exists l. split_and!; [congruence|done|].
    destruct (decide (i ∈ p')) as [H'|H'].
    + rewrite K1 by auto. rewrite HS. by rewrite decide_True by auto.
    + destruct (decide (i ∈ p)); [auto|]. rewrite K1 by auto. done.
Qed.

Section DiscoveryRun.
Context {Env : Environment} (fuel : nat).

Lemma probe_returned a r d e w e' stays w' :
  probe fuel a r d e w = (Returned (e', stays), w') ->
  entry_cand e' = entry_cand e /\ entry_motor e' = entry_motor e /\
  entry_state e' = if stays then entry_state e else Present.
Proof.
  unfold probe. intros H. destruct (entry_motor e) as [l|] eqn:Em; [|done].
  step_run H. destruct a0; simpl in H; [|by injection H as <- <- _].
  step_run H. destruct (identity_matches _ _); simpl in H; [by injection H as <- <- _|].
  step_run H. by injection H as <- <- _.
Qed.

Lemma probe_pending_returned a r d pending es w es' still w' :
  NoDup pending ->
  probe_pending fuel a r d pending es w = (Returned (es', still), w') ->
  rounds es pending es' still.
Proof.
  revert es w es' still w'.
  induction pending as [|i rest IH]; intros es w es' still w' Hn H; simpl in H.
  { injection H as <- <- _. apply rounds_refl. constructor. }
  apply NoDup_cons in Hn as [Hi Hn].
  destruct (es !! i) as [e|] eqn:Ee; [|done]. step_run H. destruct a0 as [e1 stays].
  step_run H. destruct a0 as [es1 still1]. injection H as <- <- _.
  apply probe_returned in E as (C1 & M1 & T1).
  apply (IH _ _ _ _ _ Hn) in E0 as (L & S & N & R). rewrite length_insert in L.
  assert (Si : i ∉ still1) by auto.
  assert (Hs : forall j, j ∈ (if stays then i :: still1 else still1) <->
    (stays = true /\ j = i) \/ j ∈ still1).
  { intros j. destruct stays; [rewrite elem_of_cons|]; naive_solver. }
  split_and!; [done| | |].
  - intros j. rewrite Hs, elem_of_cons. intros [[_ ?]|?]; auto.
  - destruct stays; [|done]. by constructor.
  - intros j ej Hj. setoid_rewrite Hs. setoid_rewrite elem_of_cons. destruct (decide (j = i)) as [->|Hne].
    + assert (ej = e) as -> by congruence.
      destruct (R i e1) as (e2 & E2 & C2 & M2 & K2 & P2).
      { apply list_lookup_insert_eq. by eapply lookup_lt_Some. }
      exists e2. split_and!; [done|congruence|congruence| |].
      * intros Hx. rewrite K2 by auto. destruct stays; [done|].
        destruct Hx as [Hx|[[? _]|Hx]]; [by destruct Hx; left|done|done].
      * intros _ Hx. rewrite K2 by auto. destruct stays; [by destruct Hx; auto|done].
    + destruct (R j ej) as (e2 & E2 & C2 & M2 & K2 & P2).
      { by rewrite list_lookup_insert_ne. }
      exists e2. split_and!; [done|done|done| |].
      * intros Hx. apply K2. destruct Hx as [Hx|[[_ ?]|Hx]]; [by left; auto|done|by right].
      * intros Hx Hx'. apply P2; [by destruct Hx|auto].
Qed.

Lemma attempts_returned n a r t pending es w es' still w' :
  NoDup pending ->
  attempts fuel n a r t pending es w = (Returned (es', still), w') ->
  rounds es pending es' still.
Proof.
  revert a pending es w. induction n as [|n IH]; intros a pending es w Hn H; simpl in H.
  { injection H as <- <- _. by apply rounds_refl. }
  destruct pending as [|i rest]; [injection H as <- <- _; by apply rounds_refl|].
  step_run H. step_run H. step_run H. destruct a2 as [es1 still1].
  apply probe_pending_returned in E1; [|done]. eapply rounds_trans; [exact E1|].
  eapply IH; [|exact H]. by destruct E1 as (_ & _ & ? & _).
Qed.

Lemma alloc_handle_returned m w l w' :
  alloc_handle m w = (Returned l, w') -> w_ctl w' = w_ctl w.
Proof. intros H. by eapply table_run; [exact H|keeps_tac]. Qed.

(** What the set-up leaves in the table. *)
Lemma discovery_setup_returned cs w es w' :
  distinct_ids cs ->
  (forall c, c ∈ cs -> is_disabled c = false ->
     omap_find (cand_motor_id c) (motors_ (w_ctl w)) = None) ->
  discovery_setup cs w = (Returned es, w') ->
  length es = length cs /\
  (forall i c e, cs !! i = Some c -> es !! i = Some e ->
     entry_cand e = c /\ entry_state e = NotInstalled /\
     if is_disabled c then entry_motor e = None
     else exists l, entry_motor e = Some l /\
       omap_find (cand_motor_id c) (motors_ (w_ctl w')) = Some l) /\
  (forall id, (forall c, c ∈ cs -> is_disabled c = false -> cand_motor_id c <> id) ->
     omap_find id (motors_ (w_ctl w')) = omap_find id (motors_ (w_ctl w))).
Proof.
  revert w es w'. induction cs as [|c cs IH]; intros w es w' Hd Hf H; simpl in H.
  { injection H as <- <-. by split_and!. }
  assert (Hd' : distinct_ids cs).
  { intros i j ci cj Hi Hj ???. by injection (Hd (S i) (S j) ci cj Hi Hj ltac:(done)
      ltac:(done) ltac:(done)). }
  step_run H. step_run H. injection H as <- <-.
  assert (Hhead : entry_cand a = c /\ entry_state a = NotInstalled /\
    (forall id, (is_disabled c = false -> cand_motor_id c <> id) ->
      omap_find id (motors_ (w_ctl w0)) = omap_find id (motors_ (w_ctl w))) /\
    if is_disabled c then entry_motor a = None
    else exists l, entry_motor a = Some l /\
      omap_find (cand_motor_id c) (motors_ (w_ctl w0)) = Some l).
  { destruct (is_disabled c) eqn:Ed.
    - injection E as <- <-. by split_and!.
    - step_run E. step_run E. step_run E. step_run E. injection E as <- <-.
      apply of_outcome_returned in E1 as [_ ->]. apply alloc_handle_returned in E2.
      apply update_ctl_run in E3 as [_ E3].
      assert (Hw : w_ctl w5 = w_ctl w4) by (eapply table_run; [exact E4|keeps_tac]).
      assert (Hc : omap_find (cand_motor_id c) (motors_ (w_ctl w)) = None)
        by (apply Hf; [by left|done]).
      rewrite Hw, E3, E2. cbn [motors_ set_motors].
      split_and!; try done.
      + intros id Hid. rewrite omap_find_emplace by done.
        destruct (Z.eqb_spec id (cand_motor_id c)) as [->|]; [by destruct Hid|done].
      + eexists. split; [done|]. rewrite omap_find_emplace by done. by rewrite Z.eqb_refl. }
  destruct Hhead as (HC & HS & HF & HM).
  apply IH in E0 as (L & R & F); [|done|].
  2:{ intros c' Hc' Hdc. rewrite HF; [apply Hf; [by right|done]|]. intros Hdc0 Hid.
      apply list_elem_of_lookup_1 in Hc' as [j Hj].
      by discriminate (Hd 0%nat (S j) c c' eq_refl Hj Hdc0 Hdc Hid). }
  split; [simpl; congruence|]. split.
  - intros [|i] ci ei Hi He; simpl in Hi, He; [|by apply (R i)].
    injection Hi as ->. injection He as ->. split_and!; [done|done|].
    destruct (is_disabled ci) eqn:Ed; [done|]. destruct HM as (l & HM1 & HM2).
    exists l. split; [done|]. rewrite F; [done|]. intros c' Hc' Hdc Hid.
    apply list_elem_of_lookup_1 in Hc' as [j Hj].
    by discriminate (Hd 0%nat (S j) ci c' eq_refl Hj Ed Hdc (eq_sym Hid)).
  - intros id Hid. rewrite F, HF; [done| |].
    + apply Hid. by left.
    + intros c' Hc'. apply Hid. by right.
Qed.

End DiscoveryRun.

(** The indices [pending_of] lists. *)
Lemma pending_of_spec cs i :
  i ∈ pending_of cs <-> exists c, cs !! i = Some c /\ is_disabled c = false.
Proof.
  unfold pending_of. rewrite list_elem_of_fmap. split.
  - intros ([j c] & -> & H). apply list_elem_of_filter in H as [Hd H].
    apply elem_of_lookup_imap in H as (k & c' & [= -> ->] & Hk). by exists c'.
  - intros (c & Hc & Hd). exists (i, c). split; [done|]. apply list_elem_of_filter.
    split; [done|]. apply elem_of_lookup_imap. by exists i, c.
Qed.

Lemma pending_of_NoDup cs : NoDup (pending_of cs).
Proof.
  unfold pending_of. apply NoDup_fmap_2_strong.
  - intros [i c] [j d] Hi Hj Hij. simpl in Hij. subst.
    apply list_elem_of_filter in Hi as [_ Hi]. apply list_elem_of_filter in Hj as [_ Hj].
    apply elem_of_lookup_imap in Hi as (k & c' & [= -> ->] & Hk).
    apply elem_of_lookup_imap in Hj as (k' & d' & [= <- ->] & Hk'). congruence.
  - apply NoDup_filter, NoDup_alt. intros i j [k c]. rewrite !list_lookup_imap.
    destruct (cs !! i), (cs !! j); simpl; congruence.
Qed.

(** [drop_missing] without a required motor among the missing. *)
Lemma drop_missing_spec pending es t es' t' :
  NoDup pending -> omap_sorted t ->
  drop_missing pending es t = (es', t', []) ->
  length es' = length es /\
  (forall i e, es !! i = Some e -> exists e', es' !! i = Some e' /\
     entry_cand e' = entry_cand e /\ entry_state e' = entry_state e /\
     (i ∉ pending -> entry_motor e' = entry_motor e) /\
     (i ∈ pending -> entry_motor e' = None /\ is_required (entry_cand e) = false)) /\
  (forall id l, omap_find id t' = Some l <->
     omap_find id t = Some l /\
     forall i e, i ∈ pending -> es !! i = Some e -> cand_motor_id (entry_cand e) <> id).
Proof.
  revert es t. induction pending as [|i rest IH]; intros es t Hn Hs H; simpl in H.
  { injection H as <- <-. split_and!; [done| |].
    - intros i e He. exists e. split_and!; try done. by intros ?%elem_of_nil.
    - intros id l. split; [|by intros [? _]]. intros Hl. split; [done|].
      by intros ? ? ?%elem_of_nil. }
  apply NoDup_cons in Hn as [Hi Hn]. destruct (es !! i) as [e|] eqn:Ee.
  2:{ apply (IH _ _ Hn Hs) in H as (L & R & F). split_and!; [done| |].
    - intros j ej Hj. destruct (R j ej Hj) as (e' & ? & ? & ? & K & P).
      assert (j <> i) by congruence. exists e'. split_and!; try done.
      + intros Hx. apply K. intros ?. apply Hx. by right.
      + intros [?|?]%elem_of_cons; [done|auto].
    - intros id l. rewrite F. split; intros [Hl Hx]; (split; [done|]).
      + intros j ej [->|?]%elem_of_cons; [congruence|eauto].
      + intros j ej ??. eapply Hx; [by right|done]. }
  destruct (is_required _) eqn:Er.
  { by destruct (drop_missing rest es t) as [[? ?] ?]. }
  apply IH in H as (L & R & F); [|done|auto with mdl]. rewrite length_insert in L.
  split_and!; [done| |].
  - intros j ej Hj. destruct (decide (j = i)) as [->|Hne].
    + assert (ej = e) as -> by congruence.
      edestruct (R i) as (e2 & E2 & C2 & S2 & M2 & _).
      { apply list_lookup_insert_eq. by eapply lookup_lt_Some. }
      exists e2. split_and!; [done|done|done| |].
      * intros Hx. destruct Hx. by left.
      * intros _. split; [by rewrite M2|done].
    + destruct (R j ej) as (e2 & E2 & C2 & S2 & M2 & P2); [by rewrite list_lookup_insert_ne|].
      exists e2. split_and!; [done|done|done| |].
      * intros Hx. apply M2. intros ?. apply Hx. by right.
      * intros [?|?]%elem_of_cons; [done|auto].
  - intros id l. rewrite F, omap_find_erase by done.
    destruct (Z.eqb_spec id (cand_motor_id (res_candidate (ent_result e)))) as [->|Hid].
    + split; [by intros []|]. intros [_ Hx]. by destruct (Hx i e ltac:(by left) Ee).
    + split; intros [Hl Hx]; (split; [done|]).
      * intros j ej [->|Hj]%elem_of_cons Hej Heq; [simplify_eq; by destruct Hid|].
        destruct (decide (j = i)) as [->|Hne]; [done|].
        eapply Hx; [exact Hj| |exact Heq]. by rewrite list_lookup_insert_ne.
      * intros j ej Hj Hej. assert (j <> i) by (by intros ->).
        rewrite list_lookup_insert_ne in Hej by done. eapply Hx; [by right|done].
Qed.

(** What a result of a successful discovery says, against the final table. *)
Definition result_ok (t : omap nat) (r : MotorDiscoveryResult) : Prop :=
  let c := res_candidate r in
  match res_motor r with
  | Some l => is_disabled c = false /\ res_state r = Present /\
              omap_find (cand_motor_id c) t = Some l
  | None => is_required c = false /\ res_state r = NotInstalled /\
            (is_disabled c = false -> omap_find (cand_motor_id c) t = None)
  end.

Lemma settled_results cs es pending t es' t' :
  distinct_ids cs -> NoDup pending -> omap_sorted t -> entries_ok t pending cs es ->
  drop_missing pending es t = (es', t', []) ->
  map entry_cand es' = cs /\ forall e, e ∈ es' -> result_ok t' (ent_result e).
Proof.
  intros Hd Hn Hs [Hl Hok] H.
  apply drop_missing_spec in H as (L & R & F); [|done|done].
  assert (Hback : forall i e', es' !! i = Some e' -> exists c e, cs !! i = Some c /\
    es !! i = Some e /\ entry_ok t pending i c e).
  { intros i e' He'. pose proof (lookup_lt_Some _ _ _ He') as Hlt.
    destruct (lookup_lt_is_Some_2 es i) as [e E]; [congruence|].
    destruct (lookup_lt_is_Some_2 cs i) as [c C]; [congruence|].
    exists c, e. split_and!; [done|done|]. by apply Hok. }
  split.
  - apply list_eq. intros i. rewrite list_lookup_fmap.
    destruct (es' !! i) as [e'|] eqn:E'; simpl.
    + destruct (Hback i e' E') as (c & e & C & E & [HC _]).
      destruct (R i e E) as (e2 & E2 & C2 & _). rewrite C. congruence.
    + symmetry. apply lookup_ge_None. apply lookup_ge_None in E'. lia.
  - intros e' [i He']%list_elem_of_lookup_1.
    destruct (Hback i e' He') as (c & e & C & E & HC & HO).
    destruct (R i e E) as (e2 & E2 & C2 & S2 & M2 & P2).
    assert (e2 = e') as -> by congruence. unfold result_ok.
    fold (entry_cand e') (entry_motor e') (entry_state e'). rewrite C2, S2, HC. rewrite HC in P2.
    destruct (is_disabled c) eqn:Ed.
    + destruct HO as (HM & HS & HP). rewrite M2, HM by done. split_and!; [|done|done].
      unfold is_required, is_disabled in *. apply bool_decide_eq_true in Ed.
      by rewrite Ed.
    + destruct HO as (l & HM & HF & HS). destruct (decide (i ∈ pending)) as [Hi|Hi].
      * destruct (P2 Hi) as [-> ?]. split_and!; [done|done|]. intros _.
        destruct (omap_find (cand_motor_id c) t') as [l'|] eqn:Ef; [|done]. exfalso.
        apply F in Ef as [_ Hx]. apply (Hx i e Hi E). by rewrite HC.
      * rewrite M2, HM by done. split_and!; [done|done|]. apply F. split; [done|].
        intros j ej Hj Hej Hid.
        destruct (lookup_lt_is_Some_2 cs j) as [cj Cj]; [rewrite <- Hl; exact (lookup_lt_Some _ _ _ Hej)|].
        destruct (Hok j cj ej Cj Hej) as [HCj HOj]. rewrite HCj in Hid.
        destruct (is_disabled cj) eqn:Edj; [by destruct HOj as (_ & _ & ?)|].
        by rewrite (Hd i j c cj C Cj Ed Edj (eq_sym Hid)) in Hi.
Qed.

Section DiscoverySuccess.
Context {Env : Environment} (fuel : nat) (cands : list MotorCandidate).

Lemma settle_returned es pending w es' w' :
  settle cands es pending w = (Returned (es', []), w') ->
  exists t', drop_missing pending es (motors_ (w_ctl w)) = (es', t', []) /\
    motors_ (w_ctl w') = t' /\ discovery_finalized_ (w_ctl w') = true.
Proof.
  unfold settle. intros H. step_run H. apply read_ctl_run in E as [[= ->] Hc].
  destruct (drop_missing pending es (motors_ (w_ctl w))) as [[es1 t1] missing] eqn:Ed.
  destruct missing as [|i missing]; [|by step_run H]. step_run H. injection H as <- <-.
  apply update_ctl_run in E as [_ Hu]. exists t1. by rewrite Hu.
Qed.

Lemma discovery_setup_sorted cs w es w' :
  omap_sorted (motors_ (w_ctl w)) -> discovery_setup cs w = (Returned es, w') ->
  omap_sorted (motors_ (w_ctl w')).
Proof.
  revert w es. induction cs as [|c cs IH]; intros w es Hs H; simpl in H.
  { by injection H as _ <-. }
  step_run H. step_run H. injection H as _ <-. eapply IH; [|exact E0].
  destruct (is_disabled c); [by injection E as _ <-|].
  step_run E. step_run E. step_run E. step_run E. injection E as _ <-.
  apply of_outcome_returned in E1 as [_ ->]. apply alloc_handle_returned in E2.
  apply update_ctl_run in E3 as [_ E3].
  assert (Hw : w_ctl w5 = w_ctl w4) by (eapply table_run; [exact E4|keeps_tac]).
  rewrite Hw, E3, E2. simpl. auto with mdl.
Qed.

Lemma probe_evolves a r d e : keeps evolves (probe fuel a r d e).
Proof. unfold probe. keeps_tac. Qed.

Lemma probe_pending_evolves a r d pending entries :
  keeps evolves (probe_pending fuel a r d pending entries).
Proof.
  pose proof probe_evolves. revert entries. induction pending as [|i rest IH]; intros entries;
    simpl; keeps_tac.
Qed.

Lemma request_pending_evolves entries pending : keeps evolves (request_pending entries pending).
Proof. unfold request_pending. keeps_tac. Qed.

Lemma attempts_evolves n a r t pending entries :
  keeps evolves (attempts fuel n a r t pending entries).
Proof.
  pose proof probe_pending_evolves. pose proof request_pending_evolves. revert a pending entries.
  induction n as [|n IH]; intros a [|i pending] entries; cbn [attempts]; keeps_tac.
Qed.

Lemma settle_evolves es pending : keeps evolves (settle cands es pending).
Proof. unfold settle. keeps_tac. Qed.

(** The stages of a discovery that returns: the handles are made and enter the
    table, the rounds find the present ones, and the missing ones, all of them
    optional, are dropped. *)
Lemma discovery_stages timeout retry_count w results w' :
  discover_damiao_motors fuel cands timeout retry_count w = (Returned results, w') ->
  distinct_ids cands /\ motors_ (w_ctl w) = [] /\ discovery_finalized_ (w_ctl w') = true /\
  exists es w1 t es1 pending es2,
    discovery_setup cands (env_step w) = (Returned es, w1) /\ evolves w1 w' /\
    rounds es (pending_of cands) es1 pending /\ NoDup pending /\ omap_sorted t /\
    entries_ok t pending cands es1 /\
    drop_missing pending es1 t = (es2, motors_ (w_ctl w'), []) /\ results = map ent_result es2.
Proof.
  intros [[_ H]|(_ & _ & Hv & Hf & Hm & w1 & -> & Hc & H)]%discover_enters;
    [by destruct (H results)|].
  apply try_catch_returned in H as [H|(e & w2 & _ & H)].
  2:{ step_run H. step_run H. done. }
  pose proof (validate_distinct _ _ _ _ Hv) as Hd. unfold discovery_body in H.
  step_run H. step_run H. step_run H. step_run H. destruct a2 as [es1 pending1].
  step_run H. destruct a2 as [es2 missing].
  destruct missing as [|i missing]; [|by step_run H]. injection H as <- <-.
  assert (V : evolves w0 w3).
  { pose proof attempts_evolves. run_keeps evolves E0. run_keeps evolves E2.
    assert (evolves w1 w2) by (destruct (pending_of cands); [by injection E1 as _ <-|];
      run_keeps evolves E1; done). do 2 (etrans; [eassumption|]). done. }
  assert (V' : evolves w3 w4) by (pose proof settle_evolves; by run_keeps evolves E3).
  pose proof E as Es.
  assert (Hs : omap_sorted (motors_ (w_ctl w0)))
    by (eapply discovery_setup_sorted; [|exact E]; rewrite Hc, Hm; done).
  apply discovery_setup_returned in E as (L & R & _); [|done|].
  2:{ intros c _ _. by rewrite Hc, Hm. }
  assert (T2 : w_ctl w1 = w_ctl w0)
    by (eapply table_run; [exact E0|apply set_default_tx_gap_table]).
  assert (T3 : motors_ (w_ctl w2) = motors_ (w_ctl w1)).
  { destruct (pending_of cands); [by injection E1 as _ <-|].
    apply update_ctl_run in E1 as [_ ->]. by destruct (polling_active_ _). }
  assert (T4 : w_ctl w3 = w_ctl w2) by (eapply table_run; [exact E2|apply attempts_table]).
  apply attempts_returned in E2; [|apply pending_of_NoDup].
  apply settle_returned in E3 as (t' & Hdrop & Ht' & Hfin). subst t'.
  assert (Hok : entries_ok (motors_ (w_ctl w3)) pending1 cands es1).
  { eapply rounds_entries_ok; [|exact E2]. split; [done|]. intros i c e Hi He.
    destruct (R i c e Hi He) as (HC & HS & HM). split; [done|].
    destruct (is_disabled c) eqn:Ed.
    - split_and!; [done|done|]. rewrite pending_of_spec. intros (c' & ? & ?). congruence.
    - destruct HM as (l & ? & Hl). exists l. rewrite T4, T3, T2. split_and!; [done|done|].
      rewrite decide_True; [done|]. apply pending_of_spec. by exists c. }
  split_and!; [done|done|done|].
  exists a, w0, (motors_ (w_ctl w3)), es1, pending1, es2. split_and!; try done; [by etrans| |].
  - by destruct E2 as (_ & _ & ? & _).
  - by rewrite T4, T3, T2.
Qed.

(** C28. A discovery that returns has settled the table for good: it is
    finalized; there is one result per candidate, in order; every motor it
    reports present is in the table under its id; every required candidate is
    among them; and an optional one that did not answer is gone from both. *)
Theorem discover_settles timeout retry_count w results w' :
  discover_damiao_motors fuel cands timeout retry_count w = (Returned results, w') ->
  discovery_finalized_ (w_ctl w') = true /\
  map res_candidate results = cands /\
  forall r, r ∈ results -> result_ok (motors_ (w_ctl w')) r.
Proof.
  intros (Hd & _ & Hf & es & w1 & t & es1 & pending & es2 & _ & _ & Hr & Hn & Hs & Hok & Hdrop & ->)
    %discovery_stages.
  destruct (settled_results cands es1 pending t es2 _ Hd Hn Hs Hok Hdrop) as [Hmap Hall].
  split; [done|]. split; [rewrite map_map; exact Hmap|].
  intros r (e & -> & He)%list_elem_of_fmap. by apply Hall.
Qed.

End DiscoverySuccess.

(** The motor answers every request; an optional gripper never does. *)
Definition optional_candidate : MotorCandidate :=
  {| cand_role := "gripper"; cand_motor_id := 8; cand_feedback_id := 0x18;
     cand_model := "4310"; cand_policy := Optional |}.

Lemma discover_settles_witness :
  exists results w',
    discover_damiao_motors (Env := answering [idle_feedback]) 40
      [sample_candidate; optional_candidate] 30000 0 empty_world = (Returned results, w') /\
    map res_state results = [Present; NotInstalled] /\
    discovery_finalized_ (w_ctl w') = true /\
    map res_candidate results = [sample_candidate; optional_candidate] /\
    forall r, r ∈ results -> result_ok (motors_ (w_ctl w')) r.
Proof.
  destruct (discover_damiao_motors (Env := answering [idle_feedback]) 40
      [sample_candidate; optional_candidate] 30000 0 empty_world) as [[results|e| |] w'] eqn:R;
    try (exfalso; apply (f_equal fst) in R; vm_compute in R; discriminate).
  exists results, w'. split; [reflexivity|]. split.
  { apply (f_equal fst) in R. vm_compute in R. injection R as <-. reflexivity. }
  exact (discover_settles 40 [sample_candidate; optional_candidate] 30000 0 empty_world
    results w' R).
Defined.

(** ** A complete feedback round is fresh for every motor *)

Section FeedbackFresh.
Context {Env : Environment} (fuel : nat) (w0 : World).

(** The entry's count is one the handle had since [w0]; [w] is later. *)
Definition counted (w : World) (p : FeedbackEntry) : Prop :=
  exists wi m, evolves w0 wi /\ evolves wi w /\ w_store wi !! (fst p) = Some m /\
    feedback_update_count_ m = snd p.

Definition arrived (w : World) (p : FeedbackEntry) : Prop :=
  exists m, w_store w !! (fst p) = Some m /\ felt_since w0 m.

Lemma counted_later w w' p : evolves w w' -> counted w p -> counted w' p.
Proof.
  intros V (wi & m & V0 & V1 & Hm & Hc). exists wi, m. split_and!; try done. by etrans.
Qed.

Lemma arrived_later w w' p : evolves w0 w -> evolves w w' -> arrived w p -> arrived w' p.
Proof.
  intros V0 V (m & Hm & Hf). destruct (ev_store _ _ V _ _ Hm) as (m' & Hm' & _).
  exists m'. split; [done|]. by eapply felt_since_later.
Qed.

Lemma capture_counts_returned motors w entries w' :
  evolves w0 w -> capture_counts motors w = (Returned entries, w') ->
  evolves w w' /\ map fst entries = motors /\ forall p, p ∈ entries -> counted w' p.
Proof.
  revert w entries. induction motors as [|l rest IH]; intros w entries V H; simpl in H.
  { injection H as <- <-. split_and!; [reflexivity|done|]. by intros p ?%elem_of_nil. }
  step_run H. step_run H. injection H as <- <-. run_keeps evolves E.
  apply IH in E0 as (V1 & Hm & Hc); [|by etrans].
  split_and!; [by etrans|simpl; congruence|].
  intros p [->|Hp]%elem_of_cons; [|by apply Hc].
  apply read_handle_returned in E as (m & Hl & ->).
  exists w1, m. split_and!; [by etrans|done|done|done].
Qed.

Lemma request_missing_evolves deadline missing : keeps evolves (request_missing deadline missing).
Proof.
  induction missing as [|[l c] rest IH]; simpl; [keeps_tac|].
  apply keeps_bind; [exact _|keeps_tac|]. intros t. destruct (t >=? deadline); [keeps_tac|].
  apply keeps_bind; [exact _|keeps_tac|]. by intros _.
Qed.

Lemma await_missing_returned round_deadline missing w still w' :
  evolves w0 w -> (forall p, p ∈ missing -> counted w p) ->
  await_missing fuel round_deadline missing w = (Returned still, w') ->
  evolves w w' /\ still ⊆ missing /\ forall p, p ∈ missing -> p ∈ still \/ arrived w' p.
Proof.
  revert w still. induction missing as [|[l c] rest IH]; intros w still V Hc H; simpl in H.
  { injection H as <- <-. split_and!; [reflexivity|done|]. by intros p ?%elem_of_nil. }
  step_run H. step_run H. injection H as <- <-. run_keeps evolves E.
  assert (V1 : evolves w0 w1) by (by etrans).
  apply IH in E0 as (V2 & Hs & Ha); [|done|].
  2:{ intros p Hp. eapply counted_later; [exact K|]. apply Hc. by right. }
  split; [by etrans|]. destruct a.
  - split; [set_solver|]. intros p [->|Hp]%elem_of_cons; [|by apply Ha]. right.
    eapply arrived_later; [exact V1|exact V2|].
    apply wait_for_feedback_after_true in E as (m & Hm & Hn).
    destruct (Hc (l, c)) as (wi & mi & Vi & Vi' & Hmi & Hci); [by left|].
    exists m. split; [done|]. simpl in *. subst c.
    destruct (felt_since_count wi w1 mi m l) as (st & t & ? & ? & ?);
      [by etrans|done|done|done|].
    pose proof (ev_clock _ _ Vi). exists st, t. split_and!; [done|done|lia].
  - split; [set_solver|]. intros p [->|Hp]%elem_of_cons; [left; by left|].
    destruct (Ha p Hp); [left; by right|by right].
Qed.

(** Between rounds every entry is missing or has arrived. *)
Definition round_state (entries missing : list FeedbackEntry) (w : World) : Prop :=
  evolves w0 w /\ (forall p, p ∈ missing -> counted w p) /\
  forall p, p ∈ entries -> p ∈ missing \/ arrived w p.

Lemma round_state_later entries missing w w' :
  evolves w w' -> round_state entries missing w -> round_state entries missing w'.
Proof.
  intros V (V0 & Hc & Ha). split_and!; [by etrans|by eauto using counted_later|].
  intros p Hp. destruct (Ha p Hp); [by left|right]. by eapply arrived_later.
Qed.

Lemma feedback_round_state deadline entries missing w r w' :
  round_state entries missing w -> feedback_round fuel deadline missing w = (Returned r, w') ->
  match r with
  | inl still => round_state entries still w'
  | inr (inl rest) => round_state entries rest w'
  | inr (inr _) => True
  end.
Proof.
  intros Hr H. unfold feedback_round in H. destruct missing as [|p rest].
  { by injection H as <- <-. }
  set (missing := p :: rest) in *. clearbody missing.
  step_run H. run_keeps evolves E.
  destruct (a >=? deadline); [injection H as <- <-; by eapply round_state_later|].
  apply (round_state_later _ _ _ _ K) in Hr.
  apply bind_returned in H as (failed & w3 & E1 & H).
  assert (K1 : evolves w1 w3).
  { eapply keeps_returned; [|exact E1]. pose proof request_missing_evolves. keeps_tac. }
  apply (round_state_later _ _ _ _ K1) in Hr.
  destruct failed as [what|]; [by injection H as <- <-|].
  step_run H. run_keeps evolves E0. apply (round_state_later _ _ _ _ K0) in Hr.
  step_run H. injection H as <- <-. destruct Hr as (V0 & Hc & Ha).
  apply await_missing_returned in E2 as (V & Hs & Hn); [|done|done].
  split_and!; [by etrans| |].
  - intros q Hq. eapply counted_later; [exact V|]. by apply Hc, Hs.
  - intros q Hq. destruct (Ha q Hq) as [Hm|Hm]; [by apply Hn|right].
    eapply arrived_later; [|exact V|done]. done.
Qed.

Lemma motor_ids_nil entries w w' : motor_ids entries w = (Returned [], w') -> entries = [].
Proof.
  destruct entries as [|[l c] rest]; simpl; [done|]. intros H. step_run H. step_run H. done.
Qed.

Lemma motor_ids_evolves entries : keeps evolves (motor_ids entries).
Proof.
  induction entries as [|[l c] rest IH]; simpl; [keeps_tac|].
  apply keeps_bind; [exact _|keeps_tac|]. intros id.
  apply keeps_bind; [exact _|done|]. intros. keeps_tac.
Qed.

Lemma classify_ok before after timeout expected missing :
  rep_status (classify before after timeout expected missing) = Ok ->
  missing = [] /\ th_connected after = true.
Proof.
  unfold classify. destruct (th_connected after); simpl; [|done].
  destruct (_ || _); [done|]. destruct missing; [done|].
  unfold make_report. simpl. by destruct (u32 _ =? 0).
Qed.

End FeedbackFresh.

Section FeedbackTheorem.
Context {Env : Environment} (fuel : nat).

(** C30. A feedback round that reports Ok is complete and fresh: no motor is
    missing, and every motor of the controller holds a state received after
    the call began. *)
Theorem request_feedback_all_fresh timeout w report w' :
  request_feedback_all_report fuel timeout w = (Returned report, w') ->
  rep_status report = Ok ->
  rep_missing_motor_ids report = [] /\
  rep_received_count report = (if decide (motors_ (w_ctl w) = []) then 0
                               else rep_expected_count report) /\
  forall l, l ∈ sorted_motors (w_ctl w) ->
    exists m, w_store w' !! l = Some m /\ felt_since w m.
Proof.
  unfold request_feedback_all_report. intros H Hok. destruct (timeout <=? 0); [done|].
  step_run H. run_keeps evolves E. apply read_ctl_run in E as [[= ->] _].
  destruct (sorted_motors (w_ctl w)) as [|l0 ls] eqn:Es.
  { injection H as <- <-. split; [done|]. unfold sorted_motors in Es.
    rewrite decide_True by (by destruct (motors_ (w_ctl w))). split; [done|].
    by intros l ?%elem_of_nil. }
  rewrite <- Es in *. rewrite decide_False by (unfold sorted_motors in Es; by intros Hm;
    rewrite Hm in Es).
  step_run H. apply (capture_counts_returned w) in E as (V1 & Hf & Hc); [|done].
  step_run H. run_keeps evolves E. step_run H. run_keeps evolves E0.
  step_run H.
  assert (Hr : round_state w a a w3).
  { split_and!; [by do 3 (etrans; [eassumption|])| |by left].
    intros p Hp. eapply counted_later; [|by apply Hc]. by etrans. }
  apply (loop_returned (fun missing s => round_state w a missing s)) in E1
    as (missing & s & Hs & E1); [| |done].
  2:{ intros x s x' s' Hx Ex. exact (feedback_round_state _ _ _ _ _ _ _ _ Hx Ex). }
  pose proof (feedback_round_state _ _ _ _ _ _ _ _ Hs E1) as Hfin.
  destruct a2 as [missing_|what]; [|by step_run H; injection H as <- _].
  step_run H. assert (K5 : evolves w4 w5)
    by (eapply keeps_returned; [apply motor_ids_evolves|exact E2]).
  step_run H. run_keeps evolves E3. injection H as <- <-.
  apply classify_ok in Hok as [-> Hcon]. apply motor_ids_nil in E2 as ->.
  split; [unfold classify; by destruct (_ || _)|]. split.
  { unfold classify, make_report. destruct (_ || _); simpl; unfold count_of, u32, wrap;
      rewrite Z.sub_0_r; by rewrite Z.mod_mod. }
  intros l Hl. rewrite <- Hf in Hl. apply list_elem_of_fmap in Hl as ([l' c] & -> & Hp).
  destruct Hfin as (Vw & _ & Ha). destruct (Ha _ Hp) as [Hn|Harr]; [by apply elem_of_nil in Hn|].
  eapply arrived_later in Harr as (m & Hm & Hfs); [|exact Vw|by etrans]. by exists m.
Qed.

End FeedbackTheorem.

Lemma request_feedback_all_fresh_witness :
  exists report w' m,
    request_feedback_all_report (Env := answering [idle_feedback]) 40 (ms 10) sample_world =
      (Returned report, w') /\ rep_status report = Ok /\
    w_store w' !! 0%nat = Some m /\ felt_since sample_world m.
Proof.
  destruct (request_feedback_all_report (Env := answering [idle_feedback]) 40 (ms 10) sample_world)
    as [[report|e| |] w'] eqn:R;
    try (exfalso; apply (f_equal fst) in R; vm_compute in R; discriminate).
  assert (Hok : rep_status report = Ok).
  { apply (f_equal fst) in R. vm_compute in R. injection R as <-. reflexivity. }
  destruct (request_feedback_all_fresh 40 (ms 10) sample_world report w' R Hok) as (_ & _ & H).
  destruct (H 0%nat) as (m & Hm & Hf); [left|].
  exists report, w', m. split_and!; [reflexivity|exact Hok|exact Hm|exact Hf].
Defined.

(** ** Batches send exactly their commands, in order *)

Section Batches.
Context {Env : Environment}.

(** [send] transmits the one frame that [frame] computes from the handle's
    identity, or nothing. *)
Record sends_one (send : nat -> M World unit) (frame : MotorHandle -> option CanFrame) : Prop := {
  so_evolves : forall l, keeps evolves (send l);
  so_stable : forall c m m', moves_on c m m' -> frame m' = frame m;
  so_returned : forall l w u w', send l w = (Returned u, w') ->
    exists m f, w_store w' !! l = Some m /\ frame m = Some f /\ w_sent w' = w_sent w ++ [f];
  so_thrown : forall l w e w', send l w = (Thrown e, w') -> w_sent w' = w_sent w
}.

Lemma read_handle_no_throw {A} l (f : MotorHandle -> A) w e w' :
  read_handle l f w = (Thrown e, w') -> False.
Proof. unfold read_handle, atomic. by destruct (_ !! l). Qed.

Lemma bus_send_thrown frame w e w' : bus_send frame w = (Thrown e, w') -> w_sent w' = w_sent w.
Proof.
  intros H. destruct (bus_send_cases frame w) as [(w1 & E & _)|(e1 & w1 & E & Hs)]; congruence.
Qed.

Lemma read_then_send {A} l (f : MotorHandle -> A) (k : A -> CanFrame) w o w' :
  (do a <- read_handle l f; bus_send (k a)) w = (o, w') ->
  (forall u, o = Returned u ->
     exists m, w_store w' !! l = Some m /\ exists m0 c, moves_on c m0 m /\
       w_sent w' = w_sent w ++ [k (f m0)]) /\
  (forall e, o = Thrown e -> w_sent w' = w_sent w).
Proof.
  intros H. split; intros x ->.
  - step_run H. run_keeps quiet E. run_keeps evolves H.
    apply read_handle_returned in E as (m & Hm & ->). apply bus_send_returned in H.
    destruct (ev_store _ _ K0 _ _ Hm) as (m' & Hm' & M). exists m'. split; [done|].
    exists m, (w_clock w0). split; [done|]. unfold quiet in *. congruence.
  - apply bind_thrown in H as [H|(a & w1 & E & H)]; [by apply read_handle_no_throw in H|].
    run_keeps quiet E. apply bus_send_thrown in H. unfold quiet in *. congruence.
Qed.

Definition mit_data (c : MitBatchCommand) (m : MotorHandle) : option (list Z) :=
  encode_mit_command (mit_pos c) (mit_vel c) (mit_tau c) (mit_kp c) (mit_kd c) (limits_ m).

Definition mit_frame (c : MitBatchCommand) (m : MotorHandle) : option CanFrame :=
  match mit_data c m with Some data => Some (can_frame (motor_id_ m) data) | None => None end.

Definition pos_vel_frame (c : PosVelBatchCommand) (m : MotorHandle) : option CanFrame :=
  Some (can_frame (u32 (0x100 + motor_id_ m))
    (encode_position_velocity_command (pv_pos c) (pv_velocity_limit c))).

Lemma send_mit_sends_one c :
  sends_one (fun l => send_mit l (mit_pos c) (mit_vel c) (mit_kp c) (mit_kd c) (mit_tau c))
            (mit_frame c).
Proof.
  split.
  - intros l. apply send_mit_evolves.
  - intros t m m' M. unfold mit_frame, mit_data. by destruct M as [-> _ _ -> _ _].
  - intros l w u w' H. unfold send_mit in H. step_run H. run_keeps quiet E. run_keeps evolves H.
    apply read_handle_returned in E as (m1 & Hm1 & ->). step_run H. run_keeps evolves H.
    destruct (encode_mit_command _ _ _ _ _ (limits_ m1)) as [data|] eqn:Ed; [|done].
    simpl in E. injection E as <- <-. apply read_then_send in H as [H _].
    destruct (H u eq_refl) as (m & Hm & m0 & c0 & M & Hs).
    destruct (ev_store _ _ K1 _ _ Hm1) as (m2 & Hm2 & M2).
    assert (m2 = m) as -> by congruence. exists m.
    exists (can_frame (motor_id_ m) data). split_and!; [done| |].
    + unfold mit_frame, mit_data. rewrite (mo_limits _ _ _ M2). by rewrite Ed.
    + unfold quiet in *. rewrite Hs, (mo_motor_id _ _ _ M). congruence.
  - intros l w e w' H. unfold send_mit in H.
    apply bind_thrown in H as [H|(lim & w1 & E & H)]; [by apply read_handle_no_throw in H|].
    run_keeps quiet E. apply bind_thrown in H as [H|(data & w2 & E2 & H)].
    { by destruct (encode_mit_command _ _ _ _ _ lim). }
    destruct (encode_mit_command _ _ _ _ _ lim); [|done]. injection E2 as _ <-.
    apply read_then_send in H as [_ H]. unfold quiet in *. rewrite (H e eq_refl). congruence.
Qed.

Lemma send_pos_vel_sends_one c :
  sends_one (fun l => send_pos_vel l (pv_pos c) (pv_velocity_limit c)) (pos_vel_frame c).
Proof.
  split.
  - intros l. apply send_pos_vel_evolves.
  - intros t m m' M. unfold pos_vel_frame. by destruct M as [-> _ _ _ _ _].
  - intros l w u w' H. apply read_then_send in H as [H _].
    destruct (H u eq_refl) as (m & Hm & m0 & c0 & M & Hs).
    eexists m, _. split_and!; [done|done|]. by rewrite Hs, (mo_motor_id _ _ _ M).
  - intros l w e w' H. apply read_then_send in H as [_ H]. by apply (H e).
Qed.

(** What a run of a command list has sent: the frames of the first [k]. *)
Definition sent_first {C} (motor : C -> option nat) (frame : C -> MotorHandle -> option CanFrame)
    (cs : list C) (k : nat) (w w' : World) : Prop :=
  exists frames, w_sent w' = w_sent w ++ frames /\
    Forall2 (fun c f => exists l m, motor c = Some l /\ w_store w' !! l = Some m /\
      frame c m = Some f) (take k cs) frames.

Context {C : Type} (motor : C -> option nat) (send : C -> nat -> M World unit)
        (frame : C -> MotorHandle -> option CanFrame)
        (Hone : forall c, sends_one (send c) (frame c)).

Lemma batch_command_evolves' c : keeps evolves (batch_command (motor c) (send c)).
Proof. apply batch_command_evolves, Hone. Qed.

Lemma owns_motor_no_throw l w e w' : owns_motor l w = (Thrown e, w') -> False.
Proof.
  unfold owns_motor. intros [H|(a & w1 & _ & H)]%bind_thrown; [by apply read_handle_no_throw in H|].
  apply bind_thrown in H as [H|(? & ? & _ & H)]; [|done]. by apply read_ctl_run in H as [? _].
Qed.

Lemma batch_command_log c w o w' :
  batch_command (motor c) (send c) w = (o, w') ->
  (forall u, o = Returned u ->
     exists l m f, motor c = Some l /\ w_store w' !! l = Some m /\ frame c m = Some f /\
       w_sent w' = w_sent w ++ [f]) /\
  (forall e, o = Thrown e -> w_sent w' = w_sent w).
Proof.
  unfold batch_command. intros H. split; intros x ->.
  - step_run H. run_keeps quiet E. destruct (motor c) as [l|]; [|done].
    step_run H. run_keeps quiet E0. destruct a0; [|done]. simpl in H.
    apply try_catch_returned in H as [H|(e1 & w2 & _ & H)].
    + apply (so_returned _ _ (Hone c)) in H as (m & f & ? & ? & Hs).
      exists l, m, f. unfold quiet in *. split_and!; try done. congruence.
    + exfalso. destruct e1; try done; by step_run H.
  - apply bind_thrown in H as [H|(label & w1 & E & H)]; [by apply read_ctl_run in H as [? _]|].
    run_keeps quiet E. unfold quiet in *.
    destruct (motor c) as [l|]; [|injection H as _ <-; congruence].
    apply bind_thrown in H as [H|(owned & w2 & E2 & H)]; [by apply owns_motor_no_throw in H|].
    run_keeps quiet E2. unfold quiet in *. destruct owned; [|injection H as _ <-; congruence].
    simpl in H. apply try_catch_thrown in H as (e1 & w3 & E3 & H).
    apply (so_thrown _ _ (Hone c)) in E3.
    assert (Hh : w_sent w' = w_sent w3); [|congruence].
    destruct e1; try (injection H as _ <-; done).
    all: apply bind_thrown in H as [H|(? & w4 & E4 & H)]; [by apply read_handle_no_throw in H|].
    all: injection H as _ <-; by run_keeps quiet E4.
Qed.

Lemma batch_log cs w o w' :
  for_each cs (fun c => batch_command (motor c) (send c)) w = (o, w') ->
  (forall u, o = Returned u -> sent_first motor frame cs (length cs) w w') /\
  (forall e, o = Thrown e ->
     exists k, (k < length cs)%nat /\ sent_first motor frame cs k w w').
Proof.
  revert w. induction cs as [|c cs IH]; intros w H; simpl in H.
  { injection H as <- <-. split; [|done]. intros u _. exists []. by rewrite app_nil_r. }
  split; intros x ->.
  - step_run H. apply batch_command_log in E as [E _].
    assert (V : evolves w0 w') by (eapply keeps_returned; [|exact H];
      pose proof batch_command_evolves'; keeps_tac).
    destruct (E _ eq_refl) as (l & m & f & Hl & Hm & Hf & Hs).
    apply IH in H as [H _]. destruct (H x eq_refl) as (frames & Hfs & Hall).
    exists (f :: frames). split; [rewrite Hfs, Hs; by rewrite <- app_assoc|].
    simpl. constructor; [|done]. destruct (ev_store _ _ V _ _ Hm) as (m' & Hm' & M).
    exists l, m'. split_and!; [done|done|]. by rewrite (so_stable _ _ (Hone c) _ _ _ M).
  - apply bind_thrown in H as [H|([] & w1 & E & H)].
    + apply batch_command_log in H as [_ H]. exists 0%nat. split; [simpl; lia|].
      exists []. rewrite app_nil_r. split; [by apply (H x)|constructor].
    + apply batch_command_log in E as [E _].
      assert (V : evolves w1 w') by (eapply keeps_returned; [|exact H];
        pose proof batch_command_evolves'; keeps_tac).
      destruct (E _ eq_refl) as (l & m & f & Hl & Hm & Hf & Hs).
      apply IH in H as [_ H]. destruct (H x eq_refl) as (k & Hk & frames & Hfs & Hall).
      exists (S k). split; [simpl; lia|]. exists (f :: frames).
      split; [rewrite Hfs, Hs; by rewrite <- app_assoc|]. simpl. constructor; [|done].
      destruct (ev_store _ _ V _ _ Hm) as (m' & Hm' & M).
      exists l, m'. split_and!; [done|done|]. by rewrite (so_stable _ _ (Hone c) _ _ _ M).
Qed.

End Batches.

Section BatchTheorems.
Context {Env : Environment}.

(** An MIT batch that returns has sent one frame per command, in order and
    nothing else, each the MIT encoding for the command's own motor; one that
    throws has sent exactly the frames of a proper prefix of its commands. *)
Theorem send_mit_batch_in_order commands w o w' :
  send_mit_batch commands w = (o, w') ->
  (o = Returned tt -> sent_first mit_motor mit_frame commands (length commands) w w') /\
  (forall e, o = Thrown e -> w_sent w' = w_sent w \/
     exists k, (k < length commands)%nat /\ sent_first mit_motor mit_frame commands k w w').
Proof.
  unfold send_mit_batch, when_open. intros H.
  assert (H' : forall c w1, read_ctl (fun c => c) w = (Returned c, w1) ->
    w_sent w1 = w_sent w) by (intros c w1 E; by run_keeps quiet E).
  split; [intros ->; apply bind_returned in H as (c & w1 & E & H)|
          intros e ->; apply bind_thrown in H as [H|(c & w1 & E & H)]];
    try (by apply read_ctl_run in H as [? _]).
  all: apply H' in E; destruct (bus_closed_ c); [try done; injection H as _ <-; by left|].
  all: apply (batch_log mit_motor _ mit_frame send_mit_sends_one) in H as [Hr Ht].
  - unfold sent_first in *. rewrite <- E. by apply (Hr tt).
  - right. unfold sent_first in *. rewrite <- E. by apply (Ht e).
Qed.

(** The same for a position-velocity batch. *)
Theorem send_pos_vel_batch_in_order commands w o w' :
  send_pos_vel_batch commands w = (o, w') ->
  (o = Returned tt -> sent_first pv_motor pos_vel_frame commands (length commands) w w') /\
  (forall e, o = Thrown e -> w_sent w' = w_sent w \/
     exists k, (k < length commands)%nat /\ sent_first pv_motor pos_vel_frame commands k w w').
Proof.
  unfold send_pos_vel_batch, when_open. intros H.
  assert (H' : forall c w1, read_ctl (fun c => c) w = (Returned c, w1) ->
    w_sent w1 = w_sent w) by (intros c w1 E; by run_keeps quiet E).
  split; [intros ->; apply bind_returned in H as (c & w1 & E & H)|
          intros e ->; apply bind_thrown in H as [H|(c & w1 & E & H)]];
    try (by apply read_ctl_run in H as [? _]).
  all: apply H' in E; destruct (bus_closed_ c); [try done; injection H as _ <-; by left|].
  all: apply (batch_log pv_motor _ pos_vel_frame send_pos_vel_sends_one) in H as [Hr Ht].
  - unfold sent_first in *. rewrite <- E. by apply (Hr tt).
  - right. unfold sent_first in *. rewrite <- E. by apply (Ht e).
Qed.

End BatchTheorems.

(** Two commands for the motor of [sample_world], the second one foreign. *)
Definition hold_command (motor : option nat) : MitBatchCommand :=
  {| mit_motor := motor; mit_pos := f32_lit 1 2; mit_vel := f32_zero; mit_kp := f32_of_Z 20;
     mit_kd := f32_of_Z 1; mit_tau := f32_zero |}.

Lemma send_mit_batch_in_order_witness :
  exists o w', send_mit_batch (Env := answering []) [hold_command (Some 0%nat); hold_command None]
      sample_world = (o, w') /\
    o = Thrown (foreign_motor "arm") /\
    (w_sent w' = w_sent sample_world \/
     exists k, (k < 2)%nat /\ sent_first mit_motor mit_frame
       [hold_command (Some 0%nat); hold_command None] k sample_world w').
Proof.
  run_to_result (send_mit_batch (Env := answering []) [hold_command (Some 0%nat); hold_command None]
      sample_world) (Thrown (A := unit) (foreign_motor "arm")) R.
  exists (Thrown (foreign_motor "arm")), w. split; [exact R|]. split; [reflexivity|].
  exact (proj2 (send_mit_batch_in_order _ _ _ _ R) _ eq_refl).
Defined.

Definition pv_command : PosVelBatchCommand :=
  {| pv_motor := Some 0%nat; pv_pos := f32_lit 1 2; pv_velocity_limit := f32_of_Z 1 |}.

Lemma send_pos_vel_batch_in_order_witness :
  exists w', send_pos_vel_batch (Env := answering []) [pv_command; pv_command] sample_world =
      (Returned tt, w') /\
    sent_first pv_motor pos_vel_frame [pv_command; pv_command] 2 sample_world w'.
Proof.
  run_to_result (send_pos_vel_batch (Env := answering []) [pv_command; pv_command] sample_world)
    (Returned tt) R.
  exists w. split; [exact R|].
  exact (proj1 (send_pos_vel_batch_in_order _ _ _ _ R) eq_refl).
Defined.

(** ** The end of a controller *)

Section Lifecycle.
Context {Env : Environment} (fuel : nat).

Definition closed_and_quiet (c : Controller) : Prop :=
  bus_closed_ c = true /\ worker_running_ c = false /\ polling_active_ c = false.

Lemma attempt_returned (m : M World unit) w u w' :
  attempt m w = (Returned u, w') -> snd (m w) = w'.
Proof.
  unfold attempt, try_catch, ret. destruct (m w) as [[?|e| |] w1]; simpl; try done;
    intros H; congruence.
Qed.

(** Everything but the receive lock's fields and the table. *)
Definition same_life (w w' : World) : Prop :=
  bus_closed_ (w_ctl w') = bus_closed_ (w_ctl w) /\
  worker_running_ (w_ctl w') = worker_running_ (w_ctl w) /\
  polling_active_ (w_ctl w') = polling_active_ (w_ctl w).

#[export] Instance same_life_pre : PreOrder same_life.
Proof. split; unfold same_life; [done|]. intros ??? (?&?&?) (?&?&?). split_and!; congruence. Qed.

Lemma same_table_life {A} (m : M World A) : keeps same_table m -> keeps same_life m.
Proof. intros H w. specialize (H w). unfold same_life. by rewrite H. Qed.

Lemma poll_feedback_once_life : keeps same_life (poll_feedback_once fuel).
Proof.
  assert (Hu : forall h n, keeps same_life (update_ctl (fun c => set_receive (h c) (n c) c))).
  { intros h n w. destruct (update_ctl _ w) as [o w'] eqn:E.
    apply update_ctl_run in E as [_ E]. unfold same_life. simpl. by rewrite E. }
  assert (Hp : keeps same_life poll_step) by (apply same_table_life; keeps_tac).
  unfold poll_feedback_once, lock_receive, unlock_receive.
  repeat first [apply Hu | exact Hp | keeps_step].
Qed.

Lemma disable_life l : keeps same_life (disable l).
Proof.
  apply same_table_life. unfold disable, send_to_motor, send_raw. keeps_tac.
Qed.

Lemma disable_all_life : keeps same_life (disable_all fuel).
Proof.
  pose proof disable_life as Hd. pose proof poll_feedback_once_life as Hp.
  assert (Hr : forall A (f : Controller -> A), keeps same_life (read_ctl f))
    by (intros; apply same_table_life; keeps_tac).
  assert (Hs : forall ns, keeps same_life (sleep_for ns))
    by (intros; apply same_table_life; keeps_tac).
  unfold disable_all, motors_now. apply keeps_bind; [exact _|done|]. intros motors.
  induction motors as [|l [|l2 rest] IH]; simpl; [keeps_tac| |]; unfold attempt in *; keeps_tac.
Qed.

Lemma stop_polling_run w o w' :
  stop_polling w = (o, w') -> o = Returned tt /\
    bus_closed_ (w_ctl w') = bus_closed_ (w_ctl w) /\
    worker_running_ (w_ctl w') = false /\ polling_active_ (w_ctl w') = false.
Proof.
  unfold stop_polling, bind. destruct (update_ctl _ w) as [o1 w1] eqn:E1.
  apply update_ctl_run in E1 as [-> E1]. intros E2. apply update_ctl_run in E2 as [-> E2].
  rewrite E2, E1. done.
Qed.

Lemma bus_shutdown_life : keeps same_life bus_shutdown.
Proof.
  apply same_table_life. unfold bus_shutdown.
  apply keeps_bind; [exact _|by apply keeps_atomic_table|]. intros r. keeps_tac.
Qed.

Lemma when_open_closed body w :
  bus_closed_ (w_ctl w) = true ->
  exists w', when_open body w =
    (Thrown (RuntimeError (endpoint_label_ (w_ctl w) ++ " is closed")%string), w') /\
    w_sent w' = w_sent w.
Proof.
  intros Hc. unfold when_open. destruct (read_ctl (fun c => c) w) as [o w1] eqn:E.
  run_keeps quiet E. pose proof E as E'. apply read_ctl_run in E' as [-> _].
  rewrite (bind_run _ _ _ _ _ E), Hc. by exists w1.
Qed.

Lemma shutdown_open_run w w' :
  shutdown fuel w = (Returned tt, w') -> bus_closed_ (w_ctl w) = false ->
  closed_and_quiet (w_ctl w').
Proof.
  unfold shutdown. intros H Hc. step_run H. apply read_ctl_run in E as [[= ->] Ew].
  rewrite Hc in H. step_run H. step_run H. step_run H.
  apply stop_polling_run in E as (_ & _ & Hw & Hp).
  assert (L1 : same_life w1 w2).
  { apply attempt_returned in E0. rewrite <- E0. apply disable_all_life. }
  assert (L2 : same_life w2 w3) by (eapply keeps_returned; [apply bus_shutdown_life|exact E1]).
  apply update_ctl_run in H as [_ H]. unfold closed_and_quiet. rewrite H. simpl.
  destruct L1 as (_ & A1 & B1). destruct L2 as (_ & A2 & B2). split_and!; congruence.
Qed.

(** After a [shutdown] that returns, the controller is sealed: the receive
    worker has been joined, and every later batch throws without sending a
    single frame. *)
Theorem shutdown_seals w w' mits pvs :
  shutdown fuel w = (Returned tt, w') -> bus_closed_ (w_ctl w) = false ->
  closed_and_quiet (w_ctl w') /\
  (exists e w1, send_mit_batch mits w' = (Thrown (RuntimeError e), w1) /\ w_sent w1 = w_sent w') /\
  (exists e w1, send_pos_vel_batch pvs w' = (Thrown (RuntimeError e), w1) /\
     w_sent w1 = w_sent w').
Proof.
  intros H Hc. pose proof (shutdown_open_run _ _ H Hc) as HC.
  split; [done|]. destruct HC as (Hcl & _).
  split; [destruct (when_open_closed (for_each mits (fun command =>
    batch_command (mit_motor command) (fun l =>
      send_mit l (mit_pos command) (mit_vel command) (mit_kp command) (mit_kd command)
        (mit_tau command)))) w' Hcl) as (w1 & E & Hs)
    |destruct (when_open_closed (for_each pvs (fun command =>
    batch_command (pv_motor command) (fun l =>
      send_pos_vel l (pv_pos command) (pv_velocity_limit command)))) w' Hcl) as (w1 & E & Hs)].
  all: eexists _, w1; split; [exact E|done].
Qed.

(** A closed controller can be reopened by accident: adding a motor to it
    starts a new receive worker, and its destructor, which returns at once
    because the bus is closed, leaves that worker running, a joinable thread
    whose destruction terminates the process. *)
Theorem closed_controller_restarts_worker motor_id feedback_id model w l w' :
  bus_closed_ (w_ctl w) = true -> polling_active_ (w_ctl w) = false ->
  add_damiao_motor motor_id feedback_id model w = (Returned l, w') ->
  worker_running_ (w_ctl w') = true /\
  exists w'', destroy_Controller w' = (Returned tt, w'') /\
    worker_running_ (w_ctl w'') = true.
Proof.
  intros Hc Hp H. unfold add_damiao_motor in H.
  apply bind_returned in H as (m & w0 & [_ ->]%of_outcome_returned & H).
  apply bind_returned in H as (l1 & w1 & E1%alloc_handle_returned & H).
  apply bind_returned in H as (c & w2 & [[= ->] E2]%read_ctl_run & H).
  destruct (discovery_finalized_ _); [done|]. destruct (omap_find _ _); [done|].
  apply bind_returned in H as (u3 & w3 & [_ E3]%update_ctl_run & H).
  apply bind_returned in H as (u4 & w4 & E4 & H).
  apply (fun E => table_run _ _ _ _ E set_default_tx_gap_table) in E4.
  apply bind_returned in H as (u5 & w5 & [_ E5]%update_ctl_run & [= <- <-]).
  assert (Hrun : worker_running_ (w_ctl w5) = true /\ bus_closed_ (w_ctl w5) = true).
  { rewrite E5, E4, E3. simpl. rewrite E2, E1, Hp. simpl. done. }
  destruct Hrun as [Hr Hcl]. split; [done|].
  unfold destroy_Controller, close_bus, attempt, try_catch.
  destruct (read_ctl bus_closed_ w5) as [o w6] eqn:Er. pose proof Er as Er'.
  apply read_ctl_run in Er' as [-> Hc6]. rewrite (bind_run _ _ _ _ _ Er), Hcl.
  exists w6. split; [done|]. by rewrite Hc6.
Qed.

End Lifecycle.

Lemma shutdown_seals_witness :
  exists w' e w1, shutdown (Env := answering []) 20 sample_world = (Returned tt, w') /\
    closed_and_quiet (w_ctl w') /\
    send_mit_batch (Env := answering []) [hold_command (Some 0%nat)] w' =
      (Thrown (RuntimeError e), w1) /\ w_sent w1 = w_sent w'.
Proof.
  run_to_result (shutdown (Env := answering []) 20 sample_world) (Returned tt) R.
  destruct (shutdown_seals 20 sample_world w [hold_command (Some 0%nat)] [] R eq_refl)
    as (H1 & (e & w1 & H2 & H3) & _).
  exists w, e, w1. split; [exact R|]. split; [exact H1|]. split; [exact H2|exact H3].
Defined.

Lemma closed_controller_restarts_worker_witness :
  let closed := snd (close_bus (Env := answering []) empty_world) in
  exists l w' w'', add_damiao_motor (Env := answering []) 3 0x13 "4340P" closed = (Returned l, w') /\
    destroy_Controller (Env := answering []) w' = (Returned tt, w'') /\
    worker_running_ (w_ctl w'') = true.
Proof.
  intros closed.
  destruct (add_damiao_motor (Env := answering []) 3 0x13 "4340P" closed) as [[l|e| |] w'] eqn:R;
    try (exfalso; apply (f_equal fst) in R; vm_compute in R; discriminate).
  destruct (closed_controller_restarts_worker 3 0x13 "4340P" closed l w' eq_refl eq_refl R)
    as (_ & w'' & H1 & H2).
  exists l, w', w''. split; [reflexivity|]. split; [exact H1|exact H2].
Defined.
