(* ===== verification/ControllerGroup.v ===== *)
(** * Several controllers, one call

    [damiao::ControllerGroup] of [motor/src/runtime.cpp]: one persistent worker
    per controller.  A dispatch sorts the commands by owner, publishes a new
    generation and waits until every worker has run its share.  The workers'
    and the dispatcher's critical sections are the steps of a transition
    system, so every interleaving is covered; each controller has a world of
    its own, touched by its worker alone. *)

From S2P Require Import Prelude Float32 Protocol CanBus MotorHandle World MotorOps Controller.
#[local] Open Scope mdl_scope.

Definition kMaximumBatchCommands : nat := 32.

Inductive TaskKind := Mit | PosVel.

Definition kind_name (k : TaskKind) : string :=
  match k with Mit => "MIT" | PosVel => "POS_VEL" end.

(** A motor pointer: a handle of one of the controllers. *)
Definition pointer : Type := nat * nat.

(** A command of a batch, with the pointer it carries. *)
Record GroupCommand (C : Type) := {
  gc_motor : option pointer;
  gc_command : C
}.
Arguments gc_motor {C}.
Arguments gc_command {C}.

(** [controllers_[i]->owns_motor(motor)]. *)
Definition group_owns (worlds : list World) (i : nat) (p : pointer) : bool :=
  bool_decide (fst p = i) &&
  match worlds !! i with
  | Some w => match w_store w !! snd p with
              | Some m => bool_decide (omap_find (motor_id_ m) (motors_ (w_ctl w)) = Some (snd p))
              | None => false
              end
  | None => false
  end.

(** The first controller, in order, that owns the motor. *)
Fixpoint first_owner (worlds : list World) (indices : list nat) (p : pointer) : option nat :=
  match indices with
  | [] => None
  | i :: rest => if group_owns worlds i p then Some i else first_owner worlds rest p
  end.

Section Partition.
Context {C : Type} (kind : TaskKind) (worlds : list World).

Definition refuse {A} (text : string) : M (list (list (GroupCommand C))) A :=
  throw (InvalidArgument (kind_name kind ++ text)%string).

(** The loop over the commands; [unique] is the pointers seen so far. *)
Fixpoint partition_from (commands : list (GroupCommand C)) (unique : list pointer)
    : M (list (list (GroupCommand C))) unit :=
  match commands with
  | [] => ret tt
  | command :: rest =>
      match gc_motor command with
      | None => refuse " batch contains a null motor"
      | Some p =>
          if bool_decide (p ∈ unique) then refuse " batch contains a duplicate motor"
          else match first_owner worlds (seq 0 (length worlds)) p with
          | None => refuse " batch contains a foreign motor"
          | Some i =>
              do batches <- gets (fun b => b);
              let batch := default [] (batches !! i) in
              if (kMaximumBatchCommands <=? length batch)%nat then
                refuse " controller batch is full"
              else
                modify (fun b => <[i := batch ++ [command]]> b) ;;;
                partition_from rest (p :: unique)
          end
      end
  end.

Definition partition (commands : list (GroupCommand C)) : M (list (list (GroupCommand C))) unit :=
  if (kMaximumBatchCommands <? length commands)%nat then refuse " batch exceeds fixed capacity"
  else partition_from commands [].

(** What every controller is to send: the commands it owns, in order. *)
Definition owner_of (c : GroupCommand C) : option nat :=
  match gc_motor c with
  | Some p => first_owner worlds (seq 0 (length worlds)) p
  | None => None
  end.

Definition share (commands : list (GroupCommand C)) (i : nat) : list (GroupCommand C) :=
  filter (fun c => owner_of c = Some i) commands.

Lemma partition_from_returned commands unique b b' :
  length b = length worlds ->
  partition_from commands unique b = (Returned tt, b') ->
  length b' = length b /\
  (forall i, (i < length worlds)%nat ->
     default [] (b' !! i) = default [] (b !! i) ++ share commands i) /\
  NoDup (map gc_motor commands) /\
  (forall c, c ∈ commands -> exists p, gc_motor c = Some p /\ p ∉ unique /\
     exists i, first_owner worlds (seq 0 (length worlds)) p = Some i).
Proof.
  revert unique b. induction commands as [|c rest IH]; intros unique b Hl H; cbn [partition_from] in H.
  { injection H as <-. split_and!; [done| |constructor|by intros c ?%elem_of_nil].
    intros i _. by rewrite app_nil_r. }
  destruct (gc_motor c) as [p|] eqn:Ep; [|done].
  destruct (bool_decide (p ∈ unique)) eqn:Eu; [done|]. apply bool_decide_eq_false in Eu.
  destruct (first_owner worlds _ p) as [o|] eqn:Eo; [|done].
  apply bind_returned in H as (b0 & b1 & [= <- <-] & H).
  destruct (kMaximumBatchCommands <=? _)%nat; [done|].
  apply bind_returned in H as (u & b2 & E & H).
  assert (b2 = <[o := default [] (b !! o) ++ [c]]> b) as -> by (unfold modify in E; congruence).
  apply IH in H as (L & S & N & A); [|by rewrite length_insert].
  rewrite length_insert in L. split_and!; [done| | |].
  - intros i Hi. rewrite (S i Hi). unfold share at 2. rewrite filter_cons.
    assert (Ho : owner_of c = Some o) by (unfold owner_of; by rewrite Ep).
    destruct (decide (o = i)) as [->|Hne].
    + rewrite list_lookup_insert_eq by lia. rewrite decide_True by done. simpl.
      fold (share rest i). by rewrite <- app_assoc.
    + rewrite list_lookup_insert_ne by done. by rewrite decide_False by congruence.
  - simpl. constructor; [|done]. rewrite Ep. intros Hin.
    apply list_elem_of_fmap in Hin as (c' & Hc' & Hin).
    destruct (A c' Hin) as (p' & Hp' & Hn & _).
    assert (p' = p) as -> by congruence. apply Hn. by left.
  - intros c' [->|Hc']%elem_of_cons; [by exists p; eauto|].
    destruct (A c' Hc') as (p' & Hp' & Hn & Ho). exists p'. split_and!; [done| |done].
    intros ?. apply Hn. by right.
Qed.

End Partition.

(** ** The group *)

Inductive Task :=
| MitTask (commands : list (GroupCommand MitBatchCommand))
| PosVelTask (commands : list (GroupCommand PosVelBatchCommand)).

(** What a worker copies under the lock. *)
Inductive WorkerJob :=
| MitJob (batch : list (GroupCommand MitBatchCommand))
| PosVelJob (batch : list (GroupCommand PosVelBatchCommand)).

Record Worker := {
  wk_seen_generation : Z;
  wk_job : option WorkerJob
}.

Record Group := {
  g_worlds : list World;
  g_workers : list Worker;
  g_stopping : bool;
  g_generation : Z;
  g_completed : nat;
  g_kind : TaskKind;
  g_mit_batches : list (list (GroupCommand MitBatchCommand));
  g_pos_vel_batches : list (list (GroupCommand PosVelBatchCommand));
  g_errors : list string
}.

(** The constructor, for controllers named by distinct indices. *)
Definition make_Group (controllers : list (option nat)) (worlds : list World) : outcome Group :=
  match controllers with
  | [] => Thrown (InvalidArgument "controller group requires at least one controller")
  | _ :: _ =>
      let fix scan (cs : list (option nat)) (seen : list nat) : outcome unit :=
        match cs with
        | [] => Returned tt
        | None :: _ => Thrown (InvalidArgument "controller group contains a null controller")
        | Some c :: rest =>
            if bool_decide (c ∈ seen) then
              Thrown (InvalidArgument "controller group contains a duplicate controller")
            else scan rest (c :: seen)
        end in
      match scan controllers [] with
      | Returned _ =>
          let n := length worlds in
          Returned {| g_worlds := worlds;
             g_workers := replicate n {| wk_seen_generation := 0; wk_job := None |};
             g_stopping := false; g_generation := 0; g_completed := 0; g_kind := Mit;
             g_mit_batches := replicate n []; g_pos_vel_batches := replicate n [];
             g_errors := replicate n ""%string |}
      | Thrown e => Thrown e
      | Undefined => Undefined
      | Unfinished => Unfinished
      end
  end.

(** A new generation. *)
Definition publish (kind : TaskKind) (mit : list (list (GroupCommand MitBatchCommand)))
    (pv : list (list (GroupCommand PosVelBatchCommand))) (g : Group) : Group :=
  {| g_worlds := g_worlds g; g_workers := g_workers g; g_stopping := g_stopping g;
     g_generation := u64 (g_generation g + 1); g_completed := 0; g_kind := kind;
     g_mit_batches := mit; g_pos_vel_batches := pv;
     g_errors := replicate (length (g_errors g)) ""%string |}.

Definition set_batches (mit : list (list (GroupCommand MitBatchCommand)))
    (pv : list (list (GroupCommand PosVelBatchCommand))) (g : Group) : Group :=
  {| g_worlds := g_worlds g; g_workers := g_workers g; g_stopping := g_stopping g;
     g_generation := g_generation g; g_completed := g_completed g; g_kind := g_kind g;
     g_mit_batches := mit; g_pos_vel_batches := pv; g_errors := g_errors g |}.

(** The critical section of [dispatch_mit] and [dispatch_pos_vel].  When the
    partition throws, the half-filled batches stay until the next dispatch
    resets them, and no generation is published. *)
Definition dispatch_begin (t : Task) (g : Group) : outcome unit * Group :=
  match t with
  | MitTask commands =>
      let reset := map (fun _ => []) (g_mit_batches g) in
      match partition Mit (g_worlds g) commands reset with
      | (Returned _, batches) => (Returned tt, publish Mit batches (g_pos_vel_batches g) g)
      | (o, batches) => (o, set_batches batches (g_pos_vel_batches g) g)
      end
  | PosVelTask commands =>
      let reset := map (fun _ => []) (g_pos_vel_batches g) in
      match partition PosVel (g_worlds g) commands reset with
      | (Returned _, batches) => (Returned tt, publish PosVel (g_mit_batches g) batches g)
      | (o, batches) => (o, set_batches (g_mit_batches g) batches g)
      end
  end.

Definition set_worker (i : nat) (k : Worker) (g : Group) : Group :=
  {| g_worlds := g_worlds g; g_workers := <[i := k]> (g_workers g); g_stopping := g_stopping g;
     g_generation := g_generation g; g_completed := g_completed g; g_kind := g_kind g;
     g_mit_batches := g_mit_batches g; g_pos_vel_batches := g_pos_vel_batches g;
     g_errors := g_errors g |}.

Definition job_of (g : Group) (i : nat) : WorkerJob :=
  match g_kind g with
  | Mit => MitJob (default [] (g_mit_batches g !! i))
  | PosVel => PosVelJob (default [] (g_pos_vel_batches g !! i))
  end.

(** A worker wakes up to a generation it has not seen. *)
Definition worker_start (i : nat) (g : Group) : option Group :=
  match g_workers g !! i with
  | Some k =>
      if g_stopping g then None
      else match wk_job k with
      | Some _ => None
      | None =>
          if wk_seen_generation k =? g_generation g then None
          else Some (set_worker i {| wk_seen_generation := g_generation g;
                                     wk_job := Some (job_of g i) |} g)
      end
  | None => None
  end.

Definition local_mit (c : GroupCommand MitBatchCommand) : MitBatchCommand :=
  let r := gc_command c in
  {| mit_motor := match gc_motor c with Some p => Some (snd p) | None => None end;
     mit_pos := mit_pos r; mit_vel := mit_vel r; mit_kp := mit_kp r; mit_kd := mit_kd r;
     mit_tau := mit_tau r |}.

Definition local_pos_vel (c : GroupCommand PosVelBatchCommand) : PosVelBatchCommand :=
  let r := gc_command c in
  {| pv_motor := match gc_motor c with Some p => Some (snd p) | None => None end;
     pv_pos := pv_pos r; pv_velocity_limit := pv_velocity_limit r |}.

(** Runs the job on the controller and turns an exception into its text. *)
Definition run_job (env : Environment) (job : WorkerJob) (w : World) : outcome string * World :=
  let result := match job with
                | MitJob batch => send_mit_batch (Env := env) (map local_mit batch) w
                | PosVelJob batch => send_pos_vel_batch (Env := env) (map local_pos_vel batch) w
                end in
  match result with
  | (Returned _, w') => (Returned ""%string, w')
  | (Thrown e, w') => (Returned (error_text "unknown native exception" e), w')
  | (Undefined, w') => (Undefined, w')
  | (Unfinished, w') => (Unfinished, w')
  end.

Section Steps.
Context (envs : nat -> Environment).

(** A worker runs its job and reports. *)
Definition worker_finish (i : nat) (g : Group) : option Group :=
  match g_workers g !! i, g_worlds g !! i with
  | Some k, Some w =>
      match wk_job k with
      | None => None
      | Some job =>
          match run_job (envs i) job w with
          | (Returned error, w') =>
              Some {| g_worlds := <[i := w']> (g_worlds g);
                      g_workers := <[i := {| wk_seen_generation := wk_seen_generation k;
                                             wk_job := None |}]> (g_workers g);
                      g_stopping := g_stopping g; g_generation := g_generation g;
                      g_completed := S (g_completed g); g_kind := g_kind g;
                      g_mit_batches := g_mit_batches g;
                      g_pos_vel_batches := g_pos_vel_batches g;
                      g_errors := <[i := error]> (g_errors g) |}
          | _ => None
          end
      end
  | _, _ => None
  end.

(** One step of one worker. *)
Inductive group_step (g : Group) : Group -> Prop :=
| StepStart i g' : worker_start i g = Some g' -> group_step g g'
| StepFinish i g' : worker_finish i g = Some g' -> group_step g g'.

(** The sentence [wait_and_raise] builds; [None] when nothing failed. *)
Fixpoint failure_text (errors : list string) (i : Z) (text : option string) : option string :=
  match errors with
  | [] => text
  | e :: rest =>
      failure_text rest (i + 1)
        (if str_empty e then text
         else Some (default "controller group send failed" text ++ "; controller index " ++
                    to_string i ++ ": " ++ e)%string)
  end.

(** The dispatcher leaves its wait when every worker has completed. *)
Definition wait_and_raise (g : Group) : option (outcome unit) :=
  if (g_completed g =? length (g_workers g))%nat then
    Some (match failure_text (g_errors g) 0 None with
          | Some text => Thrown (RuntimeError text)
          | None => Returned tt
          end)
  else None.

(** *** Sleeping and waking

    The same steps with the two condition variables.  A worker is awake (it runs
    its job, or is about to take [state_mutex_] and to look at its predicate),
    asleep in [start_cv_.wait], or has reported and not yet called
    [done_cv_.notify_one].  The dispatcher has published and not yet called
    [start_cv_.notify_all], looks at its predicate, is asleep in
    [done_cv_.wait], or has left it with its outcome.  Nobody wakes up unless
    notified. *)
Inductive WorkerPhase := Awake | Asleep | Reporting.
Inductive DispatcherPhase := Announcing | Testing | Blocked | Gone (o : outcome unit).

Record Waiting := {
  wt_group : Group;
  wt_workers : list WorkerPhase;
  wt_dispatcher : DispatcherPhase
}.

(** [start_cv_.wait]: with the mutex, the worker takes a new generation or goes
    to sleep. *)
Definition worker_test (i : nat) (c : Waiting) : option Waiting :=
  match wt_workers c !! i, g_workers (wt_group c) !! i with
  | Some Awake, Some k =>
      if g_stopping (wt_group c) then None
      else match wk_job k, worker_start i (wt_group c) with
      | Some _, _ => None
      | None, Some g => Some (Build_Waiting g (wt_workers c) (wt_dispatcher c))
      | None, None =>
          Some (Build_Waiting (wt_group c) (<[i := Asleep]> (wt_workers c)) (wt_dispatcher c))
      end
  | _, _ => None
  end.

Definition worker_complete (i : nat) (c : Waiting) : option Waiting :=
  match wt_workers c !! i, worker_finish i (wt_group c) with
  | Some Awake, Some g => Some (Build_Waiting g (<[i := Reporting]> (wt_workers c)) (wt_dispatcher c))
  | _, _ => None
  end.

(** [done_cv_.notify_one()]. *)
Definition worker_notify (i : nat) (c : Waiting) : option Waiting :=
  match wt_workers c !! i with
  | Some Reporting =>
      Some (Build_Waiting (wt_group c) (<[i := Awake]> (wt_workers c))
              (match wt_dispatcher c with Blocked => Testing | d => d end))
  | _ => None
  end.

Definition woken (p : WorkerPhase) : WorkerPhase := match p with Asleep => Awake | p => p end.

(** [start_cv_.notify_all()]. *)
Definition dispatcher_announce (c : Waiting) : option Waiting :=
  match wt_dispatcher c with
  | Announcing => Some (Build_Waiting (wt_group c) (map woken (wt_workers c)) Testing)
  | _ => None
  end.

(** [done_cv_.wait]. *)
Definition dispatcher_test (c : Waiting) : option Waiting :=
  match wt_dispatcher c with
  | Testing => Some (Build_Waiting (wt_group c) (wt_workers c)
      (match wait_and_raise (wt_group c) with Some o => Gone o | None => Blocked end))
  | _ => None
  end.

Inductive waiting_step (c : Waiting) : Waiting -> Prop :=
| WaitTest i c' : worker_test i c = Some c' -> waiting_step c c'
| WaitComplete i c' : worker_complete i c = Some c' -> waiting_step c c'
| WaitNotify i c' : worker_notify i c = Some c' -> waiting_step c c'
| WaitAnnounce c' : dispatcher_announce c = Some c' -> waiting_step c c'
| WaitCheck c' : dispatcher_test c = Some c' -> waiting_step c c'.

End Steps.

(** ** Counting workers *)

Section Counting.
Context {A : Type} (P : A -> bool).

Definition count (l : list A) : nat := length (filter (fun x => P x = true) l).

Lemma count_cons x l : count (x :: l) = ((if P x then 1 else 0) + count l)%nat.
Proof. unfold count. rewrite filter_cons. by destruct (P x); case_decide. Qed.

Lemma count_insert l i x y :
  l !! i = Some x ->
  (count (<[i := y]> l) + (if P x then 1 else 0) = count l + (if P y then 1 else 0))%nat.
Proof.
  revert i. induction l as [|z l IH]; intros [|i] H; try done; simpl in H.
  - injection H as ->. simpl. rewrite !count_cons. lia.
  - change (<[S i := y]> (z :: l)) with (z :: <[i := y]> l).
    rewrite !count_cons. specialize (IH i H). lia.
Qed.

Lemma count_le l : (count l <= length l)%nat.
Proof. induction l as [|x l IH]; [done|]. rewrite count_cons. simpl. destruct (P x); lia. Qed.

Lemma count_full l : count l = length l -> forall x, x ∈ l -> P x = true.
Proof.
  induction l as [|z l IH]; intros H x Hx; [by apply elem_of_nil in Hx|].
  rewrite count_cons in H. simpl in H. pose proof (count_le l).
  destruct (P z) eqn:Ez; [|lia].
  apply elem_of_cons in Hx as [->|Hx]; [done|]. apply IH; [lia|done].
Qed.

Lemma count_zero l : (forall x, x ∈ l -> P x = false) -> count l = 0%nat.
Proof.
  induction l as [|z l IH]; intros H; [done|]. rewrite count_cons, (H z) by left.
  simpl. apply IH. intros x ?. apply H. by right.
Qed.

Lemma count_all l : (forall x, x ∈ l -> P x = true) -> count l = length l.
Proof.
  induction l as [|z l IH]; intros H; [done|]. rewrite count_cons, (H z) by left.
  simpl. f_equal. apply IH. intros x ?. apply H. by right.
Qed.

End Counting.

(** ** One dispatch, every interleaving *)

(** Between dispatches: every worker has seen the current generation and holds
    no job. *)
Record group_idle (g : Group) : Prop := {
  gi_open : g_stopping g = false;
  gi_generation : in_word 64 (g_generation g);
  gi_worlds : length (g_worlds g) = length (g_workers g);
  gi_errors : length (g_errors g) = length (g_workers g);
  gi_mit : length (g_mit_batches g) = length (g_workers g);
  gi_pos_vel : length (g_pos_vel_batches g) = length (g_workers g);
  gi_workers : forall i k, g_workers g !! i = Some k ->
    k = {| wk_seen_generation := g_generation g; wk_job := None |}
}.

(** What the controllers are asked to do. *)
Definition shared_job (worlds : list World) (t : Task) (i : nat) : WorkerJob :=
  match t with
  | MitTask commands => MitJob (share worlds commands i)
  | PosVelTask commands => PosVelJob (share worlds commands i)
  end.

Definition worker_done (generation : Z) (k : Worker) : bool :=
  (wk_seen_generation k =? generation) && match wk_job k with None => true | Some _ => false end.

Section Dispatch.
Context (envs : nat -> Environment) (worlds : list World) (jobs : nat -> WorkerJob)
        (old generation : Z) (Hnew : old <> generation).

(** Worker [i] of a dispatch under way has not started, is running its job, or
    has run it once and left its result. *)
Definition worker_state (g : Group) (i : nat) (k : Worker) : Prop :=
  (k = {| wk_seen_generation := old; wk_job := None |} /\
   g_worlds g !! i = worlds !! i /\ job_of g i = jobs i) \/
  (k = {| wk_seen_generation := generation; wk_job := Some (jobs i) |} /\
   g_worlds g !! i = worlds !! i) \/
  (k = {| wk_seen_generation := generation; wk_job := None |} /\
   exists w e w', worlds !! i = Some w /\ run_job (envs i) (jobs i) w = (Returned e, w') /\
     g_worlds g !! i = Some w' /\ g_errors g !! i = Some e).

Record dispatching (g : Group) : Prop := {
  gd_open : g_stopping g = false;
  gd_generation : g_generation g = generation;
  gd_worlds : length (g_worlds g) = length (g_workers g);
  gd_errors : length (g_errors g) = length (g_workers g);
  gd_mit : length (g_mit_batches g) = length (g_workers g);
  gd_pos_vel : length (g_pos_vel_batches g) = length (g_workers g);
  gd_workers : forall i k, g_workers g !! i = Some k -> worker_state g i k;
  gd_completed : g_completed g = count (worker_done generation) (g_workers g)
}.

Lemma worker_done_old j :
  worker_done generation {| wk_seen_generation := old; wk_job := j |} = false.
Proof. unfold worker_done. simpl. by destruct (Z.eqb_spec old generation). Qed.

Lemma worker_done_busy j :
  worker_done generation {| wk_seen_generation := generation; wk_job := Some j |} = false.
Proof. unfold worker_done. simpl. apply andb_false_r. Qed.

Lemma worker_done_idle :
  worker_done generation {| wk_seen_generation := generation; wk_job := None |} = true.
Proof. unfold worker_done. simpl. by rewrite Z.eqb_refl. Qed.

Lemma worker_start_dispatching i g g' :
  dispatching g -> worker_start i g = Some g' ->
  dispatching g' /\ exists k, g_workers g !! i = Some k /\
    k = {| wk_seen_generation := old; wk_job := None |} /\
    g' = set_worker i {| wk_seen_generation := generation; wk_job := Some (jobs i) |} g.
Proof.
  intros [Ho Hg Hw He Hm Hp Hk Hc] H. unfold worker_start in H.
  destruct (g_workers g !! i) as [k|] eqn:Ek; [|done]. rewrite Ho in H.
  destruct (wk_job k) eqn:Ej; [done|].
  destruct (Z.eqb_spec (wk_seen_generation k) (g_generation g)) as [|Hne]; [done|].
  destruct (Hk i k Ek) as [(-> & Hwi & Hj)|[(-> & _)|(-> & _)]]; try done.
  assert (g' = set_worker i {| wk_seen_generation := generation; wk_job := Some (jobs i) |} g)
    as -> by congruence.
  split; [|by eexists].
  split; simpl; rewrite ?length_insert; try done.
  - intros j kj Hj'. destruct (decide (i = j)) as [<-|Hij].
    + rewrite list_lookup_insert_eq in Hj' by (by eapply lookup_lt_Some).
      injection Hj' as <-. right. left. done.
    + rewrite list_lookup_insert_ne in Hj' by done. by apply Hk.
  - rewrite Hc. pose proof (count_insert (worker_done generation) _ _ _
      {| wk_seen_generation := generation; wk_job := Some (jobs i) |} Ek) as Hn.
    rewrite worker_done_old, worker_done_busy in Hn. lia.
Qed.

Lemma worker_finish_dispatching i g g' :
  dispatching g -> worker_finish envs i g = Some g' ->
  dispatching g' /\ exists k, g_workers g !! i = Some k /\
    k = {| wk_seen_generation := generation; wk_job := Some (jobs i) |} /\
    g_workers g' = <[i := {| wk_seen_generation := generation; wk_job := None |}]> (g_workers g).
Proof.
  intros [Ho Hg Hw He Hm Hp Hk Hc] H. unfold worker_finish in H.
  destruct (g_workers g !! i) as [k|] eqn:Ek; [|done].
  destruct (g_worlds g !! i) as [w|] eqn:Ew; [|done].
  destruct (Hk i k Ek) as [(-> & _)|[(-> & Hwi)|(-> & _)]]; try done. simpl in H.
  destruct (run_job (envs i) (jobs i) w) as [[e| | |] w'] eqn:Er; try done.
  injection H as <-. split; [|by eexists].
  split; simpl; rewrite ?length_insert; try done.
  - intros j kj Hj'. unfold worker_state. simpl. destruct (decide (i = j)) as [<-|Hij].
    + rewrite list_lookup_insert_eq in Hj' by (by eapply lookup_lt_Some).
      injection Hj' as <-. right. right. split; [done|]. exists w, e, w'.
      split_and!; [congruence|done| |]; apply list_lookup_insert_eq;
        [rewrite Hw|rewrite He]; by eapply lookup_lt_Some.
    + rewrite list_lookup_insert_ne in Hj' by done. rewrite !list_lookup_insert_ne by done.
      apply (Hk j kj Hj').
  - rewrite Hc. pose proof (count_insert (worker_done generation) _ _ _
      {| wk_seen_generation := generation; wk_job := None |} Ek) as Hn.
    rewrite worker_done_busy, worker_done_idle in Hn. lia.
Qed.

Lemma group_step_dispatching g g' :
  dispatching g -> group_step envs g g' -> dispatching g'.
Proof.
  intros Hd [i g1 H|i g1 H].
  - by apply (worker_start_dispatching i g g1).
  - by apply (worker_finish_dispatching i g g1).
Qed.

Lemma group_steps_dispatching g g' :
  dispatching g -> rtc (group_step envs) g g' -> dispatching g'.
Proof. intros Hd H. induction H; [done|]. eauto using group_step_dispatching. Qed.

(** A worker that is not done can step: it has a generation to take or a job to
    finish. *)
Lemma unfinished_worker_steps g i k :
  dispatching g -> g_workers g !! i = Some k -> worker_done generation k = false ->
  (forall w, worlds !! i = Some w -> exists e w', run_job (envs i) (jobs i) w = (Returned e, w')) ->
  (wk_job k = None /\ is_Some (worker_start i g)) \/
  exists j, wk_job k = Some j /\ exists g', worker_finish envs i g = Some g'.
Proof.
  intros Hd Ek Hn Hrun. pose proof Hd as [Ho Hg Hw He Hm Hp Hk Hc].
  destruct (lookup_lt_is_Some_2 (g_worlds g) i) as [w Ew];
    [rewrite Hw; by eapply lookup_lt_Some|].
  destruct (Hk i k Ek) as [(-> & Hwi & Hj)|[(-> & Hwi)|(-> & _)]].
  - left. split; [done|]. unfold worker_start. rewrite Ek, Ho. simpl.
    destruct (Z.eqb_spec old (g_generation g)); [congruence|by eexists].
  - right. destruct (Hrun w) as (e & w' & Er); [congruence|].
    eexists. split; [done|]. eexists. unfold worker_finish. rewrite Ek, Ew. simpl. by rewrite Er.
  - unfold worker_done in Hn. simpl in Hn. by rewrite Z.eqb_refl in Hn.
Qed.

(** A group whose dispatcher may leave its wait is idle again, and every worker
    has run its job exactly once. *)
Lemma all_done g :
  dispatching g -> in_word 64 generation -> g_completed g = length (g_workers g) ->
  group_idle g /\
  forall i w, worlds !! i = Some w -> length worlds = length (g_workers g) ->
    exists e w', run_job (envs i) (jobs i) w = (Returned e, w') /\
      g_worlds g !! i = Some w' /\ g_errors g !! i = Some e.
Proof.
  intros [Ho Hg Hw He Hm Hp Hk Hc] Hgen Hall. rewrite Hc in Hall.
  assert (Hdone : forall i k, g_workers g !! i = Some k -> worker_done generation k = true).
  { intros i k Ek. apply (count_full _ _ Hall). by eapply list_elem_of_lookup_2. }
  assert (Hthird : forall i k, g_workers g !! i = Some k ->
    k = {| wk_seen_generation := generation; wk_job := None |} /\
    exists w e w', worlds !! i = Some w /\ run_job (envs i) (jobs i) w = (Returned e, w') /\
     g_worlds g !! i = Some w' /\ g_errors g !! i = Some e).
  { intros i k Ek. pose proof (Hdone i k Ek) as Hdn. unfold worker_done in Hdn.
    destruct (Hk i k Ek) as [(-> & _)|[(-> & _)|H]]; [| |exact H]; simpl in Hdn.
    - by destruct (Z.eqb_spec old generation).
    - by rewrite andb_false_r in Hdn. }
  split.
  - split; try done; [by rewrite Hg|]. intros i k Ek. rewrite Hg. by apply (Hthird i).
  - intros i w Hwi Hl. destruct (lookup_lt_is_Some_2 (g_workers g) i) as [k Ek];
      [rewrite <- Hl; by eapply lookup_lt_Some|].
    destruct (Hthird i k Ek) as (_ & w1 & e & w' & H1 & H2 & H3 & H4).
    exists e, w'. split_and!; try done. congruence.
Qed.

End Dispatch.

Lemma u64_succ_ne z : in_word 64 z -> z <> u64 (z + 1) /\ in_word 64 (u64 (z + 1)).
Proof.
  unfold in_word, u64, wrap. intros H. split; [|apply Z.mod_pos_bound; lia].
  destruct (decide (z + 1 = 2 ^ 64)) as [E|]; [rewrite E, Z.mod_same by lia; lia|].
  rewrite Z.mod_small by lia. lia.
Qed.

(** Every batch of a partition over freshly reset batches is its share. *)
Lemma partition_returned {C} kind worlds (commands : list (GroupCommand C))
    (old b : list (list (GroupCommand C))) :
  length old = length worlds ->
  partition kind worlds commands (map (fun _ => []) old) = (Returned tt, b) ->
  length b = length worlds /\
  forall i, (i < length worlds)%nat -> default [] (b !! i) = share worlds commands i.
Proof.
  intros Hl H. unfold partition in H. destruct (_ <? _)%nat; [done|].
  apply partition_from_returned in H as (L & S & _); [|by rewrite length_map].
  rewrite length_map in L. split; [congruence|]. intros i Hi. rewrite (S i Hi).
  rewrite list_lookup_fmap. by destruct (old !! i).
Qed.

Lemma dispatch_begin_dispatching envs t g g1 :
  group_idle g -> dispatch_begin t g = (Returned tt, g1) ->
  dispatching envs (g_worlds g) (shared_job (g_worlds g) t) (g_generation g)
    (u64 (g_generation g + 1)) g1 /\
  g_workers g1 = g_workers g.
Proof.
  intros [Ho Hgen Hw He Hm Hp Hk] H.
  destruct (u64_succ_ne _ Hgen) as [Hne _].
  assert (Hzero : count (worker_done (u64 (g_generation g + 1))) (g_workers g) = 0%nat).
  { apply count_zero. intros k [i Hi]%list_elem_of_lookup_1.
    rewrite (Hk i k Hi). unfold worker_done. simpl.
    by destruct (Z.eqb_spec (g_generation g) (u64 (g_generation g + 1))). }
  destruct t as [commands|commands]; simpl in H.
  - destruct (partition Mit _ commands _) as [[[]| | |] b] eqn:Ep; try done. injection H as <-.
    apply partition_returned in Ep as [L S]; [|congruence].
    split; [|done]. split; simpl; rewrite ?length_replicate; try done; try congruence.
    intros i k Hi. left. rewrite (Hk i k Hi). split_and!; [done|done|].
    unfold job_of. simpl. rewrite S; [done|]. rewrite Hw. by eapply lookup_lt_Some.
  - destruct (partition PosVel _ commands _) as [[[]| | |] b] eqn:Ep; try done. injection H as <-.
    apply partition_returned in Ep as [L S]; [|congruence].
    split; [|done]. split; simpl; rewrite ?length_replicate; try done; try congruence.
    intros i k Hi. left. rewrite (Hk i k Hi). split_and!; [done|done|].
    unfold job_of. simpl. rewrite S; [done|]. rewrite Hw. by eapply lookup_lt_Some.
Qed.

Lemma failure_text_none errors i text :
  failure_text errors i text = None <-> text = None /\ forall e, e ∈ errors -> e = ""%string.
Proof.
  revert i text. induction errors as [|e errors IH]; intros i text; simpl.
  { split; [|by intros [-> _]]. intros ->. split; [done|]. by intros e ?%elem_of_nil. }
  rewrite IH. destruct e as [|c s]; simpl.
  - split; intros [-> H]; (split; [done|]).
    + intros e [->|?]%elem_of_cons; auto.
    + intros e ?. apply H. by right.
  - split; [by intros [? _]|]. intros [_ H]. by specialize (H (String c s) ltac:(by left)).
Qed.

(** Whatever the interleaving of the workers, a dispatch that comes to its end
    has run every controller's own commands, in order, exactly once on that
    controller and nothing else; it returns exactly when no controller reported
    an error; and it leaves the group ready for the next dispatch. *)
Theorem group_dispatch_exact envs t g g1 g2 o :
  group_idle g -> dispatch_begin t g = (Returned tt, g1) ->
  rtc (group_step envs) g1 g2 -> wait_and_raise g2 = Some o ->
  group_idle g2 /\
  (forall i w, g_worlds g !! i = Some w ->
     exists e w', run_job (envs i) (shared_job (g_worlds g) t i) w = (Returned e, w') /\
       g_worlds g2 !! i = Some w' /\ g_errors g2 !! i = Some e) /\
  (o = Returned tt <-> forall e, e ∈ g_errors g2 -> e = ""%string).
Proof.
  intros Hi Hb Hs Ho. destruct (u64_succ_ne _ (gi_generation _ Hi)) as [Hne Hin].
  destruct (dispatch_begin_dispatching envs _ _ _ Hi Hb) as [Hd Hw1].
  pose proof (group_steps_dispatching _ _ _ _ _ Hne _ _ Hd Hs) as Hd2.
  unfold wait_and_raise in Ho.
  destruct (Nat.eqb_spec (g_completed g2) (length (g_workers g2))) as [Hc|]; [|done].
  destruct (all_done _ _ _ _ _ Hne _ Hd2 Hin Hc) as [Hidle Hall].
  assert (Hlen : length (g_workers g2) = length (g_worlds g)).
  { rewrite (gi_worlds _ Hi), <- Hw1. clear -Hs Hd Hne. induction Hs as [|g1 g3 g2 H H' IH]; [done|].
    rewrite IH by (by eapply group_step_dispatching).
    destruct H as [i g' H|i g' H].
    - by destruct (worker_start_dispatching _ _ _ _ _ Hne _ _ _ Hd H) as [_ (? & _ & _ & ->)];
        simpl; rewrite length_insert.
    - destruct (worker_finish_dispatching _ _ _ _ _ _ _ _ Hd H) as [_ (? & _ & _ & ->)].
      by rewrite length_insert. }
  split_and!; [done|intros i w Hwi; by apply Hall|].
  destruct (failure_text_none (g_errors g2) 0 None) as [Hf1 Hf2]. injection Ho as <-.
  destruct (failure_text (g_errors g2) 0 None) as [text|]; split; intros H; try done.
  - by discriminate Hf2.
  - by destruct (Hf1 eq_refl).
Qed.

(** ** Nobody sleeps for ever *)

Lemma sum_list_insert (l : list nat) i x y :
  l !! i = Some x -> (sum_list (<[i := y]> l) + x = sum_list l + y)%nat.
Proof.
  revert i. induction l as [|z l IH]; intros [|i] H; try done; simpl in H.
  - injection H as ->. simpl. lia.
  - change (<[S i := y]> (z :: l)) with (z :: <[i := y]> l). specialize (IH i H). simpl. lia.
Qed.

Section Sleeping.
Context (envs : nat -> Environment) (worlds : list World) (jobs : nat -> WorkerJob)
        (old generation : Z) (Hnew : old <> generation).
Context (Hruns : forall i w, worlds !! i = Some w ->
           exists e w', run_job (envs i) (jobs i) w = (Returned e, w')).
#[local] Abbreviation under_way := (dispatching envs worlds jobs old generation).

(** Who is asleep has nothing to do, or will be notified. *)
Record waiting_ok (c : Waiting) : Prop := {
  wo_group : under_way (wt_group c);
  wo_length : length (wt_workers c) = length (g_workers (wt_group c));
  wo_running : forall i k j, g_workers (wt_group c) !! i = Some k -> wk_job k = Some j ->
    wt_workers c !! i = Some Awake;
  wo_asleep : forall i k, wt_dispatcher c <> Announcing -> wt_workers c !! i = Some Asleep ->
    g_workers (wt_group c) !! i = Some k -> wk_seen_generation k = generation;
  wo_blocked : wt_dispatcher c = Blocked ->
    g_completed (wt_group c) <> length (g_workers (wt_group c)) \/
    exists i, wt_workers c !! i = Some Reporting;
  wo_gone : forall o, wt_dispatcher c = Gone o -> wait_and_raise (wt_group c) = Some o
}.

(** What a worker may still do, in steps; the reports pay for the dispatcher
    they wake. *)
Definition worker_weight (p : WorkerPhase) (k : Worker) : nat :=
  match wk_job k with
  | Some _ => 4
  | None =>
      if wk_seen_generation k =? generation
      then match p with Reporting => 3 | Awake => 1 | Asleep => 0 end
      else match p with Reporting => 8 | Awake => 5 | Asleep => 6 end
  end.

Definition dispatcher_weight (n : nat) (d : DispatcherPhase) : nat :=
  match d with Announcing => n + 2 | Testing => 1 | Blocked | Gone _ => 0 end.

Definition steps_left (c : Waiting) : nat :=
  sum_list (zip_with worker_weight (wt_workers c) (g_workers (wt_group c))) +
  dispatcher_weight (length (wt_workers c)) (wt_dispatcher c).

(** One worker moves. *)
Lemma steps_left_worker i p k p' k' ps ks :
  ps !! i = Some p -> ks !! i = Some k ->
  (sum_list (zip_with worker_weight (<[i := p']> ps) (<[i := k']> ks)) + worker_weight p k =
   sum_list (zip_with worker_weight ps ks) + worker_weight p' k')%nat.
Proof.
  intros Hp Hk. rewrite <- insert_zip_with. apply sum_list_insert.
  by rewrite lookup_zip_with, Hp, Hk.
Qed.

(** Another completion, or a change of a worker, is not seen by a dispatcher
    that has gone: nobody is left. *)
Lemma gone_done c o i k :
  waiting_ok c -> wt_dispatcher c = Gone o -> g_workers (wt_group c) !! i = Some k ->
  worker_done generation k = true.
Proof.
  intros H Hd Hk. apply (wo_gone _ H) in Hd. unfold wait_and_raise in Hd.
  destruct (Nat.eqb_spec (g_completed (wt_group c)) (length (g_workers (wt_group c)))) as [E|]; [|done].
  rewrite (gd_completed _ _ _ _ _ _ (wo_group _ H)) in E.
  apply (count_full _ _ E). by eapply list_elem_of_lookup_2.
Qed.

Lemma worker_test_ok i c c' :
  waiting_ok c -> worker_test i c = Some c' ->
  waiting_ok c' /\ (S (steps_left c') <= steps_left c)%nat /\
  rtc (group_step envs) (wt_group c) (wt_group c').
Proof.
  intros H Ht. pose proof H as [D L R A Bl G]. unfold worker_test in Ht.
  destruct (wt_workers c !! i) as [[| |]|] eqn:Ep; try done.
  destruct (g_workers (wt_group c) !! i) as [k|] eqn:Ek; [|done].
  destruct (g_stopping _); [done|]. destruct (wk_job k) eqn:Ej; [done|].
  destruct (worker_start i (wt_group c)) as [g|] eqn:Es; injection Ht as <-.
  - pose proof (worker_start_dispatching _ _ _ _ _ Hnew _ _ _ D Es) as [D' (k0 & Hk0 & -> & ->)].
    assert (k = {| wk_seen_generation := old; wk_job := None |}) as -> by congruence.
    split; [|split].
    + split; simpl; rewrite ?length_insert; try done.
      * intros j kj jb Hj Hjob. destruct (decide (i = j)) as [<-|Hne]; [done|].
        rewrite list_lookup_insert_ne in Hj by done. by eapply R.
      * intros j kj Hd Hj Hkj. destruct (decide (i = j)) as [<-|Hne]; [congruence|].
        rewrite list_lookup_insert_ne in Hkj by done. by eapply A.
      * intros o Hd. exfalso. pose proof (gone_done _ _ _ _ H Hd Ek) as Hdone.
        by rewrite (worker_done_old old generation Hnew) in Hdone.
    + unfold steps_left. simpl. rewrite <- (list_insert_id (wt_workers c) i Awake) at 1 by done.
      pose proof (steps_left_worker i _ _ Awake
        {| wk_seen_generation := generation; wk_job := Some (jobs i) |} _ _ Ep Ek) as Hw.
      unfold worker_weight in Hw at 2 4. simpl in Hw.
      destruct (Z.eqb_spec old generation); [done|]. lia.
    + apply rtc_once. by apply (StepStart envs _ i).
  - assert (Hseen : wk_seen_generation k = generation).
    { unfold worker_start in Es. rewrite Ek, (gd_open _ _ _ _ _ _ D), Ej in Es.
      destruct (Z.eqb_spec (wk_seen_generation k) (g_generation (wt_group c))) as [E|]; [|done].
      by rewrite E, (gd_generation _ _ _ _ _ _ D). }
    split; [|split; [|done]].
    + split; simpl; rewrite ?length_insert; try done.
      * intros j kj jb Hj Hjob. destruct (decide (i = j)) as [<-|Hne]; [congruence|].
        rewrite list_lookup_insert_ne by done. by eapply R.
      * intros j kj Hd Hj Hkj. destruct (decide (i = j)) as [<-|Hne]; [congruence|].
        rewrite list_lookup_insert_ne in Hj by done. by eapply A.
      * intros Hd. destruct (Bl Hd) as [?|[j Hj]]; [by left|right]. exists j.
        rewrite list_lookup_insert_ne; [done|]. intros <-. congruence.
    + unfold steps_left. simpl. rewrite length_insert.
      rewrite <- (list_insert_id (g_workers (wt_group c)) i k) at 1 by done.
      pose proof (steps_left_worker i _ _ Asleep k _ _ Ep Ek) as Hw.
      unfold worker_weight in Hw at 2 4. rewrite Ej, Hseen, Z.eqb_refl in Hw. lia.
Qed.

Lemma worker_complete_ok i c c' :
  waiting_ok c -> worker_complete envs i c = Some c' ->
  waiting_ok c' /\ (S (steps_left c') <= steps_left c)%nat /\
  rtc (group_step envs) (wt_group c) (wt_group c').
Proof.
  intros H Ht. pose proof H as [D L R A Bl G]. unfold worker_complete in Ht.
  destruct (wt_workers c !! i) as [[| |]|] eqn:Ep; try done.
  destruct (worker_finish envs i (wt_group c)) as [g|] eqn:Es; [|done]. injection Ht as <-.
  pose proof (worker_finish_dispatching _ _ _ _ _ _ _ _ D Es) as [D' (k & Hk & -> & Hw)].
  assert (Hin : (i < length (wt_workers c))%nat) by by eapply lookup_lt_Some.
  split; [|split].
  - split; simpl; rewrite ?length_insert, ?Hw; try done.
    + by rewrite length_insert.
    + intros j kj jb Hj Hjob. destruct (decide (i = j)) as [<-|Hne].
      { rewrite list_lookup_insert_eq in Hj by (by eapply lookup_lt_Some). by simplify_eq. }
      rewrite list_lookup_insert_ne in Hj by done. rewrite list_lookup_insert_ne by done. by eapply R.
    + intros j kj Hd Hj Hkj. destruct (decide (i = j)) as [<-|Hne].
      { rewrite list_lookup_insert_eq in Hkj by (by eapply lookup_lt_Some). by injection Hkj as <-. }
      rewrite list_lookup_insert_ne in Hj by done. rewrite list_lookup_insert_ne in Hkj by done. by eapply A.
    + intros Hd. right. exists i. by apply list_lookup_insert_eq.
    + intros o Hd. exfalso. pose proof (gone_done _ _ _ _ H Hd Hk) as Hdone.
      by rewrite worker_done_busy in Hdone.
  - unfold steps_left. simpl. rewrite length_insert, Hw.
    pose proof (steps_left_worker i _ _ Reporting
      {| wk_seen_generation := generation; wk_job := None |} _ _ Ep Hk) as Hs.
    unfold worker_weight in Hs at 2 4. simpl in Hs. rewrite Z.eqb_refl in Hs. lia.
  - apply rtc_once. by apply (StepFinish envs _ i).
Qed.

Lemma worker_notify_ok i c c' :
  waiting_ok c -> worker_notify i c = Some c' ->
  waiting_ok c' /\ (S (steps_left c') <= steps_left c)%nat /\ wt_group c' = wt_group c.
Proof.
  intros H Ht. pose proof H as [D L R A Bl G]. unfold worker_notify in Ht.
  destruct (wt_workers c !! i) as [[| |]|] eqn:Ep; try done. injection Ht as <-.
  destruct (lookup_lt_is_Some_2 (g_workers (wt_group c)) i) as [k Ek];
    [rewrite <- L; by eapply lookup_lt_Some|].
  split; [|split; [|done]].
  - split; simpl; rewrite ?length_insert; try done.
    + intros j kj jb Hj Hjob. destruct (decide (i = j)) as [<-|Hne];
        [apply list_lookup_insert_eq; by eapply lookup_lt_Some|].
      rewrite list_lookup_insert_ne by done. by eapply R.
    + intros j kj Hd Hj Hkj. destruct (decide (i = j)) as [<-|Hne].
      { rewrite list_lookup_insert_eq in Hj by (by eapply lookup_lt_Some). done. }
      rewrite list_lookup_insert_ne in Hj by done. eapply A; [|done..]. by destruct (wt_dispatcher c).
    + by destruct (wt_dispatcher c).
    + intros o. destruct (wt_dispatcher c) eqn:Ed; [done..|]. intros [= <-]. by apply G.
  - unfold steps_left. simpl. rewrite length_insert.
    rewrite <- (list_insert_id (g_workers (wt_group c)) i k) at 1 by done.
    pose proof (steps_left_worker i _ _ Awake k _ _ Ep Ek) as Hw.
    assert (Hp : (worker_weight Awake k + 2 <= worker_weight Reporting k)%nat).
    { unfold worker_weight. destruct (wk_job k) as [j|] eqn:Ej; [|by destruct (_ =? _); lia].
      pose proof (R i k j Ek Ej). congruence. }
    assert (dispatcher_weight (length (wt_workers c))
              (match wt_dispatcher c with Blocked => Testing | d => d end) <=
            dispatcher_weight (length (wt_workers c)) (wt_dispatcher c) + 1)%nat
      by (destruct (wt_dispatcher c); simpl; lia).
    lia.
Qed.

Lemma announce_weight ps ks :
  (sum_list (zip_with worker_weight (map woken ps) ks) <=
   sum_list (zip_with worker_weight ps ks) + length ps)%nat.
Proof.
  revert ks. induction ps as [|p ps IH]; intros [|k ks]; simpl; try lia.
  specialize (IH ks). assert (worker_weight (woken p) k <= worker_weight p k + 1)%nat; [|lia].
  unfold worker_weight. destruct (wk_job k); [lia|]. destruct (_ =? _), p; simpl; lia.
Qed.

Lemma announce_ok c c' :
  waiting_ok c -> dispatcher_announce c = Some c' ->
  waiting_ok c' /\ (S (steps_left c') <= steps_left c)%nat /\ wt_group c' = wt_group c.
Proof.
  intros [D L R A Bl G] Ht. unfold dispatcher_announce in Ht.
  destruct (wt_dispatcher c) eqn:Ed; try done. injection Ht as <-.
  split; [|split; [|done]].
  - split; simpl; rewrite ?length_map; try done.
    + intros i k j Hk Hj. rewrite list_lookup_fmap, (R i k j Hk Hj). done.
    + intros i k _ Hi. rewrite list_lookup_fmap in Hi. by destruct (wt_workers c !! i) as [[| |]|].
  - unfold steps_left. simpl. rewrite Ed. simpl.
    pose proof (announce_weight (wt_workers c) (g_workers (wt_group c))). lia.
Qed.

Lemma dispatcher_test_ok c c' :
  waiting_ok c -> dispatcher_test c = Some c' ->
  waiting_ok c' /\ (S (steps_left c') <= steps_left c)%nat /\ wt_group c' = wt_group c.
Proof.
  intros [D L R A Bl G] Ht. unfold dispatcher_test in Ht.
  destruct (wt_dispatcher c) eqn:Ed; try done. injection Ht as <-.
  split; [|split; [|done]].
  - split; simpl; try done.
    + intros i k _. apply A. done.
    + unfold wait_and_raise. intros Hd. left. by destruct (Nat.eqb_spec
        (g_completed (wt_group c)) (length (g_workers (wt_group c)))).
    + intros o Hd. destruct (wait_and_raise (wt_group c)); congruence.
  - unfold steps_left. simpl. rewrite Ed. by case_match; simpl; lia.
Qed.

Lemma waiting_step_ok c c' :
  waiting_ok c -> waiting_step envs c c' ->
  waiting_ok c' /\ (S (steps_left c') <= steps_left c)%nat /\
  rtc (group_step envs) (wt_group c) (wt_group c').
Proof.
  intros H [i c1 Hs|i c1 Hs|i c1 Hs|c1 Hs|c1 Hs].
  - by eapply worker_test_ok.
  - by eapply worker_complete_ok.
  - destruct (worker_notify_ok _ _ _ H Hs) as (? & ? & ->). by split_and!.
  - destruct (announce_ok _ _ H Hs) as (? & ? & ->). by split_and!.
  - destruct (dispatcher_test_ok _ _ H Hs) as (? & ? & ->). by split_and!.
Qed.

Lemma waiting_steps_ok n c c' :
  waiting_ok c -> nsteps (waiting_step envs) n c c' ->
  waiting_ok c' /\ (n + steps_left c' <= steps_left c)%nat /\
  rtc (group_step envs) (wt_group c) (wt_group c').
Proof.
  intros H Hs. induction Hs as [c|n c1 c2 c3 H12 _ IH]; [by split_and!; [|lia|]|].
  destruct (waiting_step_ok _ _ H H12) as (H2 & Hl & Hr). destruct (IH H2) as (H3 & Hl3 & Hr3).
  split_and!; [done|lia|by etrans].
Qed.

(** Until the dispatcher has gone, somebody can move. *)
Lemma waiting_moves c :
  waiting_ok c -> (forall o, wt_dispatcher c <> Gone o) -> exists c', waiting_step envs c c'.
Proof.
  intros H Hn. pose proof H as [D L R A Bl G].
  destruct (wt_dispatcher c) as [| | |o] eqn:Ed; [..|by destruct (Hn o)].
  { eexists. apply WaitAnnounce. unfold dispatcher_announce. by rewrite Ed. }
  { eexists. apply WaitCheck. unfold dispatcher_test. by rewrite Ed. }
  destruct (Bl eq_refl) as [Hc|[i Hi]].
  2: { eexists. apply (WaitNotify _ _ i). unfold worker_notify. by rewrite Hi. }
  destruct (decide (Forall (fun k => worker_done generation k = true) (g_workers (wt_group c))))
    as [Hall|Hex].
  { exfalso. apply Hc. rewrite (gd_completed _ _ _ _ _ _ D). apply count_all. by apply Forall_forall. }
  apply not_Forall_Exists in Hex; [|intros k; apply _].
  apply Exists_exists in Hex as (k & [i Hk]%list_elem_of_lookup_1 & Hd).
  destruct (lookup_lt_is_Some_2 (wt_workers c) i) as [p Hp]; [rewrite L; by eapply lookup_lt_Some|].
  destruct (unfinished_worker_steps _ _ _ _ _ Hnew (wt_group c) i k D Hk) as [[Hb [g Hs]]|(j & Hj & g & Hs)];
    [by apply not_true_is_false|apply Hruns| |].
  - destruct p.
    + eexists. apply (WaitTest _ _ i). unfold worker_test.
      by rewrite Hp, Hk, (gd_open _ _ _ _ _ _ D), Hb, Hs.
    + exfalso. pose proof (A i k ltac:(done) Hp Hk) as Hseen.
      apply Hd. unfold worker_done. by rewrite Hseen, Z.eqb_refl, Hb.
    + eexists. apply (WaitNotify _ _ i). unfold worker_notify. by rewrite Hp.
  - eexists. apply (WaitComplete _ _ i). unfold worker_complete.
    rewrite (R i k j Hk Hj), Hs. done.
Qed.

End Sleeping.

(** C29. A dispatch does not hang where every controller's send comes back.
    Whatever the workers are doing when the dispatch is published (asleep, awake,
    or still about to report the one before), whatever the schedule, and though
    nobody wakes up without being notified: all together take at most nine steps
    per worker and two more; as long as the dispatcher has not left its wait
    somebody can move; and when it has left, all workers have run, in one of the
    interleavings of [group_step], and the outcome is the one of
    [wait_and_raise]. *)
Theorem group_dispatch_progress envs t g g1 c c' n :
  group_idle g -> dispatch_begin t g = (Returned tt, g1) ->
  (forall i w, g_worlds g !! i = Some w ->
     exists e w', run_job (envs i) (shared_job (g_worlds g) t i) w = (Returned e, w')) ->
  wt_group c = g1 -> wt_dispatcher c = Announcing -> length (wt_workers c) = length (g_workers g) ->
  nsteps (waiting_step envs) n c c' ->
  (n <= 9 * length (g_workers g) + 2)%nat /\
  rtc (group_step envs) g1 (wt_group c') /\
  match wt_dispatcher c' with
  | Gone o => wait_and_raise (wt_group c') = Some o
  | _ => exists c'', waiting_step envs c' c''
  end.
Proof.
  intros Hi Hb Hrun <- Hd Hl Hs. destruct (u64_succ_ne _ (gi_generation _ Hi)) as [Hne Hin].
  destruct (dispatch_begin_dispatching envs _ _ _ Hi Hb) as [D Hw].
  assert (Hok : waiting_ok envs (g_worlds g) (shared_job (g_worlds g) t) (g_generation g)
                  (u64 (g_generation g + 1)) c).
  { split; try done; [by rewrite Hl, Hw| |by rewrite Hd..].
    intros i k j Hk Hj. rewrite Hw in Hk. rewrite (gi_workers _ Hi i k Hk) in Hj. done. }
  destruct (waiting_steps_ok _ _ _ _ _ Hne _ _ _ Hok Hs) as (Hok' & Hn & Hr).
  split; [|split; [exact Hr|]].
  - unfold steps_left in Hn at 2. rewrite Hd, Hl in Hn. simpl in Hn.
    assert (Hw8 : forall ps ks, (sum_list (zip_with (worker_weight (u64 (g_generation g + 1))) ps ks) <=
                                 8 * length ps)%nat).
    { induction ps as [|p ps IH]; intros [|k ks]; simpl; try lia. specialize (IH ks).
      assert (worker_weight (u64 (g_generation g + 1)) p k <= 8)%nat; [|lia].
      unfold worker_weight. destruct (wk_job k); [lia|]. destruct (_ =? _), p; lia. }
    specialize (Hw8 (wt_workers c) (g_workers (wt_group c))). lia.
  - pose proof (waiting_moves _ _ _ _ _ Hne Hrun c' Hok') as Hm.
    destruct (wt_dispatcher c') as [| | |o] eqn:Ed; try by apply Hm.
    by apply (wo_gone _ _ _ _ _ _ Hok').
Qed.

(** A refused dispatch starts nothing: when the partition throws (a null,
    foreign or duplicate motor, too many commands) no frame is sent, no worker
    wakes up, and the next dispatch starts from an idle group. *)
Theorem group_dispatch_refused envs t g o g' :
  group_idle g -> dispatch_begin t g = (o, g') -> o <> Returned tt ->
  g_worlds g' = g_worlds g /\ group_idle g' /\ forall g3, ~ group_step envs g' g3.
Proof.
  intros Hi H Ho.
  assert (Hlen : forall C k ws (cs : list (GroupCommand C)) b o b',
    partition k ws cs b = (o, b') -> length b' = length b).
  { intros C k ws cs b o1 b'. unfold partition. destruct (_ <? _)%nat; [by intros [= _ <-]|].
    generalize (@nil pointer). revert b. induction cs as [|c cs IH]; intros b u;
      cbn [partition_from]; [by intros [= _ <-]|].
    destruct (gc_motor c); [|by intros [= _ <-]]. case_bool_decide; [by intros [= _ <-]|].
    destruct (first_owner _ _ _); [|by intros [= _ <-]].
    unfold bind at 1. cbn [gets]. destruct (kMaximumBatchCommands <=? _)%nat; [by intros [= _ <-]|].
    unfold bind at 1. cbn [modify]. intros Hp. apply IH in Hp. by rewrite Hp, length_insert. }
  assert (Hg : exists m p, g' = set_batches m p g /\ length m = length (g_mit_batches g) /\
    length p = length (g_pos_vel_batches g)).
  { destruct t as [cs|cs]; simpl in H.
    - destruct (partition Mit _ cs _) as [o1 b] eqn:Ep. apply Hlen in Ep. rewrite length_map in Ep.
      destruct o1 as [[]| | |]; injection H as <- <-; [done|..]; by eexists _, _.
    - destruct (partition PosVel _ cs _) as [o1 b] eqn:Ep. apply Hlen in Ep. rewrite length_map in Ep.
      destruct o1 as [[]| | |]; injection H as <- <-; [done|..]; by eexists _, _. }
  destruct Hg as (m & p & -> & Lm & Lp). destruct Hi as [A B C D E F G].
  split; [done|]. split; [split; simpl; try done; congruence|].
  intros g3 [i g4 Hs|i g4 Hs].
  - unfold worker_start in Hs. simpl in Hs. destruct (g_workers g !! i) as [k|] eqn:Ek; [|done].
    rewrite A, (G i k Ek) in Hs. simpl in Hs. by rewrite Z.eqb_refl in Hs.
  - unfold worker_finish in Hs. simpl in Hs. destruct (g_workers g !! i) as [k|] eqn:Ek; [|done].
    rewrite (G i k Ek) in Hs. simpl in Hs. by destruct (g_worlds g !! i).
Qed.

(** ** Two arms, one dispatch

    Two controllers with one motor each; the second worker overtakes the
    first. *)
Definition sample_group : Group :=
  {| g_worlds := [sample_world; sample_world];
     g_workers := replicate 2 {| wk_seen_generation := 0; wk_job := None |};
     g_stopping := false; g_generation := 0; g_completed := 0; g_kind := Mit;
     g_mit_batches := [[]; []]; g_pos_vel_batches := [[]; []];
     g_errors := [""; ""]%string |}.

Definition arm_command (arm : nat) : GroupCommand PosVelBatchCommand :=
  {| gc_motor := Some (arm, 0%nat); gc_command := pv_command |}.

Definition sample_task : Task := PosVelTask [arm_command 1; arm_command 0].

Definition sample_envs (i : nat) : Environment := answering [].

Definition sample_started : Group := snd (dispatch_begin sample_task sample_group).
Definition sample_step1 : Group := default sample_started (worker_start 1 sample_started).
Definition sample_step2 : Group := default sample_started (worker_finish sample_envs 1 sample_step1).
Definition sample_step3 : Group := default sample_started (worker_start 0 sample_step2).
Definition sample_step4 : Group := default sample_started (worker_finish sample_envs 0 sample_step3).

Lemma sample_group_idle : group_idle sample_group.
Proof.
  split; try reflexivity; [split; reflexivity || discriminate|].
  intros [|[|i]] k; [intros [= <-]; reflexivity|intros [= <-]; reflexivity|discriminate].
Qed.

Lemma sample_steps : nsteps (group_step sample_envs) 4 sample_started sample_step4.
Proof.
  apply nsteps_l with sample_step1; [apply (StepStart _ _ 1); vm_compute; reflexivity|].
  apply nsteps_l with sample_step2; [apply (StepFinish _ _ 1); vm_compute; reflexivity|].
  apply nsteps_l with sample_step3; [apply (StepStart _ _ 0); vm_compute; reflexivity|].
  apply nsteps_l with sample_step4; [apply (StepFinish _ _ 0); vm_compute; reflexivity|].
  apply nsteps_O.
Qed.

Lemma sample_begin : dispatch_begin sample_task sample_group = (Returned tt, sample_started).
Proof. vm_compute. reflexivity. Qed.

Lemma group_dispatch_exact_witness :
  group_idle sample_step4 /\ wait_and_raise sample_step4 = Some (Returned tt) /\
  exists e w', run_job (answering []) (shared_job (g_worlds sample_group) sample_task 1) sample_world =
      (Returned e, w') /\ g_worlds sample_step4 !! 1%nat = Some w'.
Proof.
  assert (Ho : wait_and_raise sample_step4 = Some (Returned tt)) by (vm_compute; reflexivity).
  destruct (group_dispatch_exact sample_envs sample_task sample_group sample_started sample_step4
    (Returned tt) sample_group_idle sample_begin (rtc_nsteps_2 _ _ _ sample_steps) Ho)
    as (H1 & H2 & _).
  split; [exact H1|]. split; [exact Ho|].
  destruct (H2 1%nat sample_world eq_refl) as (e & w' & Hr & Hw & _).
  exists e, w'. split; [exact Hr|exact Hw].
Defined.

(** The first worker sleeps, the second has not yet reported the dispatch before;
    everybody takes turns until the dispatcher is gone. *)
Definition sample_waiting : Waiting := {|
  wt_group := sample_started; wt_workers := [Asleep; Reporting]; wt_dispatcher := Announcing |}.

Definition waiting_turn (c : Waiting) (turn : Waiting -> option Waiting) : Waiting :=
  default c (turn c).

Definition sample_turns : list (Waiting -> option Waiting) :=
  [dispatcher_announce; dispatcher_test; worker_notify 1; worker_test 1;
   worker_complete sample_envs 1; dispatcher_test; worker_notify 1; worker_test 1; dispatcher_test;
   worker_test 0; worker_complete sample_envs 0; worker_notify 0; dispatcher_test].

Definition sample_gone : Waiting := fold_left waiting_turn sample_turns sample_waiting.

Lemma waiting_turns turns c :
  Forall (fun turn => forall c c', turn c = Some c' -> waiting_step sample_envs c c') turns ->
  exists n, nsteps (waiting_step sample_envs) n c (fold_left waiting_turn turns c).
Proof.
  intros H. revert c. induction H as [|turn turns Ht _ IH]; intros c; [by exists 0%nat; constructor|].
  simpl. unfold waiting_turn at 2. destruct (turn c) as [c1|] eqn:E; [|apply IH].
  destruct (IH c1) as [n Hn]. exists (S n). by eapply nsteps_l; [apply Ht|].
Qed.

Lemma group_dispatch_progress_witness :
  wt_dispatcher sample_gone = Gone (Returned tt) /\
  wait_and_raise (wt_group sample_gone) = Some (Returned tt) /\
  rtc (group_step sample_envs) sample_started (wt_group sample_gone).
Proof.
  assert (Hd : wt_dispatcher sample_gone = Gone (Returned tt)) by (vm_compute; reflexivity).
  destruct (waiting_turns sample_turns sample_waiting) as [n Hn].
  { unfold sample_turns.
    repeat (apply Forall_cons_2; [intros c c' H;
      first [exact (WaitAnnounce _ _ _ H)|exact (WaitCheck _ _ _ H)|exact (WaitNotify _ _ _ _ H)
            |exact (WaitTest _ _ _ _ H)|exact (WaitComplete _ _ _ _ H)]|]).
    apply Forall_nil_2. }
  destruct (group_dispatch_progress sample_envs sample_task sample_group sample_started sample_waiting
    sample_gone n sample_group_idle sample_begin) as (_ & Hr & Ho);
    [|reflexivity|reflexivity|reflexivity|exact Hn|].
  - intros [|[|i]] w H; [| |discriminate]; injection H as <-.
    + exists ""%string. eexists. vm_compute. reflexivity.
    + exists ""%string. eexists. vm_compute. reflexivity.
  - rewrite Hd in Ho. split; [exact Hd|]. split; [exact Ho|exact Hr].
Defined.

(** A motor of a third arm. *)
Lemma group_dispatch_refused_witness :
  let t := PosVelTask [arm_command 0; arm_command 2] in
  exists g', dispatch_begin t sample_group =
      (Thrown (InvalidArgument "POS_VEL batch contains a foreign motor"), g') /\
    g_worlds g' = g_worlds sample_group /\ forall g3, ~ group_step sample_envs g' g3.
Proof.
  intros t. destruct (run_result (dispatch_begin t sample_group)
    (Thrown (InvalidArgument "POS_VEL batch contains a foreign motor"))) as [g' R];
    [vm_compute; reflexivity|].
  exists g'. split; [exact R|].
  destruct (group_dispatch_refused sample_envs t sample_group _ g' sample_group_idle R
    ltac:(discriminate)) as (H1 & _ & H3).
  split; [exact H1|exact H3].
Defined.
