(* ===== verification/RuntimeTypes.v ===== *)
(** * The product types

    The value types of [runtime/include/articore/runtime.hpp], which the
    service of [dds/] exchanges with the product runtime.  A fixed-size
    [std::array<float, n>] is a list of that length; an enumeration that only
    the program itself produces is an inductive type. *)

From S2P Require Import Prelude Float32.
#[local] Open Scope mdl_scope.

Definition kArmDof : nat := 7.
Definition kRobotDof : nat := 14.
Definition kPoseDof : nat := 6.

Definition JointArray : Type := list f32.
Definition ArmArray : Type := list f32.
Definition Pose : Type := list f32.

Definition zeros (n : nat) : list f32 := replicate n f32_zero.

Inductive RuntimeErrorCode :=
| CodeOk | CodeInvalidArgument | CodeWrongState | CodeBusy | CodeTimeout
| CodeTransportError | CodeInternalError.

#[export] Instance RuntimeErrorCode_eq_dec : EqDecision RuntimeErrorCode.
Proof. solve_decision. Defined.

Inductive ControlMode := ModePv | ModeMit.

#[export] Instance ControlMode_eq_dec : EqDecision ControlMode.
Proof. solve_decision. Defined.

Definition ControlMode_value (m : ControlMode) : Z :=
  match m with ModePv => 1 | ModeMit => 2 end.

Inductive SafetyState :=
| Disconnected | Ready | Enabled | Running | SafeHold | Fault | Degraded | SafeStop
| PartiallyEnabled.

#[export] Instance SafetyState_eq_dec : EqDecision SafetyState.
Proof. solve_decision. Defined.

(** The underlying value of an enumerator. *)
Definition SafetyState_value (s : SafetyState) : Z :=
  match s with
  | Disconnected => 0 | Ready => 1 | Enabled => 2 | Running => 3 | SafeHold => 4
  | Fault => 5 | Degraded => 6 | SafeStop => 7 | PartiallyEnabled => 8
  end.

Inductive RobotSide := Left | Right.

#[export] Instance RobotSide_eq_dec : EqDecision RobotSide.
Proof. solve_decision. Defined.

Definition RobotSide_value (s : RobotSide) : Z := match s with Left => 0 | Right => 1 end.

(** [Status]: a code and a message; success is the code [Ok]. *)
Record Status := { status_code : RuntimeErrorCode; status_message : string }.

Definition success : Status := {| status_code := CodeOk; status_message := "" |}.
Definition failure (code : RuntimeErrorCode) (message : string) : Status :=
  {| status_code := code; status_message := message |}.
Definition status_ok (s : Status) : bool := bool_decide (status_code s = CodeOk).

(** [Result<T>]: a value, or the status that replaces it. *)
Inductive Result (T : Type) :=
| Value (value : T)
| Error (error : Status).
Arguments Value {T} value.
Arguments Error {T} error.

Definition result_ok {T} (r : Result T) : bool :=
  match r with Value _ => true | Error _ => false end.

(** [Result::status]: the default status beside a value. *)
Definition result_status {T} (r : Result T) : Status :=
  match r with Value _ => success | Error s => s end.

Record ThreadPolicy := {
  realtime : bool;
  control_cpu : Z;
  can_tx_cpu : Z;
  can_rx_cpu : Z;
  control_priority : Z;
  can_tx_priority : Z;
  can_rx_priority : Z;
  lock_memory : bool
}.

Definition default_ThreadPolicy : ThreadPolicy := {|
  realtime := true; control_cpu := -1; can_tx_cpu := -1; can_rx_cpu := -1;
  control_priority := 80; can_tx_priority := 75; can_rx_priority := 75; lock_memory := true
|}.

(** Durations in milliseconds. *)
Record YunyiRuntimeConfig := {
  left_can_interface : string;
  right_can_interface : string;
  initial_control_mode : ControlMode;
  threads : ThreadPolicy;
  feedback_max_age : Z;
  motor_watchdog : Z;
  motor_discovery_timeout : Z;
  motor_discovery_retries : Z
}.

Definition default_YunyiRuntimeConfig : YunyiRuntimeConfig := {|
  left_can_interface := "can-left"; right_can_interface := "can-right";
  initial_control_mode := ModeMit; threads := default_ThreadPolicy;
  feedback_max_age := 250; motor_watchdog := 500; motor_discovery_timeout := 25;
  motor_discovery_retries := 8
|}.

Inductive EndEffectorType := EffectorNone | DamiaoGripper.

#[export] Instance EndEffectorType_eq_dec : EqDecision EndEffectorType.
Proof. solve_decision. Defined.

Definition EndEffectorType_value (e : EndEffectorType) : Z :=
  match e with EffectorNone => 0 | DamiaoGripper => 1 end.

Record HardwareTopology := {
  end_effector_left : EndEffectorType;
  end_effector_right : EndEffectorType;
  topology_revision : Z
}.

Definition end_effector (t : HardwareTopology) (side : RobotSide) : EndEffectorType :=
  match side with Left => end_effector_left t | Right => end_effector_right t end.
Definition has_gripper (t : HardwareTopology) (side : RobotSide) : bool :=
  bool_decide (end_effector t side = DamiaoGripper).
Definition has_any_gripper (t : HardwareTopology) : bool :=
  has_gripper t Left || has_gripper t Right.

Record RuntimeState := {
  rs_positions : JointArray;
  rs_velocities : JointArray;
  rs_torques : JointArray;
  rs_mos_temperatures : JointArray;
  rs_rotor_temperatures : JointArray;
  rs_enabled_mask : Z;
  rs_enabled_valid_mask : Z;
  rs_temperature_valid_mask : Z;
  rs_has_grippers : bool;
  rs_gripper_openings : list f32;
  rs_gripper_available : list bool;
  rs_gripper_feedback_valid : list bool;
  rs_motion_arrived : bool;
  rs_timestamp : Z;
  rs_sequence : Z
}.

(** Durations in nanoseconds. *)
Record RuntimeMetrics := {
  rm_ticks : Z;
  rm_overruns : Z;
  rm_maximum_period : Z;
  rm_maximum_send_time : Z
}.

Record RuntimeHealth := {
  rh_state : SafetyState;
  rh_safe_holding : bool;
  rh_disable_confirmed : bool;
  rh_degraded : bool;
  rh_safe_stopped : bool;
  rh_requires_resynchronization : bool;
  rh_consecutive_send_failures : Z;
  rh_consecutive_feedback_failures : Z;
  rh_fault_reason : string;
  rh_safety_reason : string;
  rh_last_operation_error : string;
  rh_motor_faults : list string;
  rh_operation_failed_motors : list string;
  rh_metrics : RuntimeMetrics
}.

Record MitCommand := {
  mc_positions : JointArray;
  mc_velocities : JointArray;
  mc_kp : JointArray;
  mc_kd : JointArray;
  mc_feedforward_torques : JointArray
}.

Record JointLimits := {
  lower_angles : JointArray;
  upper_angles : JointArray;
  velocity_limits : JointArray
}.

Record GravityCompensationStatus := {
  gc_phase : Z;
  gc_active : bool;
  gc_transition_progress : f32;
  gc_control_cycles : Z;
  gc_feedforward_torques : JointArray
}.

Record BimanualFollowStatus := {
  bf_phase : Z;
  bf_active : bool;
  bf_leader : RobotSide;
  bf_transition_progress : f32;
  bf_control_cycles : Z;
  bf_leader_positions : ArmArray;
  bf_follower_target_positions : ArmArray;
  bf_maximum_tracking_error : f32;
  bf_error : string
}.
