(* ===== verification/DdsProtocol.v ===== *)
(** * The messages of the service

    [dds/include/articore/dds/protocol.hpp] and [dds/src/protocol.cpp]: the
    identity and stream validation, the error mapping, the diagnostic text of
    a rejected operation, and the one-place mailbox of the streamed commands.
    Points in time and durations are nanoseconds. *)

From S2P Require Import Prelude Float32 RuntimeTypes.
#[local] Open Scope mdl_scope.

Definition kProtocolMajor : Z := 1.
Definition kProtocolMinor : Z := 3.
Definition kPvPercentageLimitsProtocolMinor : Z := 3.

Definition milliseconds (n : Z) : Z := n * 1000000.

Definition kStreamLifespan : Z := milliseconds 20.
Definition kLeasePeriod : Z := milliseconds 250.

Inductive ProtocolError :=
| PeOk | PeInvalidArgument | PeWrongState | PeBusy | PeNoLease | PeStaleSequence | PeTimeout
| PeTransportError | PeVersionMismatch | PeInternalError.

#[export] Instance ProtocolError_eq_dec : EqDecision ProtocolError.
Proof. solve_decision. Defined.

Inductive StreamKind := StreamPv | StreamMit | StreamMitFast.

#[export] Instance StreamKind_eq_dec : EqDecision StreamKind.
Proof. solve_decision. Defined.

Record MessageIdentity := {
  protocol_major : Z;
  protocol_minor : Z;
  robot_id : string;
  client_id : string;
  security_identity : string;
  sequence : Z
}.

Record StreamCommand := {
  sc_identity : MessageIdentity;
  sc_lease_id : Z;
  sc_kind : StreamKind;
  sc_positions : JointArray;
  sc_velocities : JointArray;
  sc_kp : JointArray;
  sc_kd : JointArray;
  sc_feedforward_torques : JointArray;
  sc_speed_percent : f32;
  sc_received_at : Z
}.

(** The anonymous [finite]. *)
Definition all_finite (values : list f32) : bool := forallb f32_isfinite values.

Definition validate_identity (identity : MessageIdentity) (robot : string) : ProtocolError :=
  if negb (protocol_major identity =? kProtocolMajor) || (kProtocolMinor <? protocol_minor identity)
  then PeVersionMismatch
  else if str_empty (robot_id identity) || str_empty (client_id identity) ||
          (63 <? str_size (robot_id identity)) || (63 <? str_size (client_id identity)) ||
          negb (bool_decide (robot_id identity = robot))
  then PeInvalidArgument
  else PeOk.

Definition hundred : f32 := f32_of_Z 100.
Definition one : f32 := f32_of_Z 1.

Definition validate_stream (command : StreamCommand) (robot : string) : ProtocolError :=
  let identity := validate_identity (sc_identity command) robot in
  if negb (bool_decide (identity = PeOk)) then identity
  else if (sc_lease_id command =? 0) || negb (all_finite (sc_positions command)) ||
          negb (f32_isfinite (sc_speed_percent command))
  then PeInvalidArgument
  else if bool_decide (sc_kind command = StreamMit) &&
          (negb (all_finite (sc_velocities command)) || negb (all_finite (sc_kp command)) ||
           negb (all_finite (sc_kd command)) || negb (all_finite (sc_feedforward_torques command)))
  then PeInvalidArgument
  else if f32_lt (sc_speed_percent command) f32_zero || f32_gt (sc_speed_percent command) hundred ||
          (bool_decide (sc_kind command = StreamPv) && f32_lt (sc_speed_percent command) one)
  then PeInvalidArgument
  else PeOk.

Definition map_runtime_error (error : RuntimeErrorCode) : ProtocolError :=
  match error with
  | CodeOk => PeOk
  | CodeInvalidArgument => PeInvalidArgument
  | CodeWrongState => PeWrongState
  | CodeBusy => PeBusy
  | CodeTimeout => PeTimeout
  | CodeTransportError => PeTransportError
  | CodeInternalError => PeInternalError
  end.

Definition runtime_state_name (state : SafetyState) : string :=
  match state with
  | Disconnected => "DISCONNECTED"
  | Ready => "READY"
  | Enabled => "ENABLED"
  | Running => "RUNNING"
  | SafeHold => "SAFE_HOLD"
  | Fault => "FAULT"
  | Degraded => "DEGRADED"
  | SafeStop => "SAFE_STOP"
  | PartiallyEnabled => "PARTIALLY_ENABLED"
  end.

(** The motors named by a rejection: those the operation failed on, then the
    faulted ones not named yet. *)
Definition failed_motors (health : RuntimeHealth) : list string :=
  fold_left (fun failed name => if bool_decide (name ∈ failed) then failed else failed ++ [name])
    (rh_motor_faults health) (rh_operation_failed_motors health).

Definition or_none (text : string) : string := if str_empty text then "<none>" else text.

Definition describe_runtime_rejection (operation required_states : string) (status : Status)
    (health : RuntimeHealth) : string :=
  (operation ++ " rejected: current_state=" ++ runtime_state_name (rh_state health) ++
   ", required_states=" ++ required_states ++
   ", fault_reason=" ++ or_none (rh_fault_reason health) ++
   ", failed_motors=[" ++ String.concat ", " (failed_motors health) ++ "]" ++
   ", cause=" ++ or_none (status_message status))%string.

(** ** [LatestCommandMailbox] *)

Definition Mailbox : Type := option StreamCommand.

Definition command_sequence (c : StreamCommand) : Z := sequence (sc_identity c).

Definition mailbox_store (command : StreamCommand) (latest : Mailbox) : Mailbox :=
  match latest with
  | Some held =>
      if command_sequence held <? command_sequence command then Some command else latest
  | None => Some command
  end.

Definition mailbox_take (now : Z) (latest : Mailbox) : option StreamCommand * Mailbox :=
  match latest with
  | None => (None, None)
  | Some command =>
      if kStreamLifespan <? now - sc_received_at command then (None, None)
      else (Some command, None)
  end.

Definition mailbox_clear (latest : Mailbox) : Mailbox := None.

(** ** What is accepted *)

Lemma f32_units_100 : f32_units hundred = 100 * 2 ^ 149.
Proof. vm_compute. reflexivity. Qed.

Lemma f32_units_1 : f32_units one = 2 ^ 149.
Proof. vm_compute. reflexivity. Qed.

Lemma all_finite_spec l : all_finite l = true <-> Forall (fun x => f32_isfinite x = true) l.
Proof.
  unfold all_finite. induction l as [|x l IH]; simpl; [by split|].
  rewrite andb_true_iff, IH. split; [intros []; by constructor|by inversion 1].
Qed.

(** The identity of a message the service answers. *)
Definition identity_accepted (i : MessageIdentity) (robot : string) : Prop :=
  protocol_major i = 1 /\ protocol_minor i <= 3 /\
  robot_id i = robot /\ 1 <= str_size (robot_id i) <= 63 /\ 1 <= str_size (client_id i) <= 63.

Lemma str_empty_size s : str_empty s = (str_size s <? 1).
Proof.
  destruct s; unfold str_size; cbn [String.length str_empty]; [done|]. symmetry. apply Z.ltb_ge. lia.
Qed.

Lemma validate_identity_ok i robot :
  validate_identity i robot = PeOk <-> identity_accepted i robot.
Proof.
  unfold validate_identity, identity_accepted, kProtocolMajor, kProtocolMinor.
  rewrite !str_empty_size.
  destruct (Z.eqb_spec (protocol_major i) 1); simpl; [|split; [done|tauto]].
  destruct (Z.ltb_spec 3 (protocol_minor i)); simpl; [split; [done|lia]|].
  destruct (Z.ltb_spec (str_size (robot_id i)) 1); simpl; [split; [done|lia]|].
  destruct (Z.ltb_spec (str_size (client_id i)) 1); simpl; [split; [done|lia]|].
  destruct (Z.ltb_spec 63 (str_size (robot_id i))); simpl; [split; [done|lia]|].
  destruct (Z.ltb_spec 63 (str_size (client_id i))); simpl; [split; [done|lia]|].
  case_bool_decide; simpl; split; try done; tauto.
Qed.

(** Everything a stream command must satisfy; the speed in units of 2^-149. *)
Definition stream_accepted (c : StreamCommand) (robot : string) : Prop :=
  identity_accepted (sc_identity c) robot /\ sc_lease_id c <> 0 /\
  Forall (fun x => f32_isfinite x = true) (sc_positions c) /\
  (sc_kind c = StreamMit ->
     Forall (fun x => f32_isfinite x = true)
       (sc_velocities c ++ sc_kp c ++ sc_kd c ++ sc_feedforward_torques c)) /\
  f32_isfinite (sc_speed_percent c) = true /\
  (if decide (sc_kind c = StreamPv) then 2 ^ 149 else 0) <= f32_units (sc_speed_percent c)
    <= 100 * 2 ^ 149.

(** [validate_stream] lets through exactly the commands of the service's own
    protocol and robot, under a lease, with finite positions and (for MIT) finite
    gains, and a speed between 0 (1 for position-velocity) and 100 percent:
    no NaN or infinity gets past it. *)
Theorem validate_stream_ok c robot :
  f32_valid (sc_speed_percent c) ->
  validate_stream c robot = PeOk <-> stream_accepted c robot.
Proof.
  intros Hv. unfold validate_stream, stream_accepted. rewrite <- validate_identity_ok.
  destruct (decide (validate_identity (sc_identity c) robot = PeOk)) as [Hi|Hi];
    [rewrite (bool_decide_true _ Hi)|rewrite (bool_decide_false _ Hi)]; simpl; [|tauto].
  destruct (Z.eqb_spec (sc_lease_id c) 0); simpl; [split; [done|tauto]|].
  rewrite !Forall_app, <- !all_finite_spec.
  destruct (all_finite (sc_positions c)); simpl; [|split; [done|]; intuition discriminate].
  destruct (f32_isfinite (sc_speed_percent c)) eqn:Hf; simpl; [|split; [done|]; intuition discriminate].
  unfold f32_gt. change (SFltb ?a ?b) with (f32_lt a b).
  rewrite !(f32_lt_units _ _) by (done || reflexivity).
  rewrite f32_units_100, f32_units_1. change (f32_units f32_zero) with 0.
  generalize (f32_units (sc_speed_percent c)). intros u.
  assert (Hspeed : forall m P, P -> (if (u <? 0) || (100 * 2 ^ 149 <? u) ||
      (bool_decide (sc_kind c = StreamPv) && (u <? 2 ^ 149)) then m else PeOk) = PeOk <->
    m = PeOk \/ P /\ (if decide (sc_kind c = StreamPv) then 2 ^ 149 else 0) <= u <= 100 * 2 ^ 149).
  { intros m P HP. destruct (Z.ltb_spec u 0), (Z.ltb_spec (100 * 2 ^ 149) u); simpl;
      try (case_decide; intuition lia).
    case_decide; [rewrite bool_decide_true by done|rewrite bool_decide_false by done]; simpl;
      [destruct (Z.ltb_spec u (2 ^ 149))|]; intuition lia. }
  destruct (decide (sc_kind c = StreamMit)) as [Hm|Hm];
    [rewrite (bool_decide_true (sc_kind c = StreamMit) Hm)|
     rewrite (bool_decide_false (sc_kind c = StreamMit) Hm)]; simpl.
  - destruct (all_finite (sc_velocities c)), (all_finite (sc_kp c)), (all_finite (sc_kd c)),
      (all_finite (sc_feedforward_torques c)); simpl;
      try (split; [done|intros (_ & _ & _ & H & _); by specialize (H Hm) as (? & ? & ? & ?)]).
    rewrite (Hspeed _ True) by done. intuition discriminate.
  - rewrite (Hspeed _ True) by done. intuition discriminate.
Qed.

(** ** The mailbox keeps the newest command *)

Lemma mailbox_store_newest cs latest c :
  fold_left (fun m x => mailbox_store x m) cs latest = Some c ->
  (latest = Some c \/ c ∈ cs) /\
  (forall x, latest = Some x \/ x ∈ cs -> command_sequence x <= command_sequence c).
Proof.
  revert latest. induction cs as [|x cs IH]; intros latest H; simpl in H.
  { split; [by left|]. intros y [Hy|Hy%elem_of_nil]; [|done].
    assert (y = c) as -> by congruence. lia. }
  apply IH in H as [Hin Hmax].
  unfold mailbox_store in Hin, Hmax. destruct latest as [held|].
  - destruct (Z.ltb_spec (command_sequence held) (command_sequence x)).
    + split; [right; destruct Hin as [[= ->]|?]; [by left|by right]|].
      intros y [[= <-]|[->|Hy]%elem_of_cons].
      * pose proof (Hmax x ltac:(by left)). lia.
      * apply Hmax. by left.
      * apply Hmax. by right.
    + split; [destruct Hin as [?|?]; [by left|right; by right]|].
      intros y [[= <-]|[->|Hy]%elem_of_cons].
      * apply Hmax. by left.
      * pose proof (Hmax held ltac:(by left)). lia.
      * apply Hmax. by right.
  - split; [right; destruct Hin as [[= ->]|?]; [by left|by right]|].
    intros y [?|[->|Hy]%elem_of_cons]; [done| |]; apply Hmax; auto.
Qed.

(** What [take] hands to the runtime is one of the commands stored since the
    mailbox was last empty, with the highest sequence number of them, and it is
    at most 20 ms old; and the mailbox is empty afterwards, so no command is
    executed twice. *)
Theorem mailbox_take_newest cs now c m :
  mailbox_take now (fold_left (fun m x => mailbox_store x m) cs None) = (Some c, m) ->
  c ∈ cs /\ (forall x, x ∈ cs -> command_sequence x <= command_sequence c) /\
  now - sc_received_at c <= 20000000 /\ m = None.
Proof.
  unfold mailbox_take.
  destruct (fold_left (fun m x => mailbox_store x m) cs None) as [held|] eqn:E; [|done].
  destruct (Z.ltb_spec kStreamLifespan (now - sc_received_at held)) as [|Hage]; [done|].
  intros [= <- <-]. apply mailbox_store_newest in E as [[?|Hin] Hmax]; [done|].
  split_and!; [done| |unfold kStreamLifespan, milliseconds in Hage; lia|done].
  intros x Hx. apply Hmax. by right.
Qed.

(** ** Witnesses *)

Definition sample_identity (client : string) (seq : Z) : MessageIdentity := {|
  protocol_major := 1; protocol_minor := 3; robot_id := "yunyi-001"; client_id := client;
  security_identity := ""; sequence := seq |}.

Definition sample_stream (seq received_at : Z) : StreamCommand := {|
  sc_identity := sample_identity "arm-ui" seq; sc_lease_id := 1; sc_kind := StreamPv;
  sc_positions := zeros kRobotDof; sc_velocities := zeros kRobotDof; sc_kp := zeros kRobotDof;
  sc_kd := zeros kRobotDof; sc_feedforward_torques := zeros kRobotDof;
  sc_speed_percent := hundred; sc_received_at := received_at |}.

Lemma validate_stream_ok_witness :
  validate_stream (sample_stream 7 0) "yunyi-001" = PeOk /\
  stream_accepted (sample_stream 7 0) "yunyi-001".
Proof.
  assert (H : validate_stream (sample_stream 7 0) "yunyi-001" = PeOk) by (vm_compute; reflexivity).
  split; [exact H|]. apply (validate_stream_ok (sample_stream 7 0) "yunyi-001");
    [vm_compute; reflexivity|exact H].
Defined.

Lemma mailbox_take_newest_witness :
  let cs := [sample_stream 4 1000; sample_stream 9 2000; sample_stream 8 3000] in
  mailbox_take 20002000 (fold_left (fun m x => mailbox_store x m) cs None) =
    (Some (sample_stream 9 2000), None) /\
  20002000 - 2000 <= 20000000.
Proof.
  intros cs.
  assert (H : mailbox_take 20002000 (fold_left (fun m x => mailbox_store x m) cs None) =
    (Some (sample_stream 9 2000), None)) by (vm_compute; reflexivity).
  split; [exact H|].
  exact (proj1 (proj2 (proj2 (mailbox_take_newest cs 20002000 (sample_stream 9 2000) None H)))).
Defined.
