(* ===== verification/Lease.v ===== *)
(** * The control lease

    [articore::dds::LeaseManager] ([dds/include/articore/dds/lease.hpp],
    [dds/src/lease.cpp]).  One client at a time owns the robot; its requests
    carry the lease id and a per-channel sequence number; an owner that falls
    silent for the timeout loses the robot.  Every operation is one critical
    section; the lost callback, which the code calls after leaving it, is the
    reason the operation returns. *)

From S2P Require Import Prelude RuntimeTypes DdsProtocol.
#[local] Open Scope mdl_scope.

Inductive SequenceChannel := Control | Stream.

#[export] Instance SequenceChannel_eq_dec : EqDecision SequenceChannel.
Proof. solve_decision. Defined.

Record LeaseSnapshot := {
  ls_client_id : string;
  ls_lease_id : Z;
  ls_expires_at : Z
}.

Record LeaseManager := {
  timeout_ : Z;
  active_ : option LeaseSnapshot;
  last_control_sequence_ : option Z;
  last_stream_sequence_ : option Z;
  next_lease_id_ : Z
}.

Definition make_LeaseManager (timeout : Z) : LeaseManager := {|
  timeout_ := timeout; active_ := None; last_control_sequence_ := None;
  last_stream_sequence_ := None; next_lease_id_ := 1
|}.

(** [active_.reset()] with both sequences. *)
Definition no_lease (m : LeaseManager) : LeaseManager := {|
  timeout_ := timeout_ m; active_ := None; last_control_sequence_ := None;
  last_stream_sequence_ := None; next_lease_id_ := next_lease_id_ m
|}.

Definition with_expiry (a : LeaseSnapshot) (expires_at : Z) : LeaseSnapshot :=
  {| ls_client_id := ls_client_id a; ls_lease_id := ls_lease_id a; ls_expires_at := expires_at |}.

(** A lease that keeps its owner and its sequences until [expires_at]. *)
Definition renewed (a : LeaseSnapshot) (expires_at : Z) (m : LeaseManager) : LeaseManager := {|
  timeout_ := timeout_ m; active_ := Some (with_expiry a expires_at);
  last_control_sequence_ := last_control_sequence_ m;
  last_stream_sequence_ := last_stream_sequence_ m; next_lease_id_ := next_lease_id_ m
|}.

Definition granted (client : string) (now : Z) (m : LeaseManager) : LeaseManager := {|
  timeout_ := timeout_ m;
  active_ := Some {| ls_client_id := client; ls_lease_id := next_lease_id_ m;
                     ls_expires_at := now + timeout_ m |};
  last_control_sequence_ := None; last_stream_sequence_ := None;
  next_lease_id_ := u64 (next_lease_id_ m + 1)
|}.

Definition acquire (client : string) (now : Z) (m : LeaseManager)
    : Result LeaseSnapshot * LeaseManager :=
  if str_empty client || (63 <? str_size client) then
    (Error (failure CodeInvalidArgument "client_id must contain 1..63 bytes"), m)
  else
    let m' :=
      match active_ m with
      | None => Some (granted client now m)
      | Some a =>
          if (now <? ls_expires_at a) && negb (bool_decide (ls_client_id a = client)) then None
          else if negb (bool_decide (ls_client_id a = client)) || (ls_expires_at a <=? now) then
            Some (granted client now m)
          else Some (renewed a (now + timeout_ m) m)
      end in
    match m' with
    | None => (Error (failure CodeBusy "another client owns the robot lease"), m)
    | Some m' =>
        match active_ m' with
        | Some a => (Value a, m')
        | None => (Error success, m')
        end
    end.

Definition last_sequence (channel : SequenceChannel) (m : LeaseManager) : option Z :=
  match channel with
  | Control => last_control_sequence_ m
  | Stream => last_stream_sequence_ m
  end.

Definition set_last_sequence (channel : SequenceChannel) (sequence : Z) (m : LeaseManager)
    : LeaseManager := {|
  timeout_ := timeout_ m; active_ := active_ m;
  last_control_sequence_ :=
    match channel with Control => Some sequence | Stream => last_control_sequence_ m end;
  last_stream_sequence_ :=
    match channel with Control => last_stream_sequence_ m | Stream => Some sequence end;
  next_lease_id_ := next_lease_id_ m
|}.

(** The client and lease id of a request are those of the active lease. *)
Definition owns (client : string) (lease : Z) (a : LeaseSnapshot) : bool :=
  bool_decide (ls_client_id a = client) && (ls_lease_id a =? lease).

Definition authorize (client : string) (lease sequence : Z) (channel : SequenceChannel)
    (refresh : bool) (now : Z) (m : LeaseManager) : ProtocolError * LeaseManager :=
  match active_ m with
  | None => (PeNoLease, m)
  | Some a =>
      if (ls_expires_at a <=? now) || negb (owns client lease a) then (PeNoLease, m)
      else
        let stale := match last_sequence channel m with
                     | Some last => sequence <=? last
                     | None => false
                     end in
        if stale then (PeStaleSequence, m)
        else
          let m' := set_last_sequence channel sequence m in
          (PeOk, if refresh then renewed a (now + timeout_ m) m' else m')
  end.

Definition heartbeat (client : string) (lease sequence now : Z) (m : LeaseManager)
    : ProtocolError * LeaseManager :=
  authorize client lease sequence Control true now m.

Definition refresh_after_control (client : string) (lease now : Z) (m : LeaseManager)
    : ProtocolError * LeaseManager :=
  match active_ m with
  | None => (PeNoLease, m)
  | Some a =>
      if negb (owns client lease a) then (PeNoLease, m)
      else (PeOk, renewed a (now + timeout_ m) m)
  end.

Definition release (client : string) (lease : Z) (reason : string) (m : LeaseManager)
    : ProtocolError * option string * LeaseManager :=
  match active_ m with
  | None => (PeNoLease, None, m)
  | Some a =>
      if negb (owns client lease a) then (PeNoLease, None, m)
      else (PeOk, Some reason, no_lease m)
  end.

Definition expire_if_needed (now : Z) (m : LeaseManager) : bool * option string * LeaseManager :=
  match active_ m with
  | None => (false, None, m)
  | Some a =>
      if ls_expires_at a <=? now then (true, Some "control lease expired", no_lease m)
      else (false, None, m)
  end.

Definition revoke (reason : string) (m : LeaseManager) : option string * LeaseManager :=
  (match active_ m with Some _ => Some reason | None => None end, no_lease m).

Definition snapshot (m : LeaseManager) : option LeaseSnapshot := active_ m.

(** ** Histories

    Any sequence of calls, from any clients, at any times. *)
Inductive LeaseOp :=
| OpAcquire (client : string)
| OpAuthorize (client : string) (lease sequence : Z) (channel : SequenceChannel) (refresh : bool)
| OpHeartbeat (client : string) (lease sequence : Z)
| OpRefresh (client : string) (lease : Z)
| OpRelease (client : string) (lease : Z) (reason : string)
| OpExpire
| OpRevoke (reason : string).

(** What one call did. *)
Record LeaseEvent := {
  le_now : Z;
  le_op : LeaseOp;
  le_error : ProtocolError;
  le_lease : option LeaseSnapshot;
  le_lost : option string
}.

Definition lease_call (now : Z) (op : LeaseOp) (m : LeaseManager) : LeaseEvent * LeaseManager :=
  let event e l lost := {| le_now := now; le_op := op; le_error := e; le_lease := l;
                           le_lost := lost |} in
  match op with
  | OpAcquire client =>
      match acquire client now m with
      | (Value a, m') => (event PeOk (Some a) None, m')
      | (Error s, m') => (event (map_runtime_error (status_code s)) None None, m')
      end
  | OpAuthorize client lease sequence channel refresh =>
      let '(e, m') := authorize client lease sequence channel refresh now m in (event e None None, m')
  | OpHeartbeat client lease sequence =>
      let '(e, m') := heartbeat client lease sequence now m in (event e None None, m')
  | OpRefresh client lease =>
      let '(e, m') := refresh_after_control client lease now m in (event e None None, m')
  | OpRelease client lease reason =>
      let '(e, lost, m') := release client lease reason m in (event e None lost, m')
  | OpExpire => let '(_, lost, m') := expire_if_needed now m in (event PeOk None lost, m')
  | OpRevoke reason => let '(lost, m') := revoke reason m in (event PeOk None lost, m')
  end.

Fixpoint lease_run (calls : list (Z * LeaseOp)) (m : LeaseManager)
    : list LeaseEvent * LeaseManager :=
  match calls with
  | [] => ([], m)
  | (now, op) :: rest =>
      let '(e, m1) := lease_call now op m in
      let '(es, m2) := lease_run rest m1 in
      (e :: es, m2)
  end.

(** The request an event accepted: client, lease, sequence and channel. *)
Definition accepted (e : LeaseEvent) : option (string * Z * Z * SequenceChannel) :=
  if decide (le_error e = PeOk) then
    match le_op e with
    | OpAuthorize client lease sequence channel _ => Some (client, lease, sequence, channel)
    | OpHeartbeat client lease sequence => Some (client, lease, sequence, Control)
    | _ => None
    end
  else None.

(** The client and lease an event granted or renewed, and until when. *)
Definition renewal (timeout : Z) (e : LeaseEvent) : option (string * Z * Z) :=
  if decide (le_error e = PeOk) then
    match le_op e with
    | OpAcquire client =>
        match le_lease e with
        | Some a => Some (client, ls_lease_id a, le_now e + timeout)
        | None => None
        end
    | OpAuthorize client lease _ _ true => Some (client, lease, le_now e + timeout)
    | OpHeartbeat client lease _ => Some (client, lease, le_now e + timeout)
    | OpRefresh client lease => Some (client, lease, le_now e + timeout)
    | _ => None
    end
  else None.

(** ** The invariant of a history *)

Lemma owns_spec client lease a :
  owns client lease a = true <-> ls_client_id a = client /\ ls_lease_id a = lease.
Proof. unfold owns. by rewrite andb_true_iff, bool_decide_eq_true, Z.eqb_eq. Qed.

(** What one call can do to the manager. *)
Inductive lease_change (now : Z) (m : LeaseManager) (e : LeaseEvent) : LeaseManager -> Prop :=
| ChangeNothing : accepted e = None -> le_lost e = None -> lease_change now m e m
| ChangeGrant client :
    accepted e = None -> le_lost e = None ->
    renewal (timeout_ m) e = Some (client, next_lease_id_ m, now + timeout_ m) ->
    lease_change now m e (granted client now m)
| ChangeRenew a :
    active_ m = Some a -> accepted e = None -> le_lost e = None ->
    renewal (timeout_ m) e = Some (ls_client_id a, ls_lease_id a, now + timeout_ m) ->
    lease_change now m e (renewed a (now + timeout_ m) m)
| ChangeAccept a sequence channel :
    active_ m = Some a -> now < ls_expires_at a ->
    accepted e = Some (ls_client_id a, ls_lease_id a, sequence, channel) -> le_lost e = None ->
    (forall last, last_sequence channel m = Some last -> last < sequence) ->
    lease_change now m e (set_last_sequence channel sequence m)
| ChangeAcceptRenew a sequence channel :
    active_ m = Some a -> now < ls_expires_at a ->
    accepted e = Some (ls_client_id a, ls_lease_id a, sequence, channel) -> le_lost e = None ->
    (forall last, last_sequence channel m = Some last -> last < sequence) ->
    renewal (timeout_ m) e = Some (ls_client_id a, ls_lease_id a, now + timeout_ m) ->
    lease_change now m e (renewed a (now + timeout_ m) (set_last_sequence channel sequence m))
| ChangeEnd :
    accepted e = None -> (le_lost e = None <-> active_ m = None) ->
    lease_change now m e (no_lease m).

Lemma authorize_change now m client lease sequence channel refresh pe m' op :
  authorize client lease sequence channel refresh now m = (pe, m') ->
  op = OpAuthorize client lease sequence channel refresh \/
    (op = OpHeartbeat client lease sequence /\ channel = Control /\ refresh = true) ->
  lease_change now m {| le_now := now; le_op := op; le_error := pe; le_lease := None;
                        le_lost := None |} m'.
Proof.
  intros H Hop. unfold authorize in H.
  assert (Hnone : pe <> PeOk -> accepted {| le_now := now; le_op := op; le_error := pe;
    le_lease := None; le_lost := None |} = None) by (intros; unfold accepted; simpl; by case_decide).
  destruct (active_ m) as [a|] eqn:Ea; [|injection H as <- <-; constructor; [by apply Hnone|done]].
  destruct (Z.leb_spec (ls_expires_at a) now); [injection H as <- <-; constructor; [by apply Hnone|done]|].
  destruct (owns client lease a) eqn:Eo; simpl in H;
    [|injection H as <- <-; constructor; [by apply Hnone|done]].
  apply owns_spec in Eo as [<- <-].
  destruct (match last_sequence channel m with Some last => sequence <=? last | None => false end)
    eqn:Es; [injection H as <- <-; constructor; [by apply Hnone|done]|].
  assert (Hlast : forall last, last_sequence channel m = Some last -> last < sequence)
    by (intros last El; rewrite El in Es; lia).
  injection H as <- <-. destruct Hop as [->|(-> & -> & ->)]; [destruct refresh|].
  - by eapply (ChangeAcceptRenew _ _ _ a).
  - by eapply (ChangeAccept _ _ _ a).
  - by eapply (ChangeAcceptRenew _ _ _ a).
Qed.

Lemma lease_call_change now op m e m' :
  lease_call now op m = (e, m') -> lease_change now m e m' /\ le_now e = now.
Proof.
  destruct op as [client|client lease sequence channel refresh|client lease sequence|client lease
    |client lease reason| |reason]; cbn [lease_call].
  - unfold acquire. destruct (str_empty client || _).
    { intros [= <- <-]. split; [|done]. by constructor. }
    destruct (active_ m) as [a|] eqn:Ea.
    + destruct (Z.ltb_spec now (ls_expires_at a)) as [Hlt|Hle], (decide (ls_client_id a = client)) as [Hc|Hc];
        [rewrite (bool_decide_true _ Hc)|rewrite (bool_decide_false _ Hc)|
         rewrite (bool_decide_true _ Hc)|rewrite (bool_decide_false _ Hc)]; simpl.
      * destruct (Z.leb_spec (ls_expires_at a) now); [lia|]. intros [= <- <-]. split; [|done].
        subst client. by eapply (ChangeRenew _ _ _ a).
      * intros [= <- <-]. split; [|done]. by constructor.
      * destruct (Z.leb_spec (ls_expires_at a) now); [|lia]. intros [= <- <-]. split; [|done].
        by apply ChangeGrant.
      * intros [= <- <-]. split; [|done]. by apply ChangeGrant.
    + intros [= <- <-]. split; [|done]. by apply ChangeGrant.
  - destruct (authorize client lease sequence channel refresh now m) as [pe m1] eqn:E.
    intros [= <- <-]. split; [|done]. eapply authorize_change; eauto.
  - unfold heartbeat. destruct (authorize client lease sequence Control true now m) as [pe m1] eqn:E.
    intros [= <- <-]. split; [|done]. eapply authorize_change; eauto.
  - unfold refresh_after_control. destruct (active_ m) as [a|] eqn:Ea;
      [destruct (owns client lease a) eqn:Eo; simpl|]; intros [= <- <-]; (split; [|done]).
    + apply owns_spec in Eo as [<- <-]. by eapply (ChangeRenew _ _ _ a).
    + by constructor.
    + by constructor.
  - unfold release. destruct (active_ m) as [a|] eqn:Ea;
      [destruct (owns client lease a) eqn:Eo; simpl|]; intros [= <- <-]; (split; [|done]);
      [by apply ChangeEnd; [|rewrite Ea]|by constructor|by constructor].
  - unfold expire_if_needed. destruct (active_ m) as [a|] eqn:Ea;
      [destruct (ls_expires_at a <=? now)|]; intros [= <- <-]; (split; [|done]);
      [by apply ChangeEnd; [|rewrite Ea]|by constructor|by constructor].
  - unfold revoke. destruct (active_ m) as [a|] eqn:Ea; intros [= <- <-]; (split; [|done]);
      by apply ChangeEnd; [|rewrite Ea].
Qed.

(** What a history has established: [past] is the calls made, newest first. *)
Record lease_inv (past : list LeaseEvent) (m : LeaseManager) : Prop := {
  li_next : 1 <= next_lease_id_ m;
  li_accepted : forall e c l s ch, e ∈ past -> accepted e = Some (c, l, s, ch) ->
    l < next_lease_id_ m;
  li_active : forall a, active_ m = Some a ->
    next_lease_id_ m = ls_lease_id a + 1 /\
    (forall e c s ch, e ∈ past -> accepted e = Some (c, ls_lease_id a, s, ch) ->
       c = ls_client_id a /\ exists last, last_sequence ch m = Some last /\ s <= last) /\
    (exists e, e ∈ past /\
       renewal (timeout_ m) e = Some (ls_client_id a, ls_lease_id a, ls_expires_at a))
}.

Lemma renewed_inv past m a e until :
  lease_inv past m -> active_ m = Some a -> accepted e = None ->
  renewal (timeout_ m) e = Some (ls_client_id a, ls_lease_id a, until) ->
  lease_inv (e :: past) (renewed a until m).
Proof.
  intros [Hn Ha Hact] Em Hacc Hr. destruct (Hact a Em) as (Hnext & Hold & _). split; simpl; [done| |].
  - intros e' c l s ch [->|Hin]%elem_of_cons He'; [congruence|by eapply Ha].
  - intros b [= <-]. simpl. split_and!; [done| |exists e; split; [by left|done]].
    intros e' c s ch [->|Hin]%elem_of_cons He'; [congruence|].
    destruct (Hold e' c s ch Hin He') as (Hc & last & Hl & Hle). split; [done|].
    exists last. by destruct ch.
Qed.

Lemma set_last_inv past m a e channel sequence :
  lease_inv past m -> active_ m = Some a ->
  accepted e = Some (ls_client_id a, ls_lease_id a, sequence, channel) ->
  (forall last, last_sequence channel m = Some last -> last < sequence) ->
  lease_inv (e :: past) (set_last_sequence channel sequence m).
Proof.
  intros [Hn Ha Hact] Em Hacc Hlast. destruct (Hact a Em) as (Hnext & Hold & r & Hr & Hren).
  split; simpl; [done| |].
  - intros e' c l s ch [->|Hin]%elem_of_cons He'; [|by eapply Ha].
    assert (l = ls_lease_id a) as -> by congruence. lia.
  - intros b Hb. assert (b = a) as -> by congruence.
    split_and!; [done| |exists r; split; [by right|done]].
    intros e' c s ch [->|Hin]%elem_of_cons He'.
    + assert (c = ls_client_id a /\ s = sequence /\ ch = channel) as (-> & -> & ->)
        by (split_and!; congruence).
      split; [done|]. exists sequence. split; [by destruct channel|lia].
    + destruct (Hold e' c s ch Hin He') as (-> & last & Hl & Hle). split; [done|].
      destruct (decide (ch = channel)) as [->|Hne].
      * exists sequence. pose proof (Hlast last Hl). split; [by destruct channel|lia].
      * exists last. split; [|done]. by destruct ch, channel.
Qed.

Lemma lease_change_inv now past m e m' :
  lease_inv past m -> next_lease_id_ m + 1 < 2 ^ 64 -> lease_change now m e m' ->
  lease_inv (e :: past) m' /\ next_lease_id_ m <= next_lease_id_ m' <= next_lease_id_ m + 1 /\
  timeout_ m' = timeout_ m.
Proof.
  intros Hinv Hw H. pose proof Hinv as [Hn Ha Hact].
  destruct H as [Hacc _|client Hacc _ Hren|a Em Hacc _ Hren|a s ch Em Hnow Hacc _ Hlast
    |a s ch Em Hnow Hacc _ Hlast Hren|Hacc _]; (split; [|simpl; try lia]).
  - split; [done| |].
    + intros e' c l s ch [->|Hin]%elem_of_cons He'; [congruence|by eapply Ha].
    + intros a Em. destruct (Hact a Em) as (Hnext & Hold & r & Hr & Hren).
      split_and!; [done| |exists r; split; [by right|done]].
      intros e' c s ch [->|Hin]%elem_of_cons He'; [congruence|by eapply Hold].
  - assert (Hu : u64 (next_lease_id_ m + 1) = next_lease_id_ m + 1)
      by (apply wrap_small; unfold in_word; lia).
    split; simpl; rewrite Hu; [lia| |].
    + intros e' c l s ch [->|Hin]%elem_of_cons He'; [congruence|].
      pose proof (Ha _ _ _ _ _ Hin He'). lia.
    + intros b [= <-]. simpl. split_and!; [done| |exists e; split; [by left|done]].
      intros e' c s ch [->|Hin]%elem_of_cons He'; [congruence|].
      pose proof (Ha _ _ _ _ _ Hin He'). lia.
  - unfold u64. rewrite wrap_small by (unfold in_word; lia). lia.
  - apply renewed_inv; auto.
  - by eapply set_last_inv.
  - pose proof (set_last_inv _ _ _ _ _ _ Hinv Em Hacc Hlast) as Hset.
    pose proof Hset as [_ Ha2 Hact2]. destruct (Hact2 a Em) as (Hnext & Hold & _).
    split; simpl; [done|exact Ha2|]. intros b [= <-]. simpl.
    split_and!; [done| |exists e; split; [by left|done]].
    intros e' c s1 ch1 Hin He'. destruct (Hold e' c s1 ch1 Hin He') as (Hc & last & Hl & Hle).
    split; [done|]. exists last. by destruct ch1.
  - split; simpl; [done| |done].
    intros e' c l s ch [->|Hin]%elem_of_cons He'; [congruence|by eapply Ha].
Qed.

(** The order in which requests are accepted: leases in the order they were
    granted, one owner per lease, and within a lease every channel strictly
    ascending. *)
Definition ordered (e1 e2 : LeaseEvent) : Prop :=
  match accepted e1, accepted e2 with
  | Some (c1, l1, s1, ch1), Some (c2, l2, s2, ch2) =>
      l1 < l2 \/ (l1 = l2 /\ c1 = c2 /\ (ch1 = ch2 -> s1 < s2))
  | _, _ => True
  end.

Lemma lease_change_ordered now past m e m' :
  lease_inv past m -> lease_change now m e m' -> Forall (fun e0 => ordered e0 e) past.
Proof.
  intros [Hn Ha Hact] H. apply Forall_forall. intros e0 Hin. unfold ordered.
  destruct (accepted e0) as [[[[c0 l0] s0] ch0]|] eqn:E0; [|done].
  assert (Hcase : accepted e = None \/ exists a s ch, active_ m = Some a /\
    accepted e = Some (ls_client_id a, ls_lease_id a, s, ch) /\
    forall last, last_sequence ch m = Some last -> last < s)
    by (destruct H; eauto 10).
  destruct Hcase as [->|(a & s & ch & Em & -> & Hlast)]; [done|].
  destruct (Hact a Em) as (Hnext & Hold & _).
  destruct (decide (l0 = ls_lease_id a)) as [->|Hne].
  - right. destruct (Hold e0 _ _ _ Hin E0) as (-> & last & Hl & Hle).
    split_and!; [done|done|]. intros ->. pose proof (Hlast last Hl). lia.
  - left. pose proof (Ha _ _ _ _ _ Hin E0). lia.
Qed.

(** A request is accepted before the last renewal of its lease runs out. *)
Lemma lease_change_fresh now past m e m' c l s ch :
  lease_inv past m -> lease_change now m e m' -> accepted e = Some (c, l, s, ch) ->
  exists r until, r ∈ past /\ renewal (timeout_ m) r = Some (c, l, until) /\ now < until.
Proof.
  intros [_ _ Hact] H Hacc.
  assert (Hcase : exists a, active_ m = Some a /\ now < ls_expires_at a /\
    ls_client_id a = c /\ ls_lease_id a = l) by (destruct H; simplify_eq; eauto 10).
  destruct Hcase as (a & Em & Hnow & <- & <-). destruct (Hact a Em) as (_ & _ & r & Hr & Hren).
  by exists r, (ls_expires_at a).
Qed.

Lemma lease_run_history calls : forall past m es m',
  lease_run calls m = (es, m') -> lease_inv past m ->
  next_lease_id_ m + Z.of_nat (length calls) < 2 ^ 64 ->
  lease_inv (rev es ++ past) m' /\
  (forall i e, es !! i = Some e -> Forall (fun e0 => ordered e0 e) (rev (take i es) ++ past)) /\
  (forall i e c l s ch, es !! i = Some e -> accepted e = Some (c, l, s, ch) ->
     exists r until, r ∈ rev (take i es) ++ past /\
       renewal (timeout_ m) r = Some (c, l, until) /\ le_now e < until).
Proof.
  induction calls as [|[now op] calls IH]; intros past m es m' H Hinv Hw; simpl in H.
  { injection H as <- <-. split_and!; [done|by intros [|i]|by intros [|i]]. }
  destruct (lease_call now op m) as [e m1] eqn:E1.
  destruct (lease_run calls m1) as [es1 m2] eqn:E2. injection H as <- <-.
  apply lease_call_change in E1 as [Hc Hnow]. cbn [length] in Hw.
  destruct (lease_change_inv _ _ _ _ _ Hinv ltac:(lia) Hc) as (Hinv1 & Hn & Ht).
  destruct (IH (e :: past) m1 es1 m2 E2 Hinv1 ltac:(lia)) as (H1 & H2 & H3).
  rewrite Ht in H3. split_and!.
  - simpl. by rewrite <- app_assoc.
  - intros [|i] e' He'; simpl in He'.
    + injection He' as <-. by eapply lease_change_ordered.
    + simpl. rewrite <- app_assoc. by apply H2.
  - intros [|i] e' c l s ch He' Hacc; simpl in He'.
    + injection He' as <-. rewrite Hnow. by eapply lease_change_fresh.
    + simpl. rewrite <- app_assoc. by eapply H3.
Qed.

Lemma lease_run_snoc calls now op : forall m es m1 e m2,
  lease_run calls m = (es, m1) -> lease_call now op m1 = (e, m2) ->
  lease_run (calls ++ [(now, op)]) m = (es ++ [e], m2).
Proof.
  induction calls as [|[t o] calls IH]; intros m es m1 e m2 H1 H2; simpl in *.
  - injection H1 as <- <-. by rewrite H2.
  - destruct (lease_call t o m) as [e0 m0]. destruct (lease_run calls m0) as [es0 m0'] eqn:E.
    injection H1 as <- <-. by rewrite (IH _ _ _ _ _ E H2).
Qed.

Lemma lease_run_length calls : forall m, length (fst (lease_run calls m)) = length calls.
Proof.
  induction calls as [|[t o] calls IH]; intros m; simpl; [done|].
  destruct (lease_call t o m) as [e0 m0]. specialize (IH m0).
  destruct (lease_run calls m0). simpl in *. by rewrite IH.
Qed.

Lemma make_LeaseManager_inv timeout : lease_inv [] (make_LeaseManager timeout).
Proof. split; simpl; [lia| |done]. intros e c l s ch Hin. by apply elem_of_nil in Hin. Qed.

Lemma lease_run_ordered timeout calls es m i j e1 e2 :
  lease_run calls (make_LeaseManager timeout) = (es, m) ->
  Z.of_nat (length calls) < 2 ^ 64 - 1 ->
  (i < j)%nat -> es !! i = Some e1 -> es !! j = Some e2 -> ordered e1 e2.
Proof.
  intros R Hn Hij E1 E2.
  destruct (lease_run_history _ [] _ _ _ R (make_LeaseManager_inv timeout)) as (_ & H & _);
    [simpl; lia|].
  specialize (H j e2 E2). rewrite Forall_forall in H. apply H. rewrite app_nil_r.
  rewrite list_elem_of_In, <- in_rev, <- list_elem_of_In.
  apply list_elem_of_lookup. exists i. by rewrite lookup_take_lt.
Qed.

(** C23. Over any history of calls by any clients the accepted requests come in
    order: a lease id never returns once a later one was accepted, all requests
    of one lease are its one owner's, and the sequence numbers of each channel
    of a lease strictly ascend, so no request is accepted twice. *)
Theorem lease_requests_ordered timeout calls i j e1 e2 :
  Z.of_nat (length calls) < 2 ^ 64 - 1 ->
  let es := fst (lease_run calls (make_LeaseManager timeout)) in
  (i < j)%nat -> es !! i = Some e1 -> es !! j = Some e2 -> ordered e1 e2.
Proof.
  intros Hn es. apply (lease_run_ordered timeout calls _ (snd (lease_run calls (make_LeaseManager timeout))));
    [apply surjective_pairing|done].
Qed.

(** C24. A dead man's switch: every accepted request was preceded by a call in
    which the same client acquired or renewed the same lease, less than the
    timeout ago. *)
Theorem lease_requests_fresh timeout calls j e c l s ch :
  Z.of_nat (length calls) < 2 ^ 64 - 1 ->
  let es := fst (lease_run calls (make_LeaseManager timeout)) in
  es !! j = Some e -> accepted e = Some (c, l, s, ch) ->
  exists i r, (i < j)%nat /\ es !! i = Some r /\
    exists until, renewal timeout r = Some (c, l, until) /\ le_now e < until.
Proof.
  intros Hn es E Hacc. unfold es in *.
  destruct (lease_run calls (make_LeaseManager timeout)) as [es' m'] eqn:R.
  destruct (lease_run_history _ [] _ _ _ R (make_LeaseManager_inv timeout)) as (_ & _ & H);
    [simpl; lia|].
  destruct (H j e c l s ch E Hacc) as (r & until & Hr & Hren & Hnow).
  rewrite app_nil_r in Hr.
  rewrite list_elem_of_In, <- in_rev, <- list_elem_of_In in Hr.
  apply list_elem_of_lookup in Hr as [i Hi]. simpl in E.
  apply lookup_take_Some in Hi as [Hi Hlt].
  exists i, r. split_and!; [done|done|]. by exists until.
Qed.

(** The lost callback runs exactly when a call leaves the robot without an
    owner it had before: on release, expiry and revocation. *)
Theorem lease_lost_notified now op m e m' :
  lease_call now op m = (e, m') ->
  le_lost e <> None <-> (exists a, active_ m = Some a) /\ active_ m' = None.
Proof.
  intros [H _]%lease_call_change.
  destruct H as [_ ->|client _ -> _|a Em _ -> _|a s ch Em _ _ -> _|a s ch Em _ _ -> _ _|_ Hl]; simpl;
    rewrite ?Em; try (split; [done|]; intros [[b Hb] Hn]; congruence).
  rewrite Hl. destruct (active_ m) as [a|]; split; try done; [by eauto|by intros [[a ?] _]].
Qed.

(** A take-over that nobody is told of: a client that acquires after the
    owner's lease ran out, but before [expire_if_needed] looked, gets the robot
    without any call of the lost callback. *)
Theorem acquire_over_expired_is_silent client now m a :
  active_ m = Some a -> ls_expires_at a <= now -> ls_client_id a <> client ->
  1 <= str_size client <= 63 ->
  let '(e, m') := lease_call now (OpAcquire client) m in
  le_error e = PeOk /\ le_lost e = None /\
  active_ m' = Some {| ls_client_id := client; ls_lease_id := next_lease_id_ m;
                       ls_expires_at := now + timeout_ m |}.
Proof.
  intros Em Hexp Hc Hs. simpl. unfold acquire. rewrite str_empty_size, Em.
  destruct (Z.ltb_spec (str_size client) 1); [lia|].
  destruct (Z.ltb_spec 63 (str_size client)); [lia|]. simpl.
  destruct (Z.ltb_spec now (ls_expires_at a)); [lia|]. simpl.
  rewrite bool_decide_false by done. done.
Qed.

(** ** Witnesses *)

Definition sample_calls : list (Z * LeaseOp) := [
  (0, OpAcquire "arm-ui"); (10, OpAuthorize "arm-ui" 1 5 Control false);
  (20, OpHeartbeat "arm-ui" 1 6); (300, OpExpire); (310, OpAcquire "planner");
  (320, OpAuthorize "arm-ui" 1 7 Control false); (330, OpAuthorize "planner" 2 1 Control false)].

Definition sample_events : list LeaseEvent := fst (lease_run sample_calls (make_LeaseManager 250)).

Lemma lease_requests_ordered_witness :
  option_map accepted (sample_events !! 2%nat) = Some (Some ("arm-ui"%string, 1, 6, Control)) /\
  option_map le_error (sample_events !! 5%nat) = Some PeNoLease /\
  exists e1 e2, sample_events !! 1%nat = Some e1 /\ sample_events !! 6%nat = Some e2 /\
    ordered e1 e2.
Proof.
  split; [vm_compute; reflexivity|]. split; [vm_compute; reflexivity|].
  eexists _, _. split; [vm_compute; reflexivity|]. split; [vm_compute; reflexivity|].
  apply (lease_requests_ordered 250 sample_calls 1 6); [simpl; lia|lia| |];
    vm_compute; reflexivity.
Defined.

Lemma lease_requests_fresh_witness :
  exists i r, (i < 6)%nat /\ sample_events !! i = Some r /\
    exists until, renewal 250 r = Some ("planner"%string, 2, until) /\ 330 < until.
Proof.
  apply (lease_requests_fresh 250 sample_calls 6
    {| le_now := 330; le_op := OpAuthorize "planner" 2 1 Control false; le_error := PeOk;
       le_lease := None; le_lost := None |} "planner" 2 1 Control); [simpl; lia| |];
    vm_compute; reflexivity.
Defined.

Definition sample_lease : LeaseManager := granted "arm-ui" 0 (make_LeaseManager 250).

Lemma lease_lost_notified_witness :
  le_lost (fst (lease_call 251 OpExpire sample_lease)) = Some "control lease expired"%string /\
  ((exists a, active_ sample_lease = Some a) /\
   active_ (snd (lease_call 251 OpExpire sample_lease)) = None).
Proof.
  split; [vm_compute; reflexivity|].
  apply (lease_lost_notified 251 OpExpire sample_lease (fst (lease_call 251 OpExpire sample_lease))
    (snd (lease_call 251 OpExpire sample_lease)));
    [vm_compute; reflexivity|vm_compute; discriminate].
Defined.

Lemma acquire_over_expired_is_silent_witness :
  let '(e, m') := lease_call 251 (OpAcquire "planner") sample_lease in
  le_error e = PeOk /\ le_lost e = None /\
  active_ m' = Some {| ls_client_id := "planner"; ls_lease_id := 2; ls_expires_at := 501 |}.
Proof.
  apply (acquire_over_expired_is_silent "planner" 251 sample_lease
    {| ls_client_id := "arm-ui"; ls_lease_id := 1; ls_expires_at := 250 |});
    [reflexivity|simpl; lia|simpl; discriminate|vm_compute; split; discriminate].
Defined.
