(* ===== verification/Config.v ===== *)
(** * The service configuration

    [dds/src/config.cpp]: the line-oriented configuration file of the service
    and the CycloneDDS configuration it is turned into.  The file system is
    the argument [read]: the contents of the file, or [None] when it cannot be
    opened.  Characters are classified as the "C" locale does. *)

From stdpp Require Import pretty.
From Stdlib Require Import Ascii String.
From S2P Require Import Prelude RuntimeTypes.
#[local] Open Scope mdl_scope.

Definition text_of (s : string) : list ascii := list_ascii_of_string s.
Definition string_of (l : list ascii) : string := string_of_list_ascii l.

Definition code (c : ascii) : Z := Z.of_N (N_of_ascii c).
Definition between (lo hi : Z) (c : ascii) : bool := (lo <=? code c) && (code c <=? hi).

Definition isspace (c : ascii) : bool := between 9 13 c || (code c =? 32).
Definition isdigit (c : ascii) : bool := between 48 57 c.
Definition isalnum (c : ascii) : bool := isdigit c || between 65 90 c || between 97 122 c.

Fixpoint drop_while (p : ascii -> bool) (l : list ascii) : list ascii :=
  match l with
  | [] => []
  | c :: t => if p c then drop_while p t else l
  end.

Definition trim (value : string) : string :=
  string_of (rev (drop_while isspace (rev (drop_while isspace (text_of value))))).

(** The pieces [std::getline] reads one after the other: what follows the last
    delimiter is a piece only when it is not empty. *)
Fixpoint getlines (delimiter : ascii) (piece : list ascii) (l : list ascii) : list (list ascii) :=
  match l with
  | [] => match piece with [] => [] | _ => [rev piece] end
  | c :: t =>
      if bool_decide (c = delimiter) then rev piece :: getlines delimiter [] t
      else getlines delimiter (c :: piece) t
  end.

Definition comma : ascii := ascii_of_N 44.
Definition newline : ascii := ascii_of_N 10.
Definition equals : ascii := ascii_of_N 61.

Definition split (text : string) : list string :=
  filter (fun v => str_empty v = false) (map (fun p => trim (string_of p)) (getlines comma [] (text_of text))).

Section Parsing.
Context {S : Type}.

Definition boolean (value : string) : M S bool :=
  if bool_decide (value = "true"%string) || bool_decide (value = "yes"%string) ||
     bool_decide (value = "1"%string) then ret true
  else if bool_decide (value = "false"%string) || bool_decide (value = "no"%string) ||
     bool_decide (value = "0"%string) then ret false
  else throw (InvalidArgument ("invalid boolean: " ++ value)).

(** [strtol] and [strtoul] in base ten: blanks, a sign, the longest run of
    digits.  [None] when there is no digit; what follows the digits is
    ignored. *)
Fixpoint digits (l : list ascii) (acc : Z) : Z :=
  match l with
  | [] => acc
  | c :: t => if isdigit c then digits t (10 * acc + (code c - 48)) else acc
  end.

Definition strto (value : string) : option (bool * Z) :=
  let l := drop_while isspace (text_of value) in
  let '(negative, l) :=
    match l with
    | c :: t => if code c =? 45 then (true, t) else if code c =? 43 then (false, t) else (false, l)
    | [] => (false, l)
    end in
  match l with
  | c :: _ => if isdigit c then Some (negative, digits l 0) else None
  | [] => None
  end.

(** [std::stoul] accepts a minus sign and wraps. *)
Definition stoul (value : string) : M S Z :=
  match strto value with
  | None => throw (InvalidArgument "stoul")
  | Some (negative, n) =>
      if 2 ^ 64 <=? n then throw (LogicError "stoul")
      else ret (if negative then u64 (- n) else n)
  end.

Definition stoi (value : string) : M S Z :=
  match strto value with
  | None => throw (InvalidArgument "stoi")
  | Some (negative, n) =>
      let z := if negative then - n else n in
      if (z <? - 2 ^ 31) || (2 ^ 31 <=? z) then throw (LogicError "stoi") else ret z
  end.

End Parsing.

Definition valid_interface (value : string) : bool :=
  negb (str_empty value) && (str_size value <=? 15) &&
  forallb (fun c => isalnum c || (code c =? 45) || (code c =? 95) || (code c =? 46) || (code c =? 58))
    (text_of value).

(** [ServiceConfig]; the retry durations in milliseconds.  The test hook
    [before_control_execute_for_testing] is left out: nothing but a test sets
    it. *)
Record ServiceConfig := {
  cfg_robot_id : string;
  cfg_domain_id : Z;
  cfg_network_interfaces : list string;
  cfg_runtime : YunyiRuntimeConfig;
  can_retry_initial : Z;
  can_retry_max : Z
}.

Definition default_ServiceConfig : ServiceConfig := {|
  cfg_robot_id := "yunyi-001"; cfg_domain_id := 0; cfg_network_interfaces := ["eth0"%string];
  cfg_runtime := default_YunyiRuntimeConfig; can_retry_initial := 250; can_retry_max := 5000
|}.

(** ** Assignments *)

Definition set_robot_id (v : string) (c : ServiceConfig) : ServiceConfig :=
  {| cfg_robot_id := v; cfg_domain_id := cfg_domain_id c;
     cfg_network_interfaces := cfg_network_interfaces c; cfg_runtime := cfg_runtime c;
     can_retry_initial := can_retry_initial c; can_retry_max := can_retry_max c |}.

Definition set_domain_id (v : Z) (c : ServiceConfig) : ServiceConfig :=
  {| cfg_robot_id := cfg_robot_id c; cfg_domain_id := v;
     cfg_network_interfaces := cfg_network_interfaces c; cfg_runtime := cfg_runtime c;
     can_retry_initial := can_retry_initial c; can_retry_max := can_retry_max c |}.

Definition set_network_interfaces (v : list string) (c : ServiceConfig) : ServiceConfig :=
  {| cfg_robot_id := cfg_robot_id c; cfg_domain_id := cfg_domain_id c;
     cfg_network_interfaces := v; cfg_runtime := cfg_runtime c;
     can_retry_initial := can_retry_initial c; can_retry_max := can_retry_max c |}.

Definition set_runtime (f : YunyiRuntimeConfig -> YunyiRuntimeConfig) (c : ServiceConfig)
    : ServiceConfig :=
  {| cfg_robot_id := cfg_robot_id c; cfg_domain_id := cfg_domain_id c;
     cfg_network_interfaces := cfg_network_interfaces c; cfg_runtime := f (cfg_runtime c);
     can_retry_initial := can_retry_initial c; can_retry_max := can_retry_max c |}.

Definition set_interfaces (left right : string) (r : YunyiRuntimeConfig) : YunyiRuntimeConfig :=
  {| left_can_interface := left; right_can_interface := right;
     initial_control_mode := initial_control_mode r; threads := threads r;
     feedback_max_age := feedback_max_age r; motor_watchdog := motor_watchdog r;
     motor_discovery_timeout := motor_discovery_timeout r;
     motor_discovery_retries := motor_discovery_retries r |}.

Definition set_control_mode (mode : ControlMode) (r : YunyiRuntimeConfig) : YunyiRuntimeConfig :=
  {| left_can_interface := left_can_interface r; right_can_interface := right_can_interface r;
     initial_control_mode := mode; threads := threads r;
     feedback_max_age := feedback_max_age r; motor_watchdog := motor_watchdog r;
     motor_discovery_timeout := motor_discovery_timeout r;
     motor_discovery_retries := motor_discovery_retries r |}.

Definition set_discovery (timeout retries : Z) (r : YunyiRuntimeConfig) : YunyiRuntimeConfig :=
  {| left_can_interface := left_can_interface r; right_can_interface := right_can_interface r;
     initial_control_mode := initial_control_mode r; threads := threads r;
     feedback_max_age := feedback_max_age r; motor_watchdog := motor_watchdog r;
     motor_discovery_timeout := timeout; motor_discovery_retries := retries |}.

Definition set_threads (f : ThreadPolicy -> ThreadPolicy) (r : YunyiRuntimeConfig)
    : YunyiRuntimeConfig :=
  {| left_can_interface := left_can_interface r; right_can_interface := right_can_interface r;
     initial_control_mode := initial_control_mode r; threads := f (threads r);
     feedback_max_age := feedback_max_age r; motor_watchdog := motor_watchdog r;
     motor_discovery_timeout := motor_discovery_timeout r;
     motor_discovery_retries := motor_discovery_retries r |}.

Definition set_flags (real lock : bool) (t : ThreadPolicy) : ThreadPolicy :=
  {| realtime := real; control_cpu := control_cpu t; can_tx_cpu := can_tx_cpu t;
     can_rx_cpu := can_rx_cpu t; control_priority := control_priority t;
     can_tx_priority := can_tx_priority t; can_rx_priority := can_rx_priority t;
     lock_memory := lock |}.

Definition set_cpus (control tx rx : Z) (t : ThreadPolicy) : ThreadPolicy :=
  {| realtime := realtime t; control_cpu := control; can_tx_cpu := tx; can_rx_cpu := rx;
     control_priority := control_priority t; can_tx_priority := can_tx_priority t;
     can_rx_priority := can_rx_priority t; lock_memory := lock_memory t |}.

Definition set_priorities (control tx rx : Z) (t : ThreadPolicy) : ThreadPolicy :=
  {| realtime := realtime t; control_cpu := control_cpu t; can_tx_cpu := can_tx_cpu t;
     can_rx_cpu := can_rx_cpu t; control_priority := control; can_tx_priority := tx;
     can_rx_priority := rx; lock_memory := lock_memory t |}.

(** ** The file *)

(** An unsigned long as the signed count of [std::chrono::milliseconds]. *)
Definition signed64 (z : Z) : Z := if z <? 2 ^ 63 then z else z - 2 ^ 64.

Definition set_thread_field (f : ThreadPolicy -> ThreadPolicy) : M ServiceConfig unit :=
  modify (set_runtime (set_threads f)).

(** [if (key == ...) ... else if ...]. *)
Definition assign (key value : string) : M ServiceConfig unit :=
  let key_is k := bool_decide (key = k) in
  if key_is "robot_id"%string then modify (set_robot_id value)
  else if key_is "domain_id"%string then
    do id <- stoul value; modify (set_domain_id (u32 id))
  else if key_is "dds_interfaces"%string then modify (set_network_interfaces (split value))
  else if key_is "left_can_interface"%string then
    modify (set_runtime (fun r => set_interfaces value (right_can_interface r) r))
  else if key_is "right_can_interface"%string then
    modify (set_runtime (fun r => set_interfaces (left_can_interface r) value r))
  else if key_is "with_grippers"%string then boolean value ;;; ret tt
  else if key_is "initial_control_mode"%string then
    if bool_decide (value = "pv"%string) then modify (set_runtime (set_control_mode ModePv))
    else if bool_decide (value = "mit"%string) then modify (set_runtime (set_control_mode ModeMit))
    else throw (InvalidArgument "initial_control_mode must be pv or mit")
  else if key_is "realtime"%string then
    do b <- boolean value; set_thread_field (fun t => set_flags b (lock_memory t) t)
  else if key_is "lock_memory"%string then
    do b <- boolean value; set_thread_field (fun t => set_flags (realtime t) b t)
  else if key_is "control_cpu"%string then
    do n <- stoi value; set_thread_field (fun t => set_cpus n (can_tx_cpu t) (can_rx_cpu t) t)
  else if key_is "can_tx_cpu"%string then
    do n <- stoi value; set_thread_field (fun t => set_cpus (control_cpu t) n (can_rx_cpu t) t)
  else if key_is "can_rx_cpu"%string then
    do n <- stoi value; set_thread_field (fun t => set_cpus (control_cpu t) (can_tx_cpu t) n t)
  else if key_is "control_priority"%string then
    do n <- stoi value;
    set_thread_field (fun t => set_priorities n (can_tx_priority t) (can_rx_priority t) t)
  else if key_is "can_tx_priority"%string then
    do n <- stoi value;
    set_thread_field (fun t => set_priorities (control_priority t) n (can_rx_priority t) t)
  else if key_is "can_rx_priority"%string then
    do n <- stoi value;
    set_thread_field (fun t => set_priorities (control_priority t) (can_tx_priority t) n t)
  else if key_is "motor_discovery_timeout_ms"%string then
    do n <- stoul value;
    modify (set_runtime (fun r => set_discovery (signed64 n) (motor_discovery_retries r) r))
  else if key_is "motor_discovery_retries"%string then
    do retries <- stoul value;
    if 10 <? retries then
      throw (InvalidArgument "motor_discovery_retries must be within 0..=10")
    else modify (set_runtime (fun r => set_discovery (motor_discovery_timeout r) (u32 retries) r))
  else throw (InvalidArgument ("unknown configuration key: " ++ key)).

(** [line.find('=')], as the two parts around the first separator. *)
Fixpoint cut (l : list ascii) : option (list ascii * list ascii) :=
  match l with
  | [] => None
  | c :: t =>
      if bool_decide (c = equals) then Some ([], t)
      else match cut t with
           | Some (k, v) => Some (c :: k, v)
           | None => None
           end
  end.

(** One round of the reading loop; [line_number] counts every line read. *)
Definition read_line (line_number : Z) (raw : list ascii) : M ServiceConfig unit :=
  let line := trim (string_of raw) in
  match text_of line with
  | [] => ret tt
  | c :: _ =>
      if code c =? 35 then ret tt
      else match cut (text_of line) with
      | None => throw (InvalidArgument ("missing '=' on line " ++ to_string line_number))
      | Some (k, v) => assign (trim (string_of k)) (trim (string_of v))
      end
  end.

Fixpoint read_lines (line_number : Z) (lines : list (list ascii)) : M ServiceConfig unit :=
  match lines with
  | [] => ret tt
  | l :: rest => read_line (line_number + 1) l ;;; read_lines (line_number + 1) rest
  end.

(** The checks on the finished configuration. *)
Fixpoint check_interfaces (names : list string) : M ServiceConfig unit :=
  match names with
  | [] => ret tt
  | n :: rest =>
      if valid_interface n then check_interfaces rest
      else throw (InvalidArgument ("invalid DDS interface name: " ++ n))
  end.

Definition check_config : M ServiceConfig unit :=
  do result <- gets (fun c => c);
  if str_empty (cfg_robot_id result) || (63 <? str_size (cfg_robot_id result)) then
    throw (InvalidArgument "robot_id must contain 1..63 bytes")
  else match cfg_network_interfaces result with
  | [] => throw (InvalidArgument "at least one DDS interface is required")
  | _ =>
      check_interfaces (cfg_network_interfaces result) ;;;
      if negb (valid_interface (left_can_interface (cfg_runtime result))) ||
         negb (valid_interface (right_can_interface (cfg_runtime result))) then
        throw (InvalidArgument "invalid CAN interface name")
      else if motor_discovery_timeout (cfg_runtime result) <=? 0 then
        throw (InvalidArgument "motor_discovery_timeout_ms must be positive")
      else ret tt
  end.

Definition load_body (path : string) (contents : option string) : M ServiceConfig unit :=
  match contents with
  | None => throw (RuntimeError ("cannot open configuration: " ++ path))
  | Some text => read_lines 0 (getlines newline [] (text_of text)) ;;; check_config
  end.

Definition load_service_config (read : string -> option string) (path : string)
    : Result ServiceConfig :=
  match load_body path (read path) default_ServiceConfig with
  | (Returned _, result) => Value result
  | (Thrown (InvalidArgument w), _) => Error (failure CodeInvalidArgument w)
  | (Thrown e, _) => Error (failure CodeInternalError (exn_what e))
  | _ => Error (failure CodeInternalError "")
  end.

(** ** The CycloneDDS configuration *)

Definition quote : string := String (ascii_of_N 34) EmptyString.

Fixpoint interface_elements (names : list string) (remaining : nat) : string :=
  match names with
  | [] => ""
  | n :: rest =>
      ("<NetworkInterface name=" ++ quote ++ n ++ quote ++ " priority=" ++ quote ++
       to_string (10 * Z.of_nat (remaining - 1)) ++ quote ++ " presence_required=" ++ quote ++
       "false" ++ quote ++ "/>" ++ interface_elements rest (remaining - 1))%string
  end.

Definition cyclone_uri (config : ServiceConfig) : string :=
  let names := cfg_network_interfaces config in
  ("<CycloneDDS><Domain Id=" ++ quote ++ to_string (cfg_domain_id config) ++ quote ++
   "><General><Interfaces>" ++ interface_elements names (length names) ++
   "</Interfaces><AllowMulticast>true</AllowMulticast>" ++
   "</General><Internal><Watermarks><WhcHigh>500kB</WhcHigh>" ++
   "</Watermarks></Internal></Domain></CycloneDDS>")%string.

(** ** What a loaded configuration guarantees *)

Record config_ok (c : ServiceConfig) : Prop := {
  ok_robot_id : 1 <= str_size (cfg_robot_id c) <= 63;
  ok_domain_id : in_word 32 (cfg_domain_id c);
  ok_interfaces : cfg_network_interfaces c <> [];
  ok_names : Forall (fun n => valid_interface n = true)
    (left_can_interface (cfg_runtime c) :: right_can_interface (cfg_runtime c) ::
     cfg_network_interfaces c);
  ok_timeout : 1 <= motor_discovery_timeout (cfg_runtime c);
  ok_retries : 0 <= motor_discovery_retries (cfg_runtime c) <= 10;
  ok_backoff : can_retry_initial c = 250 /\ can_retry_max c = 5000
}.

(** What every assignment keeps. *)
Definition config_ranges (c : ServiceConfig) : Prop :=
  in_word 32 (cfg_domain_id c) /\ 0 <= motor_discovery_retries (cfg_runtime c) <= 10 /\
  can_retry_initial c = 250 /\ can_retry_max c = 5000.

Definition ranges_kept (c c' : ServiceConfig) : Prop := config_ranges c -> config_ranges c'.

#[export] Instance ranges_kept_preorder : PreOrder ranges_kept.
Proof. split; [intros c H; exact H|intros c1 c2 c3 H1 H2 H; auto]. Qed.

Lemma keeps_modify_ranges f : (forall c, ranges_kept c (f c)) -> keeps ranges_kept (modify f).
Proof. intros H c. apply H. Qed.

Lemma keeps_set_runtime f :
  (forall r, motor_discovery_retries (f r) = motor_discovery_retries r) ->
  keeps ranges_kept (modify (set_runtime f)).
Proof. intros H c. unfold ranges_kept, config_ranges. simpl. by rewrite H. Qed.

Lemma keeps_set_thread_field f : keeps ranges_kept (set_thread_field f).
Proof. by apply keeps_set_runtime. Qed.

Lemma keeps_boolean value : keeps ranges_kept (boolean value).
Proof. unfold boolean. keeps_tac. Qed.

Lemma keeps_stoul value : keeps ranges_kept (stoul value).
Proof. unfold stoul. keeps_tac. Qed.

Lemma keeps_stoi value : keeps ranges_kept (stoi value).
Proof. unfold stoi. keeps_tac. Qed.

Lemma digits_nonneg l acc : 0 <= acc -> 0 <= digits l acc.
Proof.
  revert acc. induction l as [|c l IH]; intros acc H; simpl; [done|].
  destruct (isdigit c) eqn:E; [|done]. apply IH.
  unfold isdigit, between in E. lia.
Qed.

Lemma stoul_range {S} value (s : S) n s' : stoul value s = (Returned n, s') -> in_word 64 n.
Proof.
  unfold stoul. destruct (strto value) as [[negative n0]|] eqn:E; [|done].
  destruct (Z.leb_spec (2 ^ 64) n0); [done|]. intros [= <- <-].
  assert (0 <= n0).
  { unfold strto in E. repeat case_match; simplify_eq; by apply digits_nonneg. }
  destruct negative; [apply wrap_bounds; lia|unfold in_word; lia].
Qed.

#[export] Hint Resolve keeps_set_thread_field keeps_boolean keeps_stoul keeps_stoi : keeps.

Lemma keeps_retries value :
  keeps ranges_kept (do retries <- stoul value;
    if 10 <? retries then throw (InvalidArgument "motor_discovery_retries must be within 0..=10")
    else modify (set_runtime (fun r => set_discovery (motor_discovery_timeout r) (u32 retries) r))).
Proof.
  intros c. unfold bind. destruct (stoul value c) as [o c1] eqn:E.
  pose proof (keeps_returned _ _ _ _ _ (keeps_stoul value) E) as H. destruct o as [n| | |]; try exact H.
  pose proof (stoul_range _ _ _ _ E) as Hn.
  destruct (Z.ltb_spec 10 n); [exact H|]. intros (H1 & H2 & H3)%H. split; [exact H1|]. split; [|exact H3].
  simpl. unfold u32. rewrite wrap_small; unfold in_word in *; lia.
Qed.

Lemma keeps_domain value : keeps ranges_kept (do id <- stoul value; modify (set_domain_id (u32 id))).
Proof.
  apply keeps_bind; [apply _|apply keeps_stoul|]. intros id c (_ & H). split; [|exact H].
  simpl. apply wrap_bounds. lia.
Qed.

Lemma keeps_assign key value : keeps ranges_kept (assign key value).
Proof.
  unfold assign. repeat case_match; try (by auto using keeps_domain, keeps_retries with keeps).
  all: try (by apply keeps_set_runtime).
  all: try (apply keeps_bind; [apply _|by auto with keeps|intros x]).
  all: try (by auto with keeps).
  all: try (by apply keeps_set_runtime).
  all: apply keeps_modify_ranges; intros c H'; exact H'.
Qed.

Lemma keeps_read_lines lines n : keeps ranges_kept (read_lines n lines).
Proof.
  revert n. induction lines as [|l lines IH]; intros n; simpl; [apply keeps_ret; apply _|].
  apply keeps_bind; [apply _| |intros _; apply IH].
  unfold read_line. destruct (text_of _); [apply keeps_ret; apply _|].
  destruct (code a =? 35); [apply keeps_ret; apply _|].
  destruct (cut _) as [[k v]|]; [apply keeps_assign|apply keeps_throw; apply _].
Qed.

Lemma check_interfaces_returned names c c' :
  check_interfaces names c = (Returned tt, c') ->
  c' = c /\ Forall (fun n => valid_interface n = true) names.
Proof.
  induction names as [|n names IH]; simpl; [by intros [= <-]|].
  destruct (valid_interface n) eqn:E; [|done]. intros [-> H]%IH. split; [done|by constructor].
Qed.

Lemma check_config_returned c c' :
  config_ranges c -> check_config c = (Returned tt, c') -> c' = c /\ config_ok c.
Proof.
  intros (Hd & Hr & Hb) H. unfold check_config in H.
  apply bind_returned in H as (c0 & c1 & [= <- <-] & H).
  destruct (str_empty (cfg_robot_id c)) eqn:Ee; [done|]. simpl in H.
  destruct (Z.ltb_spec 63 (str_size (cfg_robot_id c))); [done|].
  destruct (cfg_network_interfaces c) as [|n names] eqn:En; [done|].
  apply bind_returned in H as ([] & c1 & [-> Hall]%check_interfaces_returned & H).
  destruct (valid_interface (left_can_interface (cfg_runtime c))) eqn:El; [|done].
  destruct (valid_interface (right_can_interface (cfg_runtime c))) eqn:Er; [|done]. simpl in H.
  destruct (Z.leb_spec (motor_discovery_timeout (cfg_runtime c)) 0); [done|].
  injection H as <-. split; [done|]. split; rewrite ?En; try done; [|by do 2 (constructor; [done|])|lia].
  destruct (cfg_robot_id c); [done|]. unfold str_size in *. cbn [String.length] in *. lia.
Qed.

Lemma load_body_returned path contents c :
  load_body path contents default_ServiceConfig = (Returned tt, c) -> config_ok c.
Proof.
  destruct contents as [text|]; [|done]. cbn [load_body]. intros H.
  apply bind_returned in H as ([] & c1 & Hl & Hc).
  apply keeps_returned with (R := ranges_kept) in Hl; [|apply keeps_read_lines].
  apply check_config_returned in Hc as [-> Hok]; [done|].
  apply Hl. unfold config_ranges, in_word. simpl. lia.
Qed.

Lemma load_service_config_value read path c :
  load_service_config read path = Value c ->
  load_body path (read path) default_ServiceConfig = (Returned tt, c).
Proof.
  unfold load_service_config. destruct (load_body _ _ _) as [[[]|[]| |] c'] eqn:E; congruence.
Qed.

(** Whatever the file says, a configuration that loads is one the service
    can run with: a robot name of 1 to 63 bytes, at least one DDS interface,
    interface names without any character that means something to a shell, to
    XML or to the kernel, a positive discovery timeout and at most ten
    retries. *)
Theorem load_service_config_ok read path c :
  load_service_config read path = Value c -> config_ok c.
Proof. intros H%load_service_config_value. by eapply load_body_returned. Qed.

(** ** Lists of interfaces survive being written and read *)

Lemma text_of_app a b : text_of (a ++ b)%string = text_of a ++ text_of b.
Proof. induction a as [|c a IH]; simpl; [done|]. by rewrite IH. Qed.

Lemma string_of_text s : string_of (text_of s) = s.
Proof. apply string_of_list_ascii_of_string. Qed.

Lemma drop_while_none p l : Forall (fun c => p c = false) l -> drop_while p l = l.
Proof. destruct 1 as [|c l H _]; simpl; [done|by rewrite H]. Qed.

Lemma trim_id s : Forall (fun c => isspace c = false) (text_of s) -> trim s = s.
Proof.
  intros H. unfold trim. rewrite (drop_while_none _ _ H), drop_while_none.
  - by rewrite rev_involutive, string_of_text.
  - rewrite Forall_forall in *. intros c Hc. apply H.
    by rewrite list_elem_of_In, in_rev, <- list_elem_of_In.
Qed.

Lemma getlines_piece d piece l rest :
  Forall (fun c => c <> d) l ->
  getlines d piece (l ++ d :: rest) = rev (rev l ++ piece) :: getlines d [] rest.
Proof.
  revert piece. induction l as [|c l IH]; intros piece H; simpl.
  { by rewrite bool_decide_true. }
  inversion H as [|? ? Hc Hl]; subst. rewrite bool_decide_false by done.
  rewrite IH by done. by rewrite <- app_assoc.
Qed.

Lemma getlines_last d piece l :
  Forall (fun c => c <> d) l -> l <> [] -> getlines d piece l = [rev (rev l ++ piece)].
Proof.
  revert piece. induction l as [|c l IH]; intros piece H Hne; [done|]. simpl.
  inversion H as [|? ? Hc Hl]; subst. rewrite bool_decide_false by done.
  destruct l as [|c' l']; [by destruct piece|].
  rewrite IH by done. by rewrite <- app_assoc.
Qed.

(** Every character of a valid name is none of those the formats use. *)
Lemma valid_interface_chars n :
  valid_interface n = true ->
  n <> ""%string /\
  Forall (fun c => isspace c = false /\ c <> comma /\ code c <> 34 /\ code c <> 60) (text_of n).
Proof.
  unfold valid_interface. rewrite !andb_true_iff, negb_true_iff. intros [[He _] Hall].
  split; [by intros ->|]. apply Forall_forall. intros c Hc.
  assert (Hin : In c (text_of n)) by by apply list_elem_of_In.
  pose proof (proj1 (forallb_forall _ _) Hall c Hin) as H. simpl in H.
  unfold isalnum, isdigit, isspace, between in *.
  split_and!; [lia| |lia|lia].
  intros ->. change (code comma) with 44 in H. lia.
Qed.

(** A list of valid interface names written with commas is read back as it
    was written, in the same order of preference. *)
Theorem split_concat names :
  Forall (fun n => valid_interface n = true) names -> split (String.concat "," names) = names.
Proof.
  unfold split. intros H.
  assert (Hpieces : getlines comma [] (text_of (String.concat "," names)) = map text_of names).
  { induction H as [|n names Hn Hns IH]; [done|].
    apply valid_interface_chars in Hn as [Hne Hc].
    assert (Hcomma : Forall (fun c => c <> comma) (text_of n)) by (eapply Forall_impl; [exact Hc|]; simpl; tauto).
    destruct names as [|n' names'].
    - simpl. rewrite getlines_last by (try done; by destruct n).
      by rewrite app_nil_r, rev_involutive.
    - change (String.concat "," (n :: n' :: names')) with
        (n ++ "," ++ String.concat "," (n' :: names'))%string.
      rewrite !text_of_app. change (text_of "," ++ ?l) with (comma :: l).
      rewrite getlines_piece, app_nil_r, rev_involutive by done. simpl map. by rewrite IH. }
  rewrite Hpieces, map_map. clear Hpieces. induction H as [|n names Hn Hns IH]; [done|]. simpl.
  apply valid_interface_chars in Hn as [Hne Hc]. rewrite string_of_text, trim_id.
  - rewrite filter_cons, decide_True by (by destruct n). by f_equal.
  - eapply Forall_impl; [exact Hc|]. simpl. tauto.
Qed.

(** ** The XML holds no character the configuration smuggled in *)

Definition occurrences (c : Z) (s : string) : nat := length (filter (fun x => code x = c) (text_of s)).

Lemma occurrences_app c a b : occurrences c (a ++ b)%string = (occurrences c a + occurrences c b)%nat.
Proof. unfold occurrences. by rewrite text_of_app, filter_app, length_app. Qed.

Lemma occurrences_none c s : Forall (fun x => code x <> c) (text_of s) -> occurrences c s = 0%nat.
Proof.
  unfold occurrences. induction 1 as [|x l Hx _ IH]; [done|].
  by rewrite filter_cons, decide_False.
Qed.

Lemma occurrences_String c x s :
  code x <> c -> occurrences c (String x s) = occurrences c s.
Proof. intros. unfold occurrences. simpl. by rewrite filter_cons, decide_False. Qed.

Lemma digit_code d : 48 <= code (pretty_N_char d) <= 57.
Proof. unfold pretty_N_char. repeat case_match; vm_compute; split; discriminate. Qed.

Lemma occurrences_digits c x s :
  (c < 48 \/ 57 < c) -> occurrences c (pretty_N_go x s) = occurrences c s.
Proof.
  intros Hc. revert s. induction x as [x IH] using (well_founded_induction N.lt_wf_0). intros s.
  destruct (decide (0 < x)%N) as [Hx|Hx].
  - rewrite pretty_N_go_step by done. rewrite IH by (apply N.div_lt; lia).
    apply occurrences_String. pose proof (digit_code (x `mod` 10)%N). lia.
  - assert (x = 0%N) as -> by lia. done.
Qed.

Lemma occurrences_to_string c z :
  (c < 48 \/ 57 < c) -> 0 <= z -> occurrences c (to_string z) = 0%nat.
Proof.
  intros Hc Hz. unfold to_string.
  assert (H0 : occurrences c "0" = 0%nat).
  { rewrite occurrences_String; [done|]. change (code "0") with 48. lia. }
  destruct z as [|p|p]; [exact H0| |lia].
  change (pretty (Zpos p)) with (pretty_N_go (Npos p) "").
  by rewrite occurrences_digits.
Qed.

Lemma occurrences_name c n :
  valid_interface n = true -> c = 34 \/ c = 60 -> occurrences c n = 0%nat.
Proof.
  intros [_ H]%valid_interface_chars Hc. apply occurrences_none.
  eapply Forall_impl; [exact H|]. simpl. intros x (_ & _ & ? & ?). by destruct Hc as [->| ->].
Qed.

Lemma occurrences_elements c names k :
  c = 34 \/ c = 60 -> Forall (fun n => valid_interface n = true) names ->
  occurrences c (interface_elements names k) =
    (length names * (if decide (c = 34)%Z then 6 else 1))%nat.
Proof.
  intros Hc H. revert k. induction H as [|n names Hn _ IH]; intros k; [done|].
  cbn [interface_elements]. rewrite !occurrences_app, IH, (occurrences_name _ _ Hn Hc).
  rewrite occurrences_to_string by (destruct Hc; lia).
  destruct Hc as [->| ->]; simpl; cbn; lia.
Qed.

(** C39. In the XML handed to the middleware every double quote and every opening
    bracket is one the program wrote: whatever the configuration file holds, the
    interface names and the domain number stay inside their attributes. *)
Theorem cyclone_uri_well_formed read path c :
  load_service_config read path = Value c ->
  occurrences 34 (cyclone_uri c) = (2 + 6 * length (cfg_network_interfaces c))%nat /\
  occurrences 60 (cyclone_uri c) = (16 + length (cfg_network_interfaces c))%nat.
Proof.
  intros H%load_service_config_value%load_body_returned. destruct H as [_ [Hd _] _ Hn _ _ _].
  inversion Hn as [|? ? _ Hn1]; subst. inversion Hn1 as [|? ? _ Hn2]; subst.
  unfold cyclone_uri. cbv zeta.
  rewrite !occurrences_app, (occurrences_elements 34), (occurrences_elements 60) by auto.
  rewrite (occurrences_to_string 34), (occurrences_to_string 60) by (done || lia).
  generalize (length (cfg_network_interfaces c)). intros n.
  rewrite decide_True, decide_False by (done || lia). vm_compute (occurrences _ _). split; lia.
Qed.

(** ** Witnesses *)

Definition sample_file : string :=
  "robot_id = yunyi-007
# the wired port is preferred
dds_interfaces = eth1, wlan0
domain_id = -1
motor_discovery_retries = 3
".

Definition sample_read (path : string) : option string := Some sample_file.

Definition sample_config : ServiceConfig :=
  match load_service_config sample_read "" with Value c => c | Error _ => default_ServiceConfig end.

Lemma sample_loads : load_service_config sample_read "" = Value sample_config.
Proof. vm_compute. reflexivity. Qed.

(** A negative domain number is accepted and wraps. *)
Example domain_id_wraps : cfg_domain_id sample_config = 4294967295.
Proof. vm_compute. reflexivity. Qed.

Lemma load_service_config_ok_witness :
  config_ok sample_config /\ cfg_network_interfaces sample_config = ["eth1"; "wlan0"]%string /\
  motor_discovery_retries (cfg_runtime sample_config) = 3.
Proof.
  split; [exact (load_service_config_ok sample_read "" sample_config sample_loads)|].
  split; vm_compute; reflexivity.
Defined.

Lemma split_concat_witness :
  String.concat "," ["eth1"; "wlan0"; "can0.1"] = "eth1,wlan0,can0.1"%string /\
  split "eth1,wlan0,can0.1" = ["eth1"; "wlan0"; "can0.1"]%string.
Proof.
  split; [reflexivity|]. apply (split_concat ["eth1"; "wlan0"; "can0.1"]%string).
  repeat constructor.
Defined.

Lemma cyclone_uri_well_formed_witness :
  occurrences 34 (cyclone_uri sample_config) = 14%nat /\
  occurrences 60 (cyclone_uri sample_config) = 18%nat.
Proof. exact (cyclone_uri_well_formed sample_read "" sample_config sample_loads). Defined.
