(* ===== verification/Threads.v ===== *)
(** * Threads that share a state

    A thread is a resumption: a tree of atomic actions on the shared state,
    one per critical section, per access to an atomic variable and per call of
    a foreign function.  An action with a guard waits until the guard holds:
    acquiring a mutex, joining a thread.  Threads run one action at a time in any order, and
    between two actions the environment may change the state.  Properties are
    proved thread by thread: [wp R G p Q s] says that the program [p], started
    in [s] while the others move along [R], moves along [G] and ends in [Q].
    [reachable_threads_ok] puts the threads together. *)

From S2P Require Import Prelude.

Inductive prog (S A : Type) : Type :=
| Done (o : outcome A)
| Act (X : Type) (g : S -> bool) (f : S -> X * S) (k : X -> prog S A).
Arguments Done {S A} o.
Arguments Act {S A X} g f k.

Declare Scope thread_scope.
Delimit Scope thread_scope with thread.

Section Programs.
Context {S : Type}.

Definition pret {A} (a : A) : prog S A := Done (Returned a).
Definition pthrow {A} (e : exn) : prog S A := Done (Thrown e).

(** One critical section. *)
Definition act {A} (f : S -> A * S) : prog S A := Act (fun _ => true) f pret.

(** One that waits for its guard. *)
Definition await {A} (g : S -> bool) (f : S -> A * S) : prog S A := Act g f pret.
Definition read {A} (f : S -> A) : prog S A := act (fun s => (f s, s)).
Definition write (f : S -> S) : prog S unit := act (fun s => (tt, f s)).

Fixpoint pbind {A B} (p : prog S A) (k : A -> prog S B) : prog S B :=
  match p with
  | Done (Returned a) => k a
  | Done (Thrown e) => Done (Thrown e)
  | Done Undefined => Done Undefined
  | Done Unfinished => Done Unfinished
  | Act g f c => Act g f (fun x => pbind (c x) k)
  end.

(** [catch (const std::exception&)] and [catch (...)] at once. *)
Fixpoint pcatch {A} (p : prog S A) (h : exn -> prog S A) : prog S A :=
  match p with
  | Done (Thrown e) => h e
  | Done o => Done o
  | Act g f c => Act g f (fun x => pcatch (c x) h)
  end.

(** A cast that is undefined behaviour where the argument is [None]. *)
Definition pdefined {A} (o : option A) : prog S A :=
  match o with Some a => pret a | None => Done Undefined end.

Definition pwhen (b : bool) (p : prog S unit) : prog S unit := if b then p else pret tt.

(** [for (handled = 0; handled < n; ++handled)] with a [break]: the body says
    whether to go on. *)
Fixpoint pfor (n : nat) (body : prog S bool) : prog S unit :=
  match n with
  | O => pret tt
  | Datatypes.S n => pbind body (fun more => if more then pfor n body else pret tt)
  end.

(** The program alone: nobody interferes, and nobody makes a guard true. *)
Fixpoint run_alone {A} (p : prog S A) (s : S) : outcome A * S :=
  match p with
  | Done o => (o, s)
  | Act g f k => if g s then let '(x, s') := f s in run_alone (k x) s' else (Unfinished, s)
  end.

(** Two jobs at once: in each step the oracle says whose action it is, until
    one of the jobs is over; then the other runs alone.  The outcomes of both
    are the result. *)
Fixpoint premap {A B} (h : outcome A -> B) (p : prog S A) : prog S B :=
  match p with
  | Done o => pret (h o)
  | Act g f k => Act g f (fun x => premap h (k x))
  end.

Fixpoint par {A B} (oracle : S -> bool) (p : prog S A) : prog S B -> prog S (outcome A * outcome B) :=
  match p with
  | Done a => premap (fun b => (a, b))
  | @Act _ _ X g f k =>
      fix helper (q : prog S B) : prog S (outcome A * outcome B) :=
        match q with
        | Done b => premap (fun a => (a, b)) (Act g f k)
        | @Act _ _ Y g' f' k' =>
            @Act _ _ (X + Y) (fun s => if oracle s then g s else g' s)
              (fun s => if oracle s then (inl (fst (f s)), snd (f s))
                        else (inr (fst (f' s)), snd (f' s)))
              (fun z => match z with
                        | inl x => par oracle (k x) q
                        | inr y => helper (k' y)
                        end)
        end
  end.

End Programs.

Notation "'do' x <- m ; k" := (pbind m (fun x => k))
  (at level 10, x name, m at level 100, k at level 200) : thread_scope.
Notation "'do' ' x <- m ; k" := (pbind m (fun x => k))
  (at level 10, x strict pattern, m at level 100, k at level 200) : thread_scope.
Notation "m ;;; k" := (pbind m (fun _ => k))
  (at level 190, right associativity) : thread_scope.

(** ** Rely and guarantee *)
Section Logic.
Context {S : Type} (R G : S -> S -> Prop) `{!PreOrder R}.

Fixpoint wp {A} (p : prog S A) (Q : outcome A -> S -> Prop) (s : S) : Prop :=
  match p with
  | Done o => forall s1, R s s1 -> Q o s1
  | Act g f k => forall s1, R s s1 -> g s1 = true ->
      G s1 (snd (f s1)) /\ wp (k (fst (f s1))) Q (snd (f s1))
  end.

Lemma wp_stable {A} (p : prog S A) Q s s' : R s s' -> wp p Q s -> wp p Q s'.
Proof. intros Hs. destruct p; simpl; intros H s1 Hs1; apply H; by etrans. Qed.

Lemma wp_mono {A} (p : prog S A) (Q1 Q2 : outcome A -> S -> Prop) s :
  (forall o s', Q1 o s' -> Q2 o s') -> wp p Q1 s -> wp p Q2 s.
Proof.
  intros HQ. revert s. induction p as [o|X g f k IH]; simpl; intros s H s1 Hs; [by apply HQ, H|].
  intros Hg. destruct (H s1 Hs Hg) as [HG Hk]. auto.
Qed.

Lemma wp_done {A} (o : outcome A) (Q : outcome A -> S -> Prop) s :
  (forall s1, R s s1 -> Q o s1) -> wp (Done o) Q s.
Proof. done. Qed.

Lemma wp_act {A B} (f : S -> A * S) (k : A -> prog S B) Q s :
  (forall s1, R s s1 -> G s1 (snd (f s1)) /\ wp (k (fst (f s1))) Q (snd (f s1))) ->
  wp (pbind (act f) k) Q s.
Proof. intros H s1 Hs _. by apply H. Qed.

Lemma wp_await {A B} (g : S -> bool) (f : S -> A * S) (k : A -> prog S B) Q s :
  (forall s1, R s s1 -> g s1 = true ->
    G s1 (snd (f s1)) /\ wp (k (fst (f s1))) Q (snd (f s1))) ->
  wp (pbind (await g f) k) Q s.
Proof. done. Qed.

(** What a thread knows when [p] ends carries over to what follows. *)
Definition after {A B} (k : A -> prog S B) (Q : outcome B -> S -> Prop)
    (o : outcome A) (s : S) : Prop :=
  match o with
  | Returned a => wp (k a) Q s
  | Thrown e => Q (Thrown e) s
  | Undefined => Q Undefined s
  | Unfinished => Q Unfinished s
  end.

Lemma wp_bind {A B} (p : prog S A) (k : A -> prog S B) Q s :
  wp p (after k Q) s -> wp (pbind p k) Q s.
Proof.
  revert s. induction p as [o|X g f c IH]; simpl; intros s H.
  - destruct o as [a|e| |]; simpl; try (intros s1 Hs; by apply H).
    apply (H s). reflexivity.
  - intros s1 Hs Hg. destruct (H s1 Hs Hg) as [HG Hk]. auto.
Qed.

Lemma wp_catch {A} (p : prog S A) (h : exn -> prog S A) Q s :
  wp p (fun o s' => match o with Thrown e => wp (h e) Q s' | _ => Q o s' end) s ->
  wp (pcatch p h) Q s.
Proof.
  revert s. induction p as [o|X g f c IH]; simpl; intros s H.
  - destruct o as [a|e| |]; simpl; try (intros s1 Hs; by apply H).
    apply (H s). reflexivity.
  - intros s1 Hs Hg. destruct (H s1 Hs Hg) as [HG Hk]. auto.
Qed.

(** Every action of the program, whatever state it finds, moves along [T]. *)
Fixpoint acts (T : S -> S -> Prop) {A} (p : prog S A) : Prop :=
  match p with
  | Done _ => True
  | Act g f k => (forall s, g s = true -> T s (snd (f s))) /\ forall x, acts T (k x)
  end.

(** A program all of whose actions keep [P] and move along [G] keeps [P]. *)
Lemma wp_acts (T : S -> S -> Prop) (P : S -> Prop) {A} (p : prog S A) s :
  acts T p -> (forall s1 s2, P s1 -> T s1 s2 -> G s1 s2 /\ P s2) ->
  (forall s1 s2, R s1 s2 -> P s1 -> P s2) -> P s ->
  wp p (fun _ s' => P s') s.
Proof.
  intros Hp HT HR. revert s. induction p as [o|X g f k IH]; simpl; intros s HP s1 Hs.
  - by eapply HR.
  - intros Hg. destruct Hp as [Hf Hk]. assert (HP1 : P s1) by by eapply HR.
    destruct (HT s1 (snd (f s1)) HP1 (Hf s1 Hg)) as [HG HP2]. split; [done|]. by apply IH.
Qed.

(** What the others and every action of the program keep. *)
Lemma wp_frame {A} (K : S -> Prop) (p : prog S A) (Q : outcome A -> S -> Prop) s :
  (forall a b, R a b -> K a -> K b) -> (forall a b, G a b -> K a -> K b) -> K s ->
  wp p Q s -> wp p (fun o s' => Q o s' /\ K s') s.
Proof.
  intros HR HG. revert s. induction p as [o|X g f k IH]; simpl; intros s Hk H s1 Hs.
  - split; [by apply H|by eapply HR].
  - intros Hg. destruct (H s1 Hs Hg) as [H1 H2]. split; [done|].
    apply IH; [|done]. eapply HG; [exact H1|]. by eapply HR.
Qed.

End Logic.

(** What two judgements say of one program: the others are trusted with no
    less, and the guarantee is the one of the first. *)
Lemma wp_both {S} (R G R' G' : S -> S -> Prop) {A} (p : prog S A) (Q1 Q2 : outcome A -> S -> Prop) s :
  (forall a b, R a b -> R' a b) -> wp R G p Q1 s -> wp R' G' p Q2 s ->
  wp R G p (fun o s' => Q1 o s' /\ Q2 o s') s.
Proof.
  intros HR. revert s. induction p as [o|X g f k IH]; intros s H1 H2 s1 Hs; [split; auto; by apply H2, HR|].
  intros Hg. destruct (H1 s1 Hs Hg) as [HG Hk1], (H2 s1 (HR _ _ Hs) Hg) as [_ Hk2].
  split; [done|]. by apply IH.
Qed.

(** ** Observation

    [observes T p Q s]: along every run of [p] from [s] all of whose steps, the
    program's own and those of the others, move along [T], the end is in [Q].
    It says nothing of whether the steps do, which is for [wp] to show
    ([wp_observes]). *)
Section Observation.
Context {S : Type} (T : S -> S -> Prop) `{!PreOrder T}.

Fixpoint observes {A} (p : prog S A) (Q : outcome A -> S -> Prop) (s : S) : Prop :=
  match p with
  | Done o => forall s1, T s s1 -> Q o s1
  | Act g f k => forall s1, T s s1 -> g s1 = true -> T s1 (snd (f s1)) ->
      observes (k (fst (f s1))) Q (snd (f s1))
  end.

Lemma wp_observes (R G : S -> S -> Prop) {A} (p : prog S A) (Q1 Q2 : outcome A -> S -> Prop) s :
  (forall a b, R a b -> T a b) -> (forall a b, G a b -> T a b) ->
  wp R G p Q1 s -> observes p Q2 s -> wp R G p (fun o s' => Q1 o s' /\ Q2 o s') s.
Proof.
  intros HR HG. revert s. induction p as [o|X g f k IH]; intros s H1 H2 s1 Hs; [split; auto; by apply H2, HR|].
  intros Hg. destruct (H1 s1 Hs Hg) as [Hstep Hk]. split; [done|]. apply IH; [done|].
  apply H2; auto.
Qed.

Lemma observes_stable {A} (p : prog S A) Q s s' : T s s' -> observes p Q s -> observes p Q s'.
Proof. intros Hs. destruct p; simpl; intros H s1 Hs1; apply H; by etrans. Qed.

Lemma observes_mono {A} (p : prog S A) (Q1 Q2 : outcome A -> S -> Prop) s :
  (forall o s', T s s' -> Q1 o s' -> Q2 o s') -> observes p Q1 s -> observes p Q2 s.
Proof.
  revert s. induction p as [o|X g f k IH]; simpl; intros s HQ H s1 Hs; [by apply HQ, H|].
  intros Hg Hf. apply IH; [|by apply H]. intros o s' Hs'. apply HQ. etrans; [done|]. by etrans.
Qed.

Lemma observes_any {A} (p : prog S A) s : observes p (fun _ _ => True) s.
Proof. revert s. induction p as [o|X g f k IH]; simpl; intros s; [done|]. intros. apply IH. Qed.

Lemma observes_bind {A B} (p : prog S A) (k : A -> prog S B) (Q : outcome B -> S -> Prop) s :
  observes p (fun o s' => match o with
                          | Returned a => observes (k a) Q s'
                          | Thrown e => Q (Thrown e) s'
                          | Undefined => Q Undefined s'
                          | Unfinished => Q Unfinished s'
                          end) s ->
  observes (pbind p k) Q s.
Proof.
  revert s. induction p as [o|X g f c IH]; simpl; intros s H.
  - destruct o as [a|e| |]; simpl; try (intros s1 Hs; by apply H).
    apply (H s). reflexivity.
  - intros s1 Hs Hg Hf. apply IH. by apply H.
Qed.

Lemma observes_catch {A} (p : prog S A) (h : exn -> prog S A) Q s :
  observes p (fun o s' => match o with Thrown e => observes (h e) Q s' | _ => Q o s' end) s ->
  observes (pcatch p h) Q s.
Proof.
  revert s. induction p as [o|X g f c IH]; simpl; intros s H.
  - destruct o as [a|e| |]; simpl; try (intros s1 Hs; by apply H).
    apply (H s). reflexivity.
  - intros s1 Hs Hg Hf. apply IH. by apply H.
Qed.

Lemma observes_act {A} (f : S -> A * S) Q s :
  (forall s1 s2, T s s1 -> T s1 (snd (f s1)) -> T (snd (f s1)) s2 -> Q (Returned (fst (f s1))) s2) ->
  observes (act f) Q s.
Proof. intros H s1 Hs _ Hf s2 Hs2. by apply H. Qed.

Lemma observes_premap {A B} (h : outcome A -> B) (p : prog S A) Q s :
  observes p (fun o => Q (Returned (h o))) s -> observes (premap h p) Q s.
Proof. revert s. induction p as [o|X g f k IH]; simpl; [done|]. intros s H s1 Hs Hg Hf. by apply IH, H. Qed.

(** Two jobs at once: what each would see alone. *)
Lemma observes_par {A B} oracle (p : prog S A) (q : prog S B) Q1 Q2 s :
  (forall o s1 s2, T s1 s2 -> Q1 o s1 -> Q1 o s2) -> (forall o s1 s2, T s1 s2 -> Q2 o s1 -> Q2 o s2) ->
  observes p Q1 s -> observes q Q2 s ->
  observes (par oracle p q)
    (fun o s' => match o with Returned r => Q1 (fst r) s' /\ Q2 (snd r) s' | _ => True end) s.
Proof.
  intros HQ1 HQ2. revert q s. induction p as [a|X g f k IH]; intros q s Hp Hq.
  { apply observes_premap. eapply observes_mono; [|exact Hq]. intros o s' Hs Hb. split; [by apply Hp|done]. }
  induction q as [b|Y g' f' k' IHq] in s, Hp, Hq |- *.
  { apply observes_premap. eapply observes_mono; [|exact Hp]. intros o s' Hs Ha. split; [done|by apply Hq]. }
  intros s1 Hs. cbn [fst snd]. destruct (oracle s1); cbn [fst snd]; intros Hg Hf.
  - apply IH; [by apply Hp|]. eapply observes_stable; [|exact Hq]. by etrans.
  - apply IHq; [|by apply Hq]. eapply observes_stable; [|exact Hp]. by etrans.
Qed.

End Observation.

Section Acts.
Context {S : Type} (T : S -> S -> Prop).

Lemma acts_mono (T' : S -> S -> Prop) {A} (p : prog S A) :
  (forall s s', T s s' -> T' s s') -> acts T p -> acts T' p.
Proof. intros HT. induction p as [o|X g f k IH]; simpl; [done|]. intros [Hf Hk]. auto. Qed.

Lemma acts_done {A} (o : outcome A) : acts T (Done o).
Proof. done. Qed.

Lemma acts_pret {A} (a : A) : acts T (pret a).
Proof. done. Qed.

Lemma acts_act {A} (f : S -> A * S) : (forall s, T s (snd (f s))) -> acts T (act f).
Proof. by split. Qed.

Lemma acts_await {A} g (f : S -> A * S) :
  (forall s, g s = true -> T s (snd (f s))) -> acts T (await g f).
Proof. by split. Qed.

Lemma acts_write f : (forall s, T s (f s)) -> acts T (write f).
Proof. by split. Qed.

Lemma acts_bind {A B} (p : prog S A) (k : A -> prog S B) :
  acts T p -> (forall a, acts T (k a)) -> acts T (pbind p k).
Proof.
  intros Hp Hk. induction p as [o|X g f c IH]; simpl; [destruct o; try done; apply Hk|].
  destruct Hp as [Hf Hc]. split; [done|]. intros x. by apply IH.
Qed.

Lemma acts_catch {A} (p : prog S A) h :
  acts T p -> (forall e, acts T (h e)) -> acts T (pcatch p h).
Proof.
  intros Hp Hk. induction p as [o|X g f c IH]; simpl; [destruct o; try done; apply Hk|].
  destruct Hp as [Hf Hc]. split; [done|]. intros x. by apply IH.
Qed.

Lemma acts_read `{!Reflexive T} {A} (f : S -> A) : acts T (read f).
Proof. split; [intros s; simpl; reflexivity|done]. Qed.

Lemma acts_pwhen b (p : prog S unit) : acts T p -> acts T (pwhen b p).
Proof. by destruct b. Qed.

Lemma acts_pdefined {A} (o : option A) : acts T (pdefined o).
Proof. by destruct o. Qed.

Lemma acts_pfor n (p : prog S bool) : acts T p -> acts T (pfor n p).
Proof.
  intros Hp. induction n as [|n IH]; simpl; [done|]. apply acts_bind; [done|]. by intros [].
Qed.

Lemma acts_premap {A B} (h : outcome A -> B) (p : prog S A) : acts T p -> acts T (premap h p).
Proof. induction p as [o|X g f k IH]; simpl; [done|]. intros [Hf Hk]. auto. Qed.

Lemma acts_par {A B} oracle (p : prog S A) (q : prog S B) :
  acts T p -> acts T q -> acts T (par oracle p q).
Proof.
  intros Hp. revert q. induction p as [o|X g f k IH]; intros q Hq; [by apply acts_premap|].
  destruct Hp as [Hf Hk]. induction q as [o|Y g' f' k' IHq]; [by apply acts_premap|].
  destruct Hq as [Hf' Hk']. split.
  - intros s Hs. simpl. destruct (oracle s); auto.
  - intros [x|y]; [apply IH; [done|by split]|by apply IHq].
Qed.

End Acts.

Create HintDb acts discriminated.
#[export] Hint Resolve acts_done acts_pret acts_read acts_pwhen acts_pdefined acts_pfor acts_par : acts.
#[export] Hint Extern 0 (Reflexive _) => typeclasses eauto : acts.

(** Follows the structure of a program; the named parts are left to the
    hints, then to the caller. *)
Ltac acts_step :=
  match goal with
  | |- Reflexive _ => typeclasses eauto
  | |- forall _, _ => intro
  | |- acts _ (match ?x with _ => _ end) => destruct x
  | |- acts _ _ => first [solve [eauto 2 with acts] |
      apply acts_bind | apply acts_catch | apply acts_pwhen | apply acts_pfor | apply acts_par]
  end.
Ltac acts_tac := repeat acts_step.

(** ** The threads together

    Each thread goes around a loop: its body, given the thread's local
    variables, ends with the variables of the next round or leaves the
    loop. *)
Section System.
Context {S L : Type} (body : nat -> L -> prog S (option L)) (env : S -> S -> Prop).

Definition system : Type := S * list (prog S (option L)).

Inductive sys_step : system -> system -> Prop :=
| StepAct i X g (f : S -> X * S) k s ts :
    ts !! i = Some (Act g f k) -> g s = true ->
    sys_step (s, ts) (snd (f s), <[i := k (fst (f s))]> ts)
| StepRound i l s ts :
    ts !! i = Some (Done (Returned (Some l))) ->
    sys_step (s, ts) (s, <[i := body i l]> ts)
| StepEnv s s' ts : env s s' -> sys_step (s, ts) (s', ts).

(** One step of one thread, as a function, and a schedule of them; a thread
    that waits stays where it is. *)
Definition thread_step (c : system) (i : nat) : system :=
  match snd c !! i with
  | Some (Act g f k) =>
      if g (fst c) then (snd (f (fst c)), <[i := k (fst (f (fst c)))]> (snd c)) else c
  | Some (Done (Returned (Some l))) => (fst c, <[i := body i l]> (snd c))
  | _ => c
  end.

Definition run_schedule (schedule : list nat) (c : system) : system :=
  fold_left thread_step schedule c.

Lemma thread_step_reachable c i : rtc sys_step c (thread_step c i).
Proof.
  unfold thread_step. destruct c as [s ts]. cbn [fst snd].
  destruct (ts !! i) as [[[[l|]| | |]|X g f k]|] eqn:E; try reflexivity.
  - apply rtc_once. by apply StepRound.
  - destruct (g s) eqn:Hg; [|reflexivity]. apply rtc_once. by apply StepAct with (g := g).
Qed.

Lemma run_schedule_reachable schedule c : rtc sys_step c (run_schedule schedule c).
Proof.
  revert c. induction schedule as [|i schedule IH]; intros c; [reflexivity|].
  etrans; [apply thread_step_reachable|]. apply IH.
Qed.

(** Whether the next step of a thread is an action that does not wait. *)
Definition acting (c : system) (i : nat) : bool :=
  match snd c !! i with Some (Act g _ _) => g (fst c) | _ => false end.

Lemma thread_step_acts c i : acting c i = true -> sys_step c (thread_step c i).
Proof.
  unfold acting, thread_step. destruct c as [s ts]. cbn [fst snd].
  destruct (ts !! i) as [[o|X g f k]|] eqn:E; [done| |done]. intros Hg. rewrite Hg.
  by apply StepAct with (g := g).
Qed.

Context (R G : nat -> S -> S -> Prop) (Pre : nat -> L -> S -> Prop).

(** What a thread owes after a round. *)
Definition round_post (i : nat) (o : outcome (option L)) (s : S) : Prop :=
  match o with
  | Returned (Some l) => Pre i l s
  | _ => True
  end.

Definition thread_ok (i : nat) (p : prog S (option L)) (s : S) : Prop :=
  wp (R i) (G i) p (round_post i) s.

Record rely_guarantee : Prop := {
  rg_preorder i : PreOrder (R i);
  rg_others i j s s' : i <> j -> G i s s' -> R j s s';
  rg_env j s s' : env s s' -> R j s s';
  rg_body i l s : Pre i l s -> thread_ok i (body i l) s
}.

Definition threads_ok (c : system) : Prop :=
  forall i p, snd c !! i = Some p -> thread_ok i p (fst c).

Lemma sys_step_ok c c' :
  rely_guarantee -> threads_ok c -> sys_step c c' ->
  threads_ok c' /\ (fst c' = fst c \/ env (fst c) (fst c') \/ exists i, G i (fst c) (fst c')).
Proof.
  intros HRG Hc Hs. destruct Hs as [i X g f k s ts Hi Hg|i l s ts Hi|s s' ts He]; simpl in *.
  - pose proof (rg_preorder HRG i). destruct (Hc i _ Hi s ltac:(simpl; reflexivity) Hg) as [HG Hk].
    split; [|by eauto]. intros j p Hj. simpl in *. destruct (decide (i = j)) as [<-|Hij].
    + rewrite list_lookup_insert_eq in Hj by (by eapply lookup_lt_Some).
      by injection Hj as <-.
    + rewrite list_lookup_insert_ne in Hj by done. pose proof (rg_preorder HRG j).
      eapply wp_stable; [apply _|by eapply (rg_others HRG i)|]. by apply Hc.
  - pose proof (rg_preorder HRG i). split; [|by left]. intros j p Hj. simpl in *.
    destruct (decide (i = j)) as [<-|Hij].
    + rewrite list_lookup_insert_eq in Hj by (by eapply lookup_lt_Some).
      injection Hj as <-. apply (rg_body HRG).
      exact (Hc i _ Hi s ltac:(simpl; reflexivity)).
    + rewrite list_lookup_insert_ne in Hj by done. by apply Hc.
  - split; [|by right; left]. intros j p Hj. pose proof (rg_preorder HRG j).
    eapply wp_stable; [apply _|by apply (rg_env HRG)|]. by apply Hc.
Qed.

(** An invariant that every guarantee and the environment keep holds in every
    reachable state, and every thread stays within its contract. *)
Lemma reachable_threads_ok (I : S -> Prop) c c' :
  rely_guarantee ->
  (forall i s s', G i s s' -> I s -> I s') -> (forall s s', env s s' -> I s -> I s') ->
  threads_ok c -> I (fst c) -> rtc sys_step c c' ->
  threads_ok c' /\ I (fst c').
Proof.
  intros HRG HG He Hc HI Hs. induction Hs as [|c1 c2 c3 H12 _ IH]; [done|].
  destruct (sys_step_ok _ _ HRG Hc H12) as [Hc2 [E|[E|[i E]]]]; apply IH; try done.
  - by rewrite E.
  - by eapply He.
  - by eapply HG.
Qed.

End System.

(** Every step of a system whose threads only move along their own relations,
    whatever state they are in, is one of those moves. *)
Section Traces.
Context {S L : Type} (body : nat -> L -> prog S (option L)) (env : S -> S -> Prop).
Context (T : nat -> S -> S -> Prop) (Hbody : forall i l, acts (T i) (body i l)).

Definition threads_act (ts : list (prog S (option L))) : Prop :=
  forall i p, ts !! i = Some p -> acts (T i) p.

Lemma threads_act_insert ts i p :
  threads_act ts -> acts (T i) p -> threads_act (<[i := p]> ts).
Proof.
  intros Hts Hp j q. rewrite list_lookup_insert_Some.
  intros [(<- & <- & _)|[_ Hj]]; [done|by apply Hts].
Qed.

Lemma sys_step_acts c c' :
  threads_act (snd c) -> sys_step body env c c' ->
  threads_act (snd c') /\
  (fst c' = fst c \/ env (fst c) (fst c') \/ exists i, T i (fst c) (fst c')).
Proof.
  intros Hts Hs. destruct Hs as [i X g f k s ts Hi Hg|i l s ts Hi|s s' ts He]; simpl in *.
  - destruct (Hts i _ Hi) as [Hf Hk]. split; [|by eauto].
    apply threads_act_insert; [done|apply Hk].
  - split; [by apply threads_act_insert; [|apply Hbody]|]. by left.
  - split; [done|]. by right; left.
Qed.

Lemma reachable_steps_act c c1 c2 :
  threads_act (snd c) -> rtc (sys_step body env) c c1 -> sys_step body env c1 c2 ->
  fst c2 = fst c1 \/ env (fst c1) (fst c2) \/ exists i, T i (fst c1) (fst c2).
Proof.
  intros Hts Hrun Hs. apply sys_step_acts; [|done].
  induction Hrun as [|c0 c1 c3 Hs1 _ IH]; [done|]. apply IH; [|done].
  by apply (sys_step_acts c0 c1).
Qed.

End Traces.
