(* ===== verification/ServiceState.v ===== *)
(** * The DDS service: messages, shared state and primitive actions

    The wire types of [dds/idl/articore_protocol.idl] and the members of
    [CycloneService::Impl] ([dds/src/cyclone_service.cpp]).  The product
    runtime is the class [YunyiRuntime]: one operation per method of
    [runtime/include/articore/runtime.hpp], on objects the service holds by
    pointer.  CycloneDDS is part of the environment: the samples waiting in a
    reader and the return codes of the next wait and the next write are fields
    of the state that the environment may change between any two actions.

    [sv_trace] is not a member of the code: it records, oldest first, the
    samples written, the runtime calls and the steps the theorems speak of. *)

From Stdlib Require Import Ascii String.
From S2P Require Import Prelude Float32 RuntimeTypes DdsProtocol Lease Config Threads.
#[local] Open Scope thread_scope.

(** ** Wire types

    The six leading members of every sample form a [MessageIdentity]. *)
Inductive ControlOperation :=
| ACQUIRE_LEASE | HEARTBEAT | RELEASE_LEASE | CONNECT | DISCONNECT | CONFIGURE_MODE | ENABLE
| DISABLE | SET_ZERO | CLEAR_FAULTS | ESTOP | RECOVER | SET_SPEED_PERCENT | SET_MAX_SPEED
| SET_MAX_ACCELERATION | SOLVE_IK | MOVE_POSE | MOVE_LINEAR | MOVE_CIRCULAR | STOP_MOTION
| SET_GRIPPERS | SET_TCP_OFFSET | RESET_TCP_OFFSET | START_GRAVITY_COMPENSATION
| STOP_GRAVITY_COMPENSATION | START_BIMANUAL_FOLLOW | STOP_BIMANUAL_FOLLOW | QUERY_STATE
| QUERY_HEALTH | GET_POSE | GET_TCP_OFFSET | GET_JOINT_LIMITS | GET_SPEED_PERCENT
| GET_MAX_SPEED | GET_MAX_ACCELERATION | HAS_GRIPPERS | GET_GRAVITY_STATUS
| GET_BIMANUAL_STATUS | GET_HARDWARE_TOPOLOGY.

#[export] Instance ControlOperation_eq_dec : EqDecision ControlOperation.
Proof. solve_decision. Defined.

(** The value of the enumerator, counted from zero in the order of the IDL. *)
Definition operation_value (o : ControlOperation) : Z :=
  match o with
  | ACQUIRE_LEASE => 0 | HEARTBEAT => 1 | RELEASE_LEASE => 2 | CONNECT => 3 | DISCONNECT => 4
  | CONFIGURE_MODE => 5 | ENABLE => 6 | DISABLE => 7 | SET_ZERO => 8 | CLEAR_FAULTS => 9
  | ESTOP => 10 | RECOVER => 11 | SET_SPEED_PERCENT => 12 | SET_MAX_SPEED => 13
  | SET_MAX_ACCELERATION => 14 | SOLVE_IK => 15 | MOVE_POSE => 16 | MOVE_LINEAR => 17
  | MOVE_CIRCULAR => 18 | STOP_MOTION => 19 | SET_GRIPPERS => 20 | SET_TCP_OFFSET => 21
  | RESET_TCP_OFFSET => 22 | START_GRAVITY_COMPENSATION => 23 | STOP_GRAVITY_COMPENSATION => 24
  | START_BIMANUAL_FOLLOW => 25 | STOP_BIMANUAL_FOLLOW => 26 | QUERY_STATE => 27
  | QUERY_HEALTH => 28 | GET_POSE => 29 | GET_TCP_OFFSET => 30 | GET_JOINT_LIMITS => 31
  | GET_SPEED_PERCENT => 32 | GET_MAX_SPEED => 33 | GET_MAX_ACCELERATION => 34
  | HAS_GRIPPERS => 35 | GET_GRAVITY_STATUS => 36 | GET_BIMANUAL_STATUS => 37
  | GET_HARDWARE_TOPOLOGY => 38
  end.

(** [operation >= articore_wire_QUERY_STATE]. *)
Definition query_only (o : ControlOperation) : bool :=
  operation_value QUERY_STATE <=? operation_value o.

Record ControlRequest := {
  rq_header : MessageIdentity;
  rq_request_id : Z;
  rq_lease_id : Z;
  rq_operation : ControlOperation;
  rq_side : Z;
  rq_mode : Z;
  rq_scalar : list f32;
  rq_positions : list f32;
  rq_pose_a : list f32;
  rq_pose_b : list f32;
  rq_pose_c : list f32
}.

Record ControlReply := {
  rp_header : MessageIdentity;
  rp_request_id : Z;
  rp_lease_id : Z;
  rp_error : ProtocolError;
  rp_message : string;
  rp_values : list f32
}.

(** The middleware delivers no sample whose enumerations are out of range. *)
Record WireStream := {
  ws_header : MessageIdentity;
  ws_lease_id : Z;
  ws_kind : StreamKind;
  ws_positions : list f32;
  ws_velocities : list f32;
  ws_kp : list f32;
  ws_kd : list f32;
  ws_feedforward_torques : list f32;
  ws_speed_percent : f32
}.

Inductive MotionEventKind :=
| MOTION_ACCEPTED | MOTION_COMPLETED | MOTION_CANCELLED | MOTION_FAILED.

#[export] Instance MotionEventKind_eq_dec : EqDecision MotionEventKind.
Proof. solve_decision. Defined.

Record MotionEvent := {
  me_header : MessageIdentity;
  me_request_id : Z;
  me_kind : MotionEventKind;
  me_error : ProtocolError;
  me_message : string
}.

Record Discovery := {
  ds_header : MessageIdentity;
  ds_service_version : string;
  ds_domain_id : Z;
  ds_ready : bool
}.

Record RobotState := {
  st_header : MessageIdentity;
  st_source_timestamp_ns : Z;
  st_positions : list f32;
  st_velocities : list f32;
  st_torques : list f32;
  st_mos_temperatures : list f32;
  st_rotor_temperatures : list f32;
  st_enabled_mask : Z;
  st_enabled_valid_mask : Z;
  st_temperature_valid_mask : Z;
  st_gripper_openings : list f32;
  st_gripper_available : list bool;
  st_gripper_feedback_valid : list bool;
  st_motion_arrived : bool
}.

Record Health := {
  hl_header : MessageIdentity;
  hl_state : Z;
  hl_safe_holding : bool;
  hl_disable_confirmed : bool;
  hl_degraded : bool;
  hl_safe_stopped : bool;
  hl_requires_resynchronization : bool;
  hl_consecutive_send_failures : Z;
  hl_consecutive_feedback_failures : Z;
  hl_fault_reason : string;
  hl_safety_reason : string
}.

(** [copy_text] into a [char[n]]: up to the first NUL, at most [n - 1] bytes. *)
Fixpoint c_str (s : string) : string :=
  match s with
  | EmptyString => EmptyString
  | String c t => if code c =? 0 then EmptyString else String c (c_str t)
  end.

Definition copy_text (n : nat) (source : string) : string :=
  String.substring 0 (n - 1) (c_str source).

(** ** The product runtime *)
Inductive Call : Type -> Type :=
| Rt_connect : Call Status
| Rt_disconnect : Call Status
| Rt_configure_mode (mode : Z) : Call Status
| Rt_control_mode : Call (Result ControlMode)
| Rt_enable : Call Status
| Rt_disable : Call Status
| Rt_set_zero : Call Status
| Rt_clear_faults : Call Status
| Rt_estop : Call Status
| Rt_recover : Call Status
| Rt_on_control_lost (reason : string) : Call Status
| Rt_set_joint_pv (positions : JointArray) (speed_percent : f32) : Call Status
| Rt_set_joint_mit (command : MitCommand) : Call Status
| Rt_set_joint_mit_fast (positions : JointArray) (speed_percent : f32) : Call Status
| Rt_set_speed_percent (percent : f32) : Call Status
| Rt_set_max_speed (percent : f32) : Call Status
| Rt_set_max_acceleration (percent : f32) : Call Status
| Rt_speed_percent : Call (Result f32)
| Rt_max_speed : Call (Result f32)
| Rt_max_acceleration : Call (Result f32)
| Rt_hardware_topology : Call (Result HardwareTopology)
| Rt_has_grippers : Call (Result bool)
| Rt_solve_ik (left right : Pose) : Call (Result JointArray)
| Rt_move_pose (side : Z) (target : Pose) : Call Status
| Rt_move_linear (side : Z) (target : Pose) : Call Status
| Rt_move_circular (side : Z) (start via finish : Pose) : Call Status
| Rt_stop_motion : Call Status
| Rt_set_grippers (left right : f32) (strength mode : Z) : Call Status
| Rt_set_tcp_offset (side : Z) (offset : Pose) : Call Status
| Rt_reset_tcp_offset (side : Z) : Call Status
| Rt_pose (side : Z) : Call (Result Pose)
| Rt_tcp_offset (side : Z) : Call (Result Pose)
| Rt_joint_limits : Call (Result JointLimits)
| Rt_start_gravity_compensation (milliseconds : Z) : Call Status
| Rt_stop_gravity_compensation : Call Status
| Rt_start_bimanual_follow (leader : Z) : Call Status
| Rt_stop_bimanual_follow : Call Status
| Rt_gravity_compensation_status : Call (Result GravityCompensationStatus)
| Rt_bimanual_follow_status : Call (Result BimanualFollowStatus)
| Rt_state : Call (Result RuntimeState)
| Rt_health : Call (Result RuntimeHealth).

(** What the service needs of a runtime object: a call ends and leaves an
    object behind.  Nothing is promised of the results. *)
Class YunyiRuntime (R : Type) := {
  rt_call : forall T, Call T -> R -> outcome T * R
}.
Arguments rt_call {R _} T _ _.

(** ** What is recorded *)
Inductive Thread := Io | Worker.

#[export] Instance Thread_eq_dec : EqDecision Thread.
Proof. solve_decision. Defined.

Inductive Event :=
| EvLease (e : LeaseEvent)
| EvEnqueued (r : ControlRequest)
| EvPopped (r : ControlRequest)
| EvExecuted (r : ControlRequest)
| EvStreamed (c : StreamCommand)
| EvTaken (who : Thread) (client : string) (request : Z)
| EvReply (reply : ControlReply)
| EvMotion (who : Thread) (sample : MotionEvent)
| EvDiscovery (sample : Discovery)
| EvState (sample : RobotState)
| EvHealth (sample : Health).

(** ** The members of the service *)

(** [runtime_], [runtime_suspended_], [runtime_error_], [next_runtime_retry_]
    and [retry_delay_] (in nanoseconds). *)
Record RuntimeSlot := {
  sl_runtime : option nat;
  sl_suspended : bool;
  sl_error : string;
  sl_next_retry : Z;
  sl_retry_delay : Z
}.

(** [control_queue_], [control_worker_stop_], [control_busy_], and whether the
    worker thread has returned. *)
Record ControlQueue := {
  cq_requests : list ControlRequest;
  cq_stop : bool;
  cq_busy : bool;
  cq_returned : bool
}.

(** [pending_motion_request_] and [pending_motion_client_]. *)
Record PendingMotion := { pm_request : Z; pm_client : string }.

Record Counters := {
  reply_sequence : Z;
  discovery_sequence : Z;
  state_sequence : Z;
  health_sequence : Z;
  motion_sequence : Z;
  last_health_signature : string
}.

(** The environment's part: the clock, the stop requests, the samples that
    wait in the readers (with [valid_data]), the codes the next
    [dds_waitset_wait] and [dds_write] return. *)
Record Outside := {
  out_clock : Z;
  out_stop : bool;
  out_requests : list (bool * ControlRequest);
  out_streams : list (bool * WireStream);
  out_wait : Z;
  out_write : Z
}.

Record Service (R : Type) := {
  sv_out : Outside;
  sv_create : Result R;
  sv_objects : list R;
  sv_mailbox : Mailbox;
  sv_lease : LeaseManager;
  sv_slot : RuntimeSlot;
  sv_control : ControlQueue;
  sv_pending : PendingMotion;
  sv_counters : Counters;
  sv_trace : list Event
}.
Arguments sv_out {R} _.
Arguments sv_create {R} _.
Arguments sv_objects {R} _.
Arguments sv_mailbox {R} _.
Arguments sv_lease {R} _.
Arguments sv_slot {R} _.
Arguments sv_control {R} _.
Arguments sv_pending {R} _.
Arguments sv_counters {R} _.
Arguments sv_trace {R} _.

Section Updates.
Context {R : Type}.
Implicit Types s : Service R.

Definition set_out (v : Outside) s : Service R :=
  {| sv_out := v; sv_create := sv_create s; sv_objects := sv_objects s; sv_mailbox := sv_mailbox s;
     sv_lease := sv_lease s; sv_slot := sv_slot s; sv_control := sv_control s;
     sv_pending := sv_pending s; sv_counters := sv_counters s; sv_trace := sv_trace s |}.

Definition set_objects (v : list R) s : Service R :=
  {| sv_out := sv_out s; sv_create := sv_create s; sv_objects := v; sv_mailbox := sv_mailbox s;
     sv_lease := sv_lease s; sv_slot := sv_slot s; sv_control := sv_control s;
     sv_pending := sv_pending s; sv_counters := sv_counters s; sv_trace := sv_trace s |}.

Definition set_mailbox (v : Mailbox) s : Service R :=
  {| sv_out := sv_out s; sv_create := sv_create s; sv_objects := sv_objects s; sv_mailbox := v;
     sv_lease := sv_lease s; sv_slot := sv_slot s; sv_control := sv_control s;
     sv_pending := sv_pending s; sv_counters := sv_counters s; sv_trace := sv_trace s |}.

Definition set_lease (v : LeaseManager) s : Service R :=
  {| sv_out := sv_out s; sv_create := sv_create s; sv_objects := sv_objects s;
     sv_mailbox := sv_mailbox s; sv_lease := v; sv_slot := sv_slot s; sv_control := sv_control s;
     sv_pending := sv_pending s; sv_counters := sv_counters s; sv_trace := sv_trace s |}.

Definition set_slot (f : RuntimeSlot -> RuntimeSlot) s : Service R :=
  {| sv_out := sv_out s; sv_create := sv_create s; sv_objects := sv_objects s;
     sv_mailbox := sv_mailbox s; sv_lease := sv_lease s; sv_slot := f (sv_slot s);
     sv_control := sv_control s; sv_pending := sv_pending s; sv_counters := sv_counters s;
     sv_trace := sv_trace s |}.

Definition set_control (f : ControlQueue -> ControlQueue) s : Service R :=
  {| sv_out := sv_out s; sv_create := sv_create s; sv_objects := sv_objects s;
     sv_mailbox := sv_mailbox s; sv_lease := sv_lease s; sv_slot := sv_slot s;
     sv_control := f (sv_control s); sv_pending := sv_pending s; sv_counters := sv_counters s;
     sv_trace := sv_trace s |}.

Definition set_pending (v : PendingMotion) s : Service R :=
  {| sv_out := sv_out s; sv_create := sv_create s; sv_objects := sv_objects s;
     sv_mailbox := sv_mailbox s; sv_lease := sv_lease s; sv_slot := sv_slot s;
     sv_control := sv_control s; sv_pending := v; sv_counters := sv_counters s;
     sv_trace := sv_trace s |}.

Definition set_counters (f : Counters -> Counters) s : Service R :=
  {| sv_out := sv_out s; sv_create := sv_create s; sv_objects := sv_objects s;
     sv_mailbox := sv_mailbox s; sv_lease := sv_lease s; sv_slot := sv_slot s;
     sv_control := sv_control s; sv_pending := sv_pending s; sv_counters := f (sv_counters s);
     sv_trace := sv_trace s |}.

Definition log (e : Event) s : Service R :=
  {| sv_out := sv_out s; sv_create := sv_create s; sv_objects := sv_objects s;
     sv_mailbox := sv_mailbox s; sv_lease := sv_lease s; sv_slot := sv_slot s;
     sv_control := sv_control s; sv_pending := sv_pending s; sv_counters := sv_counters s;
     sv_trace := sv_trace s ++ [e] |}.

End Updates.

Definition set_error (text : string) (v : RuntimeSlot) : RuntimeSlot :=
  {| sl_runtime := sl_runtime v; sl_suspended := sl_suspended v; sl_error := text;
     sl_next_retry := sl_next_retry v; sl_retry_delay := sl_retry_delay v |}.

Definition set_runtime_pointer (p : option nat) (v : RuntimeSlot) : RuntimeSlot :=
  {| sl_runtime := p; sl_suspended := sl_suspended v; sl_error := sl_error v;
     sl_next_retry := sl_next_retry v; sl_retry_delay := sl_retry_delay v |}.

Definition set_requests (l : list ControlRequest) (c : ControlQueue) : ControlQueue :=
  {| cq_requests := l; cq_stop := cq_stop c; cq_busy := cq_busy c; cq_returned := cq_returned c |}.

Definition set_busy (b : bool) (c : ControlQueue) : ControlQueue :=
  {| cq_requests := cq_requests c; cq_stop := cq_stop c; cq_busy := b;
     cq_returned := cq_returned c |}.

Definition set_returned (c : ControlQueue) : ControlQueue :=
  {| cq_requests := cq_requests c; cq_stop := cq_stop c; cq_busy := cq_busy c;
     cq_returned := true |}.

Definition set_samples (requests : list (bool * ControlRequest)) (streams : list (bool * WireStream))
    (o : Outside) : Outside :=
  {| out_clock := out_clock o; out_stop := out_stop o; out_requests := requests;
     out_streams := streams; out_wait := out_wait o; out_write := out_write o |}.

(** [++counter], on a 64-bit counter. *)
Inductive Counter := CReply | CDiscovery | CState | CHealth | CMotion.

Definition counter_value (which : Counter) (c : Counters) : Z :=
  match which with
  | CReply => reply_sequence c | CDiscovery => discovery_sequence c | CState => state_sequence c
  | CHealth => health_sequence c | CMotion => motion_sequence c
  end.

Definition bump (which : Counter) (c : Counters) : Counters :=
  let up k v := if match which, k with
                   | CReply, CReply | CDiscovery, CDiscovery | CState, CState
                   | CHealth, CHealth | CMotion, CMotion => true
                   | _, _ => false
                   end then u64 (v + 1) else v in
  {| reply_sequence := up CReply (reply_sequence c);
     discovery_sequence := up CDiscovery (discovery_sequence c);
     state_sequence := up CState (state_sequence c);
     health_sequence := up CHealth (health_sequence c);
     motion_sequence := up CMotion (motion_sequence c);
     last_health_signature := last_health_signature c |}.

Definition set_signature (text : string) (c : Counters) : Counters :=
  {| reply_sequence := reply_sequence c; discovery_sequence := discovery_sequence c;
     state_sequence := state_sequence c; health_sequence := health_sequence c;
     motion_sequence := motion_sequence c; last_health_signature := text |}.

(** ** Primitive actions *)
Section Primitives.
Context {R : Type} `{!YunyiRuntime R} (strretcode : Z -> string).

(** A program of the service. *)
Definition P (A : Type) : Type := prog (Service R) A.

(** [Clock::now()]. *)
Definition now : P Z := read (fun s => out_clock (sv_out s)).

(** [check(result, operation)]. *)
Definition check (result : Z) (operation : string) : P unit :=
  if 0 <=? result then pret tt
  else pthrow (RuntimeError (operation ++ ": " ++ strretcode (- result))).

(** [check(dds_write(writer, &sample), operation)]: the sample is published
    when the middleware accepts it. *)
Definition publish (operation : string) (sample : Event) : P unit :=
  do result <- act (fun s : Service R =>
    let result := out_write (sv_out s) in
    (result, if 0 <=? result then log sample s else s));
  check result operation.

(** A call of the runtime, by pointer. *)
Definition invoke {T} (p : nat) (c : Call T) : P T :=
  do o <- act (fun s : Service R =>
    match sv_objects s !! p with
    | Some r => let '(o, r') := rt_call T c r in (o, set_objects (<[p := r']> (sv_objects s)) s)
    | None => (Undefined, s)
    end);
  Done o.

(** One call of the lease manager, with its critical section. *)
Definition lease_do (at_time : Z) (op : LeaseOp) : P LeaseEvent :=
  act (fun s : Service R =>
    let '(e, m) := lease_call at_time op (sv_lease s) in (e, log (EvLease e) (set_lease m s))).

Definition lease_snapshot : P (option LeaseSnapshot) := read (fun s => snapshot (sv_lease s)).

Definition runtime_snapshot : P (option nat) := read (fun s => sl_runtime (sv_slot s)).
Definition runtime_error_snapshot : P string := read (fun s => sl_error (sv_slot s)).

(** [runtime_error_ = text] under the runtime lock. *)
Definition store_error (text : string) : P unit := write (set_slot (set_error text)).

(** [++sequence]. *)
Definition next_sequence (which : Counter) : P Z :=
  act (fun s : Service R => (counter_value which (bump which (sv_counters s)),
                             set_counters (bump which) s)).

End Primitives.
