(* ===== verification/Service.v ===== *)
(** * The DDS service: its two threads

    [CycloneService::Impl] of [dds/src/cyclone_service.cpp], operation by
    operation.  The thread that calls [run] takes the samples, keeps the lease
    and publishes; the control worker executes the queued requests and brings
    the runtime up.  [service_body] is one round of either thread for the
    transition system of [Threads]. *)

From Stdlib Require Import String.
From S2P Require Import Prelude Float32 RuntimeTypes DdsProtocol Lease Config Threads ServiceState.
#[local] Open Scope thread_scope.

Definition kControlQueueCapacity : nat := 32.

Definition protocol_status (status : Status) : ProtocolError :=
  if status_ok status then PeOk else map_runtime_error (status_code status).

Definition diagnostic_operation (operation : ControlOperation) : option string :=
  match operation with
  | CONFIGURE_MODE => Some "CONFIGURE_MODE"%string
  | CLEAR_FAULTS => Some "CLEAR_FAULTS"%string
  | SET_GRIPPERS => Some "SET_GRIPPERS"%string
  | _ => None
  end.

Definition required_states (operation : ControlOperation) : string :=
  match operation with
  | CLEAR_FAULTS => "[READY, FAULT(non_estop)]"
  | SET_GRIPPERS => "[ENABLED, RUNNING, DEGRADED, PARTIALLY_ENABLED]"
  | _ => "[READY]"
  end.

Definition requires_pv_percentage_limit_semantics (operation : ControlOperation) : bool :=
  match operation with
  | SET_MAX_SPEED | SET_MAX_ACCELERATION | GET_MAX_SPEED | GET_MAX_ACCELERATION => true
  | _ => false
  end.

Definition finite_motion (operation : ControlOperation) : bool :=
  match operation with MOVE_POSE | MOVE_LINEAR | MOVE_CIRCULAR => true | _ => false end.

(** [do deadline += period; while (deadline <= now);], with the number of
    rounds it can take as fuel. *)
Fixpoint advance_rounds (fuel : nat) (deadline period now : Z) : Z :=
  match fuel with
  | O => deadline
  | S n =>
      let d := deadline + period in
      if d <=? now then advance_rounds n d period now else d
  end.

Definition advance (deadline period now : Z) : Z :=
  advance_rounds (S (Z.to_nat ((now - deadline) / period))) deadline period now.

(** ** Casts of wire values *)

(** [static_cast<Enum>(x)] on a [uint32_t], for an enumeration over
    [uint8_t]. *)
Definition enum_cast (x : Z) : Z := u8 x.

(** [static_cast<int>(x)] on a [float]. *)
Definition f32_to_int (x : f32) : option Z :=
  match f32_trunc x with
  | Some z => if (- 2 ^ 31 <=? z) && (z <? 2 ^ 31) then Some z else None
  | None => None
  end.

Definition scalar_at (l : list f32) (i : nat) : f32 := nth i l f32_zero.

(** [std::copy(values.begin(), values.end(), reply.values + offset)] into the
    64 values of a reply. *)
Definition put_values (offset : nat) (values reply_values : list f32) : list f32 :=
  take offset reply_values ++ values ++ drop (offset + length values) reply_values.

Definition flag (b : bool) : f32 := if b then f32_of_Z 1 else f32_zero.

Section Service.
Context {R : Type} `{!YunyiRuntime R}.
Context (strretcode : Z -> string) (config_ : ServiceConfig) (service_version : string).

Notation Prog := (P (R := R)).

(** ** The runtime slot *)

(** A failed attempt: the reason, the next attempt and the doubled delay. *)
Definition retry_later (at_time : Z) (text : string) (v : RuntimeSlot) : RuntimeSlot :=
  {| sl_runtime := sl_runtime v; sl_suspended := sl_suspended v; sl_error := text;
     sl_next_retry := at_time + sl_retry_delay v;
     sl_retry_delay := Z.min (sl_retry_delay v * 2) (milliseconds (can_retry_max config_)) |}.

Definition adopt_runtime (p : nat) (v : RuntimeSlot) : RuntimeSlot :=
  {| sl_runtime := Some p; sl_suspended := sl_suspended v; sl_error := "";
     sl_next_retry := sl_next_retry v;
     sl_retry_delay := milliseconds (can_retry_initial config_) |}.

(** [YunyiRuntime::create]: the environment decides what it returns. *)
Definition create_runtime : Prog (Result nat) :=
  act (fun s : Service R =>
    match sv_create s with
    | Value r => (Value (length (sv_objects s)), set_objects (sv_objects s ++ [r]) s)
    | Error status => (Error status, s)
    end).

Definition ensure_runtime (at_time : Z) : Prog unit :=
  do skip <- read (fun s : Service R =>
    let v := sv_slot s in
    match sl_runtime v with Some _ => true | None => false end || sl_suspended v ||
    (at_time <? sl_next_retry v));
  if skip : bool then pret tt
  else
    do candidate <- create_runtime;
    match candidate with
    | Error status => write (set_slot (retry_later at_time (status_message status)))
    | Value p =>
        do connected <- invoke p Rt_connect;
        if negb (status_ok connected) then
          write (set_slot (retry_later at_time (status_message connected)))
        else write (set_slot (adopt_runtime p))
    end.

(** ** Motion events *)

Definition header (client security : string) (sequence : Z) : MessageIdentity := {|
  protocol_major := kProtocolMajor; protocol_minor := kProtocolMinor;
  robot_id := copy_text 65 (cfg_robot_id config_); client_id := copy_text 65 client;
  security_identity := copy_text 129 security; sequence := sequence |}.

Definition service_client : string := "articore-runtime-service".

Definition publish_motion_event (who : Thread) (client : string) (request_id : Z)
    (kind : MotionEventKind) (error : ProtocolError) (message : string) : Prog unit :=
  do sequence <- next_sequence CMotion;
  publish strretcode "write motion event" (EvMotion who {|
    me_header := header client "" sequence; me_request_id := request_id; me_kind := kind;
    me_error := error; me_message := copy_text 513 message |}).

(** The critical section of [finish_pending_motion]. *)
Definition take_pending (who : Thread) (s : Service R) : option (string * Z) * Service R :=
  let m := sv_pending s in
  if pm_request m =? 0 then (None, s)
  else (Some (pm_client m, pm_request m),
        log (EvTaken who (pm_client m) (pm_request m))
          (set_pending {| pm_request := 0; pm_client := "" |} s)).

Definition finish_pending_motion (who : Thread) (kind : MotionEventKind) (error : ProtocolError)
    (message : string) : Prog unit :=
  do taken <- act (take_pending who);
  match taken with
  | None => pret tt
  | Some (client, request_id) => publish_motion_event who client request_id kind error message
  end.

Definition cancel_pending_motion (who : Thread) (error : ProtocolError) (message : string)
    : Prog unit :=
  finish_pending_motion who MOTION_CANCELLED error message.

(** ** Losing the lease

    The callback the constructor gives to the lease manager, which calls it
    after [release], [expire_if_needed] and [revoke] when they ended a lease.
    Only the thread of [run] makes these calls. *)
Definition on_lost (reason : string) : Prog unit :=
  write (fun s => set_mailbox (mailbox_clear (sv_mailbox s)) s) ;;;
  do runtime <- runtime_snapshot;
  match runtime with
  | Some p => invoke p (Rt_on_control_lost reason) ;;; pret tt
  | None => pret tt
  end ;;;
  cancel_pending_motion Io PeNoLease reason.

Definition lease_call_and_notify (at_time : Z) (op : LeaseOp) : Prog LeaseEvent :=
  do e <- lease_do at_time op;
  match le_lost e with
  | Some reason => on_lost reason
  | None => pret tt
  end ;;;
  pret e.

(** ** Replies *)

Definition initialize_reply (request : ControlRequest) : Prog ControlReply :=
  do sequence <- next_sequence CReply;
  pret {| rp_header := header (client_id (rq_header request))
            (security_identity (rq_header request)) sequence;
          rp_request_id := rq_request_id request; rp_lease_id := rq_lease_id request;
          rp_error := PeOk; rp_message := ""; rp_values := zeros 64 |}.

Definition set_reply_lease (lease : Z) (reply : ControlReply) : ControlReply :=
  {| rp_header := rp_header reply; rp_request_id := rp_request_id reply; rp_lease_id := lease;
     rp_error := rp_error reply; rp_message := rp_message reply; rp_values := rp_values reply |}.

Definition set_reply_values (values : list f32) (reply : ControlReply) : ControlReply :=
  {| rp_header := rp_header reply; rp_request_id := rp_request_id reply;
     rp_lease_id := rp_lease_id reply; rp_error := rp_error reply;
     rp_message := rp_message reply; rp_values := values |}.

Definition finish_reply (reply : ControlReply) (error : ProtocolError) (message : string)
    : Prog unit :=
  publish strretcode "write control reply" (EvReply {|
    rp_header := rp_header reply; rp_request_id := rp_request_id reply;
    rp_lease_id := rp_lease_id reply; rp_error := error; rp_message := copy_text 513 message;
    rp_values := rp_values reply |}).

(** ** The control queue *)

Definition enqueue (request : ControlRequest) (s : Service R) : bool * Service R :=
  let c := sv_control s in
  if cq_stop c || (kControlQueueCapacity <=? length (cq_requests c))%nat then (false, s)
  else (true, log (EvEnqueued request)
                (set_control (set_requests (cq_requests c ++ [request])) s)).

Definition enqueue_control_request (request : ControlRequest) : Prog bool := act (enqueue request).

(** [stop_control_worker] up to the join. *)
Definition stop_control_worker : Prog unit :=
  write (set_control (fun c => {| cq_requests := []; cq_stop := true; cq_busy := cq_busy c;
                                  cq_returned := cq_returned c |})).

(** What the worker finds when it wakes up. *)
Inductive Wakeup := WakeStop | WakeIdle | WakeRequest (request : ControlRequest).

Definition pop (s : Service R) : Wakeup * Service R :=
  let c := sv_control s in
  if cq_stop c then (WakeStop, s)
  else match cq_requests c with
  | [] => (WakeIdle, s)
  | r :: rest => (WakeRequest r, log (EvPopped r) (set_control (set_requests rest) s))
  end.

(** ** [handle_request] *)

Definition reply_with (request : ControlRequest) (error : ProtocolError) (message : string)
    : Prog unit :=
  do reply <- initialize_reply request; finish_reply reply error message.

Definition handle_request (request : ControlRequest) : Prog unit :=
  let h := rq_header request in
  let error := validate_identity h (cfg_robot_id config_) in
  if negb (bool_decide (error = PeOk)) then
    reply_with request error "request identity or protocol version rejected"
  else match rq_operation request with
  | ACQUIRE_LEASE =>
      do t <- now;
      do e <- lease_do t (OpAcquire (client_id h));
      match le_lease e with
      | None =>
          reply_with request (le_error e)
            (if bool_decide (le_error e = PeBusy) then "another client owns the robot lease"
             else "client_id must contain 1..63 bytes")
      | Some a =>
          do reply <- initialize_reply request;
          finish_reply (set_reply_lease (ls_lease_id a) reply) PeOk ""
      end
  | HEARTBEAT =>
      do t <- now;
      do e <- lease_do t (OpHeartbeat (client_id h) (rq_lease_id request) (sequence h));
      reply_with request (le_error e) ""
  | RELEASE_LEASE =>
      do t <- now;
      do e <- lease_call_and_notify t
        (OpRelease (client_id h) (rq_lease_id request) "lease released");
      reply_with request (le_error e) ""
  | operation =>
      do error <-
        (if query_only operation then pret PeOk
         else do t <- now;
              do e <- lease_do t
                (OpAuthorize (client_id h) (rq_lease_id request) (sequence h) Control false);
              pret (le_error e));
      if negb (bool_decide (error = PeOk)) then reply_with request error ""
      else
        do queued <- enqueue_control_request request;
        if queued : bool then pret tt
        else reply_with request PeBusy "control request queue is full"
  end.

(** ** [execute]

    One runtime method per operation; a query copies its value into the
    reply.  The result is the status and the 64 reply values. *)

(** A method that only returns a status. *)
Definition plain (p : nat) (c : Call Status) (values : list f32) : Prog (Status * list f32) :=
  do status <- invoke p c; pret (status, values).

(** [auto value = ...; if (!value) return value.status(); ...; return success]. *)
Definition query {T} (p : nat) (c : Call (Result T)) (fill : T -> list f32 -> list f32)
    (values : list f32) : Prog (Status * list f32) :=
  do result <- invoke p c;
  match result with
  | Error status => pret (status, values)
  | Value v => pret (success, fill v values)
  end.

Definition execute (request : ControlRequest) (p : nat) (values : list f32)
    : Prog (Status * list f32) :=
  let side := enum_cast (rq_side request) in
  let scalar := scalar_at (rq_scalar request) in
  match rq_operation request with
  | CONNECT => plain p Rt_connect values
  | DISCONNECT => plain p Rt_disconnect values
  | CONFIGURE_MODE => plain p (Rt_configure_mode (enum_cast (rq_mode request))) values
  | ENABLE => plain p Rt_enable values
  | DISABLE => plain p Rt_disable values
  | SET_ZERO => plain p Rt_set_zero values
  | CLEAR_FAULTS => plain p Rt_clear_faults values
  | ESTOP => plain p Rt_estop values
  | RECOVER => plain p Rt_recover values
  | SET_SPEED_PERCENT => plain p (Rt_set_speed_percent (scalar 0%nat)) values
  | SET_MAX_SPEED => plain p (Rt_set_max_speed (scalar 0%nat)) values
  | SET_MAX_ACCELERATION => plain p (Rt_set_max_acceleration (scalar 0%nat)) values
  | SOLVE_IK =>
      query p (Rt_solve_ik (rq_pose_a request) (rq_pose_b request)) (put_values 0) values
  | MOVE_POSE => plain p (Rt_move_pose side (rq_pose_a request)) values
  | MOVE_LINEAR => plain p (Rt_move_linear side (rq_pose_b request)) values
  | MOVE_CIRCULAR =>
      plain p (Rt_move_circular side (rq_pose_a request) (rq_pose_b request) (rq_pose_c request))
        values
  | STOP_MOTION => plain p Rt_stop_motion values
  | SET_GRIPPERS =>
      do strength <- pdefined (f32_to_int (scalar 2%nat));
      do mode <- pdefined (f32_to_int (scalar 3%nat));
      plain p (Rt_set_grippers (scalar 0%nat) (scalar 1%nat) strength (enum_cast mode)) values
  | SET_TCP_OFFSET => plain p (Rt_set_tcp_offset side (rq_pose_a request)) values
  | RESET_TCP_OFFSET => plain p (Rt_reset_tcp_offset side) values
  | START_GRAVITY_COMPENSATION =>
      do transition <- pdefined (f32_to_unsigned 32 (scalar 0%nat));
      plain p (Rt_start_gravity_compensation transition) values
  | STOP_GRAVITY_COMPENSATION => plain p Rt_stop_gravity_compensation values
  | START_BIMANUAL_FOLLOW => plain p (Rt_start_bimanual_follow side) values
  | STOP_BIMANUAL_FOLLOW => plain p Rt_stop_bimanual_follow values
  | QUERY_STATE => query p Rt_state (fun s => put_values 0 (rs_positions s)) values
  | QUERY_HEALTH =>
      query p Rt_health (fun h => put_values 0 [f32_of_Z (SafetyState_value (rh_state h))]) values
  | GET_POSE => query p (Rt_pose side) (put_values 0) values
  | GET_TCP_OFFSET => query p (Rt_tcp_offset side) (put_values 0) values
  | GET_JOINT_LIMITS =>
      query p Rt_joint_limits (fun l v =>
        put_values (2 * kRobotDof) (velocity_limits l)
          (put_values kRobotDof (upper_angles l) (put_values 0 (lower_angles l) v))) values
  | GET_SPEED_PERCENT => query p Rt_speed_percent (fun x => put_values 0 [x]) values
  | GET_MAX_SPEED => query p Rt_max_speed (fun x => put_values 0 [x]) values
  | GET_MAX_ACCELERATION => query p Rt_max_acceleration (fun x => put_values 0 [x]) values
  | HAS_GRIPPERS =>
      query p Rt_hardware_topology (fun t =>
        put_values 0 [flag (has_any_gripper t); flag (has_gripper t Left); flag (has_gripper t Right)])
        values
  | GET_HARDWARE_TOPOLOGY =>
      query p Rt_hardware_topology (fun t =>
        put_values 0 [f32_of_Z (topology_revision t);
                      f32_of_Z (EndEffectorType_value (end_effector t Left));
                      f32_of_Z (EndEffectorType_value (end_effector t Right))]) values
  | GET_GRAVITY_STATUS =>
      query p Rt_gravity_compensation_status (fun g v =>
        put_values 3 (gc_feedforward_torques g)
          (put_values 0 [f32_of_Z (gc_phase g); flag (gc_active g); gc_transition_progress g] v))
        values
  | GET_BIMANUAL_STATUS =>
      query p Rt_bimanual_follow_status (fun b v =>
        put_values (5 + kArmDof) (bf_follower_target_positions b)
          (put_values 5 (bf_leader_positions b)
            (put_values 0 [f32_of_Z (bf_phase b); flag (bf_active b);
                           f32_of_Z (RobotSide_value (bf_leader b)); bf_transition_progress b;
                           bf_maximum_tracking_error b] v))) values
  | ACQUIRE_LEASE | HEARTBEAT | RELEASE_LEASE =>
      pret (failure CodeInvalidArgument "unsupported control operation", values)
  end.

(** ** [execute_queued_request] *)

(** [lease && client and id match && now < expires_at]. *)
Definition lease_valid (request : ControlRequest) (at_time : Z) (lease : option LeaseSnapshot)
    : bool :=
  match lease with
  | Some a => owns (client_id (rq_header request)) (rq_lease_id request) a &&
              (at_time <? ls_expires_at a)
  | None => false
  end.

(** The runtime the request works on; [CONNECT] brings one up. *)
Definition obtain_runtime (request : ControlRequest) : Prog (option nat) :=
  do runtime <- runtime_snapshot;
  match runtime, rq_operation request with
  | None, CONNECT =>
      do t <- now;
      write (set_slot (fun v => {| sl_runtime := sl_runtime v; sl_suspended := false;
                                   sl_error := sl_error v; sl_next_retry := t;
                                   sl_retry_delay := sl_retry_delay v |})) ;;;
      ensure_runtime t ;;;
      runtime_snapshot
  | _, _ => pret runtime
  end.

(** The events of a finite motion, after the runtime took it or refused. *)
Definition report_motion (request : ControlRequest) (status : Status) (lease_error : ProtocolError)
    : Prog unit :=
  let client := client_id (rq_header request) in
  if status_ok status && bool_decide (lease_error = PeOk) then
    publish_motion_event Worker client (rq_request_id request) MOTION_ACCEPTED PeOk
      "motion accepted" ;;;
    write (set_pending {| pm_request := rq_request_id request; pm_client := client |}) ;;;
    do lease <- lease_snapshot;
    do t <- now;
    if lease_valid request t lease then pret tt
    else cancel_pending_motion Worker PeNoLease "control lease expired after motion accepted"
  else
    publish_motion_event Worker client (rq_request_id request) MOTION_FAILED
      (if negb (bool_decide (lease_error = PeOk)) then lease_error else protocol_status status)
      (if negb (bool_decide (lease_error = PeOk)) then "control lease expired during execution"
       else status_message status).

(** The text of the reply. *)
Definition reply_text (request : ControlRequest) (p : nat) (status : Status) : Prog string :=
  if status_ok status then pret (status_message status)
  else match diagnostic_operation (rq_operation request) with
  | None => pret (status_message status)
  | Some diagnostic =>
      do health <- invoke p Rt_health;
      match health with
      | Value h =>
          pret (describe_runtime_rejection diagnostic (required_states (rq_operation request))
                  status h)
      | Error _ => pret (status_message status)
      end
  end.

Definition run_operation (request : ControlRequest) (reply : ControlReply) (p : nat) : Prog unit :=
  let operation := rq_operation request in
  write (log (EvExecuted request)) ;;;
  do '(status, values) <- execute request p (rp_values reply);
  do lease_error <-
    (if query_only operation then pret PeOk
     else do t <- now;
          do e <- lease_do t
            (OpRefresh (client_id (rq_header request)) (rq_lease_id request));
          pret (le_error e));
  (if finite_motion operation then report_motion request status lease_error
   else if bool_decide (operation = STOP_MOTION) && status_ok status then
     cancel_pending_motion Worker PeOk "motion cancelled"
   else pret tt) ;;;
  do text <- reply_text request p status;
  finish_reply (set_reply_values values reply)
    (if negb (bool_decide (lease_error = PeOk)) then lease_error else protocol_status status)
    (if negb (bool_decide (lease_error = PeOk)) then "control lease expired during execution"
     else text) ;;;
  (if bool_decide (operation = DISCONNECT) && status_ok status then
     write (set_slot (fun v => {|
       sl_runtime := if bool_decide (sl_runtime v = Some p) then None else sl_runtime v;
       sl_suspended := true; sl_error := ""; sl_next_retry := sl_next_retry v;
       sl_retry_delay := sl_retry_delay v |}))
   else pret tt).

Definition execute_queued_request (request : ControlRequest) : Prog unit :=
  let operation := rq_operation request in
  do reply <- initialize_reply request;
  do valid <-
    (if query_only operation then pret true
     else do lease <- lease_snapshot; do t <- now; pret (lease_valid request t lease));
  if negb valid then
    finish_reply reply PeNoLease "control lease expired while request was queued"
  else if requires_pv_percentage_limit_semantics operation &&
          (protocol_minor (rq_header request) <? kPvPercentageLimitsProtocolMinor) then
    finish_reply reply PeVersionMismatch
      "PV maximum speed and acceleration use percentages in protocol 1.3; upgrade the SDK before calling this operation"
  else
    do runtime <- obtain_runtime request;
    match runtime with
    | None =>
        do detail <- runtime_error_snapshot;
        finish_reply reply PeTransportError
          (if str_empty detail then "CAN is unavailable" else detail)
    | Some p => run_operation request reply p
    end.

(** ** The control worker *)

(** One round of [control_worker_loop]: whether the thread goes on.  The
    handlers are [catch (const std::exception&)] and [catch (...)]. *)
Definition control_worker_round : Prog bool :=
  do wakeup <- act pop;
  match wakeup with
  | WakeStop => write (set_control set_returned) ;;; pret false
  | WakeIdle => do t <- now; ensure_runtime t ;;; pret true
  | WakeRequest request =>
      write (set_control (set_busy true)) ;;;
      pcatch (execute_queued_request request) (fun e =>
        store_error (match e with
                     | OtherException _ => "unknown control worker exception"
                     | _ => exn_what e
                     end)) ;;;
      write (set_control (set_busy false)) ;;;
      pret true
  end.

(** ** Streamed commands *)

Definition stream_of (wire : WireStream) (received_at : Z) : StreamCommand := {|
  sc_identity := ws_header wire; sc_lease_id := ws_lease_id wire; sc_kind := ws_kind wire;
  sc_positions := ws_positions wire; sc_velocities := ws_velocities wire; sc_kp := ws_kp wire;
  sc_kd := ws_kd wire; sc_feedforward_torques := ws_feedforward_torques wire;
  sc_speed_percent := ws_speed_percent wire; sc_received_at := received_at |}.

(** [dds_take] of one sample. *)
Definition take_request (s : Service R) : option (bool * ControlRequest) * Service R :=
  match out_requests (sv_out s) with
  | [] => (None, s)
  | x :: rest => (Some x, set_out (set_samples rest (out_streams (sv_out s)) (sv_out s)) s)
  end.

Definition take_stream (s : Service R) : option (bool * WireStream) * Service R :=
  match out_streams (sv_out s) with
  | [] => (None, s)
  | x :: rest => (Some x, set_out (set_samples (out_requests (sv_out s)) rest (sv_out s)) s)
  end.

Definition take_control_requests : Prog unit :=
  pfor 32 (
    do sample <- act take_request;
    match sample with
    | None => pret false
    | Some (valid, request) => pwhen valid (handle_request request) ;;; pret true
    end).

Definition accept_stream (command : StreamCommand) : Prog unit :=
  let error := validate_stream command (cfg_robot_id config_) in
  do error <-
    (if bool_decide (error = PeOk) then
       do e <- lease_do (sc_received_at command)
         (OpAuthorize (client_id (sc_identity command)) (sc_lease_id command)
            (command_sequence command) Stream true);
       pret (le_error e)
     else pret error);
  pwhen (bool_decide (error = PeOk))
    (write (fun s => set_mailbox (mailbox_store command (sv_mailbox s)) s)).

Definition take_stream_commands : Prog unit :=
  pfor 64 (
    do sample <- act take_stream;
    match sample with
    | None => pret false
    | Some (valid, wire) =>
        pwhen valid (do t <- now; accept_stream (stream_of wire t)) ;;; pret true
    end).

Definition stream_call (command : StreamCommand) : Call Status :=
  match sc_kind command with
  | StreamPv => Rt_set_joint_pv (sc_positions command) (sc_speed_percent command)
  | StreamMitFast => Rt_set_joint_mit_fast (sc_positions command) (sc_speed_percent command)
  | StreamMit => Rt_set_joint_mit {|
      mc_positions := sc_positions command; mc_velocities := sc_velocities command;
      mc_kp := sc_kp command; mc_kd := sc_kd command;
      mc_feedforward_torques := sc_feedforward_torques command |}
  end.

Definition take_latest (at_time : Z) (s : Service R) : option StreamCommand * Service R :=
  let '(command, m) := mailbox_take at_time (sv_mailbox s) in (command, set_mailbox m s).

Definition pump_latest (at_time : Z) : Prog unit :=
  do busy <- read (fun s => cq_busy (sv_control s));
  if busy : bool then pret tt
  else
    do command <- act (take_latest at_time);
    do runtime <- runtime_snapshot;
    match command, runtime with
    | Some command, Some p =>
        write (log (EvStreamed command)) ;;;
        do status <- invoke p (stream_call command);
        if status_ok status then pret tt else store_error (status_message status)
    | _, _ => pret tt
    end.

(** ** Publishers *)

Definition publish_discovery : Prog unit :=
  do sequence <- next_sequence CDiscovery;
  do runtime <- runtime_snapshot;
  publish strretcode "write discovery" (EvDiscovery {|
    ds_header := header service_client "" sequence;
    ds_service_version := copy_text 65 service_version; ds_domain_id := cfg_domain_id config_;
    ds_ready := match runtime with Some _ => true | None => false end |}).

(** [detail::copy_runtime_state_payload]. *)
Definition copy_runtime_state_payload (source : RuntimeState) (h : MessageIdentity) : RobotState :=
  {| st_header := h; st_source_timestamp_ns := u64 (rs_timestamp source);
     st_positions := rs_positions source; st_velocities := rs_velocities source;
     st_torques := rs_torques source; st_mos_temperatures := rs_mos_temperatures source;
     st_rotor_temperatures := rs_rotor_temperatures source;
     st_enabled_mask := rs_enabled_mask source;
     st_enabled_valid_mask := rs_enabled_valid_mask source;
     st_temperature_valid_mask := rs_temperature_valid_mask source;
     st_gripper_openings := rs_gripper_openings source;
     st_gripper_available := rs_gripper_available source;
     st_gripper_feedback_valid := rs_gripper_feedback_valid source;
     st_motion_arrived := rs_motion_arrived source |}.

Definition publish_state : Prog unit :=
  do runtime <- runtime_snapshot;
  match runtime with
  | None => pret tt
  | Some p =>
      do state <- invoke p Rt_state;
      match state with
      | Error _ => pret tt
      | Value v =>
          do sequence <- next_sequence CState;
          let sample := copy_runtime_state_payload v (header service_client "" sequence) in
          publish strretcode "write state" (EvState sample) ;;;
          pwhen (st_motion_arrived sample)
            (finish_pending_motion Io MOTION_COMPLETED PeOk "motion completed")
      end
  end.

Definition flag_text (b : bool) : string := if b then "1" else "0".

Definition health_signature (h : RuntimeHealth) : string :=
  (to_string (SafetyState_value (rh_state h)) ++ ":" ++ flag_text (rh_safe_holding h) ++ ":" ++
   flag_text (rh_disable_confirmed h) ++ ":" ++ flag_text (rh_degraded h) ++ ":" ++
   flag_text (rh_safe_stopped h) ++ ":" ++ flag_text (rh_requires_resynchronization h) ++ ":" ++
   to_string (rh_consecutive_send_failures h) ++ ":" ++
   to_string (rh_consecutive_feedback_failures h) ++ ":" ++ rh_fault_reason h ++ ":" ++
   rh_safety_reason h)%string.

(** A health sample before any member is set. *)
Definition empty_health (h : MessageIdentity) : Health := {|
  hl_header := h; hl_state := 0; hl_safe_holding := false; hl_disable_confirmed := false;
  hl_degraded := false; hl_safe_stopped := false; hl_requires_resynchronization := false;
  hl_consecutive_send_failures := 0; hl_consecutive_feedback_failures := 0;
  hl_fault_reason := ""; hl_safety_reason := "" |}.

Definition waiting_health (h : MessageIdentity) (detail : string) : Health := {|
  hl_header := h; hl_state := SafetyState_value Disconnected; hl_safe_holding := false;
  hl_disable_confirmed := false; hl_degraded := false; hl_safe_stopped := true;
  hl_requires_resynchronization := false; hl_consecutive_send_failures := 0;
  hl_consecutive_feedback_failures := 0; hl_fault_reason := "";
  hl_safety_reason := copy_text 513 (if str_empty detail then "waiting for CAN" else detail) |}.

Definition runtime_health (h : MessageIdentity) (v : RuntimeHealth) : Health := {|
  hl_header := h; hl_state := SafetyState_value (rh_state v);
  hl_safe_holding := rh_safe_holding v; hl_disable_confirmed := rh_disable_confirmed v;
  hl_degraded := rh_degraded v; hl_safe_stopped := rh_safe_stopped v;
  hl_requires_resynchronization := rh_requires_resynchronization v;
  hl_consecutive_send_failures := rh_consecutive_send_failures v;
  hl_consecutive_feedback_failures := rh_consecutive_feedback_failures v;
  hl_fault_reason := copy_text 513 (rh_fault_reason v);
  hl_safety_reason := copy_text 513 (rh_safety_reason v) |}.

Definition publish_health : Prog unit :=
  do sequence <- next_sequence CHealth;
  let h := header service_client "" sequence in
  do runtime <- runtime_snapshot;
  do sample <-
    match runtime with
    | None => do detail <- runtime_error_snapshot; pret (waiting_health h detail)
    | Some p =>
        do health <- invoke p Rt_health;
        match health with
        | Error _ => pret (empty_health h)
        | Value v => write (set_counters (set_signature (health_signature v))) ;;;
                     pret (runtime_health h v)
        end
    end;
  publish strretcode "write health" (EvHealth sample).

Definition publish_health_on_change : Prog unit :=
  do runtime <- runtime_snapshot;
  match runtime with
  | None => pret tt
  | Some p =>
      do health <- invoke p Rt_health;
      match health with
      | Error _ => pret tt
      | Value v =>
          do last <- read (fun s => last_health_signature (sv_counters s));
          if bool_decide (health_signature v = last) then pret tt else publish_health
      end
  end.

(** ** [run] *)

(** Where the thread of [run] is: before its loop, in it with its three
    deadlines, or waiting for the worker to return. *)
Inductive Phase :=
| Starting
| Looping (next_state next_health next_discovery : Z)
| Joining.

(** The time [dds_waitset_wait] may block. *)
Definition wait_timeout (next_state at_time : Z) : Z :=
  Z.min (if at_time <? next_state then next_state - at_time else 0) (milliseconds 2).

Definition dds_waitset_wait (timeout : Z) : Prog Z := read (fun s => out_wait (sv_out s)).

(** After the worker has been joined: revoke, then stop, disable and close. *)
Definition shutdown_runtime : Prog unit :=
  do t <- now;
  lease_call_and_notify t (OpRevoke "runtime service is stopping") ;;;
  write (fun s => set_mailbox (mailbox_clear (sv_mailbox s)) s) ;;;
  do runtime <- runtime_snapshot;
  match runtime with
  | None => pret tt
  | Some p =>
      invoke p Rt_stop_motion ;;;
      invoke p Rt_disable ;;;
      invoke p Rt_disconnect ;;;
      write (set_slot (fun v =>
        if bool_decide (sl_runtime v = Some p) then set_runtime_pointer None v else v))
  end.

(** One round of the loop. *)
Definition serve_round (next_state next_health next_discovery : Z) : Prog (option Phase) :=
  do t <- now;
  lease_call_and_notify t OpExpire ;;;
  do count <- dds_waitset_wait (wait_timeout next_state t);
  if count <? 0 then pret None
  else
    pwhen (0 <? count) (take_control_requests ;;; take_stream_commands) ;;;
    do t1 <- now;
    pump_latest t1 ;;;
    do after_io <- now;
    do next_state <-
      (if next_state <=? after_io then
         publish_state ;;; pret (advance next_state (milliseconds 2) after_io)
       else pret next_state);
    publish_health_on_change ;;;
    do next_health <-
      (if next_health <=? after_io then
         publish_health ;;; pret (advance next_health (milliseconds 100) after_io)
       else pret next_health);
    do next_discovery <-
      (if next_discovery <=? after_io then
         publish_discovery ;;; pret (advance next_discovery (milliseconds 1000) after_io)
       else pret next_discovery);
    pret (Some (Looping next_state next_health next_discovery)).

Definition run_round (phase : Phase) : Prog (option Phase) :=
  match phase with
  | Starting => do t <- now; pret (Some (Looping t t t))
  | Looping next_state next_health next_discovery =>
      do stop <- read (fun s => out_stop (sv_out s));
      if stop : bool then stop_control_worker ;;; pret (Some Joining)
      else serve_round next_state next_health next_discovery
  | Joining =>
      do returned <- read (fun s => cq_returned (sv_control s));
      if returned : bool then shutdown_runtime ;;; pret None
      else pret (Some Joining)
  end.

(** The two threads: 0 is the caller of [run], 1 is the control worker. *)
Definition service_body (thread : nat) (phase : Phase) : Prog (option Phase) :=
  match thread with
  | 0%nat => run_round phase
  | 1%nat => do again <- control_worker_round; pret (if again : bool then Some phase else None)
  | _ => pret None
  end.

End Service.

(** What the environment may do between two actions: let time pass, request
    the stop, deliver samples, choose the results of the middleware and of the
    next creation, and change the runtime objects, which have threads of their
    own. *)
Definition service_env {R} (s s' : Service R) : Prop :=
  exists out create objects,
    out_clock (sv_out s) <= out_clock out /\ length objects = length (sv_objects s) /\
    s' = {| sv_out := out; sv_create := create; sv_objects := objects;
            sv_mailbox := sv_mailbox s; sv_lease := sv_lease s; sv_slot := sv_slot s;
            sv_control := sv_control s; sv_pending := sv_pending s;
            sv_counters := sv_counters s; sv_trace := sv_trace s |}.

(** The service as the constructor leaves it.  The initial retry delay is the
    literal of the member, whatever the configuration says. *)
Definition make_Service {R} (out : Outside) (create : Result R) : Service R := {|
  sv_out := out; sv_create := create; sv_objects := []; sv_mailbox := None;
  sv_lease := make_LeaseManager kLeasePeriod;
  sv_slot := {| sl_runtime := None; sl_suspended := false; sl_error := "";
                sl_next_retry := out_clock out; sl_retry_delay := milliseconds 250 |};
  sv_control := {| cq_requests := []; cq_stop := false; cq_busy := false; cq_returned := false |};
  sv_pending := {| pm_request := 0; pm_client := "" |};
  sv_counters := {| reply_sequence := 0; discovery_sequence := 0; state_sequence := 0;
                    health_sequence := 0; motion_sequence := 0; last_health_signature := "" |};
  sv_trace := []
|}.

(** Reachable states of a running service. *)
Definition service_step {R} `{!YunyiRuntime R} (strretcode : Z -> string) (config : ServiceConfig)
    (version : string) : system (S := Service R) (L := Phase) -> system -> Prop :=
  sys_step (service_body strretcode config version) service_env.

Definition service_start {R} `{!YunyiRuntime R} (strretcode : Z -> string) (config : ServiceConfig)
    (version : string) (out : Outside) (create : Result R) : system (S := Service R) (L := Phase) :=
  (make_Service out create,
   [service_body strretcode config version 0 Starting;
    service_body strretcode config version 1 Starting]).
