(* ===== verification/ServiceProofs.v ===== *)
(** * The DDS service, whatever the interleaving

    The logs the theorems speak of are read off [sv_trace].  The invariant is
    kept by every action of either thread and of the environment; the two
    threads' contracts ([guarantee]) say which logs each leaves alone, so that
    what one thread has established between two actions survives the other.
    The theorems follow from the rely-guarantee rule of [Threads]. *)

From Stdlib Require Import String.
From S2P Require Import Prelude Float32 RuntimeTypes DdsProtocol Lease Config Threads ServiceState.
From S2P Require Import Service.
#[local] Open Scope thread_scope.

(** ** Logs *)

Definition lease_events (tr : list Event) : list LeaseEvent :=
  base.omap (fun ev => match ev with EvLease e => Some e | _ => None end) tr.

Definition enqueued (tr : list Event) : list ControlRequest :=
  base.omap (fun ev => match ev with EvEnqueued r => Some r | _ => None end) tr.

Definition popped (tr : list Event) : list ControlRequest :=
  base.omap (fun ev => match ev with EvPopped r => Some r | _ => None end) tr.

Definition executed (tr : list Event) : list ControlRequest :=
  base.omap (fun ev => match ev with EvExecuted r => Some r | _ => None end) tr.

Definition streamed (tr : list Event) : list StreamCommand :=
  base.omap (fun ev => match ev with EvStreamed c => Some c | _ => None end) tr.

(** Client, lease and sequence number of a request. *)
Definition request_key (r : ControlRequest) : string * Z * Z :=
  (client_id (rq_header r), rq_lease_id r, sequence (rq_header r)).

(** The requests that command the robot. *)
Definition command_keys (l : list ControlRequest) : list (string * Z * Z) :=
  base.omap (fun r => if query_only (rq_operation r) then None else Some (request_key r)) l.

(** Those of a streamed command. *)
Definition stream_key (c : StreamCommand) : string * Z * Z :=
  (client_id (sc_identity c), sc_lease_id c, command_sequence c).

Definition channel_key (channel : SequenceChannel) (e : LeaseEvent) : option (string * Z * Z) :=
  match accepted e with
  | Some (c, l, s, ch) => if decide (ch = channel) then Some (c, l, s) else None
  | None => None
  end.

(** What the lease manager accepted on a channel. *)
Definition accepted_on (channel : SequenceChannel) (tr : list Event) : list (string * Z * Z) :=
  base.omap (channel_key channel) (lease_events tr).

(** The commands handed to the runtime, by the channel they came on. *)
Definition handed (channel : SequenceChannel) (tr : list Event) : list (string * Z * Z) :=
  match channel with
  | Control => command_keys (executed tr)
  | Stream => map stream_key (streamed tr)
  end.

(** The command in the mailbox. *)
Definition placed (m : Mailbox) : list StreamCommand :=
  match m with Some c => [c] | None => [] end.

(** The streamed commands that were or can still be handed to the runtime. *)
Definition stream_line {R} (s : Service R) : list StreamCommand :=
  streamed (sv_trace s) ++ placed (sv_mailbox s).

Definition count_events (p : Event -> bool) (tr : list Event) : nat := length (List.filter p tr).

(** A motion is named by its client, as the samples spell it, and its request. *)
Definition motion_key (client : string) (request : Z) : string * Z := (copy_text 65 client, request).

Definition sample_key (m : MotionEvent) : string * Z :=
  (client_id (me_header m), me_request_id m).

Definition taken_by (who : Thread) (x : string * Z) (tr : list Event) : nat :=
  count_events (fun ev => match ev with
    | EvTaken w c r => bool_decide (w = who) && bool_decide (motion_key c r = x)
    | _ => false
    end) tr.

Definition motions_accepted (x : string * Z) (tr : list Event) : nat :=
  count_events (fun ev => match ev with
    | EvMotion _ m => bool_decide (me_kind m = MOTION_ACCEPTED) && bool_decide (sample_key m = x)
    | _ => false
    end) tr.

(** Completed and cancelled: the two ends of an accepted motion. *)
Definition motions_ended_by (who : Thread) (x : string * Z) (tr : list Event) : nat :=
  count_events (fun ev => match ev with
    | EvMotion w m =>
        bool_decide (w = who) &&
        (bool_decide (me_kind m = MOTION_COMPLETED) || bool_decide (me_kind m = MOTION_CANCELLED)) &&
        bool_decide (sample_key m = x)
    | _ => false
    end) tr.

Definition motions_ended (x : string * Z) (tr : list Event) : nat :=
  (motions_ended_by Io x tr + motions_ended_by Worker x tr)%nat.

Definition is_pending (x : string * Z) (m : PendingMotion) : bool :=
  negb (pm_request m =? 0) && bool_decide (motion_key (pm_client m) (pm_request m) = x).

(** The ends that were or can still be reported. *)
Definition used {R} (x : string * Z) (s : Service R) : nat :=
  (taken_by Io x (sv_trace s) + taken_by Worker x (sv_trace s) +
   (if is_pending x (sv_pending s) then 1 else 0))%nat.

Lemma count_events_app p a b : count_events p (a ++ b) = (count_events p a + count_events p b)%nat.
Proof. unfold count_events. by rewrite List.filter_app, length_app. Qed.

Section Proofs.
Context {R : Type} `{!YunyiRuntime R}.
Context (strretcode : Z -> string) (config_ : ServiceConfig) (service_version : string).
Implicit Types s : Service R.

(** ** The invariant *)
Record invariant (s : Service R) : Prop := {
  inv_lease : exists calls,
    lease_run calls (make_LeaseManager kLeasePeriod) = (lease_events (sv_trace s), sv_lease s);
  inv_accepted : command_keys (enqueued (sv_trace s)) `sublist_of` accepted_on Control (sv_trace s);
  inv_queue : popped (sv_trace s) ++ cq_requests (sv_control s) `sublist_of` enqueued (sv_trace s);
  inv_executed : executed (sv_trace s) `sublist_of` popped (sv_trace s);
  inv_stream : map stream_key (stream_line s) `sublist_of` accepted_on Stream (sv_trace s);
  inv_bound : (length (cq_requests (sv_control s)) <= kControlQueueCapacity)%nat;
  inv_motions : forall x, (used x s <= motions_accepted x (sv_trace s))%nat;
  inv_ended : forall who x,
    (motions_ended_by who x (sv_trace s) <= taken_by who x (sv_trace s))%nat
}.

(** What an action of the thread [who] leaves alone. *)
Definition leaves (who : Thread) (s s' : Service R) : Prop :=
  match who with
  | Io =>
      popped (sv_trace s') = popped (sv_trace s) /\
      executed (sv_trace s') = executed (sv_trace s) /\
      (forall x, taken_by Worker x (sv_trace s') = taken_by Worker x (sv_trace s)) /\
      (forall x, motions_ended_by Worker x (sv_trace s') = motions_ended_by Worker x (sv_trace s)) /\
      (forall x, motions_accepted x (sv_trace s') = motions_accepted x (sv_trace s)) /\
      (forall x, used x s' = used x s)
  | Worker =>
      enqueued (sv_trace s') = enqueued (sv_trace s) /\
      (forall ch, accepted_on ch (sv_trace s') = accepted_on ch (sv_trace s)) /\
      streamed (sv_trace s') = streamed (sv_trace s) /\
      sv_mailbox s' = sv_mailbox s /\
      (forall x, taken_by Io x (sv_trace s') = taken_by Io x (sv_trace s)) /\
      (forall x, motions_ended_by Io x (sv_trace s') = motions_ended_by Io x (sv_trace s))
  end.

Definition guarantee (who : Thread) (s s' : Service R) : Prop :=
  invariant s -> invariant s' /\ leaves who s s'.

Definition other (who : Thread) : Thread := match who with Io => Worker | Worker => Io end.

Definition rely (who : Thread) : Service R -> Service R -> Prop := guarantee (other who).

#[export] Instance leaves_preorder who : PreOrder (leaves who).
Proof.
  split.
  - intros s. destruct who; split_and!; done.
  - intros s1 s2 s3. destruct who; simpl; intros H1 H2.
    + destruct H1 as (? & ? & A1 & B1 & C1 & D1), H2 as (? & ? & A2 & B2 & C2 & D2).
      split_and!; try congruence; intros x; by rewrite ?A2, ?B2, ?C2, ?D2.
    + destruct H1 as (? & K1 & ? & ? & A1 & B1), H2 as (? & K2 & ? & ? & A2 & B2).
      split_and!; try congruence; intros x; by rewrite ?K2, ?A2, ?B2.
Qed.

#[export] Instance guarantee_preorder who : PreOrder (guarantee who).
Proof.
  split; [intros s H; split; [done|reflexivity]|].
  intros s1 s2 s3 H12 H23 H1. destruct (H12 H1) as [H2 L12], (H23 H2) as [H3 L23].
  split; [done|]. by etrans.
Qed.

#[export] Instance rely_preorder who : PreOrder (rely who).
Proof. apply _. Qed.

(** ** Actions that touch none of it *)

Definition is_core (ev : Event) : bool :=
  match ev with
  | EvLease _ | EvEnqueued _ | EvPopped _ | EvExecuted _ | EvStreamed _ | EvTaken _ _ _
  | EvMotion _ _ => true
  | _ => false
  end.

(** The part of the state the invariant looks at. *)
Definition core (s : Service R) :=
  (List.filter is_core (sv_trace s), sv_lease s, cq_requests (sv_control s), sv_pending s,
   sv_mailbox s).

Definition frame (s s' : Service R) : Prop := core s' = core s.

#[export] Instance frame_preorder : PreOrder frame.
Proof. split; [by intros s|]. unfold frame. intros s1 s2 s3 H1 H2. congruence. Qed.

Lemma omap_core {A} (f : Event -> option A) tr :
  (forall ev, is_core ev = false -> f ev = None) -> base.omap f tr = base.omap f (List.filter is_core tr).
Proof.
  intros Hf. induction tr as [|ev tr IH]; csimpl; [done|].
  destruct (is_core ev) eqn:E; csimpl; [by rewrite IH|]. by rewrite (Hf ev E).
Qed.

Lemma count_core p tr :
  (forall ev, is_core ev = false -> p ev = false) ->
  count_events p tr = count_events p (List.filter is_core tr).
Proof.
  intros Hf. unfold count_events. induction tr as [|ev tr IH]; simpl; [done|].
  destruct (is_core ev) eqn:E; simpl; [destruct (p ev); simpl; by rewrite IH|]. by rewrite (Hf ev E).
Qed.

(** The logs of two states with the same core are the same. *)
Lemma frame_logs s s' :
  frame s s' ->
  lease_events (sv_trace s') = lease_events (sv_trace s) /\
  enqueued (sv_trace s') = enqueued (sv_trace s) /\ popped (sv_trace s') = popped (sv_trace s) /\
  executed (sv_trace s') = executed (sv_trace s) /\
  (forall who x, taken_by who x (sv_trace s') = taken_by who x (sv_trace s)) /\
  (forall who x, motions_ended_by who x (sv_trace s') = motions_ended_by who x (sv_trace s)) /\
  (forall x, motions_accepted x (sv_trace s') = motions_accepted x (sv_trace s)) /\
  sv_lease s' = sv_lease s /\ cq_requests (sv_control s') = cq_requests (sv_control s) /\
  sv_pending s' = sv_pending s /\
  streamed (sv_trace s') = streamed (sv_trace s) /\ sv_mailbox s' = sv_mailbox s.
Proof.
  intros H. unfold frame, core in H. injection H as Htr Hl Hq Hp Hm.
  unfold lease_events, enqueued, popped, executed, streamed, taken_by, motions_ended_by, motions_accepted.
  split_and!; try done; intros;
    first [rewrite (omap_core _ (sv_trace s')), (omap_core _ (sv_trace s)) by (by intros [])
          |rewrite (count_core _ (sv_trace s')), (count_core _ (sv_trace s)) by (by intros [])];
    by rewrite Htr.
Qed.

Lemma frame_guarantee who s s' : frame s s' -> guarantee who s s'.
Proof.
  intros H [L A Q E C B M T].
  apply frame_logs in H as (H1 & H2 & H3 & H4 & H5 & H6 & H7 & H8 & H9 & H10 & H11 & H12).
  assert (Hacc : forall ch, accepted_on ch (sv_trace s') = accepted_on ch (sv_trace s))
    by (intros ch; unfold accepted_on; by rewrite H1).
  assert (Hline : stream_line s' = stream_line s) by (unfold stream_line; by rewrite H11, H12).
  assert (Hused : forall x, used x s' = used x s) by (intros x; unfold used; by rewrite !H5, H10).
  split.
  - split; rewrite ?H1, ?H2, ?H3, ?H4, ?H8, ?H9, ?Hacc, ?Hline; try done;
      intros; rewrite ?Hused, ?H5, ?H6, ?H7; auto.
  - destruct who; split_and!; auto.
Qed.

Lemma env_frame s s' : service_env s s' -> frame s s'.
Proof. by intros (out & create & objects & _ & _ & ->). Qed.

(** ** Actions that move the logs *)

Lemma omap_snoc {A} (f : Event -> option A) tr ev :
  base.omap f (tr ++ [ev]) = base.omap f tr ++ match f ev with Some a => [a] | None => [] end.
Proof. rewrite omap_app. csimpl. by destruct (f ev). Qed.

Lemma count_snoc p tr ev :
  count_events p (tr ++ [ev]) = (count_events p tr + (if p ev then 1 else 0))%nat.
Proof. rewrite count_events_app. unfold count_events. simpl. by destruct (p ev). Qed.

Ltac logs_snoc :=
  unfold lease_events, enqueued, popped, executed, streamed, taken_by, motions_ended_by,
    motions_accepted in *;
  simpl; rewrite ?omap_snoc, ?count_snoc, ?app_nil_r, ?Nat.add_0_r; simpl.

Lemma accepted_on_snoc ch tr ev :
  accepted_on ch (tr ++ [ev]) = accepted_on ch tr ++
    match ev with
    | EvLease e => match channel_key ch e with Some k => [k] | None => [] end
    | _ => []
    end.
Proof.
  unfold accepted_on. unfold lease_events at 1. rewrite omap_snoc.
  destruct ev; rewrite ?app_nil_r; try done. rewrite omap_app. csimpl.
  by destruct (channel_key ch e).
Qed.

Definition is_streamed (ev : Event) : bool := match ev with EvStreamed _ => true | _ => false end.

(** Anything else that is recorded leaves the streamed commands in order. *)
Lemma stream_log ev s :
  is_streamed ev = false ->
  map stream_key (stream_line s) `sublist_of` accepted_on Stream (sv_trace s) ->
  map stream_key (stream_line (log ev s)) `sublist_of` accepted_on Stream (sv_trace s ++ [ev]).
Proof.
  intros He H. assert (stream_line (log ev s) = stream_line s) as ->.
  { unfold stream_line, streamed. simpl. rewrite omap_snoc. destruct ev; by rewrite ?app_nil_r. }
  rewrite accepted_on_snoc. by apply sublist_inserts_r.
Qed.

Lemma command_keys_snoc l r :
  command_keys (l ++ [r]) = command_keys l ++
    (if query_only (rq_operation r) then [] else [request_key r]).
Proof. unfold command_keys. rewrite omap_app. csimpl. by destruct (query_only _). Qed.

(** A call of the lease manager. *)
Lemma lease_guarantee who s t op e m :
  lease_call t op (sv_lease s) = (e, m) -> (who = Worker -> accepted e = None) ->
  guarantee who s (log (EvLease e) (set_lease m s)).
Proof.
  intros Hc Hw [[calls L] A Q E C B M T].
  assert (Hacc : accepted_on Control (sv_trace s ++ [EvLease e]) = accepted_on Control (sv_trace s) ++
    match channel_key Control e with Some k => [k] | None => [] end) by apply accepted_on_snoc.
  split.
  - split; simpl; try (by logs_snoc); try (by refine (stream_log _ s _ C)).
    + exists (calls ++ [(t, op)]). unfold lease_events. rewrite omap_snoc.
      by apply (lease_run_snoc _ _ _ _ _ _ _ _ L Hc).
    + unfold enqueued. rewrite omap_snoc, app_nil_r, Hacc. by apply sublist_inserts_r.
    + intros x. specialize (M x). unfold used in *. by logs_snoc.
    + intros w x. specialize (T w x). by logs_snoc.
  - destruct who; simpl; unfold used; split_and!; intros; try (by logs_snoc).
    rewrite accepted_on_snoc. unfold channel_key. rewrite Hw by done. apply app_nil_r.
Qed.

(** A request enters the queue: its key follows the keys queued before it in
    the order of acceptance. *)
Lemma enqueue_guarantee s r :
  command_keys (enqueued (sv_trace s)) ++ (if query_only (rq_operation r) then [] else [request_key r])
    `sublist_of` accepted_on Control (sv_trace s) ->
  guarantee Io s (snd (enqueue r s)).
Proof.
  intros Hk. unfold enqueue. destruct (cq_stop _ || _) eqn:Ec; [reflexivity|].
  apply orb_false_iff in Ec as [_ Hlen]. apply Nat.leb_gt in Hlen.
  intros [L A Q E C B M T]. split.
  - split; simpl; try (by logs_snoc); try (by refine (stream_log _ s _ C)).
    + rewrite accepted_on_snoc, app_nil_r. unfold enqueued. rewrite omap_snoc.
      by rewrite command_keys_snoc.
    + unfold popped, enqueued. rewrite !omap_snoc, app_nil_r, app_assoc. by apply sublist_app.
    + rewrite length_app. simpl. lia.
    + intros x. specialize (M x). unfold used in *. by logs_snoc.
    + intros w x. specialize (T w x). by logs_snoc.
  - simpl. unfold used. split_and!; intros; by logs_snoc.
Qed.

(** The worker takes the oldest request. *)
Lemma pop_guarantee s : guarantee Worker s (snd (pop s)).
Proof.
  unfold pop. destruct (cq_stop _); [reflexivity|].
  destruct (cq_requests (sv_control s)) as [|r rest] eqn:Er; [reflexivity|].
  intros [L A Q E C B M T]. rewrite Er in Q, B. simpl in B. split.
  - split; simpl; try (by logs_snoc); try (by refine (stream_log _ s _ C)).
    + rewrite accepted_on_snoc, app_nil_r. unfold enqueued. by rewrite omap_snoc, app_nil_r.
    + unfold popped, enqueued. rewrite !omap_snoc, app_nil_r, <- app_assoc. exact Q.
    + unfold executed, popped. rewrite !omap_snoc, app_nil_r. by apply sublist_inserts_r.
    + lia.
    + intros x. specialize (M x). unfold used in *. by logs_snoc.
    + intros w x. specialize (T w x). by logs_snoc.
  - simpl. split_and!; intros; rewrite ?accepted_on_snoc; by logs_snoc.
Qed.

(** The worker hands a popped request to the runtime. *)
Lemma execute_guarantee s r :
  executed (sv_trace s) ++ [r] `sublist_of` popped (sv_trace s) ->
  guarantee Worker s (log (EvExecuted r) s).
Proof.
  intros Hk [L A Q E C B M T]. split.
  - split; simpl; try (by logs_snoc); try (by refine (stream_log _ s _ C)).
    + rewrite accepted_on_snoc, app_nil_r. unfold enqueued. by rewrite omap_snoc, app_nil_r.
    + intros x. specialize (M x). unfold used in *. by logs_snoc.
    + intros w x. specialize (T w x). by logs_snoc.
  - simpl. split_and!; intros; rewrite ?accepted_on_snoc; by logs_snoc.
Qed.

(** The queue is emptied. *)
Lemma clear_guarantee s f :
  (forall c, cq_requests (f c) = []) -> guarantee Io s (set_control f s).
Proof.
  intros Hf [L A Q E C B M T]. split.
  - split; simpl; rewrite ?Hf, ?app_nil_r; try done; [|simpl; unfold kControlQueueCapacity; lia].
    etrans; [|exact Q]. by apply sublist_inserts_r.
  - simpl. by split_and!.
Qed.

(** The pending motion is taken by the one thread that will report its end. *)
Lemma take_guarantee who s : guarantee who s (snd (take_pending who s)).
Proof.
  unfold take_pending. destruct (pm_request (sv_pending s) =? 0) eqn:Ez; [reflexivity|].
  intros [L A Q E C B M T].
  assert (Hused : forall x, used x (log (EvTaken who (pm_client (sv_pending s)) (pm_request (sv_pending s)))
    (set_pending {| pm_request := 0; pm_client := "" |} s)) = used x s).
  { intros x. unfold used, is_pending. logs_snoc. rewrite Ez. simpl.
    destruct who; rewrite ?bool_decide_true by done; rewrite ?(bool_decide_false (_ = _ :> Thread)) by done;
      simpl; destruct (bool_decide _); lia. }
  split.
  - split; simpl; try (by logs_snoc); try (by refine (stream_log _ s _ C)).
    + rewrite accepted_on_snoc, app_nil_r. unfold enqueued. by rewrite omap_snoc, app_nil_r.
    + intros x. rewrite Hused. specialize (M x). by logs_snoc.
    + intros w x. specialize (T w x). logs_snoc. lia.
  - destruct who; simpl; split_and!; intros; rewrite ?accepted_on_snoc; try apply Hused; by logs_snoc.
Qed.

(** A motion event: the end of a motion needs a token its thread has taken. *)
Lemma motion_guarantee who s m :
  (me_kind m = MOTION_ACCEPTED -> who = Worker) ->
  (me_kind m = MOTION_COMPLETED \/ me_kind m = MOTION_CANCELLED ->
     (motions_ended_by who (sample_key m) (sv_trace s) < taken_by who (sample_key m) (sv_trace s))%nat) ->
  guarantee who s (log (EvMotion who m) s).
Proof.
  intros Hw Hk [L A Q E C B M T]. split.
  - split; simpl; try (by logs_snoc); try (by refine (stream_log _ s _ C)).
    + rewrite accepted_on_snoc, app_nil_r. unfold enqueued. by rewrite omap_snoc, app_nil_r.
    + intros x. specialize (M x). unfold used in *. logs_snoc. lia.
    + intros w x. specialize (T w x). logs_snoc.
      destruct (decide (w = who)) as [->|Hne];
        [rewrite bool_decide_true by done|rewrite bool_decide_false by done; simpl; lia].
      destruct (bool_decide (sample_key m = x)) eqn:Ex; [|rewrite andb_false_r; lia].
      apply bool_decide_eq_true in Ex as <-.
      destruct (me_kind m) eqn:Em; simpl; try lia; specialize (Hk ltac:(by eauto)); lia.
  - destruct who; simpl; split_and!; intros; rewrite ?accepted_on_snoc; try (by logs_snoc).
    + logs_snoc. rewrite bool_decide_false; [simpl; lia|]. intros Ha. by specialize (Hw Ha).
    + unfold used. by logs_snoc.
Qed.

(** The motion that was just accepted becomes the pending one. *)
Lemma pending_guarantee s request client :
  (used (motion_key client request) s < motions_accepted (motion_key client request) (sv_trace s))%nat ->
  guarantee Worker s (set_pending {| pm_request := request; pm_client := client |} s).
Proof.
  intros Hu [L A Q E C B M T]. split; [|simpl; by split_and!].
  split; simpl; try done. intros x. specialize (M x). unfold used, is_pending in *. simpl in *.
  destruct (decide (motion_key client request = x)) as [<-|Hne].
  - rewrite (bool_decide_true (_ = _ :> string * Z)) by done.
    destruct (negb (request =? 0)); simpl; destruct (negb _ && _) in Hu; lia.
  - rewrite (bool_decide_false (motion_key client request = x)) by done.
    rewrite andb_false_r. lia.
Qed.

Lemma mailbox_guarantee s m :
  map stream_key (streamed (sv_trace s) ++ placed m) `sublist_of` accepted_on Stream (sv_trace s) ->
  guarantee Io s (set_mailbox m s).
Proof. intros Hk [L A Q E C B M T]. split; [by split|simpl; by split_and!]. Qed.

(** Emptying the mailbox loses a command and repeats none. *)
Lemma mailbox_clear_guarantee s : guarantee Io s (set_mailbox (mailbox_clear (sv_mailbox s)) s).
Proof.
  intros HI. apply mailbox_guarantee; [|done]. etrans; [|apply (inv_stream _ HI)].
  unfold stream_line, mailbox_clear, placed. simpl. rewrite app_nil_r, map_app.
  by apply sublist_inserts_r.
Qed.

(** The thread of [run] hands a command it has taken out to the runtime. *)
Lemma stream_guarantee s c :
  map stream_key (streamed (sv_trace s) ++ [c]) `sublist_of` accepted_on Stream (sv_trace s) ->
  sv_mailbox s = None ->
  guarantee Io s (log (EvStreamed c) s).
Proof.
  intros Hk Hm [L A Q E C B M T]. split.
  - split; simpl; try (by logs_snoc).
    + rewrite accepted_on_snoc, app_nil_r. unfold enqueued. by rewrite omap_snoc, app_nil_r.
    + rewrite accepted_on_snoc, app_nil_r. unfold stream_line, streamed. simpl.
      by rewrite omap_snoc, Hm, app_nil_r.
    + intros x. specialize (M x). unfold used in *. by logs_snoc.
    + intros w x. specialize (T w x). by logs_snoc.
  - simpl. unfold used. split_and!; intros; by logs_snoc.
Qed.

(** ** Contracts of programs *)

(** From a state with [A], the program keeps to its thread's guarantee and,
    however it ends, leaves [B]. *)
Definition triple {T} (who : Thread) (A : Service R -> Prop) (p : prog (Service R) T)
    (B : Service R -> Prop) : Prop :=
  forall s, A s -> wp (rely who) (guarantee who) p (fun _ => B) s.

(** What the other thread leaves alone. *)
Definition stable (who : Thread) (A : Service R -> Prop) : Prop :=
  forall s s', rely who s s' -> A s -> A s'.

Definition sound {T} (who : Thread) (p : prog (Service R) T) : Prop :=
  triple who invariant p invariant.

Lemma invariant_stable who : stable who invariant.
Proof. intros s s' H Hs. by apply H. Qed.

Lemma triple_done {T} who (A B : Service R -> Prop) (o : outcome T) :
  stable who A -> (forall s, A s -> B s) -> triple who A (Done o) B.
Proof. intros HA HB s Hs s1 H. apply HB. by eapply HA. Qed.

Lemma triple_bind {T U} who (A B C : Service R -> Prop) (p : prog (Service R) T) (k : T -> prog (Service R) U) :
  triple who A p B -> (forall x, triple who B (k x) C) -> (forall s, B s -> C s) ->
  triple who A (pbind p k) C.
Proof.
  intros Hp Hk HBC s Hs. apply wp_bind; [apply _|]. eapply wp_mono; [|by apply Hp].
  intros [x|e| |] s' HB; simpl; auto. by apply Hk.
Qed.

Lemma triple_weaken {T} who (A A' B B' : Service R -> Prop) (p : prog (Service R) T) :
  (forall s, A' s -> A s) -> (forall s, B s -> B' s) -> triple who A p B -> triple who A' p B'.
Proof. intros HA HB Hp s Hs. eapply wp_mono; [|by apply Hp, HA]. intros o s'. apply HB. Qed.

(** Actions that leave the logs alone keep what is known of the logs. *)
Definition of_core (A : Service R -> Prop) : Prop := forall s s', frame s s' -> A s -> A s'.

Lemma triple_frame {T} who A (p : prog (Service R) T) :
  acts frame p -> stable who A -> of_core A -> triple who A p A.
Proof.
  intros Hp HA HF s Hs. eapply (wp_acts _ _ frame); [apply Hp| |exact HA|exact Hs].
  intros s1 s2 H1 H. split; [by apply frame_guarantee|by eapply HF].
Qed.

Lemma invariant_of_core : of_core invariant.
Proof. intros s s' H Hs. by apply (frame_guarantee Io _ _ H). Qed.

Lemma sound_frame {T} who (p : prog (Service R) T) : acts frame p -> sound who p.
Proof. intros. apply triple_frame; auto using invariant_stable, invariant_of_core. Qed.

Lemma sound_act {T} who (f : Service R -> T * Service R) :
  (forall s, guarantee who s (snd (f s))) -> sound who (act f).
Proof.
  intros Hf s Hs s1 Hs1. split; [apply Hf|]. intros s2 Hs2. apply (Hs2 : guarantee _ _ _).
  apply Hf. by apply Hs1.
Qed.

Lemma sound_done {T} who (o : outcome T) : sound who (Done o).
Proof. apply triple_done; [apply invariant_stable|done]. Qed.

Lemma sound_bind {T U} who (p : prog (Service R) T) (k : T -> prog (Service R) U) :
  sound who p -> (forall x, sound who (k x)) -> sound who (pbind p k).
Proof. intros. eapply triple_bind; eauto. Qed.

Lemma sound_catch {T} who (p : prog (Service R) T) h :
  sound who p -> (forall e, sound who (h e)) -> sound who (pcatch p h).
Proof.
  intros Hp Hh s Hs. apply wp_catch; [apply _|]. eapply wp_mono; [|by apply Hp].
  intros [x|e| |] s' HI; auto. by apply Hh.
Qed.

Lemma sound_pwhen who b (p : prog (Service R) unit) : sound who p -> sound who (pwhen b p).
Proof. destruct b; [done|]. intros _. apply sound_done. Qed.

Lemma sound_pfor who n (p : prog (Service R) bool) : sound who p -> sound who (pfor n p).
Proof.
  intros Hp. induction n as [|n IH]; simpl; [apply sound_done|].
  apply sound_bind; [done|]. intros []; [done|apply sound_done].
Qed.

(** ** Programs that leave the logs alone *)

Lemma publish_frame text ev : is_core ev = false -> acts frame (publish (R := R) strretcode text ev).
Proof.
  intros He. unfold publish. apply acts_bind.
  - apply acts_act. intros s. simpl. destruct (0 <=? _); [|done].
    unfold frame, core. simpl. rewrite List.filter_app. simpl. by rewrite He, app_nil_r.
  - intros r. unfold check. acts_tac.
Qed.

Lemma invoke_frame {T} p (c : Call T) : acts frame (invoke (R := R) p c).
Proof.
  unfold invoke. apply acts_bind; [|intros; apply acts_done]. apply acts_act.
  intros s. destruct (sv_objects s !! p); [|done]. by destruct (rt_call T c r).
Qed.

Lemma write_frame f : (forall s, frame s (f s)) -> acts frame (write (S := Service R) f).
Proof. apply acts_write. Qed.

Lemma next_sequence_frame which : acts frame (next_sequence (R := R) which).
Proof. by apply acts_act. Qed.

Lemma set_slot_frame f : acts frame (write (S := Service R) (set_slot f)).
Proof. by apply write_frame. Qed.

Lemma set_busy_frame b : acts frame (write (S := Service R) (set_control (set_busy b))).
Proof. by apply write_frame. Qed.

Lemma now_frame : acts frame (now (R := R)).
Proof. apply acts_read; apply _. Qed.

Lemma set_counters_frame f : acts frame (write (S := Service R) (set_counters f)).
Proof. by apply write_frame. Qed.

End Proofs.

#[export] Hint Resolve invoke_frame next_sequence_frame set_slot_frame set_busy_frame
  now_frame set_counters_frame : acts.
#[export] Hint Extern 1 (acts frame (publish _ _ _)) => (apply publish_frame; reflexivity) : acts.
#[export] Hint Extern 1 (acts frame (runtime_snapshot)) => (apply acts_read; apply _) : acts.
#[export] Hint Extern 1 (acts frame (runtime_error_snapshot)) => (apply acts_read; apply _) : acts.
#[export] Hint Extern 1 (acts frame (lease_snapshot)) => (apply acts_read; apply _) : acts.
