(* ===== verification/ServiceSound.v ===== *)
(** * The DDS service: its programs keep their contracts

    Every operation of [Service] keeps the invariant and the guarantee of its
    thread ([sound]), whatever the other thread and the environment do between
    its actions; with the rule of [Threads] the theorems about the reachable
    states of the running service follow. *)

From Stdlib Require Import String.
From S2P Require Import Prelude Float32 RuntimeTypes DdsProtocol Lease Config Threads ServiceState.
From S2P Require Import Service ServiceProofs.
#[local] Open Scope thread_scope.

Section Sound.
Context {R : Type} `{!YunyiRuntime R}.
Context (strretcode : Z -> string) (config_ : ServiceConfig) (service_version : string).
Implicit Types s : Service R.

(** ** Operations that only read, call and reply *)

Lemma create_runtime_frame : acts frame (create_runtime (R := R)).
Proof. apply acts_act. intros s. simpl. by destruct (sv_create s). Qed.

Lemma ensure_runtime_frame t : acts frame (ensure_runtime (R := R) config_ t).
Proof. unfold ensure_runtime. pose proof create_runtime_frame. acts_tac. Qed.

Lemma initialize_reply_frame request : acts frame (initialize_reply (R := R) config_ request).
Proof. unfold initialize_reply. acts_tac. Qed.

Lemma finish_reply_frame reply e text : acts frame (finish_reply (R := R) strretcode reply e text).
Proof. unfold finish_reply. acts_tac. Qed.

Lemma reply_with_frame request e text :
  acts frame (reply_with (R := R) strretcode config_ request e text).
Proof.
  unfold reply_with. apply acts_bind; [apply initialize_reply_frame|].
  intros. apply finish_reply_frame.
Qed.

Lemma execute_frame request p values : acts frame (execute (R := R) request p values).
Proof. unfold execute, plain, query. destruct (rq_operation request); acts_tac. Qed.

Lemma obtain_runtime_frame request : acts frame (obtain_runtime (R := R) config_ request).
Proof.
  unfold obtain_runtime. apply acts_bind; [auto with acts|]. intros [p|]; [apply acts_pret|].
  destruct (rq_operation request); try apply acts_pret.
  apply acts_bind; [auto with acts|]. intros t. apply acts_bind; [auto with acts|]. intros _.
  apply acts_bind; [apply ensure_runtime_frame|]. auto with acts.
Qed.

Lemma reply_text_frame request p status : acts frame (reply_text (R := R) request p status).
Proof. unfold reply_text. acts_tac. Qed.

Lemma publish_discovery_frame :
  acts frame (publish_discovery (R := R) strretcode config_ service_version).
Proof. unfold publish_discovery. acts_tac. Qed.

Lemma publish_health_frame : acts frame (publish_health (R := R) strretcode config_).
Proof. unfold publish_health. acts_tac. Qed.

Lemma publish_health_on_change_frame :
  acts frame (publish_health_on_change (R := R) strretcode config_).
Proof. unfold publish_health_on_change. pose proof publish_health_frame. acts_tac. Qed.

(** ** Motion events *)

Lemma stable_conj who (A B : Service R -> Prop) :
  stable who A -> stable who B -> stable who (fun s => A s /\ B s).
Proof. intros HA HB s s' Hs [H1 H2]. split; [by eapply HA|by eapply HB]. Qed.

(** A thread's token: an end it has taken and not reported yet. *)
Definition holds_token (who : Thread) (x : string * Z) (s : Service R) : Prop :=
  invariant s /\
  (motions_ended_by who x (sv_trace s) < taken_by who x (sv_trace s))%nat.

Lemma holds_token_stable who x : stable who (holds_token who x).
Proof.
  intros s s' Hs [Hi Ht]. destruct (Hs Hi) as [Hi' L]. split; [done|].
  destruct who; simpl in L;
    [destruct L as (_ & _ & _ & _ & L1 & L2)|destruct L as (_ & _ & L1 & L2 & _)]; by rewrite L1, L2.
Qed.

Lemma holds_token_core who x : of_core (holds_token who x).
Proof.
  intros s s' Hf [Hi Ht]. split; [by eapply invariant_of_core|].
  apply frame_logs in Hf as (_ & _ & _ & _ & H1 & H2 & _). by rewrite H1, H2.
Qed.

(** Publishing with what the thread knows. *)
Lemma publish_motion_triple who text m (A : Service R -> Prop) :
  stable who A -> (forall s, A s -> invariant s) ->
  (forall s, A s -> guarantee who s (log (EvMotion who m) s)) ->
  triple who A (publish strretcode text (EvMotion who m)) invariant.
Proof.
  intros HA HI HG s Hs. unfold publish. apply wp_act. intros s1 Hs1.
  assert (H1 : A s1) by by eapply HA. simpl.
  assert (Hg : guarantee who s1 (if 0 <=? out_write (sv_out s1) then log (EvMotion who m) s1 else s1))
    by (destruct (0 <=? _); [by apply HG|reflexivity]).
  split; [exact Hg|]. apply (sound_frame (R := R)); [unfold check; acts_tac|]. by apply Hg, HI.
Qed.

(** Reporting the end of a motion uses the token up. *)
Lemma publish_end_triple who client id kind e text :
  kind = MOTION_COMPLETED \/ kind = MOTION_CANCELLED ->
  triple (R := R) who (holds_token who (motion_key client id))
    (publish_motion_event strretcode config_ who client id kind e text) invariant.
Proof.
  intros Hkind. unfold publish_motion_event.
  apply (triple_bind _ _ (holds_token who (motion_key client id))); [|intros n|by intros ? [? _]].
  - apply triple_frame; auto using holds_token_stable, holds_token_core with acts.
  - apply publish_motion_triple; [apply holds_token_stable|by intros ? [? _]|].
    intros s [_ Ht]. apply motion_guarantee; simpl; [by destruct Hkind as [-> | ->]|].
    intros _. exact Ht.
Qed.

Lemma finish_pending_motion_sound who kind e text :
  kind = MOTION_COMPLETED \/ kind = MOTION_CANCELLED ->
  sound (R := R) who (finish_pending_motion strretcode config_ who kind e text).
Proof.
  intros Hkind s Hs. unfold finish_pending_motion. apply wp_act. intros s1 Hs1.
  pose proof (take_guarantee who s1) as HG. split; [exact HG|].
  assert (Hi1 : invariant s1) by by apply Hs1.
  destruct (HG Hi1) as [Hi2 _]. unfold take_pending in *.
  destruct (pm_request (sv_pending s1) =? 0); simpl in *;
    [intros s2 Hs2; by apply Hs2|].
  set (client := pm_client (sv_pending s1)) in *. set (id := pm_request (sv_pending s1)) in *.
  assert (Htok : holds_token who (motion_key client id)
    (log (EvTaken who client id) (set_pending {| pm_request := 0; pm_client := "" |} s1))).
  { split; [done|]. pose proof (inv_ended _ Hi1 who (motion_key client id)).
    unfold motions_ended_by, taken_by in *. simpl. rewrite !count_snoc.
    rewrite !bool_decide_true by done. simpl. lia. }
  by apply publish_end_triple.
Qed.

Lemma cancel_pending_motion_sound who e text :
  sound (R := R) who (cancel_pending_motion strretcode config_ who e text).
Proof. apply finish_pending_motion_sound. by right. Qed.

(** Reporting a motion that was refused. *)
Lemma publish_failed_sound client id e text :
  sound (R := R) Worker (publish_motion_event strretcode config_ Worker client id MOTION_FAILED e text).
Proof.
  unfold publish_motion_event. apply sound_bind; [apply sound_frame; auto with acts|]. intros n.
  apply publish_motion_triple; [apply invariant_stable|done|].
  intros s _. apply motion_guarantee; simpl; [done|]. by intros [].
Qed.

(** ** The lease *)

Lemma lease_call_op t op m : le_op (fst (lease_call t op m)) = op.
Proof.
  destruct op; simpl; try by repeat case_match.
Qed.

Lemma lease_do_wp who t op (Q : outcome LeaseEvent -> Service R -> Prop) s :
  (forall s1 e m, rely who s s1 -> lease_call t op (sv_lease s1) = (e, m) -> le_op e = op ->
     let s2 := log (EvLease e) (set_lease m s1) in
     guarantee who s1 s2 /\ forall s3, rely who s2 s3 -> Q (Returned e) s3) ->
  wp (rely who) (guarantee who) (lease_do t op) Q s.
Proof.
  intros H s1 Hs1 _. pose proof (lease_call_op t op (sv_lease s1)) as Hop.
  remember (lease_call t op) as call. destruct (call (sv_lease s1)) as [e m] eqn:E.
  cbn [fst snd]. subst call. by apply (H s1 e m).
Qed.

Lemma lease_do_io_sound t op : sound (R := R) Io (lease_do t op).
Proof.
  apply sound_act. intros s. destruct (lease_call t op (sv_lease s)) as [e m] eqn:E. simpl.
  by eapply lease_guarantee.
Qed.

Lemma refresh_sound t client lease : sound (R := R) Worker (lease_do t (OpRefresh client lease)).
Proof.
  apply sound_act. intros s. pose proof (lease_call_op t (OpRefresh client lease) (sv_lease s)) as Hop.
  set (op := OpRefresh client lease) in *. destruct (lease_call t op (sv_lease s)) as [e m] eqn:E.
  cbn [snd fst] in *. eapply lease_guarantee; [exact E|]. intros _. unfold accepted. rewrite Hop.
  by case_decide.
Qed.

Lemma on_lost_sound reason : sound (R := R) Io (on_lost strretcode config_ reason).
Proof.
  unfold on_lost. apply sound_bind; [apply sound_act; intros s; apply mailbox_clear_guarantee|].
  intros _.
  apply sound_bind; [apply sound_frame; auto with acts|]. intros runtime.
  apply sound_bind; [apply sound_frame; acts_tac|]. intros _.
  apply cancel_pending_motion_sound.
Qed.

Lemma lease_call_and_notify_sound t op :
  sound (R := R) Io (lease_call_and_notify strretcode config_ t op).
Proof.
  unfold lease_call_and_notify. apply sound_bind; [apply lease_do_io_sound|]. intros e.
  apply sound_bind; [|intros _; apply sound_done].
  destruct (le_lost e); [apply on_lost_sound|apply sound_done].
Qed.

(** ** The input side *)

(** The lease manager accepted the request, and nothing was queued since. *)
Definition may_enqueue (request : ControlRequest) (s : Service R) : Prop :=
  invariant s /\
  command_keys (enqueued (sv_trace s)) ++
    (if query_only (rq_operation request) then [] else [request_key request])
  `sublist_of` accepted_on Control (sv_trace s).

Lemma may_enqueue_stable request : stable Io (may_enqueue request).
Proof.
  intros s s' Hs [Hi Hk]. destruct (Hs Hi) as [Hi' (L1 & L2 & _)]. split; [done|].
  by rewrite L1, L2.
Qed.

Lemma enqueue_or_refuse_sound request :
  triple Io (may_enqueue request)
    (do queued <- enqueue_control_request request;
     if queued : bool then pret tt
     else reply_with strretcode config_ request PeBusy "control request queue is full") invariant.
Proof.
  intros s Hs. apply wp_act. intros s1 Hs1.
  assert (H1 : may_enqueue request s1) by by eapply may_enqueue_stable.
  destruct H1 as [Hi1 Hk]. pose proof (enqueue_guarantee s1 request Hk) as HG.
  split; [exact HG|]. destruct (HG Hi1) as [Hi2 _].
  destruct (fst (enqueue request s1)); [by apply sound_done|].
  by apply sound_frame; [apply reply_with_frame|].
Qed.

Definition authorization (request : ControlRequest) : P (R := R) ProtocolError :=
  if query_only (rq_operation request) then pret PeOk
  else do t <- now;
       do e <- lease_do t (OpAuthorize (client_id (rq_header request)) (rq_lease_id request)
                 (sequence (rq_header request)) Control false);
       pret (le_error e).

Lemma authorization_wp request s :
  invariant s ->
  wp (rely Io) (guarantee Io) (authorization request)
    (fun o s' => invariant s' /\ (o = Returned PeOk -> may_enqueue request s')) s.
Proof.
  intros Hs. unfold authorization, may_enqueue. destruct (query_only (rq_operation request)) eqn:Eq.
  { intros s1 Hs1. assert (Hi : invariant s1) by by apply Hs1.
    split; [done|]. intros _. split; [done|]. rewrite app_nil_r. apply Hi. }
  apply wp_bind; [apply _|]. eapply wp_mono; [|by apply sound_frame; [apply now_frame|]].
  intros [t|e| |] s1 Hi1; cbn [after]; try (by split). clear s Hs.
  apply wp_bind; [apply _|]. apply lease_do_wp. intros s2 e m Hs2 Ec Hop s3.
  assert (Hi2 : invariant s2) by by apply Hs2.
  pose proof (lease_guarantee Io s2 t _ e m Ec ltac:(done)) as HG. split; [exact HG|].
  destruct (HG Hi2) as [Hi3 _]. intros s4 Hs4 s5 Hs5.
  destruct (Hs5 (proj1 (Hs4 Hi3))) as [Hi5 (L1 & L2 & _)].
  destruct (Hs4 Hi3) as [_ (L3 & L4 & _)].
  split; [done|]. subst s3. intros [= He]. split; [done|]. rewrite L1, L2, L3, L4. simpl.
  rewrite accepted_on_snoc. unfold enqueued. rewrite omap_snoc, app_nil_r.
  unfold channel_key, accepted. rewrite He, Hop. simpl.
  apply sublist_app; [apply Hi2|done].
Qed.

Lemma handle_request_sound request :
  sound (R := R) Io (handle_request strretcode config_ request).
Proof.
  assert (Hreply : forall e text, sound (R := R) Io (reply_with strretcode config_ request e text))
    by (intros; apply sound_frame, reply_with_frame).
  assert (Hcommand : sound (R := R) Io (do error <- authorization request;
    if negb (bool_decide (error = PeOk)) then reply_with strretcode config_ request error ""
    else do queued <- enqueue_control_request request;
         if queued : bool then pret tt
         else reply_with strretcode config_ request PeBusy "control request queue is full")).
  { intros s Hs. apply wp_bind; [apply _|]. eapply wp_mono; [|by apply authorization_wp].
    intros [error|e| |] s1 [Hi1 Hk]; simpl; try done.
    case_bool_decide as He; simpl; [|by apply Hreply].
    apply enqueue_or_refuse_sound. apply Hk. by rewrite He. }
  assert (Hnow : sound (R := R) Io now) by (apply sound_frame, now_frame).
  unfold handle_request. destruct (negb _); [apply Hreply|].
  destruct (rq_operation request) eqn:Eo; try (by (unfold authorization in Hcommand;
    rewrite Eo in Hcommand; exact Hcommand)).
  - apply sound_bind; [exact Hnow|]. intros t. apply sound_bind; [apply lease_do_io_sound|]. intros e.
    destruct (le_lease e); [|apply Hreply].
    apply sound_bind; [apply sound_frame, initialize_reply_frame|].
    intros. apply sound_frame, finish_reply_frame.
  - apply sound_bind; [exact Hnow|]. intros t. apply sound_bind; [apply lease_do_io_sound|]. intros e.
    apply Hreply.
  - apply sound_bind; [exact Hnow|]. intros t.
    apply sound_bind; [apply lease_call_and_notify_sound|]. intros e. apply Hreply.
Qed.

(** ** Streamed commands

    The thread of [run] has had the command authorised, or has taken it out of
    the mailbox, and nothing was streamed since. *)
Definition may_stream (command : StreamCommand) (s : Service R) : Prop :=
  invariant s /\
  map stream_key (streamed (sv_trace s) ++ [command]) `sublist_of` accepted_on Stream (sv_trace s).

Lemma may_stream_stable command : stable Io (may_stream command).
Proof.
  intros s s' Hs [Hi Hk]. destruct (Hs Hi) as [Hi' (_ & L2 & L3 & _)]. split; [done|].
  by rewrite L2, L3.
Qed.

Lemma streamed_accepted s :
  invariant s -> map stream_key (streamed (sv_trace s)) `sublist_of` accepted_on Stream (sv_trace s).
Proof.
  intros Hi. etrans; [|apply (inv_stream _ Hi)]. unfold stream_line. rewrite map_app.
  by apply sublist_inserts_r.
Qed.

Lemma authorize_stream_wp t command s :
  invariant s ->
  wp (rely Io) (guarantee Io)
    (do e <- lease_do t (OpAuthorize (client_id (sc_identity command)) (sc_lease_id command)
       (command_sequence command) Stream true); pret (le_error e))
    (fun o s' => invariant s' /\ (o = Returned PeOk -> may_stream command s')) s.
Proof.
  intros Hs. apply wp_bind; [apply _|]. apply lease_do_wp. intros s1 e m Hs1 Ec Hop s2.
  assert (Hi1 : invariant s1) by by apply Hs1.
  pose proof (lease_guarantee Io s1 t _ e m Ec ltac:(done)) as HG. split; [exact HG|].
  destruct (HG Hi1) as [Hi2 _]. intros s3 Hs3 s4 Hs4.
  assert (H4 : rely Io s2 s4) by by etrans. split; [by apply H4|]. intros [= He].
  apply (may_stream_stable _ _ _ H4). split; [done|]. subst s2. simpl.
  rewrite accepted_on_snoc, map_app. unfold streamed. rewrite omap_snoc, app_nil_r.
  unfold channel_key, accepted. rewrite He, Hop. simpl.
  apply sublist_app; [by apply streamed_accepted|done].
Qed.

Lemma mailbox_store_guarantee command s :
  may_stream command s ->
  guarantee Io s (set_mailbox (mailbox_store command (sv_mailbox s)) s).
Proof.
  intros [Hi Hk]. apply mailbox_guarantee. unfold mailbox_store.
  destruct (sv_mailbox s) as [held|] eqn:Em; [destruct (_ <? _)|]; try exact Hk.
  rewrite <- Em. apply Hi.
Qed.

Lemma accept_stream_sound command : sound (R := R) Io (accept_stream config_ command).
Proof.
  intros s Hs. unfold accept_stream. apply wp_bind; [apply _|].
  apply (wp_mono _ _ _ (fun o s' => invariant s' /\ (o = Returned PeOk -> may_stream command s'))).
  - intros [error|e| |] s1 [Hi1 Hk]; simpl; try done.
    case_bool_decide as He; simpl; [|intros s2 Hs2; by apply Hs2].
    intros s2 Hs2 _. assert (H2 : may_stream command s2)
      by (eapply may_stream_stable; [exact Hs2|]; apply Hk; by rewrite He).
    pose proof (mailbox_store_guarantee _ _ H2) as HG. split; [exact HG|].
    intros s3 Hs3. apply (Hs3 : guarantee _ _ _). by apply HG, H2.
  - case_bool_decide as Ev; [by apply authorize_stream_wp|].
    intros s1 Hs1. split; [by apply Hs1|]. by intros [= ?].
Qed.

(** The command was taken out, and the mailbox is empty. *)
Definition taken_out (command : StreamCommand) (s : Service R) : Prop :=
  may_stream command s /\ sv_mailbox s = None.

Lemma taken_out_stable command : stable Io (taken_out command).
Proof.
  intros s s' Hs [Hk Hm]. split; [by eapply may_stream_stable|]. destruct Hk as [Hi _].
  by destruct (Hs Hi) as [_ (_ & _ & _ & -> & _)].
Qed.

Lemma take_latest_taken t s command :
  invariant s -> fst (take_latest t s) = Some command -> taken_out command (snd (take_latest t s)).
Proof.
  intros Hi. unfold take_latest, mailbox_take. destruct (sv_mailbox s) as [held|] eqn:Em; [|done].
  destruct (_ <? _); [done|]. intros [= ->]. split; [|done]. split.
  - by apply mailbox_clear_guarantee.
  - pose proof (inv_stream _ Hi) as Hk. unfold stream_line in Hk. by rewrite Em in Hk.
Qed.

Lemma take_latest_guarantee t s : guarantee Io s (snd (take_latest t s)).
Proof.
  unfold take_latest, mailbox_take.
  destruct (sv_mailbox s) as [held|] eqn:Em; [destruct (_ <? _)|];
    exact (mailbox_clear_guarantee s).
Qed.

Lemma pump_latest_sound t : sound (R := R) Io (pump_latest t).
Proof.
  unfold pump_latest. apply sound_bind; [apply sound_frame, acts_read; apply _|].
  intros [|]; [apply sound_done|]. intros s Hs. apply wp_act. intros s1 Hs1.
  assert (Hi1 : invariant s1) by by apply Hs1.
  pose proof (take_latest_guarantee t s1) as HG. split; [exact HG|]. destruct (HG Hi1) as [Hi2 _].
  pose proof (take_latest_taken t s1) as Hc. revert Hi2 Hc.
  generalize (snd (take_latest t s1)) as s2. intros s2 Hi2 Hc.
  destruct (fst (take_latest t s1)) as [c|]; [|eapply sound_bind; [| |exact Hi2];
    [apply sound_frame; auto with acts|intros; apply sound_done]].
  specialize (Hc c Hi1 eq_refl). clear - Hc.
  apply wp_act. intros s3 Hs3. split; [reflexivity|]. apply (taken_out_stable _ _ _ Hs3) in Hc. simpl.
  destruct (sl_runtime (sv_slot s3)) as [p|]; [|intros s4 Hs4; by apply Hs4, Hc].
  apply wp_act. intros s4 Hs4. apply (taken_out_stable _ _ _ Hs4) in Hc as [[Hi4 Hk] Hm].
  pose proof (stream_guarantee _ _ Hk Hm) as HG. split; [exact HG|]. destruct (HG Hi4) as [Hi5 _].
  assert (Hrest : sound (R := R) Io (do status <- invoke p (stream_call c);
    if status_ok status then pret tt else store_error (status_message status))).
  { apply sound_frame. unfold store_error. acts_tac. }
  exact (Hrest _ Hi5).
Qed.

Lemma take_control_requests_sound :
  sound (R := R) Io (take_control_requests strretcode config_).
Proof.
  apply sound_pfor, sound_bind.
  - apply sound_frame, acts_act. intros s. unfold take_request. by destruct (out_requests (sv_out s)).
  - intros [[valid request]|]; [|apply sound_done].
    apply sound_bind; [apply sound_pwhen, handle_request_sound|intros; apply sound_done].
Qed.

Lemma take_stream_commands_sound : sound (R := R) Io (take_stream_commands config_).
Proof.
  apply sound_pfor, sound_bind.
  - apply sound_frame, acts_act. intros s. unfold take_stream. by destruct (out_streams (sv_out s)).
  - intros [[valid wire]|]; [|apply sound_done].
    apply sound_bind; [|intros; apply sound_done]. apply sound_pwhen, sound_bind;
      [apply sound_frame, now_frame|intros t; apply accept_stream_sound].
Qed.

(** ** The thread of [run] *)

Lemma publish_state_sound : sound (R := R) Io (publish_state strretcode config_).
Proof.
  unfold publish_state. apply sound_bind; [apply sound_frame; auto with acts|].
  intros [p|]; [|apply sound_done].
  apply sound_bind; [apply sound_frame; auto with acts|]. intros [v|status]; [|apply sound_done].
  apply sound_bind; [apply sound_frame; auto with acts|]. intros n.
  apply sound_bind; [apply sound_frame; auto with acts|]. intros _.
  apply sound_pwhen, finish_pending_motion_sound. by left.
Qed.

Lemma shutdown_runtime_sound : sound (R := R) Io (shutdown_runtime strretcode config_).
Proof.
  unfold shutdown_runtime. apply sound_bind; [apply sound_frame, now_frame|]. intros t.
  apply sound_bind; [apply lease_call_and_notify_sound|]. intros _.
  apply sound_bind; [apply sound_act; intros s; apply mailbox_clear_guarantee|]. intros _.
  apply sound_bind; [apply sound_frame; auto with acts|].
  intros [p|]; [|apply sound_done]. apply sound_frame. acts_tac.
Qed.

Lemma serve_round_sound next_state next_health next_discovery :
  sound (R := R) Io
    (serve_round strretcode config_ service_version next_state next_health next_discovery).
Proof.
  assert (Hnow : sound (R := R) Io now) by apply sound_frame, now_frame.
  unfold serve_round. apply sound_bind; [exact Hnow|]. intros t.
  apply sound_bind; [apply lease_call_and_notify_sound|]. intros _.
  apply sound_bind; [apply sound_frame, acts_read; apply _|]. intros count.
  destruct (count <? 0); [apply sound_done|].
  apply sound_bind.
  { apply sound_pwhen, sound_bind; [apply take_control_requests_sound|].
    intros _. apply take_stream_commands_sound. }
  intros _. apply sound_bind; [exact Hnow|]. intros t1.
  apply sound_bind; [apply pump_latest_sound|]. intros _.
  apply sound_bind; [exact Hnow|]. intros after_io.
  apply sound_bind.
  { destruct (next_state <=? after_io); [|apply sound_done].
    apply sound_bind; [apply publish_state_sound|]. intros. apply sound_done. }
  intros n1. apply sound_bind; [apply sound_frame, publish_health_on_change_frame|]. intros _.
  apply sound_bind.
  { destruct (next_health <=? after_io); [|apply sound_done].
    apply sound_bind; [apply sound_frame, publish_health_frame|]. intros. apply sound_done. }
  intros n2. apply sound_bind.
  { destruct (next_discovery <=? after_io); [|apply sound_done].
    apply sound_bind; [apply sound_frame, publish_discovery_frame|]. intros. apply sound_done. }
  intros n3. apply sound_done.
Qed.

Lemma run_round_sound phase :
  sound (R := R) Io (run_round strretcode config_ service_version phase).
Proof.
  destruct phase as [|n1 n2 n3|]; cbn [run_round].
  - apply sound_bind; [apply sound_frame, now_frame|]. intros. apply sound_done.
  - apply sound_bind; [apply sound_frame, acts_read; apply _|].
    intros [|]; [|apply serve_round_sound].
    apply sound_bind; [|intros; apply sound_done].
    apply sound_act. intros s. by apply clear_guarantee.
  - apply sound_bind; [apply sound_frame, acts_read; apply _|].
    intros [|]; [|apply sound_done].
    apply sound_bind; [apply shutdown_runtime_sound|]. intros. apply sound_done.
Qed.

(** ** The control worker *)

(** The worker has popped the request and not yet executed it. *)
Definition may_execute (request : ControlRequest) (s : Service R) : Prop :=
  invariant s /\ executed (sv_trace s) ++ [request] `sublist_of` popped (sv_trace s).

Lemma may_execute_stable request : stable Worker (may_execute request).
Proof.
  intros s s' Hs [Hi Hk]. destruct (Hs Hi) as [Hi' (L1 & L2 & _)]. split; [done|].
  by rewrite L1, L2.
Qed.

Lemma may_execute_core request : of_core (may_execute request).
Proof.
  intros s s' Hf [Hi Hk]. split; [by eapply invariant_of_core|].
  apply frame_logs in Hf as (_ & _ & L1 & L2 & _). by rewrite L1, L2.
Qed.

(** The motion was reported as accepted; its end is still to come. *)
Definition may_pend (x : string * Z) (s : Service R) : Prop :=
  invariant s /\ (used x s < motions_accepted x (sv_trace s))%nat.

Lemma may_pend_stable x : stable Worker (may_pend x).
Proof.
  intros s s' Hs [Hi Hk]. destruct (Hs Hi) as [Hi' (_ & _ & _ & _ & L1 & L2)]. split; [done|].
  by rewrite L1, L2.
Qed.

Lemma publish_accepted_wp client id e text s :
  invariant s ->
  wp (rely Worker) (guarantee Worker)
    (publish_motion_event strretcode config_ Worker client id MOTION_ACCEPTED e text)
    (fun o s' => invariant s' /\ (o = Returned tt -> may_pend (motion_key client id) s')) s.
Proof.
  intros Hs. unfold publish_motion_event. apply wp_bind; [apply _|].
  eapply wp_mono; [|by apply sound_frame; [apply next_sequence_frame|]].
  intros [n|e'| |] s1 Hi1; cbn [after]; try (by split). clear s Hs.
  unfold publish. set (m := {| me_header := _ |}). apply wp_act. intros s2 Hs2. cbn [fst snd].
  assert (Hi2 : invariant s2) by by apply Hs2. unfold check.
  destruct (Z.leb_spec 0 (out_write (sv_out s2))) as [Hw|Hw].
  - assert (HG : guarantee Worker s2 (log (EvMotion Worker m) s2))
      by (apply motion_guarantee; simpl; [done|by intros []]).
    split; [exact HG|]. destruct (HG Hi2) as [Hi3 _].
    apply (wp_done _ _ (Returned tt)). intros s4 Hs4. split; [by apply Hs4|]. intros _.
    eapply may_pend_stable; [exact Hs4|]. split; [done|].
    pose proof (inv_motions _ Hi2 (motion_key client id)) as Hle.
    unfold used, motions_accepted, taken_by in *. simpl. rewrite !count_snoc.
    change (sample_key m) with (motion_key client id). rewrite !bool_decide_true by done.
    simpl. lia.
  - split; [reflexivity|]. apply wp_done. intros s4 Hs4. split; [by apply Hs4|done].
Qed.

Lemma report_motion_sound request status lease_error :
  sound (R := R) Worker (report_motion strretcode config_ request status lease_error).
Proof.
  intros s Hs. unfold report_motion. cbv zeta. destruct (_ && _); [|by apply publish_failed_sound].
  apply wp_bind; [apply _|]. eapply wp_mono; [|by apply publish_accepted_wp].
  intros [[]|e| |] s1 [Hi1 Hp]; cbn [after]; try done.
  apply wp_act. intros s2 Hs2. cbn [fst snd].
  destruct (may_pend_stable _ _ _ Hs2 (Hp eq_refl)) as [Hi2 Hu].
  pose proof (pending_guarantee _ _ _ Hu) as HG. split; [exact HG|].
  destruct (HG Hi2) as [Hi3 _]. revert Hi3.
  generalize (set_pending {| pm_request := rq_request_id request;
    pm_client := client_id (rq_header request) |} s2).
  change (sound (R := R) Worker (do lease <- lease_snapshot; do t <- now;
    if lease_valid request t lease then pret tt
    else cancel_pending_motion strretcode config_ Worker PeNoLease
           "control lease expired after motion accepted")).
  apply sound_bind; [apply sound_frame; auto with acts|]. intros lease.
  apply sound_bind; [apply sound_frame, now_frame|]. intros t.
  destruct (lease_valid _ _ _); [apply sound_done|apply cancel_pending_motion_sound].
Qed.

Lemma run_operation_triple request reply p :
  triple Worker (may_execute request) (run_operation strretcode config_ request reply p) invariant.
Proof.
  unfold run_operation. cbv zeta. intros s Hs. apply wp_act. intros s1 Hs1. cbn [fst snd].
  destruct (may_execute_stable _ _ _ Hs1 Hs) as [Hi1 Hk].
  pose proof (execute_guarantee _ _ Hk) as HG. split; [exact HG|].
  destruct (HG Hi1) as [Hi2 _]. revert Hi2. generalize (log (EvExecuted request) s1). clear.
  match goal with |- forall s, invariant s -> wp _ _ ?p _ s =>
    change (sound (R := R) Worker p) end.
  apply sound_bind; [apply sound_frame, execute_frame|]. intros [status values].
  apply sound_bind.
  { destruct (query_only _); [apply sound_done|].
    apply sound_bind; [apply sound_frame, now_frame|]. intros t.
    apply sound_bind; [apply refresh_sound|]. intros. apply sound_done. }
  intros lease_error. apply sound_bind.
  { destruct (finite_motion _); [apply report_motion_sound|].
    destruct (_ && _); [apply cancel_pending_motion_sound|apply sound_done]. }
  intros _. apply sound_bind; [apply sound_frame, reply_text_frame|]. intros text.
  apply sound_bind; [apply sound_frame, finish_reply_frame|]. intros _.
  apply sound_frame. destruct (_ && _); [auto with acts|apply acts_pret].
Qed.

Lemma execute_queued_request_triple request :
  triple Worker (may_execute request) (execute_queued_request strretcode config_ request) invariant.
Proof.
  pose proof (may_execute_stable request) as HS. pose proof (may_execute_core request) as HC.
  assert (HI : forall s, may_execute request s -> invariant s) by by intros s [? _].
  assert (Hend : forall T (p : prog (Service R) T), acts frame p ->
    triple Worker (may_execute request) p invariant).
  { intros T p Hp. eapply triple_weaken; [|exact HI|apply triple_frame; eauto]. done. }
  unfold execute_queued_request. cbv zeta.
  apply (triple_bind _ _ (may_execute request));
    [apply triple_frame; [apply initialize_reply_frame|done|done]| |exact HI].
  intros reply. apply (triple_bind _ _ (may_execute request)); [|intros valid|exact HI].
  { apply triple_frame; [acts_tac|done|done]. }
  destruct (negb valid); [apply Hend, finish_reply_frame|].
  destruct (_ && _); [apply Hend, finish_reply_frame|].
  apply (triple_bind _ _ (may_execute request)); [|intros runtime|exact HI].
  { apply triple_frame; [apply obtain_runtime_frame|done|done]. }
  destruct runtime as [p|]; [apply run_operation_triple|].
  apply Hend. apply acts_bind; [auto with acts|]. intros. apply finish_reply_frame.
Qed.

Lemma control_worker_round_sound :
  sound (R := R) Worker (control_worker_round strretcode config_).
Proof.
  intros s Hs. unfold control_worker_round. apply wp_act. intros s1 Hs1.
  pose proof (pop_guarantee s1) as HG. split; [exact HG|].
  assert (Hi1 : invariant s1) by by apply Hs1. destruct (HG Hi1) as [Hi2 _].
  unfold pop in *. destruct (cq_stop (sv_control s1)).
  { cbn [fst snd]. apply sound_frame; [|done].
    apply acts_bind; [by apply write_frame|intros; apply acts_pret]. }
  destruct (cq_requests (sv_control s1)) as [|request rest] eqn:Er; cbn [fst snd] in *.
  { apply sound_frame; [|done]. apply acts_bind; [apply now_frame|]. intros t.
    apply acts_bind; [apply ensure_runtime_frame|]. intros. apply acts_pret. }
  assert (Hx : may_execute request (log (EvPopped request) (set_control (set_requests rest) s1))).
  { split; [done|]. simpl. unfold executed, popped. rewrite !omap_snoc, app_nil_r. simpl.
    apply sublist_app; [apply Hi1|done]. }
  revert Hx. generalize (log (EvPopped request) (set_control (set_requests rest) s1)). clear.
  match goal with |- forall s, may_execute _ s -> wp _ _ ?p _ s =>
    change (triple Worker (may_execute request) p invariant) end.
  apply (triple_bind _ _ (may_execute request)); [| |by intros ? [? _]].
  { apply triple_frame; [auto with acts|apply may_execute_stable|apply may_execute_core]. }
  intros _. apply (triple_bind _ _ invariant); [| |done].
  - intros s Hs. apply wp_catch; [apply _|]. eapply wp_mono; [|by apply execute_queued_request_triple].
    intros [[]|e| |] s' HI; try done. apply sound_frame; [|done]. unfold store_error. auto with acts.
  - intros _. apply sound_bind; [apply sound_frame; auto with acts|]. intros. apply sound_done.
Qed.

(** ** The running service *)

Definition thread_rely (i : nat) : Service R -> Service R -> Prop :=
  match i with 0%nat => rely Io | 1%nat => rely Worker | _ => fun _ _ => True end.

Definition thread_guarantee (i : nat) : Service R -> Service R -> Prop :=
  match i with 0%nat => guarantee Io | 1%nat => guarantee Worker | _ => eq end.

Definition thread_pre (i : nat) (phase : Phase) (s : Service R) : Prop :=
  match i with 0%nat | 1%nat => invariant s | _ => True end.

Lemma service_thread_ok i phase s :
  thread_pre i phase s ->
  thread_ok thread_rely thread_guarantee thread_pre i
    (service_body strretcode config_ service_version i phase) s.
Proof.
  unfold thread_ok. destruct i as [|[|i]]; intros Hs.
  - eapply wp_mono; [|by apply run_round_sound]. intros [[l|]|e| |] s'; simpl; done.
  - cbn [service_body]. apply wp_bind; [apply _|].
    eapply wp_mono; [|by apply control_worker_round_sound].
    intros [[|]|e| |] s' HI; simpl; try done. intros s1 Hs1. by apply Hs1.
  - simpl. done.
Qed.

Lemma service_rely_guarantee :
  rely_guarantee (service_body strretcode config_ service_version) service_env
    thread_rely thread_guarantee thread_pre.
Proof.
  split.
  - intros [|[|i]]; apply _ || by split.
  - intros [|[|i]] [|[|j]] s s' Hij; simpl; try done; by intros ->.
  - intros [|[|j]] s s' He; simpl; [| |done]; by apply frame_guarantee, env_frame.
  - apply service_thread_ok.
Qed.

Lemma make_Service_invariant out (create : Result R) : invariant (make_Service out create).
Proof.
  split; simpl; try done; [by exists []|unfold kControlQueueCapacity; lia].
Qed.

Lemma service_invariant out create c :
  rtc (service_step strretcode config_ service_version)
    (service_start strretcode config_ service_version out create) c ->
  invariant (fst c).
Proof.
  intros H.
  eapply (reachable_threads_ok _ _ _ _ _ invariant _ _ service_rely_guarantee); [| | | |exact H].
  - intros [|[|i]] s s'; simpl; [by intros HG HI; apply HG..|by intros ->].
  - intros s s' He. by apply invariant_of_core, env_frame.
  - intros i p Hp. assert (p = service_body strretcode config_ service_version i Starting) as ->.
    { destruct i as [|[|i]]; [by injection Hp as <-..|done]. }
    apply service_thread_ok. pose proof (make_Service_invariant out create). by destruct i as [|[|i]].
  - apply make_Service_invariant.
Qed.

End Sound.
