(* ===== verification/ServiceTheorems.v ===== *)
(** * The DDS service: what holds of every run

    The theorems about the reachable states of the two threads, the behaviour
    of single operations, and a concrete run of the service. *)

From Stdlib Require Import String.
From S2P Require Import Prelude Float32 RuntimeTypes DdsProtocol Lease Config Threads ServiceState.
From S2P Require Import Service ServiceProofs ServiceSound.
#[local] Open Scope thread_scope.

(** ** Order through subsequences *)

Lemma sublist_omap {A B} (f : A -> option B) (l k : list A) :
  l `sublist_of` k -> base.omap f l `sublist_of` base.omap f k.
Proof.
  induction 1 as [|x l k H IH|x l k H IH]; csimpl; [done| |].
  - destruct (f x); [by apply sublist_skip|done].
  - destruct (f x); [by apply sublist_cons|done].
Qed.

(** Two elements of a subsequence stand in the same order in the sequence. *)
Lemma sublist_lookup_pair {A} (l k : list A) i j x y :
  l `sublist_of` k -> (i < j)%nat -> l !! i = Some x -> l !! j = Some y ->
  exists i' j', (i' < j')%nat /\ k !! i' = Some x /\ k !! j' = Some y.
Proof.
  intros H. revert i j. induction H as [|z l k H IH|z l k H IH]; intros i j Hij Hi Hj; [done| |].
  - destruct j as [|j]; [lia|]. simpl in Hj. destruct i as [|i].
    + injection Hi as ->. assert (Hin : y ∈ k).
      { eapply sublist_subseteq; [exact H|]. by eapply list_elem_of_lookup_2. }
      apply list_elem_of_lookup_1 in Hin as [j' Hj']. exists 0%nat, (S j').
      split_and!; [lia|done|done].
    + destruct (IH i j) as (i' & j' & ? & ? & ?); [lia|done..|].
      exists (S i'), (S j'). split_and!; [lia|done|done].
  - destruct (IH i j Hij Hi Hj) as (i' & j' & ? & ? & ?). exists (S i'), (S j').
    split_and!; [lia|done|done].
Qed.

Lemma omap_lookup_pair {A B} (f : A -> option B) (l : list A) i j x y :
  (i < j)%nat -> base.omap f l !! i = Some x -> base.omap f l !! j = Some y ->
  exists i' j' a b, (i' < j')%nat /\ l !! i' = Some a /\ l !! j' = Some b /\
    f a = Some x /\ f b = Some y.
Proof.
  revert i j. induction l as [|a l IH]; intros i j Hij Hi Hj; csimpl in *; [done|].
  destruct (f a) as [x'|] eqn:Ea.
  - destruct j as [|j]; [lia|]. simpl in Hj. destruct i as [|i].
    + injection Hi as ->. assert (Hin : y ∈ base.omap f l) by by eapply list_elem_of_lookup_2.
      apply list_elem_of_omap in Hin as (b & Hb & Eb). apply list_elem_of_lookup_1 in Hb as [j' Hj'].
      exists 0%nat, (S j'), a, b. split_and!; [lia|done..].
    + destruct (IH i j) as (i' & j' & a' & b' & ? & ? & ? & ? & ?); [lia|done..|].
      exists (S i'), (S j'), a', b'. split_and!; [lia|done..].
  - destruct (IH i j Hij Hi Hj) as (i' & j' & a' & b' & ? & ? & ? & ? & ?).
    exists (S i'), (S j'), a', b'. split_and!; [lia|done..].
Qed.

Section Theorems.
Context {R : Type} `{!YunyiRuntime R}.
Context (strretcode : Z -> string) (config_ : ServiceConfig) (service_version : string)
        (out : Outside) (create : Result R).

Definition running (c : system (S := Service R) (L := Phase)) : Prop :=
  rtc (service_step strretcode config_ service_version)
    (service_start strretcode config_ service_version out create) c.

Lemma handed_accepted ch s :
  invariant (R := R) s -> handed ch (sv_trace s) `sublist_of` accepted_on ch (sv_trace s).
Proof.
  intros HI. destruct ch; simpl; [|by apply streamed_accepted]. destruct HI as [_ A Q E _ _ _ _].
  etrans; [|exact A]. apply sublist_omap. etrans; [exact E|]. etrans; [|exact Q].
  by apply sublist_inserts_r.
Qed.

End Theorems.

(** C21. Only authorised commands move the robot.  In every reachable state of the
    service, whatever the interleaving of its two threads and whatever the
    environment does, the lease manager has gone through a history of its own
    calls; the queued commands handed to the runtime are, in order, a
    subsequence of those the lease manager accepted on the control channel in
    that history, and the streamed commands handed to the runtime a
    subsequence of those it accepted on the stream channel. *)
Theorem service_commands_authorized {R} `{!YunyiRuntime R} strretcode config version out
    (create : Result R) s threads :
  rtc (service_step strretcode config version) (service_start strretcode config version out create)
    (s, threads) ->
  (exists calls, lease_run calls (make_LeaseManager kLeasePeriod) =
     (lease_events (sv_trace s), sv_lease s)) /\
  forall channel, handed channel (sv_trace s) `sublist_of` accepted_on channel (sv_trace s).
Proof.
  intros H%service_invariant. split; [apply H|]. intros channel. by apply handed_accepted.
Qed.

(** C22. No command is executed twice: of any two queued commands handed to the
    runtime, and of any two streamed commands, the later one carries a later
    lease, or the same lease of the same client and a higher sequence number
    of that channel. *)
Theorem service_commands_once {R} `{!YunyiRuntime R} strretcode config version out
    (create : Result R) s threads channel i j c1 l1 q1 c2 l2 q2 :
  rtc (service_step strretcode config version) (service_start strretcode config version out create)
    (s, threads) ->
  Z.of_nat (length (lease_events (sv_trace s))) < 2 ^ 64 - 1 -> (i < j)%nat ->
  handed channel (sv_trace s) !! i = Some (c1, l1, q1) ->
  handed channel (sv_trace s) !! j = Some (c2, l2, q2) ->
  l1 < l2 \/ (l1 = l2 /\ c1 = c2 /\ q1 < q2).
Proof.
  intros H%service_invariant Hn Hij Hi Hj. pose proof (handed_accepted channel _ H) as Hsub.
  destruct (sublist_lookup_pair _ _ _ _ _ _ Hsub Hij Hi Hj) as (i1 & j1 & Hij1 & Hi1 & Hj1).
  destruct (omap_lookup_pair _ _ _ _ _ _ Hij1 Hi1 Hj1) as (i2 & j2 & e1 & e2 & Hij2 & Hi2 & Hj2 & K1 & K2).
  destruct (inv_lease _ H) as [calls Hc].
  assert (Hlen : length calls = length (lease_events (sv_trace s)))
    by (by rewrite <- (lease_run_length calls (make_LeaseManager kLeasePeriod)), Hc).
  pose proof (lease_run_ordered _ _ _ _ _ _ _ _ Hc ltac:(lia) Hij2 Hi2 Hj2) as Ho.
  unfold ordered, channel_key in *.
  destruct (accepted e1) as [[[[c l] q] ch]|]; [|done].
  destruct (accepted e2) as [[[[c' l'] q'] ch']|]; [|done].
  repeat case_decide; simplify_eq.
  destruct Ho as [?|(? & ? & Hq)]; [by left|right]. auto.
Qed.

(** C26. The queue is fair and bounded: what was executed, then what is waiting, is
    a subsequence of what was queued, in the order it was queued, and never
    more than 32 requests wait. *)
Theorem service_queue_fifo {R} `{!YunyiRuntime R} strretcode config version out
    (create : Result R) s threads :
  rtc (service_step strretcode config version) (service_start strretcode config version out create)
    (s, threads) ->
  executed (sv_trace s) ++ cq_requests (sv_control s) `sublist_of` enqueued (sv_trace s) /\
  (length (cq_requests (sv_control s)) <= 32)%nat.
Proof.
  intros [_ _ Q E _ B _ _]%service_invariant. split; [|exact B].
  etrans; [|exact Q]. by apply sublist_app.
Qed.

(** C25. A motion ends at most as often as it was accepted: for every client and
    request the COMPLETED and CANCELLED events ever published, by either
    thread, are never more than the ACCEPTED events. *)
Theorem service_motion_events {R} `{!YunyiRuntime R} strretcode config version out
    (create : Result R) s threads x :
  rtc (service_step strretcode config version) (service_start strretcode config version out create)
    (s, threads) ->
  (motions_ended x (sv_trace s) <= motions_accepted x (sv_trace s))%nat.
Proof.
  intros [_ _ _ _ _ _ M T]%service_invariant. specialize (M x).
  pose proof (T Io x). pose proof (T Worker x). unfold motions_ended, used in *. simpl in *.
  destruct (is_pending x (sv_pending s)); lia.
Qed.

(** ** Single operations *)

(** [advance] moves a periodic deadline by whole periods to the first point of
    its grid after [now]; its loop ends. *)
Theorem advance_next deadline period now :
  0 < period -> deadline <= now ->
  let d := advance deadline period now in
  now < d <= now + period /\ exists k, 1 <= k /\ d = deadline + k * period.
Proof.
  intros Hp Hd d.
  assert (Hrounds : forall n deadline, deadline <= now -> (now - deadline) / period < Z.of_nat n ->
    let d := advance_rounds n deadline period now in
    now < d <= now + period /\ exists k, 1 <= k /\ d = deadline + k * period).
  { induction n as [|n IH]; intros dl Hdl Hn; [pose proof (Z.div_pos (now - dl) period ltac:(lia) Hp); lia|].
    cbn [advance_rounds]. destruct (Z.leb_spec (dl + period) now) as [Hle|Hgt].
    - destruct (IH (dl + period) Hle) as (H1 & k & Hk & H2).
      + replace (now - dl) with (now - (dl + period) + 1 * period) in Hn by lia.
        rewrite Z.div_add in Hn by lia. lia.
      + split; [exact H1|]. exists (k + 1). split; [lia|]. simpl in H2. rewrite H2. lia.
    - split; [lia|]. exists 1. lia. }
  apply Hrounds; [done|]. pose proof (Z.div_pos (now - deadline) period ltac:(lia) Hp). lia.
Qed.

(** ** A run of the service

    A runtime that takes every command and knows nothing of itself; the
    middleware accepts every sample. *)
Definition no_value {T} : outcome (Result T) := Returned (Error (failure CodeWrongState "no value")).

Definition sample_call (T : Type) (c : Call T) : outcome T :=
  match c in Call T return outcome T with
  | Rt_speed_percent | Rt_max_speed | Rt_max_acceleration => no_value
  | Rt_hardware_topology => no_value
  | Rt_solve_ik _ _ => no_value
  | Rt_pose _ | Rt_tcp_offset _ => no_value
  | Rt_control_mode => no_value
  | Rt_has_grippers => no_value
  | Rt_joint_limits => no_value
  | Rt_gravity_compensation_status => no_value
  | Rt_bimanual_follow_status => no_value
  | Rt_state => no_value
  | Rt_health => no_value
  | Rt_connect | Rt_disconnect | Rt_configure_mode _ | Rt_enable | Rt_disable | Rt_set_zero
  | Rt_clear_faults | Rt_estop | Rt_recover | Rt_on_control_lost _ | Rt_set_joint_pv _ _
  | Rt_set_joint_mit _ | Rt_set_joint_mit_fast _ _ | Rt_set_speed_percent _ | Rt_set_max_speed _
  | Rt_set_max_acceleration _ | Rt_move_pose _ _ | Rt_move_linear _ _ | Rt_move_circular _ _ _ _
  | Rt_stop_motion | Rt_set_grippers _ _ _ _ | Rt_set_tcp_offset _ _ | Rt_reset_tcp_offset _
  | Rt_start_gravity_compensation _ | Rt_stop_gravity_compensation | Rt_start_bimanual_follow _
  | Rt_stop_bimanual_follow => Returned success
  end.

#[local] Instance sample_runtime : YunyiRuntime unit :=
  {| rt_call := fun T c r => (sample_call T c, r) |}.

Definition sample_request (sequence id lease : Z) (operation : ControlOperation) (x : f32)
    : ControlRequest := {|
  rq_header := sample_identity "arm-ui" sequence; rq_request_id := id; rq_lease_id := lease;
  rq_operation := operation; rq_side := 0; rq_mode := 1; rq_scalar := [x]; rq_positions := [];
  rq_pose_a := []; rq_pose_b := []; rq_pose_c := [] |}.

Definition streaming_out (requests : list ControlRequest) (streams : list (bool * WireStream))
    : Outside := {|
  out_clock := 0; out_stop := false; out_requests := map (pair true) requests;
  out_streams := streams; out_wait := 1; out_write := 0 |}.

Definition sample_out (requests : list ControlRequest) : Outside := streaming_out requests [].

Definition error_code (z : Z) : string := to_string z.

Definition sample_start (requests : list ControlRequest) : system :=
  service_start error_code default_ServiceConfig "1.0.7" (sample_out requests) (Value tt).

(** The worker brings the runtime up, the caller of [run] takes the samples,
    the worker executes. *)
Definition sample_schedule : list nat := replicate 16 1%nat ++ replicate 60 0%nat ++ replicate 60 1%nat.

Definition sample_run (requests : list ControlRequest) : system :=
  run_schedule (service_body error_code default_ServiceConfig "1.0.7") sample_schedule
    (sample_start requests).

Lemma schedule_running out schedule :
  let start := service_start error_code default_ServiceConfig "1.0.7" out (Value tt) in
  let run := run_schedule (service_body error_code default_ServiceConfig "1.0.7") schedule start in
  rtc (service_step error_code default_ServiceConfig "1.0.7") start (fst run, snd run).
Proof.
  intros start run. unfold service_step, run.
  generalize (run_schedule_reachable (service_body error_code default_ServiceConfig "1.0.7")
    service_env schedule start).
  destruct (run_schedule _ _ _) as [s threads]. exact (fun H => H).
Qed.

Lemma sample_running requests :
  rtc (service_step error_code default_ServiceConfig "1.0.7") (sample_start requests)
    (fst (sample_run requests), snd (sample_run requests)).
Proof. exact (schedule_running (sample_out requests) sample_schedule). Qed.

Definition sample_requests : list ControlRequest := [
  sample_request 1 11 0 ACQUIRE_LEASE f32_zero; sample_request 2 12 1 ENABLE f32_zero;
  sample_request 2 13 1 DISABLE f32_zero; sample_request 5 14 1 MOVE_POSE f32_zero].

Definition sample_state : Service unit := fst (sample_run sample_requests).

(** The repeated sequence number is refused, the other commands are executed. *)
Example sample_executed : map rq_operation (executed (sv_trace sample_state)) = [ENABLE; MOVE_POSE].
Proof. vm_compute. reflexivity. Qed.

(** Two streamed commands with enough invalid samples between them that the
    second is taken in the next round. *)
Definition wire_stream (sequence : Z) : WireStream := {|
  ws_header := sample_identity "arm-ui" sequence; ws_lease_id := 1; ws_kind := StreamPv;
  ws_positions := zeros kRobotDof; ws_velocities := zeros kRobotDof; ws_kp := zeros kRobotDof;
  ws_kd := zeros kRobotDof; ws_feedforward_torques := zeros kRobotDof;
  ws_speed_percent := hundred |}.

Definition sample_streams : list (bool * WireStream) :=
  (true, wire_stream 3) :: replicate 63 (false, wire_stream 0) ++
  [(true, wire_stream 3); (true, wire_stream 9)].

Definition stream_run : system :=
  run_schedule (service_body error_code default_ServiceConfig "1.0.7")
    (replicate 16 1%nat ++ replicate 200 0%nat)
    (service_start error_code default_ServiceConfig "1.0.7"
       (streaming_out sample_requests sample_streams) (Value tt)).

Definition stream_state : Service unit := fst stream_run.

Lemma stream_running :
  rtc (service_step error_code default_ServiceConfig "1.0.7")
    (service_start error_code default_ServiceConfig "1.0.7"
       (streaming_out sample_requests sample_streams) (Value tt))
    (stream_state, snd stream_run).
Proof. exact (schedule_running _ _). Qed.

(** The command that is delivered again is not streamed again. *)
Lemma service_commands_authorized_witness :
  handed Stream (sv_trace stream_state) = [("arm-ui", 1, 3); ("arm-ui", 1, 9)]%string /\
  handed Stream (sv_trace stream_state) `sublist_of` accepted_on Stream (sv_trace stream_state).
Proof.
  split; [vm_compute; reflexivity|].
  exact (proj2 (service_commands_authorized error_code default_ServiceConfig "1.0.7"
    (streaming_out sample_requests sample_streams) (Value tt) stream_state (snd stream_run)
    stream_running) Stream).
Defined.

Lemma service_commands_once_witness :
  handed Control (sv_trace sample_state) = [("arm-ui", 1, 2); ("arm-ui", 1, 5)]%string /\
  (1 < 1 \/ (1 = 1 /\ "arm-ui"%string = "arm-ui"%string /\ 2 < 5)).
Proof.
  split; [vm_compute; reflexivity|].
  apply (service_commands_once error_code default_ServiceConfig "1.0.7"
    (sample_out sample_requests) (Value tt) sample_state (snd (sample_run sample_requests)) Control
    0 1 "arm-ui" 1 2 "arm-ui" 1 5 (sample_running sample_requests)); [|lia| |]; vm_compute; reflexivity.
Defined.

Lemma service_queue_fifo_witness :
  length (enqueued (sv_trace sample_state)) = 2%nat /\
  executed (sv_trace sample_state) ++ cq_requests (sv_control sample_state)
    `sublist_of` enqueued (sv_trace sample_state).
Proof.
  split; [vm_compute; reflexivity|].
  exact (proj1 (service_queue_fifo error_code default_ServiceConfig "1.0.7"
    (sample_out sample_requests) (Value tt) sample_state (snd (sample_run sample_requests))
    (sample_running sample_requests))).
Defined.

Lemma service_motion_events_witness :
  let x := motion_key "arm-ui" 14 in
  motions_accepted x (sv_trace sample_state) = 1%nat /\
  (motions_ended x (sv_trace sample_state) <= motions_accepted x (sv_trace sample_state))%nat.
Proof.
  split; [vm_compute; reflexivity|].
  exact (service_motion_events error_code default_ServiceConfig "1.0.7"
    (sample_out sample_requests) (Value tt) sample_state (snd (sample_run sample_requests))
    (motion_key "arm-ui" 14) (sample_running sample_requests)).
Defined.

Lemma advance_next_witness :
  advance 2000000 2000000 7500000 = 8000000 /\ 7500000 < 8000000 <= 7500000 + 2000000.
Proof.
  split; [vm_compute; reflexivity|].
  exact (proj1 (advance_next 2000000 2000000 7500000 ltac:(lia) ltac:(lia))).
Defined.

(** ** Two defects, as runs *)

Definition service_reaches (requests : list ControlRequest) (s : Service unit)
    (threads : list (prog (Service unit) (option Phase))) : Prop :=
  rtc (service_step error_code default_ServiceConfig "1.0.7") (sample_start requests) (s, threads).

(** C38. A float of the wire is converted to an integer without a range check: an
    authorised START_GRAVITY_COMPENSATION request whose transition time is
    minus one millisecond drives the control worker into undefined
    behaviour. *)
Theorem wire_cast_reaches_undefined :
  exists requests s threads, service_reaches requests s threads /\
    threads !! 1%nat = Some (Done Undefined).
Proof.
  set (requests := [sample_request 1 11 0 ACQUIRE_LEASE f32_zero;
    sample_request 2 12 1 START_GRAVITY_COMPENSATION (f32_of_Z (-1))]).
  exists requests, (fst (sample_run requests)), (snd (sample_run requests)).
  split; [apply sample_running|]. vm_compute. reflexivity.
Qed.

(** The slot of the pending motion is overwritten: when a second motion is
    accepted before the end of the first was reported, the first was accepted,
    and neither was its end reported nor does either thread hold it. *)
Theorem accepted_motion_without_end :
  exists requests s threads x, service_reaches requests s threads /\
    motions_accepted x (sv_trace s) = 1%nat /\ motions_ended x (sv_trace s) = 0%nat /\
    used x s = 0%nat.
Proof.
  set (requests := [sample_request 1 11 0 ACQUIRE_LEASE f32_zero;
    sample_request 2 12 1 MOVE_POSE f32_zero; sample_request 3 13 1 MOVE_POSE f32_zero]).
  exists requests, (fst (sample_run requests)), (snd (sample_run requests)), (motion_key "arm-ui" 12).
  split; [apply sample_running|]. vm_compute. auto.
Qed.
