(* ===== verification/NativeTypes.v ===== *)
(** * The data of the safety runtime

    The types of [articore/detail/native_types.hpp] and
    [articore/detail/runtime_types.hpp] and the private records of
    [SafetyRuntime] in [articore/detail/runtime.hpp].  A [void*] that names a
    motor is a number, 0 the null pointer.  [struct_size] and the fixed
    capacity of C arrays are left out; points in time are nanoseconds, the
    epoch standing for a [time_point] that was never set. *)

From S2P Require Import Prelude Float32 FloatOrder Float64 RuntimeTypes.

(** ** Record update

    [r <| field := v |>]: the record [r] with one field replaced.  An instance
    of [Eta] writes a record back from its projections; the setter of a field
    is that expression with the projection abstracted. *)
Class Eta (R : Type) := eta : R -> R.

Class Setter {R T : Type} (field : R -> T) := set : (T -> T) -> R -> R.
Arguments set {R T} field {_} _ _ /.

Ltac build_setter field :=
  match type of field with
  | ?R -> _ =>
      let e := eval unfold eta in (eta : R -> R) in
      let e := match eval hnf in e with ?e' => e' end in
      match eval pattern field in e with
      | ?abstracted _ => exact (fun f => abstracted (fun r => f (field r)))
      end
  end.

#[export] Hint Extern 1 (Setter ?field) => build_setter field : typeclass_instances.

Notation "r <| field := v |>" := (set field (fun _ => v) r)
  (at level 12, left associativity, format "r  <| field  :=  v |>") : mdl_scope.
Notation "r <| field ::= f |>" := (set field f r)
  (at level 12, left associativity, format "r  <| field  ::=  f |>") : mdl_scope.

#[local] Open Scope mdl_scope.

Definition handle : Type := nat.

(** A point in time or a duration, in nanoseconds. *)
Definition milliseconds_ns (n : Z) : Z := n * 1000000.

(** ** Enumerations *)

Inductive ArticoreRuntimeOperation :=
| OPERATION_NONE | OPERATION_CONNECT | OPERATION_ENABLE | OPERATION_DISABLE
| OPERATION_CONFIGURE_MODE | OPERATION_CLEAR_FAULTS | OPERATION_SET_ZERO
| OPERATION_DISCONNECT | OPERATION_COMMAND | OPERATION_RECOVER
| OPERATION_CANCEL_MOTION | OPERATION_MOVE_POSE | OPERATION_STOP_MOTION
| OPERATION_MOVE_LINEAR | OPERATION_MOVE_CIRCULAR | OPERATION_START_BIMANUAL_FOLLOW
| OPERATION_STOP_BIMANUAL_FOLLOW | OPERATION_SET_TCP_OFFSET.

Inductive ArticoreOperationError :=
| OPERATION_OK | OPERATION_INVALID_ARGUMENT | OPERATION_INVALID_STATE | OPERATION_TRANSPORT
| OPERATION_FEEDBACK | OPERATION_NOT_DISABLED | OPERATION_NOT_STATIONARY
| OPERATION_MOTOR_COMMAND | OPERATION_VERIFICATION | OPERATION_UNSUPPORTED.

Inductive ArticoreMotionState :=
| MOTION_IDLE | MOTION_RUNNING | MOTION_COMPLETED | MOTION_CANCELLED | MOTION_FAULT
| MOTION_QUEUED.

Inductive ArticoreFeedbackIssueScope :=
| SCOPE_NONE | SCOPE_SINGLE_MOTOR | SCOPE_MULTIPLE_MOTORS | SCOPE_LEFT_CHANNEL
| SCOPE_RIGHT_CHANNEL | SCOPE_BOTH_CHANNELS.

Inductive ArticoreGravityCompensationPhase :=
| GRAVITY_INACTIVE | GRAVITY_ENTERING | GRAVITY_ACTIVE | GRAVITY_EXITING.

Inductive ArticoreBimanualFollowPhase :=
| BIMANUAL_FOLLOW_INACTIVE | BIMANUAL_FOLLOW_ENTERING | BIMANUAL_FOLLOW_ACTIVE
| BIMANUAL_FOLLOW_EXITING.

Inductive ArticoreGripperControlState :=
| GRIPPER_DISABLED | GRIPPER_IDLE | GRIPPER_MOVING | GRIPPER_CONTACT | GRIPPER_HOLDING
| GRIPPER_OVERLOAD_RETREAT | GRIPPER_FAULT.

Inductive ArticoreGripperMode := GRIPPER_MODE_PROTECTED | GRIPPER_MODE_DIRECT.

Inductive ArticorePresenceState := NOT_INSTALLED | PRESENT | FAULTED.

Inductive ArticoreGripperFaultAction := GRIPPER_FAULT_HOLD | GRIPPER_FAULT_DISABLE.

Inductive ArticoreCommandLifetime := COMMAND_STREAMING | COMMAND_HOLD_UNTIL_REPLACED.

Inductive NativeTrajectoryExecution := Quintic | TrajectoryPv.

#[export] Instance operation_eq_dec : EqDecision ArticoreRuntimeOperation.
Proof. solve_decision. Defined.
#[export] Instance motion_state_eq_dec : EqDecision ArticoreMotionState.
Proof. solve_decision. Defined.
#[export] Instance gravity_phase_eq_dec : EqDecision ArticoreGravityCompensationPhase.
Proof. solve_decision. Defined.
#[export] Instance gripper_state_eq_dec : EqDecision ArticoreGripperControlState.
Proof. solve_decision. Defined.
#[export] Instance gripper_mode_eq_dec : EqDecision ArticoreGripperMode.
Proof. solve_decision. Defined.
#[export] Instance presence_eq_dec : EqDecision ArticorePresenceState.
Proof. solve_decision. Defined.
#[export] Instance fault_action_eq_dec : EqDecision ArticoreGripperFaultAction.
Proof. solve_decision. Defined.
#[export] Instance lifetime_eq_dec : EqDecision ArticoreCommandLifetime.
Proof. solve_decision. Defined.
#[export] Instance execution_eq_dec : EqDecision NativeTrajectoryExecution.
Proof. solve_decision. Defined.

(** [ArticoreMotorFeedbackIssue]: the bits of [issues]. *)
Definition FEEDBACK_ISSUE_NONE : Z := 0.
Definition FEEDBACK_ISSUE_MISSING : Z := 1.
Definition FEEDBACK_ISSUE_STALE : Z := 2.
Definition FEEDBACK_ISSUE_STATE_UNAVAILABLE : Z := 4.
Definition FEEDBACK_ISSUE_NONFINITE : Z := 8.
Definition FEEDBACK_ISSUE_MOTOR_FAULT : Z := 16.
Definition FEEDBACK_ISSUE_UNEXPECTED_POWER_STATE : Z := 32.

Definition GRIPPER_STRENGTH_MIN : Z := 0.
Definition GRIPPER_FORCE_MIN : Z := 1.
Definition GRIPPER_FORCE_DEFAULT : Z := 5.
Definition GRIPPER_FORCE_MAX : Z := 10.
Definition PRODUCT_ARM_DOF : nat := 7.
Definition PRODUCT_DUAL_ARM_DOF : nat := 14.

(** ** Commands and feedback *)

Record ArticorePosVelCommand := {
  pv_motor : handle;
  pv_target_position : f32;
  pv_velocity_limit : f32
}.

Record ArticoreMitCommand := {
  mit_motor : handle;
  mit_target_position : f32;
  mit_target_velocity : f32;
  mit_stiffness : f32;
  mit_damping : f32;
  mit_feedforward_torque : f32
}.

#[export] Instance eta_ArticoreMitCommand : Eta ArticoreMitCommand := fun r =>
  Build_ArticoreMitCommand (mit_motor r) (mit_target_position r) (mit_target_velocity r)
    (mit_stiffness r) (mit_damping r) (mit_feedforward_torque r).

Record ArticoreGripperCommand := {
  gcmd_motor : handle;
  gcmd_opening : f32;
  gcmd_speed : f32;
  gcmd_force_level : Z
}.

Record ArticoreGripperTarget := { gt_motor : handle; gt_opening : f32 }.

Record ArticoreMotorState := {
  ams_has_value : bool;
  ams_can_id : Z;
  ams_arbitration_id : Z;
  ams_status_code : Z;
  ams_pos : f32;
  ams_vel : f32;
  ams_torq : f32;
  ams_t_mos : f32;
  ams_t_rotor : f32
}.

(** [ArticoreMotorState state{}]. *)
Definition no_MotorState : ArticoreMotorState :=
  Build_ArticoreMotorState false 0 0 0 f32_zero f32_zero f32_zero f32_zero f32_zero.

Record ArticoreFeedbackStats := {
  afs_has_feedback : bool;
  afs_update_count : Z;
  afs_age_ns : Z
}.

Definition no_FeedbackStats : ArticoreFeedbackStats := Build_ArticoreFeedbackStats false 0 0.

Record ArticoreFeedbackReport := {
  fr_expected_count : Z;
  fr_received_count : Z;
  fr_missing_count : Z
}.

Record ArticoreDriverTransportHealth := {
  dth_connected : bool;
  dth_healthy : bool;
  dth_tx_frames : Z;
  dth_rx_frames : Z;
  dth_send_errors : Z;
  dth_receive_errors : Z;
  dth_last_tx_age_ns : Z;
  dth_last_rx_age_ns : Z;
  dth_last_error : string
}.

(** ** Configuration *)

Record ArticoreRuntimeConfig := {
  command_timeout_ms : Z;
  enable_grace_ms : Z;
  safe_hold_hz : Z;
  feedback_check_hz : Z;
  feedback_failure_threshold : Z;
  feedback_max_age_ms : Z;
  safe_hold_failure_threshold : Z;
  disable_feedback_timeout_ms : Z;
  safe_pv_velocity_limit : f32;
  gripper_fault_action : ArticoreGripperFaultAction
}.

#[export] Instance eta_ArticoreRuntimeConfig : Eta ArticoreRuntimeConfig := fun r =>
  Build_ArticoreRuntimeConfig (command_timeout_ms r) (enable_grace_ms r) (safe_hold_hz r)
    (feedback_check_hz r) (feedback_failure_threshold r) (feedback_max_age_ms r)
    (safe_hold_failure_threshold r) (disable_feedback_timeout_ms r) (safe_pv_velocity_limit r)
    (gripper_fault_action r).

Record ArticoreMotorDescriptor := {
  d_motor : handle;
  d_side : Z;
  d_is_gripper : bool;
  d_name : string;
  d_safe_kp : f32;
  d_safe_kd : f32;
  d_overload_torque : f32;
  d_retreat_distance : f32;
  d_contact_torque : f32;
  d_motion_window_ms : Z;
  d_stall_movement : f32;
  d_min_position_error : f32;
  d_contact_hold_ms : Z;
  d_overload_hold_ms : Z;
  d_hold_offset : f32;
  d_retreat_retry_ms : Z;
  d_open_position : f32;
  d_closed_position : f32;
  d_normal_kp : f32;
  d_normal_kd : f32;
  d_close_speed : f32;
  d_max_step_interval_ms : Z;
  d_closing_direction : f32;
  d_lower_position : f32;
  d_upper_position : f32
}.

Record JointControlConfig := {
  hard_lower_position : f32;
  hard_upper_position : f32;
  soft_lower_position : f32;
  soft_upper_position : f32;
  soft_limit_braking_zone : f32;
  braking_acceleration : f32;
  jc_velocity_limit : f32;
  jc_torque_limit : f32;
  jc_mit_kp : f32;
  jc_mit_kd : f32;
  jc_mit_feedforward_torque : f32;
  jc_mit_fast_follow_kp : f32;
  jc_mit_fast_follow_kd : f32;
  velocity_feedback_scale : f32;
  layered_limits_configured : bool
}.

(** ** The motors of the runtime *)

Record GripperForceProfile := {
  gf_contact_torque : f32;
  gf_overload_torque : f32;
  gf_moving_kp : f32;
  gf_moving_kd : f32;
  gf_hold_kp : f32;
  gf_hold_kd : f32
}.

Record MotorRecord := {
  descriptor : ArticoreMotorDescriptor;
  configured_can_id : Z;
  motor_identity_configured : bool;
  last_position : f32;
  has_position : bool;
  retreat_target : f32;
  retreat_active : bool;
  protective_target : f32;
  protective_target_active : bool;
  contact_started_at : Z;
  overload_started_at : Z;
  last_retreat_at : Z;
  motion_samples : list (Z * f32);
  gripper_state : ArticoreGripperControlState;
  requested_opening : f32;
  requested_position : f32;
  requested_speed : f32;
  command_speed : f32;
  force_level : Z;
  gripper_mode : ArticoreGripperMode;
  force_profiles : gmap Z GripperForceProfile;
  gripper_product_profile_id : string;
  gripper_product_profile_bound : bool;
  command_position : f32;
  has_gripper_target : bool;
  contact_detected : bool;
  stalled : bool;
  overload : bool;
  feedback_age_ns : Z;
  mr_consecutive_feedback_failures : Z;
  last_torque : f32;
  gripper_fault_reason : string;
  last_gripper_update : Z
}.

#[export] Instance eta_MotorRecord : Eta MotorRecord := fun r =>
  Build_MotorRecord (descriptor r) (configured_can_id r) (motor_identity_configured r)
    (last_position r) (has_position r) (retreat_target r) (retreat_active r)
    (protective_target r) (protective_target_active r) (contact_started_at r)
    (overload_started_at r) (last_retreat_at r) (motion_samples r) (gripper_state r)
    (requested_opening r) (requested_position r) (requested_speed r) (command_speed r)
    (force_level r) (gripper_mode r) (force_profiles r) (gripper_product_profile_id r)
    (gripper_product_profile_bound r) (command_position r) (has_gripper_target r)
    (contact_detected r) (stalled r) (overload r) (feedback_age_ns r)
    (mr_consecutive_feedback_failures r) (last_torque r) (gripper_fault_reason r)
    (last_gripper_update r).

(** The handle, the side and the kind of a motor. *)
Definition motor_of (m : MotorRecord) : handle := d_motor (descriptor m).
Definition side_of (m : MotorRecord) : Z := d_side (descriptor m).
Definition is_gripper (m : MotorRecord) : bool := d_is_gripper (descriptor m).
Definition name_of (m : MotorRecord) : string := d_name (descriptor m).

Definition no_age : Z := 2 ^ 64 - 1.

(** [MotorRecord record; record.descriptor = motor]. *)
Definition new_MotorRecord (d : ArticoreMotorDescriptor) : MotorRecord := {|
  descriptor := d; configured_can_id := 0; motor_identity_configured := false;
  last_position := f32_zero; has_position := false; retreat_target := f32_zero;
  retreat_active := false; protective_target := f32_zero; protective_target_active := false;
  contact_started_at := 0; overload_started_at := 0; last_retreat_at := 0; motion_samples := [];
  gripper_state := GRIPPER_DISABLED; requested_opening := f32_zero;
  requested_position := f32_zero; requested_speed := f32_of_Z 1000; command_speed := f32_zero;
  force_level := GRIPPER_FORCE_DEFAULT; gripper_mode := GRIPPER_MODE_PROTECTED;
  force_profiles := ∅; gripper_product_profile_id := "";
  gripper_product_profile_bound := false; command_position := f32_zero;
  has_gripper_target := false; contact_detected := false; stalled := false; overload := false;
  feedback_age_ns := no_age; mr_consecutive_feedback_failures := 0; last_torque := f32_zero;
  gripper_fault_reason := ""; last_gripper_update := 0
|}.

Record SideHealth := {
  sh_connected : bool;
  sh_healthy : bool;
  sh_send_failures : Z;
  sh_feedback_failures : Z;
  sh_last_feedback_age_ns : Z;
  sh_tx_frames : Z;
  sh_rx_frames : Z;
  sh_send_errors : Z;
  sh_receive_errors : Z;
  sh_last_tx_age_ns : Z;
  sh_last_rx_age_ns : Z;
  sh_transport_healthy : bool;
  sh_last_error : string
}.

#[export] Instance eta_SideHealth : Eta SideHealth := fun r =>
  Build_SideHealth (sh_connected r) (sh_healthy r) (sh_send_failures r) (sh_feedback_failures r)
    (sh_last_feedback_age_ns r) (sh_tx_frames r) (sh_rx_frames r) (sh_send_errors r)
    (sh_receive_errors r) (sh_last_tx_age_ns r) (sh_last_rx_age_ns r) (sh_transport_healthy r)
    (sh_last_error r).

Definition no_SideHealth : SideHealth :=
  Build_SideHealth false false 0 0 no_age 0 0 0 0 no_age no_age true "".

Record MissingMotor := { mm_side : Z; mm_id : Z }.

(** [FeedbackSideResult]: what one side answered to a feedback request. *)
Record FeedbackSideResult := {
  fs_active : bool;
  fs_code : Z;
  fs_report : ArticoreFeedbackReport;
  fs_missing : list Z;
  fs_error : string
}.

(** ** Arm commands *)

Record ArmMailbox := {
  mb_valid : bool;
  mb_user_command : bool;
  mb_lifetime : ArticoreCommandLifetime;
  mb_generation : Z;
  mb_sent_generation : Z;
  mb_submitted_at : Z;
  mb_joint_position : bool;
  mb_mit_direct : bool;
  mb_pv_per_joint_profile : bool;
  mb_max_reference_velocity : f32;
  mb_max_reference_acceleration : f32;
  mb_pv_velocity_limit : f32;
  mb_pv : list ArticorePosVelCommand;
  mb_mit : list ArticoreMitCommand;
  mb_final_positions : list f32;
  mb_pv_reference_positions : list f32;
  mb_pv_reference_velocities : list f32;
  mb_pv_reference_velocity_limits : list f32;
  mb_pv_reference_acceleration_limits : list f32;
  mb_pv_drive_velocity_commands : list f32;
  mb_pv_hold_confirmation_cycles : list Z;
  mb_pv_stationary_hold : list bool;
  mb_pv_hold_target_positions : list f32
}.

#[export] Instance eta_ArmMailbox : Eta ArmMailbox := fun r =>
  Build_ArmMailbox (mb_valid r) (mb_user_command r) (mb_lifetime r) (mb_generation r)
    (mb_sent_generation r) (mb_submitted_at r) (mb_joint_position r) (mb_mit_direct r)
    (mb_pv_per_joint_profile r) (mb_max_reference_velocity r) (mb_max_reference_acceleration r)
    (mb_pv_velocity_limit r) (mb_pv r) (mb_mit r) (mb_final_positions r)
    (mb_pv_reference_positions r) (mb_pv_reference_velocities r)
    (mb_pv_reference_velocity_limits r) (mb_pv_reference_acceleration_limits r)
    (mb_pv_drive_velocity_commands r) (mb_pv_hold_confirmation_cycles r)
    (mb_pv_stationary_hold r) (mb_pv_hold_target_positions r).

(** [ArmMailbox{}]. *)
Definition no_ArmMailbox : ArmMailbox := {|
  mb_valid := false; mb_user_command := false; mb_lifetime := COMMAND_STREAMING;
  mb_generation := 0; mb_sent_generation := 0; mb_submitted_at := 0;
  mb_joint_position := false; mb_mit_direct := false; mb_pv_per_joint_profile := false;
  mb_max_reference_velocity := f32_zero; mb_max_reference_acceleration := f32_zero;
  mb_pv_velocity_limit := f32_zero; mb_pv := []; mb_mit := []; mb_final_positions := [];
  mb_pv_reference_positions := []; mb_pv_reference_velocities := [];
  mb_pv_reference_velocity_limits := []; mb_pv_reference_acceleration_limits := [];
  mb_pv_drive_velocity_commands := []; mb_pv_hold_confirmation_cycles := [];
  mb_pv_stationary_hold := []; mb_pv_hold_target_positions := []
|}.

(** ** Trajectories, gravity compensation and bimanual following *)

Record NativeTrajectoryJoint := {
  tj_role : string;
  tj_motor : handle;
  tj_direction : f32;
  tj_velocity_command_scale : f32;
  tj_velocity_feedback_scale : f32;
  tj_torque_command_scale : f32;
  tj_lower_position : f32;
  tj_upper_position : f32;
  tj_velocity_limit : f32;
  tj_acceleration_limit : f32;
  tj_torque_limit : f32;
  tj_mit_kp : f32;
  tj_mit_kd : f32;
  tj_mit_feedforward_torque : f32;
  tj_pv_velocity_limit : f32;
  tj_pv_hold_velocity_limit : f32
}.

Record TrajectorySegment := {
  ts_start_s : f64;
  ts_duration_s : f64;
  ts_coefficients : list (list f64)
}.

(** A convergence check of the planner, run on the measured positions. *)
Definition ConvergenceCheck : Type := list f32 -> bool * string.

Record TrajectoryControl := {
  tc_state : ArticoreMotionState;
  tc_id : Z;
  tc_waypoint_count : Z;
  tc_active_segment : Z;
  tc_elapsed_s : f64;
  tc_duration_s : f64;
  tc_reference_duration_s : f64;
  tc_approach_duration_s : f64;
  tc_approach_deadline_s : f64;
  tc_started_at : Z;
  tc_tracking_updated_at : Z;
  tc_tracking_pause_started_at : Z;
  tc_settling_started_at : Z;
  tc_settling_stable_started_at : Z;
  tc_hold_unstable_started_at : Z;
  tc_operation : ArticoreRuntimeOperation;
  tc_execution : NativeTrajectoryExecution;
  tc_pv_reference_velocity : f32;
  tc_pv_reference_acceleration : f32;
  tc_pv_drive_velocity_limit : f32;
  tc_approach_segment_count : Z;
  tc_cartesian_tracking_joint_mask : Z;
  tc_approach_complete : bool;
  tc_joints : list NativeTrajectoryJoint;
  tc_segments : list TrajectorySegment;
  tc_final_convergence_check : option ConvergenceCheck;
  tc_approach_convergence_check : option ConvergenceCheck;
  tc_settling_feedback_updates : list Z;
  tc_settling_position_min : list f32;
  tc_settling_position_max : list f32;
  tc_settled_feedback_samples : Z;
  tc_settling_feedback_initialized : bool;
  tc_stationary_hold_active : bool;
  tc_final_hold_limit_active : bool;
  tc_final_hold_limit_mask : Z;
  tc_tracking_time_scale : f32;
  tc_tracking_position_error : f32;
  tc_tracking_feedback_valid : bool;
  tc_cartesian_reference_updated_elapsed_s : f64;
  tc_cartesian_reference_positions : list f32;
  tc_trajectory_pv_updated_at : Z;
  tc_trajectory_pv_reference_positions : list f32;
  tc_trajectory_pv_reference_velocities : list f32;
  tc_trajectory_pv_command_positions : list f32;
  tc_tracking_worst_role : string;
  tc_error : string
}.

#[export] Instance eta_TrajectoryControl : Eta TrajectoryControl := fun r =>
  Build_TrajectoryControl (tc_state r) (tc_id r) (tc_waypoint_count r) (tc_active_segment r)
    (tc_elapsed_s r) (tc_duration_s r) (tc_reference_duration_s r) (tc_approach_duration_s r)
    (tc_approach_deadline_s r) (tc_started_at r) (tc_tracking_updated_at r)
    (tc_tracking_pause_started_at r) (tc_settling_started_at r)
    (tc_settling_stable_started_at r) (tc_hold_unstable_started_at r) (tc_operation r)
    (tc_execution r) (tc_pv_reference_velocity r) (tc_pv_reference_acceleration r)
    (tc_pv_drive_velocity_limit r) (tc_approach_segment_count r)
    (tc_cartesian_tracking_joint_mask r) (tc_approach_complete r) (tc_joints r) (tc_segments r)
    (tc_final_convergence_check r) (tc_approach_convergence_check r)
    (tc_settling_feedback_updates r) (tc_settling_position_min r) (tc_settling_position_max r)
    (tc_settled_feedback_samples r) (tc_settling_feedback_initialized r)
    (tc_stationary_hold_active r) (tc_final_hold_limit_active r) (tc_final_hold_limit_mask r)
    (tc_tracking_time_scale r) (tc_tracking_position_error r) (tc_tracking_feedback_valid r)
    (tc_cartesian_reference_updated_elapsed_s r) (tc_cartesian_reference_positions r)
    (tc_trajectory_pv_updated_at r) (tc_trajectory_pv_reference_positions r)
    (tc_trajectory_pv_reference_velocities r) (tc_trajectory_pv_command_positions r)
    (tc_tracking_worst_role r) (tc_error r).

Definition f32_one : f32 := f32_of_Z 1.

(** [TrajectoryControl{}]. *)
Definition no_TrajectoryControl : TrajectoryControl := {|
  tc_state := MOTION_IDLE; tc_id := 0; tc_waypoint_count := 0; tc_active_segment := 0;
  tc_elapsed_s := f64_zero; tc_duration_s := f64_zero; tc_reference_duration_s := f64_zero;
  tc_approach_duration_s := f64_zero; tc_approach_deadline_s := f64_zero; tc_started_at := 0;
  tc_tracking_updated_at := 0; tc_tracking_pause_started_at := 0; tc_settling_started_at := 0;
  tc_settling_stable_started_at := 0; tc_hold_unstable_started_at := 0;
  tc_operation := OPERATION_NONE; tc_execution := Quintic;
  tc_pv_reference_velocity := f32_zero; tc_pv_reference_acceleration := f32_zero;
  tc_pv_drive_velocity_limit := f32_zero; tc_approach_segment_count := 0;
  tc_cartesian_tracking_joint_mask := 0; tc_approach_complete := true; tc_joints := [];
  tc_segments := []; tc_final_convergence_check := None; tc_approach_convergence_check := None;
  tc_settling_feedback_updates := []; tc_settling_position_min := [];
  tc_settling_position_max := []; tc_settled_feedback_samples := 0;
  tc_settling_feedback_initialized := false; tc_stationary_hold_active := false;
  tc_final_hold_limit_active := false; tc_final_hold_limit_mask := 0;
  tc_tracking_time_scale := f32_one; tc_tracking_position_error := f32_zero;
  tc_tracking_feedback_valid := false; tc_cartesian_reference_updated_elapsed_s := f64_zero;
  tc_cartesian_reference_positions := []; tc_trajectory_pv_updated_at := 0;
  tc_trajectory_pv_reference_positions := []; tc_trajectory_pv_reference_velocities := [];
  tc_trajectory_pv_command_positions := []; tc_tracking_worst_role := ""; tc_error := ""
|}.

(** [ArticoreMotionStatus]. *)
Record ArticoreMotionStatus := {
  mo_motion_id : Z;
  mo_motion_type : Z;
  mo_state : ArticoreMotionState;
  mo_active_segment : Z;
  mo_waypoint_count : Z;
  mo_elapsed_s : f64;
  mo_duration_s : f64;
  mo_progress : f32;
  mo_error : string
}.

(** [GravityControl] with the fields of its status. *)
Record GravityControl := {
  gv_phase : ArticoreGravityCompensationPhase;
  gv_transition_started : Z;
  gv_transition_duration_ms : Z;
  gv_transition_start_gravity_scale : f32;
  gv_hold_positions : list f32;
  gv_control_cycles : Z;
  gv_status_phase : ArticoreGravityCompensationPhase;
  gv_status_active : bool;
  gv_status_transition_progress : f32;
  gv_status_control_cycles : Z;
  gv_status_joint_count : Z;
  gv_status_feedforward : list f32
}.

#[export] Instance eta_GravityControl : Eta GravityControl := fun r =>
  Build_GravityControl (gv_phase r) (gv_transition_started r) (gv_transition_duration_ms r)
    (gv_transition_start_gravity_scale r) (gv_hold_positions r) (gv_control_cycles r)
    (gv_status_phase r) (gv_status_active r) (gv_status_transition_progress r)
    (gv_status_control_cycles r) (gv_status_joint_count r)
    (gv_status_feedforward r).

(** [GravityArm] without the dynamic model of the arm. *)
Record GravityArm := {
  ga_runtime_side : Z;
  ga_robot_side : Z;
  ga_product_id : string;
  ga_joints : list handle;
  ga_position_directions : list f32;
  ga_torque_command_scales : list f32
}.

Definition no_GravityArm : GravityArm := Build_GravityArm 0 0 "" [] [] [].

Record BimanualFollowControl := {
  bm_active : bool;
  bm_leader_side : Z;
  bm_start_positions : list f32;
  bm_follower_reference : list f32;
  bm_follower_reference_velocity : list f32;
  bm_status_phase : ArticoreBimanualFollowPhase;
  bm_status_active : bool;
  bm_status_leader_side : Z;
  bm_status_follower_side : Z;
  bm_status_transition_progress : f32;
  bm_status_control_cycles : Z;
  bm_status_leader_positions : list f32;
  bm_status_follower_target_positions : list f32;
  bm_status_max_tracking_error : f32;
  bm_status_error : string
}.

#[export] Instance eta_BimanualFollowControl : Eta BimanualFollowControl := fun r =>
  Build_BimanualFollowControl (bm_active r) (bm_leader_side r) (bm_start_positions r)
    (bm_follower_reference r) (bm_follower_reference_velocity r) (bm_status_phase r)
    (bm_status_active r) (bm_status_leader_side r) (bm_status_follower_side r)
    (bm_status_transition_progress r) (bm_status_control_cycles r)
    (bm_status_leader_positions r) (bm_status_follower_target_positions r)
    (bm_status_max_tracking_error r) (bm_status_error r).

(** ** Reports

    A [char[n]] that only carries a diagnostic text is a string; what
    [copy_text] cuts off at [n - 1] characters is left in. *)

(** [ArticoreMitTorqueLimitStats]. *)
Record MitTorqueLimitStats := {
  tl_activation_count : Z;
  tl_limited_joint_mask : Z;
  tl_joint_count : Z;
  tl_requested_resultant_torque : list f32;
  tl_applied_scale : list f32;
  tl_applied_resultant_torque : list f32
}.

#[export] Instance eta_MitTorqueLimitStats : Eta MitTorqueLimitStats := fun r =>
  Build_MitTorqueLimitStats (tl_activation_count r) (tl_limited_joint_mask r) (tl_joint_count r)
    (tl_requested_resultant_torque r) (tl_applied_scale r) (tl_applied_resultant_torque r).

(** The statistics of a cycle before any joint is limited. *)
Definition fresh_TorqueLimitStats : MitTorqueLimitStats :=
  Build_MitTorqueLimitStats 0 0 0 (replicate PRODUCT_DUAL_ARM_DOF f32_zero)
    (replicate PRODUCT_DUAL_ARM_DOF f32_one) (replicate PRODUCT_DUAL_ARM_DOF f32_zero).

Record ArticoreDisableMotorResult := {
  dr_side : Z;
  dr_can_id : Z;
  dr_status_code : Z;
  dr_has_feedback : bool;
  dr_feedback_fresh : bool;
  dr_disabled : bool;
  dr_disable_sent : bool;
  dr_retry_sent : bool;
  dr_name : string
}.

Record ArticoreDisableReport := {
  dp_success : bool;
  dp_barrier_confirmed : bool;
  dp_expected_count : Z;
  dp_disabled_count : Z;
  dp_failure_count : Z;
  dp_retry_count : Z;
  dp_missing : list MissingMotor;
  dp_motors : list ArticoreDisableMotorResult;
  dp_error : string
}.

Definition no_DisableReport : ArticoreDisableReport :=
  Build_ArticoreDisableReport false false 0 0 0 0 [] [] "".

Record ArticoreEnableMotorResult := {
  er_side : Z;
  er_can_id : Z;
  er_status_code : Z;
  er_has_feedback : bool;
  er_feedback_fresh : bool;
  er_enabled : bool;
  er_name : string
}.

Record ArticoreEnableReport := {
  ep_success : bool;
  ep_disable_confirmed : bool;
  ep_expected_count : Z;
  ep_missing : list MissingMotor;
  ep_enabled_count : Z;
  ep_failure_count : Z;
  ep_motors : list ArticoreEnableMotorResult;
  ep_error : string
}.

#[export] Instance eta_ArticoreEnableReport : Eta ArticoreEnableReport := fun r =>
  Build_ArticoreEnableReport (ep_success r) (ep_disable_confirmed r) (ep_expected_count r)
    (ep_missing r) (ep_enabled_count r) (ep_failure_count r) (ep_motors r) (ep_error r).

Definition no_EnableReport : ArticoreEnableReport :=
  Build_ArticoreEnableReport false false 0 [] 0 0 [] "".

(** [ArticoreMotorFeedbackHealth]. *)
Record ArticoreMotorFeedbackHealth := {
  fh_side : Z;
  fh_can_id : Z;
  fh_can_id_valid : bool;
  fh_is_gripper : bool;
  fh_has_feedback : bool;
  fh_fresh : bool;
  fh_has_state : bool;
  fh_values_finite : bool;
  fh_status_code : Z;
  fh_issues : Z;
  fh_position : f32;
  fh_velocity : f32;
  fh_torque : f32;
  fh_feedback_age_ns : Z;
  fh_update_count : Z;
  fh_role : string
}.

#[export] Instance eta_FeedbackHealth : Eta ArticoreMotorFeedbackHealth := fun r =>
  Build_ArticoreMotorFeedbackHealth (fh_side r) (fh_can_id r) (fh_can_id_valid r)
    (fh_is_gripper r) (fh_has_feedback r) (fh_fresh r) (fh_has_state r) (fh_values_finite r)
    (fh_status_code r) (fh_issues r) (fh_position r) (fh_velocity r) (fh_torque r)
    (fh_feedback_age_ns r) (fh_update_count r) (fh_role r).
