(* ===== verification/Trajectory.v ===== *)
(** * Trajectory segments

    The polynomial part of [runtime/src/runtime_trajectory.cpp]: a segment
    holds one polynomial of degree five per joint, over the unit interval, and
    is accepted when its position, velocity and acceleration stay within the
    limits of the joint at every critical point. *)

From Stdlib Require Import String.
From S2P Require Import Prelude Float32 Float64 RuntimeTypes NativeTypes.
#[local] Open Scope mdl_scope.

Definition kPolynomialTolerance : f64 := f64_lit 1 10000000000.
Definition kLimitTolerance : f64 := f64_lit 1 1000000.

Definition f64_one : f64 := f64_of_Z 1.
Definition f64_half : f64 := f64_lit 1 2.

Definition Polynomial : Type := list f64.

(** Horner's rule, from the last coefficient. *)
Definition evaluate (coefficients : Polynomial) (x : f64) : f64 :=
  fold_left (fun result c => f64_add (f64_mul result x) c) (rev coefficients) f64_zero.

Fixpoint derivative_from (i : Z) (l : Polynomial) : Polynomial :=
  match l with
  | [] => []
  | c :: rest => f64_mul (f64_of_Z i) c :: derivative_from (i + 1) rest
  end.

Definition derivative (coefficients : Polynomial) : Polynomial :=
  match coefficients with
  | [] | [_] => [f64_zero]
  | _ :: rest => derivative_from 1 rest
  end.

Definition append_unique (roots : list f64) (value : f64) : list f64 :=
  if f64_lt value (f64_opp kPolynomialTolerance) ||
     f64_lt (f64_add f64_one kPolynomialTolerance) value then roots
  else
    let value := f64_clamp value f64_zero f64_one in
    if existsb (fun existing =>
         f64_le (f64_abs (f64_sub existing value)) (f64_lit 1 100000000)) roots
    then roots else roots ++ [value].

(** [std::sort]; the values are never NaN. *)
Fixpoint insert_sorted (x : f64) (l : list f64) : list f64 :=
  match l with
  | [] => [x]
  | y :: rest => if f64_lt x y then x :: l else y :: insert_sorted x rest
  end.

Definition sort (l : list f64) : list f64 := fold_left (fun a x => insert_sorted x a) l [].

(** Trailing coefficients that vanish are dropped, down to the constant. *)
Fixpoint drop_vanishing (reversed : list f64) : list f64 :=
  match reversed with
  | c :: ((_ :: _) as rest) =>
      if f64_le (f64_abs c) kPolynomialTolerance then drop_vanishing rest else reversed
  | _ => reversed
  end.

Definition trim (coefficients : Polynomial) : Polynomial :=
  rev (drop_vanishing (rev coefficients)).

(** At most eighty bisection steps; the bracket that is left. *)
Fixpoint bisect (n : nat) (coefficients : Polynomial) (lower upper lower_value : f64) :
    f64 * f64 :=
  match n with
  | O => (lower, upper)
  | S n =>
      let middle := f64_mul (f64_add lower upper) f64_half in
      let middle_value := evaluate coefficients middle in
      if f64_le (f64_abs middle_value) (f64_lit 1 10000000000000) then (middle, middle)
      else if Bool.eqb (f64_signbit lower_value) (f64_signbit middle_value)
      then bisect n coefficients middle upper middle_value
      else bisect n coefficients lower middle lower_value
  end.

Definition bracket_root (coefficients : Polynomial) (roots : list f64) (lower upper : f64) :
    list f64 :=
  let lower_value := evaluate coefficients lower in
  let upper_value := evaluate coefficients upper in
  if f64_eq lower_value f64_zero || f64_eq upper_value f64_zero ||
     Bool.eqb (f64_signbit lower_value) (f64_signbit upper_value) then roots
  else
    let '(lower, upper) := bisect 80 coefficients lower upper lower_value in
    append_unique roots (f64_mul (f64_add lower upper) f64_half).

Fixpoint bracket_roots (coefficients : Polynomial) (roots boundaries : list f64) : list f64 :=
  match boundaries with
  | lower :: ((upper :: _) as rest) =>
      bracket_roots coefficients (bracket_root coefficients roots lower upper) rest
  | _ => roots
  end.

(** The recursion goes to the derivative, which is shorter: the number of
    coefficients is fuel enough. *)
Fixpoint roots_from (fuel : nat) (coefficients : Polynomial) : list f64 :=
  match fuel with
  | O => []
  | S fuel =>
      let coefficients := trim coefficients in
      match coefficients with
      | [] | [_] => []
      | [c0; c1] => append_unique [] (f64_div (f64_opp c0) c1)
      | _ =>
          let boundaries :=
            f64_zero :: sort (roots_from fuel (derivative coefficients)) ++ [f64_one] in
          let roots := fold_left (fun roots point =>
            if f64_le (f64_abs (evaluate coefficients point)) (f64_lit 1 1000000000)
            then append_unique roots point else roots) boundaries [] in
          sort (bracket_roots coefficients roots boundaries)
      end
  end.

Definition roots_on_unit_interval (coefficients : Polynomial) : list f64 :=
  roots_from (length coefficients) coefficients.

Definition quintic_coefficients (p0 v0 a0 p1 v1 a1 duration : f64) : list f64 :=
  let n z := f64_of_Z z in
  let c0 := p0 in
  let c1 := f64_mul v0 duration in
  let c2 := f64_mul (f64_mul (f64_mul f64_half a0) duration) duration in
  let dp := f64_sub p1 (f64_add (f64_add c0 c1) c2) in
  let dv := f64_sub (f64_mul v1 duration) (f64_add c1 (f64_mul (n 2) c2)) in
  let da := f64_sub (f64_mul (f64_mul a1 duration) duration) (f64_mul (n 2) c2) in
  [c0; c1; c2;
   f64_add (f64_sub (f64_mul (n 10) dp) (f64_mul (n 4) dv)) (f64_mul f64_half da);
   f64_sub (f64_add (f64_mul (n (-15)) dp) (f64_mul (n 7) dv)) da;
   f64_add (f64_sub (f64_mul (n 6) dp) (f64_mul (n 3) dv)) (f64_mul f64_half da)].

Definition sampled_pv_coefficients (p0 p1 : f64) : list f64 :=
  [p0; f64_sub p1 p0; f64_zero; f64_zero; f64_zero; f64_zero].

Definition sample_polynomial (coefficients : list f64) (u : f64) : f64 :=
  evaluate coefficients u.

(** The loops from index 5 down to 1, and down to 2. *)
Definition sample_velocity (coefficients : list f64) (u duration : f64) : f64 :=
  f64_div
    (fold_left (fun value index =>
       f64_add (f64_mul value u)
               (f64_mul (f64_of_Z index) (nth (Z.to_nat index) coefficients f64_zero)))
       [5; 4; 3; 2; 1] f64_zero) duration.

Definition sample_acceleration (coefficients : list f64) (u duration : f64) : f64 :=
  f64_div
    (fold_left (fun value index =>
       f64_add (f64_mul value u)
               (f64_mul (f64_of_Z (index * (index - 1)))
                        (nth (Z.to_nat index) coefficients f64_zero)))
       [5; 4; 3; 2] f64_zero) (f64_mul duration duration).

(** ** Limits of a segment *)

Definition joint_role (j : NativeTrajectoryJoint) : string :=
  if str_empty (tj_role j) then "unknown product joint"%string else tj_role j.

(** The first candidate for which the check fails. *)
Fixpoint first_failure {A} (check : A -> option exn) (l : list A) : option exn :=
  match l with
  | [] => None
  | x :: rest => match check x with Some e => Some e | None => first_failure check rest end
  end.

Definition segment_name (segment_index : Z) : string :=
  ("trajectory segment " ++ to_string (segment_index + 1))%string.

Section Joint.
Context (duration_s : f64) (segment_index : Z) (joint : NativeTrajectoryJoint).

Definition position_bounds (direction : Z) (position : Polynomial) : bool * (f64 * f64) :=
  let start := evaluate position f64_zero in
  let lower := f64_of_f32 (tj_lower_position joint) in
  let upper := f64_of_f32 (tj_upper_position joint) in
  let below := (0 <? direction) && f64_lt start lower in
  let above := (direction <? 0) && f64_lt upper start in
  (below || above, (if below then start else lower, if above then start else upper)).

Definition check_position (recovering : bool) (lower upper : f64) (position : Polynomial)
    (u : f64) : option exn :=
  let value := evaluate position u in
  if f64_lt value (f64_sub lower kLimitTolerance) ||
     f64_lt (f64_add upper kLimitTolerance) value then
    Some (InvalidArgument (segment_name segment_index ++
      (if recovering then " expands out-of-limit recovery: "
       else " exceeds product position limits: ") ++
      joint_role joint ++ " position=" ++ show_float value ++ " rad, allowed=[" ++
      show_float lower ++ ", " ++ show_float upper ++ "] rad inside the segment")%string)
  else None.

Definition check_velocity (velocity_u : Polynomial) (u : f64) : option exn :=
  let value := f64_div (evaluate velocity_u u) duration_s in
  let message (what : string) (limit : f32) :=
    Some (InvalidArgument (segment_name segment_index ++ ": " ++ joint_role joint ++
      " velocity=" ++ show_float value ++ " rad/s exceeds " ++ what ++ " limit=" ++
      show_float limit ++ " rad/s inside the segment")%string) in
  if f64_lt (f64_add (f64_of_f32 (tj_velocity_limit joint)) kLimitTolerance) (f64_abs value)
  then message "product"%string (tj_velocity_limit joint)
  else if f32_gt (tj_pv_velocity_limit joint) f32_zero &&
     f64_lt (f64_add (f64_of_f32 (tj_pv_velocity_limit joint)) kLimitTolerance) (f64_abs value)
  then message "PV"%string (tj_pv_velocity_limit joint)
  else None.

Definition check_acceleration (acceleration_u : Polynomial) (u : f64) : option exn :=
  let value := f64_div (evaluate acceleration_u u) (f64_mul duration_s duration_s) in
  if f64_lt (f64_add (f64_of_f32 (tj_acceleration_limit joint)) kLimitTolerance) (f64_abs value)
  then Some (InvalidArgument (segment_name segment_index ++ ": " ++ joint_role joint ++
      " acceleration=" ++ show_float value ++ " rad/s^2 exceeds product limit=" ++
      show_float (tj_acceleration_limit joint) ++ " rad/s^2 inside the segment")%string)
  else None.

(** The end points and the critical points of a polynomial. *)
Definition candidates (slope : Polynomial) : list f64 :=
  f64_zero :: f64_one :: roots_on_unit_interval slope.

Definition check_joint (direction : Z) (validate_dynamics : bool) (position : Polynomial) :
    option exn :=
  let velocity_u := derivative position in
  let acceleration_u := derivative velocity_u in
  let jerk_u := derivative acceleration_u in
  let '(recovering, (lower, upper)) := position_bounds direction position in
  match first_failure (check_position recovering lower upper position) (candidates velocity_u)
  with
  | Some e => Some e
  | None =>
      if negb validate_dynamics then None
      else
        match first_failure (check_velocity velocity_u) (candidates acceleration_u) with
        | Some e => Some e
        | None => first_failure (check_acceleration acceleration_u) (candidates jerk_u)
        end
  end.

End Joint.

(** [validate_segment_extrema]: what it throws, if anything.  A joint has a
    polynomial and a recovery direction each. *)
Fixpoint validate_segment_extrema (duration_s : f64) (coefficients : list (list f64))
    (joints : list NativeTrajectoryJoint) (recovery_directions : list Z) (segment_index : Z)
    (validate_dynamics : bool) : option exn :=
  match joints, coefficients with
  | j :: js, c :: cs =>
      match check_joint duration_s segment_index j (hd 0 recovery_directions)
              validate_dynamics c with
      | Some e => Some e
      | None =>
          validate_segment_extrema duration_s cs js (tl recovery_directions) segment_index
            validate_dynamics
      end
  | _, _ => None
  end.
