(* ===== verification/SafetyState.v ===== *)
(** * The safety runtime: shared state and primitive actions

    The members of [articore::SafetyRuntime] ([detail/runtime.hpp]) and the
    actions its operations are made of.  One critical section of
    [state_mutex_] is one action.  [command_mutex_] and the recursive
    [lifecycle_mutex_] are held across many actions, so they are fields of the
    state and acquiring one is an action that waits.  The motors are reached
    through the class [MotorBackend]; between two actions the environment lets
    time pass and changes what the backend will answer.  Waking the worker up
    has no effect on the state and is left out. *)

From Stdlib Require Import String.
From S2P Require Import Prelude Float32 FloatOrder Float64 RuntimeTypes Threads NativeTypes.
#[local] Open Scope mdl_scope.
#[local] Open Scope thread_scope.

(** ** The motor backend *)

(** The virtual methods of [MotorBackend]: the return code, with what the
    method writes through its pointers.  A controller is named by its side;
    the group, of which there is one, is not named. *)
Inductive BackendCall : Type -> Type :=
| Bk_send_pos_vel (commands : list ArticorePosVelCommand) : BackendCall Z
| Bk_send_mit (commands : list ArticoreMitCommand) : BackendCall Z
| Bk_disable_all (side : Z) : BackendCall Z
| Bk_request_feedback (side timeout_ms : Z) (capacity : nat) :
    BackendCall (Z * ArticoreFeedbackReport * list Z)
| Bk_get_state (motor : handle) : BackendCall (Z * ArticoreMotorState)
| Bk_get_feedback_stats (motor : handle) : BackendCall (Z * ArticoreFeedbackStats)
| Bk_get_transport_health (side : Z) : BackendCall (Z * ArticoreDriverTransportHealth)
| Bk_has_transport_health : BackendCall bool
| Bk_disable_motor (motor : handle) : BackendCall Z
| Bk_last_error_message : BackendCall (option string)
| Bk_can_enable_all : BackendCall bool
| Bk_enable_all (side : Z) : BackendCall Z
| Bk_can_enable_motor : BackendCall bool
| Bk_enable_motor (motor : handle) : BackendCall Z
| Bk_can_clear_error : BackendCall bool
| Bk_clear_error (motor : handle) : BackendCall Z
| Bk_can_set_zero : BackendCall bool
| Bk_set_zero (motor : handle) : BackendCall Z
| Bk_can_ensure_mode : BackendCall bool
| Bk_ensure_mode (motor : handle) (mode timeout_ms : Z) : BackendCall Z
| Bk_can_set_timeout : BackendCall bool
| Bk_set_timeout_ms (motor : handle) (timeout_ms : Z) : BackendCall Z
| Bk_communication_timeout_ms : BackendCall Z.

(** A backend answers every call and may change.  Nothing is promised of the
    answers. *)
Class MotorBackend (B : Type) := {
  bk_call : forall T, BackendCall T -> B -> T * B
}.
Arguments bk_call {B _} T _ _.

(** ** The members *)

Record SafetyCore := {
  state_ : SafetyState;
  mode_ : ControlMode;
  stopping_ : bool;
  hardware_transition_ : bool;
  enable_transaction_ : bool;
  fault_latched_ : bool;
  motor_fault_latched_ : bool;
  emergency_stop_latched_ : bool;
  disable_confirmed_ : bool;
  has_successful_command_ : bool;
  first_command_accepted_ : bool;
  enable_grace_transition_ : bool;
  fault_hold_active_ : bool;
  active_command_planning_token_ : Z;
  next_command_planning_token_ : Z;
  fault_reason_ : string;
  safety_reason_ : string
}.

#[export] Instance eta_SafetyCore : Eta SafetyCore := fun r =>
  Build_SafetyCore (state_ r) (mode_ r) (stopping_ r) (hardware_transition_ r)
    (enable_transaction_ r) (fault_latched_ r) (motor_fault_latched_ r)
    (emergency_stop_latched_ r) (disable_confirmed_ r) (has_successful_command_ r)
    (first_command_accepted_ r) (enable_grace_transition_ r) (fault_hold_active_ r)
    (active_command_planning_token_ r) (next_command_planning_token_ r) (fault_reason_ r)
    (safety_reason_ r).

Record SafetyTimers := {
  enabled_at_ : Z;
  last_successful_command_ : Z;
  last_fresh_feedback_ : Z;
  next_ready_feedback_ : Z;
  next_feedback_check_ : Z;
  next_safe_hold_ : Z;
  next_gripper_control_ : Z;
  next_control_tick_ : Z;
  last_control_tick_ : Z
}.

#[export] Instance eta_SafetyTimers : Eta SafetyTimers := fun r =>
  Build_SafetyTimers (enabled_at_ r) (last_successful_command_ r) (last_fresh_feedback_ r)
    (next_ready_feedback_ r) (next_feedback_check_ r) (next_safe_hold_ r)
    (next_gripper_control_ r) (next_control_tick_ r) (last_control_tick_ r).

(** Failure counters are 32-bit, generations and statistics 64-bit. *)
Record SafetyCounters := {
  consecutive_send_failures_ : Z;
  consecutive_feedback_failures_ : Z;
  consecutive_hold_failures_ : Z;
  gripper_command_generation_ : Z;
  gripper_sent_generation_ : Z;
  arm_generation_ : Z;
  control_ticks_ : Z;
  control_overruns_ : Z;
  maximum_control_period_ns_ : Z;
  maximum_send_time_ns_ : Z;
  next_motion_id_ : Z
}.

#[export] Instance eta_SafetyCounters : Eta SafetyCounters := fun r =>
  Build_SafetyCounters (consecutive_send_failures_ r) (consecutive_feedback_failures_ r)
    (consecutive_hold_failures_ r) (gripper_command_generation_ r) (gripper_sent_generation_ r)
    (arm_generation_ r) (control_ticks_ r) (control_overruns_ r) (maximum_control_period_ns_ r)
    (maximum_send_time_ns_ r) (next_motion_id_ r).

Record SafetyHolds := {
  safe_pv_ : list ArticorePosVelCommand;
  safe_mit_ : list ArticoreMitCommand;
  safe_grippers_ : list ArticoreMitCommand;
  last_sent_pv_ : list ArticorePosVelCommand;
  last_sent_mit_ : list ArticoreMitCommand
}.

#[export] Instance eta_SafetyHolds : Eta SafetyHolds := fun r =>
  Build_SafetyHolds (safe_pv_ r) (safe_mit_ r) (safe_grippers_ r) (last_sent_pv_ r)
    (last_sent_mit_ r).

(** The diagnostic surface of the last operation. *)
Record LastOperation := {
  last_operation_ : ArticoreRuntimeOperation;
  last_operation_code_ : ArticoreOperationError;
  last_operation_error_ : string;
  operation_failed_motors_ : list string
}.

#[export] Instance eta_LastOperation : Eta LastOperation := fun r =>
  Build_LastOperation (last_operation_ r) (last_operation_code_ r) (last_operation_error_ r)
    (operation_failed_motors_ r).

(** What the theorems speak of: every call of the backend with its answer, the
    state it was made in and the holder of [command_mutex_]. *)
Record SafetyEvent := EvCall {
  ev_state : SafetyState;
  ev_locked_by : option nat;
  ev_type : Type;
  ev_call : BackendCall ev_type;
  ev_answer : ev_type
}.

(** [rt_helper_turn] schedules the two jobs of [run_active_sides]: whether the
    next action is the helper thread's is up to the environment.
    [rt_worker_done] tells [join] that the worker has returned. *)
Record Safety (B : Type) := {
  rt_clock : Z;
  rt_backend : B;
  rt_command_lock : option nat;
  rt_lifecycle_lock : option (nat * nat);
  rt_helper_turn : bool;
  rt_config : ArticoreRuntimeConfig;
  rt_control_hz : Z;
  rt_require_profiles : bool;
  rt_active_sides : list bool;
  rt_core : SafetyCore;
  rt_timers : SafetyTimers;
  rt_counters : SafetyCounters;
  rt_holds : SafetyHolds;
  rt_mailbox : ArmMailbox;
  rt_pending : ArmMailbox;
  rt_motors : list MotorRecord;
  rt_presence : gmap string ArticorePresenceState;
  rt_roles : gmap handle string;
  rt_joints : gmap handle JointControlConfig;
  rt_sides : list SideHealth;
  rt_gravity_arms : list GravityArm;
  rt_gravity : GravityControl;
  rt_bimanual : BimanualFollowControl;
  rt_trajectory : TrajectoryControl;
  rt_queue : list TrajectoryControl;
  rt_history : list ArticoreMotionStatus;
  rt_torque_stats : MitTorqueLimitStats;
  rt_disable_report : ArticoreDisableReport;
  rt_enable_report : ArticoreEnableReport;
  rt_worker_done : bool;
  rt_operation : LastOperation;
  rt_motor_faults : list string;
  rt_unconfirmed_disable : list string;
  rt_intentionally_disabled : gset handle;
  rt_trace : list SafetyEvent
}.
Arguments rt_helper_turn {B} _. Arguments rt_enable_report {B} _. Arguments rt_worker_done {B} _.
Arguments rt_gravity_arms {B} _. Arguments rt_require_profiles {B} _.
Arguments rt_torque_stats {B} _. Arguments rt_disable_report {B} _.
Arguments rt_clock {B} _. Arguments rt_backend {B} _. Arguments rt_command_lock {B} _.
Arguments rt_lifecycle_lock {B} _. Arguments rt_config {B} _. Arguments rt_control_hz {B} _.
Arguments rt_active_sides {B} _. Arguments rt_core {B} _. Arguments rt_timers {B} _.
Arguments rt_counters {B} _. Arguments rt_holds {B} _. Arguments rt_mailbox {B} _.
Arguments rt_pending {B} _. Arguments rt_motors {B} _. Arguments rt_presence {B} _.
Arguments rt_roles {B} _. Arguments rt_joints {B} _. Arguments rt_sides {B} _.
Arguments rt_gravity {B} _. Arguments rt_bimanual {B} _. Arguments rt_trajectory {B} _.
Arguments rt_queue {B} _. Arguments rt_history {B} _. Arguments rt_operation {B} _.
Arguments rt_motor_faults {B} _. Arguments rt_unconfirmed_disable {B} _.
Arguments rt_intentionally_disabled {B} _. Arguments rt_trace {B} _.

#[export] Instance eta_Safety {B} : Eta (Safety B) := fun r =>
  Build_Safety B (rt_clock r) (rt_backend r) (rt_command_lock r) (rt_lifecycle_lock r)
    (rt_helper_turn r) (rt_config r) (rt_control_hz r) (rt_require_profiles r) (rt_active_sides r) (rt_core r) (rt_timers r)
    (rt_counters r) (rt_holds r) (rt_mailbox r) (rt_pending r) (rt_motors r) (rt_presence r)
    (rt_roles r) (rt_joints r) (rt_sides r) (rt_gravity_arms r) (rt_gravity r) (rt_bimanual r) (rt_trajectory r)
    (rt_queue r) (rt_history r) (rt_torque_stats r) (rt_disable_report r) (rt_enable_report r)
    (rt_worker_done r) (rt_operation r) (rt_motor_faults r)
    (rt_unconfirmed_disable r) (rt_intentionally_disabled r) (rt_trace r).

(** [active_sides_[side]] and [sides_[side]]. *)
Definition active_side (active : list bool) (side : Z) : bool := nth (Z.to_nat side) active false.
Definition side_health (sides : list SideHealth) (side : Z) : SideHealth :=
  nth (Z.to_nat side) sides no_SideHealth.

Definition update_side (side : Z) (f : SideHealth -> SideHealth) (sides : list SideHealth) :
    list SideHealth :=
  alter f (Z.to_nat side) sides.

(** [for (uint8_t side = 0; side < 2; ++side)]. *)
Definition both_sides : list Z := [0; 1].

(** Update of the member with the given handle ([std::find_if] over
    [motors_], then assignment through the iterator). *)
Definition update_motor (motor : handle) (f : MotorRecord -> MotorRecord) :
    list MotorRecord -> list MotorRecord :=
  map (fun m => if bool_decide (motor_of m = motor) then f m else m).

Definition find_motor (motors : list MotorRecord) (motor : handle) : option MotorRecord :=
  find (fun m => bool_decide (motor_of m = motor)) motors.

(** ** Primitive actions *)
Section Primitives.
Context {B : Type} `{!MotorBackend B}.

Definition Rt (A : Type) : Type := prog (Safety B) A.

Definition clock_now : Rt Z := read rt_clock.

(** [std::this_thread::sleep_for]. *)
Definition sleep_ms (n : Z) : Rt unit :=
  do start <- clock_now;
  await (fun s : Safety B => start + milliseconds_ns n <=? rt_clock s) (fun s => (tt, s)).

(** One call of the backend. *)
Definition bk {T} (c : BackendCall T) : Rt T :=
  act (fun s : Safety B =>
    let '(x, b) := bk_call T c (rt_backend s) in
    (x, s <| rt_backend := b |>
          <| rt_trace ::=
               fun l => l ++ [EvCall (state_ (rt_core s)) (rt_command_lock s) T c x] |>)).

Definition send_pos_vel (commands : list ArticorePosVelCommand) : Rt Z :=
  bk (Bk_send_pos_vel commands).
Definition send_mit (commands : list ArticoreMitCommand) : Rt Z := bk (Bk_send_mit commands).

(** [std::lock_guard] on [command_mutex_]: the body runs with the mutex, which
    is released when it returns and when it throws. *)
Fixpoint pfinally {S A} (p : prog S A) (release : S -> S) : prog S A :=
  match p with
  | Done (Returned a) => Act (fun _ => true) (fun s => (tt, release s)) (fun _ => pret a)
  | Done (Thrown e) => Act (fun _ => true) (fun s => (tt, release s)) (fun _ => pthrow e)
  | Done o => Done o
  | Act g f k => Act g f (fun x => pfinally (k x) release)
  end.

Definition lock_command (who : nat) : Rt unit :=
  await (fun s : Safety B => bool_decide (rt_command_lock s = None))
        (fun s : Safety B => (tt, s <| rt_command_lock := Some who |>)).

Definition unlock_command (s : Safety B) : Safety B := s <| rt_command_lock := None |>.

Definition with_command {A} (who : nat) (p : Rt A) : Rt A :=
  lock_command who ;;; pfinally p unlock_command.

(** The recursive mutex: its owner and how often the owner holds it. *)
Definition may_lock (who : nat) (l : option (nat * nat)) : bool :=
  match l with Some (owner, _) => bool_decide (owner = who) | None => true end.

Definition lock_lifecycle (who : nat) : Rt unit :=
  await (fun s : Safety B => may_lock who (rt_lifecycle_lock s))
        (fun s : Safety B => (tt, s <| rt_lifecycle_lock ::=
           fun l => match l with Some (_, n) => Some (who, S n) | None => Some (who, 1%nat) end |>)).

Definition unlock_lifecycle (s : Safety B) : Safety B :=
  s <| rt_lifecycle_lock ::=
         fun l => match l with Some (owner, S (S n)) => Some (owner, S n) | _ => None end |>.

Definition with_lifecycle {A} (who : nat) (p : Rt A) : Rt A :=
  lock_lifecycle who ;;; pfinally p unlock_lifecycle.

(** [if (!error.empty()) error += "; "; error += text]. *)
Definition append_error (error text : string) : string :=
  if str_empty error then text else (error ++ "; " ++ text)%string.

(** [motor_error(fallback)]. *)
Definition motor_error (fallback : string) : Rt string :=
  do message <- bk Bk_last_error_message;
  pret (match message with
        | Some text => if str_empty text then fallback else text
        | None => fallback
        end).

(** [backend_->get_feedback_stats(motor, &stats) == 0 && stats.has_feedback],
    with the statistics where it holds. *)
Definition fetch_stats (motor : handle) : Rt (option ArticoreFeedbackStats) :=
  do r <- bk (Bk_get_feedback_stats motor);
  pret (if (fst r =? 0) && afs_has_feedback (snd r) then Some (snd r) else None).

(** [backend_->get_state(motor, &state) == 0 && state.has_value]. *)
Definition fetch_state (motor : handle) : Rt (option ArticoreMotorState) :=
  do r <- bk (Bk_get_state motor);
  pret (if (fst r =? 0) && ams_has_value (snd r) then Some (snd r) else None).

(** [detail::run_active_sides]: one job per active side, at once when both are
    active.  The caller's exception goes before the helper's. *)
Definition job_result {A} (o : outcome A) : Rt A := Done o.

Definition run_active_sides {A} (sides : list bool) (job : Z -> Rt A) :
    Rt (option A * option A) :=
  match active_side sides 0, active_side sides 1 with
  | true, true =>
      do r <- par (fun s : Safety B => negb (rt_helper_turn s)) (job 0) (job 1);
      do a <- job_result (fst r);
      do b <- job_result (snd r);
      pret (Some a, Some b)
  | true, false => do a <- job 0; pret (Some a, None)
  | false, true => do b <- job 1; pret (None, Some b)
  | false, false => pret (None, None)
  end.

(** [get_feedback_stats] answers with feedback no older than the limit, and
    [get_state], asked only then, with a value. *)
Definition fetch_fresh (maximum_age : Z) (motor : handle) : Rt (option ArticoreMotorState) :=
  do stats <- fetch_stats motor;
  match stats with
  | Some st => if afs_age_ns st <=? maximum_age then fetch_state motor else pret None
  | None => pret None
  end.

(** A section under [state_mutex_] that asks the drivers: one action. *)
Definition atomically {A} (p : Rt A) : Rt A :=
  do o <- act (run_alone p);
  Done o.

(** A loop over a container that carries a value. *)
Fixpoint pfold {X A} (l : list X) (step : A -> X -> Rt A) (a : A) : Rt A :=
  match l with
  | [] => pret a
  | x :: rest => do a' <- step a x; pfold rest step a'
  end.

End Primitives.

(** [feedback_max_age_ns()]. *)
Definition feedback_max_age_ns (c : ArticoreRuntimeConfig) : Z :=
  u64 (feedback_max_age_ms c * 1000000).

Definition u32_succ (n : Z) : Z := u32 (n + 1).

(** [++consecutive_..._failures_] and the like. *)
Definition bump_send_failures (c : SafetyCounters) : SafetyCounters :=
  c <| consecutive_send_failures_ ::= u32_succ |>.

(** [reset_bimanual_follow_locked]. *)
Definition reset_bimanual_follow_locked (b : BimanualFollowControl) : BimanualFollowControl :=
  let zero := replicate PRODUCT_ARM_DOF f32_zero in
  {| bm_active := false; bm_leader_side := bm_leader_side b; bm_start_positions := [];
     bm_follower_reference := zero; bm_follower_reference_velocity := zero;
     bm_status_phase := BIMANUAL_FOLLOW_INACTIVE; bm_status_active := false;
     bm_status_leader_side := 0; bm_status_follower_side := 0;
     bm_status_transition_progress := f32_zero; bm_status_control_cycles := 0;
     bm_status_leader_positions := zero; bm_status_follower_target_positions := zero;
     bm_status_max_tracking_error := f32_zero; bm_status_error := "" |}.

(** The four assignments that end gravity compensation, with and without the
    held positions. *)
Definition leave_gravity (g : GravityControl) : GravityControl :=
  g <| gv_phase := GRAVITY_INACTIVE |> <| gv_hold_positions := [] |>
    <| gv_status_active := false |> <| gv_status_phase := GRAVITY_INACTIVE |>.
