(* ===== verification/Motions.v ===== *)
(** * The motion queue

    [runtime/src/runtime_trajectory.cpp]: the running motion, the queue behind
    it and the bounded history, with what ends a motion.  The operations whose
    names end in [_locked] are functions of the state; the others are actions
    on it. *)

From Stdlib Require Import String.
From S2P Require Import Prelude Float32 Float64 RuntimeTypes Threads NativeTypes Trajectory SafetyState.
#[local] Open Scope mdl_scope.
#[local] Open Scope thread_scope.

Definition motion_type (operation : ArticoreRuntimeOperation) : Z :=
  match operation with
  | OPERATION_MOVE_LINEAR => 2
  | OPERATION_MOVE_CIRCULAR => 3
  | _ => 0
  end.

Record NativeTrajectorySample := {
  sa_active : bool;
  sa_motion_id : Z;
  sa_operation : ArticoreRuntimeOperation;
  sa_positions : list f32;
  sa_velocities : list f32;
  sa_accelerations : list f32
}.

Definition no_TrajectorySample : NativeTrajectorySample :=
  Build_NativeTrajectorySample false 0 OPERATION_NONE [] [] [].

(** [motion_status_locked]. *)
Definition motion_status_locked (t : TrajectoryControl) : ArticoreMotionStatus :=
  {| mo_motion_id := tc_id t; mo_motion_type := motion_type (tc_operation t);
     mo_state := tc_state t; mo_active_segment := tc_active_segment t;
     mo_waypoint_count := tc_waypoint_count t; mo_elapsed_s := tc_elapsed_s t;
     mo_duration_s := tc_duration_s t;
     mo_progress :=
       if f64_lt f64_zero (tc_duration_s t)
       then f32_of_f64 (f64_clamp (f64_div (tc_elapsed_s t) (tc_duration_s t)) f64_zero f64_one)
       else f32_zero;
     mo_error := tc_error t |}.

(** [trajectory_final_sample_locked]: the end of the last segment, at rest. *)
Definition trajectory_final_sample_locked (t : TrajectoryControl) : NativeTrajectorySample :=
  match last (tc_segments t) with
  | Some segment =>
      let coefficients := ts_coefficients segment in
      if (length (tc_joints t) =? 0)%nat ||
         negb (length coefficients =? length (tc_joints t))%nat then no_TrajectorySample
      else
        {| sa_active := true; sa_motion_id := tc_id t; sa_operation := tc_operation t;
           sa_positions := map (fun c => f32_of_f64 (sample_polynomial c f64_one)) coefficients;
           sa_velocities := replicate (length coefficients) f32_zero;
           sa_accelerations := replicate (length coefficients) f32_zero |}
  | None => no_TrajectorySample
  end.

Definition history_capacity : nat := 128.

(** [archive_trajectory_locked]. *)
Definition archive_trajectory_locked (t : TrajectoryControl)
    (history : list ArticoreMotionStatus) : list ArticoreMotionStatus :=
  if tc_id t =? 0 then history
  else
    let history := history ++ [motion_status_locked t] in
    drop (length history - history_capacity) history.

(** [activate_trajectory_locked]: the motion as it starts. *)
Definition activated (t : TrajectoryControl) (now : Z) : TrajectoryControl :=
  let first := match tc_segments t with seg :: _ => ts_coefficients seg | [] => [] end in
  let pv := bool_decide (tc_execution t = TrajectoryPv) in
  let initial := map (fun c => f32_of_f64 (sample_polynomial c f64_zero)) first in
  t <| tc_state := MOTION_RUNNING |> <| tc_active_segment := 0 |> <| tc_elapsed_s := f64_zero |>
    <| tc_started_at := now |> <| tc_tracking_updated_at := now |>
    <| tc_tracking_pause_started_at := 0 |> <| tc_settling_started_at := 0 |>
    <| tc_settling_stable_started_at := 0 |> <| tc_hold_unstable_started_at := 0 |>
    <| tc_settled_feedback_samples := 0 |> <| tc_settling_feedback_initialized := false |>
    <| tc_stationary_hold_active := false |> <| tc_final_hold_limit_active := false |>
    <| tc_final_hold_limit_mask := 0 |> <| tc_tracking_time_scale := f32_one |>
    <| tc_tracking_position_error := f32_zero |> <| tc_tracking_feedback_valid := false |>
    <| tc_cartesian_reference_updated_elapsed_s := f64_zero |>
    <| tc_cartesian_reference_positions := [] |> <| tc_trajectory_pv_updated_at := now |>
    <| tc_trajectory_pv_reference_positions := if pv then initial else [] |>
    <| tc_trajectory_pv_reference_velocities :=
         if pv then replicate (length first) f32_zero else [] |>
    <| tc_trajectory_pv_command_positions := if pv then initial else [] |>
    <| tc_tracking_worst_role := ""%string |>
    <| tc_approach_complete := tc_approach_segment_count t =? 0 |>
    <| tc_error := ""%string |>.

(** A queued motion that is dropped. *)
Definition cancelled (error : string) (t : TrajectoryControl) : TrajectoryControl :=
  t <| tc_state := MOTION_CANCELLED |> <| tc_error := error |>.

Definition archive_all (l : list TrajectoryControl) (history : list ArticoreMotionStatus) :
    list ArticoreMotionStatus :=
  fold_left (fun h t => archive_trajectory_locked t h) l history.

(** The running motion, or the one that completed last, counts as active. *)
Definition motion_active (t : TrajectoryControl) : bool :=
  match tc_state t with MOTION_RUNNING | MOTION_COMPLETED => true | _ => false end.

(** A persistent hold: no velocity and no feed-forward. *)
Definition stationary_mit (c : ArticoreMitCommand) : ArticoreMitCommand :=
  c <| mit_target_velocity := f32_zero |> <| mit_feedforward_torque := f32_zero |>.

Definition hold_mailbox (mb : ArmMailbox) : ArmMailbox :=
  if mb_valid mb then
    mb <| mb_user_command := true |> <| mb_lifetime := COMMAND_HOLD_UNTIL_REPLACED |>
       <| mb_mit ::= map stationary_mit |>
  else mb.

(** ** Detaching a queued motion from its neighbours *)

(** The time the successor needs from where the predecessor ends. *)
Definition approach_duration (mode : ControlMode) (rebound : TrajectoryControl)
    (positions : list f32) (first : TrajectorySegment) : f64 :=
  let n z := f64_of_Z z in
  let pv := bool_decide (tc_execution rebound = TrajectoryPv) in
  fold_left (fun duration x =>
    let '(joint, (from, c)) := x in
    let target := sample_polynomial c f64_zero in
    let step := f64_abs (f64_sub target (f64_of_f32 from)) in
    let limit := f64_of_f32 (tj_velocity_limit joint) in
    let limit :=
      if pv then f64_min limit (f64_of_f32 (tc_pv_reference_velocity rebound))
      else if f32_gt (tj_pv_velocity_limit joint) f32_zero
      then f64_min limit (f64_of_f32 (tj_pv_velocity_limit joint)) else limit in
    let gain := if bool_decide (mode = ModeMit) then f64_lit 15 8 else f64_one in
    let duration := f64_max duration
      (f64_div (f64_mul gain step) (f64_max (f64_lit 1 100) limit)) in
    f64_max duration
      (f64_sqrt (f64_div (f64_mul (n 8) step)
         (f64_max (f64_lit 1 100)
            (f64_of_f32 (if pv then tc_pv_reference_acceleration rebound
                         else tj_acceleration_limit joint))))))
    (combine (tc_joints rebound) (combine positions (ts_coefficients first))) (f64_lit 1 10).

Definition approach_segment (rebound : TrajectoryControl) (positions : list f32)
    (first : TrajectorySegment) (duration : f64) : TrajectorySegment :=
  let d0 := ts_duration_s first in
  {| ts_start_s := f64_zero; ts_duration_s := duration;
     ts_coefficients := map (fun x : f32 * list f64 =>
       let '(from, c) := x in
       let target := sample_polynomial c f64_zero in
       if bool_decide (tc_execution rebound = TrajectoryPv)
       then sampled_pv_coefficients (f64_of_f32 from) target
       else quintic_coefficients (f64_of_f32 from) f64_zero f64_zero target
              (sample_velocity c f64_zero d0) (sample_acceleration c f64_zero d0) duration)
       (combine positions (ts_coefficients first)) |}.

(** The successor with an approach in front, or what is thrown. *)
Definition rebind (mode : ControlMode) (predecessor : NativeTrajectorySample)
    (successor : TrajectoryControl) : exn + TrajectoryControl :=
  match tc_segments successor with
  | first :: _ =>
      if sa_active predecessor &&
         (length (sa_positions predecessor) =? length (tc_joints successor))%nat then
        let positions := sa_positions predecessor in
        let duration := approach_duration mode successor positions first in
        let approach := approach_segment successor positions first duration in
        match validate_segment_extrema duration (ts_coefficients approach) (tc_joints successor)
                (replicate (length (tc_joints successor)) 0) 0 true with
        | Some e => inl e
        | None => inr (successor
            <| tc_segments ::= fun l => approach ::
                 map (fun seg => Build_TrajectorySegment (f64_add (ts_start_s seg) duration)
                                   (ts_duration_s seg) (ts_coefficients seg)) l |>
            <| tc_duration_s ::= fun d => f64_add d duration |>
            <| tc_reference_duration_s ::= fun d => f64_add d duration |>
            <| tc_approach_duration_s ::= fun d => f64_add d duration |>
            <| tc_approach_deadline_s ::= fun d =>
                 if f64_lt f64_zero d then f64_add d duration else d |>
            <| tc_approach_segment_count ::= u32_succ |>
            <| tc_waypoint_count ::= u32_succ |>)
        end
      else inl (RuntimeError
        "queued motion cannot be safely detached from its FIFO neighbors")
  | [] => inl (RuntimeError
        "queued motion cannot be safely detached from its FIFO neighbors")
  end.

(** The queue without the motion [id], the motion itself, or what is thrown;
    [previous] is the motion in front. *)
Fixpoint detach (mode : ControlMode) (id : Z) (previous : TrajectoryControl)
    (queue : list TrajectoryControl) :
    option (exn + (list TrajectoryControl * TrajectoryControl)) :=
  match queue with
  | [] => None
  | t :: rest =>
      if tc_id t =? id then
        match rest with
        | [] => Some (inr ([], t))
        | successor :: tail =>
            match rebind mode (trajectory_final_sample_locked previous) successor with
            | inl e => Some (inl e)
            | inr rebound => Some (inr (rebound :: tail, t))
            end
        end
      else
        match detach mode id t rest with
        | Some (inr (rest', removed)) => Some (inr (t :: rest', removed))
        | r => r
        end
  end.

Section Operations.
Context {B : Type} `{!MotorBackend B}.

(** [terminate_trajectory_locked(state, error)]. *)
Definition terminate_trajectory_locked (state : ArticoreMotionState) (error : string)
    (s : Safety B) : Safety B :=
  let active := motion_active (rt_trajectory s) in
  let dropped := map (cancelled ("queued motion cancelled: " ++ error)%string) (rt_queue s) in
  let s := s <| rt_trajectory ::= fun t =>
                  if active then t <| tc_state := state |> <| tc_error := error |> else t |>
             <| rt_history ::= archive_all dropped |> <| rt_queue := [] |> in
  if negb active then s
  else
    s <| rt_operation ::= fun o =>
           if bool_decide (state = MOTION_FAULT) then
             Build_LastOperation (tc_operation (rt_trajectory s)) OPERATION_FEEDBACK error []
           else o |>
      <| rt_mailbox ::= hold_mailbox |>.

(** [fault_trajectory(error)]. *)
Definition fault_trajectory (error : string) : Rt (B := B) unit :=
  write (fun s : Safety B =>
    let s := terminate_trajectory_locked MOTION_FAULT error s in
    s <| rt_operation :=
           Build_LastOperation (tc_operation (rt_trajectory s)) OPERATION_MOTOR_COMMAND error [] |>).

(** [cancel_motion(motion_id)], under both mutexes. *)
Definition cancel_motion_locked (motion_id : Z) (s : Safety B) : option exn * Safety B :=
  if tc_id (rt_trajectory s) =? motion_id then
    (None, if bool_decide (tc_state (rt_trajectory s) = MOTION_RUNNING)
           then terminate_trajectory_locked MOTION_CANCELLED "motion cancelled" s else s)
  else
    match detach (mode_ (rt_core s)) motion_id (rt_trajectory s) (rt_queue s) with
    | Some (inl e) => (Some e, s)
    | Some (inr (queue, t)) =>
        (None, s <| rt_queue := queue |>
                 <| rt_history ::=
                      archive_trajectory_locked (cancelled "queued motion cancelled" t) |>)
    | None =>
        (if existsb (fun m => mo_motion_id m =? motion_id) (rt_history s) then None
         else Some (InvalidArgument "motion id is not available"), s)
    end.

Definition rethrow (o : option exn) : Rt (B := B) unit :=
  match o with Some e => pthrow e | None => pret tt end.

Definition cancel_motion (who : nat) (motion_id : Z) : Rt (B := B) unit :=
  if motion_id =? 0 then pthrow (InvalidArgument "motion id must be non-zero")
  else with_command who (do o <- act (cancel_motion_locked motion_id); rethrow o).

Definition cancel_all_motions (who : nat) : Rt (B := B) unit :=
  with_command who
    (write (terminate_trajectory_locked MOTION_CANCELLED "all motions cancelled")).

(** [motion_status()] and [motion_status(motion_id)]. *)
Definition motion_status : Rt (B := B) ArticoreMotionStatus :=
  read (fun s : Safety B => motion_status_locked (rt_trajectory s)).

Definition unknown_motion (motion_id : Z) : ArticoreMotionStatus :=
  Build_ArticoreMotionStatus motion_id 0 MOTION_IDLE 0 0 f64_zero f64_zero f32_zero
    "motion id is not available".

Definition find_status (motion_id : Z) (s : Safety B) : ArticoreMotionStatus :=
  if tc_id (rt_trajectory s) =? motion_id then motion_status_locked (rt_trajectory s)
  else
    match find (fun t => tc_id t =? motion_id) (rt_queue s) with
    | Some t => motion_status_locked t
    | None =>
        default (unknown_motion motion_id)
          (find (fun m => mo_motion_id m =? motion_id) (rev (rt_history s)))
    end.

Definition motion_status_of (motion_id : Z) : Rt (B := B) ArticoreMotionStatus :=
  read (find_status motion_id).

(** [motion_arrived()]. *)
Definition motion_arrived : Rt (B := B) bool :=
  read (fun s : Safety B =>
    match rt_queue s, tc_state (rt_trajectory s) with
    | [], (MOTION_IDLE | MOTION_COMPLETED) => true
    | _, _ => false
    end).

End Operations.
