(* ===== verification/Gripper.v ===== *)
(** * Grippers: profiles, protection and commands

    [runtime/src/runtime_gripper.cpp] and [gripper_product_profiles.cpp].  The
    protection of one gripper in one control cycle is the function
    [gripper_cycle]; the operations that loop over the motors and talk to the
    backend are programs.  All of them run under [command_mutex_], which the
    callers of the [_locked] operations hold. *)

From Stdlib Require Import String.
From S2P Require Import Prelude Float32 FloatOrder RuntimeTypes Threads NativeTypes SafetyState.
#[local] Open Scope mdl_scope.
#[local] Open Scope thread_scope.

(** ** Openings and profiles *)

Definition kMaximumMitDamping : f32 := f32_of_Z 5.

Definition clamp_gripper_damping (damping : f32) : f32 :=
  f32_clamp damping f32_zero kMaximumMitDamping.

Definition clamp_opening (opening : f32) : f32 := f32_clamp opening f32_zero (f32_of_Z 1000).

Definition opening_to_position (m : MotorRecord) (opening : f32) : f32 :=
  let d := descriptor m in
  let ratio := f32_div (clamp_opening opening) (f32_of_Z 1000) in
  f32_add (d_closed_position d)
    (f32_mul (f32_sub (d_open_position d) (d_closed_position d)) ratio).

Definition position_to_opening (m : MotorRecord) (position : f32) : f32 :=
  let d := descriptor m in
  let range := f32_sub (d_open_position d) (d_closed_position d) in
  if SFeqb range f32_zero then f32_zero
  else clamp_opening
         (f32_div (f32_mul (f32_of_Z 1000) (f32_sub position (d_closed_position d))) range).

(** The profile of the selected force, or the exception. *)
Definition active_gripper_profile (m : MotorRecord) : exn + GripperForceProfile :=
  match force_profiles m !! force_level m with
  | Some profile => inr profile
  | None => inl (RuntimeError (name_of m ++ ": active gripper force profile is unavailable"))
  end.

Definition gripper_gain_scale (m : MotorRecord) : f32 :=
  if bool_decide (gripper_mode m = GRIPPER_MODE_DIRECT) &&
     negb (force_level m =? GRIPPER_STRENGTH_MIN)
  then f32_of_Z 10 else f32_of_Z 1.

(** [protection_enabled] of the control cycle and of the hold. *)
Definition protection_enabled (m : MotorRecord) : bool :=
  bool_decide (gripper_mode m = GRIPPER_MODE_PROTECTED) &&
  negb (force_level m =? GRIPPER_STRENGTH_MIN).

Record GripperForceCalibration := {
  fc_contact_torque : f32; fc_overload_torque : f32; fc_moving_kp : f32;
  fc_moving_kd : f32; fc_hold_kp : f32; fc_hold_kd : f32
}.

Record GripperProductProfile := {
  gp_id : string;
  gp_open_position : f32;
  gp_closed_position : f32;
  gp_max_speed : f32;
  gp_motion_window_ms : Z;
  gp_stall_movement : f32;
  gp_min_position_error : f32;
  gp_contact_hold_ms : Z;
  gp_overload_hold_ms : Z;
  gp_hold_offset : f32;
  gp_retreat_distance : f32;
  gp_retreat_retry_ms : Z;
  gp_max_step_interval_ms : Z;
  gp_fault_action : ArticoreGripperFaultAction;
  gp_force_levels : list GripperForceCalibration
}.

Definition calibration (a b c d e f : Z) : GripperForceCalibration :=
  Build_GripperForceCalibration (f32_lit a 100) (f32_lit b 100) (f32_lit c 100)
    (f32_lit d 1000) (f32_lit e 100) (f32_lit f 1000).

Definition kYunyiGripperV1 : GripperProductProfile := {|
  gp_id := "yunyi_gripper_v1"; gp_open_position := f32_lit 264 100;
  gp_closed_position := f32_zero; gp_max_speed := f32_of_Z 10; gp_motion_window_ms := 200;
  gp_stall_movement := f32_lit 1 100; gp_min_position_error := f32_lit 5 100;
  gp_contact_hold_ms := 200; gp_overload_hold_ms := 50; gp_hold_offset := f32_lit 8 100;
  gp_retreat_distance := f32_lit 15 100; gp_retreat_retry_ms := 100;
  gp_max_step_interval_ms := 50; gp_fault_action := GRIPPER_FAULT_HOLD;
  gp_force_levels :=
    [calibration 100 200 600 300 200 200; calibration 115 225 650 350 250 275;
     calibration 130 250 700 400 300 350; calibration 145 275 750 450 350 425;
     calibration 160 300 800 500 400 500; calibration 176 320 880 560 440 540;
     calibration 192 340 960 620 480 580; calibration 208 360 1040 680 520 620;
     calibration 224 380 1120 740 560 660; calibration 240 400 1200 800 600 700]
|}.

Definition find_builtin_gripper_product_profile (profile_id : string) :
    option GripperProductProfile :=
  if bool_decide (profile_id = gp_id kYunyiGripperV1) then Some kYunyiGripperV1 else None.

(** ** Configuration *)

(** [profile_id] is [None] where the array holds no terminator.  A null pointer
    to the bindings or profiles is the empty list. *)
Record ArticoreGripperProductBinding := { gb_motor : handle; gb_profile_id : option string }.

Record ArticoreGripperForceProfile := {
  gfp_motor : handle;
  gfp_force_level : Z;
  gfp_profile : GripperForceProfile
}.

(** [std::numeric_limits<float>::max()]. *)
Definition f32_largest : f32 := S754_finite false 16777215 104.

(** The profile of [ARTICORE_GRIPPER_STRENGTH_MIN]: no force at all. *)
Definition minimum_strength : GripperForceProfile :=
  Build_GripperForceProfile f32_largest f32_largest f32_zero f32_zero f32_zero f32_zero.

Definition calibrated_profile (c : GripperForceCalibration) : GripperForceProfile :=
  Build_GripperForceProfile (fc_contact_torque c) (fc_overload_torque c) (fc_moving_kp c)
    (fc_moving_kd c) (fc_hold_kp c) (fc_hold_kd c).

(** [emplace] of the levels from [level] on: the first entry of a key stays. *)
Fixpoint emplace_levels (level : Z) (l : list GripperForceCalibration)
    (profiles : gmap Z GripperForceProfile) : gmap Z GripperForceProfile :=
  match l with
  | [] => profiles
  | c :: rest =>
      emplace_levels (level + 1) rest
        (match profiles !! level with
         | Some _ => profiles
         | None => <[level := calibrated_profile c]> profiles
         end)
  end.

Definition product_descriptor (p : GripperProductProfile) (d : ArticoreMotorDescriptor) :
    ArticoreMotorDescriptor :=
  let normal := default (calibration 0 0 0 0 0 0)
    (gp_force_levels p !! Z.to_nat (GRIPPER_FORCE_DEFAULT - GRIPPER_FORCE_MIN)) in
  {| d_motor := d_motor d; d_side := d_side d; d_is_gripper := d_is_gripper d;
     d_name := d_name d; d_safe_kp := fc_hold_kp normal; d_safe_kd := fc_hold_kd normal;
     d_overload_torque := fc_overload_torque normal;
     d_retreat_distance := gp_retreat_distance p; d_contact_torque := fc_contact_torque normal;
     d_motion_window_ms := gp_motion_window_ms p; d_stall_movement := gp_stall_movement p;
     d_min_position_error := gp_min_position_error p;
     d_contact_hold_ms := gp_contact_hold_ms p; d_overload_hold_ms := gp_overload_hold_ms p;
     d_hold_offset := gp_hold_offset p; d_retreat_retry_ms := gp_retreat_retry_ms p;
     d_open_position := gp_open_position p; d_closed_position := gp_closed_position p;
     d_normal_kp := fc_moving_kp normal; d_normal_kd := fc_moving_kd normal;
     d_close_speed := gp_max_speed p; d_max_step_interval_ms := gp_max_step_interval_ms p;
     d_closing_direction :=
       if f32_gt (gp_closed_position p) (gp_open_position p) then f32_of_Z 1 else f32_of_Z (-1);
     d_lower_position := f32_min (gp_closed_position p) (gp_open_position p);
     d_upper_position := f32_max (gp_closed_position p) (gp_open_position p) |}.

Definition bind_product (p : GripperProductProfile) (profile_id : string) (m : MotorRecord) :
    MotorRecord :=
  m <| descriptor := product_descriptor p (descriptor m) |>
    <| force_profiles :=
         emplace_levels GRIPPER_FORCE_MIN (gp_force_levels p)
           {[GRIPPER_STRENGTH_MIN := minimum_strength]} |>
    <| force_level := GRIPPER_FORCE_DEFAULT |> <| command_speed := gp_max_speed p |>
    <| gripper_product_profile_id := profile_id |> <| gripper_product_profile_bound := true |>.

(** [std::find_if] of the gripper with a handle, and [std::count_if] of them. *)
Definition find_gripper (motors : list MotorRecord) (motor : handle) : option MotorRecord :=
  find (fun m => is_gripper m && bool_decide (motor_of m = motor)) motors.
Definition gripper_count (motors : list MotorRecord) : nat :=
  length (List.filter is_gripper motors).

(** The validation loop: the bindings resolved, or what is thrown. *)
Fixpoint resolve_bindings (motors : list MotorRecord) (unique : gset handle)
    (action : option ArticoreGripperFaultAction) (l : list ArticoreGripperProductBinding) :
    exn + (list (handle * GripperProductProfile * string) * option ArticoreGripperFaultAction) :=
  match l with
  | [] => inr ([], action)
  | b :: rest =>
      match gb_profile_id b with
      | None => inl (InvalidArgument "invalid gripper product binding")
      | Some id =>
          if (gb_motor b =? 0)%nat || str_empty id || bool_decide (gb_motor b ∈ unique)
          then inl (InvalidArgument "invalid gripper product binding")
          else
            match find_builtin_gripper_product_profile id with
            | None => inl (InvalidArgument ("unknown built-in gripper profile_id: " ++ id))
            | Some p =>
                if bool_decide (find_gripper motors (gb_motor b) = None) then
                  inl (InvalidArgument
                    "gripper product binding references an unknown gripper motor")
                else if bool_decide (action <> None /\ action <> Some (gp_fault_action p)) then
                  inl (InvalidArgument
                    "active gripper product profiles have incompatible fault actions")
                else
                  match resolve_bindings motors ({[gb_motor b]} ∪ unique)
                          (Some (gp_fault_action p)) rest with
                  | inl e => inl e
                  | inr (pending, action) => inr ((gb_motor b, p, id) :: pending, action)
                  end
            end
      end
  end.

Definition bind_all (pending : list (handle * GripperProductProfile * string)) :
    list MotorRecord -> list MotorRecord :=
  fun motors => fold_left (fun l b => update_motor b.1.1 (bind_product b.1.2 b.2) l)
                  pending motors.

(** The force profiles accepted by [configure_gripper_force_profiles]. *)
Definition force_profile_valid (motors : list MotorRecord) (v : ArticoreGripperForceProfile) :
    bool :=
  let p := gfp_profile v in
  negb (bool_decide (find_gripper motors (gfp_motor v) = None)) &&
  (GRIPPER_FORCE_MIN <=? gfp_force_level v) && (gfp_force_level v <=? GRIPPER_FORCE_MAX) &&
  f32_isfinite (gf_contact_torque p) && negb (f32_lt (gf_contact_torque p) f32_zero) &&
  f32_isfinite (gf_overload_torque p) &&
  negb (f32_le (gf_overload_torque p) (gf_contact_torque p)) &&
  f32_isfinite (gf_moving_kp p) && negb (f32_le (gf_moving_kp p) f32_zero) &&
  f32_isfinite (gf_moving_kd p) && negb (f32_lt (gf_moving_kd p) f32_zero) &&
  f32_isfinite (gf_hold_kp p) && negb (f32_le (gf_hold_kp p) f32_zero) &&
  f32_isfinite (gf_hold_kd p) && negb (f32_lt (gf_hold_kd p) f32_zero).

Definition kForceLevelCount : nat := 10.

Fixpoint collect_profiles (motors : list MotorRecord)
    (configured : gmap handle (gmap Z GripperForceProfile))
    (l : list ArticoreGripperForceProfile) : exn + gmap handle (gmap Z GripperForceProfile) :=
  match l with
  | [] => inr configured
  | v :: rest =>
      if negb (force_profile_valid motors v) then
        inl (InvalidArgument "invalid gripper force profile")
      else
        let levels := default ∅ (configured !! gfp_motor v) in
        match levels !! gfp_force_level v with
        | Some _ => inl (InvalidArgument "duplicate gripper force profile")
        | None =>
            collect_profiles motors
              (<[gfp_motor v := <[gfp_force_level v := gfp_profile v]> levels]> configured) rest
        end
  end.

(** The loop that installs them; the motors before the one for which it throws
    are changed. *)
Fixpoint install_profiles (configured : gmap handle (gmap Z GripperForceProfile))
    (motors : list MotorRecord) : option exn * list MotorRecord :=
  match motors with
  | [] => (None, [])
  | m :: rest =>
      if negb (is_gripper m) then
        let '(e, rest') := install_profiles configured rest in (e, m :: rest')
      else
        match configured !! motor_of m with
        | Some levels =>
            if (size levels =? kForceLevelCount)%nat then
              let m' := m
                <| force_profiles :=
                     match levels !! GRIPPER_STRENGTH_MIN with
                     | Some _ => levels
                     | None => <[GRIPPER_STRENGTH_MIN := minimum_strength]> levels
                     end |>
                <| force_level := GRIPPER_FORCE_DEFAULT |> in
              let '(e, rest') := install_profiles configured rest in (e, m' :: rest')
            else (Some (InvalidArgument
              "force profiles must cover every required level for every active gripper"),
              motors)
        | None => (Some (InvalidArgument
              "force profiles must cover every required level for every active gripper"),
              motors)
        end
  end.

(** ** One control cycle of one gripper *)

(** [while (samples.size() > 1 && samples[1].first <= limit) pop_front()]. *)
Fixpoint trim_samples (limit : Z) (samples : list (Z * f32)) : list (Z * f32) :=
  match samples with
  | _ :: ((second :: _) as rest) =>
      if fst second <=? limit then trim_samples limit rest else samples
  | _ => samples
  end.

(** [std::minmax_element] by position: the difference of the extremes. *)
Definition samples_range (samples : list (Z * f32)) : f32 :=
  match samples with
  | [] => f32_zero
  | (_, p) :: rest =>
      let lo := fold_left (fun a s => if f32_lt (snd s) a then snd s else a) rest p in
      let hi := fold_left (fun a s => if f32_lt (snd s) a then a else snd s) rest p in
      f32_sub hi lo
  end.

(** A nanosecond count as [std::chrono::duration<float>], in seconds. *)
Definition seconds_of_ns (ns : Z) : f32 := f32_div (f32_of_Z ns) (f32_of_Z 1000000000).
Definition seconds_of_ms (ms : Z) : f32 := f32_div (f32_of_Z ms) (f32_of_Z 1000).

Section Cycle.
Context (now : Z) (command_scale : f32).

(** The step length: zero in the first cycle, bounded in every other. *)
Definition cycle_dt (m : MotorRecord) : f32 :=
  if last_gripper_update m =? 0 then f32_zero
  else f32_min (seconds_of_ns (now - last_gripper_update m))
               (seconds_of_ms (d_max_step_interval_ms (descriptor m))).

(** What the feedback leaves in the record before the state machine runs. *)
Definition observe (state : ArticoreMotorState) (m : MotorRecord) : MotorRecord :=
  let window := milliseconds_ns (d_motion_window_ms (descriptor m)) in
  let m := m <| last_position := ams_pos state |> <| has_position := true |>
             <| last_torque := ams_torq state |> <| last_gripper_update := now |> in
  if protection_enabled m then
    m <| motion_samples ::=
           fun l => trim_samples (now - window) (l ++ [(now, ams_pos state)]) |>
  else
    m <| contact_detected := false |> <| stalled := false |> <| overload := false |>
      <| protective_target_active := false |> <| retreat_active := false |>
      <| contact_started_at := 0 |> <| overload_started_at := 0 |> <| motion_samples := [] |>
      <| gripper_state ::= fun g =>
           match g with
           | GRIPPER_CONTACT | GRIPPER_HOLDING | GRIPPER_OVERLOAD_RETREAT => GRIPPER_MOVING
           | _ => g
           end |>.

(** Back off from an overload: by [retreat_distance] from [base], kept inside
    the limits of the gripper. *)
Definition retreat_position (d : ArticoreMotorDescriptor) (base : f32) : f32 :=
  f32_clamp (f32_sub base (f32_mul (d_closing_direction d) (d_retreat_distance d)))
    (d_lower_position d) (d_upper_position d).

(** The lambda [update_overload]. *)
Definition update_overload (force : GripperForceProfile) (state : ArticoreMotorState)
    (m : MotorRecord) : MotorRecord :=
  let d := descriptor m in
  let over := f32_ge (f32_abs (ams_torq state)) (gf_overload_torque force) in
  let m := m <| overload := over |> in
  if negb over then m <| overload_started_at := 0 |>
  else
    let m := if overload_started_at m =? 0 then m <| overload_started_at := now |> else m in
    let sustained := milliseconds_ns (d_overload_hold_ms d) <=? now - overload_started_at m in
    let retry_due := (last_retreat_at m =? 0) ||
                     (milliseconds_ns (d_retreat_retry_ms d) <=? now - last_retreat_at m) in
    if negb sustained || negb retry_due then m
    else
      let base := if retreat_active m then retreat_target m else ams_pos state in
      let target := retreat_position d base in
      m <| retreat_target := target |> <| command_position := target |>
        <| retreat_active := true |> <| protective_target_active := true |>
        <| protective_target := target |> <| gripper_state := GRIPPER_OVERLOAD_RETREAT |>
        <| last_retreat_at := now |> <| contact_detected := true |> <| stalled := true |>.

(** The two state changes at the start of a protected cycle. *)
Definition settle_protection (state : ArticoreMotorState) (m : MotorRecord) : MotorRecord :=
  let d := descriptor m in
  let m := if protection_enabled m && bool_decide (gripper_state m = GRIPPER_CONTACT)
           then m <| gripper_state := GRIPPER_HOLDING |> else m in
  if protection_enabled m && bool_decide (gripper_state m = GRIPPER_OVERLOAD_RETREAT) &&
     (f32_le (f32_abs (f32_sub (ams_pos state) (retreat_target m))) (d_min_position_error d) ||
      (milliseconds_ns (d_retreat_retry_ms d) <=? now - last_retreat_at m))
  then m <| gripper_state := GRIPPER_HOLDING |> else m.

(** Evidence of an object between the jaws: closing against torque without
    moving over a full window, away from the commanded position. *)
Definition contact_evidence (force : GripperForceProfile) (state : ArticoreMotorState)
    (closing : bool) (m : MotorRecord) : bool :=
  let d := descriptor m in
  let window := milliseconds_ns (d_motion_window_ms d) in
  protection_enabled m && closing &&
  f32_ge (f32_abs (ams_torq state)) (gf_contact_torque force) &&
  (2 <=? Z.of_nat (length (motion_samples m))) &&
  (match head (motion_samples m), last (motion_samples m) with
   | Some first, Some latest => window <=? fst latest - fst first
   | _, _ => false
   end) &&
  f32_ge (f32_abs (f32_sub (command_position m) (ams_pos state))) (d_min_position_error d) &&
  f32_le (samples_range (motion_samples m)) (d_stall_movement d).

(** One cycle in the state MOVING. *)
Definition move (force : GripperForceProfile) (state : ArticoreMotorState) (dt : f32)
    (m : MotorRecord) : MotorRecord :=
  let d := descriptor m in
  let closing := f32_gt (f32_mul (f32_sub (requested_position m) (ams_pos state))
                                 (d_closing_direction d)) (f32_lit 1 1000000) in
  let step := f32_mul (f32_mul (command_speed m) command_scale) dt in
  let delta := f32_sub (requested_position m) (command_position m) in
  let m := m <| command_position ::=
                  fun c => f32_add c (f32_copysign (f32_min (f32_abs delta) step) delta) |> in
  let m := if closing then m
           else m <| contact_started_at := 0 |> <| overload_started_at := 0 |>
                  <| motion_samples := [] |> in
  let m := m <| overload := protection_enabled m &&
                  f32_ge (f32_abs (ams_torq state)) (gf_overload_torque force) |> in
  let m :=
    if contact_evidence force state closing m then
      let m := if contact_started_at m =? 0 then m <| contact_started_at := now |> else m in
      if milliseconds_ns (d_contact_hold_ms d) <=? now - contact_started_at m then
        let target := f32_clamp
          (f32_add (ams_pos state) (f32_mul (d_closing_direction d) (d_hold_offset d)))
          (d_lower_position d) (d_upper_position d) in
        m <| protective_target := target |> <| command_position := target |>
          <| protective_target_active := true |> <| contact_detected := true |>
          <| stalled := true |> <| gripper_state := GRIPPER_CONTACT |>
      else m
    else m <| contact_started_at := 0 |> in
  if bool_decide (gripper_state m = GRIPPER_MOVING) &&
     f32_le (f32_abs (f32_sub (requested_position m) (ams_pos state))) (d_min_position_error d)
  then m <| gripper_state := GRIPPER_IDLE |> else m.

(** The state machine of one cycle. *)
Definition gripper_machine (force : GripperForceProfile) (state : ArticoreMotorState) (dt : f32)
    (m : MotorRecord) : MotorRecord :=
  let m := settle_protection state m in
  match gripper_state m with
  | GRIPPER_MOVING => move force state dt m
  | GRIPPER_HOLDING => if protection_enabled m then update_overload force state m else m
  | GRIPPER_IDLE => m <| command_position := requested_position m |>
  | _ => m
  end.

(** Low gains while an object is held. *)
Definition low_gain (m : MotorRecord) : bool :=
  protection_enabled m &&
  match gripper_state m with
  | GRIPPER_CONTACT | GRIPPER_HOLDING | GRIPPER_OVERLOAD_RETREAT => true
  | _ => false
  end.

Definition gripper_command (force : GripperForceProfile) (m : MotorRecord) : ArticoreMitCommand :=
  let gain := gripper_gain_scale m in
  {| mit_motor := motor_of m; mit_target_position := command_position m;
     mit_target_velocity := f32_zero;
     mit_stiffness :=
       f32_mul (f32_mul (if low_gain m then gf_hold_kp force else gf_moving_kp force) gain)
         command_scale;
     mit_damping :=
       clamp_gripper_damping
         (f32_mul (f32_mul (if low_gain m then gf_hold_kd force else gf_moving_kd force) gain)
            command_scale);
     mit_feedforward_torque := f32_zero |}.

(** A gripper with live feedback in one cycle: the record afterwards and either
    the reason why the whole cycle fails or the command to send. *)
Definition gripper_cycle (age : Z) (state : ArticoreMotorState) (m : MotorRecord) :
    MotorRecord * (exn + (string + ArticoreMitCommand)) :=
  let m := m <| mr_consecutive_feedback_failures := 0 |> <| feedback_age_ns := age |> in
  if (1 <? ams_status_code state) || (ams_status_code state =? 0) then
    let reason := if ams_status_code state =? 0 then "gripper unexpectedly disabled"
                  else ("gripper motor fault status " ++ to_string (ams_status_code state))%string in
    let m := m <| gripper_state := GRIPPER_FAULT |> <| gripper_fault_reason := reason |> in
    (m, inr (inl (name_of m ++ ": " ++ reason)%string))
  else
    match active_gripper_profile m with
    | inl e => (m, inl e)
    | inr force =>
        let dt := cycle_dt m in
        let m := gripper_machine force state dt (observe state m) in
        (m, inr (inr (gripper_command force m)))
    end.

End Cycle.


(** ** The operations over the motors *)

(** Missing feedback: the command that repeats the last one sent, with the
    gains bounded where control is scaled down. *)
Definition degraded_hold (command_scale : f32) (m : MotorRecord) (previous : ArticoreMitCommand) :
    exn + ArticoreMitCommand :=
  if f32_lt command_scale (f32_of_Z 1) then
    match active_gripper_profile m with
    | inl e => inl e
    | inr force =>
        let gain := gripper_gain_scale m in
        inr (previous
          <| mit_stiffness ::= fun k =>
               f32_min k (f32_mul (f32_mul (f32_max (gf_moving_kp force) (gf_hold_kp force)) gain)
                            command_scale) |>
          <| mit_damping ::= fun k =>
               f32_min k (clamp_gripper_damping
                 (f32_mul (f32_mul (f32_max (gf_moving_kd force) (gf_hold_kd force)) gain)
                    command_scale)) |>)
    end
  else inr previous.

(** The hold of a gripper with live feedback: the record and the command. *)
Definition hold_cycle (now : Z) (force : GripperForceProfile) (state : ArticoreMotorState)
    (m : MotorRecord) : MotorRecord :=
  let d := descriptor m in
  let protected := protection_enabled m in
  let m := m <| overload := protected &&
                  f32_ge (f32_abs (ams_torq state)) (gf_overload_torque force) |> in
  if protected && overload m then
    let m := if overload_started_at m =? 0 then m <| overload_started_at := now |> else m in
    let sustained := milliseconds_ns (d_overload_hold_ms d) <=? now - overload_started_at m in
    let retry_due := (last_retreat_at m =? 0) ||
                     (milliseconds_ns (d_retreat_retry_ms d) <=? now - last_retreat_at m) in
    if sustained && retry_due then
      let target := retreat_position d (ams_pos state) in
      m <| retreat_target := target |> <| retreat_active := true |>
        <| protective_target_active := true |> <| protective_target := target |>
        <| last_retreat_at := now |> <| gripper_state := GRIPPER_OVERLOAD_RETREAT |>
        <| contact_detected := true |> <| stalled := true |>
    else m
  else if protected then
    m <| overload_started_at := 0 |>
      <| gripper_state ::= fun g =>
           if bool_decide (g = GRIPPER_OVERLOAD_RETREAT) then GRIPPER_HOLDING else g |>
  else m.

Definition hold_command (force : GripperForceProfile) (m : MotorRecord)
    (command : ArticoreMitCommand) : ArticoreMitCommand :=
  let protected := protection_enabled m in
  let gain := gripper_gain_scale m in
  {| mit_motor := mit_motor command;
     mit_target_position :=
       if protected && retreat_active m then retreat_target m
       else if protected && protective_target_active m then protective_target m
       else mit_target_position command;
     mit_target_velocity := f32_zero;
     mit_stiffness := f32_mul (if protected then gf_hold_kp force else gf_moving_kp force) gain;
     mit_damping := clamp_gripper_damping
       (f32_mul (if protected then gf_hold_kd force else gf_moving_kd force) gain);
     mit_feedforward_torque := f32_zero |}.

Definition find_command (l : list ArticoreMitCommand) (motor : handle) :
    option ArticoreMitCommand :=
  find (fun c => bool_decide (mit_motor c = motor)) l.

Section Operations.
Context {B : Type} `{!MotorBackend B}.

(** The record of a motor at this moment; the list of motors never loses one. *)
Definition current_motor (m : MotorRecord) : Rt (B := B) MotorRecord :=
  read (fun s : Safety B => default m (find_motor (rt_motors s) (motor_of m))).

Definition change_motor (motor : handle) (f : MotorRecord -> MotorRecord) : Rt (B := B) unit :=
  write (fun s : Safety B => s <| rt_motors ::= update_motor motor f |>).

(** The members of a record are assigned one by one; what the cycle does not
    assign stays as it is by then. *)
Definition store_motor (motor : handle) (m' : MotorRecord) : Rt (B := B) unit :=
  change_motor motor (fun m =>
    m' <| descriptor := descriptor m |> <| configured_can_id := configured_can_id m |>
       <| motor_identity_configured := motor_identity_configured m |>
       <| requested_opening := requested_opening m |>
       <| requested_position := requested_position m |>
       <| requested_speed := requested_speed m |> <| command_speed := command_speed m |>
       <| force_level := force_level m |> <| gripper_mode := gripper_mode m |>
       <| force_profiles := force_profiles m |>
       <| gripper_product_profile_id := gripper_product_profile_id m |>
       <| gripper_product_profile_bound := gripper_product_profile_bound m |>
       <| has_gripper_target := has_gripper_target m |>).

Definition gripper_feedback_failure (m : MotorRecord) : MotorRecord :=
  m <| mr_consecutive_feedback_failures ::= u32_succ |>.

(** [mark_motor_faulted]. *)
Definition mark_motor_faulted (motor : handle) : Rt (B := B) unit :=
  write (fun s : Safety B =>
    match rt_roles s !! motor with
    | Some role => s <| rt_presence ::= <[role := FAULTED]> |>
    | None => s
    end).

Definition except {A} (x : exn + A) : Rt (B := B) A :=
  match x with inl e => pthrow e | inr a => pret a end.

(** A section under both mutexes that throws where the state is not
    DISCONNECTED. *)
Definition before_connect {A} (who : nat) (refusal : string)
    (f : Safety B -> (exn + A) * Safety B) : Rt (B := B) A :=
  with_command who (
    do r <- act (fun s : Safety B =>
      if bool_decide (state_ (rt_core s) = Disconnected) then f s
      else (inl (RuntimeError refusal), s));
    except r).

(** [configure_gripper_products(bindings, count)]. *)
Definition configure_gripper_products (who : nat)
    (bindings : list ArticoreGripperProductBinding) : Rt unit :=
  do motors <- read rt_motors;
  let count := gripper_count motors in
  if (count =? 0)%nat then
    if (length bindings =? 0)%nat then pret tt
    else pthrow (InvalidArgument
      "gripper product bindings were supplied without active grippers")
  else if negb (length bindings =? count)%nat then
    pthrow (InvalidArgument
      "gripper product bindings must cover every active gripper exactly once")
  else
    do p <- except (resolve_bindings motors ∅ None bindings);
    before_connect who "gripper product profiles are fixed after connect"
      (fun s : Safety B =>
         (inr tt, s <| rt_motors ::= bind_all p.1 |>
                    <| rt_config ::= fun c =>
                         match p.2 with
                         | Some action => c <| gripper_fault_action := action |>
                         | None => c
                         end |>)).

(** [configure_gripper_force_profiles(profiles, count)]. *)
Definition install_force_profiles (profiles : list ArticoreGripperForceProfile)
    (s : Safety B) : (exn + unit) * Safety B :=
  let motors := rt_motors s in
  if rt_require_profiles s &&
     existsb (fun m => is_gripper m && negb (gripper_product_profile_bound m)) motors then
    (inl (RuntimeError
      "bind built-in gripper products before applying force-profile overrides"), s)
  else if (gripper_count motors =? 0)%nat ||
     negb (length profiles =? gripper_count motors * kForceLevelCount)%nat then
    (inl (InvalidArgument
      "force profiles must contain levels 1 through 10 for every active gripper"), s)
  else
    match collect_profiles motors ∅ profiles with
    | inl e => (inl e, s)
    | inr configured =>
        let '(e, motors') := install_profiles configured motors in
        (match e with Some e => inl e | None => inr tt end, s <| rt_motors := motors' |>)
    end.

Definition configure_gripper_force_profiles (who : nat)
    (profiles : list ArticoreGripperForceProfile) : Rt unit :=
  match profiles with
  | [] => pthrow (InvalidArgument "gripper force profiles are empty")
  | _ => before_connect who "gripper force profiles are fixed after connect"
           (install_force_profiles profiles)
  end.

(** [gripper_force_level(side)]. *)
Definition gripper_force_level (side : Z) : Rt (B := B) Z :=
  if 1 <? side then pthrow (InvalidArgument "invalid gripper side")
  else
    do found <- read (fun s : Safety B =>
      find (fun m => is_gripper m && (side_of m =? side)) (rt_motors s));
    match found with
    | Some m => pret (force_level m)
    | None => pthrow (RuntimeError "requested product gripper is not installed")
    end.

(** [seed_gripper_targets_from_feedback(activate)]. *)
Definition seed_gripper (activate : bool) (seeded : list ArticoreMitCommand) (m : MotorRecord) :
    Rt (list ArticoreMitCommand) :=
  if negb (is_gripper m) then pret seeded
  else
    do state <- fetch_state (motor_of m);
    match state with
    | None => pret seeded
    | Some st =>
        let pos := ams_pos st in
        change_motor (motor_of m) (fun m =>
          m <| last_position := pos |> <| has_position := true |> <| command_position := pos |>
            <| requested_position := pos |> <| requested_opening := position_to_opening m pos |>
            <| last_torque := ams_torq st |> <| has_gripper_target := activate |>) ;;;
        do m' <- current_motor m;
        do profile <- except (active_gripper_profile m');
        pret (seeded ++ [Build_ArticoreMitCommand (motor_of m) pos f32_zero
                           (gf_hold_kp profile) (gf_hold_kd profile) f32_zero])
    end.

Definition seed_gripper_targets_from_feedback (who : nat) (activate : bool) : Rt unit :=
  with_command who (
    do motors <- read rt_motors;
    do seeded <- pfold motors (seed_gripper activate) [];
    write (fun s : Safety B => s <| rt_holds ::= fun h => h <| safe_grippers_ := seeded |> |>)).

(** One gripper of [prepare_gripper_commands_locked]: the reason of a failure,
    or the commands so far. *)
Definition prepare_gripper (now : Z) (command_scale : f32) (disabled : gset handle)
    (acc : string + list ArticoreMitCommand) (m0 : MotorRecord) :
    Rt (string + list ArticoreMitCommand) :=
  match acc with
  | inl error => pret (inl error)
  | inr commands =>
    do m <- current_motor m0;
    if negb (is_gripper m) || negb (has_gripper_target m) ||
       bool_decide (motor_of m ∈ disabled) then pret (inr commands)
    else
      do stats <- fetch_stats (motor_of m);
      do state <- (match stats with
                   | Some _ => fetch_state (motor_of m)
                   | None => pret None
                   end);
      match stats, state with
      | Some st, Some value =>
          let '(m', result) := gripper_cycle now command_scale (afs_age_ns st) value m in
          store_motor (motor_of m) m' ;;;
          do outcome <- except result;
          (match outcome with
           | inl error => mark_motor_faulted (motor_of m) ;;; pret (inl error)
           | inr command => pret (inr (commands ++ [command]))
           end)
      | _, _ =>
          change_motor (motor_of m) gripper_feedback_failure ;;;
          do previous <- read (fun s : Safety B =>
            find_command (safe_grippers_ (rt_holds s)) (motor_of m));
          (match previous with
           | Some command =>
               do held <- except (degraded_hold command_scale m command);
               pret (inr (commands ++ [held]))
           | None => pret (inr commands)
           end)
      end
  end.

(** [prepare_gripper_commands_locked]: the commands, or the error for which
    the cycle fails. *)
Definition prepare_gripper_commands_locked (now : Z) :
    Rt (string + list ArticoreMitCommand) :=
  do p <- read (fun s : Safety B =>
    (if bool_decide (state_ (rt_core s) = Degraded) then f32_lit 25 100 else f32_of_Z 1,
     rt_intentionally_disabled s));
  do motors <- read rt_motors;
  pfold motors (prepare_gripper now (fst p) (snd p)) (inr []).

(** [commit_gripper_commands_sent]. *)
Definition commit_gripper (commands : list ArticoreMitCommand) (now : Z) (s : Safety B) :
    Safety B :=
  let s := s <| rt_holds ::= fun h => h <| safe_grippers_ := commands |> |> in
  let c := rt_counters s in
  if gripper_sent_generation_ c <? gripper_command_generation_ c then
    s <| rt_counters := c <| gripper_sent_generation_ := gripper_command_generation_ c |> |>
      <| rt_timers ::= fun t =>
           if has_successful_command_ (rt_core s) then t
           else t <| last_successful_command_ := now |> |>
      <| rt_core ::= fun c =>
           let c := c <| has_successful_command_ := true |> in
           if bool_decide (state_ c = Enabled) then c <| state_ := Running |> else c |>
  else s.

Definition commit_gripper_commands_sent (commands : list ArticoreMitCommand) (now : Z) :
    Rt (B := B) unit :=
  match commands with
  | [] => pret tt
  | _ => write (commit_gripper commands now)
  end.

(** The states in which a gripper is controlled. *)
Definition gripper_control_state (c : SafetyCore) : bool :=
  negb (hardware_transition_ c) &&
  match state_ c with
  | Enabled | Running | Degraded | PartiallyEnabled => true
  | _ => false
  end.

(** [run_gripper_control_once(error)]: the error where it returns false. *)
Definition run_gripper_control_once (who : nat) : Rt (option string) :=
  with_command who (
    do active <- read (fun s : Safety B => gripper_control_state (rt_core s));
    if negb active then pret None
    else
      do now <- clock_now;
      do prepared <- prepare_gripper_commands_locked now;
      match prepared with
      | inl error => pret (Some error)
      | inr [] => pret None
      | inr commands =>
          do rc <- send_mit commands;
          if negb (rc =? 0) then
            do error <- motor_error "gripper control batch failed"; pret (Some error)
          else commit_gripper_commands_sent commands now ;;; pret None
      end).

(** One command of [send_gripper_hold_once]. *)
Definition hold_gripper (now : Z) (disabled : gset handle) (sendable : list ArticoreMitCommand)
    (command : ArticoreMitCommand) : Rt (list ArticoreMitCommand) :=
  let motor := mit_motor command in
  do found <- read (fun s : Safety B =>
    find (fun m => is_gripper m && bool_decide (motor_of m = motor)) (rt_motors s));
  match (if bool_decide (motor ∈ disabled) then None else found) with
  | None => pret sendable
  | Some m =>
    do stats <- fetch_stats motor;
    do state <- (match stats with Some _ => fetch_state motor | None => pret None end);
    match stats, state with
    | Some st, Some value =>
        change_motor motor (fun m =>
          m <| mr_consecutive_feedback_failures := 0 |> <| feedback_age_ns := afs_age_ns st |>
            <| last_position := ams_pos value |> <| last_torque := ams_torq value |>
            <| has_position := true |>) ;;;
        if (ams_status_code value =? 0) || (1 <? ams_status_code value) then
          change_motor motor (fun m =>
            m <| gripper_state := GRIPPER_FAULT |>
              <| gripper_fault_reason :=
                   if ams_status_code value =? 0 then "safe-hold gripper unexpectedly disabled"
                   else "safe-hold gripper motor fault" |>) ;;;
          mark_motor_faulted motor ;;; pret sendable
        else
          do stale <- read (fun s : Safety B =>
            u64 (feedback_max_age_ms (rt_config s) * 1000000) <? afs_age_ns st);
          (if stale then
             change_motor motor gripper_feedback_failure ;;; pret (sendable ++ [command])
           else
             do m1 <- current_motor m;
             do force <- except (active_gripper_profile m1);
             let m2 := hold_cycle now force value m1 in
             store_motor motor m2 ;;;
             pret (sendable ++ [hold_command force m2 command]))
    | _, _ => change_motor motor gripper_feedback_failure ;;; pret (sendable ++ [command])
    end
  end.

(** The commands whose motor is on one side. *)
Definition side_mit (motors : list MotorRecord) (side : Z) (l : list ArticoreMitCommand) :
    list ArticoreMitCommand :=
  filter (fun c => match find_motor motors (mit_motor c) with
                   | Some m => bool_decide (side_of m = side)
                   | None => false
                   end = true) l.

Definition channel_name (side : Z) : string := ("CH" ++ to_string side)%string.

(** The batches of a faulted runtime, one per side: what is sent on one side
    does not depend on the other.  The result is the accumulated error, with
    whether every batch was sent. *)
Definition send_side_mit (sendable : list ArticoreMitCommand) (message : string)
    (acc : bool * string) (side : Z) : Rt (bool * string) :=
  do commands <- read (fun s : Safety B => side_mit (rt_motors s) side sendable);
  match commands with
  | [] => pret acc
  | _ =>
      do rc <- send_mit commands;
      pret (if rc =? 0 then acc
            else (false, append_error (snd acc) (channel_name side ++ message)%string))
  end.

(** [send_gripper_hold_once(error)]: whether every command was sent, and the
    error. *)
Definition send_gripper_hold_once (who : nat) : Rt (bool * string) :=
  do p <- read (fun s : Safety B =>
    (safe_grippers_ (rt_holds s), rt_intentionally_disabled s, state_ (rt_core s)));
  let '(commands, disabled, hold_state) := p in
  match commands with
  | [] => pret (true, ""%string)
  | _ =>
    with_command who (
      do now <- clock_now;
      do sendable <- pfold commands (hold_gripper now disabled) [];
      match sendable with
      | [] =>
          write (fun s : Safety B => s <| rt_holds ::= fun h => h <| safe_grippers_ := [] |> |>) ;;;
          pret (true, ""%string)
      | _ =>
          do sent <- (if bool_decide (hold_state = Fault) then
              pfold both_sides (send_side_mit sendable " protective gripper hold send failed")
                (true, ""%string)
            else
              do rc <- send_mit sendable;
              if negb (rc =? 0) then
                do error <- motor_error "safe-hold gripper send failed"; pret (false, error)
              else pret (true, ""%string));
          write (fun s : Safety B =>
            s <| rt_holds ::= fun h => h <| safe_grippers_ := sendable |> |>) ;;;
          pret sent
      end)
  end.

End Operations.
