(* ===== verification/Safety.v ===== *)
(** * Health, holds and faults

    [runtime/src/runtime_safety.cpp], with the feedback transaction of
    [runtime_enable.cpp] it shares with the worker: what the runtime knows of
    its motors and sides, and how it falls back to a protective hold or to a
    fault. *)

From Stdlib Require Import String.
From S2P Require Import Prelude Float32 FloatOrder Float64 RuntimeTypes Threads NativeTypes SafetyState Motions Gripper.
#[local] Open Scope mdl_scope.
#[local] Open Scope thread_scope.

(** ** Reports of failure *)

(** [set_side_error_locked]. *)
Definition set_side_error_locked (side : Z) (error : string) (send_failure : bool) :
    list SideHealth -> list SideHealth :=
  update_side side (fun h =>
    let h := h <| sh_healthy := false |> <| sh_last_error := error |> in
    if send_failure then h <| sh_send_failures ::= u32_succ |>
    else h <| sh_feedback_failures ::= u32_succ |>).

Definition bump_feedback_failures (c : SafetyCounters) : SafetyCounters :=
  c <| consecutive_feedback_failures_ ::= u32_succ |>.

(** [finite(state.pos) && finite(state.vel) && finite(state.torq)]. *)
Definition values_finite (state : ArticoreMotorState) : bool :=
  f32_isfinite (ams_pos state) && f32_isfinite (ams_vel state) && f32_isfinite (ams_torq state).

(** ** Classification of the feedback *)

Definition has_issue (issues mask : Z) : bool := negb (Z.land issues mask =? 0).

Definition availability_issues : Z :=
  Z.lor (Z.lor FEEDBACK_ISSUE_MISSING FEEDBACK_ISSUE_STALE) FEEDBACK_ISSUE_STATE_UNAVAILABLE.
Definition severe_issues : Z :=
  Z.lor (Z.lor FEEDBACK_ISSUE_NONFINITE FEEDBACK_ISSUE_MOTOR_FAULT)
        FEEDBACK_ISSUE_UNEXPECTED_POWER_STATE.

(** What [collect_motor_feedback_health] says of one motor, given what the
    backend answered. *)
Definition feedback_health (maximum_age : Z) (m : MotorRecord)
    (stats : option ArticoreFeedbackStats) (state : option ArticoreMotorState) :
    ArticoreMotorFeedbackHealth :=
  let can_id :=
    if motor_identity_configured m then Some (configured_can_id m)
    else option_map ams_can_id state in
  let fresh := match stats with Some st => afs_age_ns st <=? maximum_age | None => false end in
  let finite := match state with Some st => values_finite st | None => false end in
  let feedback_issue :=
    match stats with
    | Some _ => if fresh then 0 else FEEDBACK_ISSUE_STALE
    | None => FEEDBACK_ISSUE_MISSING
    end in
  let state_issue :=
    match state with
    | Some st =>
        Z.lor (if finite then 0 else FEEDBACK_ISSUE_NONFINITE)
              (if 1 <? ams_status_code st then FEEDBACK_ISSUE_MOTOR_FAULT else 0)
    | None => FEEDBACK_ISSUE_STATE_UNAVAILABLE
    end in
  {| fh_side := side_of m; fh_can_id := default 0 can_id;
     fh_can_id_valid := match can_id with Some _ => true | None => false end;
     fh_is_gripper := is_gripper m;
     fh_has_feedback := match stats with Some _ => true | None => false end;
     fh_fresh := fresh;
     fh_has_state := match state with Some _ => true | None => false end;
     fh_values_finite := finite;
     fh_status_code := match state with Some st => ams_status_code st | None => 0 end;
     fh_issues := Z.lor feedback_issue state_issue;
     fh_position := match state with Some st => ams_pos st | None => f32_zero end;
     fh_velocity := match state with Some st => ams_vel st | None => f32_zero end;
     fh_torque := match state with Some st => ams_torq st | None => f32_zero end;
     fh_feedback_age_ns := match stats with Some st => afs_age_ns st | None => no_age end;
     fh_update_count := match stats with Some st => afs_update_count st | None => 0 end;
     fh_role := name_of m |}.

(** [classify_feedback_issue_scope]. *)
Definition count_if {A} (p : A -> bool) (l : list A) : Z := Z.of_nat (length (List.filter p l)).

Definition channel_failed (active : list bool) (sides : list SideHealth) (maximum_age : Z)
    (motors : list ArticoreMotorFeedbackHealth) (side : Z) : bool :=
  let h := side_health sides side in
  let installed := count_if (fun m => fh_side m =? side) motors in
  let unavailable := count_if (fun m => (fh_side m =? side) &&
                       has_issue (fh_issues m) availability_issues) motors in
  active_side active side &&
  ((negb (sh_connected h) || negb (sh_transport_healthy h)) ||
   ((0 <? installed) && (unavailable =? installed) && (maximum_age <? sh_last_rx_age_ns h))).

Definition classify_feedback_issue_scope (active : list bool) (sides : list SideHealth)
    (maximum_age : Z) (motors : list ArticoreMotorFeedbackHealth) : ArticoreFeedbackIssueScope :=
  let left := channel_failed active sides maximum_age motors 0 in
  let right := channel_failed active sides maximum_age motors 1 in
  let issue_count := count_if (fun m => (fh_side m <=? 1) && negb (fh_issues m =? 0)) motors in
  if left && right then SCOPE_BOTH_CHANNELS
  else if left then SCOPE_LEFT_CHANNEL
  else if right then SCOPE_RIGHT_CHANNEL
  else if issue_count =? 1 then SCOPE_SINGLE_MOTOR
  else if 1 <? issue_count then SCOPE_MULTIPLE_MOTORS
  else SCOPE_NONE.

(** The power state that is not the expected one. *)
Definition unexpected_power (recovery_check allow_held_grippers intentionally_disabled : bool)
    (item : ArticoreMotorFeedbackHealth) : bool :=
  fh_has_state item &&
  (if recovery_check then
     (fh_status_code item <=? 1) && negb (fh_status_code item =? 0) &&
     negb (allow_held_grippers && fh_is_gripper item)
   else (fh_status_code item =? 0) && negb intentionally_disabled).

Definition judge (recovery_check allow_held_grippers intentionally_disabled : bool)
    (item : ArticoreMotorFeedbackHealth) : ArticoreMotorFeedbackHealth :=
  if unexpected_power recovery_check allow_held_grippers intentionally_disabled item
  then item <| fh_issues ::= fun i => Z.lor i FEEDBACK_ISSUE_UNEXPECTED_POWER_STATE |>
  else item.

Definition join (separator : string) (l : list string) : string := String.concat separator l.

(** The text on one motor with an issue. *)
Definition issue_texts (maximum_age : Z) (recovery_check : bool)
    (item : ArticoreMotorFeedbackHealth) : list string :=
  let issue mask (text : string) := if has_issue (fh_issues item) mask then [text] else [] in
  issue FEEDBACK_ISSUE_MISSING
    "feedback statistics unavailable; actual=missing; threshold=valid fresh feedback required"%string ++
  issue FEEDBACK_ISSUE_STALE
    ("feedback exceeds maximum age; actual_age_ns=" ++ to_string (fh_feedback_age_ns item) ++
     "; threshold_age_ns<=" ++ to_string maximum_age)%string ++
  issue FEEDBACK_ISSUE_STATE_UNAVAILABLE
    "motor state unavailable; actual=missing; threshold=valid motor state required"%string ++
  issue FEEDBACK_ISSUE_NONFINITE
    ("motor feedback is not finite; actual={position=" ++ show_float (fh_position item) ++
     ", velocity=" ++ show_float (fh_velocity item) ++ ", torque=" ++
     show_float (fh_torque item) ++ "}; threshold=all feedback values finite")%string ++
  issue FEEDBACK_ISSUE_MOTOR_FAULT
    ("motor fault status reported; actual_status=" ++ to_string (fh_status_code item) ++
     "; threshold_status<=1")%string ++
  issue FEEDBACK_ISSUE_UNEXPECTED_POWER_STATE
    (if recovery_check then
       "motor is not disabled; actual_status=" ++ to_string (fh_status_code item) ++
       "; threshold_status=0"
     else "motor unexpectedly disabled; actual_status=0; threshold_status=1")%string.

Definition issue_detail (maximum_age : Z) (recovery_check : bool)
    (item : ArticoreMotorFeedbackHealth) : string :=
  (channel_name (fh_side item) ++ "/" ++ fh_role item ++ " (CAN ID " ++
   (if fh_can_id_valid item then to_string (fh_can_id item) else "unavailable") ++ "): " ++
   join ", " (issue_texts maximum_age recovery_check item))%string.

(** The verdict of [refresh_feedback_health] on the items it judged: per side
    whether it is well and what is wrong, and the motors to be named. *)
Definition with_issue (item : ArticoreMotorFeedbackHealth) : bool := negb (fh_issues item =? 0).
Definition on_side (side : Z) (item : ArticoreMotorFeedbackHealth) : bool := fh_side item =? side.

Definition side_items_ok (active : list bool) (items : list ArticoreMotorFeedbackHealth)
    (side : Z) : bool :=
  active_side active side &&
  forallb (fun i => negb (on_side side i && with_issue i)) items.

Definition side_details (maximum_age : Z) (recovery_check : bool)
    (items : list ArticoreMotorFeedbackHealth) (side : Z) : list string :=
  map (issue_detail maximum_age recovery_check)
    (List.filter (fun i => on_side side i && with_issue i) items).

Definition side_age (items : list ArticoreMotorFeedbackHealth) (side : Z) : Z :=
  fold_left (fun a i => if on_side side i then Z.max a (fh_feedback_age_ns i) else a) items 0.

Definition actionable_items (items : list ArticoreMotorFeedbackHealth) : bool :=
  existsb (fun i => has_issue (fh_issues i) severe_issues) items.

Definition faulted_items (items : list ArticoreMotorFeedbackHealth) : list nat :=
  List.filter (fun k => match items !! k with
                        | Some i => has_issue (fh_issues i) FEEDBACK_ISSUE_MOTOR_FAULT
                        | None => false
                        end) (seq 0 (length items)).

(** The names whose power state is not confirmed, each once, in order. *)
Definition unconfirmed_item (recovery_check allow_held_grippers : bool)
    (item : ArticoreMotorFeedbackHealth) : bool :=
  recovery_check &&
  (unexpected_power true allow_held_grippers false item ||
   has_issue (fh_issues item) (Z.lor availability_issues FEEDBACK_ISSUE_NONFINITE)).

Definition once (l : list string) : list string :=
  fold_left (fun a x => if existsb (String.eqb x) a then a else a ++ [x]) l [].

Definition feedback_errors (active : list bool) (maximum_age : Z) (recovery_check : bool)
    (items : list ArticoreMotorFeedbackHealth) (error : string) : string :=
  fold_left (fun error side =>
    match side_details maximum_age recovery_check items side with
    | [] => error
    | details =>
        if active_side active side then
          append_error error
            (channel_name side ++ " feedback unhealthy: " ++ join "; " details)%string
        else error
    end) both_sides error.

(** The error text of a check that fails. *)
Definition verdict_error (active : list bool) (maximum_age : Z) (recovery_check : bool)
    (items : list ArticoreMotorFeedbackHealth) (unconfirmed : list string) (error : string) :
    string :=
  let error := feedback_errors active maximum_age recovery_check items error in
  let error :=
    if str_empty error && negb (length (faulted_items items) =? 0)%nat
    then "motor fault status reported"%string else error in
  if str_empty error then
    ("not all motors are confirmed disabled" ++
     (if (length unconfirmed =? 0)%nat then "" else ": " ++ join ", " unconfirmed))%string
  else error.

(** The severity the worker reads off the error text. *)
Definition severe_text (error : string) : bool :=
  str_contains "motor fault status" error || str_contains "unexpectedly disabled" error ||
  str_contains "transport disconnected" error || str_contains "not finite" error.

Section Operations.
Context {B : Type} `{!MotorBackend B}.

(** [report_feedback_failure(side, reason)]. *)
Definition report_feedback_failure (side : Z) (reason : string) : Rt (B := B) unit :=
  do active <- read (fun s : Safety B => active_side (rt_active_sides s) side);
  if (1 <? side) || negb active then pthrow (InvalidArgument "feedback side is not active")
  else
    write (fun s : Safety B =>
      s <| rt_counters ::= bump_feedback_failures |>
        <| rt_sides ::= set_side_error_locked side reason false |>).

(** The presence of the motors in the list becomes FAULTED. *)
Definition presence_faulted (motors : list handle) (s : Safety B) : Safety B :=
  s <| rt_presence ::= fun p =>
         fold_left (fun p motor => match rt_roles s !! motor with
                                   | Some role => <[role := FAULTED]> p
                                   | None => p
                                   end) motors p |>.

(** ** Protective hold *)

Record HoldPlan := {
  hp_pv : list ArticorePosVelCommand;
  hp_mit : list ArticoreMitCommand;
  hp_grippers : list ArticoreMitCommand;
  hp_faulted : list handle;
  hp_error : string
}.

(** The position sent last to a motor in the present mode. *)
Definition fallback_position (mode : ControlMode) (h : SafetyHolds) (motor : handle) :
    option f32 :=
  match mode with
  | ModePv =>
      option_map pv_target_position
        (find (fun c => bool_decide (pv_motor c = motor)) (last_sent_pv_ h))
  | ModeMit =>
      option_map mit_target_position (find_command (last_sent_mit_ h) motor)
  end.

(** One arm motor: excluded for its status, held where fresh feedback says it
    is, else where it was sent last. *)
Definition plan_arm (mode : ControlMode) (config : ArticoreRuntimeConfig) (h : SafetyHolds)
    (m : MotorRecord) (stats : option ArticoreFeedbackStats)
    (state : option ArticoreMotorState) (p : HoldPlan) : HoldPlan :=
  let exclude (text : string) (faulted : list handle) :=
    {| hp_pv := hp_pv p; hp_mit := hp_mit p; hp_grippers := hp_grippers p;
       hp_faulted := hp_faulted p ++ faulted;
       hp_error := append_error (hp_error p) (name_of m ++ text)%string |} in
  let hold (position : f32) :=
    match mode with
    | ModePv =>
        {| hp_pv := hp_pv p ++ [Build_ArticorePosVelCommand (motor_of m) position
                                  (safe_pv_velocity_limit config)];
           hp_mit := hp_mit p; hp_grippers := hp_grippers p; hp_faulted := hp_faulted p;
           hp_error := hp_error p |}
    | ModeMit =>
        {| hp_pv := hp_pv p;
           hp_mit := hp_mit p ++ [Build_ArticoreMitCommand (motor_of m) position f32_zero
                                    (d_safe_kp (descriptor m)) (d_safe_kd (descriptor m))
                                    f32_zero];
           hp_grippers := hp_grippers p; hp_faulted := hp_faulted p; hp_error := hp_error p |}
    end in
  let otherwise :=
    match fallback_position mode h (motor_of m) with
    | Some position => hold position
    | None => exclude ": no feedback or last successful output for protective hold"%string []
    end in
  match state with
  | Some st =>
      if negb (ams_status_code st =? 1) then
        exclude (": excluded from protective hold because status=" ++
                 to_string (ams_status_code st))%string
          (if 1 <? ams_status_code st then [motor_of m] else [])
      else
        match stats with
        | Some stat =>
            if f32_isfinite (ams_pos st) && (afs_age_ns stat <=? feedback_max_age_ns config)
            then hold (ams_pos st) else otherwise
        | None => otherwise
        end
  | None => otherwise
  end.

Definition protective_gripper (m : MotorRecord) (profile : GripperForceProfile)
    (command : ArticoreMitCommand) : ArticoreMitCommand :=
  let protected := protection_enabled m in
  let gain := gripper_gain_scale m in
  {| mit_motor := mit_motor command; mit_target_position := mit_target_position command;
     mit_target_velocity := f32_zero;
     mit_stiffness := f32_mul (if protected then gf_hold_kp profile else gf_moving_kp profile) gain;
     mit_damping := f32_mul (if protected then gf_hold_kd profile else gf_moving_kd profile) gain;
     mit_feedforward_torque := f32_zero |}.

Definition plan_arm_motor (mode : ControlMode) (connected : list bool) (p : HoldPlan)
    (m : MotorRecord) : Rt HoldPlan :=
  if is_gripper m || negb (active_side connected (side_of m)) then pret p
  else
    do stats <- fetch_stats (motor_of m);
    do state <- fetch_state (motor_of m);
    do c <- read (fun s : Safety B => (rt_config s, rt_holds s));
    pret (plan_arm mode c.1 c.2 m stats state p).

Definition plan_gripper (connected : list bool) (p : HoldPlan) (command : ArticoreMitCommand) :
    Rt HoldPlan :=
  let fault :=
    {| hp_pv := hp_pv p; hp_mit := hp_mit p; hp_grippers := hp_grippers p;
       hp_faulted := hp_faulted p ++ [mit_motor command]; hp_error := hp_error p |} in
  do found <- read (fun s : Safety B => find_gripper (rt_motors s) (mit_motor command));
  match found with
  | None => pret p
  | Some m =>
      if negb (active_side connected (side_of m)) then pret fault
      else
        do state <- fetch_state (mit_motor command);
        let excluded := match state with
                        | Some st => negb (ams_status_code st =? 1)
                        | None => false
                        end in
        let faulted := match state with Some st => 1 <? ams_status_code st | None => false end in
        if excluded then pret (if faulted then fault else p)
        else
          do profile <- except (active_gripper_profile m);
          pret {| hp_pv := hp_pv p; hp_mit := hp_mit p;
                  hp_grippers := hp_grippers p ++ [protective_gripper m profile command];
                  hp_faulted := hp_faulted p; hp_error := hp_error p |}
  end.

(** The hold takes effect. *)
Definition holds_nonempty (h : SafetyHolds) : bool :=
  negb ((length (safe_pv_ h) =? 0)%nat && (length (safe_mit_ h) =? 0)%nat &&
        (length (safe_grippers_ h) =? 0)%nat).

Definition arm_held (mode : ControlMode) (h : SafetyHolds) : bool :=
  negb (length (match mode with
                | ModePv => map pv_motor (safe_pv_ h)
                | ModeMit => map mit_motor (safe_mit_ h)
                end) =? 0)%nat.

Definition install_hold (mode : ControlMode) (p : HoldPlan) (s : Safety B) : bool * Safety B :=
  let s := s <| rt_holds ::= fun h =>
                 h <| safe_pv_ := hp_pv p |> <| safe_mit_ := hp_mit p |>
                   <| safe_grippers_ := hp_grippers p |> |> in
  let s := presence_faulted (hp_faulted p) s in
  let s := s <| rt_core ::= fun c => c <| fault_hold_active_ := holds_nonempty (rt_holds s) |> |> in
  (arm_held mode (rt_holds s), s).

(** [prepare_protective_hold(error)]: whether an arm hold is there, and the
    text on the motors left out. *)
Definition prepare_protective_hold (who : nat) : Rt (bool * string) :=
  do planned <- with_command who (
    do start <- read (fun s : Safety B =>
      (mode_ (rt_core s), map sh_connected (rt_sides s)));
    do motors <- read rt_motors;
    do p <- pfold motors (plan_arm_motor start.1 start.2) (Build_HoldPlan [] [] [] [] "");
    do commands <- read (fun s : Safety B => safe_grippers_ (rt_holds s));
    do p <- pfold commands (plan_gripper start.2) p;
    pret (start.1, p));
  do held <- act (install_hold planned.1 planned.2);
  pret (held, hp_error planned.2).

(** ** Sending the hold *)

Definition hold_state (st : SafetyState) : bool :=
  match st with SafeHold | SafeStop | Fault => true | _ => false end.

Definition side_pv (motors : list MotorRecord) (side : Z) (l : list ArticorePosVelCommand) :
    list ArticorePosVelCommand :=
  List.filter (fun c => match find_motor motors (pv_motor c) with
                        | Some m => side_of m =? side
                        | None => false
                        end) l.

Definition send_side_pv (sendable : list ArticorePosVelCommand) (message : string)
    (acc : bool * string) (side : Z) : Rt (bool * string) :=
  do commands <- read (fun s : Safety B => side_pv (rt_motors s) side sendable);
  match commands with
  | [] => pret acc
  | _ =>
      do rc <- send_pos_vel commands;
      pret (if rc =? 0 then acc
            else (false, append_error (snd acc) (channel_name side ++ message)%string))
  end.

(** The arm part: [None] where the function returns early, else whether the
    batch was sent, with the error. *)
Definition send_arm_hold (mode : ControlMode) (at_state : SafetyState)
    (had_pv had_mit : bool) (pv : list ArticorePosVelCommand) (mit : list ArticoreMitCommand) :
    Rt (string + (bool * string)) :=
  let message := " protective hold send failed"%string in
  if bool_decide (at_state = Fault) then
    do r <- (match mode with
             | ModePv => pfold both_sides (send_side_pv pv message) (true, ""%string)
             | ModeMit => pfold both_sides (send_side_mit mit message) (true, ""%string)
             end);
    pret (inr r)
  else
    match mode with
    | ModePv =>
        match pv with
        | [] => pret (if had_pv then inr (true, ""%string) else inl "no PV safe-hold target"%string)
        | _ => do rc <- send_pos_vel pv; pret (inr (rc =? 0, ""%string))
        end
    | ModeMit =>
        match mit with
        | [] => pret (if had_mit then inr (true, ""%string) else inl "no MIT safe-hold target"%string)
        | _ => do rc <- send_mit mit; pret (inr (rc =? 0, ""%string))
        end
    end.

(** [send_safe_hold_once(error)]. *)
Definition send_safe_hold_once (who : nat) : Rt (bool * string) :=
  do start <- read (fun s : Safety B =>
    (rt_core s, rt_holds s, rt_intentionally_disabled s));
  let '(core, holds, disabled) := start in
  if negb (hold_state (state_ core)) then pret (true, ""%string)
  else
    let pv := List.filter (fun c => negb (bool_decide (pv_motor c ∈ disabled))) (safe_pv_ holds) in
    let mit := List.filter (fun c => negb (bool_decide (mit_motor c ∈ disabled)))
                 (safe_mit_ holds) in
    do arm <- with_command who (
      do go <- read (fun s : Safety B =>
        negb (hardware_transition_ (rt_core s)) &&
        bool_decide (state_ (rt_core s) = state_ core));
      if negb go then pret None
      else
        do r <- send_arm_hold (mode_ core) (state_ core)
                  (negb (length (safe_pv_ holds) =? 0)%nat)
                  (negb (length (safe_mit_ holds) =? 0)%nat) pv mit;
        pret (Some r));
    match arm with
    | None => pret (true, ""%string)
    | Some (inl error) => pret (false, error)
    | Some (inr (sent, error)) =>
        do error <- (if negb sent && str_empty error
                     then motor_error "safe-hold arm send failed" else pret error);
        do g <- send_gripper_hold_once who;
        pret (sent && g.1, if str_empty g.2 then error else append_error error g.2)
    end.

(** ** Refreshing the health *)

(** [refresh_transport_health(error)], one active side. *)
Definition transport_side (health : ArticoreDriverTransportHealth) (h : SideHealth) : SideHealth :=
  let h := h <| sh_connected := dth_connected health |>
             <| sh_transport_healthy := dth_healthy health |>
             <| sh_tx_frames := dth_tx_frames health |> <| sh_rx_frames := dth_rx_frames health |>
             <| sh_send_errors := dth_send_errors health |>
             <| sh_receive_errors := dth_receive_errors health |>
             <| sh_last_tx_age_ns := dth_last_tx_age_ns health |>
             <| sh_last_rx_age_ns := dth_last_rx_age_ns health |> in
  if str_empty (dth_last_error health) then h
  else h <| sh_last_error := dth_last_error health |>.

Definition transport_error (side : Z) (h : SideHealth) : string :=
  ((if (side =? 0)%Z then "CH0" else "CH1") ++
   (if sh_connected h then " transport unhealthy" else " transport disconnected") ++
   (if str_empty (sh_last_error h) then "" else ": " ++ sh_last_error h))%string.

Definition record_transport (side : Z) (answer : option ArticoreDriverTransportHealth)
    (message : string) (acc : bool * string) (s : Safety B) : (bool * string) * Safety B :=
  let s := match answer with
           | None =>
               s <| rt_sides ::= update_side side (fun h =>
                      h <| sh_transport_healthy := false |> <| sh_healthy := false |>
                        <| sh_last_error := message |>) |>
           | Some health =>
               let s := s <| rt_sides ::= update_side side (transport_side health) |> in
               if dth_connected health then s
               else presence_faulted
                      (map motor_of (List.filter (fun m => side_of m =? side) (rt_motors s))) s
           end in
  let h := side_health (rt_sides s) side in
  let healthy := acc.1 && match answer with
                          | None => false
                          | Some _ => sh_connected h && sh_transport_healthy h
                          end in
  ((healthy, if negb healthy && str_empty acc.2 then transport_error side h else acc.2), s).

Definition refresh_transport_side (acc : bool * string) (side : Z) : Rt (bool * string) :=
  do active <- read (fun s : Safety B => active_side (rt_active_sides s) side);
  if negb active then pret acc
  else
    do r <- bk (Bk_get_transport_health side);
    do message <- (if r.1 =? 0 then pret ""%string
                   else motor_error "transport health query failed");
    act (record_transport side (if r.1 =? 0 then Some r.2 else None) message acc).

Definition refresh_transport_health (error : string) : Rt (bool * string) :=
  do has <- bk Bk_has_transport_health;
  if negb has then pret (true, error)
  else pfold both_sides refresh_transport_side (true, error).

(** [collect_motor_feedback_health]. *)
Definition collect_motor (items : list ArticoreMotorFeedbackHealth) (m : MotorRecord) :
    Rt (list ArticoreMotorFeedbackHealth) :=
  do stats <- fetch_stats (motor_of m);
  do state <- fetch_state (motor_of m);
  do age <- read (fun s : Safety B => feedback_max_age_ns (rt_config s));
  pret (items ++ [feedback_health age m stats state]).

Definition collect_motor_feedback_health : Rt (list ArticoreMotorFeedbackHealth) :=
  do motors <- read rt_motors;
  pfold motors collect_motor [].

(** The result is stored: whether the check passes. *)
Definition store_side (recovery_check : bool) (maximum_age : Z)
    (items : list ArticoreMotorFeedbackHealth) (active : list bool) (side : Z)
    (sides : list SideHealth) : list SideHealth :=
  if negb (active_side active side) then sides
  else
    let ok := side_items_ok active items side in
    update_side side (fun h =>
      let h := h <| sh_last_feedback_age_ns := side_age items side |>
                 <| sh_healthy := ok && sh_connected h && sh_transport_healthy h |> in
      if negb ok then
        h <| sh_last_error := join "; " (side_details maximum_age recovery_check items side) |>
          <| sh_feedback_failures ::= u32_succ |>
      else
        let h := h <| sh_feedback_failures := 0 |> in
        if sh_connected h && sh_transport_healthy h then h <| sh_last_error := ""%string |> else h)
      sides.

Definition store_feedback (recovery_check transports_ok : bool) (now maximum_age : Z)
    (items : list ArticoreMotorFeedbackHealth) (unconfirmed : list string) (s : Safety B) :
    bool * Safety B :=
  let active := rt_active_sides s in
  let faulted := faulted_items items in
  let names := map (fun k => default ""%string (fh_role <$> items !! k)) faulted in
  let handles := map (fun k => default 0%nat (motor_of <$> rt_motors s !! k)) faulted in
  let s := s <| rt_motor_faults := names |> in
  let s := presence_faulted handles s in
  let s := if recovery_check then s <| rt_unconfirmed_disable := unconfirmed |> else s in
  let s := s <| rt_sides ::= fun sides =>
    fold_left (fun l side => store_side recovery_check maximum_age items active side l)
      both_sides sides |> in
  let has_motor_faults := negb (length faulted =? 0)%nat in
  let s := if has_motor_faults
           then s <| rt_core ::= fun c => c <| motor_fault_latched_ := true |> |> else s in
  let feedback_ok :=
    forallb (fun side => negb (active_side active side) || side_items_ok active items side)
      both_sides in
  if transports_ok && feedback_ok && negb has_motor_faults &&
     (negb recovery_check || (length unconfirmed =? 0)%nat) then
    let age := fold_left (fun a side =>
                 if active_side active side then Z.max a (side_age items side) else a)
                 both_sides 0 in
    (true, s <| rt_timers ::= fun t => t <| last_fresh_feedback_ := now - age |> |>
             <| rt_counters ::= fun c => c <| consecutive_feedback_failures_ := 0 |> |>)
  else (false, s).

(** [refresh_feedback_health(recovery_check, allow_held_grippers, error,
    &diagnostic_only)]: the result, the error and the flag. *)
Definition refresh_feedback_health (recovery_check allow_held_grippers : bool) (error : string) :
    Rt (bool * string * bool) :=
  do transport <- refresh_transport_health error;
  do disabled <- read rt_intentionally_disabled;
  do collected <- collect_motor_feedback_health;
  do motors <- read rt_motors;
  let items := zip_with (fun m i =>
    judge recovery_check allow_held_grippers (bool_decide (motor_of m ∈ disabled)) i)
    motors collected in
  let unconfirmed := once (map fh_role
    (List.filter (unconfirmed_item recovery_check allow_held_grippers) items)) in
  do now <- clock_now;
  do p <- read (fun s : Safety B => (rt_active_sides s, feedback_max_age_ns (rt_config s)));
  do ok <- act (store_feedback recovery_check transport.1 now p.2 items unconfirmed);
  if ok then pret (true, transport.2, false)
  else
    pret (false, verdict_error p.1 p.2 recovery_check items unconfirmed transport.2,
          negb recovery_check && negb (negb transport.1 || actionable_items items)).

(** [current_motor_fault_reported()]; it stops at the first fault. *)
Fixpoint any_motor_fault (motors : list MotorRecord) : Rt bool :=
  match motors with
  | [] => pret false
  | m :: rest =>
      do state <- fetch_state (motor_of m);
      match state with
      | Some st => if 1 <? ams_status_code st then pret true else any_motor_fault rest
      | None => any_motor_fault rest
      end
  end.

Definition current_motor_fault_reported : Rt bool :=
  do motors <- read rt_motors; any_motor_fault motors.

End Operations.
