(* ===== verification/Feedback.v ===== *)
(** * Feedback transactions

    The two functions of [runtime/src/runtime_enable.cpp] by which every
    lifecycle operation, and the worker while READY, asks the motors for fresh
    feedback and judges what came back. *)

From Stdlib Require Import String.
From S2P Require Import Prelude Float32 Float64 RuntimeTypes Threads NativeTypes SafetyState Gripper Safety.
#[local] Open Scope mdl_scope.
#[local] Open Scope thread_scope.

(** ** Requesting *)

Definition no_report : ArticoreFeedbackReport := Build_ArticoreFeedbackReport 0 0 0.

(** The marker the array of missing identifiers is filled with. *)
Definition no_id : Z := 2 ^ 32 - 1.

Definition side_motors (motors : list MotorRecord) (side : Z) : list MotorRecord :=
  List.filter (fun m => side_of m =? side) motors.

(** The identifiers among the first [missing_count] entries. *)
Definition reported_missing (capacity : nat) (report : ArticoreFeedbackReport) (ids : list Z) :
    list Z :=
  List.filter (fun id => negb (id =? no_id))
    (take (Nat.min (Z.to_nat (fr_missing_count report)) capacity) ids).

Definition side_missing (side : Z) (ids : list Z) : list MissingMotor :=
  map (fun id => Build_MissingMotor side id) ids.

(** The text on a side whose request failed. *)
Definition request_error (side : Z) (r : FeedbackSideResult) : string :=
  let report := fs_report r in
  ((if (side =? 0)%Z then "CH0" else "CH1") ++ " feedback code=" ++ to_string (fs_code r) ++
   ", expected=" ++ to_string (fr_expected_count report) ++
   ", received=" ++ to_string (fr_received_count report) ++
   ", missing=" ++ to_string (fr_missing_count report) ++
   (match fs_missing r with
    | [] => ""
    | ids => ", missing motor IDs:" ++
             String.concat "" (map (fun id => " " ++ to_string id) ids)
    end) ++
   (if str_empty (fs_error r) then "" else ": " ++ fs_error r))%string.

(** ** Judging *)

Record Snapshot := {
  sn_motor : MotorRecord;
  sn_can_id : option Z;
  sn_reported_can_id : option Z;
  sn_valid : bool;
  sn_has_feedback : bool;
  sn_update_count : Z;
  sn_age_ns : Z;
  sn_reason : string
}.

(** The first reason why the feedback of a motor does not count, if any. *)
Definition snapshot_reason (maximum_age : Z) (missing_ids : list Z) (m : MotorRecord)
    (stats : option ArticoreFeedbackStats) (state : option ArticoreMotorState) : option string :=
  match stats with
  | None => Some "no motor feedback"%string
  | Some st =>
      if maximum_age <? afs_age_ns st then
        Some ("feedback is stale: actual_age_ns=" ++ to_string (afs_age_ns st) ++
              ", threshold_age_ns<=" ++ to_string maximum_age)%string
      else
        match state with
        | None => Some "motor state is unavailable"%string
        | Some value =>
            if motor_identity_configured m && negb (ams_can_id value =? configured_can_id m) then
              Some ("feedback CAN ID does not match configured identity: actual=" ++
                    to_string (ams_can_id value) ++ ", configured=" ++
                    to_string (configured_can_id m))%string
            else if negb (values_finite value) then
              Some "feedback contains a non-finite value"%string
            else if existsb (Z.eqb (ams_can_id value)) missing_ids then
              Some "did not return new feedback in the connect/READY transaction"%string
            else None
        end
  end.

Definition take_snapshot (maximum_age : Z) (missing_ids : list Z) (m : MotorRecord)
    (stats : option ArticoreFeedbackStats) (state : option ArticoreMotorState) : Snapshot :=
  let reason := snapshot_reason maximum_age missing_ids m stats state in
  {| sn_motor := m;
     sn_can_id := if motor_identity_configured m then Some (configured_can_id m)
                  else option_map ams_can_id state;
     sn_reported_can_id := option_map ams_can_id state;
     sn_valid := match reason with None => true | Some _ => false end;
     sn_has_feedback := match stats with Some _ => true | None => false end;
     sn_update_count := match stats with Some st => afs_update_count st | None => 0 end;
     sn_age_ns := match stats with Some st => afs_age_ns st | None => no_age end;
     sn_reason := default ""%string reason |}.

(** The identifiers reported missing on a side, each once. *)
Definition missing_on (request_missing : list MissingMotor) (side : Z) : list Z :=
  fold_left (fun ids m =>
    if (mm_side m =? side) && negb (existsb (Z.eqb (mm_id m)) ids) then ids ++ [mm_id m] else ids)
    request_missing [].

Definition snapshot_side (n : Snapshot) : Z := side_of (sn_motor n).

(** An invalid motor without an identifier gets one where the pairing with the
    identifiers left over is unambiguous. *)
Definition unknown_snapshot (side : Z) (n : Snapshot) : bool :=
  (snapshot_side n =? side) && negb (sn_valid n) &&
  match sn_can_id n with None => true | Some _ => false end.

Definition remaining_ids (side : Z) (missing_ids : list Z) (l : list Snapshot) : list Z :=
  List.filter (fun id => negb (existsb (fun n =>
    (snapshot_side n =? side) && negb (sn_valid n) &&
    match sn_can_id n with Some known => known =? id | None => false end) l)) missing_ids.

Fixpoint assign_ids (side : Z) (ids : list Z) (l : list Snapshot) : list Snapshot :=
  match l with
  | [] => []
  | n :: rest =>
      match unknown_snapshot side n, ids with
      | true, id :: ids' =>
          {| sn_motor := sn_motor n; sn_can_id := Some id;
             sn_reported_can_id := sn_reported_can_id n; sn_valid := sn_valid n;
             sn_has_feedback := sn_has_feedback n; sn_update_count := sn_update_count n;
             sn_age_ns := sn_age_ns n; sn_reason := sn_reason n |} :: assign_ids side ids' rest
      | _, _ => n :: assign_ids side ids rest
      end
  end.

Definition pair_side (missing : list MissingMotor) (l : list Snapshot) (side : Z) :
    list Snapshot :=
  let ids := remaining_ids side (missing_on missing side) l in
  if (length (List.filter (unknown_snapshot side) l) =? length ids)%nat
  then assign_ids side ids l else l.

Definition snapshot_text (n : Snapshot) : string :=
  (channel_name (snapshot_side n) ++ "/" ++ name_of (sn_motor n) ++ " (CAN ID " ++
   match sn_can_id n with Some id => to_string id | None => "unavailable" end ++ "): " ++
   sn_reason n)%string.

Definition snapshot_error (missing : list MissingMotor) (l : list Snapshot) : string :=
  let texts := String.concat "; " (map snapshot_text (List.filter (fun n => negb (sn_valid n)) l)) in
  fold_left (fun error side =>
    match missing_on missing side with
    | [] => error
    | ids =>
        if existsb (unknown_snapshot side) l then
          (error ++ "; " ++ channel_name side ++ " missing CAN IDs:" ++
           String.concat "" (map (fun id => " " ++ to_string id) ids))%string
        else error
    end) both_sides texts.

(** The oldest feedback of a side, as far as there is any. *)
Definition snapshot_age (l : list Snapshot) (side : Z) : Z :=
  fold_left (fun a n =>
    if (snapshot_side n =? side) && sn_has_feedback n then Z.max a (sn_age_ns n) else a) l 0.

Definition snapshot_side_valid (active : list bool) (l : list Snapshot) (side : Z) : bool :=
  active_side active side && forallb (fun n => negb (snapshot_side n =? side) || sn_valid n) l.

Definition store_snapshot_side (active : list bool) (l : list Snapshot) (error : string)
    (sides : list SideHealth) (side : Z) : list SideHealth :=
  if negb (active_side active side) then sides
  else
    update_side side (fun h =>
      let h := h <| sh_last_feedback_age_ns := snapshot_age l side |> in
      if snapshot_side_valid active l side then h <| sh_feedback_failures := 0 |>
      else h <| sh_feedback_failures ::= u32_succ |> <| sh_healthy := false |>
             <| sh_last_error := error |>) sides.

Section Operations.
Context {B : Type} `{!MotorBackend B}.

(** The job of one side. *)
Definition request_side (timeout_ms side : Z) : Rt FeedbackSideResult :=
  do motors <- read rt_motors;
  let capacity := Nat.max (length (side_motors motors side)) 1 in
  do r <- bk (Bk_request_feedback side timeout_ms capacity);
  let '(code, report, ids) := r in
  do error <- (if code =? 0 then pret ""%string else motor_error "");
  pret {| fs_active := true; fs_code := code; fs_report := report;
          fs_missing := reported_missing capacity report ids; fs_error := error |}.

(** Every motor of a side whose request named none. *)
Definition side_can_id (missing : list MissingMotor) (m : MotorRecord) :
    Rt (B := B) (list MissingMotor) :=
  do id <- (if motor_identity_configured m then pret (configured_can_id m)
            else
              do state <- fetch_state (motor_of m);
              pret (match state with Some st => ams_can_id st | None => 0 end));
  pret (missing ++ [Build_MissingMotor (side_of m) id]).

Definition merge_side (acc : bool * list MissingMotor * string) (x : Z * option FeedbackSideResult) :
    Rt (B := B) (bool * list MissingMotor * string) :=
  let '(ok, missing, error) := acc in
  match x.2 with
  | None => pret acc
  | Some r =>
      let missing := missing ++ side_missing x.1 (fs_missing r) in
      if fs_code r =? 0 then pret (ok, missing, error)
      else
        do motors <- read rt_motors;
        do missing <- (match fs_missing r with
                       | [] => pfold (side_motors motors x.1) side_can_id missing
                       | _ => pret missing
                       end);
        pret (false, missing, append_error error (request_error x.1 r))
  end.

(** [request_feedback_parallel(timeout_ms, missing_motors, error)]: whether
    both sides answered completely, who is missing, and the error. *)
Definition request_feedback_parallel (timeout_ms : Z) (error : string) :
    Rt (bool * list MissingMotor * string) :=
  do active <- read rt_active_sides;
  do r <- run_active_sides active (request_side timeout_ms);
  pfold [(0, r.1); (1, r.2)] merge_side (true, [], error).

(** One motor of the snapshot; a gripper whose feedback counts is updated. *)
Definition snapshot_motor (missing : list MissingMotor) (l : list Snapshot) (m : MotorRecord) :
    Rt (B := B) (list Snapshot) :=
  do stats <- fetch_stats (motor_of m);
  do state <- fetch_state (motor_of m);
  do age <- read (fun s : Safety B => feedback_max_age_ns (rt_config s));
  let n := take_snapshot age (missing_on missing (side_of m)) m stats state in
  (match state, stats with
   | Some value, Some st =>
       if sn_valid n && is_gripper m then
         change_motor (motor_of m) (fun m =>
           m <| last_position := ams_pos value |> <| has_position := true |>
             <| feedback_age_ns := afs_age_ns st |> <| last_torque := ams_torq value |>)
       else pret tt
   | _, _ => pret tt
   end) ;;;
  pret (l ++ [n]).

Definition store_snapshot (now : Z) (l : list Snapshot) (error : string) (s : Safety B) :
    Safety B :=
  let active := rt_active_sides s in
  let s := s <| rt_sides ::= fun sides =>
             fold_left (store_snapshot_side active l error) both_sides sides |> in
  if str_empty error then
    let age side := if active_side active side then snapshot_age l side else 0 in
    s <| rt_timers ::= fun t => t <| last_fresh_feedback_ := now - Z.max (age 0) (age 1) |> |>
      <| rt_counters ::= fun c => c <| consecutive_feedback_failures_ := 0 |> |>
  else s.

(** [validate_fresh_feedback_snapshot(request_missing, error)], with the
    snapshots for the report of [connect]. *)
Definition fresh_feedback_snapshot (missing : list MissingMotor) :
    Rt (list Snapshot * string) :=
  do motors <- read rt_motors;
  do taken <- pfold motors (snapshot_motor missing) [];
  let l := fold_left (pair_side missing) both_sides taken in
  let error := snapshot_error missing l in
  do now <- clock_now;
  write (store_snapshot now l error) ;;;
  pret (l, error).

Definition validate_fresh_feedback_snapshot (missing : list MissingMotor) (error : string) :
    Rt (bool * string) :=
  do r <- fresh_feedback_snapshot missing;
  pret (str_empty r.2, if str_empty r.2 then error else append_error error r.2).

End Operations.
