(* ===== verification/Disable.v ===== *)
(** * Disabling the motors

    [disable_hardware] of [runtime/src/runtime_enable.cpp]: under
    [command_mutex_], drain what was queued, send the disable frames, and ask
    for feedback until every motor reports that it is disabled, with one more
    attempt for those that do not.  [disable] of the API is in [Lifecycle]. *)

From Stdlib Require Import String.
From S2P Require Import Prelude Float32 Float64 RuntimeTypes Threads NativeTypes SafetyState Gripper Safety Feedback.
#[local] Open Scope mdl_scope.
#[local] Open Scope thread_scope.

(** What one side sent, and its errors. *)
Record SideResult := { sr_sent : list handle; sr_errors : list string }.

Definition no_side_result : SideResult := Build_SideResult [] [].

(** Whether the feedback of a motor leaves it unconfirmed. *)
Definition unconfirmed_motor (complete : bool) (missing : list MissingMotor) (maximum_age : Z)
    (m : MotorRecord) (stats : option ArticoreFeedbackStats)
    (state : option ArticoreMotorState) : bool :=
  if negb complete && (length missing =? 0)%nat then true
  else
    match stats, state with
    | Some st, Some value =>
        existsb (fun i => (mm_side i =? side_of m) && (mm_id i =? ams_can_id value)) missing ||
        (maximum_age <? afs_age_ns st) || negb (ams_status_code value =? 0)
    | _, _ => true
    end.

Definition unconfirmed_text (l : list MissingMotor) : string :=
  String.concat "" (map (fun i =>
    (" " ++ channel_name (mm_side i) ++ "/ID" ++ to_string (mm_id i))%string) l).

Section Operations.
Context {B : Type} `{!MotorBackend B}.

(** ** The barrier *)

Definition barrier_attempt (acc : option string) (attempt : nat) : Rt (B := B) (option string) :=
  match acc with
  | None => pret None
  | Some _ =>
      do timeout <- read (fun s : Safety B => disable_feedback_timeout_ms (rt_config s));
      do r <- request_feedback_parallel timeout "";
      pret (if r.1.1 then None else Some r.2)
  end.

(** [establish_disable_barrier(error)]: [None] when the barrier stands, else
    the error. *)
Definition establish_disable_barrier : Rt (B := B) (option string) :=
  do mode <- read (fun s : Safety B => mode_ (rt_core s));
  do dispatch <- (match mode with
                  | ModeMit => send_mit []
                  | ModePv => send_pos_vel []
                  end);
  if negb (dispatch =? 0) then
    do error <- motor_error "controller group drain failed"; pret (Some error)
  else
    do r <- pfold (seq 0 2) barrier_attempt (Some ""%string);
    pret (match r with
          | None => None
          | Some e => Some (if str_empty e then "feedback marker timed out"%string else e)
          end).

(** ** The disable frames *)

Definition disable_one (side : Z) (r : SideResult) (m : MotorRecord) : Rt (B := B) SideResult :=
  do rc <- bk (Bk_disable_motor (motor_of m));
  if rc =? 0 then pret (Build_SideResult (sr_sent r ++ [motor_of m]) (sr_errors r))
  else
    do detail <- motor_error "motor disable failed";
    pret (Build_SideResult (sr_sent r)
            (sr_errors r ++ [((if (side =? 0)%Z then "CH0/" else "CH1/") ++ name_of m ++ ": " ++
                              detail)%string])).

Definition report_side (side : Z) (acc : list handle * string) (detail : string) :
    Rt (B := B) (list handle * string) :=
  write (fun s : Safety B => s <| rt_sides ::= set_side_error_locked side detail true |>) ;;;
  pret (acc.1, append_error acc.2 detail).

Definition gather_side (acc : list handle * string) (x : Z * option SideResult) :
    Rt (B := B) (list handle * string) :=
  let r := default no_side_result x.2 in
  pfold (sr_errors r) (report_side x.1) (acc.1 ++ sr_sent r, acc.2).

(** [send_disable_parallel(targets, sent)]: the handles whose frame was
    accepted, and the error so far. *)
Definition send_disable_parallel (targets : list MotorRecord) (error : string) :
    Rt (B := B) (list handle * string) :=
  do active <- read rt_active_sides;
  do r <- run_active_sides active
            (fun side => pfold (side_motors targets side) (disable_one side) no_side_result);
  pfold [(0, r.1); (1, r.2)] gather_side ([], error).

(** ** The confirmation *)

Definition check_target (complete : bool) (missing : list MissingMotor) (l : list MotorRecord)
    (m : MotorRecord) : Rt (B := B) (list MotorRecord) :=
  do stats <- fetch_stats (motor_of m);
  do state <- fetch_state (motor_of m);
  do age <- read (fun s : Safety B => feedback_max_age_ns (rt_config s));
  pret (if unconfirmed_motor complete missing age m stats state then l ++ [m] else l).

Definition collect_unconfirmed (targets : list MotorRecord) (complete : bool)
    (missing : list MissingMotor) : Rt (B := B) (list MotorRecord) :=
  pfold targets (check_target complete missing) [].

(** The loop of [confirm_until_deadline], which sleeps a millisecond between
    two rounds: as many rounds as milliseconds are enough. *)
Fixpoint confirm_rounds (fuel : nat) (targets : list MotorRecord) (deadline : Z)
    (latest_error : string) : Rt (B := B) (list MotorRecord * string) :=
  match fuel with
  | O => Done Unfinished
  | S fuel =>
      do now <- clock_now;
      let timeout_ms := u32 (Z.max 1 (Z.quot (deadline - now) 1000000)) in
      do r <- request_feedback_parallel timeout_ms "";
      let '(complete, missing, request_error) := r in
      do result <- collect_unconfirmed targets complete missing;
      match result with
      | [] => pret ([], latest_error)
      | _ =>
          let latest_error := if str_empty request_error then latest_error else request_error in
          sleep_ms 1 ;;;
          do now <- clock_now;
          if now <? deadline then confirm_rounds fuel targets deadline latest_error
          else pret (result, latest_error)
      end
  end.

Definition confirm_fuel (timeout_ms : Z) : nat := S (Z.to_nat timeout_ms).

Definition confirm_until_deadline (targets : list MotorRecord) :
    Rt (B := B) (list MotorRecord * string) :=
  do timeout <- read (fun s : Safety B => disable_feedback_timeout_ms (rt_config s));
  do now <- clock_now;
  confirm_rounds (confirm_fuel timeout) targets (now + milliseconds_ns timeout) "".

(** The motors still not confirmed after the retry. *)
Definition name_unconfirmed (l : list MissingMotor) (m : MotorRecord) :
    Rt (B := B) (list MissingMotor) :=
  do state <- fetch_state (motor_of m);
  pret (l ++ [Build_MissingMotor (side_of m)
                match state with Some st => ams_can_id st | None => 0 end]).

Record Confirmation := {
  cf_retried : list handle;
  cf_retry_attempted : bool;
  cf_unconfirmed : list MissingMotor;
  cf_error : string
}.

Definition confirm_disabled (targets : list MotorRecord) (error : string) :
    Rt (B := B) Confirmation :=
  do first <- confirm_until_deadline targets;
  match first.1 with
  | [] => pret (Build_Confirmation [] false [] error)
  | retry_targets =>
      do retried <- send_disable_parallel retry_targets error;
      do final <- confirm_until_deadline targets;
      do unconfirmed <- pfold final.1 name_unconfirmed [];
      match unconfirmed with
      | [] => pret (Build_Confirmation retried.1 true [] retried.2)
      | _ =>
          let detail := if str_empty final.2 then first.2 else final.2 in
          pret (Build_Confirmation retried.1 true unconfirmed
            (append_error retried.2 ("disable feedback confirmation failed" ++
               (if str_empty detail then "" else ": " ++ detail) ++ "; unconfirmed motors:" ++
               unconfirmed_text unconfirmed)%string))
      end
  end.

(** ** The report *)

Definition report_motor (config : ArticoreRuntimeConfig) (missing : list MissingMotor)
    (sent retried : list handle) (preserve_grippers : bool) (m : MotorRecord)
    (stats : option ArticoreFeedbackStats) (state : option ArticoreMotorState) :
    ArticoreDisableMotorResult :=
  let can_id := match state with Some st => ams_can_id st | None => 0 end in
  let status := match state with Some st => ams_status_code st | None => 0 end in
  let has_feedback := match stats, state with Some _, Some _ => true | _, _ => false end in
  let fresh := has_feedback &&
    match stats with Some st => afs_age_ns st <=? feedback_max_age_ns config | None => false end in
  let excluded := preserve_grippers && is_gripper m in
  let explicitly_missing :=
    existsb (fun i => (mm_side i =? side_of m) && (mm_id i =? can_id)) missing in
  {| dr_side := side_of m; dr_can_id := can_id; dr_status_code := status;
     dr_has_feedback := has_feedback; dr_feedback_fresh := fresh;
     dr_disabled := negb excluded && has_feedback && fresh && negb explicitly_missing &&
                    (status =? 0);
     dr_disable_sent := existsb (Nat.eqb (motor_of m)) sent;
     dr_retry_sent := existsb (Nat.eqb (motor_of m)) retried; dr_name := name_of m |}.

Definition report_one (missing : list MissingMotor) (sent retried : list handle)
    (preserve_grippers : bool) (l : list (bool * ArticoreDisableMotorResult)) (m : MotorRecord) :
    Rt (B := B) (list (bool * ArticoreDisableMotorResult)) :=
  do stats <- fetch_stats (motor_of m);
  do state <- fetch_state (motor_of m);
  do config <- read rt_config;
  pret (l ++ [(preserve_grippers && is_gripper m,
               report_motor config missing sent retried preserve_grippers m stats state)]).

(** [update_disable_report]; there are at most 32 motors. *)
Definition update_disable_report (success barrier_confirmed : bool)
    (missing : list MissingMotor) (sent retried : list handle)
    (retry_attempted preserve_grippers : bool) (error : string) : Rt (B := B) unit :=
  do motors <- read rt_motors;
  do rows <- pfold (take 32 motors) (report_one missing sent retried preserve_grippers) [];
  write (fun s : Safety B =>
    s <| rt_disable_report :=
           {| dp_success := success; dp_barrier_confirmed := barrier_confirmed;
              dp_expected_count :=
                count_if (fun m => negb (preserve_grippers && is_gripper m)) motors;
              dp_disabled_count := count_if (fun r => dr_disabled r.2) rows;
              dp_failure_count := count_if (fun r => negb r.1 && negb (dr_disabled r.2)) rows;
              dp_retry_count := if retry_attempted then 1 else 0;
              dp_missing := take 32 missing; dp_motors := map snd rows; dp_error := error |} |>
      <| rt_unconfirmed_disable :=
           map (fun i => (channel_name (mm_side i) ++ "/ID" ++ to_string (mm_id i))%string)
             missing |>).

(** ** [disable_hardware(request_feedback, preserve_grippers, error)] *)

Definition settle_gripper (m : MotorRecord) : Rt (B := B) unit :=
  if negb (is_gripper m) then pret tt
  else
    do state <- fetch_state (motor_of m);
    match state with
    | Some st =>
        if ams_status_code st =? 0
        then change_motor (motor_of m) (fun m => m <| gripper_state := GRIPPER_DISABLED |>)
        else pret tt
    | None => pret tt
    end.

Fixpoint each {X} (l : list X) (body : X -> Rt (B := B) unit) : Rt (B := B) unit :=
  match l with
  | [] => pret tt
  | x :: rest => body x ;;; each rest body
  end.

(** The part under [command_mutex_]. *)
Definition disable_locked (request_feedback preserve_grippers : bool) (error : string) :
    Rt (B := B) (bool * bool * list handle * Confirmation) :=
  do barrier <- establish_disable_barrier;
  let error := match barrier with
               | Some e => ("disable queue barrier failed: " ++ e)%string
               | None => error
               end in
  let barrier_confirmed := match barrier with None => true | Some _ => false end in
  do motors <- read rt_motors;
  let targets := List.filter (fun m => negb (preserve_grippers && is_gripper m)) motors in
  do sent <- send_disable_parallel targets error;
  do c <- (if request_feedback then confirm_disabled targets sent.2
           else pret (Build_Confirmation [] false [] sent.2));
  let ok :=
    if request_feedback then barrier_confirmed && (length (cf_unconfirmed c) =? 0)%nat
    else barrier_confirmed && (length sent.1 =? length targets)%nat in
  each targets settle_gripper ;;;
  pret (ok, barrier_confirmed, sent.1, c).

Definition disable_hardware (who : nat) (request_feedback preserve_grippers : bool) :
    Rt (B := B) (bool * string) :=
  do held <- (if preserve_grippers then send_gripper_hold_once who else pret (true, ""%string));
  let preserve := preserve_grippers && held.1 in
  let error := if held.1 then ""%string else ("gripper hold failed: " ++ held.2)%string in
  do r <- with_command who (disable_locked request_feedback preserve error);
  let '(ok, barrier_confirmed, sent, c) := r in
  update_disable_report ok barrier_confirmed (cf_unconfirmed c) sent (cf_retried c)
    (cf_retry_attempted c) preserve (cf_error c) ;;;
  pret (ok, cf_error c).

End Operations.
