(* ===== verification/Faults.v ===== *)
(** * Degradation, safe stop and fault

    The transitions that take control away from the user: [enter_degraded],
    [enter_safe_stop] and [enter_safe_hold_from_feedback] of
    [runtime/src/runtime_commands.cpp] and [enter_fault] of
    [runtime_safety.cpp]. *)

From Stdlib Require Import String.
From S2P Require Import Prelude Float32 Float64 RuntimeTypes Threads NativeTypes SafetyState Motions Gripper Safety Feedback Disable.
#[local] Open Scope mdl_scope.
#[local] Open Scope thread_scope.

Section Operations.
Context {B : Type} `{!MotorBackend B}.

(** [clear_pending_arm_mailbox(); arm_mailbox_ = ArmMailbox{}]. *)
Definition clear_mailboxes (s : Safety B) : Safety B :=
  s <| rt_pending := no_ArmMailbox |> <| rt_mailbox := no_ArmMailbox |>.

(** What a safe stop and a fault both take away: the mailboxes, gravity
    compensation and bimanual following. *)
Definition release_control (s : Safety B) : Safety B :=
  (clear_mailboxes s) <| rt_gravity ::= leave_gravity |>
    <| rt_bimanual ::= reset_bimanual_follow_locked |>.

Definition schedule_hold (now : Z) (t : SafetyTimers) : SafetyTimers := t <| next_safe_hold_ := now |>.
Definition reset_hold_failures (c : SafetyCounters) : SafetyCounters :=
  c <| consecutive_hold_failures_ := 0 |>.

(** [enter_degraded(reason)]. *)
Definition degrade (reason : string) (s : Safety B) : Safety B :=
  if bool_decide (state_ (rt_core s) = Running) then
    s <| rt_core ::= fun c => c <| state_ := Degraded |> <| safety_reason_ := reason |>
                                <| fault_reason_ := ""%string |> |>
  else s.

Definition enter_degraded (reason : string) : Rt (B := B) unit := write (degrade reason).

(** [enter_safe_stop(reason, error)], the part under both mutexes. *)
Definition safe_stop_refused (st : SafetyState) : bool :=
  match st with Disconnected | Ready | Fault => true | _ => false end.

Definition safe_stop (reason : string) (now : Z) (s : Safety B) : (bool * string) * Safety B :=
  if safe_stop_refused (state_ (rt_core s)) then
    ((false, "runtime state changed before safe stop"%string), s)
  else
    let s := s <| rt_core ::= fun c => c <| state_ := SafeStop |> |> in
    let s := terminate_trajectory_locked MOTION_FAULT
               ("trajectory terminated by safe stop: " ++ reason)%string s in
    let s := s <| rt_core ::= fun c => c <| fault_latched_ := false |>
                    <| fault_reason_ := ""%string |> <| safety_reason_ := reason |> |> in
    let s := release_control s in
    let s := s <| rt_timers ::= schedule_hold now |> <| rt_counters ::= reset_hold_failures |> in
    let held := holds_nonempty (rt_holds s) in
    ((held, ""%string), s <| rt_core ::= fun c => c <| fault_hold_active_ := held |> |>).

Definition enter_safe_stop (who : nat) (reason : string) : Rt (bool * string) :=
  do hold <- prepare_protective_hold who;
  if negb hold.1 then pret (false, hold.2)
  else
    do now <- clock_now;
    do r <- with_command who (act (safe_stop reason now));
    pret (r.1, if str_empty r.2 then hold.2 else r.2).

(** [enter_safe_hold_from_feedback(reason, error)]: one arm motor, whose
    feedback must be fresh, finite and enabled. *)
Definition capture_error (maximum_age : Z) (stats : option ArticoreFeedbackStats)
    (state : option ArticoreMotorState) : option string :=
  match stats with
  | None => Some ": current-position feedback is unavailable"%string
  | Some st =>
      if maximum_age <? afs_age_ns st then
        Some ": current-position feedback exceeds maximum age"%string
      else
        match state with
        | None => Some ": current-position motor state is unavailable"%string
        | Some value =>
            if negb (f32_isfinite (ams_pos value)) then
              Some ": current-position feedback is not finite"%string
            else if ams_status_code value =? 0 then Some ": motor is unexpectedly disabled"%string
            else if 1 <? ams_status_code value then
              Some (": motor fault status " ++ to_string (ams_status_code value))%string
            else None
        end
  end.

Record Capture := {
  cp_pv : list ArticorePosVelCommand;
  cp_mit : list ArticoreMitCommand;
  cp_age : Z
}.

Definition capture_motor (mode : ControlMode) (acc : string + Capture) (m : MotorRecord) :
    Rt (B := B) (string + Capture) :=
  match acc with
  | inl error => pret (inl error)
  | inr c =>
      if is_gripper m then pret acc
      else
        do config <- read rt_config;
        do stats <- fetch_stats (motor_of m);
        do state <- (match stats with
                     | Some st => if feedback_max_age_ns config <? afs_age_ns st
                                  then pret None else fetch_state (motor_of m)
                     | None => pret None
                     end);
        match capture_error (feedback_max_age_ns config) stats state, stats, state with
        | None, Some st, Some value =>
            let age := Z.max (cp_age c) (afs_age_ns st) in
            let d := descriptor m in
            pret (inr match mode with
                      | ModePv => Build_Capture
                          (cp_pv c ++ [Build_ArticorePosVelCommand (motor_of m) (ams_pos value)
                                         (safe_pv_velocity_limit config)]) (cp_mit c) age
                      | ModeMit => Build_Capture (cp_pv c)
                          (cp_mit c ++ [Build_ArticoreMitCommand (motor_of m) (ams_pos value)
                                          f32_zero (d_safe_kp d) (d_safe_kd d) f32_zero]) age
                      end)
        | Some text, _, _ => pret (inl (name_of m ++ text)%string)
        | _, _, _ => pret (inl (name_of m)%string)
        end
  end.

Definition may_hold (c : SafetyCore) : bool :=
  bool_decide (state_ c = Running) && has_successful_command_ c.

Definition install_capture (reason : string) (mode : ControlMode) (now : Z) (c : Capture)
    (s : Safety B) : option string * Safety B :=
  if negb (may_hold (rt_core s) && bool_decide (mode_ (rt_core s) = mode)) then
    (Some "runtime state changed while capturing current positions"%string, s)
  else
    let s := s <| rt_holds ::= fun h => h <| safe_pv_ := cp_pv c |> <| safe_mit_ := cp_mit c |> |>
               <| rt_core ::= fun k => k <| fault_hold_active_ := false |> |> in
    let s := clear_mailboxes s in
    (None,
     s <| rt_timers ::= fun t => (schedule_hold now t) <| last_fresh_feedback_ := now - cp_age c |> |>
       <| rt_core ::= fun k => k <| state_ := SafeHold |> <| fault_reason_ := ""%string |>
                                 <| safety_reason_ := reason |> |>
       <| rt_counters ::= reset_hold_failures |>).

Definition enter_safe_hold_from_feedback (who : nat) (reason : string) :
    Rt (B := B) (option string) :=
  do core <- read rt_core;
  if negb (may_hold core) then
    pret (Some "current-position hold requires a running arm command"%string)
  else
    with_command who (
      do motors <- read rt_motors;
      do captured <- pfold motors (capture_motor (mode_ core)) (inr (Build_Capture [] [] 0));
      match captured with
      | inl error => pret (Some error)
      | inr c =>
          if (length (cp_pv c) =? 0)%nat && (length (cp_mit c) =? 0)%nat then
            pret (Some "current-position hold requires at least one arm motor"%string)
          else
            do now <- clock_now;
            act (install_capture reason (mode_ core) now c)
      end).

(** ** [enter_fault(reason, torque_off, allow_protective_hold)] *)

(** What becomes of a gripper: it holds on where it was commanded and knows its
    position, else it is at fault. *)
Definition fault_gripper (reason : string) (held : list ArticoreMitCommand) (m : MotorRecord) :
    MotorRecord :=
  if negb (is_gripper m) then m
  else if str_empty (gripper_fault_reason m) && has_position m &&
     existsb (fun c => bool_decide (mit_motor c = motor_of m)) held then
    if bool_decide (gripper_state m = GRIPPER_OVERLOAD_RETREAT) then m
    else m <| gripper_state := GRIPPER_HOLDING |>
  else
    (m <| gripper_state := GRIPPER_FAULT |>)
      <| gripper_fault_reason ::= fun r => if str_empty r then reason else r |>.

(** The part under both mutexes; [None] where it returns because the runtime is
    disconnected. *)
Definition fault (reason : string) (torque_off allow_hold motor_fault arm_hold : bool)
    (hold_error : string) (now : Z) (s : Safety B) : bool * Safety B :=
  if bool_decide (state_ (rt_core s) = Disconnected) then (false, s)
  else
    let s := s <| rt_core ::= fun c => c <| state_ := Fault |> |> in
    let s := terminate_trajectory_locked MOTION_FAULT
               ("trajectory terminated by Runtime fault: " ++ reason)%string s in
    let s := s <| rt_core ::= fun c =>
      let text := if emergency_stop_latched_ c then "emergency stop requested"%string else reason in
      c <| fault_latched_ := true |>
        <| motor_fault_latched_ ::= fun l => l || motor_fault |>
        <| hardware_transition_ := torque_off |> <| disable_confirmed_ := false |>
        <| fault_reason_ := if allow_hold && negb (str_empty hold_error)
                            then (text ++ "; protective hold: " ++ hold_error)%string else text |>
        <| safety_reason_ := ""%string |> |> in
    let s := release_control s in
    let s := s <| rt_timers ::= schedule_hold now |> in
    let s := if allow_hold then s
             else s <| rt_holds ::= fun h =>
                    h <| safe_pv_ := [] |> <| safe_mit_ := [] |> <| safe_grippers_ := [] |> |> in
    let grippers := safe_grippers_ (rt_holds s) in
    (true,
     s <| rt_core ::= fun c => c <| fault_hold_active_ :=
            allow_hold && (arm_hold || negb (length grippers =? 0)%nat) |> |>
       <| rt_motors ::= map (fault_gripper reason grippers) |>).

(** After the torque has been taken off. *)
Definition torque_off_done (disabled preserve : bool) (error : string) (s : Safety B) : Safety B :=
  let s := s <| rt_holds ::= fun h =>
      let h := h <| safe_pv_ := [] |> <| safe_mit_ := [] |> <| last_sent_pv_ := [] |>
                 <| last_sent_mit_ := [] |> in
      if preserve then h else h <| safe_grippers_ := [] |> |> in
  s <| rt_core ::= fun c =>
      c <| disable_confirmed_ := disabled && negb preserve |> <| hardware_transition_ := false |>
        <| fault_hold_active_ :=
             preserve && negb (length (safe_grippers_ (rt_holds s)) =? 0)%nat |>
        <| fault_reason_ ::= fun r =>
             if str_empty error then r else (r ++ "; disable: " ++ error)%string |> |>.

Definition enter_fault (who : nat) (reason : string) (torque_off allow_hold : bool) :
    Rt (B := B) unit :=
  do motor_fault <- current_motor_fault_reported;
  do hold <- (if allow_hold then prepare_protective_hold who else pret (false, ""%string));
  do faulted <- with_command who (
    act (fun s : Safety B =>
      fault reason torque_off allow_hold motor_fault hold.1 hold.2 (rt_clock s) s));
  if negb faulted || negb torque_off then pret tt
  else
    do preserve <- read (fun s : Safety B =>
      allow_hold && bool_decide (gripper_fault_action (rt_config s) = GRIPPER_FAULT_HOLD) &&
      negb (length (safe_grippers_ (rt_holds s)) =? 0)%nat);
    do disabled <- disable_hardware who true preserve;
    write (torque_off_done disabled.1 preserve disabled.2).

End Operations.
