(* ===== verification/Commands.v ===== *)
(** * Accepting commands

    [runtime/src/runtime_commands.cpp] without the control cycle, the gripper
    commands of [runtime_gripper.cpp] and the planning tokens of
    [runtime_trajectory.cpp]: what the runtime requires of a command before it
    puts it where the worker will find it.  [pending_arm_mutex_] is only ever
    held inside another action.  A null pointer to commands is the empty
    list. *)

From Stdlib Require Import String.
From S2P Require Import Prelude Float32 FloatOrder Float64 PvShaping RuntimeTypes Threads NativeTypes SafetyState Motions Gripper Safety Feedback Disable Faults.
#[local] Open Scope mdl_scope.
#[local] Open Scope thread_scope.

(** ** Joint limits *)

Record ArticoreJointControlConfig := {
  jcc_motor : handle;
  jcc_lower_position : f32;
  jcc_upper_position : f32;
  jcc_velocity_limit : f32;
  jcc_torque_limit : f32;
  jcc_mit_kp : f32;
  jcc_mit_kd : f32;
  jcc_mit_feedforward_torque : f32;
  jcc_mit_fast_follow_kp : f32;
  jcc_mit_fast_follow_kd : f32;
  jcc_velocity_feedback_scale : f32
}.

Record ArticoreJointSafetyLimits := {
  jl_motor : handle;
  jl_hard_lower_position : f32;
  jl_hard_upper_position : f32;
  jl_soft_lower_position : f32;
  jl_soft_upper_position : f32;
  jl_soft_limit_braking_zone : f32;
  jl_braking_acceleration : f32
}.

Definition find_arm (motors : list MotorRecord) (motor : handle) : option MotorRecord :=
  find (fun m => negb (is_gripper m) && bool_decide (motor_of m = motor)) motors.
Definition arm_count (motors : list MotorRecord) : nat :=
  length (List.filter (fun m => negb (is_gripper m)) motors).

Definition joint_config_valid (safe_velocity : f32) (motors : list MotorRecord)
    (v : ArticoreJointControlConfig) : bool :=
  negb (bool_decide (find_arm motors (jcc_motor v) = None)) &&
  f32_isfinite (jcc_lower_position v) && f32_isfinite (jcc_upper_position v) &&
  negb (f32_gt (jcc_lower_position v) (jcc_upper_position v)) &&
  f32_isfinite (jcc_velocity_limit v) && negb (f32_le (jcc_velocity_limit v) f32_zero) &&
  negb (f32_gt safe_velocity (jcc_velocity_limit v)) &&
  f32_isfinite (jcc_torque_limit v) && negb (f32_le (jcc_torque_limit v) f32_zero) &&
  f32_isfinite (jcc_mit_kp v) && negb (f32_lt (jcc_mit_kp v) f32_zero) &&
  f32_isfinite (jcc_mit_kd v) && negb (f32_lt (jcc_mit_kd v) f32_zero) &&
  f32_isfinite (jcc_mit_feedforward_torque v) &&
  negb (f32_gt (f32_abs (jcc_mit_feedforward_torque v)) (jcc_torque_limit v)) &&
  f32_isfinite (jcc_mit_fast_follow_kp v) &&
  negb (f32_lt (jcc_mit_fast_follow_kp v) f32_zero) &&
  f32_isfinite (jcc_mit_fast_follow_kd v) &&
  negb (f32_lt (jcc_mit_fast_follow_kd v) f32_zero) &&
  f32_isfinite (jcc_velocity_feedback_scale v) &&
  negb (f32_le (jcc_velocity_feedback_scale v) f32_zero).

Definition joint_control_config (v : ArticoreJointControlConfig) : JointControlConfig :=
  {| hard_lower_position := jcc_lower_position v; hard_upper_position := jcc_upper_position v;
     soft_lower_position := jcc_lower_position v; soft_upper_position := jcc_upper_position v;
     soft_limit_braking_zone := f32_zero; braking_acceleration := f32_zero;
     jc_velocity_limit := jcc_velocity_limit v; jc_torque_limit := jcc_torque_limit v;
     jc_mit_kp := jcc_mit_kp v; jc_mit_kd := jcc_mit_kd v;
     jc_mit_feedforward_torque := jcc_mit_feedforward_torque v;
     jc_mit_fast_follow_kp := jcc_mit_fast_follow_kp v;
     jc_mit_fast_follow_kd := jcc_mit_fast_follow_kd v;
     velocity_feedback_scale := jcc_velocity_feedback_scale v;
     layered_limits_configured := false |}.

Fixpoint collect_joints (safe_velocity : f32) (motors : list MotorRecord)
    (configured : gmap handle JointControlConfig) (l : list ArticoreJointControlConfig) :
    exn + gmap handle JointControlConfig :=
  match l with
  | [] => inr configured
  | v :: rest =>
      if negb (joint_config_valid safe_velocity motors v) then
        inl (InvalidArgument "invalid joint control configuration")
      else
        match configured !! jcc_motor v with
        | Some _ => inl (InvalidArgument "duplicate joint control configuration")
        | None =>
            collect_joints safe_velocity motors
              (<[jcc_motor v := joint_control_config v]> configured) rest
        end
  end.

Definition safety_limits_valid (joints : gmap handle JointControlConfig) (seen : gset handle)
    (v : ArticoreJointSafetyLimits) : bool :=
  negb (bool_decide (joints !! jl_motor v = None)) && negb (bool_decide (jl_motor v ∈ seen)) &&
  f32_isfinite (jl_hard_lower_position v) && f32_isfinite (jl_hard_upper_position v) &&
  f32_isfinite (jl_soft_lower_position v) && f32_isfinite (jl_soft_upper_position v) &&
  f32_isfinite (jl_soft_limit_braking_zone v) && f32_isfinite (jl_braking_acceleration v) &&
  negb (f32_ge (jl_hard_lower_position v) (jl_hard_upper_position v)) &&
  negb (f32_lt (jl_soft_lower_position v) (jl_hard_lower_position v)) &&
  negb (f32_gt (jl_soft_upper_position v) (jl_hard_upper_position v)) &&
  negb (f32_ge (jl_soft_lower_position v) (jl_soft_upper_position v)) &&
  negb (f32_le (jl_soft_limit_braking_zone v) f32_zero) &&
  negb (f32_gt (jl_soft_limit_braking_zone v)
          (f32_sub (jl_soft_upper_position v) (jl_soft_lower_position v))) &&
  negb (f32_le (jl_braking_acceleration v) f32_zero).

Definition layered (v : ArticoreJointSafetyLimits) (c : JointControlConfig) : JointControlConfig :=
  {| hard_lower_position := jl_hard_lower_position v;
     hard_upper_position := jl_hard_upper_position v;
     soft_lower_position := jl_soft_lower_position v;
     soft_upper_position := jl_soft_upper_position v;
     soft_limit_braking_zone := jl_soft_limit_braking_zone v;
     braking_acceleration := jl_braking_acceleration v;
     jc_velocity_limit := jc_velocity_limit c; jc_torque_limit := jc_torque_limit c;
     jc_mit_kp := jc_mit_kp c; jc_mit_kd := jc_mit_kd c;
     jc_mit_feedforward_torque := jc_mit_feedforward_torque c;
     jc_mit_fast_follow_kp := jc_mit_fast_follow_kp c;
     jc_mit_fast_follow_kd := jc_mit_fast_follow_kd c;
     velocity_feedback_scale := velocity_feedback_scale c; layered_limits_configured := true |}.

Fixpoint apply_limits (joints : gmap handle JointControlConfig) (seen : gset handle)
    (l : list ArticoreJointSafetyLimits) : exn + gmap handle JointControlConfig :=
  match l with
  | [] => inr joints
  | v :: rest =>
      if negb (safety_limits_valid joints seen v) then
        inl (InvalidArgument "invalid layered joint safety limits")
      else apply_limits (alter (layered v) (jl_motor v) joints) ({[jl_motor v]} ∪ seen) rest
  end.

(** [validate_position_velocity_torque]: what it throws, if anything. *)
Definition validate_position_velocity_torque (joints : gmap handle JointControlConfig)
    (motors : list MotorRecord) (motor : handle) (position velocity torque : f32) : option exn :=
  if negb (f32_isfinite position && f32_isfinite velocity && f32_isfinite torque) then
    Some (InvalidArgument "joint command contains non-finite values")
  else
    match joints !! motor with
    | Some l =>
        if f32_lt position (hard_lower_position l) || f32_gt position (hard_upper_position l) then
          Some (InvalidArgument "joint command exceeds hard position limits")
        else if f32_lt position (soft_lower_position l) || f32_gt position (soft_upper_position l)
        then Some (InvalidArgument "joint command exceeds position limits")
        else if f32_gt (f32_abs velocity) (jc_velocity_limit l) then
          Some (InvalidArgument "joint command exceeds velocity limit")
        else if f32_gt (f32_abs torque) (jc_torque_limit l) then
          Some (InvalidArgument "joint command exceeds torque limit")
        else None
    | None =>
        match find_motor motors motor with
        | Some m =>
            if f32_lt position (d_lower_position (descriptor m)) ||
               f32_gt position (d_upper_position (descriptor m))
            then Some (InvalidArgument "joint command exceeds position limits") else None
        | None => None
        end
    end.

(** ** The motors a command addresses *)

Fixpoint check_handles (motors : list MotorRecord) (grippers_only : bool) (seen : list handle)
    (l : list handle) : option exn :=
  match l with
  | [] => None
  | motor :: rest =>
      if negb (existsb (fun m => bool_decide (motor_of m = motor) &&
                                 Bool.eqb (is_gripper m) grippers_only) motors) then
        Some (InvalidArgument "command contains an unexpected motor")
      else if existsb (Nat.eqb motor) seen then
        Some (InvalidArgument "command contains duplicate motors")
      else check_handles motors grippers_only (seen ++ [motor]) rest
  end.

Definition expected_count (motors : list MotorRecord) (grippers_only : bool) : nat :=
  length (List.filter (fun m => Bool.eqb (is_gripper m) grippers_only) motors).

(** [validate_motor_set], of position-velocity and of impedance commands. *)
Definition validate_pv_set (motors : list MotorRecord) (grippers_only : bool) (l : list handle) :
    option exn :=
  if negb (length l =? expected_count motors grippers_only)%nat then
    Some (InvalidArgument "command must contain the complete fixed motor layout")
  else check_handles motors grippers_only [] l.

Definition validate_mit_set (motors : list MotorRecord) (grippers_only : bool) (l : list handle) :
    option exn :=
  let expected := expected_count motors grippers_only in
  if negb (length l =? expected)%nat && negb grippers_only then
    Some (InvalidArgument "command must contain the complete fixed motor layout")
  else if grippers_only && ((length l =? 0)%nat || (expected <? length l)%nat) then
    Some (InvalidArgument "gripper command contains an invalid motor count")
  else check_handles motors grippers_only [] l.

(** ** Values *)

Definition check_pv (joints : gmap handle JointControlConfig) (motors : list MotorRecord)
    (c : ArticorePosVelCommand) : option exn :=
  if (pv_motor c =? 0)%nat || negb (f32_isfinite (pv_target_position c)) ||
     negb (f32_isfinite (pv_velocity_limit c)) || f32_le (pv_velocity_limit c) f32_zero then
    Some (InvalidArgument "PV command contains invalid values")
  else
    validate_position_velocity_torque joints motors (pv_motor c) (pv_target_position c)
      (pv_velocity_limit c) f32_zero.

Definition mit_values_valid (c : ArticoreMitCommand) : bool :=
  negb (mit_motor c =? 0)%nat && f32_isfinite (mit_target_position c) &&
  f32_isfinite (mit_target_velocity c) && f32_isfinite (mit_stiffness c) &&
  f32_isfinite (mit_damping c) && f32_isfinite (mit_feedforward_torque c) &&
  negb (f32_lt (mit_stiffness c) f32_zero) && negb (f32_lt (mit_damping c) f32_zero).

Definition check_mit (joints : gmap handle JointControlConfig) (motors : list MotorRecord)
    (lifetime : ArticoreCommandLifetime) (c : ArticoreMitCommand) : option exn :=
  if negb (mit_values_valid c) then
    Some (InvalidArgument "MIT command contains invalid values")
  else if bool_decide (lifetime = COMMAND_HOLD_UNTIL_REPLACED) &&
     (negb (SFeqb (mit_target_velocity c) f32_zero) ||
      negb (SFeqb (mit_feedforward_torque c) f32_zero)) then
    Some (InvalidArgument
      "persistent MIT command requires zero target velocity and feedforward torque")
  else
    validate_position_velocity_torque joints motors (mit_motor c) (mit_target_position c)
      (mit_target_velocity c) (mit_feedforward_torque c).

(** The checks of a loop, in order. *)
Fixpoint first_exn {A} (check : A -> option exn) (l : list A) : option exn :=
  match l with
  | [] => None
  | x :: rest => match check x with Some e => Some e | None => first_exn check rest end
  end.

(** The gripper commands of [submit_gripper_mit]. *)
Definition check_gripper_mit (c : ArticoreMitCommand) : option exn :=
  if mit_values_valid c then None else Some (InvalidArgument "invalid gripper MIT command").

(** ** Gripper targets *)

Record ValidatedGripper := {
  vg_motor : handle;
  vg_opening : f32;
  vg_position : f32;
  vg_normalized_speed : f32;
  vg_speed : f32;
  vg_force_level : Z
}.

Definition validate_gripper (motors : list MotorRecord) (seen : gset handle)
    (c : ArticoreGripperCommand) : option ValidatedGripper :=
  match find_gripper motors (gcmd_motor c) with
  | None => None
  | Some m =>
      if bool_decide (gcmd_motor c ∈ seen) || negb (f32_isfinite (gcmd_opening c)) ||
         f32_lt (gcmd_opening c) f32_zero || f32_gt (gcmd_opening c) (f32_of_Z 1000) ||
         negb (f32_isfinite (gcmd_speed c)) || f32_le (gcmd_speed c) f32_zero ||
         f32_gt (gcmd_speed c) (f32_of_Z 1000) ||
         bool_decide (force_profiles m !! gcmd_force_level c = None)
      then None
      else Some {| vg_motor := gcmd_motor c; vg_opening := gcmd_opening c;
                   vg_position := opening_to_position m (gcmd_opening c);
                   vg_normalized_speed := gcmd_speed c;
                   vg_speed := f32_div (f32_mul (d_close_speed (descriptor m)) (gcmd_speed c))
                                 (f32_of_Z 1000);
                   vg_force_level := gcmd_force_level c |}
  end.

Fixpoint validate_grippers (motors : list MotorRecord) (seen : gset handle)
    (l : list ArticoreGripperCommand) : exn + list ValidatedGripper :=
  match l with
  | [] => inr []
  | c :: rest =>
      match validate_gripper motors seen c with
      | None => inl (InvalidArgument
                  "invalid gripper opening, speed, force level, or motor")
      | Some v =>
          match validate_grippers motors ({[gcmd_motor c]} ∪ seen) rest with
          | inl e => inl e
          | inr l => inr (v :: l)
          end
      end
  end.

(** A gripper takes a new target. *)
Definition target_gripper (mode : ArticoreGripperMode) (v : ValidatedGripper) (m : MotorRecord) :
    MotorRecord :=
  let target_changed := negb (has_gripper_target m) ||
    f32_gt (f32_abs (f32_sub (vg_position v) (requested_position m))) (f32_lit 1 1000000) in
  let force_changed := negb (force_level m =? vg_force_level v) in
  let mode_changed := negb (bool_decide (gripper_mode m = mode)) in
  let m := m <| requested_opening := vg_opening v |> <| requested_position := vg_position v |>
             <| requested_speed := vg_normalized_speed v |> <| command_speed := vg_speed v |>
             <| force_level := vg_force_level v |> <| gripper_mode := mode |>
             <| has_gripper_target := true |> <| gripper_fault_reason := ""%string |> in
  if target_changed || mode_changed then
    m <| gripper_state := GRIPPER_MOVING |> <| contact_detected := false |>
      <| stalled := false |> <| overload := false |> <| protective_target_active := false |>
      <| retreat_active := false |> <| contact_started_at := 0 |> <| overload_started_at := 0 |>
      <| motion_samples := [] |>
  else if force_changed && bool_decide (gripper_state m = GRIPPER_MOVING) then
    m <| contact_started_at := 0 |> <| overload_started_at := 0 |> <| motion_samples := [] |>
  else m.

(** The opening targets: finite, without duplicates. *)
Fixpoint check_openings (seen : list handle) (l : list ArticoreGripperTarget) : option exn :=
  match l with
  | [] => None
  | t :: rest =>
      if (gt_motor t =? 0)%nat || negb (f32_isfinite (gt_opening t)) then
        Some (InvalidArgument "gripper opening must be finite")
      else if existsb (Nat.eqb (gt_motor t)) seen then
        Some (InvalidArgument "gripper target contains duplicate motors")
      else check_openings (seen ++ [gt_motor t]) rest
  end.

(** ** Torque limit of impedance commands *)

(** What a joint would be asked for, in double precision. *)
Definition resultant_torque (c : ArticoreMitCommand) (state : ArticoreMotorState) : f64 :=
  let w := f64_of_f32 in
  f64_add
    (f64_add
       (f64_mul (w (mit_stiffness c)) (f64_sub (w (mit_target_position c)) (w (ams_pos state))))
       (f64_mul (w (mit_damping c)) (f64_sub (w (mit_target_velocity c)) (w (ams_vel state)))))
    (w (mit_feedforward_torque c)).

(** The command and the scale of one joint. *)
Definition limit_torque (limit : f32) (requested : f32) (c : ArticoreMitCommand) :
    ArticoreMitCommand * f32 :=
  if f32_gt (f32_abs requested) limit then
    let scale := f32_div limit (f32_abs requested) in
    (c <| mit_stiffness ::= fun k => f32_mul k scale |>
       <| mit_damping ::= fun k => f32_mul k scale |>
       <| mit_feedforward_torque ::= fun k => f32_mul k scale |>, scale)
  else (c, f32_of_Z 1).

Definition record_torque (index : nat) (limited : bool) (requested scale : f32)
    (t : MitTorqueLimitStats) : MitTorqueLimitStats :=
  t <| tl_limited_joint_mask ::=
         fun mask => if limited then Z.lor mask (Z.shiftl 1 (Z.of_nat index)) else mask |>
    <| tl_requested_resultant_torque ::= <[index := requested]> |>
    <| tl_applied_scale ::= <[index := scale]> |>
    <| tl_applied_resultant_torque ::= <[index := f32_mul requested scale]> |>.

(** The second loop: the applied commands and the statistics, or the error. *)
Fixpoint limit_joints (joints : gmap handle JointControlConfig) (roles : gmap handle string)
    (torque_scale : f32) (index : nat) (l : list (ArticoreMitCommand * ArticoreMotorState))
    (stats : MitTorqueLimitStats) : string + (list ArticoreMitCommand * MitTorqueLimitStats) :=
  match l with
  | [] => inr ([], stats)
  | (c, state) :: rest =>
      let role := default ""%string (roles !! mit_motor c) in
      let limit := match joints !! mit_motor c with
                   | Some j => f32_mul (jc_torque_limit j) torque_scale
                   | None => f32_zero
                   end in
      let resultant := resultant_torque c state in
      let requested := f32_of_f64 resultant in
      if negb (f64_isfinite resultant) then
        inl (role ++ ": MIT resultant torque is not finite")%string
      else if negb (f32_isfinite requested) then
        inl (role ++ ": MIT resultant torque exceeds the native command range")%string
      else
        let '(c', scale) := limit_torque limit requested c in
        let limited := f32_gt (f32_abs requested) limit in
        match limit_joints joints roles torque_scale (S index) rest
                (record_torque index limited requested scale stats) with
        | inl e => inl e
        | inr (l', stats') => inr (c' :: l', stats')
        end
  end.

(** ** Acceptance *)

(** [require_state_for_command(allow_gravity, allow_trajectory,
    planning_token)]. *)
Definition command_state (st : SafetyState) : bool :=
  match st with Enabled | Running | Degraded | PartiallyEnabled => true | _ => false end.

Section Operations.
Context {B : Type} `{!MotorBackend B}.

Definition require_state_for_command (allow_gravity allow_trajectory : bool)
    (planning_token : Z) (s : Safety B) : option exn :=
  let c := rt_core s in
  if fault_latched_ c || hardware_transition_ c || enable_transaction_ c ||
     enable_grace_transition_ c || negb (command_state (state_ c)) then
    Some (RuntimeError "Articore runtime is not accepting motion commands")
  else if negb (active_command_planning_token_ c =? 0) &&
     negb (active_command_planning_token_ c =? planning_token) then
    Some (RuntimeError "motion commands are owned by an active native planning transaction")
  else if negb allow_gravity && negb (bool_decide (gv_phase (rt_gravity s) = GRAVITY_INACTIVE))
  then Some (RuntimeError "arm commands are owned by active gravity compensation")
  else if negb allow_trajectory && bool_decide (tc_state (rt_trajectory s) = MOTION_RUNNING)
  then Some (RuntimeError "arm commands are owned by an active native trajectory")
  else None.

(** [joint_config(motor)]. *)
Definition joint_config (motor : handle) (s : Safety B) : exn + JointControlConfig :=
  match rt_joints s !! motor with
  | Some c => inr c
  | None => inl (RuntimeError
      "joint control configuration is required for native joint control")
  end.

(** A section under [state_mutex_] that may throw. *)
Definition guarded {A} (check : Safety B -> option exn) (f : Safety B -> A * Safety B) :
    Rt (B := B) A :=
  do r <- act (fun s : Safety B =>
    match check s with
    | Some e => (inl e, s)
    | None => let '(a, s') := f s in (inr a, s')
    end);
  except r.

(** [configure_joints] and [configure_joint_safety_limits]. *)
Definition configure_joints (l : list ArticoreJointControlConfig) : Rt (B := B) unit :=
  match l with
  | [] => pthrow (InvalidArgument "joint control configuration is empty")
  | _ =>
      do p <- read (fun s : Safety B => (rt_motors s, safe_pv_velocity_limit (rt_config s)));
      if negb (length l =? arm_count p.1)%nat then
        pthrow (InvalidArgument "joint control configuration must cover every active arm motor")
      else
        do configured <- except (collect_joints p.2 p.1 ∅ l);
        guarded (fun s : Safety B =>
            if bool_decide (state_ (rt_core s) = Disconnected) then None
            else Some (RuntimeError "joint configuration is fixed after connect"))
          (fun s : Safety B => (tt, s <| rt_joints := configured |>))
  end.

Definition store_limits (l : list ArticoreJointSafetyLimits) (s : Safety B) :
    (exn + unit) * Safety B :=
  if negb (bool_decide (state_ (rt_core s) = Disconnected)) then
    (inl (RuntimeError "joint safety limits are fixed after connect"), s)
  else if (size (rt_joints s) =? 0)%nat || negb (length l =? size (rt_joints s))%nat then
    (inl (InvalidArgument "joint safety limits must cover every configured arm motor"), s)
  else
    match apply_limits (rt_joints s) ∅ l with
    | inl e => (inl e, s)
    | inr joints => (inr tt, s <| rt_joints := joints |>)
    end.

Definition configure_joint_safety_limits (l : list ArticoreJointSafetyLimits) :
    Rt (B := B) unit :=
  match l with
  | [] => pthrow (InvalidArgument "joint safety limits are empty")
  | _ => do r <- act (store_limits l); except r
  end.

(** ** The mailboxes *)

(** [next_arm_generation()]. *)
Definition next_arm_generation : Rt (B := B) Z :=
  act (fun s : Safety B =>
    let n := u64 (arm_generation_ (rt_counters s) + 1) in
    (n, s <| rt_counters ::= fun c => c <| arm_generation_ := n |> |>)).

(** [consume_pending_arm_mailbox()]. *)
Definition consume_pending (s : Safety B) : Safety B :=
  if mb_valid (rt_pending s) then s <| rt_mailbox := rt_pending s |> <| rt_pending := no_ArmMailbox |>
  else s.

Definition user_mailbox (lifetime : ArticoreCommandLifetime) (generation now : Z)
    (pv : list ArticorePosVelCommand) (mit : list ArticoreMitCommand) : ArmMailbox :=
  no_ArmMailbox <| mb_valid := true |> <| mb_user_command := true |> <| mb_lifetime := lifetime |>
    <| mb_generation := generation |> <| mb_submitted_at := now |> <| mb_pv := pv |>
    <| mb_mit := mit |>.

(** The last section of a submission. *)
Definition accept_pending (mode : ControlMode) (bimanual_text mode_text : string) (s : Safety B) :
    option exn :=
  match require_state_for_command false false 0 s with
  | Some e => Some e
  | None =>
      if bm_active (rt_bimanual s) then Some (RuntimeError bimanual_text)
      else if negb (bool_decide (mode_ (rt_core s) = mode)) then Some (RuntimeError mode_text)
      else None
  end.

Definition rejected (o : option exn) : Rt (B := B) unit := rethrow o.

(** [submit_pos_vel_ex(commands, count, lifetime)] and [submit_pos_vel]. *)
Definition submit_pos_vel_ex (l : list ArticorePosVelCommand)
    (lifetime : ArticoreCommandLifetime) : Rt (B := B) unit :=
  match l with
  | [] => pthrow (InvalidArgument "PV command is empty")
  | _ =>
      do p <- read (fun s : Safety B => (rt_joints s, rt_motors s));
      rejected (first_exn (check_pv p.1 p.2) l) ;;;
      rejected (validate_pv_set p.2 false (map pv_motor l)) ;;;
      do generation <- next_arm_generation;
      do now <- clock_now;
      guarded (accept_pending ModePv
                 "raw PV cannot replace active bimanual ordinary control"
                 "cannot submit PV while runtime mode is MIT")
        (fun s : Safety B => (tt, s <| rt_pending := user_mailbox lifetime generation now l [] |>))
  end.

Definition submit_pos_vel (l : list ArticorePosVelCommand) : Rt (B := B) unit :=
  submit_pos_vel_ex l COMMAND_STREAMING.

(** [submit_mit_ex(commands, count, lifetime)] and [submit_mit]. *)
Definition submit_mit_ex (l : list ArticoreMitCommand) (lifetime : ArticoreCommandLifetime) :
    Rt (B := B) unit :=
  match l with
  | [] => pthrow (InvalidArgument "MIT command is empty")
  | _ =>
      do p <- read (fun s : Safety B => (rt_joints s, rt_motors s));
      rejected (first_exn (check_mit p.1 p.2 lifetime) l) ;;;
      rejected (validate_mit_set p.2 false (map mit_motor l)) ;;;
      do generation <- next_arm_generation;
      do now <- clock_now;
      guarded (accept_pending ModeMit
                 "raw MIT cannot replace active bimanual ordinary control"
                 "cannot submit MIT while runtime mode is PV")
        (fun s : Safety B => (tt, s <| rt_pending := user_mailbox lifetime generation now [] l |>))
  end.

Definition submit_mit (l : list ArticoreMitCommand) : Rt (B := B) unit :=
  submit_mit_ex l COMMAND_STREAMING.

(** [initialize_arm_mailbox_from_feedback(mode, require_enabled)], under
    [command_mutex_]. *)
Definition init_feedback_ok (require_enabled : bool) (maximum_age : Z)
    (stats : option ArticoreFeedbackStats) (state : option ArticoreMotorState) :
    option ArticoreMotorState :=
  match stats, state with
  | Some st, Some value =>
      if (maximum_age <? afs_age_ns st) || negb (values_finite value) ||
         (1 <? ams_status_code value) ||
         (require_enabled && negb (ams_status_code value =? 1))
      then None else Some value
  | _, _ => None
  end.

Definition init_motor (mode : ControlMode) (require_enabled : bool) (mb : ArmMailbox)
    (m : MotorRecord) : Rt (B := B) ArmMailbox :=
  if is_gripper m then pret mb
  else
    do p <- read (fun s : Safety B => (rt_config s, rt_joints s));
    let age := feedback_max_age_ns p.1 in
    do stats <- fetch_stats (motor_of m);
    do state <- (match stats with
                 | Some st => if age <? afs_age_ns st then pret None else fetch_state (motor_of m)
                 | None => pret None
                 end);
    match init_feedback_ok require_enabled age stats state with
    | None => pthrow (RuntimeError (name_of m ++
        (if require_enabled then ": fresh enabled feedback is required before enable"
         else ": fresh fault-free feedback is required before enable"))%string)
    | Some value =>
        let pos := ams_pos value in
        let mb := mb <| mb_final_positions ::= fun l => l ++ [pos] |> in
        pret match mode with
             | ModePv =>
                 mb <| mb_pv ::= fun l => l ++ [Build_ArticorePosVelCommand (motor_of m) pos
                                                  (safe_pv_velocity_limit p.1)] |>
                    <| mb_pv_reference_positions ::= fun l => l ++ [pos] |>
                    <| mb_pv_reference_velocities ::= fun l => l ++ [f32_zero] |>
                    <| mb_pv_drive_velocity_commands ::= fun l => l ++ [f32_zero] |>
                    <| mb_pv_hold_confirmation_cycles ::= fun l => l ++ [0] |>
                    <| mb_pv_stationary_hold ::= fun l => l ++ [false] |>
             | ModeMit =>
                 let '(kp, kd, tau) :=
                   match p.2 !! motor_of m with
                   | Some j => (jc_mit_kp j, jc_mit_kd j, jc_mit_feedforward_torque j)
                   | None => (d_safe_kp (descriptor m), d_safe_kd (descriptor m), f32_zero)
                   end in
                 mb <| mb_mit ::= fun l => l ++
                        [Build_ArticoreMitCommand (motor_of m) pos f32_zero kp kd tau] |>
             end
    end.

Definition initialize_arm_mailbox_from_feedback (mode : ControlMode) (require_enabled : bool) :
    Rt (B := B) unit :=
  do generation <- next_arm_generation;
  do now <- clock_now;
  do p <- read (fun s : Safety B => (rt_motors s, safe_pv_velocity_limit (rt_config s)));
  let start := no_ArmMailbox <| mb_valid := true |>
    <| mb_lifetime := COMMAND_HOLD_UNTIL_REPLACED |> <| mb_generation := generation |>
    <| mb_submitted_at := now |> <| mb_joint_position := true |>
    <| mb_max_reference_acceleration :=
         match mode with
         | ModePv => kNativeOrdinaryPvDefaultAcceleration
         | ModeMit => f32_zero
         end |>
    <| mb_pv_velocity_limit := p.2 |> in
  do mb <- pfold p.1 (init_motor mode require_enabled) start;
  if (length (mb_pv mb) =? 0)%nat && (length (mb_mit mb) =? 0)%nat then
    pthrow (RuntimeError "runtime requires at least one active arm motor")
  else write (fun s : Safety B => s <| rt_mailbox := mb |>).

(** ** Torque limiting *)

(** The first loop of [prepare_mit_torque_limited_commands]: the feedback each
    joint is limited with, or the error. *)
Definition torque_feedback (acc : string + list (ArticoreMitCommand * ArticoreMotorState))
    (c : ArticoreMitCommand) :
    Rt (B := B) (string + list (ArticoreMitCommand * ArticoreMotorState)) :=
  match acc with
  | inl e => pret (inl e)
  | inr l =>
      do p <- read (fun s : Safety B => (rt_joints s !! mit_motor c, rt_roles s !! mit_motor c));
      let name := default "unknown arm motor"%string p.2 in
      match p.1 with
      | None => pret (inl (name ++ ": MIT torque limit configuration is unavailable")%string)
      | Some _ =>
          do state <- fetch_state (mit_motor c);
          pret match state with
               | None => inl (name ++
                   ": MIT torque limit requires finite position/velocity feedback")%string
               | Some st =>
                   if negb (f32_isfinite (ams_pos st) && f32_isfinite (ams_vel st)) then
                     inl (name ++
                       ": MIT torque limit requires finite position/velocity feedback")%string
                   else if negb (ams_status_code st =? 1) then
                     inl (name ++
                       ": MIT torque limit requires enabled feedback; actual_status=" ++
                       to_string (ams_status_code st))%string
                   else inr (l ++ [(c, st)])
               end
      end
  end.

Definition prepare_mit_torque_limited_commands (requested : list ArticoreMitCommand)
    (torque_scale : f32) : Rt (B := B) (string + (list ArticoreMitCommand * MitTorqueLimitStats)) :=
  if (PRODUCT_DUAL_ARM_DOF <? length requested)%nat then
    pret (inl "MIT torque limiter received too many arm joints"%string)
  else
    let stats := fresh_TorqueLimitStats <| tl_joint_count := Z.of_nat (length requested) |> in
    do p <- read (fun s : Safety B => (rt_joints s, rt_roles s));
    if (size p.1 =? 0)%nat then pret (inr (requested, stats))
    else
      do feedback <- pfold requested torque_feedback (inr []);
      pret match feedback with
           | inl e => inl e
           | inr l => limit_joints p.1 p.2 torque_scale 0 l stats
           end.

(** ** Gripper commands *)

(** The hold that replaces a raw gripper command. *)
Definition keep_gripper_command (acc : option exn) (c : ArticoreMitCommand) (s : Safety B) :
    option exn * Safety B :=
  match acc with
  | Some e => (Some e, s)
  | None =>
      match find_motor (rt_motors s) (mit_motor c) with
      | None => (None, s)
      | Some m =>
          match active_gripper_profile m with
          | inl e => (Some e, s)
          | inr profile =>
              let safe := c <| mit_target_velocity := f32_zero |>
                            <| mit_feedforward_torque := f32_zero |>
                            <| mit_stiffness := gf_hold_kp profile |>
                            <| mit_damping := gf_hold_kd profile |> in
              let replace l :=
                if existsb (fun v => bool_decide (mit_motor v = mit_motor c)) l
                then map (fun v => if bool_decide (mit_motor v = mit_motor c) then safe else v) l
                else l ++ [safe] in
              (None,
               s <| rt_motors ::= update_motor (mit_motor c) (fun m =>
                      m <| retreat_active := false |> <| protective_target_active := false |>
                        <| contact_started_at := 0 |> <| overload_started_at := 0 |>
                        <| last_retreat_at := 0 |> <| motion_samples := [] |>) |>
                 <| rt_holds ::= fun h => h <| safe_grippers_ ::= replace |> |>)
          end
      end
  end.

Definition keep_gripper_commands (l : list ArticoreMitCommand) (s : Safety B) :
    option exn * Safety B :=
  fold_left (fun r c => keep_gripper_command r.1 c r.2) l (None, s).

Definition command_allowed (allow_gravity : bool) : Rt (B := B) unit :=
  guarded (require_state_for_command allow_gravity false 0) (fun s => (tt, s)).

(** [submit_gripper_mit(commands, count)]. *)
Definition submit_gripper_mit (who : nat) (l : list ArticoreMitCommand) : Rt (B := B) unit :=
  match l with
  | [] => pthrow (InvalidArgument "gripper command is empty")
  | _ =>
      rejected (first_exn check_gripper_mit l) ;;;
      do motors <- read rt_motors;
      rejected (validate_mit_set motors true (map mit_motor l)) ;;;
      command_allowed true ;;;
      do error <- with_command who (
        command_allowed true ;;;
        do rc <- send_mit l;
        if negb (rc =? 0) then
          do error <- motor_error "gripper group send failed"; pret (Some error)
        else
          do e <- act (keep_gripper_commands l);
          rejected e ;;; pret None);
      match error with
      | None => pret tt
      | Some error =>
          write (fun s : Safety B => s <| rt_counters ::= bump_send_failures |>) ;;;
          do hold <- enter_safe_hold_from_feedback who ("gripper send failed: " ++ error)%string;
          (match hold with
           | None => pret tt
           | Some hold_error =>
               enter_fault who ("gripper send failed: " ++ error ++
                 "; current-position hold unavailable: " ++ hold_error)%string false true
           end) ;;;
          pthrow (RuntimeError error)
      end
  end.

(** [set_gripper_commands(commands, count, mode)]. *)
Definition store_targets (mode : ArticoreGripperMode) (l : list ValidatedGripper) (now : Z)
    (s : Safety B) : Safety B :=
  s <| rt_motors ::= fun motors =>
         fold_left (fun a v => update_motor (vg_motor v) (target_gripper mode v) a) l motors |>
    <| rt_counters ::= fun c => c <| gripper_command_generation_ ::= fun n => u64 (n + 1) |> |>
    <| rt_timers ::= fun t => t <| next_gripper_control_ := now |> |>.

Definition set_gripper_commands (who : nat) (l : list ArticoreGripperCommand)
    (mode : ArticoreGripperMode) : Rt (B := B) unit :=
  match l with
  | [] => pthrow (InvalidArgument "gripper command is empty")
  | _ =>
      do motors <- read rt_motors;
      if negb (length l =? gripper_count motors)%nat then
        pthrow (InvalidArgument "gripper command must contain every active product gripper")
      else
        do validated <- except (validate_grippers motors ∅ l);
        command_allowed true ;;;
        with_command who (
          guarded (require_state_for_command true false 0)
            (fun s : Safety B => (tt, store_targets mode validated (rt_clock s) s)))
  end.

(** [set_gripper_openings(targets, count)]. *)
Definition set_gripper_openings (who : nat) (l : list ArticoreGripperTarget) : Rt (B := B) unit :=
  match l with
  | [] => pthrow (InvalidArgument "gripper opening target is empty")
  | _ =>
      do motors <- read rt_motors;
      if negb (length l =? gripper_count motors)%nat then
        pthrow (InvalidArgument "gripper target must contain every active product gripper")
      else
        rejected (check_openings [] l) ;;;
        set_gripper_commands who
          (map (fun t => Build_ArticoreGripperCommand (gt_motor t) (clamp_opening (gt_opening t))
                           (f32_of_Z 1000) GRIPPER_FORCE_DEFAULT) l)
          GRIPPER_MODE_PROTECTED
  end.

(** ** Planning tokens *)

(** [begin_command_planning(transaction, allow_trajectory)], inside a command
    transaction; a token is never zero. *)
Definition take_token (s : Safety B) : Z * Safety B :=
  let c := rt_core s in
  let first := next_command_planning_token_ c in
  let next := u64 (first + 1) in
  let '(token, next) := if first =? 0 then (next, u64 (next + 1)) else (first, next) in
  (token, s <| rt_core ::= fun c => c <| next_command_planning_token_ := next |>
                                      <| active_command_planning_token_ := token |> |>).

Definition begin_command_planning (allow_trajectory : bool) : Rt (B := B) Z :=
  guarded (fun s : Safety B =>
    match require_state_for_command false allow_trajectory 0 s with
    | Some e => Some e
    | None =>
        if negb (active_command_planning_token_ (rt_core s) =? 0)
        then Some (RuntimeError "another command is already being planned") else None
    end) take_token.

(** [cancel_command_planning(token)]. *)
Definition cancel_command_planning (token : Z) : Rt (B := B) unit :=
  if token =? 0 then pret tt
  else write (fun s : Safety B =>
    if active_command_planning_token_ (rt_core s) =? token
    then s <| rt_core ::= fun c => c <| active_command_planning_token_ := 0 |> |> else s).

End Operations.
