(* ===== verification/Planning.v ===== *)
(** * Starting a trajectory

    [SafetyRuntime::start_trajectory] of [runtime/src/runtime_trajectory.cpp].
    The request is checked and turned into segments without touching the
    runtime ([prepare_trajectory]); under [command_mutex_] the state and the
    feedback of every joint are checked, and the motion is queued or replaces
    the command in the mailbox.  A command transaction that is passed in is the
    mutex being held by the caller, so its two checks are not repeated. *)

From Stdlib Require Import String.
From S2P Require Import Prelude Float32 Float64 RuntimeTypes Threads NativeTypes Trajectory SafetyState Motions Gripper Safety Feedback Disable Faults Commands.
#[local] Open Scope mdl_scope.
#[local] Open Scope thread_scope.

(** ** The request *)

Record NativeTrajectoryWaypoint := {
  wp_time_s : f64;
  wp_positions : list f32;
  wp_velocities : list f32;
  wp_accelerations : list f32;
  wp_velocity_valid_mask : Z;
  wp_acceleration_valid_mask : Z
}.

#[export] Instance eta_NativeTrajectoryWaypoint : Eta NativeTrajectoryWaypoint := fun r =>
  Build_NativeTrajectoryWaypoint (wp_time_s r) (wp_positions r) (wp_velocities r)
    (wp_accelerations r) (wp_velocity_valid_mask r) (wp_acceleration_valid_mask r).

Record NativeTrajectoryRequest := {
  rq_mode : ControlMode;
  rq_operation : ArticoreRuntimeOperation;
  rq_execution : NativeTrajectoryExecution;
  rq_pv_reference_velocity : f32;
  rq_pv_reference_acceleration : f32;
  rq_pv_drive_velocity_limit : f32;
  rq_allow_out_of_limit_start_recovery : bool;
  rq_approach_segment_count : Z;
  rq_approach_deadline_s : f64;
  rq_completion_deadline_s : f64;
  rq_cartesian_tracking_joint_mask : Z;
  rq_joints : list NativeTrajectoryJoint;
  rq_waypoints : list NativeTrajectoryWaypoint;
  rq_approach_convergence_check : option ConvergenceCheck;
  rq_final_convergence_check : option ConvergenceCheck
}.

#[export] Instance eta_NativeTrajectoryRequest : Eta NativeTrajectoryRequest := fun r =>
  Build_NativeTrajectoryRequest (rq_mode r) (rq_operation r) (rq_execution r)
    (rq_pv_reference_velocity r) (rq_pv_reference_acceleration r) (rq_pv_drive_velocity_limit r)
    (rq_allow_out_of_limit_start_recovery r) (rq_approach_segment_count r)
    (rq_approach_deadline_s r) (rq_completion_deadline_s r) (rq_cartesian_tracking_joint_mask r)
    (rq_joints r) (rq_waypoints r) (rq_approach_convergence_check r)
    (rq_final_convergence_check r).

Definition kNativeMaximumTrajectoryWaypoints : Z := 30000.
Definition kStartPositionTolerance : f32 := f32_lit 5 100.
Definition kStartVelocityTolerance : f32 := f32_lit 1 10.

Definition pv_execution (rq : NativeTrajectoryRequest) : bool :=
  bool_decide (rq_execution rq = TrajectoryPv).

Definition invalid {A} (text : string) : exn + A := inl (InvalidArgument text).

(** The checks of a sequence of [if (...) throw]. *)
Definition refuse_if (b : bool) (text : string) : option exn :=
  if b then Some (InvalidArgument text) else None.

Fixpoint first_refusal (l : list (option exn)) : option exn :=
  match l with
  | [] => None
  | Some e :: _ => Some e
  | None :: rest => first_refusal rest
  end.

Definition positive_finite (x : f32) : bool := f32_isfinite x && negb (f32_le x f32_zero).

(** ** Joints of the request *)

Definition request_joint_valid (motors : list MotorRecord) (seen : gset handle)
    (j : NativeTrajectoryJoint) : bool :=
  negb (tj_motor j =? 0)%nat && negb (bool_decide (find_arm motors (tj_motor j) = None)) &&
  negb (bool_decide (tj_motor j ∈ seen)) &&
  f32_isfinite (tj_direction j) && SFeqb (f32_abs (tj_direction j)) f32_one &&
  positive_finite (tj_velocity_command_scale j) && positive_finite (tj_velocity_feedback_scale j) &&
  positive_finite (tj_torque_command_scale j) &&
  f32_isfinite (tj_lower_position j) && f32_isfinite (tj_upper_position j) &&
  negb (f32_ge (tj_lower_position j) (tj_upper_position j)) &&
  positive_finite (tj_velocity_limit j) && positive_finite (tj_acceleration_limit j) &&
  positive_finite (tj_torque_limit j).

Definition request_mit_valid (j : NativeTrajectoryJoint) : bool :=
  f32_isfinite (tj_mit_kp j) && negb (f32_lt (tj_mit_kp j) f32_zero) &&
  negb (f32_gt (tj_mit_kp j) (f32_of_Z 500)) &&
  f32_isfinite (tj_mit_kd j) && negb (f32_lt (tj_mit_kd j) f32_zero) &&
  negb (f32_gt (tj_mit_kd j) (f32_of_Z 5)) &&
  f32_isfinite (tj_mit_feedforward_torque j) &&
  negb (f32_gt (f32_abs (tj_mit_feedforward_torque j)) (tj_torque_limit j)).

Definition check_request_joint (rq : NativeTrajectoryRequest) (motors : list MotorRecord)
    (seen : gset handle) (j : NativeTrajectoryJoint) : option exn :=
  let role := joint_role j in
  let pv := match rq_mode rq with ModePv => true | ModeMit => false end in
  first_refusal
    [refuse_if (negb (request_joint_valid motors seen j))
       ("trajectory contains invalid joint configuration for " ++ role)%string;
     refuse_if (negb pv && negb (request_mit_valid j))
       ("trajectory contains invalid MIT configuration for " ++ role)%string;
     refuse_if (pv && (negb (positive_finite (tj_pv_velocity_limit j)) ||
                       f32_gt (tj_pv_velocity_limit j) (tj_velocity_limit j)))
       ("trajectory contains invalid PV velocity limit for " ++ role)%string;
     refuse_if (pv && (negb (f32_isfinite (tj_pv_hold_velocity_limit j)) ||
                       f32_lt (tj_pv_hold_velocity_limit j) f32_zero ||
                       f32_gt (tj_pv_hold_velocity_limit j) (tj_pv_velocity_limit j)))
       ("trajectory contains invalid PV final-hold velocity limit for " ++ role)%string;
     refuse_if (pv && pv_execution rq &&
                (f32_gt (rq_pv_reference_velocity rq) (tj_velocity_limit j) ||
                 f32_gt (rq_pv_reference_acceleration rq) (tj_acceleration_limit j) ||
                 f32_gt (rq_pv_drive_velocity_limit rq) (tj_velocity_limit j)))
       ("trajectory PV limits exceed product limits for " ++ role)%string].

Fixpoint check_request_joints (rq : NativeTrajectoryRequest) (motors : list MotorRecord)
    (seen : gset handle) (l : list NativeTrajectoryJoint) : option exn :=
  match l with
  | [] => None
  | j :: rest =>
      match check_request_joint rq motors seen j with
      | Some e => Some e
      | None => check_request_joints rq motors ({[tj_motor j]} ∪ seen) rest
      end
  end.

(** The checks before the loop over the joints. *)
Definition check_request_shape (rq : NativeTrajectoryRequest) (motors : list MotorRecord) :
    option exn :=
  let joints := length (rq_joints rq) in
  let waypoints := length (rq_waypoints rq) in
  first_refusal
    [refuse_if (pv_execution rq && negb (bool_decide (rq_mode rq = ModePv)))
       "TrajectoryPv execution requires PV motor mode"%string;
     refuse_if (pv_execution rq &&
                (negb (positive_finite (rq_pv_reference_velocity rq)) ||
                 negb (positive_finite (rq_pv_reference_acceleration rq)) ||
                 negb (positive_finite (rq_pv_drive_velocity_limit rq))))
       "trajectory PV requires positive finite PV motion limits"%string;
     refuse_if ((joints =? 0)%nat || (32 <? joints)%nat) "trajectory joint count is invalid"%string;
     refuse_if ((waypoints <? 2)%nat || (kNativeMaximumTrajectoryWaypoints <? Z.of_nat waypoints))
       "trajectory waypoint count is below 2 or exceeds native capacity"%string;
     refuse_if (Z.of_nat waypoints <=? rq_approach_segment_count rq)
       "trajectory approach segment count is invalid"%string;
     refuse_if (negb (joints =? arm_count motors)%nat)
       "trajectory must cover the complete fixed arm layout"%string].

(** ** Waypoints *)

(** What the scan of the waypoints remembers of a joint. *)
Record JointRecovery := {
  rv_direction : Z;
  rv_recovered : bool;
  rv_start : f32;
  rv_previous : f32
}.

Definition no_JointRecovery : JointRecovery := Build_JointRecovery 0 false S754_nan S754_nan.

Definition waypoint_context (index count : nat) : string :=
  if (index =? 0)%nat then "trajectory start waypoint"
  else if (S index =? count)%nat then "trajectory target waypoint"
  else ("trajectory waypoint " ++ to_string (Z.of_nat index + 1))%string.

Definition allowed_text (j : NativeTrajectoryJoint) : string :=
  (" rad, allowed=[" ++ show_float (tj_lower_position j) ++ ", " ++
   show_float (tj_upper_position j) ++ "] rad")%string.

Definition position_limit_error (context : string) (j : NativeTrajectoryJoint) (position : f32) :
    string :=
  (context ++ " exceeds product position limits: " ++ joint_role j ++ " position=" ++
   show_float position ++ allowed_text j)%string.

Definition recovery_error (context : string) (j : NativeTrajectoryJoint) (position : f32)
    (r : JointRecovery) : string :=
  if rv_direction r =? 0 then position_limit_error context j position
  else
    (context ++ " cannot recover an out-of-limit start: " ++ joint_role j ++ " position=" ++
     show_float position ++ " rad, start_position=" ++ show_float (rv_start r) ++
     " rad, previous_position=" ++ show_float (rv_previous r) ++ allowed_text j)%string.

(** The position of one joint against the limits of the product: only the
    first waypoint may lie outside, where recovery is allowed, and until the
    joint is inside again it may only move inwards. *)
Definition check_waypoint_position (allow : bool) (index count : nat) (j : NativeTrajectoryJoint)
    (position : f32) (r : JointRecovery) : exn + JointRecovery :=
  let context := waypoint_context index count in
  let below := f32_lt position (tj_lower_position j) in
  let above := f32_gt position (tj_upper_position j) in
  if (index =? 0)%nat && (below || above) then
    if negb allow then invalid (position_limit_error context j position)
    else inr (Build_JointRecovery (if below then 1 else -1) (rv_recovered r) position position)
  else if below || above then
    let can_continue := allow && negb (rv_direction r =? 0) && negb (rv_recovered r) &&
                        negb (S index =? count)%nat in
    let inward :=
      if 0 <? rv_direction r
      then f32_ge position (f32_sub (rv_previous r) (f32_of_f64 kLimitTolerance))
      else f32_le position (f32_add (rv_previous r) (f32_of_f64 kLimitTolerance)) in
    if negb can_continue || negb inward then invalid (recovery_error context j position r)
    else inr (Build_JointRecovery (rv_direction r) (rv_recovered r) (rv_start r) position)
  else
    inr (Build_JointRecovery (rv_direction r)
           (rv_recovered r || (negb (rv_direction r =? 0) && (0 <? index)%nat))
           (rv_start r) position).

Definition beyond (x limit : f32) : bool := negb (f32_isfinite x) || f32_gt (f32_abs x) limit.

Definition check_waypoint_joint (allow : bool) (index count : nat) (wp : NativeTrajectoryWaypoint)
    (k : nat) (j : NativeTrajectoryJoint) (r : JointRecovery) : exn + JointRecovery :=
  let position := nth k (wp_positions wp) f32_zero in
  let context := waypoint_context index count in
  if negb (f32_isfinite position) then
    invalid (context ++ " contains a non-finite position for " ++ joint_role j)
  else
    match check_waypoint_position allow index count j position r with
    | inl e => inl e
    | inr r' =>
        if Z.testbit (wp_velocity_valid_mask wp) (Z.of_nat k) &&
           beyond (nth k (wp_velocities wp) f32_zero) (tj_velocity_limit j) then
          invalid (context ++ " velocity is invalid for " ++ joint_role j)
        else if Z.testbit (wp_acceleration_valid_mask wp) (Z.of_nat k) &&
           beyond (nth k (wp_accelerations wp) f32_zero) (tj_acceleration_limit j) then
          invalid (context ++ " acceleration is invalid for " ++ joint_role j)
        else inr r'
    end.

Fixpoint check_waypoint_joints (allow : bool) (index count : nat) (wp : NativeTrajectoryWaypoint)
    (k : nat) (joints : list NativeTrajectoryJoint) (rs : list JointRecovery) :
    exn + list JointRecovery :=
  match joints, rs with
  | j :: js, r :: rs =>
      match check_waypoint_joint allow index count wp k j r with
      | inl e => inl e
      | inr r' =>
          match check_waypoint_joints allow index count wp (S k) js rs with
          | inl e => inl e
          | inr rest => inr (r' :: rest)
          end
      end
  | _, _ => inr []
  end.

(** [(uint32_t{1} << joint_count) - 1U], all ones for 32 joints. *)
Definition joint_bits (n : nat) : Z := Z.ones (Z.of_nat n).

Definition check_waypoint_shape (joints : nat) (previous : option f64)
    (wp : NativeTrajectoryWaypoint) : option exn :=
  first_refusal
    [refuse_if (negb (f64_isfinite (wp_time_s wp)) ||
                match previous with Some t => f64_le (wp_time_s wp) t | None => false end)
       "trajectory timestamps must be finite and strictly increasing"%string;
     refuse_if (negb (Z.ldiff (wp_velocity_valid_mask wp) (joint_bits joints) =? 0) ||
                negb (Z.ldiff (wp_acceleration_valid_mask wp) (joint_bits joints) =? 0))
       "trajectory derivative mask contains an unknown joint bit"%string;
     refuse_if (negb (length (wp_positions wp) =? joints)%nat ||
                negb (length (wp_velocities wp) =? joints)%nat ||
                negb (length (wp_accelerations wp) =? joints)%nat)
       "trajectory waypoint does not match the arm joint count"%string].

Fixpoint check_waypoints (rq : NativeTrajectoryRequest) (index : nat) (previous : option f64)
    (l : list NativeTrajectoryWaypoint) (rs : list JointRecovery) : exn + list JointRecovery :=
  match l with
  | [] => inr rs
  | wp :: rest =>
      match check_waypoint_shape (length (rq_joints rq)) previous wp with
      | Some e => inl e
      | None =>
          match check_waypoint_joints (rq_allow_out_of_limit_start_recovery rq) index
                  (length (rq_waypoints rq)) wp 0 (rq_joints rq) rs with
          | inl e => inl e
          | inr rs' => check_waypoints rq (S index) (Some (wp_time_s wp)) rest rs'
          end
      end
  end.

(** ** Times *)

Definition check_deadlines (rq : NativeTrajectoryRequest) (reference_duration duration : f64) :
    option exn :=
  let hour := f64_of_Z 3600 in
  first_refusal
    [refuse_if (negb (f64_isfinite reference_duration) || f64_le reference_duration f64_zero ||
                f64_lt hour reference_duration)
       "trajectory duration must be positive and no greater than one hour"%string;
     refuse_if (negb (f64_isfinite duration) ||
                f64_lt (f64_add duration kLimitTolerance) reference_duration ||
                f64_lt hour duration)
       "trajectory estimated completion time must be finite, no earlier than the last reference, and no greater than one hour"%string;
     refuse_if (negb (f64_eq (rq_approach_deadline_s rq) f64_zero) &&
                (negb (f64_isfinite (rq_approach_deadline_s rq)) ||
                 f64_le (rq_approach_deadline_s rq) f64_zero ||
                 f64_le duration (rq_approach_deadline_s rq)))
       "trajectory estimated approach time must be finite and inside the estimated total time"%string].

(** ** Derivatives that were not given *)

(** [(b - a) / (tb - ta)]: the difference is a [float], the quotient a
    [double]. *)
Definition slope (a b : f32) (ta tb : f64) : f64 :=
  f64_div (f64_of_f32 (f32_sub b a)) (f64_sub tb ta).

Definition neighbours (l : list NativeTrajectoryWaypoint) (index : nat) :
    option (NativeTrajectoryWaypoint * NativeTrajectoryWaypoint) :=
  match index with
  | O => None
  | S before =>
      match nth_error l before, nth_error l (S index) with
      | Some previous, Some next => Some (previous, next)
      | _, _ => None
      end
  end.

Definition central_velocity (l : list NativeTrajectoryWaypoint) (index k : nat) : f32 :=
  match neighbours l index with
  | Some (previous, next) =>
      f32_of_f64 (slope (nth k (wp_positions previous) f32_zero) (nth k (wp_positions next) f32_zero)
                    (wp_time_s previous) (wp_time_s next))
  | None => f32_zero
  end.

Definition central_acceleration (l : list NativeTrajectoryWaypoint) (index k : nat)
    (wp : NativeTrajectoryWaypoint) : f32 :=
  match neighbours l index with
  | Some (previous, next) =>
      let at_ w := nth k (wp_positions w) f32_zero in
      let before := slope (at_ previous) (at_ wp) (wp_time_s previous) (wp_time_s wp) in
      let after := slope (at_ wp) (at_ next) (wp_time_s wp) (wp_time_s next) in
      f32_of_f64 (f64_div (f64_mul (f64_of_Z 2) (f64_sub after before))
                    (f64_sub (wp_time_s next) (wp_time_s previous)))
  | None => f32_zero
  end.

(** Positions and times stay as they are, so the waypoints can be filled in
    one by one. *)
Definition fill_waypoint (l : list NativeTrajectoryWaypoint) (index : nat)
    (wp : NativeTrajectoryWaypoint) : NativeTrajectoryWaypoint :=
  wp <| wp_velocities ::= imap (fun k v =>
          if Z.testbit (wp_velocity_valid_mask wp) (Z.of_nat k) then v
          else central_velocity l index k) |>
     <| wp_accelerations ::= imap (fun k a =>
          if Z.testbit (wp_acceleration_valid_mask wp) (Z.of_nat k) then a
          else central_acceleration l index k wp) |>.

Definition fill_waypoints (l : list NativeTrajectoryWaypoint) : list NativeTrajectoryWaypoint :=
  imap (fill_waypoint l) l.

(** ** Segments *)

Definition segment_coefficients (pv : bool) (n : nat) (start stop : NativeTrajectoryWaypoint)
    (duration : f64) : list (list f64) :=
  map (fun k =>
    let w (l : list f32) := f64_of_f32 (nth k l f32_zero) in
    if pv then sampled_pv_coefficients (w (wp_positions start)) (w (wp_positions stop))
    else quintic_coefficients (w (wp_positions start)) (w (wp_velocities start))
           (w (wp_accelerations start)) (w (wp_positions stop)) (w (wp_velocities stop))
           (w (wp_accelerations stop)) duration) (seq 0 n).

Definition waypoint_segment (pv : bool) (n : nat) (start stop : NativeTrajectoryWaypoint) :
    TrajectorySegment :=
  let duration := f64_sub (wp_time_s stop) (wp_time_s start) in
  Build_TrajectorySegment (wp_time_s start) duration (segment_coefficients pv n start stop duration).

Fixpoint build_segments (pv : bool) (joints : list NativeTrajectoryJoint) (directions : list Z)
    (index : Z) (l : list NativeTrajectoryWaypoint) : exn + list TrajectorySegment :=
  match l with
  | start :: ((stop :: _) as rest) =>
      let seg := waypoint_segment pv (length joints) start stop in
      match validate_segment_extrema (ts_duration_s seg) (ts_coefficients seg) joints directions
              index (negb pv) with
      | Some e => inl e
      | None =>
          match build_segments pv joints directions (index + 1) rest with
          | inl e => inl e
          | inr segs => inr (seg :: segs)
          end
      end
  | _ => inr []
  end.

(** ** The whole preparation *)

Record PreparedTrajectory := {
  pt_segments : list TrajectorySegment;
  pt_waypoints : list NativeTrajectoryWaypoint;
  pt_reference_duration_s : f64;
  pt_duration_s : f64
}.

Definition first_time (l : list NativeTrajectoryWaypoint) : f64 :=
  match l with wp :: _ => wp_time_s wp | [] => f64_zero end.

(** Times counted from the first waypoint. *)
Definition rebased (l : list NativeTrajectoryWaypoint) : list NativeTrajectoryWaypoint :=
  let origin := first_time l in
  map (fun wp => wp <| wp_time_s ::= fun t => f64_sub t origin |>) l.

Definition last_time (l : list NativeTrajectoryWaypoint) : f64 :=
  match last l with Some wp => wp_time_s wp | None => f64_zero end.

Definition prepare_trajectory (rq : NativeTrajectoryRequest) (motors : list MotorRecord) :
    exn + PreparedTrajectory :=
  match first_refusal
          [check_request_shape rq motors;
           check_request_joints rq motors ∅ (rq_joints rq);
           refuse_if (negb (f64_isfinite (first_time (rq_waypoints rq))) ||
                      f64_lt (first_time (rq_waypoints rq)) f64_zero)
             "trajectory first timestamp must be finite and non-negative"] with
  | Some e => inl e
  | None =>
      match check_waypoints rq 0 None (rq_waypoints rq)
              (replicate (length (rq_joints rq)) no_JointRecovery) with
      | inl e => inl e
      | inr rs =>
          let l := rebased (rq_waypoints rq) in
          let reference_duration := last_time l in
          let duration := if f64_lt f64_zero (rq_completion_deadline_s rq)
                          then rq_completion_deadline_s rq else reference_duration in
          match check_deadlines rq reference_duration duration with
          | Some e => inl e
          | None =>
              let l := if pv_execution rq then l else fill_waypoints l in
              match build_segments (pv_execution rq) (rq_joints rq) (map rv_direction rs) 0 l with
              | inl e => inl e
              | inr segs => inr (Build_PreparedTrajectory segs l reference_duration duration)
              end
          end
      end
  end.

(** ** Under the mutex *)

Definition too_far (a b tolerance : f32) : bool := f32_gt (f32_abs (f32_sub a b)) tolerance.

Definition queue_capacity : nat := 64.

Section Operations.
Context {B : Type} `{!MotorBackend B}.

(** The motion that runs is another than the one to replace. *)
Definition other_running (replace_id : Z) (s : Safety B) : bool :=
  bool_decide (tc_state (rt_trajectory s) = MOTION_RUNNING) &&
  ((replace_id =? 0) || negb (tc_id (rt_trajectory s) =? replace_id)).

Definition replaced_changed (replace_id : Z) (s : Safety B) : bool :=
  negb (replace_id =? 0) &&
  (negb (bool_decide (tc_state (rt_trajectory s) = MOTION_RUNNING)) ||
   negb (tc_id (rt_trajectory s) =? replace_id)).

Definition fail_if (b : bool) (text : string) : option exn :=
  if b then Some (RuntimeError text) else None.

(** The checks both critical sections begin with. *)
Definition check_planning (replace_id : Z) (enqueue : bool) (token : Z) (s : Safety B) :
    option exn :=
  first_refusal
    [fail_if (negb (token =? 0) && negb (active_command_planning_token_ (rt_core s) =? token))
       "Runtime state changed while planning the trajectory"%string;
     require_state_for_command false (enqueue || negb (replace_id =? 0)) token s;
     fail_if (bm_active (rt_bimanual s))
       "trajectory cannot replace active bimanual ordinary control"%string].

Definition queue_full (enqueue : bool) (s : Safety B) : option exn :=
  fail_if (enqueue && (queue_capacity <=? length (rt_queue s))%nat) "motion queue is full"%string.

Definition check_start (mode : ControlMode) (replace_id : Z) (enqueue : bool) (token : Z)
    (s : Safety B) : option exn :=
  first_refusal
    [check_planning replace_id enqueue token s;
     fail_if (bool_decide (state_ (rt_core s) = Degraded))
       "cannot start a trajectory while Runtime is degraded"%string;
     fail_if (negb (bool_decide (mode_ (rt_core s) = mode)))
       "trajectory mode does not match the active Runtime mode"%string;
     fail_if (negb enqueue && other_running replace_id s) "a trajectory is already running"%string;
     fail_if (replaced_changed replace_id s)
       "trajectory changed while preparing its replacement"%string;
     queue_full enqueue s].

Definition check_restart (mode : ControlMode) (replace_id : Z) (enqueue : bool) (token : Z)
    (s : Safety B) : option exn :=
  first_refusal
    [check_planning replace_id enqueue token s;
     fail_if (negb (bool_decide (mode_ (rt_core s) = mode)) ||
              (negb enqueue && other_running replace_id s) || replaced_changed replace_id s)
       "Runtime state changed while starting trajectory"%string;
     queue_full enqueue s].

(** The feedback of one joint: fresh, without a fault, of the power state the
    runtime expects, and where the start is not a planned reference, at the
    first waypoint. *)
Definition check_start_joint (synchronized : bool) (disabled : gset handle)
    (first : NativeTrajectoryWaypoint) (k : nat) (j : NativeTrajectoryJoint) : Rt (B := B) unit :=
  do config <- read rt_config;
  do state <- fetch_fresh (feedback_max_age_ns config) (tj_motor j);
  match state with
  | None => pthrow (RuntimeError
      ("trajectory start requires fresh fault-free feedback at " ++ joint_role j)%string)
  | Some st =>
      if negb (f32_isfinite (ams_pos st)) || negb (f32_isfinite (ams_vel st)) ||
         (1 <? ams_status_code st) then
        pthrow (RuntimeError
          ("trajectory start requires fresh fault-free feedback at " ++ joint_role j)%string)
      else if negb (ams_status_code st =? (if bool_decide (tj_motor j ∈ disabled) then 0 else 1))
      then pthrow (RuntimeError
          ("trajectory start power feedback disagrees with Runtime at " ++ joint_role j)%string)
      else if synchronized then pret tt
      else if too_far (ams_pos st)
                (f32_mul (tj_direction j) (nth k (wp_positions first) f32_zero))
                kStartPositionTolerance then
        pthrow (InvalidArgument
          ("trajectory first waypoint is not synchronized with current feedback at " ++
           joint_role j)%string)
      else if too_far
                (f32_mul (f32_mul (tj_direction j) (ams_vel st)) (tj_velocity_feedback_scale j))
                (nth k (wp_velocities first) f32_zero) kStartVelocityTolerance then
        pthrow (InvalidArgument
          ("trajectory first waypoint velocity is not synchronized with current feedback at " ++
           joint_role j)%string)
      else pret tt
  end.

Fixpoint check_start_joints (synchronized : bool) (disabled : gset handle)
    (first : NativeTrajectoryWaypoint) (k : nat) (l : list NativeTrajectoryJoint) :
    Rt (B := B) unit :=
  match l with
  | [] => pret tt
  | j :: rest =>
      check_start_joint synchronized disabled first k j ;;;
      check_start_joints synchronized disabled first (S k) rest
  end.

(** The end of the approach segments. *)
Definition approach_end (count : Z) (segments : list TrajectorySegment) : f64 :=
  if count =? 0 then f64_zero
  else
    match nth_error segments (Z.to_nat (count - 1)) with
    | Some seg => f64_add (ts_start_s seg) (ts_duration_s seg)
    | None => f64_zero
    end.

Definition queued_trajectory (rq : NativeTrajectoryRequest) (p : PreparedTrajectory) (id : Z) :
    TrajectoryControl :=
  no_TrajectoryControl <| tc_state := MOTION_QUEUED |> <| tc_id := id |>
    <| tc_waypoint_count := u32 (Z.of_nat (length (pt_segments p)) + 1) |>
    <| tc_duration_s := pt_duration_s p |>
    <| tc_reference_duration_s := pt_reference_duration_s p |>
    <| tc_approach_segment_count := rq_approach_segment_count rq |>
    <| tc_cartesian_tracking_joint_mask :=
         if rq_cartesian_tracking_joint_mask rq =? 0 then joint_bits (length (rq_joints rq))
         else rq_cartesian_tracking_joint_mask rq |>
    <| tc_approach_duration_s := approach_end (rq_approach_segment_count rq) (pt_segments p) |>
    <| tc_approach_deadline_s := rq_approach_deadline_s rq |>
    <| tc_operation := rq_operation rq |> <| tc_execution := rq_execution rq |>
    <| tc_pv_reference_velocity := rq_pv_reference_velocity rq |>
    <| tc_pv_reference_acceleration := rq_pv_reference_acceleration rq |>
    <| tc_pv_drive_velocity_limit := rq_pv_drive_velocity_limit rq |>
    <| tc_joints := rq_joints rq |> <| tc_segments := pt_segments p |>
    <| tc_final_convergence_check := rq_final_convergence_check rq |>
    <| tc_approach_convergence_check := rq_approach_convergence_check rq |>.

Definition check_queued (rq : NativeTrajectoryRequest) (t : TrajectoryControl) : option exn :=
  first_refusal
    [refuse_if (negb (Z.ldiff (rq_cartesian_tracking_joint_mask rq)
                        (joint_bits (length (rq_joints rq))) =? 0))
       "Cartesian tracking joint mask exceeds the trajectory joints"%string;
     refuse_if (negb (tc_approach_segment_count t =? 0) &&
                negb (f64_eq (tc_approach_deadline_s t) f64_zero) &&
                f64_lt (f64_add (tc_approach_deadline_s t) kLimitTolerance)
                  (tc_approach_duration_s t))
       "trajectory estimated approach time is earlier than its final approach reference"%string].

(** Behind the motion that runs, or in place of the command. *)
Definition install_trajectory (enqueue : bool) (now : Z) (t : TrajectoryControl) (s : Safety B) :
    Safety B :=
  if enqueue && bool_decide (tc_state (rt_trajectory s) = MOTION_RUNNING) then
    s <| rt_queue ::= fun q => q ++ [t] |>
  else
    let s :=
      if negb (tc_id (rt_trajectory s) =? 0) &&
         negb (bool_decide (tc_state (rt_trajectory s) = MOTION_RUNNING))
      then s <| rt_history ::= archive_trajectory_locked (rt_trajectory s) |> else s in
    s <| rt_pending := no_ArmMailbox |> <| rt_mailbox := no_ArmMailbox |>
      <| rt_trajectory := activated t now |>
      <| rt_timers ::= fun x => x <| next_control_tick_ := now |> |>.

(** The second critical section; the motion id is used up even where the last
    checks refuse. *)
Definition commit_trajectory (rq : NativeTrajectoryRequest) (p : PreparedTrajectory)
    (replace_id : Z) (enqueue : bool) (token now : Z) (s : Safety B) : (exn + Z) * Safety B :=
  match check_restart (rq_mode rq) replace_id enqueue token s with
  | Some e => (inl e, s)
  | None =>
      let id := next_motion_id_ (rt_counters s) in
      let t := queued_trajectory rq p id in
      let s := s <| rt_counters ::= fun c => c <| next_motion_id_ := u64 (id + 1) |> |> in
      match check_queued rq t with
      | Some e => (inl e, s)
      | None =>
          let s := install_trajectory enqueue now t s in
          (inr id,
           if token =? 0 then s
           else s <| rt_core ::= fun c => c <| active_command_planning_token_ := 0 |> |>)
      end
  end.

(** What runs under [command_mutex_]. *)
Definition start_prepared (rq : NativeTrajectoryRequest) (p : PreparedTrajectory)
    (replace_id : Z) (planned : bool) (enqueue : bool) (token : Z) : Rt (B := B) Z :=
  do disabled <- guarded (check_start (rq_mode rq) replace_id enqueue token)
                   (fun s : Safety B => (rt_intentionally_disabled s, s));
  check_start_joints (negb (replace_id =? 0) || planned) disabled
    (hd (Build_NativeTrajectoryWaypoint f64_zero [] [] [] 0 0) (pt_waypoints p)) 0
    (rq_joints rq) ;;;
  do now <- clock_now;
  do r <- act (commit_trajectory rq p replace_id enqueue token now);
  except r.

(** [start_trajectory(request, replace_motion_id, transaction, enqueue,
    planning_token)]; [planned] says that a transaction is passed. *)
Definition start_trajectory (who : nat) (rq : NativeTrajectoryRequest) (replace_id : Z)
    (planned enqueue : bool) (token : Z) : Rt (B := B) Z :=
  if negb (token =? 0) && negb planned then
    pthrow (LogicError "planned trajectory token requires a command transaction")
  else if enqueue && negb (replace_id =? 0) then
    pthrow (InvalidArgument "a queued trajectory cannot replace a running trajectory")
  else
    do motors <- read rt_motors;
    do p <- except (prepare_trajectory rq motors);
    let body := start_prepared rq p replace_id planned enqueue token in
    if planned then body else with_command who body.

End Operations.
