(* ===== verification/JointPosition.v ===== *)
(** * Ordinary position commands

    [runtime/src/runtime_joint_position.cpp]: a target position for every arm
    joint, with a shared or a per-joint velocity limit, that replaces the
    command in the mailbox and takes over where the references of the one
    before stand.  The section under [state_mutex_] asks the drivers for the
    feedback of every joint; it is one action, the calls run inside it. *)

From Stdlib Require Import String.
From S2P Require Import Prelude Float32 Float64 PvShaping RuntimeTypes Threads NativeTypes SafetyState Motions Gripper Safety Feedback Disable Faults Commands Planning.
#[local] Open Scope mdl_scope.
#[local] Open Scope thread_scope.

Definition mode_name (mode : ControlMode) : string :=
  match mode with ModeMit => "MIT" | ModePv => "PV" end.

(** [ArticoreJointMitTarget] and [ArticoreJointPvTarget]. *)
Record ArticoreJointTarget := { jt_motor : handle; jt_target_position : f32 }.

(** [collect_targets]; a null pointer is the empty list. *)
Definition target_valid (t : ArticoreJointTarget) : bool :=
  negb (jt_motor t =? 0)%nat && f32_isfinite (jt_target_position t).

Definition collect_targets (mode : ControlMode) (l : list ArticoreJointTarget) :
    exn + list (handle * f32) :=
  match l with
  | [] => inl (InvalidArgument ("ordinary " ++ mode_name mode ++ " position target is empty"))
  | _ =>
      if forallb target_valid l then inr (map (fun t => (jt_motor t, jt_target_position t)) l)
      else inl (InvalidArgument
        ("ordinary " ++ mode_name mode ++ " position command contains invalid values"))
  end.

(** What a command asks for, besides the targets. *)
Record PositionRequest := {
  pr_mode : ControlMode;
  pr_max_reference_velocity : f32;
  pr_max_reference_acceleration : f32;
  pr_pv_velocity_limit : f32;
  pr_profile : option (list f32 * list f32);
  pr_mit_direct : bool
}.

Definition negative_or_not_finite (x : f32) : bool := negb (f32_isfinite x) || f32_lt x f32_zero.

Definition is_pv (r : PositionRequest) : bool := bool_decide (pr_mode r = ModePv).

(** The checks before the targets. *)
Definition check_position_request (r : PositionRequest) (motors : list MotorRecord)
    (targets : list (handle * f32)) : option exn :=
  first_refusal
    [refuse_if (negative_or_not_finite (pr_max_reference_velocity r))
       "max_reference_velocity must be finite and non-negative"%string;
     refuse_if (is_pv r && negative_or_not_finite (pr_pv_velocity_limit r))
       "pv_velocity_limit must be finite and non-negative"%string;
     refuse_if (is_pv r && pr_mit_direct r) "direct MIT behavior requires MIT mode"%string;
     refuse_if (is_pv r && negb (positive_finite (pr_max_reference_acceleration r)))
       "max_reference_acceleration must be finite and positive"%string;
     refuse_if (match pr_profile r with
                | Some (v, a) => negb (is_pv r) || negb (length v =? length targets)%nat ||
                                 negb (length a =? length targets)%nat
                | None => false
                end)
       "ordinary PV per-joint limits must match the complete target layout"%string;
     refuse_if (negb (length targets =? arm_count motors)%nat)
       ("ordinary " ++ mode_name (pr_mode r) ++
        " position command must contain every active arm joint")%string].

Definition profile_entry_valid (limit velocity acceleration : f32) : bool :=
  positive_finite velocity && negb (f32_gt velocity limit) && positive_finite acceleration.

(** One target, at index [k]; [seen] are the handles before it. *)
Definition check_position_target (r : PositionRequest) (joints : gmap handle JointControlConfig)
    (motors : list MotorRecord) (seen : list handle) (k : nat) (t : handle * f32) : option exn :=
  let label := mode_name (pr_mode r) in
  match find_arm motors (fst t) with
  | None => Some (InvalidArgument
      ("ordinary " ++ label ++ " position command contains an unexpected motor"))
  | Some m =>
      if existsb (Nat.eqb (fst t)) seen then Some (InvalidArgument
        ("ordinary " ++ label ++ " position command contains duplicate motors"))
      else
        match joints !! fst t with
        | None => Some (RuntimeError
            "joint control configuration is required for native joint control")
        | Some limits =>
            first_refusal
              [refuse_if (f32_gt (pr_max_reference_velocity r) (jc_velocity_limit limits))
                 (name_of m ++ ": shared " ++ label ++
                  " reference velocity exceeds joint safety limit")%string;
               refuse_if (is_pv r && f32_gt (pr_pv_velocity_limit r) (jc_velocity_limit limits))
                 (name_of m ++ ": PV velocity limit exceeds joint safety limit")%string;
               refuse_if (match pr_profile r with
                          | Some (v, a) => negb (profile_entry_valid (jc_velocity_limit limits)
                                             (nth k v f32_zero) (nth k a f32_zero))
                          | None => false
                          end)
                 (name_of m ++ ": invalid ordinary PV per-joint motion limit")%string;
               validate_position_velocity_torque joints motors (fst t) (snd t) f32_zero f32_zero]
        end
  end.

Fixpoint check_position_targets (r : PositionRequest) (joints : gmap handle JointControlConfig)
    (motors : list MotorRecord) (seen : list handle) (k : nat) (l : list (handle * f32)) :
    option exn :=
  match l with
  | [] => None
  | t :: rest =>
      match check_position_target r joints motors seen k t with
      | Some e => Some e
      | None => check_position_targets r joints motors (fst t :: seen) (S k) rest
      end
  end.

(** ** Where the command before left off *)

Record PreviousTarget := {
  pt_position : f32;
  pt_command_position : f32;
  pt_reference_velocity : f32;
  pt_drive_velocity : f32;
  pt_hold_confirmations : Z;
  pt_stationary_hold : bool;
  pt_hold_target : f32
}.

(** From the measured position, at rest. *)
Definition from_feedback (position final : f32) : PreviousTarget :=
  Build_PreviousTarget position position f32_zero f32_zero 0 false final.

Definition same_length {A C} (l : list A) (l' : list C) : bool := (length l =? length l')%nat.

(** The hold of the command before goes on where the target is the same. *)
Definition previous_hold (mb : ArmMailbox) (index : nat) (final : f32) : option (Z * bool * f32) :=
  let target := nth index (mb_pv_hold_target_positions mb) f32_zero in
  if same_length (mb_pv_hold_confirmation_cycles mb) (mb_pv mb) &&
     same_length (mb_pv_stationary_hold mb) (mb_pv mb) &&
     same_length (mb_pv_hold_target_positions mb) (mb_pv mb) &&
     f32_le (f32_abs (f32_sub final target)) kNativeOrdinaryPvHoldTargetTolerance
  then Some (nth index (mb_pv_hold_confirmation_cycles mb) 0,
             nth index (mb_pv_stationary_hold mb) false, target)
  else None.

Definition previous_pv (mb : ArmMailbox) (motor : handle) (final : f32) : exn + PreviousTarget :=
  match list_find (fun c => pv_motor c = motor) (mb_pv mb) with
  | None => inl (RuntimeError "ordinary PV reference state does not match the active arm layout")
  | Some (index, c) =>
      if negb (same_length (mb_pv_reference_positions mb) (mb_pv mb)) ||
         negb (same_length (mb_pv_reference_velocities mb) (mb_pv mb)) then
        inl (RuntimeError "ordinary PV reference velocity state is inconsistent")
      else
        let '(confirmations, stationary, hold_target) :=
          default (0, false, final) (previous_hold mb index final) in
        inr {| pt_position := nth index (mb_pv_reference_positions mb) f32_zero;
               pt_command_position := pv_target_position c;
               pt_reference_velocity := nth index (mb_pv_reference_velocities mb) f32_zero;
               pt_drive_velocity :=
                 if same_length (mb_pv_drive_velocity_commands mb) (mb_pv mb)
                 then nth index (mb_pv_drive_velocity_commands mb) f32_zero else f32_zero;
               pt_hold_confirmations := confirmations; pt_stationary_hold := stationary;
               pt_hold_target := hold_target |}
  end.

Definition previous_mit (mb : ArmMailbox) (motor : handle) (position final : f32) :
    exn + PreviousTarget :=
  match find_command (mb_mit mb) motor with
  | None => inl (RuntimeError
      "ordinary MIT position state does not match the active arm layout")
  | Some c => inr (Build_PreviousTarget (mit_target_position c) position f32_zero f32_zero 0 false
                     final)
  end.

Definition previous_target (mode : ControlMode) (mb : ArmMailbox) (motor : handle)
    (position final : f32) : exn + PreviousTarget :=
  if mb_joint_position mb then
    match mode with
    | ModePv => previous_pv mb motor final
    | ModeMit => previous_mit mb motor position final
    end
  else inr (from_feedback position final).

(** The target in the new mailbox. *)
Definition append_target (r : PositionRequest) (config : JointControlConfig) (motor : handle)
    (final : f32) (p : PreviousTarget) (mb : ArmMailbox) : ArmMailbox :=
  let mb :=
    match pr_mode r with
    | ModePv =>
        mb <| mb_pv ::= fun l => l ++ [Build_ArticorePosVelCommand motor (pt_command_position p)
                                         (pt_drive_velocity p)] |>
           <| mb_pv_reference_positions ::= fun l => l ++ [pt_position p] |>
           <| mb_pv_reference_velocities ::= fun l => l ++ [pt_reference_velocity p] |>
           <| mb_pv_hold_confirmation_cycles ::= fun l => l ++ [pt_hold_confirmations p] |>
           <| mb_pv_stationary_hold ::= fun l => l ++ [pt_stationary_hold p] |>
           <| mb_pv_hold_target_positions ::= fun l => l ++ [pt_hold_target p] |>
           <| mb_pv_drive_velocity_commands ::= fun l => l ++ [pt_drive_velocity p] |>
    | ModeMit =>
        mb <| mb_mit ::= fun l => l ++
               [Build_ArticoreMitCommand motor
                  (if pr_mit_direct r then final else pt_position p) f32_zero
                  (if pr_mit_direct r then jc_mit_kp config else jc_mit_fast_follow_kp config)
                  (if pr_mit_direct r then jc_mit_kd config else jc_mit_fast_follow_kd config)
                  f32_zero] |>
    end in
  mb <| mb_final_positions ::= fun l => l ++ [final] |>.

(** The new mailbox before its targets. *)
Definition position_mailbox (r : PositionRequest) (generation now : Z) : ArmMailbox :=
  no_ArmMailbox <| mb_valid := true |> <| mb_user_command := true |>
    <| mb_lifetime := COMMAND_HOLD_UNTIL_REPLACED |> <| mb_generation := generation |>
    <| mb_submitted_at := now |> <| mb_joint_position := true |>
    <| mb_mit_direct := negb (is_pv r) && pr_mit_direct r |>
    <| mb_pv_per_joint_profile := match pr_profile r with Some _ => true | None => false end |>
    <| mb_max_reference_velocity := pr_max_reference_velocity r |>
    <| mb_max_reference_acceleration := pr_max_reference_acceleration r |>
    <| mb_pv_velocity_limit := pr_pv_velocity_limit r |>
    <| mb_pv_reference_velocity_limits :=
         if is_pv r then match pr_profile r with Some (v, _) => v | None => [] end else [] |>
    <| mb_pv_reference_acceleration_limits :=
         if is_pv r then match pr_profile r with Some (_, a) => a | None => [] end else [] |>.

Section Operations.
Context {B : Type} `{!MotorBackend B}.

(** ** The section under both mutexes *)

Definition transport_unfit (label : string) (s : Safety B) (side : Z) : option exn :=
  let h := side_health (rt_sides s) side in
  if active_side (rt_active_sides s) side &&
     (negb (sh_connected h) || negb (sh_transport_healthy h)) then
    Some (RuntimeError (channel_name side ++ " transport is not healthy for ordinary " ++ label ++
                        " position control")%string)
  else None.

Definition check_install (token : Z) (s : Safety B) : option exn :=
  first_refusal
    [fail_if (negb (token =? 0) && negb (active_command_planning_token_ (rt_core s) =? token))
       "Runtime state changed while planning the command"%string;
     require_state_for_command false false token s].

(** A completed motion is replaced. *)
Definition end_completed (label : string) (s : Safety B) : Safety B :=
  if bool_decide (tc_state (rt_trajectory s) = MOTION_COMPLETED) then
    terminate_trajectory_locked MOTION_CANCELLED
      ("completed trajectory replaced by ordinary " ++ label ++ " position command")%string s
  else s.

Definition check_ready (mode : ControlMode) (s : Safety B) : option exn :=
  first_refusal
    (fail_if (negb (bool_decide (mode_ (rt_core s) = mode)))
       ("ordinary " ++ mode_name mode ++ " position command requires matching runtime mode")%string
     :: map (transport_unfit (mode_name mode) s) both_sides).

(** Channel and name of a motor that was found before. *)
Definition motor_path (motors : list MotorRecord) (motor : handle) : string :=
  match find_motor motors motor with
  | Some m => (channel_name (side_of m) ++ "/" ++ name_of m)%string
  | None => ""
  end.

(** One target: fresh feedback of an enabled motor, and where to go on from. *)
Definition add_target (r : PositionRequest) (mb : ArmMailbox) (t : handle * f32) :
    Rt (B := B) ArmMailbox :=
  do s <- read (fun s : Safety B => s);
  do state <- fetch_fresh (feedback_max_age_ns (rt_config s)) (fst t);
  let stale :=
    pthrow (RuntimeError (motor_path (rt_motors s) (fst t) ++
      ": complete fresh enabled feedback is required for ordinary " ++ mode_name (pr_mode r) ++
      " position control")%string) in
  match state with
  | Some st =>
      if f32_isfinite (ams_pos st) && (ams_status_code st =? 1) then
        do previous <- except (previous_target (pr_mode r) (rt_mailbox s) (fst t) (ams_pos st) (snd t));
        do config <- except (joint_config (fst t) s);
        pret (append_target r config (fst t) (snd t) previous mb)
      else stale
  | None => stale
  end.

Definition installed (token : Z) (mb : ArmMailbox) (s : Safety B) : Safety B :=
  s <| rt_pending := no_ArmMailbox |> <| rt_mailbox := mb |>
    <| rt_core ::= fun c =>
         let c := c <| first_command_accepted_ := true |> in
         if token =? 0 then c else c <| active_command_planning_token_ := 0 |> |>.

(** The new mailbox, or what is thrown on the way to it. *)
Definition prepare_mailbox (r : PositionRequest) (targets : list (handle * f32)) (now token : Z) :
    Rt (B := B) ArmMailbox :=
  guarded (check_install token) (fun s => (tt, end_completed (mode_name (pr_mode r)) s)) ;;;
  guarded (check_ready (pr_mode r)) (fun s => (tt, s)) ;;;
  do generation <- next_arm_generation;
  pfold targets (add_target r) (position_mailbox r generation now).

Definition install_locked (r : PositionRequest) (targets : list (handle * f32)) (now token : Z) :
    Rt (B := B) unit :=
  atomically (do mb <- prepare_mailbox r targets now token; write (installed token mb)).

(** [install_joint_position(...)]; [planned] says that a transaction is
    passed. *)
Definition install_joint_position (who : nat) (r : PositionRequest)
    (targets : list (handle * f32)) (planned : bool) (token : Z) : Rt (B := B) unit :=
  do p <- read (fun s : Safety B => (rt_joints s, rt_motors s));
  rejected (check_position_request r p.2 targets) ;;;
  rejected (check_position_targets r p.1 p.2 [] 0 targets) ;;;
  if negb planned && negb (token =? 0) then
    pthrow (LogicError "planned joint position token requires a command transaction")
  else
    let body := do now <- clock_now; install_locked r targets now token in
    if planned then body else with_command who body.

(** ** The methods *)

Definition mit_request (velocity : f32) (direct : bool) : PositionRequest :=
  Build_PositionRequest ModeMit velocity f32_zero f32_zero None direct.

Definition pv_request (velocity acceleration limit : f32) (profile : option (list f32 * list f32)) :
    PositionRequest :=
  Build_PositionRequest ModePv velocity acceleration limit profile false.

Definition set_targets (who : nat) (r : PositionRequest) (l : list ArticoreJointTarget)
    (planned : bool) (token : Z) : Rt (B := B) unit :=
  do targets <- except (collect_targets (pr_mode r) l);
  install_joint_position who r targets planned token.

Definition planned_only (what : string) (token : Z) (p : Rt (B := B) unit) : Rt (B := B) unit :=
  if token =? 0
  then pthrow (LogicError ("planned " ++ what ++ " command requires a planning token")%string)
  else p.

Definition set_joint_mit (who : nat) (l : list ArticoreJointTarget) (velocity : f32) :
    Rt (B := B) unit :=
  set_targets who (mit_request velocity false) l false 0.

Definition set_joint_mit_direct (who : nat) (l : list ArticoreJointTarget) : Rt (B := B) unit :=
  set_targets who (mit_request f32_zero true) l false 0.

Definition set_joint_mit_planned (who : nat) (l : list ArticoreJointTarget) (velocity : f32)
    (token : Z) : Rt (B := B) unit :=
  planned_only "MIT" token (set_targets who (mit_request velocity false) l true token).

Definition set_joint_mit_direct_planned (who : nat) (l : list ArticoreJointTarget) (token : Z) :
    Rt (B := B) unit :=
  planned_only "direct MIT" token (set_targets who (mit_request f32_zero true) l true token).

(** [set_joint_pv] with all limits; the shorter ones pass the default
    acceleration, the shortest the reference velocity as limit as well. *)
Definition set_joint_pv (who : nat) (l : list ArticoreJointTarget) (velocity acceleration limit : f32) :
    Rt (B := B) unit :=
  set_targets who (pv_request velocity acceleration limit None) l false 0.

Definition set_joint_pv_limited (who : nat) (l : list ArticoreJointTarget) (velocity limit : f32) :
    Rt (B := B) unit :=
  set_joint_pv who l velocity kNativeOrdinaryPvDefaultAcceleration limit.

Definition set_joint_pv_plain (who : nat) (l : list ArticoreJointTarget) (velocity : f32) :
    Rt (B := B) unit :=
  set_joint_pv who l velocity kNativeOrdinaryPvDefaultAcceleration velocity.

Definition set_joint_pv_planned (who : nat) (l : list ArticoreJointTarget)
    (velocity acceleration limit : f32) (token : Z) : Rt (B := B) unit :=
  planned_only "PV" token (set_targets who (pv_request velocity acceleration limit None) l true token).

(** [std::max_element] of a vector that is not empty. *)
Definition max_element (l : list f32) : f32 := fold_left f32_max (tl l) (hd f32_zero l).

Definition profile_targets (l : list ArticoreJointTarget) (velocities accelerations : list f32) :
    exn + (PositionRequest * list (handle * f32)) :=
  match collect_targets ModePv l with
  | inl e => inl e
  | inr targets =>
      if negb (same_length velocities targets) || negb (same_length accelerations targets) then
        inl (InvalidArgument "ordinary PV per-joint limits must match the target count")
      else
        let v := max_element velocities in
        inr (pv_request v (max_element accelerations) v (Some (velocities, accelerations)), targets)
  end.

Definition set_joint_pv_profile (who : nat) (l : list ArticoreJointTarget)
    (velocities accelerations : list f32) : Rt (B := B) unit :=
  do p <- except (profile_targets l velocities accelerations);
  install_joint_position who p.1 p.2 false 0.

Definition set_joint_pv_profile_planned (who : nat) (l : list ArticoreJointTarget)
    (velocities accelerations : list f32) (token : Z) : Rt (B := B) unit :=
  planned_only "PV profile" token
    (do p <- except (profile_targets l velocities accelerations);
     install_joint_position who p.1 p.2 true token).

(** [ordinary_velocity_from_percent(mode, speed_percent)]: the smallest limit
    of a joint, whatever the order of the table. *)
Definition smallest_velocity (joints : gmap handle JointControlConfig) : f32 :=
  fold_left f32_min (map (fun p => jc_velocity_limit p.2) (map_to_list joints))
    (S754_infinity false).

Definition ordinary_velocity_from_percent (mode : ControlMode) (percent : f32)
    (joints : gmap handle JointControlConfig) : exn + f32 :=
  if negb (f32_isfinite percent) || f32_lt percent f32_zero || f32_gt percent (f32_of_Z 100) then
    inl (InvalidArgument "ordinary speed must be finite and within 0..100")
  else if (size joints =? 0)%nat then
    inl (RuntimeError "ordinary speed scaling requires joint velocity configuration")
  else
    let maximum := smallest_velocity joints in
    let maximum := match mode with
                   | ModeMit => f32_min maximum (f32_lit 34906585 10000000)
                   | ModePv => maximum
                   end in
    inr (f32_div (f32_mul maximum percent) (f32_of_Z 100)).

Definition set_joint_mit_speed (who : nat) (l : list ArticoreJointTarget) (percent : f32) :
    Rt (B := B) unit :=
  do joints <- read rt_joints;
  do velocity <- except (ordinary_velocity_from_percent ModeMit percent joints);
  set_joint_mit who l velocity.

Definition set_joint_pv_speed (who : nat) (l : list ArticoreJointTarget) (percent : f32) :
    Rt (B := B) unit :=
  do joints <- read rt_joints;
  do velocity <- except (ordinary_velocity_from_percent ModePv percent joints);
  set_joint_pv_plain who l velocity.

(** ** New limits for the command that is active *)

Fixpoint check_motion_limits (joints : gmap handle JointControlConfig) (velocity limit : f32)
    (l : list ArticorePosVelCommand) : option exn :=
  match l with
  | [] => None
  | c :: rest =>
      match joints !! pv_motor c with
      | None => Some (RuntimeError
          "joint control configuration is required for native joint control")
      | Some j =>
          if f32_gt velocity (jc_velocity_limit j) || f32_gt limit (jc_velocity_limit j) then
            Some (InvalidArgument "ordinary PV velocity exceeds joint safety limit")
          else check_motion_limits joints velocity limit rest
      end
  end.

Definition motion_limits (velocity acceleration limit : f32) (s : Safety B) :
    option exn * Safety B :=
  let mb := rt_mailbox s in
  if negb (mb_valid mb) || negb (mb_joint_position mb) then (None, s)
  else if (length (mb_pv mb) =? 0)%nat then
    (Some (RuntimeError "PV motion-limit update requires an active ordinary PV command"), s)
  else
    match check_motion_limits (rt_joints s) velocity limit (mb_pv mb) with
    | Some e => (Some e, s)
    | None =>
        let drive := f32_max (safe_pv_velocity_limit (rt_config s)) limit in
        (None, s <| rt_mailbox ::= fun mb =>
           mb <| mb_max_reference_velocity := velocity |>
              <| mb_max_reference_acceleration := acceleration |>
              <| mb_pv_velocity_limit := limit |>
              <| mb_pv ::= map (fun c => Build_ArticorePosVelCommand (pv_motor c)
                                        (pv_target_position c) drive) |> |>)
    end.

(** [update_joint_pv_motion_limits(...)]. *)
Definition update_joint_pv_motion_limits (who : nat) (velocity acceleration limit : f32) :
    Rt (B := B) unit :=
  rejected (first_refusal
    [refuse_if (negative_or_not_finite velocity)
       "max_reference_velocity must be finite and non-negative"%string;
     refuse_if (negative_or_not_finite limit)
       "pv_velocity_limit must be finite and non-negative"%string;
     refuse_if (negb (positive_finite acceleration))
       "max_reference_acceleration must be finite and positive"%string]) ;;;
  with_command who (do e <- act (motion_limits velocity acceleration limit); rethrow e).

Fixpoint check_profile_limits (joints : gmap handle JointControlConfig) (roles : gmap handle string)
    (l : list ArticorePosVelCommand) (velocities accelerations : list f32) : option exn :=
  match l, velocities, accelerations with
  | c :: l, v :: velocities, a :: accelerations =>
      match joints !! pv_motor c with
      | None => Some (RuntimeError
          "joint control configuration is required for native joint control")
      | Some j =>
          if profile_entry_valid (jc_velocity_limit j) v a
          then check_profile_limits joints roles l velocities accelerations
          else match roles !! pv_motor c with
               | Some role => Some (InvalidArgument
                   (role ++ ": invalid ordinary PV per-joint motion limit")%string)
               | None => Some (OtherException "map::at")
               end
      end
  | _, _, _ => None
  end.

Definition profile_limits (velocities accelerations : list f32) (s : Safety B) :
    option exn * Safety B :=
  let mb := rt_mailbox s in
  if negb (mb_valid mb) || negb (mb_user_command mb) || negb (mb_joint_position mb) ||
     (length (mb_pv mb) =? 0)%nat || negb (mb_pv_per_joint_profile mb) then (None, s)
  else if negb (same_length velocities (mb_pv mb)) then
    (Some (RuntimeError
       "PV profile-limit update requires an active per-joint ordinary PV command"), s)
  else
    match check_profile_limits (rt_joints s) (rt_roles s) (mb_pv mb) velocities accelerations with
    | Some e => (Some e, s)
    | None =>
        (None, s <| rt_mailbox ::= fun mb =>
           mb <| mb_pv_reference_velocity_limits := velocities |>
              <| mb_pv_reference_acceleration_limits := accelerations |>
              <| mb_max_reference_velocity := max_element velocities |>
              <| mb_max_reference_acceleration := max_element accelerations |> |>)
    end.

(** [update_joint_pv_profile_limits(...)]. *)
Definition update_joint_pv_profile_limits (who : nat) (velocities accelerations : list f32) :
    Rt (B := B) unit :=
  if negb (same_length velocities accelerations) || (length velocities =? 0)%nat then
    pthrow (InvalidArgument "ordinary PV per-joint limits must have the same non-zero size")
  else with_command who (do e <- act (profile_limits velocities accelerations); rethrow e).

End Operations.
