(* ===== verification/Enable.v ===== *)
(** * Enabling the motors

    [enable] of [runtime/src/runtime_enable.cpp] with its parts: the arm's
    first hold is seeded from measured positions, the enable frames go out on
    both sides, the hold is sent, and every motor must report that it is
    enabled before the grace period is over; else the transaction is rolled
    back with [disable_hardware].  The mode is PV or MIT by its type. *)

From Stdlib Require Import String.
From S2P Require Import Prelude Float32 Float64 RuntimeTypes Threads NativeTypes SafetyState Motions Gripper Safety Feedback Disable Faults Commands.
#[local] Open Scope mdl_scope.
#[local] Open Scope thread_scope.

(** [std::hex]. *)
Definition hex_digit (d : Z) : string := substring (Z.to_nat d) 1 "0123456789abcdef".
Fixpoint hex_of (fuel : nat) (z : Z) : string :=
  match fuel with
  | O => ""
  | S fuel => if z <? 16 then hex_digit z
              else (hex_of fuel (z / 16) ++ hex_digit (z mod 16))%string
  end.
Definition to_hex (z : Z) : string := hex_of 16 z.

(** [stable_motor_role]. *)
Definition stable_motor_role (m : MotorRecord) : string :=
  let name := name_of m in
  let left := side_of m =? 0 in
  let side_prefix := (if left then "left/" else "right/")%string in
  let stable_prefix := (if left then "l-" else "r-")%string in
  if String.prefix side_prefix name then
    let suffix := substring (String.length side_prefix) (String.length name) name in
    if String.prefix stable_prefix suffix then suffix else (stable_prefix ++ suffix)%string
  else name.

Definition safety_state_name (st : SafetyState) : string :=
  match st with
  | Disconnected => "DISCONNECTED" | Ready => "READY" | Enabled => "ENABLED"
  | Running => "RUNNING" | SafeHold => "SAFE_HOLD" | Degraded => "DEGRADED"
  | SafeStop => "SAFE_STOP" | Fault => "FAULT" | PartiallyEnabled => "PARTIALLY_ENABLED"
  end.

(** [CH0/] or [CH1/] and the name. *)
Definition channel_role (m : MotorRecord) : string :=
  ((if (side_of m =? 0)%Z then "CH0/" else "CH1/") ++ name_of m)%string.

(** ** Confirmation *)

(** What a round has seen so far. *)
Record EnableScan := {
  es_all_enabled : bool;
  es_error : string;
  es_retried : list handle;
  es_retry : list MotorRecord;
  es_fault : option string
}.

Definition not_enabled (text : string) (e : EnableScan) : EnableScan :=
  Build_EnableScan false (if str_empty (es_error e) then text else es_error e) (es_retried e)
    (es_retry e) (es_fault e).

Definition retry_motor (m : MotorRecord) (e : EnableScan) : EnableScan :=
  if existsb (Nat.eqb (motor_of m)) (es_retried e) then e
  else Build_EnableScan (es_all_enabled e) (es_error e) (motor_of m :: es_retried e)
         (es_retry e ++ [m]) (es_fault e).

Section Operations.
Context {B : Type} `{!MotorBackend B}.

Definition scan_motor (e : EnableScan) (m : MotorRecord) : Rt (B := B) EnableScan :=
  match es_fault e with
  | Some _ => pret e
  | None =>
      do age <- read (fun s : Safety B => feedback_max_age_ns (rt_config s));
      do state <- fetch_fresh age (motor_of m);
      match state with
      | None =>
          pret (not_enabled (channel_role m ++ ": enabled feedback is missing or stale") e)
      | Some st =>
          if 1 <? ams_status_code st then
            pret (Build_EnableScan (es_all_enabled e) (es_error e) (es_retried e) (es_retry e)
              (Some (channel_role m ++ ": motor ID " ++ to_string (ams_can_id st) ++
                     " reported status 0x" ++ to_hex (ams_status_code st))%string))
          else if ams_status_code st =? 1 then pret e
          else
            do can <- bk Bk_can_enable_motor;
            pret (not_enabled (channel_role m ++ ": motor ID " ++ to_string (ams_can_id st) ++
                               " is not enabled")
                    (if can then retry_motor m e else e))
      end
  end.

(** The second attempts of one side; the first failure ends them. *)
Definition retry_one (side : Z) (failed : option string) (m : MotorRecord) :
    Rt (B := B) (option string) :=
  match failed with
  | Some _ => pret failed
  | None =>
      do rc <- bk (Bk_enable_motor (motor_of m));
      if rc =? 0 then pret None
      else
        do detail <- bk Bk_last_error_message;
        let text := ((if (side =? 0)%Z then "CH0/" else "CH1/") ++ name_of m ++
                     ": one-shot enable retry failed")%string in
        pret (Some match detail with
                   | Some d => if str_empty d then text else (text ++ ": " ++ d)%string
                   | None => text
                   end)
  end.

Definition retry_enable (l : list MotorRecord) : Rt (B := B) (option string) :=
  let on side := side_motors l side in
  let any side := negb (length (on side) =? 0)%nat in
  do r <- run_active_sides [any 0; any 1] (fun side => pfold (on side) (retry_one side) None);
  pret (match default None r.1 with Some e => Some e | None => default None r.2 end).

(** [confirm_enabled_feedback(deadline, missing_motors, error)]: the loop
    sleeps a millisecond between two rounds, so as many rounds as there are
    milliseconds left, and two, are enough.  [None] is success. *)
Definition enable_grace_text : string :=
  "enable grace expired before all motors reported ENABLED".

Fixpoint enable_rounds (fuel : nat) (deadline : Z) (missing : list MissingMotor)
    (retried : list handle) (latest_error : string) :
    Rt (B := B) (list MissingMotor * option string) :=
  match fuel with
  | O => Done Unfinished
  | S fuel =>
      do now <- clock_now;
      if negb (now <? deadline) then
        pret (missing, Some (if str_empty latest_error then enable_grace_text else latest_error))
      else
        do now <- clock_now;
        do config <- read rt_config;
        let remaining := Z.quot (deadline - now) 1000000 in
        let timeout_ms :=
          u32 (Z.max 1 (Z.min (disable_feedback_timeout_ms config) remaining)) in
        do r <- request_feedback_parallel timeout_ms "";
        let '(complete, missing, request_error) := r in
        let latest_error := if str_empty request_error then latest_error else request_error in
        do motors <- read rt_motors;
        do e <- pfold motors scan_motor (Build_EnableScan complete "" retried [] None);
        match es_fault e with
        | Some text => pret (missing, Some text)
        | None =>
            if es_all_enabled e then pret (missing, None)
            else
              let latest_error := if str_empty (es_error e) then latest_error else es_error e in
              do failed <- retry_enable (es_retry e);
              match failed with
              | Some text => pret (missing, Some text)
              | None =>
                  sleep_ms 1 ;;;
                  enable_rounds fuel deadline missing (es_retried e) latest_error
              end
        end
  end.

Definition enable_fuel (remaining_ns : Z) : nat := S (Z.to_nat (remaining_ns / 1000000) + 1).

Definition confirm_enabled_feedback (deadline : Z) (missing : list MissingMotor) :
    Rt (B := B) (list MissingMotor * option string) :=
  do fuel <- read (fun s : Safety B => enable_fuel (deadline - rt_clock s));
  enable_rounds fuel deadline missing [] "".

(** ** The report *)

Definition enable_row (config : ArticoreRuntimeConfig) (m : MotorRecord)
    (stats : option ArticoreFeedbackStats) (state : option ArticoreMotorState) :
    bool * ArticoreEnableMotorResult :=
  let has_feedback := match stats, state with Some _, Some _ => true | _, _ => false end in
  let fresh := has_feedback &&
    match stats with Some st => afs_age_ns st <=? feedback_max_age_ns config | None => false end in
  let enabled := match state with Some st => ams_status_code st =? 1 | None => false end in
  (negb has_feedback || negb fresh || match state with Some _ => negb enabled | None => false end,
   {| er_side := side_of m;
      er_can_id := match state with Some st => ams_can_id st | None => 0 end;
      er_status_code := match state with Some st => ams_status_code st | None => 0 end;
      er_has_feedback := has_feedback; er_feedback_fresh := fresh; er_enabled := enabled;
      er_name := name_of m |}).

Definition enable_rows (l : list (bool * ArticoreEnableMotorResult)) (m : MotorRecord) :
    Rt (B := B) (list (bool * ArticoreEnableMotorResult)) :=
  do stats <- fetch_stats (motor_of m);
  do state <- fetch_state (motor_of m);
  do config <- read rt_config;
  pret (l ++ [enable_row config m stats state]).

(** [update_enable_report]; there are at most 32 motors. *)
Definition update_enable_report (success disable_confirmed : bool)
    (missing : list MissingMotor) (error : string) : Rt (B := B) unit :=
  do motors <- read rt_motors;
  do rows <- pfold (take 32 motors) enable_rows [];
  write (fun s : Safety B => s <| rt_enable_report :=
    {| ep_success := success; ep_disable_confirmed := disable_confirmed;
       ep_expected_count := Z.of_nat (length motors); ep_missing := take 32 missing;
       ep_enabled_count := count_if (fun r => er_enabled r.2) rows;
       ep_failure_count := count_if fst rows; ep_motors := map snd rows; ep_error := error |} |>).

(** ** The enabled state *)

Definition enabled_motor (m : MotorRecord) : MotorRecord :=
  let m := m <| retreat_active := false |> <| protective_target_active := false |>
             <| contact_started_at := 0 |> <| overload_started_at := 0 |>
             <| last_retreat_at := 0 |> <| motion_samples := [] |>
             <| gripper_state := if is_gripper m then GRIPPER_IDLE else GRIPPER_DISABLED |>
             <| has_gripper_target := false |> <| contact_detected := false |>
             <| stalled := false |> <| overload := false |> <| gripper_fault_reason := ""%string |>
             <| last_gripper_update := 0 |> in
  if is_gripper m then
    m <| requested_speed := f32_of_Z 1000 |> <| command_speed := d_close_speed (descriptor m) |>
      <| force_level := GRIPPER_FORCE_DEFAULT |>
  else m.

(** [gravity_control_.status = {}] and the rest of the reset. *)
Definition fresh_gravity (g : GravityControl) : GravityControl :=
  {| gv_phase := GRAVITY_INACTIVE; gv_transition_started := gv_transition_started g;
     gv_transition_duration_ms := gv_transition_duration_ms g;
     gv_transition_start_gravity_scale := gv_transition_start_gravity_scale g;
     gv_hold_positions := []; gv_control_cycles := 0; gv_status_phase := GRAVITY_INACTIVE;
     gv_status_active := false; gv_status_transition_progress := f32_zero;
     gv_status_control_cycles := 0; gv_status_joint_count := 0;
     gv_status_feedforward := replicate PRODUCT_DUAL_ARM_DOF f32_zero |}.

Definition no_generations (c : SafetyCounters) : SafetyCounters :=
  c <| gripper_command_generation_ := 0 |> <| gripper_sent_generation_ := 0 |>.

(** [initialize_enabled_state(mode)]. *)
Definition initialize_enabled_state (mode : ControlMode) (now : Z) (s : Safety B) : Safety B :=
  s <| rt_core ::= fun c =>
         c <| mode_ := mode |> <| state_ := Enabled |> <| safety_reason_ := ""%string |>
           <| disable_confirmed_ := false |> <| has_successful_command_ := false |>
           <| first_command_accepted_ := false |> <| enable_grace_transition_ := false |>
           <| active_command_planning_token_ := 0 |> |>
    <| rt_timers ::= fun t =>
         t <| enabled_at_ := now |> <| last_successful_command_ := 0 |>
           <| next_feedback_check_ := now |> <| next_ready_feedback_ := 0 |>
           <| next_gripper_control_ := now |> <| next_control_tick_ := now |> |>
    <| rt_counters ::= fun c =>
         no_generations c <| consecutive_send_failures_ := 0 |>
           <| consecutive_feedback_failures_ := 0 |> <| consecutive_hold_failures_ := 0 |> |>
    <| rt_holds ::= fun h =>
         h <| safe_pv_ := [] |> <| safe_mit_ := [] |> <| safe_grippers_ := [] |> |>
    <| rt_intentionally_disabled := ∅ |> <| rt_motors ::= map enabled_motor |>
    <| rt_gravity ::= fresh_gravity |> <| rt_bimanual ::= reset_bimanual_follow_locked |>.

(** [send_initial_hold(mode, error)]: [None] is success. *)
Definition send_initial_hold (who : nat) (mode : ControlMode) : Rt (B := B) (option string) :=
  with_command who (
    do mb <- read rt_mailbox;
    do rc <- (match mode with
              | ModePv => send_pos_vel (mb_pv mb)
              | ModeMit => send_mit (mb_mit mb)
              end);
    if negb (rc =? 0) then
      do error <- motor_error "initial arm hold send failed"; pret (Some error)
    else
      write (fun s : Safety B => s <| rt_holds ::= fun h =>
        match mode with
        | ModePv => h <| last_sent_pv_ := mb_pv mb |> <| last_sent_mit_ := [] |>
        | ModeMit => h <| last_sent_mit_ := mb_mit mb |> <| last_sent_pv_ := [] |>
        end |>) ;;;
      do grippers <- read (fun s : Safety B => safe_grippers_ (rt_holds s));
      match grippers with
      | [] => pret None
      | _ =>
          do rc <- send_mit grippers;
          if rc =? 0 then pret None
          else do error <- motor_error "initial gripper hold send failed"; pret (Some error)
      end).

End Operations.

(** ** [enable(mode)] *)

Section Enable.
Context {B : Type} `{!MotorBackend B}.

(** What [catch (const std::exception&)] would have caught. *)
Definition attempt (p : Rt (B := B) unit) : Rt (B := B) (option string) :=
  pcatch (p ;;; pret None) (fun e => pret (Some (exn_what e))).

(** The first section: the transaction starts, or it is rejected. *)
Definition enable_rejected (c : SafetyCore) : bool :=
  negb (match state_ c with Ready | PartiallyEnabled => true | _ => false end) ||
  fault_latched_ c || hardware_transition_ c.

Definition begin_enable (s : Safety B) : option (SafetyCore * list string) * Safety B :=
  let c := rt_core s in
  if enable_rejected c then
    (Some (c, fold_left (fun l n => if existsb (String.eqb n) l then l else l ++ [n])
                (operation_failed_motors_ (rt_operation s)) (rt_motor_faults s)), s)
  else (None, s <| rt_core ::= fun c =>
                c <| hardware_transition_ := true |> <| enable_transaction_ := true |> |>).

Definition or_none (text : string) : string := if str_empty text then "<none>" else text.
Definition flag_text (b : bool) : string := if b then "true" else "false".

(** A motor of the list with the status it reports. *)
Definition fault_row (l : list string) (name : string) : Rt (B := B) (list string) :=
  do motors <- read rt_motors;
  let found := find (fun m => String.eqb (stable_motor_role m) name ||
                              String.eqb (name_of m) name) motors in
  do state <- (match found with Some m => fetch_state (motor_of m) | None => pret None end);
  pret (l ++ [(name ++ "(status_code=" ++
               match state with Some st => to_string (ams_status_code st) | None => "unavailable" end
               ++ ")")%string]).

Definition enable_rejection (c : SafetyCore) (faults : list string) : Rt (B := B) string :=
  do rows <- pfold faults fault_row [];
  pret ("current_state=" ++ safety_state_name (state_ c) ++
        ", expected_states=[READY, PARTIALLY_ENABLED], fault_latched=" ++
        flag_text (fault_latched_ c) ++ ", hardware_transition=" ++
        flag_text (hardware_transition_ c) ++ ", fault_source=" ++
        (if String.prefix "connect detected" (fault_reason_ c) then "connect" else "runtime") ++
        ", fault_reason=" ++ or_none (fault_reason_ c) ++ ", safety_reason=" ++
        or_none (safety_reason_ c) ++ ", motor_faults=[" ++ join ", " rows ++ "]")%string.

Definition end_transaction (s : Safety B) : Safety B :=
  s <| rt_core ::= fun c =>
         c <| hardware_transition_ := false |> <| enable_transaction_ := false |> |>.

(** Without a native enable callback the motors are enabled already. *)
Definition enable_without_callback (who : nat) (mode : ControlMode) : Rt (B := B) unit :=
  pcatch (
    with_command who (initialize_arm_mailbox_from_feedback mode true) ;;;
    write (fun s : Safety B => initialize_enabled_state mode (rt_clock s) s) ;;;
    seed_gripper_targets_from_feedback who false ;;;
    write end_transaction ;;;
    update_enable_report true false [] "")
  (fun e => write end_transaction ;;; pthrow e).

(** The enable frames of one side: the text of a failure. *)
Definition enable_side (side : Z) : Rt (B := B) (option string) :=
  do rc <- bk (Bk_enable_all side);
  if rc =? 0 then pret None
  else do detail <- bk Bk_last_error_message; pret (Some (default ""%string detail)).

Definition enable_side_error (error : string) (x : Z * option (option string)) : string :=
  match x.2 with
  | Some (Some detail) =>
      append_error error ((if (x.1 =? 0)%Z then "CH0" else "CH1") ++ " enable failed" ++
                          (if str_empty detail then "" else ": " ++ detail))%string
  | _ => error
  end.

Definition enable_sides (error : string) : Rt (B := B) string :=
  do active <- read rt_active_sides;
  do r <- run_active_sides active enable_side;
  pret (fold_left enable_side_error [(0, r.1); (1, r.2)] error).

(** The [try] block: who is missing, and what was thrown. *)
Definition enable_transaction (who : nat) (mode : ControlMode) :
    Rt (B := B) (list MissingMotor * option string) :=
  do timeout <- read (fun s : Safety B => disable_feedback_timeout_ms (rt_config s));
  do r <- request_feedback_parallel timeout "";
  let '(complete, missing, error) := r in
  if negb complete then
    pret (missing, Some ("initial position feedback failed: " ++ error)%string)
  else
    do e <- attempt (with_command who (initialize_arm_mailbox_from_feedback mode false));
    match e with
    | Some what => pret (missing, Some what)
    | None =>
        do error <- enable_sides error;
        if negb (str_empty error) then pret (missing, Some error)
        else
          write (fun s : Safety B => initialize_enabled_state mode (rt_clock s) s) ;;;
          do e <- attempt (seed_gripper_targets_from_feedback who true);
          match e with
          | Some what => pret (missing, Some what)
          | None =>
              do held <- send_initial_hold who mode;
              match held with
              | Some error => pret (missing, Some error)
              | None =>
                  write (fun s : Safety B => s <| rt_core ::= fun c =>
                    c <| hardware_transition_ := false |> |>) ;;;
                  do now <- clock_now;
                  do grace <- read (fun s : Safety B => enable_grace_ms (rt_config s));
                  do c <- confirm_enabled_feedback (now + milliseconds_ns grace) missing;
                  match c.2 with
                  | Some error => pret (c.1, Some error)
                  | None =>
                      write (fun s : Safety B => s <| rt_core ::= fun c =>
                        c <| enable_transaction_ := false |> |>) ;;;
                      update_enable_report true false c.1 "" ;;;
                      pret (c.1, None)
                  end
              end
          end
    end.

(** The [catch] block. *)
Definition enable_fault (error : string) (motor_fault : bool) (s : Safety B) : Safety B :=
  clear_mailboxes (s <| rt_core ::= fun c =>
    c <| state_ := Fault |> <| fault_latched_ := true |>
      <| motor_fault_latched_ ::= fun l => l || motor_fault |>
      <| hardware_transition_ := true |> <| disable_confirmed_ := false |>
      <| fault_reason_ := ("runtime enable failed: " ++ error)%string |> |>).

Definition enable_rolled_back (disabled : bool) (error : string) (s : Safety B) : Safety B :=
  s <| rt_core ::= fun c =>
         c <| disable_confirmed_ := disabled |> <| hardware_transition_ := false |>
           <| enable_transaction_ := false |>
           <| fault_reason_ ::= fun r =>
                if str_empty error then r else (r ++ "; rollback: " ++ error)%string |> |>
    <| rt_enable_report ::= fun r => r <| ep_disable_confirmed := disabled |> |>.

Definition enable_failed (who : nat) (missing : list MissingMotor) (error : string) :
    Rt (B := B) unit :=
  do motor_fault <- current_motor_fault_reported;
  with_command who (write (enable_fault error motor_fault)) ;;;
  update_enable_report false false missing error ;;;
  do disabled <- disable_hardware who true false;
  write (enable_rolled_back disabled.1 disabled.2) ;;;
  pthrow (RuntimeError
    (if str_empty disabled.2 then error else error ++ "; rollback: " ++ disabled.2)%string).

Definition enable (who : nat) (mode : ControlMode) : Rt (B := B) unit :=
  with_lifecycle who (
    do rejected <- act begin_enable;
    match rejected with
    | Some (c, faults) =>
        do text <- enable_rejection c faults; pthrow (InvalidRuntimeState text)
    | None =>
        do native <- bk Bk_can_enable_all;
        if negb native then enable_without_callback who mode
        else
          do r <- enable_transaction who mode;
          match r.2 with
          | None => pret tt
          | Some error => enable_failed who r.1 error
          end
    end).

End Enable.
