(* ===== verification/Lifecycle.v ===== *)
(** * Connecting, disabling, emergency stop, disconnecting

    [connect], [stop_worker] and [close] of [runtime/src/runtime.cpp], with
    [disable] and [estop] of [runtime_enable.cpp].  The report of [connect],
    a copy of the feedback for diagnosis, is left out. *)

From Stdlib Require Import String.
From S2P Require Import Prelude Float32 Float64 RuntimeTypes Threads NativeTypes SafetyState Motions Gripper Safety Feedback Disable Faults Commands Enable.
#[local] Open Scope mdl_scope.
#[local] Open Scope thread_scope.

Section Operations.
Context {B : Type} `{!MotorBackend B}.

(** ** [disable()] *)

Definition no_holds (h : SafetyHolds) : SafetyHolds := Build_SafetyHolds [] [] [] [] [].

Definition ready_refresh_ns (c : ArticoreRuntimeConfig) : Z :=
  1000000000 / Z.min (feedback_check_hz c) 10.

(** [leave_gravity] without the held positions, as three assignments. *)
Definition end_gravity (g : GravityControl) : GravityControl :=
  g <| gv_phase := GRAVITY_INACTIVE |> <| gv_status_active := false |>
    <| gv_status_phase := GRAVITY_INACTIVE |>.

Definition begin_disable (s : Safety B) : (exn + (bool * string)) * Safety B :=
  let c := rt_core s in
  if bool_decide (state_ c = Disconnected) then
    (inl (RuntimeError "cannot disable a disconnected runtime"), s)
  else
    let s := terminate_trajectory_locked MOTION_CANCELLED
               "trajectory cancelled by Runtime disable" s in
    (inr (bool_decide (state_ c = Fault) && fault_latched_ c, fault_reason_ c),
     s <| rt_core ::= fun c => c <| hardware_transition_ := true |> |>).

(** What is forgotten whether or not the motors are confirmed disabled. *)
Definition disable_cleared (confirmed : bool) (s : Safety B) : Safety B :=
  clear_mailboxes s <| rt_holds ::= no_holds |> <| rt_gravity ::= leave_gravity |>
    <| rt_bimanual ::= reset_bimanual_follow_locked |> <| rt_counters ::= no_generations |>
    <| rt_core ::= fun c =>
         c <| disable_confirmed_ := confirmed |> <| fault_hold_active_ := false |>
           <| has_successful_command_ := false |> <| first_command_accepted_ := false |>
           <| enable_grace_transition_ := false |> <| active_command_planning_token_ := 0 |>
           <| hardware_transition_ := false |> |>.

Definition disable_done (confirmed motor_fault preserve_fault : bool)
    (preserved_reason error : string) (s : Safety B) : Safety B :=
  let s := disable_cleared confirmed s in
  if confirmed then
    let s := s <| rt_intentionally_disabled := ∅ |> in
    if preserve_fault then
      s <| rt_core ::= fun c => c <| state_ := Fault |> <| fault_latched_ := true |>
             <| fault_reason_ := preserved_reason |> |>
    else
      s <| rt_core ::= fun c => c <| state_ := Ready |> <| fault_reason_ := ""%string |>
             <| safety_reason_ := ""%string |> |>
        <| rt_timers ::= fun t =>
             t <| next_ready_feedback_ := rt_clock s + ready_refresh_ns (rt_config s) |> |>
  else
    s <| rt_core ::= fun c => c <| state_ := Fault |> <| fault_latched_ := true |>
           <| motor_fault_latched_ ::= fun l => l || motor_fault |>
           <| fault_reason_ :=
                if preserve_fault && negb (str_empty preserved_reason)
                then (preserved_reason ++ "; disable confirmation failed: " ++ error)%string
                else ("disable confirmation failed: " ++ error)%string |> |>.

Definition disable (who : nat) : Rt (B := B) unit :=
  with_lifecycle who (
    do begun <- act begin_disable;
    do p <- except begun;
    do r <- disable_hardware who true false;
    do motor_fault <- current_motor_fault_reported;
    write (disable_done r.1 motor_fault p.1 p.2 r.2) ;;;
    if r.1 then pret tt else pthrow (RuntimeError r.2)).

(** ** [estop()] *)

Definition estop_text : string := "emergency stop requested".

Inductive EstopStart := EstopAlready | EstopDisconnected | EstopHold (was_disable_confirmed requires_hold : bool).

Definition begin_estop (s : Safety B) : EstopStart * Safety B :=
  let c := rt_core s in
  let latched c := c <| fault_latched_ := true |> <| fault_reason_ := estop_text |>
                     <| safety_reason_ := ""%string |> in
  if emergency_stop_latched_ c then (EstopAlready, s <| rt_core ::= latched |>)
  else
    (if bool_decide (state_ c = Disconnected) then EstopDisconnected
     else EstopHold (disable_confirmed_ c)
            (negb (disable_confirmed_ c) && negb (bool_decide (state_ c = Ready))),
     s <| rt_core ::= fun c => latched (c <| emergency_stop_latched_ := true |>) |>).

Definition note_fault (error : string) (s : Safety B) : Safety B :=
  s <| rt_core ::= fun c =>
    if str_contains error (fault_reason_ c) then c
    else c <| fault_reason_ ::= fun r => (r ++ "; " ++ error)%string |> |>.

(** Where no arm is held the last user output must not be sent again. *)
Definition drop_last_sent (s : Safety B) : bool * Safety B :=
  (arm_held (mode_ (rt_core s)) (rt_holds s),
   s <| rt_holds ::= fun h => h <| last_sent_pv_ := [] |> <| last_sent_mit_ := [] |> |>).

Definition estop_hold (who : nat) : Rt (B := B) unit :=
  do held <- with_command who (act drop_last_sent);
  if negb held then
    let error := "emergency stop current-position hold is unavailable"%string in
    write (note_fault error) ;;; pthrow (RuntimeError error)
  else
    do r <- send_safe_hold_once who;
    if r.1 then pret tt
    else
      let error := ("emergency stop initial hold failed" ++
                    if str_empty r.2 then "" else ": " ++ r.2)%string in
      write (note_fault error) ;;; pthrow (RuntimeError error).

Definition estop (who : nat) : Rt (B := B) unit :=
  with_lifecycle who (
    do start <- act begin_estop;
    match start with
    | EstopAlready | EstopDisconnected => pret tt
    | EstopHold was_disable_confirmed requires_hold =>
        enter_fault who estop_text false requires_hold ;;;
        if negb requires_hold then
          write (fun s : Safety B => s <| rt_core ::= fun c =>
            c <| disable_confirmed_ := was_disable_confirmed |>
              <| fault_reason_ := estop_text |> |>)
        else estop_hold who
    end).

(** ** [close()] *)

(** The two sections of [stop_worker], with [join] between them. *)
Definition begin_stop (s : Safety B) : bool * Safety B :=
  if stopping_ (rt_core s) then (false, s)
  else
    let s := s <| rt_core ::= fun c => c <| stopping_ := true |> |> in
    let s := terminate_trajectory_locked MOTION_CANCELLED
               "trajectory cancelled by Runtime disconnect" s in
    (true,
     clear_mailboxes s <| rt_gravity ::= end_gravity |>
       <| rt_bimanual ::= reset_bimanual_follow_locked |>
       <| rt_core ::= fun c =>
            c <| first_command_accepted_ := false |> <| enable_grace_transition_ := false |>
              <| active_command_planning_token_ := 0 |> <| fault_hold_active_ := false |> |>).

Definition disconnected (s : Safety B) : Safety B :=
  s <| rt_core ::= fun c => c <| state_ := Disconnected |> <| safety_reason_ := ""%string |> |>
    <| rt_sides ::= map (fun h => h <| sh_connected := false |> <| sh_healthy := false |>) |>.

Definition stop_worker : Rt (B := B) unit :=
  do first <- act begin_stop;
  if negb first then pret tt
  else await rt_worker_done (fun s : Safety B => (tt, s)) ;;; write disconnected.

(** Whether the motors have to be disabled first; [None] where the runtime is
    closed already. *)
Definition needs_disable (c : SafetyCore) : option bool :=
  if stopping_ c then None
  else Some match state_ c with
            | Disconnected => false
            | Enabled | Running | Degraded | SafeHold | SafeStop | PartiallyEnabled => true
            | Ready | Fault => negb (disable_confirmed_ c)
            end.

Definition close (who : nat) : Rt (B := B) unit :=
  with_lifecycle who (
    do needed <- read (fun s : Safety B => needs_disable (rt_core s));
    match needed with
    | None => pret tt
    | Some needed =>
        do failure <- (if needed then attempt (disable who) else pret None);
        stop_worker ;;;
        match failure with
        | Some what => if str_empty what then pret tt else pthrow (RuntimeError what)
        | None => pret tt
        end
    end).

(** ** [connect()] *)

(** What the first section decides: nothing to do, or a transaction, which
    may be the revalidation of a fault of the system. *)
Inductive ConnectStart := ConnectNothing | ConnectGo (revalidating : bool).

Definition may_revalidate (c : SafetyCore) : bool :=
  bool_decide (state_ c = Fault) && fault_latched_ c && negb (emergency_stop_latched_ c) &&
  negb (motor_fault_latched_ c) && negb (hardware_transition_ c).

Definition profile_missing (s : Safety B) : option MotorRecord :=
  if rt_require_profiles s
  then find (fun m => is_gripper m && negb (gripper_product_profile_bound m)) (rt_motors s)
  else None.

Definition connecting_sides (active : list bool) : list SideHealth :=
  map (fun side => no_SideHealth <| sh_connected := active_side active side |>) both_sides.

Definition begin_transaction (revalidating : bool) (s : Safety B) :
    (exn + ConnectStart) * Safety B :=
  match profile_missing s with
  | Some m =>
      (inl (RuntimeError (name_of m ++
         ": built-in gripper product profile is required before connect")), s)
  | None =>
      (inr (ConnectGo revalidating),
       s <| rt_core ::= fun c => c <| hardware_transition_ := true |> |>
         <| rt_sides := connecting_sides (rt_active_sides s) |>)
  end.

Definition begin_connect (cached_fault : bool) (s : Safety B) :
    (exn + ConnectStart) * Safety B :=
  let c := rt_core s in
  if stopping_ c then
    (inl (RuntimeError "Runtime was terminally disconnected and cannot reconnect"), s)
  else if bool_decide (state_ c = Disconnected) then begin_transaction false s
  else if negb (may_revalidate c) then (inr ConnectNothing, s)
  else if cached_fault then
    (inr ConnectNothing, s <| rt_core ::= fun c => c <| motor_fault_latched_ := true |> |>)
  else begin_transaction true s.

(** The feedback transaction failed. *)
Definition connect_refused (error : string) (s : Safety B) : Safety B :=
  s <| rt_core ::= fun c => c <| hardware_transition_ := false |> |>
    <| rt_sides ::= fun sides =>
         fold_left (fun l side =>
           if active_side (rt_active_sides s) side
           then update_side side (fun h =>
                  let h := h <| sh_connected := false |> <| sh_healthy := false |> in
                  if str_empty error then h else h <| sh_last_error := error |>) l
           else l) both_sides sides |>.

(** What the motors report: whether all are disabled, the enabled ones, the
    faulted ones and the error of each side. *)
Record ConnectScan := {
  cs_disabled : bool;
  cs_enabled : list string;
  cs_faulted : list string;
  cs_errors : list string
}.

Definition connect_scan (x : ConnectScan) (m : MotorRecord) : Rt (B := B) ConnectScan :=
  do r <- bk (Bk_get_state (motor_of m));
  let '(rc, st) := r in
  let has := ams_has_value st in
  let status := ams_status_code st in
  pret {| cs_disabled := cs_disabled x && (rc =? 0) && has && (status =? 0);
          cs_enabled := if has && (status =? 1) then cs_enabled x ++ [name_of m] else cs_enabled x;
          cs_faulted := if has && (1 <? status) then cs_faulted x ++ [name_of m] else cs_faulted x;
          cs_errors :=
            if has && (1 <? status) then
              alter (fun e => append_error e
                (name_of m ++ ": motor fault status " ++ to_string status)%string)
                (Z.to_nat (side_of m)) (cs_errors x)
            else cs_errors x |}.

Definition still_enabled_text (enabled : list string) : string :=
  ("system fault revalidation requires every motor to be disabled" ++
   match enabled with
   | [] => ""
   | _ => ": enabled_motors=[" ++ join ", " enabled ++ "]"
   end)%string.

Definition revalidation_refused (failure : string) (enabled : list string) (s : Safety B) :
    Safety B :=
  s <| rt_core ::= fun c => c <| disable_confirmed_ := false |>
         <| hardware_transition_ := false |> <| fault_reason_ := failure |> |>
    <| rt_operation ::= fun o => o <| operation_failed_motors_ := enabled |> |>.

Definition connected_side (active : list bool) (errors : list string) (sides : list SideHealth)
    (side : Z) : list SideHealth :=
  if negb (active_side active side) then sides
  else
    let error := nth (Z.to_nat side) errors ""%string in
    update_side side (fun h => h <| sh_connected := true |> <| sh_healthy := str_empty error |>
                                 <| sh_feedback_failures := 0 |> <| sh_last_error := error |>) sides.

Definition present_again (p : ArticorePresenceState) : ArticorePresenceState :=
  match p with FAULTED => PRESENT | _ => p end.

Definition connect_done (x : ConnectScan) (s : Safety B) : Safety B :=
  let faulted := negb (length (cs_faulted x) =? 0)%nat in
  let estop := emergency_stop_latched_ (rt_core s) in
  let motor_fault := motor_fault_latched_ (rt_core s) || faulted in
  let latched := estop || motor_fault in
  s <| rt_core ::= fun c =>
         c <| motor_fault_latched_ := motor_fault |>
           <| state_ := if latched then Fault else Ready |> <| fault_latched_ := latched |>
           <| disable_confirmed_ := cs_disabled x |>
           <| fault_reason_ :=
                if estop then estop_text
                else if faulted then
                  fold_left (fun r n => (r ++ ": " ++ n)%string) (cs_faulted x)
                    "connect detected Motor-reported fault requiring explicit clear"%string
                else ""%string |>
           <| safety_reason_ := ""%string |> <| hardware_transition_ := false |> |>
    <| rt_presence ::= fun p =>
         if estop then p
         else if faulted then fold_left (fun p n => <[n := FAULTED]> p) (cs_faulted x) p
         else present_again <$> p |>
    <| rt_motor_faults := cs_faulted x |> <| rt_unconfirmed_disable := [] |>
    <| rt_timers ::= fun t =>
         t <| next_ready_feedback_ := rt_clock s + ready_refresh_ns (rt_config s) |> |>
    <| rt_sides ::= fun sides =>
         fold_left (connected_side (rt_active_sides s) (cs_errors x)) both_sides sides |>.

(** The hardware transaction. *)
Definition connect_transaction (revalidating : bool) : Rt (B := B) unit :=
  do timeout <- read (fun s : Safety B => disable_feedback_timeout_ms (rt_config s));
  do r <- request_feedback_parallel timeout "";
  let '(requested, missing, error) := r in
  do valid <- validate_fresh_feedback_snapshot missing error;
  if negb requested || negb valid.1 then
    write (connect_refused valid.2) ;;;
    pthrow (RuntimeError
      ((if revalidating then "system fault revalidation failed: "
        else "connect initial feedback transaction failed: ") ++
       (if str_empty valid.2 then "incomplete motor feedback" else valid.2)))
  else
    do motors <- read rt_motors;
    do x <- pfold motors connect_scan (Build_ConnectScan true [] [] [""; ""]%string);
    if revalidating && (length (cs_faulted x) =? 0)%nat && negb (cs_disabled x) then
      let failure := still_enabled_text (cs_enabled x) in
      write (revalidation_refused failure (cs_enabled x)) ;;;
      pthrow (RuntimeError failure)
    else write (connect_done x).

Definition connect (who : nat) : Rt (B := B) unit :=
  with_lifecycle who (
    do cached <- current_motor_fault_reported;
    do begun <- act (begin_connect cached);
    do start <- except begun;
    match start with
    | ConnectNothing => pret tt
    | ConnectGo revalidating => connect_transaction revalidating
    end).

(** ** Presence *)

(** [declare_motor_presence(role, state)] and [motor_presence(role)]. *)
Definition declare_presence (role : string) (p : ArticorePresenceState) (s : Safety B) :
    option exn * Safety B :=
  if negb (bool_decide (state_ (rt_core s) = Disconnected)) then
    (Some (RuntimeError "motor presence is fixed after the runtime connects"), s)
  else
    match rt_presence s !! role, p with
    | Some PRESENT, NOT_INSTALLED =>
        (Some (InvalidArgument
           ("an active motor descriptor cannot be declared NotInstalled: " ++ role)), s)
    | None, PRESENT =>
        (Some (InvalidArgument
           ("Present motor role requires an active motor descriptor: " ++ role)), s)
    | _, _ => (None, s <| rt_presence ::= <[role := p]> |>)
    end.

Definition declare_motor_presence (role : string) (p : ArticorePresenceState) :
    Rt (B := B) unit :=
  if str_empty role then pthrow (InvalidArgument "motor role is empty")
  else
    match p with
    | FAULTED => pthrow (InvalidArgument
        "only NotInstalled or Present may be declared before connect")
    | _ => do e <- act (declare_presence role p); rejected e
    end.

Definition motor_presence (role : string) : Rt (B := B) ArticorePresenceState :=
  do found <- read (fun s : Safety B => rt_presence s !! role);
  match found with
  | Some p => pret p
  | None => pthrow (InvalidArgument ("unknown motor role: " ++ role))
  end.

End Operations.
