(* ===== verification/Construct.v ===== *)
(** * Construction

    The constructor of [SafetyRuntime] and [configure_motor_identities], of
    [runtime/src/runtime.cpp]: which configurations and motors are accepted,
    and the state the threads start from.  The control trace, the size checks
    of the structs and the scheduling of the worker thread are left out; the
    warning of the scheduling is an argument. *)

From Stdlib Require Import String Ascii.
From S2P Require Import Prelude Float32 Float64 Config RuntimeTypes Threads NativeTypes SafetyState Motions Gripper Safety Feedback Disable Faults Commands Enable Lifecycle.
#[local] Open Scope mdl_scope.
#[local] Open Scope thread_scope.

(** ** Validation *)

Definition config_invalid (c : ArticoreRuntimeConfig) : bool :=
  (command_timeout_ms c =? 0) || (enable_grace_ms c =? 0) || (safe_hold_hz c =? 0) ||
  (feedback_check_hz c =? 0) || (feedback_failure_threshold c =? 0) ||
  (feedback_max_age_ms c =? 0) || (safe_hold_failure_threshold c =? 0) ||
  (disable_feedback_timeout_ms c =? 0) || negb (f32_isfinite (safe_pv_velocity_limit c)) ||
  f32_le (safe_pv_velocity_limit c) f32_zero.

Definition negative (x : f32) : bool := f32_lt x f32_zero.

Definition descriptor_invalid (d : ArticoreMotorDescriptor) : bool :=
  negb (f32_isfinite (d_safe_kp d)) || negb (f32_isfinite (d_safe_kd d)) ||
  negative (d_safe_kp d) || negative (d_safe_kd d) ||
  negb (f32_isfinite (d_overload_torque d)) || negative (d_overload_torque d) ||
  negb (f32_isfinite (d_retreat_distance d)) || negative (d_retreat_distance d) ||
  negb (f32_isfinite (d_contact_torque d)) || negative (d_contact_torque d) ||
  negb (f32_isfinite (d_stall_movement d)) || negative (d_stall_movement d) ||
  negb (f32_isfinite (d_min_position_error d)) || negative (d_min_position_error d) ||
  negb (f32_isfinite (d_hold_offset d)) || negative (d_hold_offset d) ||
  negb (f32_isfinite (d_open_position d)) || negb (f32_isfinite (d_closed_position d)) ||
  negb (f32_isfinite (d_normal_kp d)) || negative (d_normal_kp d) ||
  negb (f32_isfinite (d_normal_kd d)) || negative (d_normal_kd d) ||
  negb (f32_isfinite (d_close_speed d)) || negative (d_close_speed d) ||
  negb (f32_isfinite (d_closing_direction d)) || f32_isnan (d_lower_position d) ||
  f32_isnan (d_upper_position d) || f32_gt (d_lower_position d) (d_upper_position d).

(** A gripper whose descriptor says how it opens and closes. *)
Definition gripper_described (d : ArticoreMotorDescriptor) : bool :=
  negb (SFeqb (d_open_position d) (d_closed_position d) || f32_le (d_normal_kp d) f32_zero ||
        f32_le (d_close_speed d) f32_zero).

(** ** The motors *)

Definition arm_record (d : ArticoreMotorDescriptor) : MotorRecord := new_MotorRecord d.

Definition gripper_record (d : ArticoreMotorDescriptor) : MotorRecord :=
  new_MotorRecord d
    <| gripper_state := GRIPPER_DISABLED |> <| requested_speed := f32_of_Z 1000 |>
    <| command_speed := d_close_speed d |>
    <| force_profiles := {[ GRIPPER_FORCE_DEFAULT :=
         {| gf_contact_torque := d_contact_torque d; gf_overload_torque := d_overload_torque d;
            gf_moving_kp := d_normal_kp d; gf_moving_kd := d_normal_kd d;
            gf_hold_kp := d_safe_kp d; gf_hold_kd := d_safe_kd d |} ]} |>.

(** Without its description a gripper is accepted only where a product profile
    will be bound before the runtime connects. *)
Definition make_record (require_profiles : bool) (d : ArticoreMotorDescriptor) : exn + MotorRecord :=
  if negb (d_is_gripper d) then inr (arm_record d)
  else if gripper_described d then inr (gripper_record d)
  else if require_profiles then inr (new_MotorRecord d)
  else inl (InvalidArgument "invalid active gripper descriptor").

(** The descriptors, one after the other, with the handles and the roles of
    the earlier ones. *)
Fixpoint make_motors (require_profiles : bool) (unique : gset handle) (roles : gset string)
    (l : list ArticoreMotorDescriptor) : exn + list MotorRecord :=
  match l with
  | [] => inr []
  | d :: rest =>
      if (d_motor d =? 0)%nat || (1 <? d_side d) || str_empty (d_name d) then
        inl (InvalidArgument "invalid Articore motor descriptor")
      else if bool_decide (d_motor d ∈ unique) then
        inl (InvalidArgument "duplicate Articore motor handle")
      else if descriptor_invalid d then
        inl (InvalidArgument "invalid safe-hold motor descriptor")
      else if bool_decide (d_name d ∈ roles) then
        inl (InvalidArgument ("duplicate Articore motor role: " ++ d_name d))
      else
        match make_record require_profiles d with
        | inl e => inl e
        | inr m =>
            match make_motors require_profiles ({[d_motor d]} ∪ unique) ({[d_name d]} ∪ roles)
                    rest with
            | inl e => inl e
            | inr motors => inr (m :: motors)
            end
        end
  end.

(** ** The control rate *)

(** [strtoul] of the whole text: what follows the digits is an error. *)
Definition whole_number (value : string) : option Z :=
  match strto value with
  | None => None
  | Some (minus, n) =>
      let rest := drop_while isdigit
        (drop_while (fun c => (code c =? 45) || (code c =? 43))
           (drop_while isspace (text_of value))) in
      match rest with
      | [] => Some (if 2 ^ 64 <=? n then 2 ^ 64 - 1 else if minus then u64 (- n) else n)
      | _ => None
      end
  end.

Definition select_control_hz (override : Z) (environment : option string) : exn + Z :=
  if negb (override =? 0) then inr override
  else
    match environment with
    | None => inr 500
    | Some raw =>
        match whole_number raw with
        | Some n =>
            if (n <? 50) || (500 <? n) then
              inl (InvalidArgument
                "ARTICORE_RUNTIME_CONTROL_HZ must be an integer within 50..500")
            else inr n
        | None =>
            inl (InvalidArgument "ARTICORE_RUNTIME_CONTROL_HZ must be an integer within 50..500")
        end
    end.

(** ** The state of a new runtime *)

Definition new_core (warning : string) : SafetyCore := {|
  state_ := Disconnected; mode_ := ModePv; stopping_ := false; hardware_transition_ := false;
  enable_transaction_ := false; fault_latched_ := false; motor_fault_latched_ := false;
  emergency_stop_latched_ := false; disable_confirmed_ := false;
  has_successful_command_ := false; first_command_accepted_ := false;
  enable_grace_transition_ := false; fault_hold_active_ := false;
  active_command_planning_token_ := 0; next_command_planning_token_ := 1; fault_reason_ := "";
  safety_reason_ := warning
|}.

Definition new_gravity : GravityControl := {|
  gv_phase := GRAVITY_INACTIVE; gv_transition_started := 0; gv_transition_duration_ms := 500;
  gv_transition_start_gravity_scale := f32_zero; gv_hold_positions := [];
  gv_control_cycles := 0; gv_status_phase := GRAVITY_INACTIVE; gv_status_active := false;
  gv_status_transition_progress := f32_zero; gv_status_control_cycles := 0;
  gv_status_joint_count := 0; gv_status_feedforward := replicate PRODUCT_DUAL_ARM_DOF f32_zero
|}.

Definition new_bimanual : BimanualFollowControl := {|
  bm_active := false; bm_leader_side := 0; bm_start_positions := [];
  bm_follower_reference := replicate 7 f32_zero;
  bm_follower_reference_velocity := replicate 7 f32_zero;
  bm_status_phase := BIMANUAL_FOLLOW_INACTIVE; bm_status_active := false;
  bm_status_leader_side := 0; bm_status_follower_side := 0;
  bm_status_transition_progress := f32_zero; bm_status_control_cycles := 0;
  bm_status_leader_positions := replicate 7 f32_zero;
  bm_status_follower_target_positions := replicate 7 f32_zero;
  bm_status_max_tracking_error := f32_zero; bm_status_error := ""
|}.

Section Operations.
Context {B : Type} `{!MotorBackend B}.

Definition new_Safety (now : Z) (backend : B) (config : ArticoreRuntimeConfig)
    (control_hz : Z) (require_profiles : bool) (active : list bool) (warning : string)
    (motors : list MotorRecord) : Safety B := {|
  rt_clock := now; rt_backend := backend; rt_command_lock := None; rt_lifecycle_lock := None;
  rt_helper_turn := false; rt_config := config; rt_control_hz := control_hz;
  rt_require_profiles := require_profiles; rt_active_sides := active;
  rt_core := new_core warning; rt_timers := Build_SafetyTimers 0 0 0 0 0 0 0 0 0;
  rt_counters := Build_SafetyCounters 0 0 0 0 0 0 0 0 0 0 1;
  rt_holds := Build_SafetyHolds [] [] [] [] []; rt_mailbox := no_ArmMailbox;
  rt_pending := no_ArmMailbox; rt_motors := motors;
  rt_presence := list_to_map (map (fun m => (name_of m, PRESENT)) motors);
  rt_roles := list_to_map (map (fun m => (motor_of m, name_of m)) motors);
  rt_joints := ∅; rt_sides := replicate 2 no_SideHealth; rt_gravity_arms := [];
  rt_gravity := new_gravity; rt_bimanual := new_bimanual;
  rt_trajectory := no_TrajectoryControl; rt_queue := []; rt_history := [];
  rt_torque_stats := {| tl_activation_count := 0; tl_limited_joint_mask := 0;
    tl_joint_count := 0; tl_requested_resultant_torque := replicate PRODUCT_DUAL_ARM_DOF f32_zero;
    tl_applied_scale := replicate PRODUCT_DUAL_ARM_DOF f32_one;
    tl_applied_resultant_torque := replicate PRODUCT_DUAL_ARM_DOF f32_zero |};
  rt_disable_report := no_DisableReport; rt_enable_report := no_EnableReport;
  rt_worker_done := false;
  rt_operation := Build_LastOperation OPERATION_NONE OPERATION_OK "" [];
  rt_motor_faults := []; rt_unconfirmed_disable := []; rt_intentionally_disabled := ∅;
  rt_trace := []
|}.

(** What the caller hands over, and what the process finds. *)
Record Construction := {
  cn_config : ArticoreRuntimeConfig;
  cn_has_group : bool;
  cn_has_controller : list bool;
  cn_motors : list ArticoreMotorDescriptor;
  cn_require_profiles : bool;
  cn_control_hz : Z;
  cn_environment_hz : option string;
  cn_warning : string
}.

Definition sides_with_motors (motors : list MotorRecord) : list bool :=
  map (fun side => existsb (fun m => side_of m =? side) motors) both_sides.

(** A side with motors needs its controller, and there is such a side. *)
Definition controllers_missing (active has : list bool) : bool :=
  negb (active_side active 0 || active_side active 1) ||
  (active_side active 0 && negb (active_side has 0)) ||
  (active_side active 1 && negb (active_side has 1)).

Definition make_SafetyRuntime (now : Z) (backend : B) (c : Construction) : exn + Safety B :=
  if negb (cn_has_group c) then
    inl (InvalidArgument "Articore runtime requires a controller group")
  else if config_invalid (cn_config c) then
    inl (InvalidArgument "Articore runtime configuration contains invalid values")
  else if (length (cn_motors c) =? 0)%nat || (32 <? length (cn_motors c))%nat then
    inl (InvalidArgument "Articore runtime requires 1..32 motors")
  else
    match make_motors (cn_require_profiles c) ∅ ∅ (cn_motors c) with
    | inl e => inl e
    | inr motors =>
        let active := sides_with_motors motors in
        if controllers_missing active (cn_has_controller c) then
          inl (InvalidArgument "Articore runtime requires a controller for every active side")
        else
          match select_control_hz (cn_control_hz c) (cn_environment_hz c) with
          | inl e => inl e
          | inr hz =>
              inr (new_Safety now backend (cn_config c) hz (cn_require_profiles c) active
                     (cn_warning c) motors)
          end
    end.

(** ** [configure_motor_identities(identities, count)] *)

Record ArticoreMotorIdentity := { id_motor : handle; id_can_id : Z }.

(** The identities resolved; [seen] are the handles and [ids] the channel
    identities of the earlier ones. *)
Fixpoint resolve_identities (motors : list MotorRecord) (seen : gset handle)
    (ids : gset (Z * Z)) (l : list ArticoreMotorIdentity) : option exn :=
  match l with
  | [] => None
  | i :: rest =>
      if (id_motor i =? 0)%nat || (255 <? id_can_id i) then
        Some (InvalidArgument "invalid motor identity")
      else
        let refuse := Some (InvalidArgument
          "motor identities contain an unknown handle or duplicate channel ID") in
        match find_motor motors (id_motor i) with
        | None => refuse
        | Some m =>
            if bool_decide (id_motor i ∈ seen) || bool_decide ((side_of m, id_can_id i) ∈ ids)
            then refuse
            else resolve_identities motors ({[id_motor i]} ∪ seen)
                   ({[(side_of m, id_can_id i)]} ∪ ids) rest
        end
  end.

Definition set_identity (can_id : Z) (m : MotorRecord) : MotorRecord :=
  m <| configured_can_id := can_id |> <| motor_identity_configured := true |>.

Definition identities_refused (l : list ArticoreMotorIdentity) (s : Safety B) : option exn :=
  if negb (bool_decide (state_ (rt_core s) = Disconnected)) || hardware_transition_ (rt_core s) then
    Some (RuntimeError "motor identities can only be configured before connect")
  else if negb (length l =? length (rt_motors s))%nat then
    Some (InvalidArgument "motor identities must cover the complete active motor set")
  else resolve_identities (rt_motors s) ∅ ∅ l.

Definition store_identities (l : list ArticoreMotorIdentity) (s : Safety B) : Safety B :=
  s <| rt_motors ::= fun motors =>
    fold_left (fun a i => update_motor (id_motor i) (set_identity (id_can_id i)) a) l motors |>.

Definition configure_motor_identities (who : nat) (l : list ArticoreMotorIdentity) :
    Rt (B := B) unit :=
  with_lifecycle who (
    guarded (identities_refused l) (fun s => (tt, store_identities l s))).

End Operations.
