(* ===== verification/Maintenance.v ===== *)
(** * Maintenance

    [runtime/src/runtime_maintenance.cpp]: configuring the control mode,
    clearing faults and setting the zero position, all on motors that are
    disabled and verified afterwards.  The mode is PV or MIT by its type. *)

From Stdlib Require Import String.
From S2P Require Import Prelude Float32 Float64 RuntimeTypes Threads NativeTypes SafetyState Motions Gripper Safety Feedback Disable Faults Commands Enable Lifecycle.
#[local] Open Scope mdl_scope.
#[local] Open Scope thread_scope.

Definition kStationaryVelocityRadPerSecond : f32 := f32_lit 5 100.
Definition kZeroPositionToleranceRad : f32 := f32_lit 2 100.
Definition kControlModeTransactionTimeoutMs : Z := 300.
Definition kClearFaultRetryWindow : Z := milliseconds_ns 5000.
Definition kClearFaultRetryDelay : Z := milliseconds_ns 50.

(** The three operations. *)
Inductive Maintenance := ClearFaults | SetZero | ConfigureMode (mode : ControlMode).

Definition operation_of (op : Maintenance) : ArticoreRuntimeOperation :=
  match op with
  | ClearFaults => OPERATION_CLEAR_FAULTS
  | SetZero => OPERATION_SET_ZERO
  | ConfigureMode _ => OPERATION_CONFIGURE_MODE
  end.

Definition clears_faults (op : Maintenance) : bool :=
  match op with ClearFaults => true | _ => false end.

Definition operation_name (operation : ArticoreRuntimeOperation) : string :=
  match operation with
  | OPERATION_CONNECT => "connect"
  | OPERATION_ENABLE => "enable"
  | OPERATION_DISABLE => "disable"
  | OPERATION_CONFIGURE_MODE => "configure mode"
  | OPERATION_CLEAR_FAULTS => "clear faults"
  | OPERATION_SET_ZERO => "set zero"
  | OPERATION_DISCONNECT => "disconnect"
  | OPERATION_COMMAND => "command"
  | OPERATION_RECOVER => "recover"
  | OPERATION_CANCEL_MOTION => "cancel motion"
  | OPERATION_STOP_MOTION => "stop motion"
  | OPERATION_MOVE_POSE => "move pose"
  | OPERATION_MOVE_LINEAR => "move linear"
  | OPERATION_MOVE_CIRCULAR => "move circular"
  | OPERATION_START_BIMANUAL_FOLLOW => "start bimanual follow"
  | OPERATION_STOP_BIMANUAL_FOLLOW => "stop bimanual follow"
  | OPERATION_SET_TCP_OFFSET => "set TCP offset"
  | OPERATION_NONE => "maintenance"
  end.

Definition ok_code (code : ArticoreOperationError) : bool :=
  match code with OPERATION_OK => true | _ => false end.

(** The code of an operation, its error and the motors it failed on. *)
Record Verdict := { vd_code : ArticoreOperationError; vd_error : string; vd_failed : list string }.

Definition fine : Verdict := Build_Verdict OPERATION_OK "" [].

(** [names] and those of [more] that are not among them. *)
Definition merge_names (names more : list string) : list string :=
  fold_left (fun l n => if existsb (String.eqb n) l then l else l ++ [n]) more names.

Section Operations.
Context {B : Type} `{!MotorBackend B}.

(** ** [finish_maintenance] *)

Definition maintenance_ok (op : Maintenance) (s : Safety B) : Safety B :=
  let s := s <| rt_core ::= fun c => c <| state_ := Ready |> <| disable_confirmed_ := true |> |> in
  let s := if clears_faults op then
             s <| rt_core ::= fun c => c <| fault_latched_ := false |>
                    <| motor_fault_latched_ := false |> <| fault_reason_ := ""%string |> |>
               <| rt_motor_faults := [] |> <| rt_presence ::= fun p => present_again <$> p |>
           else s in
  s <| rt_core ::= fun c => if fault_latched_ c then c else c <| fault_reason_ := ""%string |> |>
    <| rt_timers ::= fun t =>
         t <| next_ready_feedback_ := rt_clock s + ready_refresh_ns (rt_config s) |> |>.

Definition maintenance_failed (op : Maintenance) (v : Verdict) (motor_fault : bool)
    (s : Safety B) : Safety B :=
  s <| rt_core ::= fun c =>
         c <| state_ := Fault |> <| fault_latched_ := true |>
           <| motor_fault_latched_ ::= fun l => l || motor_fault |>
           <| disable_confirmed_ := false |>
           <| fault_reason_ := (operation_name (operation_of op) ++ " failed: " ++ vd_error v)%string |> |>
    <| rt_motor_faults ::= fun l => merge_names l (vd_failed v) |>.

Definition finished_maintenance (op : Maintenance) (v : Verdict) (latch_fault motor_fault : bool)
    (s : Safety B) : Safety B :=
  let s := s <| rt_core ::= fun c => c <| hardware_transition_ := false |> |>
             <| rt_operation := Build_LastOperation (operation_of op) (vd_code v) (vd_error v)
                                  (vd_failed v) |> in
  if ok_code (vd_code v) then maintenance_ok op s
  else if latch_fault then maintenance_failed op v motor_fault s else s.

Definition finish_maintenance (op : Maintenance) (v : Verdict) (latch_fault : bool) :
    Rt (B := B) ArticoreOperationError :=
  do motor_fault <- (if ok_code (vd_code v) then pret false else current_motor_fault_reported);
  write (finished_maintenance op v latch_fault motor_fault) ;;;
  pret (vd_code v).

(** ** [maintenance_precheck] *)

Definition maintenance_state (op : Maintenance) (c : SafetyCore) : bool :=
  (bool_decide (state_ c = Ready) ||
   (clears_faults op && bool_decide (state_ c = Fault) && negb (emergency_stop_latched_ c))) &&
  negb (hardware_transition_ c).

Definition maintenance_rejection (op : Maintenance) (s : Safety B) : Verdict :=
  let c := rt_core s in
  let failed := merge_names (rt_motor_faults s) (operation_failed_motors_ (rt_operation s)) in
  Build_Verdict OPERATION_INVALID_STATE
    (operation_name (operation_of op) ++ " rejected: current_state=" ++ safety_state_name (state_ c) ++
     ", required_states=" ++ (if clears_faults op then "[READY, FAULT(non_estop)]" else "[READY]") ++
     ", emergency_stop_latched=" ++ flag_text (emergency_stop_latched_ c) ++
     ", hardware_transition=" ++ flag_text (hardware_transition_ c) ++ ", fault_reason=" ++
     or_none (fault_reason_ c) ++ ", failed_motors=[" ++ join ", " failed ++ "]") failed.

Definition begin_maintenance (op : Maintenance) (s : Safety B) : option Verdict * Safety B :=
  let record v := s <| rt_operation := Build_LastOperation (operation_of op) (vd_code v)
                         (vd_error v) (vd_failed v) |> in
  if maintenance_state op (rt_core s) then
    (None, record fine <| rt_core ::= fun c => c <| hardware_transition_ := true |> |>)
  else let v := maintenance_rejection op s in (Some v, record v).

(** The names of the motors reported missing, as far as their identities are
    known. *)
Definition missing_names (motors : list MotorRecord) (missing : list MissingMotor) : list string :=
  flat_map (fun i => map name_of
    (List.filter (fun m => (side_of m =? mm_side i) && motor_identity_configured m &&
                           (configured_can_id m =? mm_id i)) motors)) missing.

Definition precheck_motor (op : Maintenance) (require_stationary : bool) (v : Verdict)
    (m : MotorRecord) : Rt (B := B) Verdict :=
  if negb (ok_code (vd_code v)) then pret v
  else
    do state <- fetch_state (motor_of m);
    let refuse code text := Build_Verdict code (name_of m ++ text)%string [name_of m] in
    pret match state with
         | None => refuse OPERATION_FEEDBACK ": feedback unavailable"%string
         | Some st =>
             if negb (clears_faults op) && negb (ams_status_code st =? 0) then
               refuse OPERATION_NOT_DISABLED ": motor is not physically disabled"%string
             else if negb (f32_isfinite (ams_vel st)) then
               refuse OPERATION_FEEDBACK ": velocity feedback is not finite"%string
             else if require_stationary &&
                     f32_gt (f32_abs (ams_vel st)) kStationaryVelocityRadPerSecond then
               refuse OPERATION_NOT_STATIONARY ": motor is not stationary"%string
             else v
         end.

(** A feedback request and its validation: who is missing, and the error where
    they fail. *)
Definition fresh_feedback (error : string) : Rt (B := B) (list MissingMotor * option string) :=
  do timeout <- read (fun s : Safety B => disable_feedback_timeout_ms (rt_config s));
  do r <- request_feedback_parallel timeout error;
  let '(requested, missing, error) := r in
  if negb requested then pret (missing, Some error)
  else
    do valid <- validate_fresh_feedback_snapshot missing error;
    pret (missing, if valid.1 then None else Some valid.2).

Definition maintenance_precheck (op : Maintenance) (require_stationary : bool) :
    Rt (B := B) Verdict :=
  do rejected <- act (begin_maintenance op);
  match rejected with
  | Some v => pret v
  | None =>
      do motors <- read rt_motors;
      do healthy <- refresh_transport_health "";
      if negb healthy.1 then
        pret (Build_Verdict OPERATION_TRANSPORT healthy.2 (map name_of motors))
      else
        do fresh <- fresh_feedback healthy.2;
        match fresh.2 with
        | Some error =>
            let failed := missing_names motors fresh.1 in
            pret (Build_Verdict OPERATION_FEEDBACK error
                    match failed with [] => map name_of motors | _ => failed end)
        | None => pfold motors (precheck_motor op require_stationary) fine
        end
  end.

(** ** [configure_hardware_mode] *)

(** The native mode of a motor: 1 is MIT, 2 is PV. *)
Definition native_mode (mode : ControlMode) (m : MotorRecord) : Z :=
  if is_gripper m || bool_decide (mode = ModeMit) then 1 else 2.

Definition set_motor_timeout (motor : handle) : Rt (B := B) Z :=
  do can <- bk Bk_can_set_timeout;
  if negb can then pret 0
  else
    do timeout <- bk Bk_communication_timeout_ms;
    if 0 <? timeout then
      do timeout <- bk Bk_communication_timeout_ms; bk (Bk_set_timeout_ms motor timeout)
    else pret 0.

(** One motor: its failure is added to those of the side. *)
Definition configure_motor (mode : ControlMode) (deadline : Z) (l : list (handle * string))
    (m : MotorRecord) : Rt (B := B) (list (handle * string)) :=
  do now <- clock_now;
  do rc <- (if now <? deadline then
              bk (Bk_ensure_mode (motor_of m) (native_mode mode m)
                    (Z.max 1 (Z.quot (deadline - now + 999000) 1000000)))
            else pret (-1));
  do rc <- (if rc =? 0 then set_motor_timeout (motor_of m) else pret rc);
  if rc =? 0 then pret l
  else
    do detail <- bk Bk_last_error_message;
    let fallback := (if (deadline <=? now)%Z then "control mode batch deadline expired"
                     else "native motor command failed")%string in
    pret (l ++ [(motor_of m, match detail with
                             | Some d => if str_empty d then fallback else d
                             | None => fallback
                             end)]).

Definition add_failure (failures : list (handle * string)) (v : Verdict) (m : MotorRecord) :
    Verdict :=
  match find (fun f => bool_decide (fst f = motor_of m)) failures with
  | None => v
  | Some f =>
      Build_Verdict OPERATION_MOTOR_COMMAND
        (append_error (vd_error v) (name_of m ++ ": " ++ f.2)%string) (vd_failed v ++ [name_of m])
  end.

Definition configure_hardware_mode (mode : ControlMode) : Rt (B := B) Verdict :=
  do can <- bk Bk_can_ensure_mode;
  if negb can then
    pret (Build_Verdict OPERATION_UNSUPPORTED
      "the Runtime was created without native mode configuration callbacks" [])
  else
    do p <- read (fun s : Safety B =>
      (rt_motors s, rt_active_sides s, disable_feedback_timeout_ms (rt_config s)));
    let '(motors, active, timeout) := p in
    do now <- clock_now;
    let deadline := now + milliseconds_ns (Z.max timeout kControlModeTransactionTimeoutMs) in
    do r <- run_active_sides active
              (fun side => pfold (side_motors motors side) (configure_motor mode deadline) []);
    pret (fold_left (add_failure (default [] r.1 ++ default [] r.2)) motors fine).

(** ** [run_motor_maintenance] *)

Definition maintain_motor (op : Maintenance) (l : list (string * string)) (m : MotorRecord) :
    Rt (B := B) (list (string * string)) :=
  do rc <- (if clears_faults op then bk (Bk_clear_error (motor_of m))
            else bk (Bk_set_zero (motor_of m)));
  if rc =? 0 then pret l
  else do detail <- motor_error "native motor command failed"; pret (l ++ [(name_of m, detail)]).

Definition maintain_motors (op : Maintenance) : Rt (B := B) Verdict :=
  do p <- read (fun s : Safety B => (rt_motors s, rt_active_sides s));
  do r <- run_active_sides p.2
            (fun side => pfold (side_motors p.1 side) (maintain_motor op) []);
  let failures := default [] r.1 ++ default [] r.2 in
  pret match failures with
       | [] => fine
       | _ => Build_Verdict OPERATION_MOTOR_COMMAND
                (fold_left (fun e f => append_error e (fst f ++ ": " ++ f.2)%string) failures
                   ""%string) (map fst failures)
       end.

(** What a motor must report afterwards. *)
Definition verified (op : Maintenance) (require_stationary : bool)
    (state : option ArticoreMotorState) : bool :=
  match state with
  | None => false
  | Some st =>
      (ams_status_code st =? 0) && f32_isfinite (ams_vel st) &&
      (negb require_stationary ||
       f32_le (f32_abs (ams_vel st)) kStationaryVelocityRadPerSecond) &&
      match op with
      | SetZero => f32_isfinite (ams_pos st) &&
                   f32_le (f32_abs (ams_pos st)) kZeroPositionToleranceRad
      | _ => true
      end
  end.

Definition verify_motor (op : Maintenance) (require_stationary : bool) (v : Verdict)
    (m : MotorRecord) : Rt (B := B) Verdict :=
  do state <- fetch_state (motor_of m);
  pret (if verified op require_stationary state then v
        else Build_Verdict OPERATION_VERIFICATION
               (append_error (vd_error v)
                  (name_of m ++ ": post-operation verification failed")%string)
               (vd_failed v ++ [name_of m])).

(** The command to the motors: its failure and whether it makes a fault. *)
Definition maintenance_command (op : Maintenance) : Rt (B := B) (Verdict * bool) :=
  match op with
  | ConfigureMode mode =>
      do v <- configure_hardware_mode mode;
      pret (v, match vd_code v with OPERATION_MOTOR_COMMAND => true | _ => false end)
  | _ =>
      do can <- (if clears_faults op then bk Bk_can_clear_error else bk Bk_can_set_zero);
      if negb can then
        pret (Build_Verdict OPERATION_UNSUPPORTED
          "the Runtime was created without native maintenance callbacks" [], false)
      else do v <- maintain_motors op; pret (v, true)
  end.

Definition configured_mode (op : Maintenance) (s : Safety B) : Safety B :=
  match op with
  | ConfigureMode mode => s <| rt_core ::= fun c => c <| mode_ := mode |> |>
  | _ => s
  end.

Definition latches (code : ArticoreOperationError) : bool :=
  match code with
  | OPERATION_TRANSPORT | OPERATION_FEEDBACK | OPERATION_NOT_DISABLED => true
  | _ => false
  end.

Definition run_motor_maintenance (who : nat) (op : Maintenance) (require_stationary : bool) :
    Rt (B := B) ArticoreOperationError :=
  with_lifecycle who (with_command who (
    do pre <- maintenance_precheck op require_stationary;
    if negb (ok_code (vd_code pre)) then finish_maintenance op pre (latches (vd_code pre))
    else
      do command <- maintenance_command op;
      if negb (ok_code (vd_code command.1)) then finish_maintenance op command.1 command.2
      else
        do motors <- read rt_motors;
        do fresh <- fresh_feedback "";
        match fresh.2 with
        | Some error =>
            finish_maintenance op
              (Build_Verdict OPERATION_FEEDBACK error (missing_names motors fresh.1)) true
        | None =>
            do v <- pfold motors (verify_motor op require_stationary) fine;
            if negb (ok_code (vd_code v)) then finish_maintenance op v true
            else write (configured_mode op) ;;; finish_maintenance op fine false
        end)).

(** [configure_mode(mode)], [set_zero()] and [configure_mode_for_connect]. *)
Definition configure_mode (who : nat) (mode : ControlMode) :
    Rt (B := B) ArticoreOperationError :=
  run_motor_maintenance who (ConfigureMode mode) false.

Definition set_zero (who : nat) : Rt (B := B) ArticoreOperationError :=
  run_motor_maintenance who SetZero true.

Definition connect_mode_failed (s : Safety B) : Safety B :=
  if bool_decide (state_ (rt_core s) = Fault) then
    let error := last_operation_error_ (rt_operation s) in
    s <| rt_core ::= fun c => c <| fault_reason_ :=
      ("connect detected mode configuration failure" ++
       if str_empty error then "" else ": " ++ error)%string |> |>
  else s.

Definition configure_mode_for_connect (who : nat) (mode : ControlMode) :
    Rt (B := B) ArticoreOperationError :=
  do code <- run_motor_maintenance who (ConfigureMode mode) false;
  (if ok_code code then pret tt else write connect_mode_failed) ;;;
  pret code.

(** ** [clear_faults()]

    The attempts are at least [kClearFaultRetryDelay] apart, except the last
    one, so there are not more than the window has delays, and two. *)
Definition retriable (code : ArticoreOperationError) : bool :=
  match code with OPERATION_FEEDBACK | OPERATION_VERIFICATION => true | _ => false end.

Fixpoint clear_attempts (fuel : nat) (who : nat) (deadline : Z) :
    Rt (B := B) (ArticoreOperationError * bool) :=
  match fuel with
  | O => Done Unfinished
  | S fuel =>
      do code <- run_motor_maintenance who ClearFaults false;
      if negb (retriable code) then pret (code, false)
      else
        do now <- clock_now;
        if deadline <=? now then pret (code, true)
        else
          await (fun s : Safety B => Z.min deadline (now + kClearFaultRetryDelay) <=? rt_clock s)
                (fun s => (tt, s)) ;;;
          clear_attempts fuel who deadline
  end.

Definition clear_fuel : nat := Z.to_nat (kClearFaultRetryWindow / kClearFaultRetryDelay) + 2.

Definition clear_faults (who : nat) : Rt (B := B) ArticoreOperationError :=
  do now <- clock_now;
  do r <- clear_attempts clear_fuel who (now + kClearFaultRetryWindow);
  if negb r.2 then pret r.1
  else
    do last <- read rt_operation;
    let error := last_operation_error_ last in
    finish_maintenance ClearFaults
      (Build_Verdict r.1
         ("clear faults timed out after 5000 ms" ++
          if str_empty error then "" else ": " ++ error)%string
         (operation_failed_motors_ last)) true.

End Operations.
