(* ===== verification/Power.v ===== *)
(** * Power of single motors

    [motor_power_state], [set_motor_power_batch] and [set_motor_power] of
    [runtime/src/runtime_enable.cpp]: what the motors report of their power, and
    enabling or disabling some of them as a transaction that is rolled back
    where it cannot be confirmed.  A section under [state_mutex_] that asks the
    drivers is one action. *)

From Stdlib Require Import String.
From S2P Require Import Prelude Float32 Float64 RuntimeTypes Threads NativeTypes SafetyState Motions Gripper Safety Feedback Disable Faults Commands Planning Enable Lifecycle.
#[local] Open Scope mdl_scope.
#[local] Open Scope thread_scope.

Inductive ArticoreMotorPowerState :=
| MOTOR_POWER_UNKNOWN | MOTOR_POWER_DISABLED | MOTOR_POWER_ENABLED | MOTOR_POWER_MIXED.

#[export] Instance power_eq_dec : EqDecision ArticoreMotorPowerState.
Proof. solve_decision. Defined.

(** One motor of the report; the texts are not cut to their arrays. *)
Record ArticoreMotorPowerResult := {
  pw_side : Z;
  pw_can_id : Z;
  pw_requested_enabled : bool;
  pw_command_sent : bool;
  pw_rollback_sent : bool;
  pw_has_feedback : bool;
  pw_feedback_fresh : bool;
  pw_status_code : Z;
  pw_confirmed : bool;
  pw_role : string;
  pw_error : string
}.

(** The counts of requested motors are the length of [pp_motors]. *)
Record ArticoreMotorPowerReport := {
  pp_success : bool;
  pp_requested_enabled : bool;
  pp_rollback_attempted : bool;
  pp_rollback_confirmed : bool;
  pp_command_sent_count : Z;
  pp_confirmed_count : Z;
  pp_failure_count : Z;
  pp_motors : list ArticoreMotorPowerResult;
  pp_error : string
}.

(** What the transaction has done so far; [pw_thrown] is what a [throw] left
    the [try] block with. *)
Record PowerRun := {
  pw_initial : list ArticoreMotorState;
  pw_newly_enabled : list MotorRecord;
  pw_sent : list handle;
  pw_ok : bool;
  pw_text : string;
  pw_thrown : option string
}.

#[export] Instance eta_PowerRun : Eta PowerRun := fun r =>
  Build_PowerRun (pw_initial r) (pw_newly_enabled r) (pw_sent r) (pw_ok r) (pw_text r) (pw_thrown r).

Definition no_PowerRun : PowerRun := Build_PowerRun [] [] [] true ""%string None.

Definition thrown (what : string) (r : PowerRun) : PowerRun := r <| pw_thrown := Some what |>.

(** [std::set::insert]. *)
Definition insert_handle (h : handle) (l : list handle) : list handle :=
  if existsb (Nat.eqb h) l then l else l ++ [h].

Definition or_text (text fallback : string) : string := if str_empty text then fallback else text.

Section Operations.
Context {B : Type} `{!MotorBackend B}.

(** ** Roles *)

(** [resolve_motor_role(role)]: [None] for the empty role. *)
Definition resolve_motor_role (motors : list MotorRecord) (role : string) :
    exn + option MotorRecord :=
  if str_empty role then inr None
  else
    match find (fun m => String.eqb (stable_motor_role m) role) motors with
    | Some m => inr (Some m)
    | None => inl (InvalidArgument ("unknown motor role: " ++ role))
    end.

(** The roles of a batch, without repetitions. *)
Fixpoint resolve_roles (motors : list MotorRecord) (selected : list MotorRecord)
    (roles : list string) : exn + list MotorRecord :=
  match roles with
  | [] => inr selected
  | role :: rest =>
      match resolve_motor_role motors role with
      | inl e => inl e
      | inr None => inl (InvalidArgument "motor role is empty")
      | inr (Some m) =>
          if existsb (fun x => bool_decide (motor_of x = motor_of m)) selected then
            inl (InvalidArgument ("duplicate motor role: " ++ role))
          else resolve_roles motors (selected ++ [m]) rest
      end
  end.

Definition resolve_batch (motors : list MotorRecord) (roles : list string) :
    exn + list MotorRecord :=
  match roles with
  | [] => inl (InvalidArgument "motor power batch requires at least one role")
  | _ =>
      if (32 <? length roles)%nat then inl (InvalidArgument "motor power batch exceeds 32 roles")
      else resolve_roles motors [] roles
  end.

(** ** What the motors report *)

Fixpoint power_of (saw_enabled saw_disabled : bool) (l : list MotorRecord) :
    Rt (B := B) ArticoreMotorPowerState :=
  match l with
  | [] =>
      pret (if saw_enabled && saw_disabled then MOTOR_POWER_MIXED
            else if saw_enabled then MOTOR_POWER_ENABLED
            else if saw_disabled then MOTOR_POWER_DISABLED else MOTOR_POWER_UNKNOWN)
  | m :: rest =>
      do state <- fetch_state (motor_of m);
      match state with
      | Some st =>
          if 1 <? ams_status_code st then pret MOTOR_POWER_UNKNOWN
          else power_of (saw_enabled || (ams_status_code st =? 1))
                 (saw_disabled || (ams_status_code st =? 0)) rest
      | None => pret MOTOR_POWER_UNKNOWN
      end
  end.

(** [cached_motor_power_state(selected)]. *)
Definition cached_motor_power_state (selected : option MotorRecord) :
    Rt (B := B) ArticoreMotorPowerState :=
  do motors <- read rt_motors;
  power_of false false (match selected with Some m => [m] | None => motors end).

(** [refresh]: a feedback request and its validation, both always. *)
Definition power_refresh (error : string) : Rt (B := B) (bool * string) :=
  do timeout <- read (fun s : Safety B => disable_feedback_timeout_ms (rt_config s));
  do r <- request_feedback_parallel timeout error;
  let '(requested, missing, error) := r in
  do valid <- validate_fresh_feedback_snapshot missing error;
  pret (requested && valid.1, valid.2).

(** ** [motor_power_state(motor_name)] *)

Definition begin_power_query (s : Safety B) : (exn + bool) * Safety B :=
  let c := rt_core s in
  if bool_decide (state_ c = Disconnected) then
    (inl (RuntimeError "cannot query motor power while disconnected"), s)
  else
    match state_ c with
    | Ready | PartiallyEnabled =>
        (inr true, s <| rt_core ::= fun c => c <| hardware_transition_ := true |> |>)
    | _ => (inr false, s)
    end.

(** Under [command_mutex_]; the validation only runs after the request. *)
Definition query_feedback : Rt (B := B) (bool * string) :=
  do timeout <- read (fun s : Safety B => disable_feedback_timeout_ms (rt_config s));
  do r <- request_feedback_parallel timeout "";
  let '(requested, missing, error) := r in
  if negb requested then pret (false, error)
  else validate_fresh_feedback_snapshot missing error.

Definition power_known (all : ArticoreMotorPowerState) (s : Safety B) : Safety B :=
  s <| rt_core ::= fun c =>
    (if bool_decide (all = MOTOR_POWER_DISABLED)
     then c <| state_ := Ready |> <| disable_confirmed_ := true |>
     else c <| state_ := PartiallyEnabled |> <| disable_confirmed_ := false |>)
    <| hardware_transition_ := false |> |>.

Definition transition_over (s : Safety B) : Safety B :=
  s <| rt_core ::= fun c => c <| hardware_transition_ := false |> |>.

Definition motor_power_state (who : nat) (role : string) :
    Rt (B := B) ArticoreMotorPowerState :=
  with_lifecycle who (
    do motors <- read rt_motors;
    do selected <- except (resolve_motor_role motors role);
    do begun <- act begin_power_query;
    do refresh <- except begun;
    if negb refresh then cached_motor_power_state selected
    else
      do complete <- with_command who query_feedback;
      if negb complete.1 then
        write transition_over ;;;
        pthrow (RuntimeError (or_text complete.2 "motor power feedback verification failed"))
      else
        do result <- cached_motor_power_state selected;
        atomically (do all <- cached_motor_power_state None; write (power_known all)) ;;;
        pret result).

(** ** [set_motor_power_batch(motor_names, enabled)] *)

(** The section that starts the transaction: the state it started in. *)
Definition power_rejected (enabled can_enable : bool) (c : SafetyCore) : option exn :=
  first_refusal
    [fail_if (bool_decide (state_ c = Disconnected) || stopping_ c)
       "motor power batch requires a connected Runtime"%string;
     fail_if (enabled && (negb (match state_ c with Ready | PartiallyEnabled => true | _ => false end) ||
                          fault_latched_ c))
       "motor enable batch requires READY or PARTIALLY_ENABLED"%string;
     fail_if (enabled && negb can_enable) "motor enable batch is unavailable"%string;
     fail_if (hardware_transition_ c) "another Runtime hardware transaction is active"%string].

Definition begun_power (enabled : bool) (selected : list MotorRecord) (s : Safety B) : Safety B :=
  let s := terminate_trajectory_locked MOTION_CANCELLED
             (if enabled then "trajectory cancelled by motor enable"
              else "trajectory cancelled by motor disable")%string s in
  let s := s <| rt_core ::= fun c => c <| hardware_transition_ := true |> |> in
  if enabled then s
  else s <| rt_intentionally_disabled ::= fun x => list_to_set (map motor_of selected) ∪ x |>
         <| rt_gravity ::= end_gravity |> <| rt_bimanual ::= reset_bimanual_follow_locked |>.

(** The callback is asked where the checks before it pass. *)
Definition power_checked (enabled : bool) : Rt (B := B) SafetyCore :=
  do c <- read rt_core;
  do can <- (match power_rejected enabled true c with
             | None => if enabled then bk Bk_can_enable_motor else pret true
             | Some _ => pret true
             end);
  rejected (power_rejected enabled can c) ;;;
  pret c.

Definition begin_power (enabled : bool) (selected : list MotorRecord) : Rt (B := B) SafetyState :=
  atomically (
    do c <- power_checked enabled;
    act (fun s : Safety B => (state_ c, begun_power enabled selected s))).

(** *** Before the commands *)

(** The state of every selected motor, as far as the first that is unfit. *)
Definition read_initial (enabled : bool) (r : PowerRun) (m : MotorRecord) : Rt (B := B) PowerRun :=
  match pw_thrown r with
  | Some _ => pret r
  | None =>
      do x <- bk (Bk_get_state (motor_of m));
      let st := x.2 in
      let r := r <| pw_initial ::= fun l => l ++ [st] |> in
      pret (if negb (x.1 =? 0) || negb (ams_has_value st) || negb (f32_isfinite (ams_pos st)) then
              thrown (stable_motor_role m ++ ": finite motor feedback is unavailable") r
            else if enabled && (1 <? ams_status_code st) then
              thrown (stable_motor_role m ++ ": motor reports fault status " ++
                      to_string (ams_status_code st)) r
            else r)
  end.

Definition preflight (enabled : bool) (selected : list MotorRecord) : Rt (B := B) PowerRun :=
  do fresh <- power_refresh "";
  if negb fresh.1 then
    pret (thrown (or_text fresh.2 "motor power preflight feedback failed") no_PowerRun)
  else pfold selected (read_initial enabled) no_PowerRun.

(** From READY, the motors that report to be disabled are so intentionally. *)
Definition note_disabled (l : list handle) (m : MotorRecord) : Rt (B := B) (list handle) :=
  do state <- fetch_state (motor_of m);
  pret match state with
       | Some st => if ams_status_code st =? 0 then l ++ [motor_of m] else l
       | None => l
       end.

Definition note_all_disabled : Rt (B := B) unit :=
  atomically (
    do motors <- read rt_motors;
    do l <- pfold motors note_disabled [];
    write (fun s : Safety B => s <| rt_intentionally_disabled ::= fun x => list_to_set l ∪ x |>)).

(** *** The commands *)

Definition enable_selected (r : PowerRun) (x : MotorRecord * ArticoreMotorState) :
    Rt (B := B) PowerRun :=
  match pw_thrown r with
  | Some _ => pret r
  | None =>
      if ams_status_code x.2 =? 1 then pret r
      else
        let m := x.1 in
        let r := r <| pw_newly_enabled ::= fun l => l ++ [m] |> in
        do rc <- bk (Bk_enable_motor (motor_of m));
        if rc =? 0 then pret (r <| pw_sent ::= insert_handle (motor_of m) |>)
        else
          do e <- motor_error "motor enable failed";
          pret (thrown (stable_motor_role m ++ ": " ++ e) r)
  end.

Definition power_hold (mode : ControlMode) (joints : gmap handle JointControlConfig)
    (limit : f32) (p : list ArticorePosVelCommand * list ArticoreMitCommand)
    (x : MotorRecord * ArticoreMotorState) : list ArticorePosVelCommand * list ArticoreMitCommand :=
  let '(m, st) := x in
  let d := descriptor m in
  if is_gripper m || bool_decide (mode = ModeMit) then
    let '(kp, kd) :=
      if is_gripper m then (d_normal_kp d, d_normal_kd d)
      else match joints !! motor_of m with
           | Some j => (jc_mit_kp j, jc_mit_kd j)
           | None => (d_safe_kp d, d_safe_kd d)
           end in
    (p.1, p.2 ++ [Build_ArticoreMitCommand (motor_of m) (ams_pos st) f32_zero kp kd f32_zero])
  else (p.1 ++ [Build_ArticorePosVelCommand (motor_of m) (ams_pos st) limit], p.2).

(** [send_pos_vel] where there is something to send, then [send_mit]. *)
Definition send_power_holds (p : list ArticorePosVelCommand * list ArticoreMitCommand) :
    Rt (B := B) bool :=
  do pv <- (match p.1 with [] => pret 0 | _ => send_pos_vel p.1 end);
  if negb (pv =? 0) then pret false
  else
    do mit <- (match p.2 with [] => pret 0 | _ => send_mit p.2 end);
    pret (mit =? 0).

Definition confirm_one (expected : Z) (ok : bool) (m : MotorRecord) : Rt (B := B) bool :=
  do stats <- fetch_stats (motor_of m);
  do state <- fetch_state (motor_of m);
  do config <- read rt_config;
  pret (ok && match stats, state with
              | Some st, Some value => (afs_age_ns st <=? feedback_max_age_ns config) &&
                                       (ams_status_code value =? expected)
              | _, _ => false
              end).

(** [refresh(confirmation_error) && selected_confirmed(expected)]. *)
Definition power_confirmed (expected : Z) (selected : list MotorRecord) :
    Rt (B := B) (bool * string) :=
  do fresh <- power_refresh "";
  if negb fresh.1 then pret (false, fresh.2)
  else do ok <- pfold selected (confirm_one expected) true; pret (ok, fresh.2).

Definition enable_batch (started_ready : bool) (selected : list MotorRecord) (r : PowerRun) :
    Rt (B := B) PowerRun :=
  let rows := combine selected (pw_initial r) in
  (if started_ready then note_all_disabled else pret tt) ;;;
  do r <- pfold rows enable_selected r;
  match pw_thrown r with
  | Some _ => pret r
  | None =>
      do p <- read (fun s : Safety B =>
        (mode_ (rt_core s), (rt_joints s, safe_pv_velocity_limit (rt_config s))));
      do sent <- send_power_holds (fold_left (power_hold p.1 p.2.1 p.2.2) rows ([], []));
      if negb sent then
        do e <- motor_error "motor enable current-position hold failed"; pret (thrown e r)
      else
        do confirmed <- power_confirmed 1 selected;
        pret (if confirmed.1 then r
              else thrown (or_text confirmed.2 "motor enable feedback confirmation failed") r)
  end.

Definition failed_step (text : string) (r : PowerRun) : PowerRun :=
  r <| pw_ok := false |> <| pw_text ::= fun e => append_error e text |>.

Definition disable_selected (r : PowerRun) (m : MotorRecord) : Rt (B := B) PowerRun :=
  do rc <- bk (Bk_disable_motor (motor_of m));
  if rc =? 0 then pret (r <| pw_sent ::= insert_handle (motor_of m) |>)
  else
    do e <- motor_error "motor disable failed";
    pret (failed_step (stable_motor_role m ++ ": " ++ e)%string r).

(** Those that do not report to be disabled, once more. *)
Definition disable_again (r : PowerRun) (m : MotorRecord) : Rt (B := B) PowerRun :=
  do state <- fetch_state (motor_of m);
  if match state with Some st => ams_status_code st =? 0 | None => false end then pret r
  else
    do rc <- bk (Bk_disable_motor (motor_of m));
    pret (if rc =? 0 then r <| pw_sent ::= insert_handle (motor_of m) |> else r).

Definition disable_batch (selected : list MotorRecord) (r : PowerRun) : Rt (B := B) PowerRun :=
  do barrier <- establish_disable_barrier;
  let r := match barrier with
           | None => r
           | Some e => r <| pw_ok := false |>
                         <| pw_text := ("motor disable queue barrier failed: " ++ e)%string |>
           end in
  do r <- pfold selected disable_selected r;
  do first <- power_confirmed 0 selected;
  if first.1 then pret r
  else
    do r <- pfold selected disable_again r;
    do second <- power_confirmed 0 selected;
    pret (if second.1 then r
          else failed_step (or_text second.2 "motor disable feedback confirmation failed") r).

(** *** The rollback *)

Definition rollback_one (sent : list handle) (m : MotorRecord) : Rt (B := B) (list handle) :=
  do rc <- bk (Bk_disable_motor (motor_of m));
  pret (if rc =? 0 then insert_handle (motor_of m) sent else sent).

Definition rolled_back_one (ok : bool) (m : MotorRecord) : Rt (B := B) bool :=
  do config <- read rt_config;
  do state <- fetch_fresh (feedback_max_age_ns config) (motor_of m);
  pret (ok && match state with Some st => ams_status_code st =? 0 | None => false end).

Record Rollback := {
  rb_attempted : bool;
  rb_sent : list handle;
  rb_confirmed : bool
}.

Definition rollback (l : list MotorRecord) (error : string) : Rt (B := B) (Rollback * string) :=
  do sent <- pfold l rollback_one [];
  do fresh <- power_refresh "";
  do ok <- pfold l rolled_back_one fresh.1;
  pret (Build_Rollback true sent ok,
        if ok then error
        else (error ++ "; enable rollback was not confirmed" ++
              if str_empty fresh.2 then "" else ": " ++ fresh.2)%string).

(** What runs under [command_mutex_]: the [try] block and its handler. *)
Definition power_transaction (enabled started_ready : bool) (selected : list MotorRecord) :
    Rt (B := B) (PowerRun * Rollback) :=
  do r <- preflight enabled selected;
  do r <- (match pw_thrown r with
           | Some _ => pret r
           | None => if enabled then enable_batch started_ready selected r
                     else disable_batch selected r
           end);
  match pw_thrown r with
  | None => pret (r, Build_Rollback false [] true)
  | Some what =>
      let r := r <| pw_ok := false |> <| pw_text := what |> in
      if enabled && negb (length (pw_newly_enabled r) =? 0)%nat then
        do x <- rollback (pw_newly_enabled r) what;
        pret (r <| pw_text := x.2 |>, x.1)
      else pret (r, Build_Rollback false [] true)
  end.

(** *** The report *)

Definition power_row (enabled : bool) (r : PowerRun) (rb : Rollback) (m : MotorRecord) :
    Rt (B := B) ArticoreMotorPowerResult :=
  do stats <- fetch_stats (motor_of m);
  do state <- fetch_state (motor_of m);
  do config <- read rt_config;
  let has_feedback := match stats, state with Some _, Some _ => true | _, _ => false end in
  let fresh := has_feedback &&
    match stats with Some st => afs_age_ns st <=? feedback_max_age_ns config | None => false end in
  let status := match state with Some st => ams_status_code st | None => 0 end in
  let confirmed := pw_ok r && fresh && (status =? if enabled then 1 else 0) in
  pret {| pw_side := side_of m;
          pw_can_id := match state with
                       | Some st => u8 (ams_can_id st)
                       | None => if motor_identity_configured m then u8 (configured_can_id m) else 0
                       end;
          pw_requested_enabled := enabled;
          pw_command_sent := existsb (Nat.eqb (motor_of m)) (pw_sent r);
          pw_rollback_sent := existsb (Nat.eqb (motor_of m)) (rb_sent rb);
          pw_has_feedback := has_feedback; pw_feedback_fresh := fresh; pw_status_code := status;
          pw_confirmed := confirmed; pw_role := stable_motor_role m;
          pw_error := if confirmed then ""%string
                      else or_text (pw_text r) "motor state was not confirmed" |}.

Definition power_rows (enabled : bool) (r : PowerRun) (rb : Rollback)
    (l : list ArticoreMotorPowerResult) (m : MotorRecord) :
    Rt (B := B) (list ArticoreMotorPowerResult) :=
  do row <- power_row enabled r rb m; pret (l ++ [row]).

Definition power_report (enabled : bool) (r : PowerRun) (rb : Rollback)
    (rows : list ArticoreMotorPowerResult) : ArticoreMotorPowerReport :=
  {| pp_success := pw_ok r; pp_requested_enabled := enabled;
     pp_rollback_attempted := rb_attempted rb;
     pp_rollback_confirmed := rb_attempted rb && rb_confirmed rb;
     pp_command_sent_count := Z.of_nat (length (pw_sent r));
     pp_confirmed_count := count_if pw_confirmed rows;
     pp_failure_count := count_if (fun x => negb (pw_confirmed x)) rows;
     pp_motors := rows; pp_error := pw_text r |}.

(** *** The last section *)

Definition abnormal (st : SafetyState) : bool :=
  match st with Degraded | SafeHold | SafeStop | Fault => true | _ => false end.

(** The motors that stay off intentionally. *)
Definition settle_intentions (enabled : bool) (selected : list MotorRecord) (r : PowerRun)
    (x : gset handle) : gset handle :=
  if negb enabled then x
  else if pw_ok r then x ∖ list_to_set (map motor_of selected)
  else list_to_set (map (fun y => motor_of (fst y))
         (List.filter (fun y => ams_has_value (snd y) && (ams_status_code (snd y) =? 0))
            (combine selected (pw_initial r)))) ∪ x.

Definition settle_state (enabled : bool) (started : SafetyState) (r : PowerRun) (rb : Rollback)
    (motor_fault : bool) (all : ArticoreMotorPowerState) (c : SafetyCore) : SafetyCore :=
  let preserve := negb enabled && abnormal started in
  let c :=
    if enabled && rb_attempted rb && negb (rb_confirmed rb) then
      c <| state_ := Fault |> <| fault_latched_ := true |>
        <| motor_fault_latched_ ::= fun l => l || motor_fault |>
        <| disable_confirmed_ := false |> <| fault_reason_ := pw_text r |>
    else if bool_decide (all = MOTOR_POWER_DISABLED) then
      let c := c <| disable_confirmed_ := true |> in
      if preserve then c <| state_ := started |>
      else if fault_latched_ c then c else c <| state_ := Ready |>
    else
      let c := c <| disable_confirmed_ := false |> in
      if preserve then c <| state_ := started |>
      else if fault_latched_ c then c else c <| state_ := PartiallyEnabled |> in
  let c := if enabled && pw_ok r && negb (fault_latched_ c)
           then c <| state_ := PartiallyEnabled |> <| disable_confirmed_ := false |> else c in
  c <| hardware_transition_ := false |>.

(** All motors off: everything is off intentionally in an abnormal state, and
    nothing is where the runtime becomes READY. *)
Definition settle_all (enabled : bool) (started : SafetyState) (rb : Rollback)
    (all : ArticoreMotorPowerState) (latched : bool) (motors : list MotorRecord) (x : gset handle) :
    gset handle :=
  if enabled && rb_attempted rb && negb (rb_confirmed rb) then x
  else if negb (bool_decide (all = MOTOR_POWER_DISABLED)) then x
  else if negb enabled && abnormal started then list_to_set (map motor_of motors) ∪ x
  else if latched then x else ∅.

Definition settle_power (enabled : bool) (selected : list MotorRecord) (started : SafetyState)
    (r : PowerRun) (rb : Rollback) (motor_fault : bool) (all : ArticoreMotorPowerState)
    (s : Safety B) : Safety B :=
  let latched := fault_latched_ (rt_core s) in
  s <| rt_intentionally_disabled ::= fun x =>
         settle_all enabled started rb all latched (rt_motors s)
           (settle_intentions enabled selected r x) |>
    <| rt_core ::= settle_state enabled started r rb motor_fault all |>
    <| rt_timers ::= fun t =>
         t <| next_control_tick_ := rt_clock s |> <| next_feedback_check_ := rt_clock s |>
           <| next_ready_feedback_ := rt_clock s |> |>.

Definition set_motor_power_batch (who : nat) (roles : list string) (enabled : bool) :
    Rt (B := B) ArticoreMotorPowerReport :=
  with_lifecycle who (
    do motors <- read rt_motors;
    do selected <- except (resolve_batch motors roles);
    do started <- begin_power enabled selected;
    do x <- with_command who (power_transaction enabled (bool_decide (started = Ready)) selected);
    do rows <- pfold selected (power_rows enabled x.1 x.2) [];
    do all <- cached_motor_power_state None;
    do motor_fault <- current_motor_fault_reported;
    write (settle_power enabled selected started x.1 x.2 motor_fault all) ;;;
    pret (power_report enabled x.1 x.2 rows)).

(** [set_motor_power(motor_name, enabled)]. *)
Definition set_motor_power (who : nat) (role : string) (enabled : bool) :
    Rt (B := B) ArticoreMotorPowerState :=
  do report <- set_motor_power_batch who [role] enabled;
  if pp_success report then pret (if enabled then MOTOR_POWER_ENABLED else MOTOR_POWER_DISABLED)
  else pthrow (RuntimeError (or_text (pp_error report) "motor power transaction failed")).

End Operations.
