(* ===== verification/Recover.v ===== *)
(** * Recovery

    [SafetyRuntime::recover] of [runtime/src/runtime_enable.cpp]: from any
    state, connect where needed, disable every motor, clear their faults,
    configure the mode, enable, return every arm joint to its calibrated zero
    and disable again.  A failure on the way ends in FAULT with the motors
    disabled.  It is the one operation that takes an emergency stop back. *)

From Stdlib Require Import String.
From S2P Require Import Prelude Float32 Float64 RuntimeTypes Threads NativeTypes SafetyState Motions Gripper Safety Feedback Disable Faults Commands JointPosition Enable Lifecycle Maintenance.
#[local] Open Scope mdl_scope.
#[local] Open Scope thread_scope.

Definition kRecoverySpeedPercent : f32 := f32_of_Z 5.
Definition kRecoveryPositionToleranceRad : f32 := f32_lit 2 100.
Definition kRecoveryVelocityToleranceRadPerSecond : f32 := f32_lit 5 100.

Definition arm_names (motors : list MotorRecord) : list string :=
  map name_of (List.filter (fun m => negb (is_gripper m)) motors).

(** Milliseconds to wait for the zero return, between five seconds and two
    minutes. *)
Definition recovery_timeout_ms (distance velocity : f32) : Z :=
  let expected :=
    if f32_gt velocity f32_zero then f32_add (f32_div distance velocity) (f32_of_Z 3)
    else f32_of_Z 120 in
  default 0 (f32_trunc (f32_mul (f32_clamp expected (f32_of_Z 5) (f32_of_Z 120)) (f32_of_Z 1000))).

Section Operations.
Context {B : Type} `{!MotorBackend B}.

(** ** Failure *)

Definition recovery_cleared (s : Safety B) : Safety B :=
  clear_mailboxes s <| rt_holds ::= no_holds |>
    <| rt_core ::= fun c => c <| fault_hold_active_ := false |> |>.

Definition recovery_fault (motor_fault : bool) (s : Safety B) : Safety B :=
  s <| rt_core ::= fun c =>
         c <| state_ := Fault |> <| fault_latched_ := true |>
           <| motor_fault_latched_ ::= fun l => l || motor_fault |>
           <| hardware_transition_ := true |> |>.

Definition recovery_failed (disabled : bool) (detail : string) (code : ArticoreOperationError)
    (failed : list string) (s : Safety B) : Safety B :=
  s <| rt_core ::= fun c =>
         c <| state_ := Fault |> <| fault_latched_ := true |> <| disable_confirmed_ := disabled |>
           <| hardware_transition_ := false |> <| enable_transaction_ := false |>
           <| fault_reason_ := detail |> <| safety_reason_ := ""%string |> |>
    <| rt_operation := Build_LastOperation OPERATION_RECOVER code detail failed |>.

(** [fail_recovery(stage, code, stage_error, failed_motors)]: it always
    throws. *)
Definition fail_recovery {A} (who : nat) (stage : string) (code : ArticoreOperationError)
    (stage_error : string) (failed : list string) : Rt (B := B) A :=
  do motor_fault <- current_motor_fault_reported;
  with_command who (write recovery_cleared) ;;;
  write (recovery_fault motor_fault) ;;;
  do disabled <- disable_hardware who true false;
  do motors <- read rt_motors;
  let detail := ("recover failed during " ++ stage ++ ": " ++ stage_error)%string in
  let detail := if disabled.1 then detail
                else append_error detail ("fallback disable failed: " ++ disabled.2) in
  write (recovery_failed disabled.1 detail code
           (match failed with [] => map name_of motors | _ => failed end)) ;;;
  pthrow (RuntimeError detail).

(** ** The stages *)

(** The first section: whether to connect. *)
Definition begin_recover (s : Safety B) : (exn + bool) * Safety B :=
  let refuse text :=
    (inl (RuntimeError text),
     s <| rt_operation :=
            Build_LastOperation OPERATION_RECOVER OPERATION_INVALID_STATE text [] |>) in
  if stopping_ (rt_core s) then refuse "recover cannot use a terminally disconnected Runtime"%string
  else if hardware_transition_ (rt_core s) then
    refuse "recover cannot overlap another hardware transaction"%string
  else
    (inr (bool_decide (state_ (rt_core s) = Disconnected)),
     s <| rt_operation := Build_LastOperation OPERATION_RECOVER OPERATION_OK "" [] |>).

(** The worker is frozen: no old target may be sent. *)
Definition recovery_frozen (s : Safety B) : Safety B :=
  s <| rt_core ::= fun c =>
         c <| state_ := Fault |> <| fault_latched_ := true |> <| hardware_transition_ := true |> |>.

Definition recovery_released (s : Safety B) : Safety B :=
  recovery_cleared s <| rt_gravity ::= leave_gravity |>
    <| rt_bimanual ::= reset_bimanual_follow_locked |>.

Definition clear_one (l : list (string * string)) (m : MotorRecord) :
    Rt (B := B) (list (string * string)) :=
  do rc <- bk (Bk_clear_error (motor_of m));
  if rc =? 0 then pret l
  else
    do e <- motor_error "native motor clear-fault command failed";
    pret (l ++ [(name_of m, e)]).

(** The motors whose faults could not be cleared, with what they say. *)
Definition clear_motor_faults : Rt (B := B) (list (string * string)) :=
  do p <- read (fun s : Safety B => (rt_motors s, rt_active_sides s));
  do r <- run_active_sides p.2 (fun side => pfold (side_motors p.1 side) clear_one []);
  pret (default [] r.1 ++ default [] r.2).

Definition clear_text (l : list (string * string)) : string :=
  fold_left (fun e f => append_error e (fst f ++ ": " ++ f.2)%string) l ""%string.

(** A motor whose feedback is not that of a healthy, disabled one. *)
Definition unhealthy_one (l : list string) (m : MotorRecord) : Rt (B := B) (list string) :=
  do config <- read rt_config;
  do state <- fetch_fresh (feedback_max_age_ns config) (motor_of m);
  pret match state with
       | Some st =>
           if f32_isfinite (ams_pos st) && f32_isfinite (ams_vel st) && (ams_status_code st =? 0)
           then l else l ++ [name_of m]
       | None => l ++ [name_of m]
       end.

(** [request_feedback_parallel(...) && refresh_feedback_health(true, false,
    error)]: the error where it fails. *)
Definition recovery_health (error : string) : Rt (B := B) (option string) :=
  do timeout <- read (fun s : Safety B => disable_feedback_timeout_ms (rt_config s));
  do r <- request_feedback_parallel timeout error;
  let '(requested, missing, error) := r in
  if negb requested then pret (Some error)
  else
    do h <- refresh_feedback_health true false error;
    pret (if h.1.1 then None else Some h.1.2).

(** The largest distance to zero, or the first joint without a position. *)
Definition distance_one (r : string + f32) (m : MotorRecord) : Rt (B := B) (string + f32) :=
  match r with
  | inl name => pret (inl name)
  | inr distance =>
      if is_gripper m then pret r
      else
        do state <- fetch_state (motor_of m);
        pret match state with
             | Some st => if f32_isfinite (ams_pos st)
                          then inr (f32_max distance (f32_abs (ams_pos st)))
                          else inl (name_of m)
             | None => inl (name_of m)
             end
  end.

Definition recovery_ready (s : Safety B) : Safety B :=
  s <| rt_core ::= fun c =>
         c <| state_ := Ready |> <| fault_latched_ := false |> <| motor_fault_latched_ := false |>
           <| disable_confirmed_ := true |> <| hardware_transition_ := false |>
           <| fault_reason_ := ""%string |> <| safety_reason_ := ""%string |> |>
    <| rt_motor_faults := [] |>.

(** ** The zero return *)

Definition zero_targets (motors : list MotorRecord) : list ArticoreJointTarget :=
  map (fun m => Build_ArticoreJointTarget (motor_of m) f32_zero)
    (List.filter (fun m => negb (is_gripper m)) motors).

Definition submit_zero (who : nat) : Rt (B := B) unit :=
  do p <- read (fun s : Safety B => (mode_ (rt_core s), rt_motors s));
  match p.1 with
  | ModeMit => set_joint_mit_speed who (zero_targets p.2) kRecoverySpeedPercent
  | ModePv => set_joint_pv_speed who (zero_targets p.2) kRecoverySpeedPercent
  end.

Definition stopped_reason (c : SafetyCore) : option string :=
  match state_ c with
  | Fault | SafeStop | Degraded =>
      let reason := if str_empty (fault_reason_ c) then safety_reason_ c else fault_reason_ c in
      Some (if str_empty reason then "Runtime stopped during calibrated-zero return"%string
            else reason)
  | _ => None
  end.

Definition at_zero (st : ArticoreMotorState) : bool :=
  (ams_status_code st =? 1) && f32_isfinite (ams_pos st) && f32_isfinite (ams_vel st) &&
  f32_le (f32_abs (ams_pos st)) kRecoveryPositionToleranceRad &&
  f32_le (f32_abs (ams_vel st)) kRecoveryVelocityToleranceRadPerSecond.

Definition not_at_zero (l : list string) (m : MotorRecord) : Rt (B := B) (list string) :=
  if is_gripper m then pret l
  else
    do config <- read rt_config;
    do state <- fetch_fresh (feedback_max_age_ns config) (motor_of m);
    pret (if match state with Some st => at_zero st | None => false end then l
          else l ++ [name_of m]).

(** The loop: a round sleeps ten milliseconds.  The result are the joints that
    were not at zero in the last round. *)
Fixpoint zero_rounds (fuel : nat) (who : nat) (deadline : Z) (failed : list string) :
    Rt (B := B) (list string) :=
  match fuel with
  | O => Done Unfinished
  | S fuel =>
      do now <- clock_now;
      if negb (now <? deadline) then pret failed
      else
        sleep_ms 10 ;;;
        do p <- read (fun s : Safety B => (rt_motors s, disable_feedback_timeout_ms (rt_config s)));
        do r <- request_feedback_parallel p.2 "";
        let '(requested, missing, error) := r in
        if negb requested then
          fail_recovery who "calibrated-zero return feedback" OPERATION_FEEDBACK error
            (arm_names p.1)
        else
          do c <- read rt_core;
          match stopped_reason c with
          | Some reason =>
              fail_recovery who "calibrated-zero return" OPERATION_VERIFICATION reason
                (arm_names p.1)
          | None =>
              do failed <- pfold p.1 not_at_zero [];
              match failed with
              | [] => pret []
              | _ => zero_rounds fuel who deadline failed
              end
          end
  end.

Definition zero_fuel (timeout_ms : Z) : nat := S (Z.to_nat timeout_ms).

Definition return_to_zero (who : nat) (distance : f32) : Rt (B := B) unit :=
  do motors <- read rt_motors;
  pcatch (submit_zero who) (fun e =>
    fail_recovery who "submit calibrated-zero return" OPERATION_MOTOR_COMMAND (exn_what e)
      (arm_names motors)) ;;;
  do velocity <- read (fun s : Safety B =>
    ordinary_velocity_from_percent (mode_ (rt_core s)) kRecoverySpeedPercent (rt_joints s));
  do velocity <- except velocity;
  do now <- clock_now;
  let timeout := recovery_timeout_ms distance velocity in
  do failed <- zero_rounds (zero_fuel timeout) who (now + milliseconds_ns timeout) [];
  match failed with
  | [] => pret tt
  | _ =>
      fail_recovery who "calibrated-zero return" OPERATION_VERIFICATION
        "timed out waiting for all arm joints to reach calibrated zero" failed
  end.

(** ** [recover()] *)

(** From the frozen runtime to READY with the mode configured: the distance to
    zero. *)
Definition recover_motors (who : nat) : Rt (B := B) f32 :=
  do motors <- read rt_motors;
  let all := map name_of motors in
  do disabled <- disable_hardware who true false;
  (if disabled.1 then pret tt
   else fail_recovery who "initial disable" OPERATION_VERIFICATION disabled.2 all) ;;;
  write (fun s : Safety B => s <| rt_core ::= fun c => c <| disable_confirmed_ := true |> |>) ;;;
  do can <- bk Bk_can_clear_error;
  (if can then pret tt
   else fail_recovery who "clear recoverable faults" OPERATION_UNSUPPORTED
          "native clear-fault callback is unavailable" all) ;;;
  do uncleared <- clear_motor_faults;
  (match uncleared with
   | [] => pret tt
   | _ => fail_recovery who "clear recoverable faults" OPERATION_MOTOR_COMMAND
            (clear_text uncleared) (map fst uncleared)
   end) ;;;
  write (fun s : Safety B => s <| rt_core ::= fun c => c <| motor_fault_latched_ := false |> |>) ;;;
  do transport <- refresh_transport_health "";
  (if transport.1 then pret tt
   else fail_recovery who "dual-arm health validation" OPERATION_TRANSPORT transport.2 all) ;;;
  do health <- recovery_health transport.2;
  (match health with
   | None => pret tt
   | Some error =>
       do failed <- pfold motors unhealthy_one [];
       fail_recovery who "dual-arm health validation" OPERATION_FEEDBACK
         (if str_empty error then "complete fresh disabled feedback is required" else error) failed
   end) ;;;
  do mode <- read (fun s : Safety B => mode_ (rt_core s));
  do configured <- configure_hardware_mode mode;
  (if ok_code (vd_code configured) then pret tt
   else fail_recovery who "configure control mode" (vd_code configured)
          (if str_empty (vd_error configured) then "native control-mode configuration failed"
           else vd_error configured) (vd_failed configured)) ;;;
  do distance <- pfold motors distance_one (inr f32_zero);
  match distance with
  | inr d => pret d
  | inl name =>
      fail_recovery who "dual-arm health validation" OPERATION_FEEDBACK
        (name ++ ": calibrated position is unavailable") [name]
  end.

(** The last section. *)
Definition recovered (s : Safety B) : Safety B :=
  s <| rt_core ::= fun c =>
         c <| state_ := Ready |> <| fault_latched_ := false |> <| motor_fault_latched_ := false |>
           <| emergency_stop_latched_ := false |> <| disable_confirmed_ := true |>
           <| fault_reason_ := ""%string |> <| safety_reason_ := ""%string |> |>
    <| rt_counters ::= fun c =>
         c <| consecutive_send_failures_ := 0 |> <| consecutive_feedback_failures_ := 0 |> |>
    <| rt_motor_faults := [] |> <| rt_unconfirmed_disable := [] |>
    <| rt_operation := Build_LastOperation OPERATION_RECOVER OPERATION_OK "" [] |>
    <| rt_timers ::= fun t =>
         t <| next_ready_feedback_ := rt_clock s + ready_refresh_ns (rt_config s) |> |>
    <| rt_presence ::= fun p => present_again <$> p |>.

Definition recover_body (who : nat) : Rt (B := B) unit :=
  do begun <- act begin_recover;
  do connect_first <- except begun;
  do motors <- read rt_motors;
  let all := map name_of motors in
  let guarding stage code p :=
    pcatch p (fun e => fail_recovery who stage code (exn_what e) all) in
  (if connect_first then guarding "connect"%string OPERATION_FEEDBACK (connect who) else pret tt) ;;;
  write recovery_frozen ;;;
  with_command who (write recovery_released) ;;;
  do distance <- recover_motors who;
  write recovery_ready ;;;
  do mode <- read (fun s : Safety B => mode_ (rt_core s));
  guarding "enable for zero return"%string OPERATION_MOTOR_COMMAND (enable who mode) ;;;
  return_to_zero who distance ;;;
  guarding "final whole-product disable"%string OPERATION_VERIFICATION (disable who) ;;;
  write recovered.

Definition recover (who : nat) : Rt (B := B) unit := with_lifecycle who (recover_body who).

End Operations.
