(* ===== verification/TrajectoryCycle.v ===== *)
(** * One control cycle of a running motion

    [prepare_trajectory_cycle] and the samples of
    [runtime/src/runtime_trajectory.cpp]: where the motion is at a moment, and
    the arm command that follows from it.  All of it happens under
    [state_mutex_] and without the backend, so it is one function of the
    state. *)

From Stdlib Require Import String.
From S2P Require Import Prelude Float32 Float64 PvShaping RuntimeTypes Threads NativeTypes Trajectory SafetyState Motions Gripper Commands.
#[local] Open Scope mdl_scope.
#[local] Open Scope thread_scope.

Definition native_cartesian_operation (operation : ArticoreRuntimeOperation) : bool :=
  match operation with OPERATION_MOVE_LINEAR | OPERATION_MOVE_CIRCULAR => true | _ => false end.

(** A nanosecond count as [std::chrono::duration<double>], in seconds. *)
Definition seconds64 (ns : Z) : f64 := f64_div (f64_of_Z ns) (f64_of_Z 1000000000).
(** [duration_cast<nanoseconds>] of seconds; the value is finite. *)
Definition ns_of_seconds (s : f64) : Z := default 0 (f32_trunc (f64_mul s (f64_of_Z 1000000000))).

Definition no_segment : TrajectorySegment := Build_TrajectorySegment f64_zero f64_zero [].

Definition segment_at (t : TrajectoryControl) (index : nat) : TrajectorySegment :=
  nth index (tc_segments t) no_segment.

(** The segment a moment falls into, searched from [index] on. *)
Fixpoint advance_segment (fuel : nat) (t : TrajectoryControl) (elapsed : f64) (index : nat) : nat :=
  match fuel with
  | O => index
  | S fuel =>
      let segment := segment_at t index in
      if (S index <? length (tc_segments t))%nat &&
         f64_le (f64_add (ts_start_s segment) (ts_duration_s segment)) elapsed
      then advance_segment fuel t elapsed (S index) else index
  end.

Definition local_unit (segment : TrajectorySegment) (elapsed : f64) : f64 :=
  f64_div (f64_clamp (f64_sub elapsed (ts_start_s segment)) f64_zero (ts_duration_s segment))
    (ts_duration_s segment).

(** [trajectory_sample_locked(now)]. *)
Definition trajectory_sample_locked (t : TrajectoryControl) (now : Z) : NativeTrajectorySample :=
  let n := length (tc_joints t) in
  if negb (bool_decide (tc_state t = MOTION_RUNNING)) || (length (tc_segments t) =? 0)%nat ||
     (n =? 0)%nat then no_TrajectorySample
  else if bool_decide (tc_execution t = TrajectoryPv) &&
     (length (tc_trajectory_pv_reference_positions t) =? n)%nat &&
     (length (tc_trajectory_pv_reference_velocities t) =? n)%nat then
    {| sa_active := true; sa_motion_id := tc_id t; sa_operation := tc_operation t;
       sa_positions := tc_trajectory_pv_reference_positions t;
       sa_velocities := tc_trajectory_pv_reference_velocities t;
       sa_accelerations := replicate n f32_zero |}
  else
    let elapsed := f64_clamp (seconds64 (now - tc_started_at t)) f64_zero
                     (tc_reference_duration_s t) in
    let elapsed :=
      if negb (tc_approach_complete t) && negb (tc_approach_segment_count t =? 0)
      then f64_min elapsed (tc_approach_duration_s t) else elapsed in
    let segment := segment_at t (advance_segment (length (tc_segments t)) t elapsed
                                   (Z.to_nat (tc_active_segment t))) in
    let u := local_unit segment elapsed in
    let scale := f64_of_f32 (if native_cartesian_operation (tc_operation t)
                             then tc_tracking_time_scale t else f32_one) in
    let d := ts_duration_s segment in
    {| sa_active := true; sa_motion_id := tc_id t; sa_operation := tc_operation t;
       sa_positions := map (fun c => f32_of_f64 (sample_polynomial c u)) (ts_coefficients segment);
       sa_velocities :=
         map (fun c => f32_of_f64 (f64_mul (sample_velocity c u d) scale))
           (ts_coefficients segment);
       sa_accelerations :=
         map (fun c => f32_of_f64 (f64_mul (f64_mul (sample_acceleration c u d) scale) scale))
           (ts_coefficients segment) |}.

(** ** The pace of a Cartesian motion *)

Definition feedback_scaled (mode : ControlMode) (t : TrajectoryControl) : bool :=
  bool_decide (mode = ModePv) && native_cartesian_operation (tc_operation t) &&
  negb (bool_decide (tc_execution t = TrajectoryPv)) && tc_approach_complete t.

Definition pause_error (t : TrajectoryControl) : string :=
  ("Cartesian tracking error did not recover" ++
   (if str_empty (tc_tracking_worst_role t) then "" else " at " ++ tc_tracking_worst_role t) ++
   ": position_error=" ++ fixed_six (tc_tracking_position_error t) ++
   " rad, pause_threshold=" ++ fixed_six kNativeCartesianTrackingPauseError ++ " rad")%string.

(** The clock of a motion whose joints lag too far behind stands still; after
    the timeout the motion fails. *)
Definition pace (mode : ControlMode) (now : Z) (t : TrajectoryControl) :
    option string * TrajectoryControl :=
  if feedback_scaled mode t then
    let dt := f64_max f64_zero (seconds64 (now - tc_tracking_updated_at t)) in
    let target := if tc_tracking_feedback_valid t
                  then native_cartesian_tracking_scale (tc_tracking_position_error t)
                  else f32_one in
    let paused := f32_le target f32_zero in
    let started := tc_tracking_pause_started_at t in
    let t := if paused then t <| tc_tracking_time_scale := f32_zero |>
             else t <| tc_tracking_pause_started_at := 0 |> <| tc_tracking_time_scale := f32_one |> in
    if paused && negb (started =? 0) &&
       (kNativeCartesianTrackingPauseTimeout <=? now - started)
    then (Some (pause_error t), t)
    else
      let t := if paused && (started =? 0) then t <| tc_tracking_pause_started_at := now |> else t in
      let t :=
        if f64_lt f64_zero dt && f32_lt (tc_tracking_time_scale t) f32_one &&
           f64_eq (tc_reference_duration_s t) (tc_duration_s t)
        then t <| tc_started_at ::= fun s => s + ns_of_seconds
                    (f64_mul dt (f64_sub f64_one (f64_of_f32 (tc_tracking_time_scale t)))) |>
        else t in
      (None, t <| tc_tracking_updated_at := now |>)
  else
    (None, t <| tc_tracking_time_scale := f32_one |> <| tc_tracking_updated_at := now |>
             <| tc_tracking_pause_started_at := 0 |>).

(** ** The point of reference *)

Record Reference := {
  rf_wall_elapsed : f64;
  rf_elapsed : f64;
  rf_at_approach : bool;
  rf_at_final : bool;
  rf_segment : nat
}.

Definition rf_settling (r : Reference) : bool := rf_at_approach r || rf_at_final r.

Definition reference_point (now : Z) (t : TrajectoryControl) : Reference :=
  let wall := f64_clamp (seconds64 (now - tc_started_at t)) f64_zero (tc_duration_s t) in
  let elapsed := f64_min wall (tc_reference_duration_s t) in
  let at_approach := negb (tc_approach_complete t) && negb (tc_approach_segment_count t =? 0) &&
                     f64_le (tc_approach_duration_s t) elapsed in
  let elapsed := if at_approach then tc_approach_duration_s t else elapsed in
  {| rf_wall_elapsed := wall; rf_elapsed := elapsed; rf_at_approach := at_approach;
     rf_at_final := f64_le (tc_reference_duration_s t) elapsed;
     rf_segment :=
       if at_approach then Z.to_nat (tc_approach_segment_count t - 1)
       else advance_segment (length (tc_segments t)) t elapsed (Z.to_nat (tc_active_segment t)) |}.

Definition sample_positions (segment : TrajectorySegment) (u : f64) : list f32 :=
  map (fun c => f32_of_f64 (sample_polynomial c u)) (ts_coefficients segment).

Definition sample_velocities (segment : TrajectorySegment) (u : f64) (scale : f32) : list f32 :=
  map (fun c => f32_of_f64 (f64_mul (sample_velocity c u (ts_duration_s segment))
                              (f64_of_f32 scale))) (ts_coefficients segment).

(** The references of a [TrajectoryPv] motion. *)
Definition pv_references (now : Z) (settling : bool) (positions velocities : list f32)
    (t : TrajectoryControl) : TrajectoryControl :=
  t <| tc_trajectory_pv_reference_positions := positions |>
    <| tc_trajectory_pv_reference_velocities :=
         if settling then map (fun _ => f32_zero) velocities else velocities |>
    <| tc_trajectory_pv_command_positions ::=
         zip_with (fun ideal previous =>
           native_trajectory_pv_effective_position ideal previous settling) positions |>
    <| tc_trajectory_pv_updated_at := now |>.

Definition pv_state_consistent (t : TrajectoryControl) : bool :=
  let n := length (tc_joints t) in
  (length (tc_trajectory_pv_reference_positions t) =? n)%nat &&
  (length (tc_trajectory_pv_reference_velocities t) =? n)%nat &&
  (length (tc_trajectory_pv_command_positions t) =? n)%nat.

(** The largest value over the joints in the mask. *)
Definition masked_maximum (mask : Z) (values : list f32) : f32 :=
  fold_left (fun a x => if Z.testbit mask (Z.of_nat x.1) then f32_max a x.2 else a)
    (combine (seq 0 (length values)) values) f32_zero.

(** Whether the Cartesian reference of an earlier cycle is held on. *)
Definition hold_reference (t : TrajectoryControl) (elapsed : f64)
    (positions velocities : list f32) : bool :=
  let initialized :=
    (length (tc_cartesian_reference_positions t) =? length (tc_joints t))%nat in
  let change := masked_maximum (tc_cartesian_tracking_joint_mask t)
    (zip_with (fun p r => f32_abs (f32_sub p r)) positions (tc_cartesian_reference_positions t)) in
  let velocity := masked_maximum (tc_cartesian_tracking_joint_mask t) (map f32_abs velocities) in
  let held := f64_sub elapsed (tc_cartesian_reference_updated_elapsed_s t) in
  initialized &&
  negb (native_cartesian_reference_update_due change held
          (f32_ge velocity kNativeCartesianContinuousReferenceVelocity)).

(** ** The command *)

Definition pv_limit (config : ArticoreRuntimeConfig) (scaled stationary : bool) (r : Reference)
    (t : TrajectoryControl) (index : nat) (velocity : f32) (j : NativeTrajectoryJoint) : f32 :=
  if stationary then tj_pv_hold_velocity_limit j
  else if rf_settling r && Z.testbit (tc_final_hold_limit_mask t) (Z.of_nat index) then
    f32_min (tj_pv_velocity_limit j) kNativePvSettlingVelocityLimit
  else if bool_decide (tc_execution t = TrajectoryPv) then
    native_trajectory_pv_drive_velocity_limit velocity kNativePvSettlingVelocityLimit
      (tc_pv_drive_velocity_limit t)
  else if scaled then
    if rf_at_final r && f64_lt (tc_reference_duration_s t) (tc_duration_s t) then
      native_cartesian_trajectory_pv_final_velocity_limit (tc_tracking_position_error t)
        (safe_pv_velocity_limit config) (tj_pv_velocity_limit j)
    else
      native_cartesian_trajectory_pv_velocity_limit velocity (tc_tracking_position_error t)
        (safe_pv_velocity_limit config) (tj_pv_velocity_limit j)
  else tj_pv_velocity_limit j.

Definition mit_sample (position velocity : f32) (j : NativeTrajectoryJoint) : ArticoreMitCommand :=
  {| mit_motor := tj_motor j; mit_target_position := f32_mul (tj_direction j) position;
     mit_target_velocity :=
       f32_mul (f32_mul (tj_direction j) velocity) (tj_velocity_command_scale j);
     mit_stiffness := tj_mit_kp j; mit_damping := tj_mit_kd j;
     mit_feedforward_torque :=
       f32_mul (f32_mul (tj_direction j) (tj_mit_feedforward_torque j))
         (tj_torque_command_scale j) |}.

Definition trajectory_mailbox (config : ArticoreRuntimeConfig) (mode : ControlMode)
    (scaled stationary held : bool) (now generation : Z) (r : Reference)
    (positions velocities : list f32) (t : TrajectoryControl) (mb : ArmMailbox) : ArmMailbox :=
  let chosen :=
    if held then tc_cartesian_reference_positions t
    else if bool_decide (tc_execution t = TrajectoryPv) then tc_trajectory_pv_command_positions t
    else positions in
  let rows := combine (seq 0 (length (tc_joints t)))
                (combine (tc_joints t) (combine chosen velocities)) in
  let mb := mb <| mb_valid := true |> <| mb_user_command := true |>
               <| mb_lifetime := COMMAND_HOLD_UNTIL_REPLACED |> <| mb_generation := generation |>
               <| mb_submitted_at := now |> <| mb_joint_position := false |>
               <| mb_final_positions := [] |> in
  match mode with
  | ModeMit =>
      mb <| mb_pv := [] |>
         <| mb_mit := map (fun x => mit_sample x.2.2.1 x.2.2.2 x.2.1) rows |>
  | ModePv =>
      mb <| mb_mit := [] |>
         <| mb_pv := map (fun x =>
              Build_ArticorePosVelCommand (tj_motor x.2.1)
                (f32_mul (tj_direction x.2.1) x.2.2.1)
                (pv_limit config scaled stationary r t x.1 x.2.2.2 x.2.1)) rows |>
  end.

(** What a cycle tells the worker. *)
Record CyclePlan := { cy_active : bool; cy_completing : bool; cy_error : string }.

Definition idle_cycle : CyclePlan := Build_CyclePlan false false "".
Definition failed_cycle (error : string) : CyclePlan := Build_CyclePlan false false error.

Section Operations.
Context {B : Type} `{!MotorBackend B}.

(** A running motion with segments and joints. *)
Definition running_cycle (now : Z) (s : Safety B) : CyclePlan * Safety B :=
  let mode := mode_ (rt_core s) in
  let scaled := feedback_scaled mode (rt_trajectory s) in
  let '(failure, t) := pace mode now (rt_trajectory s) in
  let s := s <| rt_trajectory := t |> in
  match failure with
  | Some error => (failed_cycle error, s)
  | None =>
    let r := reference_point now t in
    let settling := rf_settling r in
    let stationary := settling && tc_stationary_hold_active t in
    let segment := segment_at t (rf_segment r) in
    let u := local_unit segment (rf_elapsed r) in
    let positions := sample_positions segment u in
    let velocities := sample_velocities segment u (tc_tracking_time_scale t) in
    let pv := bool_decide (tc_execution t = TrajectoryPv) in
    if negb (forallb f32_isfinite positions && forallb f32_isfinite velocities) then
      (failed_cycle "trajectory produced a non-finite sample", s)
    else if pv && negb (pv_state_consistent t) then
      (failed_cycle "trajectory PV reference state is internally inconsistent", s)
    else
      let t := if pv then pv_references now settling positions velocities t else t in
      let velocities := if pv && settling then map (fun _ => f32_zero) velocities else velocities in
      let held := scaled && negb settling && hold_reference t (rf_elapsed r) positions velocities in
      let t := if held then t
               else t <| tc_cartesian_reference_positions := positions |>
                      <| tc_cartesian_reference_updated_elapsed_s := rf_elapsed r |> in
      let generation := u64 (arm_generation_ (rt_counters s) + 1) in
      let mb := trajectory_mailbox (rt_config s) mode scaled stationary held now generation r
                  positions velocities t (rt_mailbox s) in
      let estimated := if f64_lt f64_zero (tc_approach_deadline_s t)
                       then tc_approach_deadline_s t else tc_approach_duration_s t in
      let t := t <| tc_active_segment := Z.of_nat (rf_segment r) |>
                 <| tc_elapsed_s := if rf_at_approach r
                                    then f64_min (rf_wall_elapsed r) estimated
                                    else rf_wall_elapsed r |> in
      (Build_CyclePlan true settling "",
       s <| rt_trajectory := t |> <| rt_mailbox := mb |>
         <| rt_counters ::= fun c => c <| arm_generation_ := generation |> |>)
  end.

(** [prepare_trajectory_cycle(now, completing, error)]. *)
Definition prepare_trajectory_cycle (now : Z) (s : Safety B) : CyclePlan * Safety B :=
  let t := rt_trajectory s in
  match tc_state t with
  | MOTION_COMPLETED => (Build_CyclePlan false true "", s)
  | MOTION_RUNNING =>
      if (length (tc_segments t) =? 0)%nat || (length (tc_joints t) =? 0)%nat
      then (failed_cycle "trajectory plan is internally empty", s)
      else running_cycle now s
  | _ => (idle_cycle, s)
  end.

(** [trajectory_sample()] and [planned_arm_sample(joints, transaction)]; a
    command transaction is held. *)
Definition trajectory_sample : Rt (B := B) NativeTrajectorySample :=
  do now <- clock_now;
  read (fun s : Safety B => trajectory_sample_locked (rt_trajectory s) now).

Definition planned_joint (mb : ArmMailbox) (j : NativeTrajectoryJoint) : exn + (f32 * f32) :=
  if (tj_motor j =? 0)%nat || negb (f32_isfinite (tj_direction j)) ||
     negb (SFeqb (f32_abs (tj_direction j)) f32_one) then
    inl (InvalidArgument ("planned arm reference contains an invalid joint for " ++ joint_role j))
  else
    match mb_pv mb with
    | _ :: _ =>
        match list_find (fun c => pv_motor c = tj_motor j) (mb_pv mb) with
        | Some (index, c) =>
            let position :=
              if mb_joint_position mb &&
                 (length (mb_pv_reference_positions mb) =? length (mb_pv mb))%nat
              then nth index (mb_pv_reference_positions mb) f32_zero
              else pv_target_position c in
            inr (f32_mul (tj_direction j) position, f32_zero)
        | None => inl (RuntimeError
                    ("current planned PV reference is incomplete at " ++ joint_role j))
        end
    | [] =>
        match find_command (mb_mit mb) (tj_motor j) with
        | Some c =>
            if negb (f32_isfinite (tj_velocity_command_scale j)) ||
               f32_le (tj_velocity_command_scale j) f32_zero then
              inl (RuntimeError ("current planned MIT reference is incomplete at " ++ joint_role j))
            else
              inr (f32_mul (tj_direction j) (mit_target_position c),
                   f32_div (f32_mul (tj_direction j) (mit_target_velocity c))
                     (tj_velocity_command_scale j))
        | None => inl (RuntimeError
                    ("current planned MIT reference is incomplete at " ++ joint_role j))
        end
    end.

Fixpoint planned_joints (mb : ArmMailbox) (l : list NativeTrajectoryJoint) :
    exn + list (f32 * f32) :=
  match l with
  | [] => inr []
  | j :: rest =>
      match planned_joint mb j with
      | inl e => inl e
      | inr x => match planned_joints mb rest with inl e => inl e | inr l => inr (x :: l) end
      end
  end.

Definition planned_arm_sample (joints : list NativeTrajectoryJoint) :
    Rt (B := B) NativeTrajectorySample :=
  match joints with
  | [] => pthrow (InvalidArgument "planned arm reference has no joints")
  | _ =>
      do active <- trajectory_sample;
      if sa_active active then pret active
      else
        do mb <- read rt_mailbox;
        if negb (mb_valid mb) then
          pthrow (RuntimeError "current planned arm reference is unavailable")
        else
          do l <- except (planned_joints mb joints);
          pret {| sa_active := false; sa_motion_id := 0; sa_operation := OPERATION_NONE;
                  sa_positions := map fst l; sa_velocities := map snd l;
                  sa_accelerations := map (fun _ => f32_zero) l |}
  end.

(** [planned_trajectory_tail_sample(joints, transaction)]. *)
Definition tail_sample (s : Safety B) : NativeTrajectorySample :=
  let of_running :=
    if motion_active (rt_trajectory s) then trajectory_final_sample_locked (rt_trajectory s)
    else no_TrajectorySample in
  match last (rt_queue s) with
  | Some t => let r := trajectory_final_sample_locked t in if sa_active r then r else of_running
  | None => of_running
  end.

Definition planned_trajectory_tail_sample (joints : list NativeTrajectoryJoint) :
    Rt (B := B) NativeTrajectorySample :=
  do r <- read tail_sample;
  if sa_active r then pret r else planned_arm_sample joints.

End Operations.
