(* ===== verification/Completion.v ===== *)
(** * When a motion is complete

    [update_trajectory_completion] of [runtime/src/runtime_trajectory.cpp]: a
    motion has arrived when the joints say so, not when its clock has run out.
    One section of [state_mutex_] fixes what is expected, the feedback of every
    joint is surveyed, and a second section judges it. *)

From Stdlib Require Import String.
From S2P Require Import Prelude Float32 Float64 PvShaping RuntimeTypes Threads NativeTypes Trajectory SafetyState Motions Gripper Commands TrajectoryCycle.
#[local] Open Scope mdl_scope.
#[local] Open Scope thread_scope.

Definition kPvArrivalPositionTolerance : f32 := f32_lit 2 100.
Definition kPvArrivalVelocityTolerance : f32 := f32_lit 5 100.
Definition kPvFinalPositionTolerance : f32 := f32_lit 5 1000.
Definition kPvLoadedJointFinalPositionTolerance : f32 := f32_lit 12 1000.
Definition kPvStablePositionRange : f32 := f32_lit 12 1000.
Definition kMitArrivalPositionTolerance : f32 := f32_lit 5 100.
Definition kMitArrivalVelocityTolerance : f32 := f32_lit 10 100.
Definition kArrivalStableDuration : Z := milliseconds_ns 200.
Definition kCompletedHoldViolationDuration : Z := milliseconds_ns 50.
Definition kMinimumArrivalTimeoutSeconds : f64 := f64_of_Z 4.
Definition kMaximumArrivalTimeoutSeconds : f64 := f64_of_Z 10.

Definition f32_nan : f32 := S754_nan.
Definition f32_infinity : f32 := S754_infinity false.

(** [is_loaded_joint4_role]: the role ends in [joint4]. *)
Fixpoint str_ends_with (suffix s : string) : bool :=
  String.eqb s suffix || match s with String _ rest => str_ends_with suffix rest | _ => false end.
Definition is_loaded_joint4_role (role : string) : bool := str_ends_with "joint4" role.

Definition arrival_tolerances (mode : ControlMode) : f32 * f32 :=
  match mode with
  | ModePv => (kPvArrivalPositionTolerance, kPvArrivalVelocityTolerance)
  | ModeMit => (kMitArrivalPositionTolerance, kMitArrivalVelocityTolerance)
  end.

(** ** What is expected *)

Record ArrivalJoint := {
  ar_joint : NativeTrajectoryJoint;
  ar_target : f32;
  ar_disabled : bool;
  ar_role : string
}.

Record ArrivalPlan := {
  ap_motion : Z;
  ap_mode : ControlMode;
  ap_monitoring : bool;
  ap_approach : bool;
  ap_deadline : bool;
  ap_previous : list Z;
  ap_initialized : bool;
  ap_check : option ConvergenceCheck;
  ap_arrivals : list ArrivalJoint
}.

Definition waiting_at_approach (t : TrajectoryControl) : bool :=
  negb (bool_decide (tc_state t = MOTION_COMPLETED)) && negb (tc_approach_complete t) &&
  negb (tc_approach_segment_count t =? 0) && f64_le (tc_approach_duration_s t) (tc_elapsed_s t).

Definition at_final_reference (t : TrajectoryControl) : bool :=
  negb (bool_decide (tc_state t = MOTION_COMPLETED)) && negb (waiting_at_approach t) &&
  f64_le (tc_reference_duration_s t) (tc_elapsed_s t).

Definition at_completion_deadline (t : TrajectoryControl) : bool :=
  f64_le (tc_duration_s t) (tc_elapsed_s t).

(** The successor starts, joint by joint, where the motion ends. *)
Definition continuous (t next : TrajectoryControl) : bool :=
  match last (tc_segments t), head (tc_segments next) with
  | Some final, Some first =>
      (length (tc_joints t) =? length (tc_joints next))%nat &&
      forallb (fun x : (NativeTrajectoryJoint * list f64) * (NativeTrajectoryJoint * list f64) =>
        let '((j, c), (j', c')) := x in
        bool_decide (tj_motor j = tj_motor j') &&
        negb (f64_lt (f64_lit 1 100000)
          (f64_abs (f64_sub (sample_polynomial c f64_one) (sample_polynomial c' f64_zero)))))
        (combine (combine (tc_joints t) (ts_coefficients final))
                 (combine (tc_joints next) (ts_coefficients first)))
  | _, _ => false
  end.

(** A Cartesian motion hands over to the next one without coming to rest. *)
Definition may_hand_over (t next : TrajectoryControl) : bool :=
  at_final_reference t && at_completion_deadline t &&
  native_cartesian_operation (tc_operation t) && native_cartesian_operation (tc_operation next) &&
  (tc_approach_segment_count next =? 0) && tc_tracking_feedback_valid t &&
  f32_le (tc_tracking_position_error t) kNativeCartesianFifoHandoffMaximumError &&
  continuous t next.

(** The bookkeeping of the settling phase as it starts. *)
Definition forget_range (t : TrajectoryControl) : TrajectoryControl :=
  t <| tc_settling_position_min := replicate (length (tc_joints t)) f32_infinity |>
    <| tc_settling_position_max := replicate (length (tc_joints t)) (f32_opp f32_infinity) |>.

Definition start_settling (now : Z) (t : TrajectoryControl) : TrajectoryControl :=
  if bool_decide (tc_state t = MOTION_COMPLETED) || negb (tc_settling_started_at t =? 0) then t
  else
    forget_range t <| tc_settling_started_at := now |> <| tc_settling_stable_started_at := 0 |>
      <| tc_hold_unstable_started_at := 0 |>
      <| tc_settling_feedback_updates := replicate (length (tc_joints t)) 0 |>
      <| tc_settled_feedback_samples := 0 |> <| tc_settling_feedback_initialized := false |>.

Definition arrival_joint (disabled : gset handle) (roles : gmap handle string)
    (x : NativeTrajectoryJoint * list f64) : ArrivalJoint :=
  {| ar_joint := x.1;
     ar_target := f32_of_f64 (sample_polynomial x.2 f64_one);
     ar_disabled := bool_decide (tj_motor x.1 ∈ disabled);
     ar_role := if str_empty (tj_role x.1)
                then default "unknown product joint"%string (roles !! tj_motor x.1)
                else tj_role x.1 |}.

Section Begin.
Context {B : Type} `{!MotorBackend B}.

(** [archive_trajectory_locked], [pop_front], [activate_trajectory_locked]. *)
Definition start_next (now : Z) (next : TrajectoryControl) (rest : list TrajectoryControl)
    (s : Safety B) : Safety B :=
  s <| rt_history ::= archive_trajectory_locked (rt_trajectory s) |> <| rt_queue := rest |>
    <| rt_trajectory := activated next now |>
    <| rt_timers ::= fun t => t <| next_control_tick_ := now |> |>.

Definition hand_over (now : Z) (next : TrajectoryControl) (rest : list TrajectoryControl)
    (s : Safety B) : Safety B :=
  start_next now next rest
    (s <| rt_trajectory ::= fun t => t <| tc_state := MOTION_COMPLETED |>
            <| tc_elapsed_s := tc_duration_s t |> <| tc_error := ""%string |> |>).

(** The first section; [None] where the cycle has nothing to judge. *)
Definition begin_completion (now : Z) (s : Safety B) : option ArrivalPlan * Safety B :=
  let t := rt_trajectory s in
  if negb (motion_active t) || (length (tc_segments t) =? 0)%nat then (None, s)
  else
    let settle :=
      let approach := waiting_at_approach t in
      let deadline := at_completion_deadline t in
      let t := start_settling now t in
      let final := if approach then segment_at t (Z.to_nat (tc_approach_segment_count t - 1))
                   else default no_segment (last (tc_segments t)) in
      (Some {| ap_motion := tc_id t; ap_mode := mode_ (rt_core s);
               ap_monitoring := bool_decide (tc_state t = MOTION_COMPLETED);
               ap_approach := approach; ap_deadline := deadline;
               ap_previous := tc_settling_feedback_updates t;
               ap_initialized := tc_settling_feedback_initialized t;
               ap_check := if approach then tc_approach_convergence_check t
                           else tc_final_convergence_check t;
               ap_arrivals := map (arrival_joint (rt_intentionally_disabled s) (rt_roles s))
                                (combine (tc_joints t) (ts_coefficients final)) |},
       s <| rt_trajectory := t |>) in
    match rt_queue s with
    | next :: rest => if may_hand_over t next then (None, hand_over now next rest s) else settle
    | [] => settle
    end.

End Begin.

(** ** The survey of the joints *)

(** The joint that violates the window most. *)
Record Worst := {
  wo_score : f32;
  wo_error : f32;
  wo_velocity : f32;
  wo_role : string;
  wo_target : f32;
  wo_actual : f32
}.

Record Survey := {
  sv_all_arrived : bool;
  sv_all_positions : bool;
  sv_final_ready : bool;
  sv_all_new : bool;
  sv_any_new : bool;
  sv_active : bool;
  sv_active_mask : Z;
  sv_available_mask : Z;
  sv_ready_mask : Z;
  sv_updates : list Z;
  sv_actual : list f32;
  sv_worst : Worst;
  sv_unavailable : string;
  sv_convergence_error : string
}.

#[export] Instance eta_Survey : Eta Survey := fun r =>
  Build_Survey (sv_all_arrived r) (sv_all_positions r) (sv_final_ready r) (sv_all_new r)
    (sv_any_new r) (sv_active r) (sv_active_mask r) (sv_available_mask r) (sv_ready_mask r)
    (sv_updates r) (sv_actual r) (sv_worst r) (sv_unavailable r) (sv_convergence_error r).

Definition no_Survey (initialized : bool) : Survey :=
  Build_Survey true true true true (negb initialized) false 0 0 0 [] []
    (Build_Worst (f32_of_Z (-1)) f32_zero f32_zero "" f32_zero f32_zero) "" "".

Definition set_bit (index : nat) (mask : Z) : Z := Z.lor mask (Z.shiftl 1 (Z.of_nat index)).

(** One joint with feedback: its direction, its error and its speed. *)
Definition survey_joint (p : ArrivalPlan) (index : nat) (a : ArrivalJoint)
    (stats : ArticoreFeedbackStats) (state : ArticoreMotorState) (v : Survey) : Survey :=
  let '(position_tolerance, velocity_tolerance) := arrival_tolerances (ap_mode p) in
  let pv := bool_decide (ap_mode p = ModePv) in
  let j := ar_joint a in
  let known := ap_initialized p && (index <? length (ap_previous p))%nat in
  let same := afs_update_count stats =? nth index (ap_previous p) 0 in
  let actual := f32_mul (tj_direction j) (ams_pos state) in
  let velocity := f32_mul (f32_mul (tj_direction j) (ams_vel state))
                    (tj_velocity_feedback_scale j) in
  let error := f32_abs (f32_sub actual (ar_target a)) in
  let speed := f32_abs velocity in
  let final := if is_loaded_joint4_role (ar_role a) then kPvLoadedJointFinalPositionTolerance
               else kPvFinalPositionTolerance in
  let far := pv && f32_gt error final in
  let ready := pv && negb (f32_gt error final) && f32_le speed velocity_tolerance in
  let score := f32_max (f32_div error position_tolerance) (f32_div speed velocity_tolerance) in
  {| sv_all_arrived := sv_all_arrived v && negb (f32_gt error position_tolerance) &&
                       negb (f32_gt speed velocity_tolerance);
     sv_all_positions := sv_all_positions v && negb (f32_gt error position_tolerance);
     sv_final_ready := sv_final_ready v && negb far;
     sv_all_new := sv_all_new v && negb (known && same);
     sv_any_new := sv_any_new v || (known && negb same);
     sv_active := true;
     sv_active_mask := set_bit index (sv_active_mask v);
     sv_available_mask := set_bit index (sv_available_mask v);
     sv_ready_mask := if ready then set_bit index (sv_ready_mask v) else sv_ready_mask v;
     sv_updates := sv_updates v ++ [afs_update_count stats];
     sv_actual := sv_actual v ++ [actual];
     sv_worst := if f32_gt score (wo_score (sv_worst v))
                 then Build_Worst score error speed (ar_role a) (ar_target a) actual
                 else sv_worst v;
     sv_unavailable := sv_unavailable v;
     sv_convergence_error := sv_convergence_error v |}.

Definition survey_unavailable (index : nat) (a : ArrivalJoint) (v : Survey) : Survey :=
  v <| sv_all_arrived := false |> <| sv_all_positions := false |> <| sv_all_new := false |>
    <| sv_active := true |> <| sv_active_mask ::= set_bit index |>
    <| sv_updates ::= fun l => l ++ [0] |> <| sv_actual ::= fun l => l ++ [f32_nan] |>
    <| sv_unavailable ::= fun r => if str_empty r then ar_role a else r |>.

Definition survey_disabled (v : Survey) : Survey :=
  v <| sv_updates ::= fun l => l ++ [0] |> <| sv_actual ::= fun l => l ++ [f32_nan] |>.

(** The planner's own check of the pose replaces the joint-wise one. *)
Definition apply_check (p : ArrivalPlan) (v : Survey) : Survey :=
  match ap_mode p, ap_check p with
  | ModePv, Some check =>
      if str_empty (sv_unavailable v) then
        let '(ready, error) := check (sv_actual v) in
        v <| sv_final_ready := ready |> <| sv_convergence_error := error |>
      else v
  | _, _ => v
  end.

Section Survey.
Context {B : Type} `{!MotorBackend B}.

(** Fresh feedback of an enabled motor with its statistics. *)
Definition fetch_arrival (motor : handle) :
    Rt (B := B) (option (ArticoreFeedbackStats * ArticoreMotorState)) :=
  do age <- read (fun s : Safety B => feedback_max_age_ns (rt_config s));
  do stats <- fetch_stats motor;
  match stats with
  | Some st =>
      if afs_age_ns st <=? age then
        do state <- fetch_state motor;
        pret (match state with
              | Some x => if (ams_status_code x =? 1) && f32_isfinite (ams_pos x) &&
                             f32_isfinite (ams_vel x) then Some (st, x) else None
              | None => None
              end)
      else pret None
  | None => pret None
  end.

Definition survey_step (p : ArrivalPlan) (v : Survey) (x : nat * ArrivalJoint) :
    Rt (B := B) Survey :=
  if ar_disabled x.2 then pret (survey_disabled v)
  else
    do r <- fetch_arrival (tj_motor (ar_joint x.2));
    pret (match r with
          | Some (stats, state) => survey_joint p x.1 x.2 stats state v
          | None => survey_unavailable x.1 x.2 v
          end).

Definition survey (p : ArrivalPlan) : Rt (B := B) Survey :=
  do v <- pfold (combine (seq 0 (length (ap_arrivals p))) (ap_arrivals p)) (survey_step p)
            (no_Survey (ap_initialized p));
  pret (apply_check p v).

End Survey.

(** ** The range of the positions *)

Definition tracked (x : ArrivalJoint * f32) : bool :=
  negb (ar_disabled x.1) && f32_isfinite x.2.

(** The measured position widens the range of its joint. *)
Definition extend_range (p : ArrivalPlan) (v : Survey) (t : TrajectoryControl) :
    TrajectoryControl :=
  let rows := combine (ap_arrivals p) (sv_actual v) in
  t <| tc_settling_position_min ::=
         zip_with (fun x low => if tracked x then f32_min low x.2 else low) rows |>
    <| tc_settling_position_max ::=
         zip_with (fun x high => if tracked x then f32_max high x.2 else high) rows |>.

(** The joints that count with the width of their ranges. *)
Definition ranges (keep : ArrivalJoint * f32 -> bool) (p : ArrivalPlan) (v : Survey)
    (t : TrajectoryControl) : list (string * f32) :=
  map (fun x => (ar_role x.1.1, f32_sub x.2.2 x.2.1))
    (List.filter (fun x => keep x.1)
       (combine (combine (ap_arrivals p) (sv_actual v))
          (combine (tc_settling_position_min t) (tc_settling_position_max t)))).

Definition too_wide (x : string * f32) : bool := f32_gt x.2 kPvStablePositionRange.

(** The widest range, of the first joint that has it. *)
Definition widest (l : list (string * f32)) : string * f32 :=
  fold_left (fun w x => if f32_gt x.2 w.2 then x else w) l (""%string, f32_zero).

(** ** The texts *)

Definition show_bool (b : bool) : string := if b then "true" else "false".

Definition range_text (x : string * f32) : string :=
  ("; " ++ x.1 ++ " position_range=" ++ show_float x.2 ++ " stable_range_limit=" ++
   show_float kPvStablePositionRange)%string.

Definition worst_text (w : Worst) : string :=
  ("; " ++ wo_role w ++ " target=" ++ show_float (wo_target w) ++ " actual=" ++
   show_float (wo_actual w) ++ " position_error=" ++ show_float (wo_error w) ++ " velocity=" ++
   show_float (wo_velocity w))%string.

Definition unstable_error (wide : list (string * f32)) (v : Survey) : string :=
  ("completed trajectory hold became unstable; waiting for physical restabilization" ++
   (if negb (str_empty (sv_unavailable v)) then
      "; fresh enabled feedback unavailable for " ++ sv_unavailable v
    else if negb (length wide =? 0)%nat && negb (str_empty (widest wide).1) then
      range_text (widest wide)
    else if negb (str_empty (wo_role (sv_worst v))) then worst_text (sv_worst v) else ""))%string.

Definition timeout_error (p : ArrivalPlan) (v : Survey) (wide : string * f32)
    (timeout estimated : f64) (t : TrajectoryControl) : string :=
  let '(position_tolerance, velocity_tolerance) := arrival_tolerances (ap_mode p) in
  ((if ap_approach p then "trajectory approach arrival timed out "
    else "trajectory arrival timed out ") ++ show_float timeout ++ " s after estimated time " ++
   show_float estimated ++ " s" ++
   "; stationary_hold=" ++ show_bool (tc_stationary_hold_active t) ++
   "; settling_hold=" ++ show_bool (tc_final_hold_limit_active t) ++
   "; stable_samples=" ++ to_string (tc_settled_feedback_samples t) ++
   "; all_feedback_new=" ++ show_bool (sv_all_new v) ++
   "; any_feedback_new=" ++ show_bool (sv_any_new v) ++
   (if negb (str_empty (sv_unavailable v)) then
      "; fresh enabled feedback unavailable for " ++ sv_unavailable v
    else if sv_all_arrived v && too_wide wide && negb (str_empty wide.1) then range_text wide
    else if negb (str_empty (sv_convergence_error v)) then "; " ++ sv_convergence_error v
    else if negb (str_empty (wo_role (sv_worst v))) then
      worst_text (sv_worst v) ++ " tolerances=[position<=" ++ show_float position_tolerance ++
      ", velocity<=" ++ show_float velocity_tolerance ++ "]"
    else ""))%string.

(** The motors [operation_failed_motors_] names. *)
Definition failed_motors (v : Survey) : list string :=
  if negb (str_empty (sv_unavailable v)) then [sv_unavailable v]
  else if negb (str_empty (wo_role (sv_worst v))) then [wo_role (sv_worst v)]
  else [].

(** ** Watching over a completed motion *)

Section Judge.
Context {B : Type} `{!MotorBackend B}.

(** The hold was unstable for too long: the motion runs again. *)
Definition relapse (now : Z) (v : Survey) (wide : list (string * f32)) (s : Safety B) : Safety B :=
  let error := unstable_error wide v in
  s <| rt_trajectory ::= fun t =>
         forget_range t <| tc_state := MOTION_RUNNING |> <| tc_settling_started_at := now |>
           <| tc_settling_stable_started_at := 0 |> <| tc_hold_unstable_started_at := 0 |>
           <| tc_settled_feedback_samples := 0 |>
           <| tc_stationary_hold_active := sv_all_positions v |>
           <| tc_final_hold_limit_active := sv_all_positions v |> <| tc_error := error |> |>
    <| rt_operation :=
         Build_LastOperation (tc_operation (rt_trajectory s)) OPERATION_FEEDBACK error
           (failed_motors v) |>.

Definition monitor_hold (now : Z) (p : ArrivalPlan) (v : Survey) (s : Safety B) : Safety B :=
  if negb (sv_active v) || negb (sv_any_new v) then s
  else
    let t := extend_range p v (rt_trajectory s
               <| tc_settling_feedback_updates := sv_updates v |>) in
    let wide := if bool_decide (ap_mode p = ModePv)
                then List.filter too_wide (ranges tracked p v t) else [] in
    let started := tc_hold_unstable_started_at t in
    if sv_all_arrived v && (length wide =? 0)%nat then
      s <| rt_trajectory := t <| tc_hold_unstable_started_at := 0 |> |>
    else if started =? 0 then
      s <| rt_trajectory := t <| tc_hold_unstable_started_at := now |> |>
    else if now - started <? kCompletedHoldViolationDuration then s <| rt_trajectory := t |>
    else relapse now v wide (s <| rt_trajectory := t |>).

(** ** Settling *)

(** The limits of the final approach, where the feedback is new. *)
Definition hold_limits (v : Survey) (t : TrajectoryControl) : bool :=
  negb (sv_active_mask v =? 0) &&
  (Z.land (tc_final_hold_limit_mask t) (sv_active_mask v) =? sv_active_mask v).

Definition note_feedback (v : Survey) (t : TrajectoryControl) : TrajectoryControl :=
  let t := t <| tc_settling_feedback_updates := sv_updates v |>
             <| tc_settling_feedback_initialized := true |>
             <| tc_final_hold_limit_mask ::= fun m =>
                  Z.lor (Z.land m (Z.lor (sv_ready_mask v) (u32 (Z.lnot (sv_available_mask v)))))
                    (sv_ready_mask v) |> in
  t <| tc_final_hold_limit_active := hold_limits v t |>.

Definition restart_window (now samples : Z) (t : TrajectoryControl) : TrajectoryControl :=
  forget_range t <| tc_settling_stable_started_at := now |>
    <| tc_settled_feedback_samples := samples |>.

(** New feedback inside the window. *)
Definition settle_inside (now : Z) (managed : bool) (p : ArrivalPlan) (v : Survey)
    (t : TrajectoryControl) : TrajectoryControl :=
  let t :=
    if managed then
      if tc_settling_stable_started_at t =? 0 then restart_window now 0 t else t
    else if negb (tc_stationary_hold_active t) then
      restart_window now 0 t <| tc_stationary_hold_active := true |>
        <| tc_settling_started_at := now |>
    else if tc_settling_stable_started_at t =? 0 then t <| tc_settling_stable_started_at := now |>
    else t in
  extend_range p v t <| tc_settled_feedback_samples ::= u32_succ |>.

(** New feedback outside of it; a joint that only moves while it is held at its
    place is let pass. *)
Definition settle_outside (v : Survey) (t : TrajectoryControl) : TrajectoryControl :=
  if tc_stationary_hold_active t && sv_all_positions v then t
  else
    let t := if sv_all_positions v then t else t <| tc_final_hold_limit_active := false |> in
    restart_window 0 0 t <| tc_stationary_hold_active := false |>.

Definition deadline_managed_final (p : ArrivalPlan) (t : TrajectoryControl) : bool :=
  f64_lt (tc_reference_duration_s t) (tc_duration_s t) && negb (ap_approach p).

(** Whether the motion is complete, and the widest range seen while settling. *)
Definition settle (now : Z) (p : ArrivalPlan) (v : Survey) (t : TrajectoryControl) :
    (bool * (string * f32)) * TrajectoryControl :=
  let fresh := negb (ap_initialized p) || sv_any_new v in
  let t := if fresh then note_feedback v t else t in
  let managed := deadline_managed_final p t in
  let final_feedback :=
    if managed then sv_all_positions v && fresh
    else sv_all_positions v && fresh && (sv_final_ready v || tc_stationary_hold_active t) in
  let t := if sv_all_arrived v && fresh
           then t <| tc_final_hold_limit_active := hold_limits v t |> else t in
  let t := if final_feedback then settle_inside now managed p v t
           else if fresh then settle_outside v t else t in
  let wide := if bool_decide (ap_mode p = ModePv)
              then ranges (fun x => negb (ar_disabled x.1)) p v t else [] in
  let stable_range := negb (existsb too_wide wide) in
  let stable_duration := negb (tc_settling_stable_started_at t =? 0) &&
    (kArrivalStableDuration <=? now - tc_settling_stable_started_at t) in
  let completed := stable_duration && stable_range &&
    (if managed then sv_all_positions v else sv_all_arrived v) &&
    (if managed then sv_final_ready v && ap_deadline p else true) in
  ((completed, widest wide),
   if stable_duration && negb stable_range then
     t <| tc_settling_stable_started_at := now |> <| tc_settled_feedback_samples := 1 |>
       <| tc_settling_position_min := sv_actual v |> <| tc_settling_position_max := sv_actual v |>
   else t).

(** ** The end *)

(** The approach is over: the path proper starts, at its estimated time or, if
    that has gone by, now. *)
Definition finish_approach (now : Z) (s : Safety B) : Safety B :=
  s <| rt_trajectory ::= fun t =>
         let estimated := if f64_lt f64_zero (tc_approach_deadline_s t)
                          then tc_approach_deadline_s t else tc_approach_duration_s t in
         t <| tc_approach_complete := true |>
           <| tc_started_at ::= fun started =>
                if f64_lt estimated (seconds64 (now - started))
                then now - ns_of_seconds estimated else started |>
           <| tc_tracking_updated_at := now |> <| tc_tracking_time_scale := f32_one |>
           <| tc_tracking_position_error := f32_zero |> <| tc_tracking_feedback_valid := false |>
           <| tc_cartesian_reference_updated_elapsed_s := tc_approach_duration_s t |>
           <| tc_cartesian_reference_positions := [] |> <| tc_tracking_pause_started_at := 0 |>
           <| tc_tracking_worst_role := ""%string |> <| tc_settling_started_at := 0 |>
           <| tc_settling_stable_started_at := 0 |> <| tc_hold_unstable_started_at := 0 |>
           <| tc_settled_feedback_samples := 0 |> <| tc_settling_feedback_initialized := false |>
           <| tc_stationary_hold_active := false |> <| tc_final_hold_limit_active := false |>
           <| tc_final_hold_limit_mask := 0 |> <| tc_error := ""%string |> |>
    <| rt_timers ::= fun t => t <| next_control_tick_ := now |> |>.

Definition full_mask (n : nat) : Z :=
  if (32 <=? n)%nat then 2 ^ 32 - 1 else Z.shiftl 1 (Z.of_nat n) - 1.

(** The completed motion holds with the hold limits; the next one starts. *)
Definition finish_motion (now : Z) (mode : ControlMode) (v : Survey) (s : Safety B) : Safety B :=
  let t := rt_trajectory s
    <| tc_state := MOTION_COMPLETED |> <| tc_error := ""%string |>
    <| tc_final_hold_limit_active := true |>
    <| tc_final_hold_limit_mask := full_mask (length (tc_joints (rt_trajectory s))) |>
    <| tc_stationary_hold_active := true |> <| tc_hold_unstable_started_at := 0 |>
    <| tc_settling_position_min := sv_actual v |> <| tc_settling_position_max := sv_actual v |> in
  let held := bool_decide (mode = ModePv) &&
              (length (mb_pv (rt_mailbox s)) =? length (tc_joints t))%nat in
  let s := s <| rt_trajectory := t |>
             <| rt_mailbox ::= fun mb =>
                  if held then
                    mb <| mb_pv ::= fun l => zip_with (fun c j =>
                      Build_ArticorePosVelCommand (pv_motor c) (pv_target_position c)
                        (tj_pv_hold_velocity_limit j)) l (tc_joints t) |>
                  else mb |> in
  match rt_queue s with
  | next :: rest => start_next now next rest s
  | [] => s
  end.

Definition arrival_timeout (t : TrajectoryControl) : f64 :=
  f64_clamp (f64_mul (tc_duration_s t) (f64_lit 1 4)) kMinimumArrivalTimeoutSeconds
    kMaximumArrivalTimeoutSeconds.

Definition estimated_arrival (p : ArrivalPlan) (t : TrajectoryControl) : f64 :=
  if ap_approach p then
    if f64_lt f64_zero (tc_approach_deadline_s t) then tc_approach_deadline_s t
    else tc_approach_duration_s t
  else tc_duration_s t.

(** The motion is given up where it has not arrived in time. *)
Definition end_overdue (now : Z) (p : ArrivalPlan) (v : Survey) (wide : string * f32)
    (s : Safety B) : Safety B :=
  let t := rt_trajectory s in
  let timeout := arrival_timeout t in
  let estimated := estimated_arrival p t in
  if f64_le (f64_add estimated timeout) (seconds64 (now - tc_started_at t)) then
    let error := timeout_error p v wide timeout estimated t in
    let s := terminate_trajectory_locked MOTION_FAULT error s in
    s <| rt_operation := Build_LastOperation (tc_operation (rt_trajectory s))
           OPERATION_FEEDBACK error (failed_motors v) |>
  else s.

(** The second section. *)
Definition judge_completion (now : Z) (p : ArrivalPlan) (v : Survey) (s : Safety B) : Safety B :=
  let t := rt_trajectory s in
  let expected := if ap_monitoring p then MOTION_COMPLETED else MOTION_RUNNING in
  if negb (bool_decide (tc_state t = expected)) || negb (tc_id t =? ap_motion p) then s
  else
    let s := s <| rt_trajectory ::= fun t =>
      if ap_approach p then t <| tc_active_segment := u32 (tc_approach_segment_count t - 1) |>
      else if ap_deadline p
           then t <| tc_active_segment := u32 (Z.of_nat (length (tc_segments t)) - 1) |> else t |> in
    if ap_monitoring p then monitor_hold now p v s
    else
      let '((completed, wide), t) :=
        if sv_active v then settle now p v (rt_trajectory s)
        else ((true, (""%string, f32_zero)), rt_trajectory s) in
      let s := s <| rt_trajectory := t |> in
      if completed then
        if ap_approach p then finish_approach now s else finish_motion now (ap_mode p) v s
      else end_overdue now p v wide s.

Definition update_trajectory_completion (now : Z) : Rt (B := B) unit :=
  do p <- act (begin_completion now);
  match p with
  | None => pret tt
  | Some p => do v <- survey p; write (judge_completion now p v)
  end.

End Judge.
