(* ===== verification/Gravity.v ===== *)
(** * Gravity compensation and bimanual following

    [runtime/src/runtime_gravity.cpp].  The gravity torques of an arm come from
    Pinocchio, which is the class [ArmDynamics]: the generalised gravity of
    the arm on a robot side at a configuration. *)

From Stdlib Require Import String.
From S2P Require Import Prelude Float32 Float64 RuntimeTypes Threads NativeTypes SafetyState Gripper Commands.
#[local] Open Scope mdl_scope.
#[local] Open Scope thread_scope.

Class ArmDynamics := gravity_realtime : Z -> list f64 -> list f64.

Definition kArmDof : nat := 7.

(** ** Bindings *)

Record ArticoreGravityProductBinding := {
  gb_runtime_side : Z;
  gb_robot_side : Z;
  gb_product_id : string
}.

(** What follows the last occurrence of the marker. *)
Fixpoint after_last (marker s : string) : option string :=
  match s with
  | EmptyString => None
  | String _ rest =>
      match after_last marker rest with
      | Some t => Some t
      | None => if String.prefix marker s
                then Some (substring (String.length marker) (String.length s) s) else None
      end
  end.

Definition model_joint_index (name : string) : nat :=
  match after_last "joint" name with
  | Some number =>
      if String.eqb number "1" then 0 else if String.eqb number "2" then 1
      else if String.eqb number "3" then 2 else if String.eqb number "4" then 3
      else if String.eqb number "5" then 4 else if String.eqb number "6" then 5
      else if String.eqb number "7" then 6 else kArmDof
  | None => kArmDof
  end%nat.

Definition kYunyiJointDirection (robot_side : Z) : list f32 :=
  map f32_of_Z (if (robot_side =? 0)%Z then [1; 1; 1; -1; -1; 1; 1]%Z
                else [-1; 1; 1; 1; -1; -1; 1]%Z).
Definition kYunyiLogicalTorqueRange : list f32 := map f32_of_Z [40; 40; 27; 27; 7; 7; 7]%Z.
Definition kYunyiNativeTorqueRange : list f32 := map f32_of_Z [54; 54; 28; 28; 10; 10; 10]%Z.

Definition arm_count_on (motors : list MotorRecord) (side : Z) : nat :=
  length (List.filter (fun m => negb (is_gripper m) && (side_of m =? side)) motors).

(** The motors of a side take their places among the joints. *)
Fixpoint place_joints (motors : list MotorRecord) (joints : list handle) : exn + list handle :=
  match motors with
  | [] => inr joints
  | m :: rest =>
      let joint := model_joint_index (name_of m) in
      if (kArmDof <=? joint)%nat || negb (nth joint joints 0 =? 0)%nat then
        inl (InvalidArgument "gravity arm roles must end in unique joint1..joint7 names")
      else place_joints rest (<[joint := motor_of m]> joints)
  end.

Definition bind_arm (motors : list MotorRecord) (b : ArticoreGravityProductBinding) :
    exn + GravityArm :=
  if negb (arm_count_on motors (gb_runtime_side b) =? kArmDof)%nat then
    inl (InvalidArgument
      "gravity compensation requires exactly seven arm joints per bound side")
  else if negb (String.eqb (gb_product_id b) "yunyi_v1_0") then
    inl (InvalidArgument ("unsupported robot product_id: " ++ gb_product_id b))
  else
    match place_joints
            (List.filter (fun m => negb (is_gripper m) && (side_of m =? gb_runtime_side b)) motors)
            (replicate kArmDof 0%nat) with
    | inl e => inl e
    | inr joints =>
        inr {| ga_runtime_side := gb_runtime_side b; ga_robot_side := gb_robot_side b;
               ga_product_id := gb_product_id b; ga_joints := joints;
               ga_position_directions := kYunyiJointDirection (gb_robot_side b);
               ga_torque_command_scales :=
                 zip_with f32_div kYunyiNativeTorqueRange kYunyiLogicalTorqueRange |}
    end.

Fixpoint bind_arms (motors : list MotorRecord) (seen : list Z)
    (l : list ArticoreGravityProductBinding) : exn + list GravityArm :=
  match l with
  | [] => inr []
  | b :: rest =>
      if (1 <? gb_runtime_side b) || (1 <? gb_robot_side b) || str_empty (gb_product_id b) ||
         bool_decide (gb_runtime_side b ∈ seen) then
        inl (InvalidArgument "invalid gravity product binding")
      else
        match bind_arm motors b with
        | inl e => inl e
        | inr arm =>
            match bind_arms motors (gb_runtime_side b :: seen) rest with
            | inl e => inl e
            | inr arms => inr (arm :: arms)
            end
        end
  end.

(** [std::sort] by the side; there are at most two, on different sides. *)
Definition sort_arms (arms : list GravityArm) : list GravityArm :=
  match arms with
  | [a; b] => if ga_runtime_side b <? ga_runtime_side a then [b; a] else arms
  | _ => arms
  end.

(** ** One cycle of gravity compensation *)

Definition transition_progress (now started duration_ms : Z) : f32 :=
  if duration_ms <=? 0 then f32_one
  else f32_clamp (f32_div (seconds_of_ns (now - started)) (seconds_of_ms duration_ms))
         f32_zero f32_one.

(** The share of the gravity torque at a moment. *)
Definition gravity_scale (phase : ArticoreGravityCompensationPhase) (start progress : f32) : f32 :=
  match phase with
  | GRAVITY_EXITING => f32_mul start (f32_sub f32_one progress)
  | GRAVITY_ACTIVE => f32_one
  | _ => f32_add start (f32_mul (f32_sub f32_one start) progress)
  end.

Definition feedback_valid (rc : Z) (state : ArticoreMotorState) : bool :=
  (rc =? 0) && ams_has_value state && (ams_status_code state =? 1) &&
  f32_isfinite (ams_pos state).

Section Operations.
Context {B : Type} `{!MotorBackend B} `{!ArmDynamics}.

(** [motor_roles_.at(motor)]. *)
Definition role_at (motor : handle) : Rt (B := B) string :=
  do roles <- read rt_roles;
  match roles !! motor with
  | Some role => pret role
  | None => pthrow (OtherException "map::at")
  end.

(** The joints of an arm: the states, or the joint that has none. *)
Definition read_joint (need_velocity : bool)
    (acc : handle + list ArticoreMotorState) (motor : handle) :
    Rt (B := B) (handle + list ArticoreMotorState) :=
  match acc with
  | inl m => pret (inl m)
  | inr l =>
      do r <- bk (Bk_get_state motor);
      pret (if feedback_valid r.1 r.2 && (negb need_velocity || f32_isfinite (ams_vel r.2))
            then inr (l ++ [r.2]) else inl motor)
  end.

Definition read_arm (arm : GravityArm) : Rt (B := B) (handle + list ArticoreMotorState) :=
  pfold (ga_joints arm) (read_joint true) (inr []).

(** The command of one joint, or the text of the error. *)
Definition gravity_command (arm : GravityArm) (joints : gmap handle JointControlConfig)
    (scale : f32) (hold : list f32) (index joint : nat) (motor : handle)
    (state : ArticoreMotorState) (gravity : list f64) : option ArticoreMitCommand :=
  let hold_scale := f32_sub f32_one scale in
  let gains := joints !! motor in
  let torque :=
    f32_mul (f32_mul (f32_mul (nth joint (ga_position_directions arm) f32_zero)
                              (nth joint (ga_torque_command_scales arm) f32_zero))
                     (f32_of_f64 (nth joint gravity f64_zero))) scale in
  if negb (f32_isfinite torque) then None
  else
    Some {| mit_motor := motor;
            mit_target_position :=
              if f32_gt hold_scale f32_zero then nth index hold f32_zero else ams_pos state;
            mit_target_velocity := f32_zero;
            mit_stiffness := f32_mul (match gains with Some g => jc_mit_kp g | None => f32_zero end)
                               hold_scale;
            mit_damping := f32_mul (match gains with Some g => jc_mit_kd g | None => f32_zero end)
                             hold_scale;
            mit_feedforward_torque := torque |}.

(** [joint_configs_.at] and [hold_positions.at] throw where there is no
    entry. *)
Definition gravity_joint (arm : GravityArm) (scale : f32) (hold : list f32)
    (states : list ArticoreMotorState) (gravity : list f64)
    (acc : string + list ArticoreMitCommand) (joint : nat) :
    Rt (B := B) (string + list ArticoreMitCommand) :=
  match acc with
  | inl e => pret (inl e)
  | inr l =>
      do joints <- read rt_joints;
      let motor := nth joint (ga_joints arm) 0%nat in
      let index := length l in
      match joints !! motor with
      | None => pthrow (OtherException "map::at")
      | Some _ =>
          match gravity_command arm joints scale hold index joint motor
                  (nth joint states no_MotorState) gravity with
          | None =>
              do role <- role_at motor;
              pret (inl (role ++ ": gravity feedforward is not finite")%string)
          | Some c =>
              if f32_gt (f32_sub f32_one scale) f32_zero && (length hold <=? index)%nat
              then pthrow (OtherException "vector::at") else pret (inr (l ++ [c]))
          end
      end
  end.

Definition gravity_arm (scale : f32) (hold : list f32) (acc : string + list ArticoreMitCommand)
    (arm : GravityArm) : Rt (B := B) (string + list ArticoreMitCommand) :=
  match acc with
  | inl e => pret (inl e)
  | inr l =>
      do states <- read_arm arm;
      match states with
      | inl motor =>
          do role <- role_at motor;
          pret (inl (role ++ ": gravity compensation requires finite enabled feedback")%string)
      | inr states =>
          let q := zip_with (fun d st => f64_of_f32 (f32_mul d (ams_pos st)))
                     (ga_position_directions arm) states in
          let gravity := gravity_realtime (ga_robot_side arm) q in
          pfold (seq 0 kArmDof) (gravity_joint arm scale hold states gravity) (inr l)
      end
  end.

Definition gravity_status_sent (progress : f32) (applied : list ArticoreMitCommand)
    (g : GravityControl) : GravityControl :=
  let cycles := u64 (gv_control_cycles g + 1) in
  g <| gv_control_cycles := cycles |> <| gv_status_control_cycles := cycles |>
    <| gv_status_transition_progress := progress |>
    <| gv_status_feedforward ::= fun l =>
         map mit_feedforward_torque applied ++ drop (length applied) l |>.

(** The mailbox that takes over when the compensation has been faded out. *)
Definition gravity_hold (requested : list ArticoreMitCommand) : ArmMailbox :=
  no_ArmMailbox <| mb_valid := true |> <| mb_lifetime := COMMAND_HOLD_UNTIL_REPLACED |>
    <| mb_mit := requested |>.

Definition gravity_phase_done (phase : ArticoreGravityCompensationPhase) (progress : f32)
    (requested : list ArticoreMitCommand) (s : Safety B) : Safety B :=
  if negb (f32_ge progress f32_one) then s
  else
    match phase with
    | GRAVITY_ENTERING =>
        s <| rt_gravity ::= fun g => g <| gv_phase := GRAVITY_ACTIVE |>
               <| gv_status_phase := GRAVITY_ACTIVE |>
               <| gv_status_transition_progress := f32_one |> |>
    | GRAVITY_EXITING =>
        s <| rt_mailbox := gravity_hold requested |>
          <| rt_gravity ::= fun g => g <| gv_phase := GRAVITY_INACTIVE |>
               <| gv_status_phase := GRAVITY_INACTIVE |> <| gv_status_active := false |>
               <| gv_status_transition_progress := f32_zero |>
               <| gv_status_feedforward := replicate PRODUCT_DUAL_ARM_DOF f32_zero |> |>
    | _ => s
    end.

(** What the cycle sent is recorded. *)
Definition record_gravity (phase : ArticoreGravityCompensationPhase) (progress : f32)
    (requested applied : list ArticoreMitCommand) (stats : MitTorqueLimitStats) (s : Safety B) :
    Safety B :=
  let s := s <| rt_counters ::= fun c => c <| consecutive_send_failures_ := 0 |> |>
    <| rt_holds ::= fun h => h <| last_sent_mit_ := applied |> <| last_sent_pv_ := [] |> |>
    <| rt_torque_stats ::= fun old =>
         stats <| tl_activation_count :=
           u64 (tl_activation_count old + if tl_limited_joint_mask stats =? 0 then 0 else 1) |> |>
    <| rt_gravity ::= gravity_status_sent progress applied |> in
  gravity_phase_done phase progress requested s.

(** The grippers of a combined cycle. *)
Definition gravity_grippers (include_grippers : bool) (now : Z) :
    Rt (B := B) (string + list ArticoreMitCommand) :=
  if include_grippers then prepare_gripper_commands_locked now else pret (inr []).

Definition send_gravity (now : Z) (phase : ArticoreGravityCompensationPhase) (progress : f32)
    (requested applied grippers : list ArticoreMitCommand) (stats : MitTorqueLimitStats) :
    Rt (B := B) (bool * string) :=
  do rc <- send_mit (grippers ++ applied);
  if negb (rc =? 0) then
    do error <- motor_error "gravity compensation MIT send failed";
    write (fun s : Safety B => s <| rt_counters ::= bump_send_failures |>) ;;;
    pret (false, error)
  else
    write (record_gravity phase progress requested applied stats) ;;;
    commit_gripper_commands_sent grippers now ;;;
    pret (true, ""%string).

(** [run_gravity_control_cycle(now, include_grippers, error)]. *)
Definition run_gravity_control_cycle (now : Z) (include_grippers : bool) :
    Rt (B := B) (bool * string) :=
  do p <- read (fun s : Safety B => (rt_core s, rt_gravity s, rt_gravity_arms s));
  let '(core, g, arms) := p in
  let degraded := bool_decide (state_ core = Degraded) in
  let phase := gv_phase g in
  if bool_decide (phase = GRAVITY_INACTIVE) then pret (true, ""%string)
  else
    let progress :=
      if bool_decide (phase = GRAVITY_ACTIVE) then f32_one
      else transition_progress now (gv_transition_started g) (gv_transition_duration_ms g) in
    let scale := gravity_scale phase (gv_transition_start_gravity_scale g) progress in
    do requested <- pfold arms (gravity_arm scale (gv_hold_positions g)) (inr []);
    match requested with
    | inl error => pret (false, error)
    | inr requested =>
        do limited <- prepare_mit_torque_limited_commands requested
                        (if degraded then f32_lit 25 100 else f32_one);
        match limited with
        | inl error => pret (false, error)
        | inr (applied, stats) =>
            do grippers <- gravity_grippers include_grippers now;
            match grippers with
            | inl error => pret (false, error)
            | inr grippers => send_gravity now phase progress requested applied grippers stats
            end
        end
    end.

(** ** Starting and stopping gravity compensation *)

(** [configure_gravity_products(bindings, count)]. *)
Definition configure_gravity_products (who : nat) (l : list ArticoreGravityProductBinding) :
    Rt (B := B) unit :=
  do motors <- read rt_motors;
  let expected := ((if arm_count_on motors 0 =? 0 then 0 else 1) +
                   (if arm_count_on motors 1 =? 0 then 0 else 1))%nat in
  if negb (length l =? expected)%nat then
    pthrow (InvalidArgument
      "gravity product bindings must cover every active arm side exactly once")
  else
    do arms <- except (bind_arms motors [] l);
    with_lifecycle who (with_command who (
      guarded (fun s : Safety B =>
          if negb (bool_decide (state_ (rt_core s) = Disconnected)) ||
             hardware_transition_ (rt_core s)
          then Some (RuntimeError "gravity product bindings are fixed after connect") else None)
        (fun s : Safety B => (tt, s <| rt_gravity_arms := sort_arms arms |>)))).

(** Both modes need an enabled runtime with nothing else going on. *)
Definition enabled_or_running (c : SafetyCore) : bool :=
  negb (hardware_transition_ c) && negb (fault_latched_ c) &&
  match state_ c with Enabled | Running => true | _ => false end.

Definition gravity_startable (s : Safety B) : option exn :=
  if negb (enabled_or_running (rt_core s)) then
    Some (RuntimeError "gravity compensation requires an enabled Runtime")
  else if negb (bool_decide (mode_ (rt_core s) = ModeMit)) then
    Some (RuntimeError "gravity compensation requires MIT control mode")
  else if negb (bool_decide (gv_phase (rt_gravity s) = GRAVITY_INACTIVE)) then
    Some (RuntimeError "gravity compensation is already active")
  else if bm_active (rt_bimanual s) then
    Some (RuntimeError "gravity compensation cannot replace active bimanual follow")
  else if bool_decide (tc_state (rt_trajectory s) = MOTION_RUNNING) then
    Some (RuntimeError "gravity compensation cannot replace an active trajectory")
  else None.

(** The positions the joints are at; a joint without valid feedback is an
    error. *)
Definition read_position (need_config need_velocity : bool) (no_config no_feedback : string)
    (acc : list f32) (motor : handle) : Rt (B := B) (list f32) :=
  do joints <- read rt_joints;
  if need_config && bool_decide (joints !! motor = None) then pthrow (RuntimeError no_config)
  else
    do r <- bk (Bk_get_state motor);
    if feedback_valid r.1 r.2 && (negb need_velocity || f32_isfinite (ams_vel r.2))
    then pret (acc ++ [ams_pos r.2])
    else
      do role <- role_at motor;
      pthrow (RuntimeError (role ++ no_feedback)).

Definition read_positions (need_config need_velocity : bool) (no_feedback : string)
    (arms : list GravityArm) : Rt (B := B) (list f32) :=
  pfold (flat_map ga_joints arms)
    (read_position need_config need_velocity
       "gravity compensation requires joint torque-limit configuration" no_feedback) [].

Definition enter_gravity (now transition_ms : Z) (positions : list f32) (s : Safety B) :
    Safety B :=
  s <| rt_pending := no_ArmMailbox |> <| rt_mailbox := no_ArmMailbox |>
    <| rt_gravity :=
         {| gv_phase := GRAVITY_ENTERING; gv_transition_started := now;
            gv_transition_duration_ms := transition_ms;
            gv_transition_start_gravity_scale := f32_zero; gv_hold_positions := positions;
            gv_control_cycles := 0; gv_status_phase := GRAVITY_ENTERING;
            gv_status_active := true; gv_status_transition_progress := f32_zero;
            gv_status_control_cycles := 0;
            gv_status_joint_count := Z.of_nat (length (rt_gravity_arms s) * kArmDof);
            gv_status_feedforward := replicate PRODUCT_DUAL_ARM_DOF f32_zero |} |>
    <| rt_bimanual ::= reset_bimanual_follow_locked |>
    <| rt_core ::= fun c => c <| has_successful_command_ := true |> <| state_ := Running |> |>
    <| rt_timers ::= fun t => t <| last_successful_command_ := now |>
                                <| next_control_tick_ := now |> |>.

(** [start_gravity_compensation(config)]: the transition time of the
    configuration, 0 or no configuration standing for the default. *)
Definition start_gravity_compensation (who : nat) (config : option Z) : Rt (B := B) unit :=
  let transition_ms := match config with
                       | Some ms => if ms =? 0 then 500 else ms | None => 500 end in
  if 60000 <? transition_ms then
    pthrow (InvalidArgument "gravity compensation transition_ms exceeds 60000")
  else
    with_lifecycle who (with_command who (
      guarded gravity_startable (fun s => (tt, s)) ;;;
      do arms <- read rt_gravity_arms;
      match arms with
      | [] => pthrow (RuntimeError "gravity product models are not configured")
      | _ =>
          do positions <- read_positions true true
            ": gravity compensation requires finite enabled feedback" arms;
          do now <- clock_now;
          write (enter_gravity now transition_ms positions)
      end)).

Definition gravity_stoppable (c : SafetyCore) : bool :=
  negb (hardware_transition_ c) && negb (fault_latched_ c) &&
  match state_ c with Enabled | Running | Degraded => true | _ => false end.

(** [stop_gravity_compensation()]: the compensation fades out from the share it
    has reached. *)
Definition stop_check (s : Safety B) : exn + option f32 :=
  let g := rt_gravity s in
  if bool_decide (gv_phase g = GRAVITY_INACTIVE) then inr None
  else if negb (gravity_stoppable (rt_core s)) then
    inl (RuntimeError "gravity compensation cannot stop in the current Runtime state")
  else
    inr (Some (if bool_decide (gv_phase g = GRAVITY_ENTERING) then
                 gravity_scale GRAVITY_ENTERING (gv_transition_start_gravity_scale g)
                   (transition_progress (rt_clock s) (gv_transition_started g)
                      (gv_transition_duration_ms g))
               else f32_one)).

Definition exit_gravity (now : Z) (scale : f32) (positions : list f32) (s : Safety B) :
    Safety B :=
  s <| rt_gravity ::= fun g => g <| gv_phase := GRAVITY_EXITING |>
         <| gv_transition_started := now |> <| gv_transition_start_gravity_scale := scale |>
         <| gv_hold_positions := positions |> <| gv_status_phase := GRAVITY_EXITING |>
         <| gv_status_active := true |> <| gv_status_transition_progress := f32_zero |> |>
    <| rt_timers ::= fun t => t <| next_control_tick_ := now |> |>.

Definition stop_gravity_compensation (who : nat) : Rt (B := B) unit :=
  with_lifecycle who (with_command who (
    do checked <- read stop_check;
    do scale <- except checked;
    match scale with
    | None => pret tt
    | Some scale =>
        do arms <- read rt_gravity_arms;
        do positions <- read_positions false false
          ": current position is unavailable while leaving gravity compensation" arms;
        do now <- clock_now;
        write (exit_gravity now scale positions)
    end)).

(** ** Starting and stopping bimanual following *)

Definition bimanual_startable (s : Safety B) : option exn :=
  let mb := rt_mailbox s in
  let n := match mode_ (rt_core s) with
           | ModePv => length (mb_pv mb) | ModeMit => length (mb_mit mb) end in
  if negb (enabled_or_running (rt_core s)) then
    Some (RuntimeError "bimanual follow requires a fully enabled Runtime")
  else if negb (bool_decide (gv_phase (rt_gravity s) = GRAVITY_INACTIVE)) then
    Some (RuntimeError "bimanual follow cannot replace active gravity compensation")
  else if bool_decide (tc_state (rt_trajectory s) = MOTION_RUNNING) then
    Some (RuntimeError "bimanual follow cannot replace an active trajectory")
  else if negb (mb_valid mb) || negb (mb_joint_position mb) || negb (n =? 2 * kArmDof)%nat then
    Some (RuntimeError "bimanual follow requires an ordinary current-position PV/MIT hold")
  else None.

Definition bimanual_error : string := ": bimanual follow requires fresh enabled feedback".

(** One joint: configured, with fresh feedback of an enabled motor. *)
Definition fresh_position (acc : list f32) (motor : handle) : Rt (B := B) (list f32) :=
  do p <- read (fun s : Safety B => (rt_joints s !! motor, feedback_max_age_ns (rt_config s)));
  let refuse := do role <- role_at motor; pthrow (RuntimeError (role ++ bimanual_error)) in
  match p.1 with
  | None => refuse
  | Some _ =>
      do state <- fetch_fresh p.2 motor;
      match state with
      | Some st =>
          if (ams_status_code st =? 1) && f32_isfinite (ams_pos st) && f32_isfinite (ams_vel st)
          then pret (acc ++ [ams_pos st]) else refuse
      | None => refuse
      end
  end.

(** The seven positions of a side. *)
Definition side_positions (positions : list f32) (side : Z) : list f32 :=
  take kArmDof (drop (Z.to_nat side * kArmDof) positions).

Definition start_follow (now leader_side : Z) (positions : list f32) (s : Safety B) : Safety B :=
  let follower := 1 - leader_side in
  let directions side := ga_position_directions (nth (Z.to_nat side) (rt_gravity_arms s) no_GravityArm) in
  let logical side := zip_with f32_mul (directions side) (side_positions positions side) in
  s <| rt_pending := no_ArmMailbox |>
    <| rt_bimanual :=
         {| bm_active := true; bm_leader_side := leader_side; bm_start_positions := positions;
            bm_follower_reference := side_positions positions follower;
            bm_follower_reference_velocity := replicate kArmDof f32_zero;
            bm_status_phase := BIMANUAL_FOLLOW_ACTIVE; bm_status_active := true;
            bm_status_leader_side := leader_side; bm_status_follower_side := follower;
            bm_status_transition_progress := f32_zero; bm_status_control_cycles := 0;
            bm_status_leader_positions := logical leader_side;
            bm_status_follower_target_positions := logical follower;
            bm_status_max_tracking_error := f32_zero; bm_status_error := "" |} |>
    <| rt_core ::= fun c => c <| has_successful_command_ := true |> <| state_ := Running |> |>
    <| rt_timers ::= fun t => t <| last_successful_command_ := now |>
                                <| next_control_tick_ := now |> |>.

Definition both_arms (arms : list GravityArm) : bool :=
  match arms with
  | [l; r] => (ga_runtime_side l =? 0) && (ga_runtime_side r =? 1)
  | _ => false
  end.

(** [start_bimanual_follow(leader_side)]. *)
Definition start_bimanual_follow (who : nat) (leader_side : Z) : Rt (B := B) unit :=
  if negb ((leader_side =? 0) || (leader_side =? 1)) then
    pthrow (InvalidArgument "bimanual leader side must be left or right")
  else
    with_lifecycle who (with_command who (
      guarded bimanual_startable (fun s => (tt, s)) ;;;
      do arms <- read rt_gravity_arms;
      if negb (both_arms arms) then
        pthrow (RuntimeError "bimanual follow requires complete left and right product models")
      else
        do positions <- pfold (flat_map ga_joints arms) fresh_position [];
        do now <- clock_now;
        write (start_follow now leader_side positions))).

(** [stop_bimanual_follow()]: every joint is held where it is; the commands are
    replaced one by one until the layout turns out to be lost. *)
Definition hold_pv (motor : handle) (position : f32) (mb : ArmMailbox) : exn + ArmMailbox :=
  match list_find (fun c => pv_motor c = motor) (mb_pv mb) with
  | None => inl (RuntimeError "PV bimanual hold lost the product layout")
  | Some (i, c) =>
      if negb (length (mb_pv_reference_velocities mb) =? length (mb_pv mb))%nat then
        inl (RuntimeError "PV bimanual reference state lost the product layout")
      else
        inr (mb <| mb_pv ::= <[i := Build_ArticorePosVelCommand motor position
                                      (pv_velocity_limit c)]> |>
                <| mb_final_positions ::= <[i := position]> |>
                <| mb_pv_reference_positions ::= fun l =>
                     if (length l =? length (mb_pv mb))%nat then <[i := position]> l else l |>
                <| mb_pv_reference_velocities ::= <[i := f32_zero]> |>
                <| mb_pv_hold_confirmation_cycles ::= <[i := 0]> |>
                <| mb_pv_stationary_hold ::= <[i := false]> |>)
  end.

Definition hold_mit (motor : handle) (position : f32) (mb : ArmMailbox) : exn + ArmMailbox :=
  match list_find (fun c => mit_motor c = motor) (mb_mit mb) with
  | None => inl (RuntimeError "MIT bimanual hold lost the product layout")
  | Some (i, c) =>
      inr (mb <| mb_mit ::= <[i := c <| mit_target_position := position |>
                                     <| mit_target_velocity := f32_zero |>
                                     <| mit_feedforward_torque := f32_zero |>]> |>
              <| mb_final_positions ::= <[i := position]> |>)
  end.

Fixpoint hold_joints (mode : ControlMode) (l : list (handle * f32)) (mb : ArmMailbox) :
    option exn * ArmMailbox :=
  match l with
  | [] => (None, mb)
  | (motor, position) :: rest =>
      match (match mode with ModePv => hold_pv | ModeMit => hold_mit end) motor position mb with
      | inl e => (Some e, mb)
      | inr mb => hold_joints mode rest mb
      end
  end.

Definition stop_follow (joints : list (handle * f32)) (s : Safety B) : option exn * Safety B :=
  let '(e, mb) := hold_joints (mode_ (rt_core s)) joints (rt_mailbox s) in
  let s := s <| rt_mailbox := mb |> in
  match e with
  | Some e => (Some e, s)
  | None => (None, s <| rt_bimanual ::= reset_bimanual_follow_locked |>)
  end.

Definition stop_bimanual_follow (who : nat) : Rt (B := B) unit :=
  with_lifecycle who (with_command who (
    do active <- read (fun s : Safety B => bm_active (rt_bimanual s));
    if negb active then pret tt
    else
      do arms <- read rt_gravity_arms;
      do positions <- read_positions false false
        ": current position is unavailable while stopping bimanual follow" arms;
      do e <- act (stop_follow (combine (flat_map ga_joints arms) positions));
      rejected e)).

(** [gravity_compensation_status()] and [bimanual_follow_status()]. *)
Definition gravity_compensation_status : Rt (B := B) GravityControl := read rt_gravity.
Definition bimanual_follow_status : Rt (B := B) BimanualFollowControl := read rt_bimanual.

End Operations.
