(* ===== verification/ArmCycle.v ===== *)
(** * The arm control cycle

    [run_arm_control_cycle] of [runtime/src/runtime_commands.cpp]: the newest
    command is taken, shaped towards its target, scaled down while degraded,
    limited in torque, combined with the grippers and sent.  The control trace,
    which is off unless an environment variable names a file, is left out; it
    sends nothing. *)

From Stdlib Require Import String.
From S2P Require Import Prelude Float32 FloatOrder Float64 PvShaping RuntimeTypes Threads NativeTypes Trajectory SafetyState Motions Gripper Safety Feedback Disable Faults Commands TrajectoryCycle Completion Gravity.
#[local] Open Scope mdl_scope.
#[local] Open Scope thread_scope.

(** ** Ordinary position-velocity control, one joint *)

Record PvRow := {
  row_motor : handle;
  row_final : f32;
  row_maximum_velocity : f32;
  row_maximum_acceleration : f32;
  row_drive : f32;
  row_confirmations : Z;
  row_hold : bool;
  row_hold_target : f32
}.

Definition quarter : f32 := f32_lit 25 100.
Definition scale_of (degraded : bool) : f32 := if degraded then quarter else f32_one.

Definition pv_row (mb : ArmMailbox) (command_scale : f32) (i : nat) (c : ArticorePosVelCommand) :
    PvRow :=
  {| row_motor := pv_motor c;
     row_final := nth i (mb_final_positions mb) f32_zero;
     row_maximum_velocity :=
       f32_mul (if mb_pv_per_joint_profile mb
                then nth i (mb_pv_reference_velocity_limits mb) f32_zero
                else mb_pv_velocity_limit mb) command_scale;
     row_maximum_acceleration :=
       f32_mul (f32_mul (if mb_pv_per_joint_profile mb
                         then nth i (mb_pv_reference_acceleration_limits mb) f32_zero
                         else mb_max_reference_acceleration mb) command_scale) command_scale;
     row_drive := nth i (mb_pv_drive_velocity_commands mb) f32_zero;
     row_confirmations := nth i (mb_pv_hold_confirmation_cycles mb) 0;
     row_hold := nth i (mb_pv_stationary_hold mb) false;
     row_hold_target := nth i (mb_pv_hold_target_positions mb) f32_zero |}.

(** The hold after fresh feedback: released when the joint drifts or the target
    moves, entered after enough cycles at the target. *)
Definition settle_hold (error actual_vel feedback_scale : f32) (r : PvRow) : PvRow :=
  let shift := f32_abs (f32_sub (row_final r) (row_hold_target r)) in
  let with_hold confirmations hold target :=
    {| row_motor := row_motor r; row_final := row_final r;
       row_maximum_velocity := row_maximum_velocity r;
       row_maximum_acceleration := row_maximum_acceleration r; row_drive := row_drive r;
       row_confirmations := confirmations; row_hold := hold; row_hold_target := target |} in
  if row_hold r then
    if f32_gt error kNativeOrdinaryPvHoldReleaseTolerance ||
       f32_gt shift kNativeOrdinaryPvHoldTargetTolerance
    then with_hold 0 false (row_final r) else r
  else if f32_le error kNativeOrdinaryPvHoldPositionTolerance &&
     f32_le (f32_abs actual_vel) (f32_div kNativeOrdinaryPvHoldVelocityTolerance feedback_scale) &&
     f32_le shift kNativeOrdinaryPvHoldTargetTolerance then
    let confirmations :=
      if row_confirmations r <? kNativeOrdinaryPvHoldConfirmationCycles
      then u16 (row_confirmations r + 1) else row_confirmations r in
    with_hold confirmations (kNativeOrdinaryPvHoldConfirmationCycles <=? confirmations)
      (row_hold_target r)
  else with_hold 0 false (row_final r).

Definition shape_pv (period_s feedback_scale : f32) (fresh : option ArticoreMotorState)
    (r : PvRow) : ArticorePosVelCommand * PvRow :=
  let '(limit, r) :=
    match fresh with
    | Some actual =>
        let error := f32_abs (f32_sub (ams_pos actual) (row_final r)) in
        (advance_ordinary_pv_drive_velocity (row_drive r) (ams_vel actual) error
           (f32_div (row_maximum_velocity r) feedback_scale)
           (f32_div (row_maximum_acceleration r) feedback_scale) period_s,
         settle_hold error (ams_vel actual) feedback_scale r)
    | None =>
        (f32_zero,
         if row_hold r then r
         else {| row_motor := row_motor r; row_final := row_final r;
                 row_maximum_velocity := row_maximum_velocity r;
                 row_maximum_acceleration := row_maximum_acceleration r;
                 row_drive := row_drive r; row_confirmations := 0; row_hold := false;
                 row_hold_target := row_final r |})
    end in
  let velocity := if row_hold r then kNativePvFinalHoldVelocityLimit else limit in
  (Build_ArticorePosVelCommand (row_motor r) (row_final r) velocity,
   {| row_motor := row_motor r; row_final := row_final r;
      row_maximum_velocity := row_maximum_velocity r;
      row_maximum_acceleration := row_maximum_acceleration r;
      row_drive := if row_hold r then f32_zero else limit;
      row_confirmations := row_confirmations r; row_hold := row_hold r;
      row_hold_target := row_hold_target r |}).

(** ** The mailbox of ordinary joint position control *)

Definition mailbox_consistent (mode : ControlMode) (mb : ArmMailbox) : bool :=
  let n := match mode with
           | ModePv => length (mb_pv mb) | ModeMit => length (mb_mit mb) end in
  let m := length (mb_pv mb) in
  (n =? length (mb_final_positions mb))%nat && f32_isfinite (mb_max_reference_velocity mb) &&
  negb (f32_lt (mb_max_reference_velocity mb) f32_zero) &&
  match mode with
  | ModeMit => true
  | ModePv =>
      (length (mb_pv_reference_positions mb) =? m)%nat &&
      (length (mb_pv_reference_velocities mb) =? m)%nat &&
      (length (mb_pv_drive_velocity_commands mb) =? m)%nat &&
      (negb (mb_pv_per_joint_profile mb) ||
       ((length (mb_pv_reference_velocity_limits mb) =? m)%nat &&
        (length (mb_pv_reference_acceleration_limits mb) =? m)%nat)) &&
      f32_isfinite (mb_max_reference_acceleration mb) &&
      negb (f32_le (mb_max_reference_acceleration mb) f32_zero) &&
      f32_isfinite (mb_pv_velocity_limit mb) && negb (f32_lt (mb_pv_velocity_limit mb) f32_zero)
  end.

(** The hold bookkeeping starts afresh where its size does not fit. *)
Definition reset_holds (mb : ArmMailbox) : ArmMailbox :=
  let n := length (mb_pv mb) in
  if (length (mb_pv_hold_confirmation_cycles mb) =? n)%nat &&
     (length (mb_pv_stationary_hold mb) =? n)%nat &&
     (length (mb_pv_hold_target_positions mb) =? n)%nat then mb
  else
    mb <| mb_pv_hold_confirmation_cycles := replicate n 0 |>
       <| mb_pv_stationary_hold := replicate n false |>
       <| mb_pv_hold_target_positions := mb_final_positions mb |>.

Definition install_rows (rows : list (ArticorePosVelCommand * PvRow)) (mb : ArmMailbox) :
    ArmMailbox :=
  mb <| mb_pv := map fst rows |>
     <| mb_pv_reference_positions := map (fun r => row_final r.2) rows |>
     <| mb_pv_reference_velocities := map (fun _ => f32_zero) rows |>
     <| mb_pv_drive_velocity_commands := map (fun r => row_drive r.2) rows |>
     <| mb_pv_hold_confirmation_cycles := map (fun r => row_confirmations r.2) rows |>
     <| mb_pv_stationary_hold := map (fun r => row_hold r.2) rows |>
     <| mb_pv_hold_target_positions := map (fun r => row_hold_target r.2) rows |>.

Definition advance_mit (max_delta : f32) (mb : ArmMailbox) : ArmMailbox :=
  mb <| mb_mit ::= fun l => zip_with (fun c final =>
       c <| mit_target_position ::= fun p =>
              if mb_mit_direct mb then final else advance_pv_position_reference p final max_delta |>
         <| mit_target_velocity := f32_zero |> <| mit_feedforward_torque := f32_zero |>)
       l (mb_final_positions mb) |>.

(** ** Scaling *)

Definition degrade_pv (degraded : bool) (l : list ArticorePosVelCommand) :
    list ArticorePosVelCommand :=
  if degraded then
    map (fun c => Build_ArticorePosVelCommand (pv_motor c) (pv_target_position c)
                    (f32_mul (pv_velocity_limit c) quarter)) l
  else l.

Definition degrade_mit (degraded : bool) (l : list ArticoreMitCommand) : list ArticoreMitCommand :=
  if degraded then map (fun c => c <| mit_target_velocity ::= fun v => f32_mul v quarter |>) l
  else l.

Definition enabled_pv (disabled : gset handle) (l : list ArticorePosVelCommand) :
    list ArticorePosVelCommand :=
  List.filter (fun c => negb (bool_decide (pv_motor c ∈ disabled))) l.
Definition enabled_mit (disabled : gset handle) (l : list ArticoreMitCommand) :
    list ArticoreMitCommand :=
  List.filter (fun c => negb (bool_decide (mit_motor c ∈ disabled))) l.

(** ** Bimanual following *)

(** What the cycle knows of the two arms; the lists have one entry per joint. *)
Record Follow := {
  fo_reference : list f32;
  fo_reference_velocity : list f32;
  fo_leader_positions : list f32;
  fo_follower_positions : list f32;
  fo_tracking_error : f32
}.

Definition find_pv (l : list ArticorePosVelCommand) (motor : handle) :
    option (nat * ArticorePosVelCommand) := list_find (fun c => pv_motor c = motor) l.
Definition find_mit (l : list ArticoreMitCommand) (motor : handle) :
    option (nat * ArticoreMitCommand) := list_find (fun c => mit_motor c = motor) l.

Definition leader_reference (mode : ControlMode) (mb : ArmMailbox) (motor : handle) :
    option f32 :=
  match mode with
  | ModePv => option_map (fun x => pv_target_position x.2) (find_pv (mb_pv mb) motor)
  | ModeMit => option_map (fun x => mit_target_position x.2) (find_mit (mb_mit mb) motor)
  end.

Definition mode_name (mode : ControlMode) : string :=
  match mode with ModePv => "PV" | ModeMit => "MIT" end.

Definition bimanual_limit_error (role : string) (direction desired : f32)
    (limits : JointControlConfig) : string :=
  let positive := f32_gt direction f32_zero in
  let lower := if positive then soft_lower_position limits
               else f32_opp (soft_upper_position limits) in
  let upper := if positive then soft_upper_position limits
               else f32_opp (soft_lower_position limits) in
  (role ++ ": bimanual target=" ++ fixed_six (f32_mul direction desired) ++
   " rad exceeds product limits=[" ++ fixed_six lower ++ ", " ++ fixed_six upper ++ "] rad")%string.

(** The follower's position-velocity command for one joint. *)
Definition follow_pv (config : ArticoreRuntimeConfig) (command_scale period_s : f32)
    (limits : JointControlConfig) (profile_index joint : nat) (desired : f32)
    (follower : ArticoreMotorState) (index : nat) (c : ArticorePosVelCommand) (f : Follow)
    (mb : ArmMailbox) : (f32 * f32) * ArmMailbox :=
  let profile := mb_pv_per_joint_profile mb in
  let velocity :=
    f32_mul (if profile then nth profile_index (mb_pv_reference_velocity_limits mb) f32_zero
             else mb_max_reference_velocity mb) command_scale in
  let acceleration :=
    f32_mul (if profile then nth profile_index (mb_pv_reference_acceleration_limits mb) f32_zero
             else mb_max_reference_acceleration mb)
      (if profile then f32_mul command_scale command_scale else f32_one) in
  let '(position, speed) :=
    if profile then (desired, f32_zero)
    else
      let step := advance_acceleration_limited_pv_reference
        (nth joint (fo_reference f) f32_zero) (nth joint (fo_reference_velocity f) f32_zero)
        desired velocity acceleration period_s in
      (step_position step, step_velocity step) in
  let feedback_scale := velocity_feedback_scale limits in
  let limit :=
    if profile then
      advance_ordinary_pv_drive_velocity
        (nth index (mb_pv_drive_velocity_commands mb) f32_zero) (ams_vel follower)
        (f32_abs (f32_sub position (ams_pos follower))) (f32_div velocity feedback_scale)
        (f32_div acceleration feedback_scale) period_s
    else f32_max (safe_pv_velocity_limit config) (mb_pv_velocity_limit mb) in
  ((position, speed),
   mb <| mb_pv ::= <[index := Build_ArticorePosVelCommand (pv_motor c) position limit]> |>
      <| mb_pv_reference_velocities ::= <[index := speed]> |>
      <| mb_final_positions ::= <[index := desired]> |>
      <| mb_pv_hold_confirmation_cycles ::= <[index := 0]> |>
      <| mb_pv_stationary_hold ::= <[index := false]> |>
      <| mb_pv_hold_target_positions ::= <[index := desired]> |>
      <| mb_pv_drive_velocity_commands ::=
           fun l => if profile then <[index := limit]> l else l |>).

Definition follow_mit (max_delta desired : f32) (joint index : nat) (c : ArticoreMitCommand)
    (f : Follow) (mb : ArmMailbox) : f32 * ArmMailbox :=
  let position :=
    if mb_mit_direct mb then desired
    else advance_pv_position_reference (nth joint (fo_reference f) f32_zero) desired max_delta in
  (position,
   mb <| mb_mit ::= <[index := c <| mit_target_position := position |>
                                 <| mit_target_velocity := f32_zero |>
                                 <| mit_feedforward_torque := f32_zero |>]> |>
      <| mb_final_positions ::= <[index := desired]> |>).

Definition followed (joint : nat) (leader_direction follower_direction : f32)
    (leader follower : ArticoreMotorState) (position speed : f32) (f : Follow) : Follow :=
  let follower_position := f32_mul follower_direction (ams_pos follower) in
  {| fo_reference := <[joint := position]> (fo_reference f);
     fo_reference_velocity := <[joint := speed]> (fo_reference_velocity f);
     fo_leader_positions := <[joint := f32_mul leader_direction (ams_pos leader)]>
                              (fo_leader_positions f);
     fo_follower_positions := <[joint := follower_position]> (fo_follower_positions f);
     fo_tracking_error := f32_max (fo_tracking_error f)
       (f32_abs (f32_sub (f32_mul follower_direction position) follower_position)) |}.

(** ** After the frame is sent *)

Definition sent_sides (active : list bool) (sides : list SideHealth) : list SideHealth :=
  fold_left (fun l side =>
    if active_side active side
    then update_side side (fun h => h <| sh_send_failures := 0 |> <| sh_healthy := true |>) l
    else l) both_sides sides.

(** What the tracking check of a Cartesian motion found. *)
Record Tracking := { tk_error : f32; tk_worst : option handle; tk_valid : bool }.

Definition cartesian_running (t : TrajectoryControl) : bool :=
  bool_decide (tc_state t = MOTION_RUNNING) && native_cartesian_operation (tc_operation t) &&
  tc_approach_complete t.

Definition record_tracking (k : Tracking) (t : TrajectoryControl) : TrajectoryControl :=
  if cartesian_running t then
    t <| tc_tracking_position_error := tk_error k |> <| tc_tracking_feedback_valid := tk_valid k |>
      <| tc_tracking_worst_role :=
           match tk_worst k with
           | Some motor =>
               if tk_valid k then
                 match find (fun j => bool_decide (tj_motor j = motor)) (tc_joints t) with
                 | Some j => tj_role j
                 | None => ""%string
                 end
               else ""%string
           | None => ""%string
           end |>
  else t.

Definition record_follow (leader_side : Z) (directions : list f32) (f : Follow)
    (b : BimanualFollowControl) : BimanualFollowControl :=
  {| bm_active := bm_active b; bm_leader_side := bm_leader_side b;
     bm_start_positions := bm_start_positions b; bm_follower_reference := fo_reference f;
     bm_follower_reference_velocity := fo_reference_velocity f;
     bm_status_phase := BIMANUAL_FOLLOW_ACTIVE; bm_status_active := true;
     bm_status_leader_side := leader_side; bm_status_follower_side := 1 - leader_side;
     bm_status_transition_progress := f32_one;
     bm_status_control_cycles := u64 (bm_status_control_cycles b + 1);
     bm_status_leader_positions := fo_leader_positions f;
     bm_status_follower_target_positions := zip_with f32_mul directions (fo_reference f);
     bm_status_max_tracking_error := fo_tracking_error f;
     bm_status_error := bm_status_error b |}.

Section Operations.
Context {B : Type} `{!MotorBackend B} `{!ArmDynamics}.

(** ** Shaping *)

(** Fresh feedback of an enabled motor with finite position and velocity. *)
Definition fetch_enabled (motor : handle) : Rt (B := B) (option ArticoreMotorState) :=
  do age <- read (fun s : Safety B => feedback_max_age_ns (rt_config s));
  do state <- fetch_fresh age motor;
  pret (match state with
        | Some st =>
            if (ams_status_code st =? 1) && f32_isfinite (ams_pos st) && f32_isfinite (ams_vel st)
            then Some st else None
        | None => None
        end).

Definition shape_row (period_s : f32) (rows : list (ArticorePosVelCommand * PvRow)) (r : PvRow) :
    Rt (B := B) (list (ArticorePosVelCommand * PvRow)) :=
  do fresh <- fetch_enabled (row_motor r);
  do joint <- read (fun s : Safety B => rt_joints s !! row_motor r);
  let scale := match joint with Some j => velocity_feedback_scale j | None => f32_one end in
  pret (rows ++ [shape_pv period_s scale fresh r]).

Definition period_of (hz : Z) : f32 := f32_div f32_one (f32_of_Z hz).

(** The block on [arm_mailbox_.joint_position]. *)
Definition shape_mailbox (mode : ControlMode) (degraded : bool) : Rt (B := B) unit :=
  do p <- read (fun s : Safety B => (rt_mailbox s, rt_control_hz s));
  let '(mb, hz) := p in
  if negb (mb_joint_position mb) then pret tt
  else if negb (mailbox_consistent mode mb) then
    pthrow (RuntimeError "ordinary joint position state is internally inconsistent")
  else
    let command_scale := scale_of degraded in
    match mode with
    | ModePv =>
        let mb := reset_holds mb in
        let rows := map (fun x => pv_row mb command_scale x.1 x.2)
                      (combine (seq 0 (length (mb_pv mb))) (mb_pv mb)) in
        do shaped <- pfold rows (shape_row (period_of hz)) [];
        write (fun s : Safety B => s <| rt_mailbox := install_rows shaped mb |>)
    | ModeMit =>
        let max_delta := f32_div (f32_mul (mb_max_reference_velocity mb) command_scale)
                           (f32_of_Z hz) in
        write (fun s : Safety B => s <| rt_mailbox := advance_mit max_delta mb |>)
    end.

(** ** Bimanual following, one joint *)

Definition fetch_pair (leader follower : handle) :
    Rt (B := B) (option (ArticoreMotorState * ArticoreMotorState)) :=
  do age <- read (fun s : Safety B => feedback_max_age_ns (rt_config s));
  let fresh st := match st with Some x => afs_age_ns x <=? age | None => false end in
  do ls <- fetch_stats leader;
  if negb (fresh ls) then pret None
  else
    do fs <- fetch_stats follower;
    if negb (fresh fs) then pret None
    else
      do l <- bk (Bk_get_state leader);
      if negb (l.1 =? 0) then pret None
      else
        do f <- bk (Bk_get_state follower);
        let ok st := ams_has_value st && (ams_status_code st =? 1) &&
                     f32_isfinite (ams_pos st) && f32_isfinite (ams_vel st) in
        pret (if (f.1 =? 0) && ok l.2 && ok f.2 then Some (l.2, f.2) else None).

Definition follow_joint (mode : ControlMode) (degraded : bool) (leader_side : Z)
    (starts : list f32) (acc : string + Follow) (joint : nat) : Rt (B := B) (string + Follow) :=
  match acc with
  | inl e => pret (inl e)
  | inr f =>
    do s <- read (fun s : Safety B =>
      (rt_gravity_arms s, rt_roles s, rt_control_hz s, rt_config s));
    let '(arms, roles, hz, config) := s in
    let arm side := nth (Z.to_nat side) arms no_GravityArm in
    let follower_side := 1 - leader_side in
    let leader_motor := nth joint (ga_joints (arm leader_side)) 0%nat in
    let follower_motor := nth joint (ga_joints (arm follower_side)) 0%nat in
    let role motor := default ""%string (roles !! motor) in
    do pair <- fetch_pair leader_motor follower_motor;
    match pair with
    | None => pret (inl (role leader_motor ++ " / " ++ role follower_motor ++
                         ": bimanual follow requires fresh enabled feedback")%string)
    | Some (leader, follower) =>
      let leader_direction := nth joint (ga_position_directions (arm leader_side)) f32_zero in
      let follower_direction := nth joint (ga_position_directions (arm follower_side)) f32_zero in
      do mb <- read rt_mailbox;
      match leader_reference mode mb leader_motor with
      | None => pret (inl (mode_name mode ++
                  " bimanual follow lost the leader product layout")%string)
      | Some reference =>
        let start side := nth (Z.to_nat side * PRODUCT_ARM_DOF + joint) starts f32_zero in
        let desired := f32_add (start follower_side)
          (f32_mul (f32_mul follower_direction leader_direction)
                   (f32_sub reference (start leader_side))) in
        do limits <- read (joint_config follower_motor);
        do limits <- except limits;
        if negb (f32_isfinite desired) || f32_lt desired (soft_lower_position limits) ||
           f32_gt desired (soft_upper_position limits) then
          pret (inl (bimanual_limit_error (role follower_motor) follower_direction desired limits))
        else
          let scale := scale_of degraded in
          let done position speed := followed joint leader_direction follower_direction leader
                                       follower position speed f in
          match mode with
          | ModePv =>
              match find_pv (mb_pv mb) follower_motor with
              | None => pret (inl "PV bimanual follow lost the follower product layout"%string)
              | Some (index, c) =>
                  let profile_index := (Z.to_nat follower_side * PRODUCT_ARM_DOF + joint)%nat in
                  let '((position, speed), mb') :=
                    follow_pv config scale (period_of hz) limits profile_index joint desired
                      follower index c f mb in
                  write (fun s : Safety B => s <| rt_mailbox := mb' |>) ;;;
                  pret (inr (done position speed))
              end
          | ModeMit =>
              match find_mit (mb_mit mb) follower_motor with
              | None => pret (inl "MIT bimanual follow lost the follower product layout"%string)
              | Some (index, c) =>
                  let max_delta := f32_div (f32_mul (mb_max_reference_velocity mb) scale)
                                     (f32_of_Z hz) in
                  let '(position, mb') := follow_mit max_delta desired joint index c f mb in
                  write (fun s : Safety B => s <| rt_mailbox := mb' |>) ;;;
                  pret (inr (done position (nth joint (fo_reference_velocity f) f32_zero)))
              end
          end
      end
    end
  end.

(** The whole block, where following is active. *)
Definition follow_cycle (mode : ControlMode) (degraded : bool) (b : BimanualFollowControl) :
    Rt (B := B) (string + Follow) :=
  let zero := replicate PRODUCT_ARM_DOF f32_zero in
  let start := Build_Follow (bm_follower_reference b) (bm_follower_reference_velocity b)
                 zero zero f32_zero in
  if negb (bm_active b) then pret (inr start)
  else
    do mb <- read rt_mailbox;
    if negb (mb_joint_position mb) ||
       negb (length (bm_start_positions b) =? 2 * PRODUCT_ARM_DOF)%nat then
      pret (inl "bimanual follow requires an ordinary PV/MIT position command"%string)
    else
      pfold (seq 0 PRODUCT_ARM_DOF)
        (follow_joint mode degraded (bm_leader_side b) (bm_start_positions b)) (inr start).

(** ** The batches *)

Record Batch := {
  ba_pv : list ArticorePosVelCommand;
  ba_mit : list ArticoreMitCommand;
  ba_grippers : list ArticoreMitCommand;
  ba_stats : MitTorqueLimitStats
}.

Definition prepare_batch (mode : ControlMode) (degraded include_grippers : bool)
    (disabled : gset handle) (now : Z) : Rt (B := B) (string + Batch) :=
  do mb <- read rt_mailbox;
  match mode with
  | ModePv =>
      pret (inr (Build_Batch (enabled_pv disabled (degrade_pv degraded (mb_pv mb))) [] []
                   fresh_TorqueLimitStats))
  | ModeMit =>
      do limited <- prepare_mit_torque_limited_commands
                      (enabled_mit disabled (degrade_mit degraded (mb_mit mb)))
                      (scale_of degraded);
      match limited with
      | inl error => pret (inl error)
      | inr (mit, stats) =>
          if include_grippers then
            do grippers <- prepare_gripper_commands_locked now;
            pret (match grippers with
                  | inl error => inl error
                  | inr l => inr (Build_Batch [] mit l stats)
                  end)
          else pret (inr (Build_Batch [] mit [] stats))
      end
  end.

(** Grippers go first; nothing is sent where there is nothing. *)
Definition send_batch (mode : ControlMode) (b : Batch) : Rt (B := B) Z :=
  match mode with
  | ModePv => match ba_pv b with [] => pret 0 | l => send_pos_vel l end
  | ModeMit => match ba_grippers b ++ ba_mit b with [] => pret 0 | l => send_mit l end
  end.

Definition send_failure_text (mode : ControlMode) (b : Batch) : string :=
  match mode with
  | ModePv => "ControllerGroup PV send failed"
  | ModeMit => match ba_grippers b with
               | [] => "ControllerGroup MIT send failed"
               | _ => "combined arm/gripper ControllerGroup MIT send failed"
               end
  end.

Definition record_send_failure (error : string) (s : Safety B) : Safety B :=
  s <| rt_counters ::= bump_send_failures |>
    <| rt_sides ::= fun sides =>
         fold_left (fun l side => if active_side (rt_active_sides s) side
                                  then set_side_error_locked side error true l else l)
           both_sides sides |>.

(** The joints a Cartesian motion is tracked on; the first one without fresh
    feedback ends the check. *)
Definition track_joint (mask : Z) (k : Tracking) (x : nat * ArticorePosVelCommand) :
    Rt (B := B) Tracking :=
  if negb (tk_valid k) || negb (Z.testbit mask (Z.of_nat x.1)) then pret k
  else
    do age <- read (fun s : Safety B => feedback_max_age_ns (rt_config s));
    do state <- fetch_fresh age (pv_motor x.2);
    pret (match state with
          | Some st =>
              if negb (ams_status_code st =? 1) || negb (f32_isfinite (ams_pos st)) then
                Build_Tracking (tk_error k) (tk_worst k) false
              else
                let error := f32_abs (f32_sub (ams_pos st) (pv_target_position x.2)) in
                if f32_gt error (tk_error k)
                then Build_Tracking error (Some (pv_motor x.2)) true else k
          | None => Build_Tracking (tk_error k) (tk_worst k) false
          end).

Definition track_motion (adaptive : bool) (mask : Z) (l : list ArticorePosVelCommand) :
    Rt (B := B) Tracking :=
  if adaptive && negb (length l =? 0)%nat then
    pfold (combine (seq 0 (length l)) l) (track_joint mask) (Build_Tracking f32_zero None true)
  else pret (Build_Tracking f32_zero None false).

(** The last section: what was sent is recorded, and the first user command
    makes an enabled runtime run. *)
Definition record_sent (mode : ControlMode) (now : Z) (b : Batch) (adaptive : bool) (k : Tracking)
    (bimanual : bool) (leader_side : Z) (f : Follow) (user_command : bool) (generation : Z)
    (s : Safety B) : Safety B :=
  let s := s <| rt_counters ::= fun c => c <| consecutive_send_failures_ := 0 |> |> in
  let s :=
    match mode with
    | ModePv =>
        s <| rt_holds ::= fun h => h <| last_sent_pv_ := ba_pv b |> <| last_sent_mit_ := [] |> |>
          <| rt_trajectory ::= fun t => if adaptive then record_tracking k t else t |>
    | ModeMit =>
        s <| rt_holds ::= fun h => h <| last_sent_mit_ := ba_mit b |> <| last_sent_pv_ := [] |> |>
          <| rt_torque_stats ::= fun old =>
               ba_stats b <| tl_activation_count :=
                 u64 (tl_activation_count old +
                      if tl_limited_joint_mask (ba_stats b) =? 0 then 0 else 1) |> |>
    end in
  let s := s <| rt_sides ::= sent_sides (rt_active_sides s) |> in
  let directions := ga_position_directions
    (nth (Z.to_nat (1 - leader_side)) (rt_gravity_arms s) no_GravityArm) in
  let s := s <| rt_bimanual ::= fun bm =>
             if bimanual && bm_active bm then record_follow leader_side directions f bm else bm |> in
  if negb user_command then s
  else
    let newer := mb_sent_generation (rt_mailbox s) <? generation in
    s <| rt_core ::= fun c =>
           let c := c <| has_successful_command_ := true |> <| first_command_accepted_ := false |> in
           if bool_decide (state_ c = Enabled) then c <| state_ := Running |> else c |>
      <| rt_mailbox ::= fun mb =>
           if newer then mb <| mb_sent_generation := generation |> else mb |>
      <| rt_timers ::= fun t => if newer then t <| last_successful_command_ := now |> else t |>.

(** ** [run_arm_control_cycle(now, include_grippers, error)] *)

Definition finish_cycle (mode : ControlMode) (now : Z) (adaptive : bool) (mask : Z)
    (bimanual : BimanualFollowControl) (f : Follow) (user_command : bool) (generation : Z)
    (completing : bool) (b : Batch) : Rt (B := B) (bool * string) :=
  do rc <- send_batch mode b;
  if negb (rc =? 0) then
    do error <- motor_error (send_failure_text mode b);
    write (record_send_failure error) ;;;
    pret (false, error)
  else
    do k <- track_motion (adaptive && bool_decide (mode = ModePv)) mask (ba_pv b);
    write (record_sent mode now b adaptive k (bm_active bimanual) (bm_leader_side bimanual) f
             user_command generation) ;;;
    commit_gripper_commands_sent (ba_grippers b) now ;;;
    pwhen completing (update_trajectory_completion now) ;;;
    pret (true, ""%string).

Definition dispatch_cycle (core : SafetyCore) (adaptive : bool) (mask : Z)
    (bimanual : BimanualFollowControl) (disabled : gset handle) (now : Z)
    (include_grippers completing : bool) : Rt (B := B) (bool * string) :=
  let mode := mode_ core in
  let degraded := bool_decide (state_ core = Degraded) in
  do mb <- read rt_mailbox;
  if negb (mb_valid mb) then pret (true, ""%string)
  else
    shape_mailbox mode degraded ;;;
    do followed <- follow_cycle mode degraded bimanual;
    match followed with
    | inl error => pret (false, error)
    | inr f =>
        do batch <- prepare_batch mode degraded include_grippers disabled now;
        match batch with
        | inl error => pret (false, error)
        | inr b =>
            finish_cycle mode now adaptive mask bimanual f (mb_user_command mb)
              (mb_generation mb) completing b
        end
    end.

Definition run_arm_control_cycle (who : nat) (now : Z) (include_grippers : bool) :
    Rt (B := B) (bool * string) :=
  with_command who (
    do s <- read (fun s : Safety B =>
      (rt_core s, rt_gravity s, rt_trajectory s, rt_bimanual s, rt_intentionally_disabled s));
    let '(core, gravity, t, bimanual, disabled) := s in
    if negb (gripper_control_state core) then pret (true, ""%string)
    else if negb (bool_decide (gv_phase gravity = GRAVITY_INACTIVE)) then
      run_gravity_control_cycle now include_grippers
    else
      do plan <- act (prepare_trajectory_cycle now);
      if negb (str_empty (cy_error plan)) then pret (false, cy_error plan)
      else
        pwhen (negb (cy_active plan)) (write consume_pending) ;;;
        dispatch_cycle core (cartesian_running t) (tc_cartesian_tracking_joint_mask t) bimanual
          disabled now include_grippers (cy_completing plan)).

End Operations.
