(* ===== verification/SafetyWorker.v ===== *)
(** * The safety worker

    [worker_loop] of [runtime/src/runtime_worker.cpp], one round at a time: the
    worker waits, decides under [state_mutex_] what is due, and does it.  The
    round ends with [None] when the worker returns. *)

From Stdlib Require Import String.
From S2P Require Import Prelude Float32 Float64 PvShaping RuntimeTypes Threads NativeTypes SafetyState Motions Gripper Safety Feedback Disable Faults Commands TrajectoryCycle Completion Gravity ArmCycle.
#[local] Open Scope mdl_scope.
#[local] Open Scope thread_scope.

(** ** What is due *)

Record Due := {
  due_grace : bool;
  due_timeout : bool;
  due_ready_feedback : bool;
  due_feedback : bool;
  due_arm : bool;
  due_hold : bool;
  due_gripper : bool;
  due_combined : bool
}.

Definition period_ns (hz : Z) : Z := 1000000000 / hz.
Definition idle_poll_period : Z := milliseconds_ns 2.
Definition ready_period (c : ArticoreRuntimeConfig) : Z :=
  period_ns (Z.min (feedback_check_hz c) 10).

(** RUNNING, DEGRADED and PARTIALLY_ENABLED; with ENABLED, the states in which
    motors are driven; the states that hold a position. *)
Definition running_state (st : SafetyState) : bool :=
  match st with Running | Degraded | PartiallyEnabled => true | _ => false end.
Definition holding_state (st : SafetyState) : bool :=
  match st with SafeHold | SafeStop => true | _ => false end.
Definition estop_holding (c : SafetyCore) : bool :=
  bool_decide (state_ c = Fault) && emergency_stop_latched_ c && fault_hold_active_ c.

(** The enable grace period is over without a command. *)
Definition grace_expired (config : ArticoreRuntimeConfig) (now : Z) (c : SafetyCore)
    (t : SafetyTimers) : bool :=
  bool_decide (state_ c = Enabled) && negb (enable_transaction_ c) &&
  (milliseconds_ns (enable_grace_ms config) <=? now - enabled_at_ t) &&
  negb (has_successful_command_ c) && negb (first_command_accepted_ c) &&
  (active_command_planning_token_ c =? 0).

(** The command watchdog. *)
Definition command_expired (config : ArticoreRuntimeConfig) (now : Z) (c : SafetyCore)
    (t : SafetyTimers) (mb : ArmMailbox) : bool :=
  running_state (state_ c) && has_successful_command_ c && mb_user_command mb &&
  bool_decide (mb_lifetime mb = COMMAND_STREAMING) &&
  (milliseconds_ns (command_timeout_ms config) <=? now - last_successful_command_ t).

Definition feedback_state (c : SafetyCore) : bool :=
  running_state (state_ c) || holding_state (state_ c) || estop_holding c.

(** [advance_periodic_deadline] where something is due. *)
Definition advance_if (due : bool) (deadline period now : Z) : Z :=
  if due then advance_periodic_deadline deadline period now else deadline.

Section Worker.
Context {B : Type} `{!MotorBackend B} `{!ArmDynamics}.

Definition decide_due (now : Z) (s : Safety B) : Due * Safety B :=
  let c := rt_core s in
  let t := rt_timers s in
  let config := rt_config s in
  let st := state_ c in
  let period := period_ns (rt_control_hz s) in
  let grace := grace_expired config now c t in
  let timeout := negb grace && command_expired config now c t (rt_mailbox s) in
  let arm := command_state st && (next_control_tick_ t <=? now) in
  let ready := bool_decide (st = Ready) && (next_ready_feedback_ t <=? now) in
  let feedback := feedback_state c && (next_feedback_check_ t <=? now) in
  let hold := holding_state st && (next_safe_hold_ t <=? now) in
  let gripper := negb (enable_transaction_ c) && command_state st &&
    (next_gripper_control_ t <=? now) &&
    existsb (fun m => is_gripper m && has_gripper_target m) (rt_motors s) in
  let combined := arm && gripper && bool_decide (mode_ c = ModeMit) in
  let fault_hold := bool_decide (st = Fault) && fault_hold_active_ c && (next_safe_hold_ t <=? now) in
  ({| due_grace := grace; due_timeout := timeout; due_ready_feedback := ready;
      due_feedback := feedback; due_arm := arm; due_hold := hold || fault_hold;
      due_gripper := gripper && negb combined; due_combined := combined |},
   s <| rt_core := if grace then c <| enable_grace_transition_ := true |> else c |>
     <| rt_timers := t
          <| next_control_tick_ ::= fun d => advance_if arm d period now |>
          <| next_ready_feedback_ ::= fun d => advance_if ready d (ready_period config) now |>
          <| next_feedback_check_ ::=
               fun d => advance_if feedback d (period_ns (feedback_check_hz config)) now |>
          <| next_safe_hold_ ::=
               fun d => advance_if (hold || fault_hold) d (period_ns (safe_hold_hz config)) now |>
          <| next_gripper_control_ ::= fun d => advance_if gripper d period now |> |>).

(** ** Waiting *)

(** The moment the worker wakes up at the latest. *)
Definition wake_deadline (s : Safety B) : Z :=
  let c := rt_core s in
  let t := rt_timers s in
  let deadline := rt_clock s + idle_poll_period in
  if hardware_transition_ c then deadline
  else if bool_decide (state_ c = Ready) && negb (next_ready_feedback_ t =? 0)
  then Z.min deadline (next_ready_feedback_ t)
  else if command_state (state_ c) && negb (next_control_tick_ t =? 0)
  then Z.min deadline (next_control_tick_ t)
  else deadline.

Inductive Wake := Stop | Skip | Go.

Definition wait_wakeup : Rt (B := B) Wake :=
  do deadline <- read wake_deadline;
  await (fun s : Safety B => stopping_ (rt_core s) || (deadline <=? rt_clock s))
        (fun s : Safety B =>
           if stopping_ (rt_core s) then (Stop, s <| rt_worker_done := true |>)
           else (if hardware_transition_ (rt_core s) then Skip else Go, s)).

(** ** The parts of a round *)

(** A safe stop, or a fault where none is possible. *)
Definition stop_or_fault (who : nat) (reason fault_reason : string) : Rt (B := B) unit :=
  do r <- enter_safe_stop who reason;
  if r.1 then pret tt else enter_fault who (fault_reason ++ r.2)%string false true.

Definition on_grace (who : nat) : Rt (B := B) unit :=
  stop_or_fault who "enable grace expired before the first successful command"
    "enable grace expired and protective hold is unavailable: ".

Definition on_timeout (who : nat) : Rt (B := B) unit :=
  stop_or_fault who "command watchdog timed out"
    "command watchdog timed out; protective hold unavailable: ".

(** While READY the motors are asked for feedback. *)
Definition ready_sides (complete : bool) (error : string) (active : list bool)
    (sides : list SideHealth) : list SideHealth :=
  fold_left (fun l side =>
    if negb (active_side active side) then l
    else update_side side (fun h =>
      if complete then
        h <| sh_healthy := sh_connected h && sh_transport_healthy h |>
          <| sh_last_error := ""%string |>
      else
        let h := h <| sh_healthy := false |> in
        if str_empty error then h else h <| sh_last_error := error |>) l) both_sides sides.

Definition record_ready (complete : bool) (error : string) (s : Safety B) : Safety B :=
  let s := if complete then s else s <| rt_counters ::= bump_feedback_failures |> in
  s <| rt_sides ::= ready_sides complete error (rt_active_sides s) |>.

Definition on_ready_feedback (who : nat) : Rt (B := B) unit :=
  do r <- with_command who (
    do p <- read (fun s : Safety B =>
      (negb (hardware_transition_ (rt_core s)) && bool_decide (state_ (rt_core s) = Ready),
       disable_feedback_timeout_ms (rt_config s)));
    if negb p.1 then pret None
    else
      do requested <- request_feedback_parallel p.2 "";
      let '(complete, missing, error) := requested in
      do valid <- validate_fresh_feedback_snapshot missing error;
      pret (Some (valid.1 && complete, valid.2)));
  match r with
  | None => pret tt
  | Some (complete, error) => write (record_ready complete error)
  end.

(** [update_maximum]. *)
Definition update_maximum (candidate current : Z) : Z := Z.max candidate current.

Definition count_tick (now : Z) (s : Safety B) : Safety B :=
  let last := last_control_tick_ (rt_timers s) in
  let period := u64 (now - last) in
  s <| rt_counters ::= fun c =>
         let c := c <| control_ticks_ ::= fun n => u64 (n + 1) |> in
         if last =? 0 then c
         else
           c <| maximum_control_period_ns_ ::= update_maximum period |>
             <| control_overruns_ ::= fun n =>
                  if period_ns (rt_control_hz s) <? period then u64 (n + 1) else n |> |>
    <| rt_timers ::= fun t => t <| last_control_tick_ := now |> |>.

(** The arm cycle: whether the round goes on. *)
Definition on_arm (who : nat) (now : Z) (combined : bool) : Rt (B := B) bool :=
  write (count_tick now) ;;;
  do started <- clock_now;
  do sent <- run_arm_control_cycle who now combined;
  do finished <- clock_now;
  write (fun s : Safety B => s <| rt_counters ::= fun c =>
    c <| maximum_send_time_ns_ ::= update_maximum (u64 (finished - started)) |> |>) ;;;
  if sent.1 then pret true
  else
    do p <- read (fun s : Safety B =>
      (consecutive_send_failures_ (rt_counters s), feedback_failure_threshold (rt_config s)));
    if (0 <? p.1) && (p.1 <? Z.max 1 p.2) then pret false
    else
      fault_trajectory sent.2 ;;;
      stop_or_fault who ("arm control cycle failed: " ++ sent.2)%string
        ("arm control cycle failed: " ++ sent.2 ++ "; protective hold unavailable: ")%string ;;;
      pret false.

(** What a failed feedback check leads to. *)
Inductive Escalation := NoEscalation | ToDegraded | ToSafeStop.

Definition escalate (severe : bool) (s : Safety B) : Escalation * Safety B :=
  let s := s <| rt_counters ::= bump_feedback_failures |> in
  let failures := consecutive_feedback_failures_ (rt_counters s) in
  let threshold := feedback_failure_threshold (rt_config s) in
  let st := state_ (rt_core s) in
  (if severe then NoEscalation
   else if bool_decide (st = Degraded) && (threshold * 3 <=? failures) then ToSafeStop
   else if bool_decide (st = Running) && (threshold <=? failures) then ToDegraded
   else NoEscalation, s).

Definition on_unhealthy (who : nat) (error : string) : Rt (B := B) unit :=
  let severe := severe_text error in
  do e <- act (escalate severe);
  if severe then enter_fault who error false true
  else
    match e with
    | ToSafeStop =>
        stop_or_fault who ("feedback safety timeout: " ++ error)%string
          "feedback safety timeout; protective hold unavailable: "
    | ToDegraded => enter_degraded ("sustained feedback delay: " ++ error)%string
    | NoEscalation => pret tt
    end.

(** The feedback check: whether the round goes on. *)
Definition on_feedback (who : nat) : Rt (B := B) bool :=
  do r <- with_command who (
    do active <- read (fun s : Safety B =>
      negb (hardware_transition_ (rt_core s)) && feedback_state (rt_core s));
    if negb active then pret None
    else
      do healthy <- refresh_feedback_health false false "";
      pret (Some (healthy.1.1, healthy.1.2)));
  match r with
  | None => pret false
  | Some (true, _) => pret true
  | Some (false, error) => on_unhealthy who error ;;; pret false
  end.

Definition on_gripper (who : nat) : Rt (B := B) bool :=
  do r <- run_gripper_control_once who;
  match r with
  | None => pret true
  | Some error =>
      (if str_contains "batch failed" error then
         write (fun s : Safety B => s <| rt_counters ::= bump_send_failures |>) ;;;
         stop_or_fault who ("gripper control send failed: " ++ error)%string
           ("gripper control send failed: " ++ error ++ "; protective hold unavailable: ")%string
       else enter_fault who ("gripper control fault: " ++ error)%string false true) ;;;
      pret false
  end.

(** The hold: the failures in a row, and whether they make a fault. *)
Definition hold_failed (error : string) (s : Safety B) : bool * Safety B :=
  let faulted := bool_decide (state_ (rt_core s) = Fault) in
  let s := s <| rt_counters ::= fun c =>
             (bump_send_failures c) <| consecutive_hold_failures_ ::= u32_succ |> |> in
  let fault := safe_hold_failure_threshold (rt_config s) <=?
               consecutive_hold_failures_ (rt_counters s) in
  (fault && negb faulted,
   s <| rt_core ::= fun c =>
     if faulted && negb (str_empty error) && negb (str_contains error (fault_reason_ c))
     then c <| fault_reason_ ::= fun r => (r ++ "; protective hold send: " ++ error)%string |>
     else c |>).

Definition on_hold (who : nat) : Rt (B := B) unit :=
  do r <- send_safe_hold_once who;
  if r.1 then write (fun s : Safety B => s <| rt_counters ::= reset_hold_failures |>)
  else
    do fault <- act (hold_failed r.2);
    if fault then enter_fault who ("safe hold failed: " ++ r.2)%string false true else pret tt.

(** ** A round *)

(** [if (due) { ... continue; }]: the part, then the rest if it goes on. *)
Definition part (due : bool) (p : Rt (B := B) bool) (rest : Rt (B := B) unit) :
    Rt (B := B) unit :=
  if due then do more <- p; if more then rest else pret tt else rest.

Definition perform (who : nat) (now : Z) (d : Due) : Rt (B := B) unit :=
  if due_grace d then on_grace who
  else if due_timeout d then on_timeout who
  else if due_ready_feedback d then on_ready_feedback who
  else
    part (due_arm d) (on_arm who now (due_combined d))
      (part (due_feedback d) (on_feedback who)
        (part (due_gripper d) (on_gripper who)
          (if due_hold d then on_hold who else pret tt))).

Definition worker_round (who : nat) : Rt (B := B) (option unit) :=
  do wake <- wait_wakeup;
  match wake with
  | Stop => pret None
  | Skip => pret (Some tt)
  | Go =>
      do now <- clock_now;
      do due <- act (decide_due now);
      perform who now due ;;;
      pret (Some tt)
  end.

End Worker.
