(* ===== verification/Health.v ===== *)
(** * The report of the safety runtime

    [SafetyRuntime::health] ([runtime/src/runtime_safety.cpp]) and
    [record_operation_result] ([runtime_maintenance.cpp]).  The report is
    assembled under [command_mutex_] and [state_mutex_]; the members that only
    carry a text are not cut off at the length of their array. *)

From Stdlib Require Import String.
From S2P Require Import Prelude Float32 RuntimeTypes Threads NativeTypes SafetyState Gripper Safety Maintenance.
#[local] Open Scope mdl_scope.
#[local] Open Scope thread_scope.

(** ** The structs *)

Record ArticoreTransportHealth := {
  ath_connected : bool;
  ath_healthy : bool;
  ath_consecutive_send_failures : Z;
  ath_consecutive_feedback_failures : Z;
  ath_last_feedback_age_ns : Z;
  ath_tx_frames : Z;
  ath_rx_frames : Z;
  ath_send_errors : Z;
  ath_receive_errors : Z;
  ath_last_tx_age_ns : Z;
  ath_last_rx_age_ns : Z;
  ath_last_error : string
}.

Record ArticoreGripperHealth := {
  gh_available : bool;
  gh_side : Z;
  gh_control_state : ArticoreGripperControlState;
  gh_opening : f32;
  gh_motor_position : f32;
  gh_torque : f32;
  gh_contact_detected : bool;
  gh_stalled : bool;
  gh_overload : bool;
  gh_has_hold_target : bool;
  gh_hold_target : f32;
  gh_feedback_age_ns : Z;
  gh_name : string;
  gh_fault_reason : string
}.

(** The counts beside the arrays are the lengths of the lists. *)
Record ArticoreSafetyHealth := {
  ah_state : SafetyState;
  ah_safe_holding : bool;
  ah_disable_confirmed : bool;
  ah_last_successful_command_age_ns : Z;
  ah_last_fresh_feedback_age_ns : Z;
  ah_consecutive_send_failures : Z;
  ah_consecutive_feedback_failures : Z;
  ah_left_transport : ArticoreTransportHealth;
  ah_right_transport : ArticoreTransportHealth;
  ah_feedback_issue_count : Z;
  ah_feedback_issue_scope : ArticoreFeedbackIssueScope;
  ah_motor_feedback : list ArticoreMotorFeedbackHealth;
  ah_grippers : list ArticoreGripperHealth;
  ah_motor_faults : list string;
  ah_unconfirmed_disable : list string;
  ah_fault_reason : string;
  ah_last_operation : ArticoreRuntimeOperation;
  ah_last_operation_code : ArticoreOperationError;
  ah_operation_failed_motors : list string;
  ah_last_operation_error : string;
  ah_degraded : bool;
  ah_safe_stopped : bool;
  ah_requires_resynchronization : bool;
  ah_command_scale : f32;
  ah_safety_reason : string;
  ah_control_ticks : Z;
  ah_control_overruns : Z;
  ah_maximum_control_period_ns : Z;
  ah_maximum_send_time_ns : Z
}.

(** ** Parts of the report *)

(** [detail::age_ns]. *)
Definition age_ns (value : Z) (available : bool) (now : Z) : Z :=
  if available then Z.max 0 (now - value) else no_age.

Definition transport_report (h : SideHealth) : ArticoreTransportHealth := {|
  ath_connected := sh_connected h; ath_healthy := sh_healthy h;
  ath_consecutive_send_failures := sh_send_failures h;
  ath_consecutive_feedback_failures := sh_feedback_failures h;
  ath_last_feedback_age_ns := sh_last_feedback_age_ns h;
  ath_tx_frames := sh_tx_frames h; ath_rx_frames := sh_rx_frames h;
  ath_send_errors := sh_send_errors h; ath_receive_errors := sh_receive_errors h;
  ath_last_tx_age_ns := sh_last_tx_age_ns h; ath_last_rx_age_ns := sh_last_rx_age_ns h;
  ath_last_error := sh_last_error h |}.

(** The states in which the motors have to be powered. *)
Definition power_expected (st : SafetyState) : bool :=
  match st with
  | Enabled | Running | Degraded | PartiallyEnabled | SafeHold | SafeStop => true
  | Disconnected | Ready | Fault => false
  end.

(** An item with the issue of an unexpected power state. *)
Definition powered_item (st : SafetyState) (disabled : gset handle)
    (x : ArticoreMotorFeedbackHealth * MotorRecord) : ArticoreMotorFeedbackHealth :=
  let '(item, m) := x in
  if fh_has_state item && (fh_status_code item =? 0) && power_expected st &&
     negb (bool_decide (motor_of m ∈ disabled))
  then item <| fh_issues ::= fun i => Z.lor i FEEDBACK_ISSUE_UNEXPECTED_POWER_STATE |>
  else item.

Definition gripper_report (m : MotorRecord) (age : Z) : ArticoreGripperHealth := {|
  gh_available := true; gh_side := side_of m; gh_control_state := gripper_state m;
  gh_opening := if has_position m then position_to_opening m (last_position m)
                else requested_opening m;
  gh_motor_position := last_position m; gh_torque := last_torque m;
  gh_contact_detected := contact_detected m; gh_stalled := stalled m; gh_overload := overload m;
  gh_has_hold_target := protective_target_active m || retreat_active m || has_gripper_target m;
  gh_hold_target := if retreat_active m then retreat_target m
                    else if protective_target_active m then protective_target m
                    else command_position m;
  gh_feedback_age_ns := age; gh_name := name_of m; gh_fault_reason := gripper_fault_reason m |}.

(** [requires_resynchronization] and the scale of new commands. *)
Definition resynchronizes (st : SafetyState) : bool :=
  match st with Degraded | SafeStop => true | _ => false end.

Definition command_scale (st : SafetyState) : f32 :=
  match st with
  | Degraded => f32_lit 25 100
  | SafeStop => f32_zero
  | _ => f32_of_Z 1
  end.

Definition holding (c : SafetyCore) : bool :=
  match state_ c with
  | SafeHold | SafeStop => true
  | Fault => fault_hold_active_ c
  | _ => false
  end.

Section Report.
Context {B : Type} `{!MotorBackend B}.

(** The age of the feedback of a gripper: from the drivers where the runtime is
    connected and they know it. *)
Definition live_age (m : MotorRecord) : Rt (B := B) Z :=
  do st <- read (fun s : Safety B => state_ (rt_core s));
  if bool_decide (st = Disconnected) then pret (feedback_age_ns m)
  else
    do stats <- fetch_stats (motor_of m);
    pret match stats with Some x => afs_age_ns x | None => feedback_age_ns m end.

(** The first two grippers. *)
Definition report_gripper (l : list ArticoreGripperHealth) (m : MotorRecord) :
    Rt (B := B) (list ArticoreGripperHealth) :=
  if negb (is_gripper m) || (2 <=? length l)%nat then pret l
  else do age <- live_age m; pret (l ++ [gripper_report m age]).

Definition health_report (s : Safety B) (now : Z) (items : list ArticoreMotorFeedbackHealth)
    (grippers : list ArticoreGripperHealth) : ArticoreSafetyHealth :=
  let c := rt_core s in
  let k := rt_counters s in
  let t := rt_timers s in
  let judged := map (powered_item (state_ c) (rt_intentionally_disabled s))
                    (combine (take 32 items) (rt_motors s)) in
  {| ah_state := state_ c; ah_safe_holding := holding c;
     ah_disable_confirmed := disable_confirmed_ c;
     ah_last_successful_command_age_ns :=
       age_ns (last_successful_command_ t) (has_successful_command_ c) now;
     ah_last_fresh_feedback_age_ns :=
       age_ns (last_fresh_feedback_ t) (negb (last_fresh_feedback_ t =? 0)) now;
     ah_consecutive_send_failures := consecutive_send_failures_ k;
     ah_consecutive_feedback_failures := consecutive_feedback_failures_ k;
     ah_left_transport := transport_report (side_health (rt_sides s) 0);
     ah_right_transport := transport_report (side_health (rt_sides s) 1);
     ah_feedback_issue_count := count_if (fun i => negb (fh_issues i =? FEEDBACK_ISSUE_NONE)) judged;
     ah_feedback_issue_scope :=
       classify_feedback_issue_scope (rt_active_sides s) (rt_sides s)
         (feedback_max_age_ns (rt_config s)) (judged ++ drop 32 items);
     ah_motor_feedback := judged; ah_grippers := grippers;
     ah_motor_faults := take 32 (rt_motor_faults s);
     ah_unconfirmed_disable := take 32 (rt_unconfirmed_disable s);
     ah_fault_reason := fault_reason_ c;
     ah_last_operation := last_operation_ (rt_operation s);
     ah_last_operation_code := last_operation_code_ (rt_operation s);
     ah_operation_failed_motors := take 32 (operation_failed_motors_ (rt_operation s));
     ah_last_operation_error := last_operation_error_ (rt_operation s);
     ah_degraded := bool_decide (state_ c = Degraded);
     ah_safe_stopped := bool_decide (state_ c = SafeStop);
     ah_requires_resynchronization := resynchronizes (state_ c);
     ah_command_scale := command_scale (state_ c); ah_safety_reason := safety_reason_ c;
     ah_control_ticks := control_ticks_ k; ah_control_overruns := control_overruns_ k;
     ah_maximum_control_period_ns := maximum_control_period_ns_ k;
     ah_maximum_send_time_ns := maximum_send_time_ns_ k |}.

(** [health()]: under both mutexes. *)
Definition health (who : nat) : Rt (B := B) ArticoreSafetyHealth :=
  do now <- clock_now;
  with_command who (
    atomically (
      do items <- collect_motor_feedback_health;
      do motors <- read rt_motors;
      do grippers <- pfold motors report_gripper [];
      do s <- read (fun s : Safety B => s);
      pret (health_report s now items grippers))).

(** ** [record_operation_result] *)

(** Whether a failed operation explains itself in [fault_reason_]. *)
Definition explains (c : SafetyCore) (operation : ArticoreRuntimeOperation)
    (code : ArticoreOperationError) (error : string) : bool :=
  negb (emergency_stop_latched_ c) &&
  match operation with
  | OPERATION_COMMAND | OPERATION_CANCEL_MOTION | OPERATION_STOP_MOTION => false
  | _ => true
  end &&
  negb (ok_code code) && negb (str_empty error) &&
  negb (fault_latched_ c && match code with OPERATION_INVALID_STATE => true | _ => false end).

Definition operation_recorded (operation : ArticoreRuntimeOperation)
    (code : ArticoreOperationError) (error : string) (failed : list string) (s : Safety B) :
    Safety B :=
  s <| rt_operation := Build_LastOperation operation code error failed |>
    <| rt_core ::= fun c =>
         if explains c operation code error
         then c <| fault_reason_ := (operation_name operation ++ " failed: " ++ error)%string |>
         else c |>.

Definition record_operation_result (operation : ArticoreRuntimeOperation)
    (code : ArticoreOperationError) (error : string) : Rt (B := B) unit :=
  write (operation_recorded operation code error []).

(** [control_mode()]. *)
Definition control_mode : Rt (B := B) ControlMode :=
  read (fun s : Safety B => mode_ (rt_core s)).

End Report.
