(* ===== verification/Yunyi.v ===== *)
(** * The Yunyi product

    The tables and the construction of the two-armed robot:
    [detail/yunyi_runtime.hpp], [detail/yunyi_product.hpp] and the parts of
    [runtime/src/yunyi_runtime.cpp] that turn the motors found on the two
    channels into a configured [SafetyRuntime].  The controllers and their
    motors lie behind the class [MotorBackend]; a motor that was not found is
    the handle 0. *)

From Stdlib Require Import String.
From S2P Require Import Prelude Float32 PvShaping RuntimeTypes Threads NativeTypes SafetyState Gripper Commands Construct Gravity.
#[local] Open Scope mdl_scope.
#[local] Open Scope thread_scope.

(** ** Limits and gains *)

Definition percent_hundred : f32 := f32_of_Z 100.

(** [static_cast<float>(value) * percent / 100.0f]. *)
Definition percent_of (percent value : f32) : f32 := f32_div (f32_mul value percent) percent_hundred.

Definition kYunyiPvDriveVelocityLimit : f32 := f32_of_Z 3.
Definition kYunyiOrdinaryPvMaximumVelocity : f32 := f32_of_Z 2.
Definition kYunyiTrajectoryPvAccelerationLimit : f32 := f32_of_Z 6.
Definition kYunyiMitFastFollowMaximumVelocity : f32 := f32_of_Z 5.
Definition yunyi_mit_fast_follow_reference_velocity (speed_percent : f32) : f32 :=
  percent_of speed_percent kYunyiMitFastFollowMaximumVelocity.

Definition kYunyiMitDirectKp : list f32 := map f32_of_Z [15; 15; 12; 12; 8; 7; 6].
Definition kYunyiMitDirectKd : list f32 := map (fun n => f32_lit n 10) [8; 8; 7; 7; 5; 5; 4].
Definition kYunyiMitFastFollowKp : list f32 := map f32_of_Z [190; 190; 100; 100; 70; 60; 50].
Definition kYunyiMitFastFollowKd : list f32 :=
  map (fun n => f32_lit n 100) [455; 450; 250; 250; 70; 60; 50].

(** [3.14159265358979323846f] is 13176795 / 2^22. *)
Definition kRadiansPerDegree : f32 := f32_div (f32_lit 13176795 4194304) (f32_of_Z 180).
Definition degrees (n : Z) : f32 := f32_mul (f32_of_Z n) kRadiansPerDegree.

Definition kYunyiOrdinaryPvJointMaximumVelocities : list f32 :=
  map degrees [180; 180; 180; 225; 225; 225; 225].
Definition kYunyiOrdinaryPvJointMaximumAccelerations : list f32 :=
  map degrees [450; 450; 900; 900; 900; 900; 900].
Definition kYunyiOrdinaryPvDefaultMaximumPercent : f32 := percent_hundred.
Definition kYunyiOrdinaryPvMinimumMaximumPercent : f32 := f32_of_Z 1.
Definition kYunyiOrdinaryPvMaximumMaximumPercent : f32 := percent_hundred.

(** The maximum is applied first, then the speed of the command: for the
    acceleration as a factor. *)
Definition yunyi_ordinary_pv_velocity_limit (joint_index : nat)
    (speed_percent maximum_velocity_percent : f32) : f32 :=
  let default_limit :=
    nth (joint_index mod PRODUCT_ARM_DOF) kYunyiOrdinaryPvJointMaximumVelocities f32_zero in
  percent_of speed_percent (percent_of maximum_velocity_percent default_limit).

Definition yunyi_ordinary_pv_acceleration_limit (joint_index : nat)
    (speed_percent maximum_acceleration_percent : f32) : f32 :=
  let command_scale := f32_div speed_percent percent_hundred in
  let default_limit :=
    nth (joint_index mod PRODUCT_ARM_DOF) kYunyiOrdinaryPvJointMaximumAccelerations f32_zero in
  f32_mul (percent_of maximum_acceleration_percent default_limit) command_scale.

(** ** The tables of the joints *)

Definition kLower (side : nat) : list f32 :=
  map (fun n => f32_lit n 10000)
    (if (side =? 0)%nat then [-27450; -3489; -25294; -1744; -20933; -7850; -13956]
     else [-27450; -22678; -25294; -1744; -20933; -7850; -13956]).
Definition kUpper (side : nat) : list f32 :=
  map (fun n => f32_lit n 10000)
    (if (side =? 0)%nat then [27450; 22678; 25294; 22678; 20933; 7850; 13956]
     else [27450; 3489; 25294; 22678; 20933; 7850; 13956]).
Definition kVelocityLimit : list f32 := map f32_of_Z [5; 5; 5; 5; 5; 5; 5].
Definition kAccelerationLimit : list f32 := map f32_of_Z [10; 10; 8; 8; 20; 20; 20].
Definition kLogicalVelocityRange (side : nat) : list f32 :=
  map f32_of_Z (if (side =? 0)%nat then [20; 20; 10; 10; 10; 10; 10]
                else [10; 10; 10; 10; 10; 10; 10]).
Definition kNativeVelocityRange : list f32 := map f32_of_Z [45; 45; 10; 10; 30; 30; 30].

(** ** The resources of the product *)

(** [YunyiRuntimeResources::Joint]. *)
Record ProductJoint := {
  pj_motor : handle;
  pj_direction : f32;
  pj_lower : f32;
  pj_upper : f32;
  pj_velocity_limit : f32;
  pj_acceleration_limit : f32;
  pj_torque_limit : f32;
  pj_velocity_command_scale : f32;
  pj_velocity_feedback_scale : f32;
  pj_torque_command_scale : f32;
  pj_torque_feedback_scale : f32;
  pj_kp : f32;
  pj_kd : f32
}.

(** A pose model is determined by its side and the offset it was built with. *)
Record YunyiRuntimeResources := {
  ry_arm_motors : list handle;
  ry_joints : list ProductJoint;
  ry_grippers : list handle;
  ry_tcp_offsets : list (list f32);
  ry_gripper_present : list bool
}.

#[export] Instance eta_YunyiRuntimeResources : Eta YunyiRuntimeResources := fun r =>
  Build_YunyiRuntimeResources (ry_arm_motors r) (ry_joints r) (ry_grippers r) (ry_tcp_offsets r)
    (ry_gripper_present r).

Definition gripper_on (r : YunyiRuntimeResources) (side : nat) : bool :=
  nth side (ry_gripper_present r) false.
Definition any_gripper (r : YunyiRuntimeResources) : bool := gripper_on r 0 || gripper_on r 1.

Definition yunyi_joint_role (index : nat) : string :=
  ((if (index / PRODUCT_ARM_DOF =? 0)%nat then "left/l-joint" else "right/r-joint") ++
   to_string (Z.of_nat (index mod PRODUCT_ARM_DOF) + 1))%string.

Definition default_yunyi_tcp_offset (with_grippers : bool) : list f32 :=
  if with_grippers
  then [f32_lit (-4) 1000; f32_zero; f32_lit (-178) 1000; f32_zero; f32_zero; f32_zero]
  else replicate 6 f32_zero.

(** ** From the motors found to the descriptors *)

(** The role of the motor with index 0 to 7 of a side: the eighth is the
    gripper. *)
Definition motor_role (side index : nat) : string :=
  ((if (side =? 0)%nat then "left/l-" else "right/r-") ++
   (if (index =? PRODUCT_ARM_DOF)%nat then "gripper"
    else "joint" ++ to_string (Z.of_nat index + 1)))%string.

Definition zero_descriptor : ArticoreMotorDescriptor := {|
  d_motor := 0%nat; d_side := 0; d_is_gripper := false; d_name := ""; d_safe_kp := f32_zero;
  d_safe_kd := f32_zero; d_overload_torque := f32_zero; d_retreat_distance := f32_zero;
  d_contact_torque := f32_zero; d_motion_window_ms := 0; d_stall_movement := f32_zero;
  d_min_position_error := f32_zero; d_contact_hold_ms := 0; d_overload_hold_ms := 0;
  d_hold_offset := f32_zero; d_retreat_retry_ms := 0; d_open_position := f32_zero;
  d_closed_position := f32_zero; d_normal_kp := f32_zero; d_normal_kd := f32_zero;
  d_close_speed := f32_zero; d_max_step_interval_ms := 0; d_closing_direction := f32_zero;
  d_lower_position := f32_zero; d_upper_position := f32_zero |}.

#[export] Instance eta_ArticoreMotorDescriptor : Eta ArticoreMotorDescriptor := fun r =>
  Build_ArticoreMotorDescriptor (d_motor r) (d_side r) (d_is_gripper r) (d_name r) (d_safe_kp r)
    (d_safe_kd r) (d_overload_torque r) (d_retreat_distance r) (d_contact_torque r)
    (d_motion_window_ms r) (d_stall_movement r) (d_min_position_error r) (d_contact_hold_ms r)
    (d_overload_hold_ms r) (d_hold_offset r) (d_retreat_retry_ms r) (d_open_position r)
    (d_closed_position r) (d_normal_kp r) (d_normal_kd r) (d_close_speed r)
    (d_max_step_interval_ms r) (d_closing_direction r) (d_lower_position r) (d_upper_position r).

Definition motor_descriptor (side index : nat) (motor : handle) : ArticoreMotorDescriptor :=
  let gripper := (index =? PRODUCT_ARM_DOF)%nat in
  zero_descriptor <| d_motor := motor |> <| d_side := Z.of_nat side |>
    <| d_is_gripper := gripper |> <| d_name := motor_role side index |>
    <| d_safe_kp := if gripper then f32_zero else f32_of_Z 5 |>
    <| d_safe_kd := if gripper then f32_zero else f32_of_Z 1 |>.

(** The motors a side answered with, by index: [None] is one that is not
    present. *)
Definition Found : Type := list (option handle).

Definition found_motor (found : Found) (index : nat) : handle :=
  default 0%nat (mjoin (found !! index)).

(** The descriptors and identities of a side, in the order of the results. *)
Definition side_descriptors (side : nat) (found : Found) : list ArticoreMotorDescriptor :=
  concat (imap (fun index o =>
    match o with Some motor => [motor_descriptor side index motor] | None => [] end) found).

Definition side_identities (side : nat) (found : Found) : list ArticoreMotorIdentity :=
  concat (imap (fun index o =>
    match o with
    | Some motor => [Build_ArticoreMotorIdentity motor (Z.of_nat index + 1)]
    | None => []
    end) found).

(** ** The joint table *)

Definition product_joint (side index : nat) (motor : handle) : ProductJoint :=
  let at_ (l : list f32) := nth index l f32_zero in
  {| pj_motor := motor;
     pj_direction := at_ (kYunyiJointDirection (Z.of_nat side));
     pj_lower := at_ (kLower side); pj_upper := at_ (kUpper side);
     pj_velocity_limit := at_ kVelocityLimit; pj_acceleration_limit := at_ kAccelerationLimit;
     pj_torque_limit := at_ kYunyiLogicalTorqueRange;
     pj_velocity_command_scale := f32_div (at_ kNativeVelocityRange) (at_ (kLogicalVelocityRange side));
     pj_velocity_feedback_scale := f32_div (at_ (kLogicalVelocityRange side)) (at_ kNativeVelocityRange);
     pj_torque_command_scale := f32_div (at_ kYunyiNativeTorqueRange) (at_ kYunyiLogicalTorqueRange);
     pj_torque_feedback_scale := f32_div (at_ kYunyiLogicalTorqueRange) (at_ kYunyiNativeTorqueRange);
     pj_kp := at_ kYunyiMitDirectKp; pj_kd := at_ kYunyiMitDirectKd |}.

(** The limits in the motor's own direction. *)
Definition product_joint_config (index : nat) (j : ProductJoint) : ArticoreJointControlConfig :=
  let at_ (l : list f32) := nth index l f32_zero in
  let positive := f32_gt (pj_direction j) f32_zero in
  {| jcc_motor := pj_motor j;
     jcc_lower_position := if positive then pj_lower j else f32_opp (pj_upper j);
     jcc_upper_position := if positive then pj_upper j else f32_opp (pj_lower j);
     jcc_velocity_limit := at_ kNativeVelocityRange;
     jcc_torque_limit := at_ kYunyiNativeTorqueRange;
     jcc_mit_kp := at_ kYunyiMitDirectKp; jcc_mit_kd := at_ kYunyiMitDirectKd;
     jcc_mit_feedforward_torque := f32_zero;
     jcc_mit_fast_follow_kp := at_ kYunyiMitFastFollowKp;
     jcc_mit_fast_follow_kd := at_ kYunyiMitFastFollowKd;
     jcc_velocity_feedback_scale := pj_velocity_feedback_scale j |}.

Definition configure_joint_table (arm_motors : list handle) :
    list ProductJoint * list ArticoreJointControlConfig :=
  let joints :=
    imap (fun k motor => product_joint (k / PRODUCT_ARM_DOF) (k mod PRODUCT_ARM_DOF) motor)
      arm_motors in
  (joints, imap (fun k j => product_joint_config (k mod PRODUCT_ARM_DOF) j) joints).

(** ** [create_yunyi_runtime] *)

(** [YunyiNativeConfig], as far as it reaches the safety runtime. *)
Record YunyiNativeConfig := {
  nc_feedback_max_age_ms : Z;
  nc_motor_watchdog_ms : Z
}.

Definition yunyi_config (c : YunyiNativeConfig) : ArticoreRuntimeConfig := {|
  command_timeout_ms := 250; enable_grace_ms := 2000; safe_hold_hz := 100;
  feedback_check_hz := 100; feedback_failure_threshold := 3;
  feedback_max_age_ms := nc_feedback_max_age_ms c; safe_hold_failure_threshold := 1;
  disable_feedback_timeout_ms := 50; safe_pv_velocity_limit := f32_lit 2 10;
  gripper_fault_action := GRIPPER_FAULT_HOLD |}.

Definition arm_motors_of (left right : Found) : list handle :=
  map (found_motor left) (seq 0 PRODUCT_ARM_DOF) ++
  map (found_motor right) (seq 0 PRODUCT_ARM_DOF).

Definition make_resources (left right : Found) : YunyiRuntimeResources :=
  let motors := arm_motors_of left right in
  let present (found : Found) := bool_decide (is_Some (mjoin (found !! PRODUCT_ARM_DOF))) in
  {| ry_arm_motors := motors; ry_joints := (configure_joint_table motors).1;
     ry_grippers := [found_motor left PRODUCT_ARM_DOF; found_motor right PRODUCT_ARM_DOF];
     ry_tcp_offsets := [default_yunyi_tcp_offset (present left);
                        default_yunyi_tcp_offset (present right)];
     ry_gripper_present := [present left; present right] |}.

Definition yunyi_construction (c : YunyiNativeConfig) (left right : Found)
    (environment_hz : option string) (warning : string) : Construction := {|
  cn_config := yunyi_config c; cn_has_group := true; cn_has_controller := [true; true];
  cn_motors := side_descriptors 0 left ++ side_descriptors 1 right;
  cn_require_profiles := any_gripper (make_resources left right);
  cn_control_hz := 0; cn_environment_hz := environment_hz; cn_warning := warning |}.

Definition kProductId : string := "yunyi_v1_0".
Definition kGripperProfile : string := "yunyi_gripper_v1".

Definition gripper_bindings (r : YunyiRuntimeResources) : list ArticoreGripperProductBinding :=
  map (fun side => Build_ArticoreGripperProductBinding (nth side (ry_grippers r) 0%nat)
                     (Some kGripperProfile))
    (List.filter (gripper_on r) (seq 0 2)).

Definition gravity_bindings : list ArticoreGravityProductBinding :=
  map (fun side => Build_ArticoreGravityProductBinding side side kProductId) both_sides.

Section Create.
Context {B : Type} `{!MotorBackend B} `{!ArmDynamics}.

(** What follows the constructor of the safety runtime. *)
Definition configure_yunyi (who : nat) (left right : Found) : Rt (B := B) unit :=
  let r := make_resources left right in
  configure_motor_identities who (side_identities 0 left ++ side_identities 1 right) ;;;
  configure_joints (configure_joint_table (ry_arm_motors r)).2 ;;;
  configure_gripper_products who (gripper_bindings r) ;;;
  configure_gravity_products who gravity_bindings.

(** The motors have been found; the worker does nothing before a connect, so
    the configuration runs alone. *)
Definition create_yunyi_runtime (who : nat) (now : Z) (backend : B) (c : YunyiNativeConfig)
    (left right : Found) (environment_hz : option string) (warning : string) :
    outcome unit * option (Safety B) :=
  match make_SafetyRuntime now backend (yunyi_construction c left right environment_hz warning) with
  | inl e => (Thrown e, None)
  | inr s => let '(o, s') := run_alone (configure_yunyi who left right) s in (o, Some s')
  end.

End Create.
