(* ===== verification/Product.v ===== *)
(** * The product runtime: its state and the code around every operation

    [YunyiRuntimeCoreState] of [runtime/src/yunyi_runtime_core.cpp], the
    members of [YunyiRuntime::Impl] that wrap it, and the helpers the
    operations share: the checks, the recorded results, the mutexes, the
    planning scope.  The safety runtime is a member that a disconnect destroys:
    an operation on it is [lift]ed to the product, and is undefined behaviour
    once it is gone.  The last error of a thread is part of the result. *)

From Stdlib Require Import String.
From S2P Require Import Prelude Float32 Float64 PvShaping RuntimeTypes Threads NativeTypes SafetyState Motions Commands Planning Lifecycle Maintenance Health Yunyi.
#[local] Open Scope mdl_scope.
#[local] Open Scope thread_scope.

(** ** The state *)

Inductive ProductMutex := TerminalMutex | LimitsMutex | MotionMutex.

#[export] Instance ProductMutex_eq_dec : EqDecision ProductMutex.
Proof. solve_decision. Defined.

(** [YunyiRuntimeCoreState] without [runtime]. *)
Record ProductCore := {
  pc_terminal_mutex : option nat;
  pc_limits_mutex : option nat;
  pc_motion_mutex : option nat;
  yunyi_owned : bool;
  core_terminally_disconnected : bool;
  yunyi : option YunyiRuntimeResources;
  product_mode : ControlMode;
  product_pv_max_velocity_percent : f32;
  product_pv_max_acceleration_percent : f32;
  product_speed_percent : f32
}.

#[export] Instance eta_ProductCore : Eta ProductCore := fun r =>
  Build_ProductCore (pc_terminal_mutex r) (pc_limits_mutex r) (pc_motion_mutex r) (yunyi_owned r)
    (core_terminally_disconnected r) (yunyi r) (product_mode r)
    (product_pv_max_velocity_percent r) (product_pv_max_acceleration_percent r)
    (product_speed_percent r).

(** The three mutexes of the core and their holders. *)
Definition holder (m : ProductMutex) (c : ProductCore) : option nat :=
  match m with
  | TerminalMutex => pc_terminal_mutex c
  | LimitsMutex => pc_limits_mutex c
  | MotionMutex => pc_motion_mutex c
  end.

Definition set_holder (m : ProductMutex) (who : option nat) (c : ProductCore) : ProductCore :=
  match m with
  | TerminalMutex => c <| pc_terminal_mutex := who |>
  | LimitsMutex => c <| pc_limits_mutex := who |>
  | MotionMutex => c <| pc_motion_mutex := who |>
  end.

(** [pd_core] is [state_] of [YunyiRuntimeCore]; [pd_runtime] is the safety
    runtime as long as it exists, and [pd_runtime_set] says whether the pointer
    [state_->runtime] is set: it is reset before the destructor runs.  The rest
    are the members of [YunyiRuntime::Impl]. *)
Record Product (B : Type) := {
  pd_core : option ProductCore;
  pd_runtime : option (Safety B);
  pd_runtime_set : bool;
  pd_terminal_mutex : option nat;
  pd_terminally_disconnected : bool;
  pd_control_lost_reason : string
}.
Arguments pd_core {B} _. Arguments pd_runtime {B} _. Arguments pd_runtime_set {B} _. Arguments pd_terminal_mutex {B} _.
Arguments pd_terminally_disconnected {B} _. Arguments pd_control_lost_reason {B} _.

#[export] Instance eta_Product {B} : Eta (Product B) := fun r =>
  Build_Product B (pd_core r) (pd_runtime r) (pd_runtime_set r) (pd_terminal_mutex r)
    (pd_terminally_disconnected r) (pd_control_lost_reason r).

(** What [create_yunyi_runtime_checked] makes of the bundle. *)
Definition product_core (resources : YunyiRuntimeResources) (mode : ControlMode) : ProductCore := {|
  pc_terminal_mutex := None; pc_limits_mutex := None; pc_motion_mutex := None;
  yunyi_owned := true; core_terminally_disconnected := false; yunyi := Some resources;
  product_mode := mode;
  product_pv_max_velocity_percent := kYunyiOrdinaryPvDefaultMaximumPercent;
  product_pv_max_acceleration_percent := kYunyiOrdinaryPvDefaultMaximumPercent;
  product_speed_percent := percent_hundred |}.

Definition new_product {B} (resources : YunyiRuntimeResources) (mode : ControlMode)
    (runtime : Safety B) : Product B := {|
  pd_core := Some (product_core resources mode); pd_runtime := Some runtime;
  pd_runtime_set := true; pd_terminal_mutex := None; pd_terminally_disconnected := false;
  pd_control_lost_reason := "" |}.

(** A motor's own snapshot, which the product reads past the backend: the last
    state, whether there is feedback, the number of updates and the age, which
    may be negative.  [None]: the driver throws. *)
Class MotorSnapshots (B : Type) := {
  motor_snapshot : handle -> B -> option (option ArticoreMotorState * (bool * Z * Z))
}.

(** The kinematic planner of [runtime/src/product_cartesian.cpp], a function of
    the resources, of the reference it plans from and of the poses; the inverse
    kinematics has a deadline, the paths have a reference acceleration and a
    reference velocity. *)
Class CartesianPlanner := {
  plan_dual_ik : YunyiRuntimeResources -> ControlMode -> NativeTrajectorySample ->
    Pose -> Pose -> Z -> outcome JointArray;
  plan_linear : YunyiRuntimeResources -> ControlMode -> Z -> NativeTrajectorySample ->
    option Pose -> Pose -> f32 -> f32 -> outcome NativeTrajectoryRequest;
  plan_circular : YunyiRuntimeResources -> ControlMode -> Z -> NativeTrajectorySample ->
    Pose -> Pose -> Pose -> f32 -> f32 -> outcome NativeTrajectoryRequest
}.

(** The numerical functions of [<cmath>] that are not correctly rounded. *)
Class Libm := {
  libm_sin : f64 -> f64;
  libm_cos : f64 -> f64;
  libm_asin : f64 -> f64;
  libm_acos : f64 -> f64;
  libm_atan2 : f64 -> f64 -> f64
}.

(** ** Results *)

(** [0], or another code with the text of the thread's last error; the output
    parameter is written in the first case only. *)
Inductive Native (A : Type) :=
| NativeOk (a : A)
| NativeError (code : Z) (error : string).
Arguments NativeOk {A} a.
Arguments NativeError {A} code error.

Definition operation_code (e : ArticoreOperationError) : Z :=
  match e with
  | OPERATION_OK => 0 | OPERATION_INVALID_ARGUMENT => 1 | OPERATION_INVALID_STATE => 2
  | OPERATION_TRANSPORT => 3 | OPERATION_FEEDBACK => 4 | OPERATION_NOT_DISABLED => 5
  | OPERATION_NOT_STATIONARY => 6 | OPERATION_MOTOR_COMMAND => 7 | OPERATION_VERIFICATION => 8
  | OPERATION_UNSUPPORTED => 9
  end.

Definition refused {A} (code : ArticoreOperationError) (error : string) : Native A :=
  NativeError (operation_code code) error.
Definition minus_one {A} (error : string) : Native A := NativeError (-1) error.

(** [push_back] in a loop. *)
Fixpoint collect {S X A} (l : list X) (f : X -> prog S A) : prog S (list A) :=
  match l with
  | [] => pret []
  | x :: rest => do a <- f x; do r <- collect rest f; pret (a :: r)
  end.

Section Primitives.
Context {B : Type}.

Definition Pd (A : Type) : Type := prog (Product B) A.

(** ** Access *)

(** An operation of the safety runtime. *)
Fixpoint lift {A} (p : prog (Safety B) A) : Pd A :=
  match p with
  | Done o => Done o
  | @Act _ _ X g f k =>
      @Act _ _ (option X)
        (fun s => match pd_runtime s with Some r => g r | None => true end)
        (fun s => match pd_runtime s with
                  | Some r => (Some (fst (f r)), s <| pd_runtime := Some (snd (f r)) |>)
                  | None => (None, s)
                  end)
        (fun x => match x with Some x => lift (k x) | None => Done Undefined end)
  end.

(** An access to the members of the core, which waits for [g]. *)
Definition on_core {A} (g : ProductCore -> bool) (f : ProductCore -> A * ProductCore) : Pd A :=
  do r <- await
    (fun s : Product B => match pd_core s with Some c => g c | None => true end)
    (fun s : Product B => match pd_core s with
       | Some c => let '(x, c') := f c in (Some x, s <| pd_core := Some c' |>)
       | None => (None, s)
       end);
  pdefined r.

Definition get_core {A} (f : ProductCore -> A) : Pd A := on_core (fun _ => true) (fun c => (f c, c)).
Definition set_core (f : ProductCore -> ProductCore) : Pd unit :=
  on_core (fun _ => true) (fun c => (tt, f c)).

(** [std::lock_guard] on a mutex of the core. *)
Definition unlock_core (m : ProductMutex) (s : Product B) : Product B :=
  s <| pd_core ::= option_map (set_holder m None) |>.

Definition with_mutex {A} (who : nat) (m : ProductMutex) (p : Pd A) : Pd A :=
  on_core (fun c => bool_decide (holder m c = None)) (fun c => (tt, set_holder m (Some who) c)) ;;;
  pfinally p (unlock_core m).

(** [runtime->runtime], as a condition. *)
Definition has_runtime : Pd bool :=
  do r <- read (fun s : Product B =>
    (bool_decide (is_Some (pd_core s)), pd_runtime_set s));
  if fst r then pret r.2 else Done Undefined.

(** [checked(runtime)] and [checked_yunyi(runtime)]. *)
Definition checked : Pd unit :=
  do has <- has_runtime;
  if has then pret tt else pthrow (InvalidArgument "runtime is null").

Definition checked_yunyi : Pd YunyiRuntimeResources :=
  checked ;;;
  do y <- get_core yunyi;
  match y with
  | Some resources => pret resources
  | None => pthrow (RuntimeError "operation requires the Yunyi dual-arm Runtime")
  end.

(** [product], a reference to the resources, used again later. *)
Definition current_yunyi : Pd YunyiRuntimeResources := do y <- get_core yunyi; pdefined y.

(** [checked(runtime).operation(...)]. *)
Definition on_runtime {A} (p : prog (Safety B) A) : Pd A := checked ;;; lift p.

Definition record (operation : ArticoreRuntimeOperation) (code : ArticoreOperationError)
    (error : string) : prog (Safety B) unit :=
  record_operation_result operation code error.

Definition record_ok (operation : ArticoreRuntimeOperation) : Pd unit :=
  on_runtime (record operation OPERATION_OK "").

(** [if (runtime && runtime->runtime) record_operation_result(...)]. *)
Definition record_if (operation : ArticoreRuntimeOperation) (code : ArticoreOperationError)
    (error : string) : Pd unit :=
  do has <- has_runtime;
  pwhen has (lift (record operation code error)).

(** ** Exceptions *)

(** [catch (const std::invalid_argument&)] and [catch (const std::exception&)]. *)
Definition catching {A} (p : Pd (Native A)) (invalid failed : string -> Pd (Native A)) :
    Pd (Native A) :=
  pcatch p (fun e =>
    match e with
    | InvalidArgument what => invalid what
    | OtherException _ => pthrow e
    | _ => failed (exn_what e)
    end).

Definition catching_all {A} (p : Pd (Native A)) (failed : string -> Pd (Native A)) :
    Pd (Native A) := catching p failed failed.

(** [call(function)]. *)
Definition call {A} (p : Pd A) : Pd (Native A) :=
  pcatch (do a <- p; pret (NativeOk a)) (fun e =>
    match e with
    | OtherException _ => pret (minus_one "unknown Articore runtime exception")
    | _ => pret (minus_one (exn_what e))
    end).

(** [record_product_command_error]. *)
Definition record_product_command_error {A} (code : ArticoreOperationError) (error : string) :
    Pd (Native A) :=
  record_if OPERATION_COMMAND code error ;;; pret (refused code error).

(** The two clauses of the commands, with a prefix of the text. *)
Definition commanding {A} (prefix : string) (p : Pd (Native A)) : Pd (Native A) :=
  catching p
    (fun what => record_product_command_error OPERATION_INVALID_ARGUMENT (prefix ++ what)%string)
    (fun what => record_product_command_error OPERATION_INVALID_STATE (prefix ++ what)%string).

(** Those of the other operations that record both, and of those that record
    nothing. *)
Definition recording {A} (operation : ArticoreRuntimeOperation) (p : Pd (Native A)) :
    Pd (Native A) :=
  catching p
    (fun what => record_if operation OPERATION_INVALID_ARGUMENT what ;;;
                 pret (refused OPERATION_INVALID_ARGUMENT what))
    (fun what => record_if operation OPERATION_INVALID_STATE what ;;;
                 pret (refused OPERATION_INVALID_STATE what)).

Definition querying {A} (p : Pd (Native A)) : Pd (Native A) :=
  catching p (fun what => pret (refused OPERATION_INVALID_ARGUMENT what))
             (fun what => pret (refused OPERATION_INVALID_STATE what)).

(** A destructor at the end of a scope: it runs when the scope returns and
    when it throws. *)
Definition ensuring {A} (p : Pd A) (destructor : Pd unit) : Pd A :=
  do o <- premap (fun o => o) p;
  match o with
  | Returned _ | Thrown _ => destructor ;;; Done o
  | _ => Done o
  end.

(** [std::steady_clock::now()], the clock of the safety runtime. *)
Definition product_clock : Pd Z := lift clock_now.

End Primitives.

(** [check_result(result, operation)]. *)
Definition check_result {S A} (operation : string) (r : Native A) : prog S A :=
  match r with
  | NativeOk a => pret a
  | NativeError _ error => pthrow (RuntimeError (operation ++ " failed: " ++ error)%string)
  end.
