(* ===== verification/ProductCommands.v ===== *)
(** * The product runtime: commands

    The operations of [runtime/src/yunyi_runtime_core.cpp] that move the robot:
    joint targets, the speed settings, the grippers, inverse kinematics and the
    planned Cartesian motions. *)

From Stdlib Require Import String.
From S2P Require Import Prelude Float32 Float64 PvShaping RuntimeTypes Threads NativeTypes SafetyState Motions Gripper Commands TrajectoryCycle Planning JointPosition Maintenance Health Yunyi Product.
#[local] Open Scope mdl_scope.
#[local] Open Scope thread_scope.

(** ** Checks *)

Definition require_product_count (count : nat) : option exn :=
  if (count =? PRODUCT_DUAL_ARM_DOF)%nat then None
  else Some (InvalidArgument "yunyi_v1_0 command must contain exactly 14 joints").

Definition require_finite (values : list f32) (name : string) : option exn :=
  if forallb f32_isfinite values then None
  else Some (InvalidArgument (name ++ " contains NaN or Inf")%string).

Definition percent_valid (lower value : f32) : bool :=
  f32_isfinite value && negb (f32_lt value lower) && negb (f32_gt value percent_hundred).

Definition require_pv_maximum_percent (value : f32) (name : string) : option exn :=
  if f32_isfinite value && negb (f32_lt value kYunyiOrdinaryPvMinimumMaximumPercent) &&
     negb (f32_gt value kYunyiOrdinaryPvMaximumMaximumPercent) then None
  else Some (InvalidArgument (name ++ " must be finite and within 1..100 percent")%string).

Definition effective_product_pv_limits (speed_percent maximum_velocity_percent
    maximum_acceleration_percent : f32) : list f32 * list f32 :=
  (map (fun index => yunyi_ordinary_pv_velocity_limit index speed_percent maximum_velocity_percent)
     (seq 0 PRODUCT_DUAL_ARM_DOF),
   map (fun index => yunyi_ordinary_pv_acceleration_limit index speed_percent
                       maximum_acceleration_percent) (seq 0 PRODUCT_DUAL_ARM_DOF)).

Definition validate_product_position (joint : ProductJoint) (position : f32) (index : nat) :
    option exn :=
  if f32_lt position (pj_lower joint) || f32_gt position (pj_upper joint) then
    Some (InvalidArgument
      (yunyi_joint_role index ++ " position=" ++ fixed_six position ++
       " rad exceeds product limits, allowed=[" ++ fixed_six (pj_lower joint) ++ ", " ++
       fixed_six (pj_upper joint) ++ "] rad")%string)
  else None.

(** [product.joints[i]], [i] below the fourteen of the array. *)
Definition no_joint : ProductJoint := {|
  pj_motor := 0%nat; pj_direction := f32_zero; pj_lower := f32_zero; pj_upper := f32_zero;
  pj_velocity_limit := f32_zero; pj_acceleration_limit := f32_zero; pj_torque_limit := f32_zero;
  pj_velocity_command_scale := f32_zero; pj_velocity_feedback_scale := f32_zero;
  pj_torque_command_scale := f32_zero; pj_torque_feedback_scale := f32_zero; pj_kp := f32_zero;
  pj_kd := f32_zero |}.

Definition joint_at (r : YunyiRuntimeResources) (i : nat) : ProductJoint :=
  nth i (ry_joints r) no_joint.

Definition at_ (l : list f32) (i : nat) : f32 := nth i l f32_zero.

(** The loop over the joints of an ordinary position command. *)
Fixpoint product_targets (r : YunyiRuntimeResources) (reference_velocity : f32)
    (positions : list f32) (i : nat) (indices : list nat) : exn + list ArticoreJointTarget :=
  match indices with
  | [] => inr []
  | _ :: rest =>
      let joint := joint_at r i in
      match validate_product_position joint (at_ positions i) i with
      | Some e => inl e
      | None =>
          if f32_gt reference_velocity (pj_velocity_limit joint) then
            inl (InvalidArgument "reference velocity exceeds product joint limit")
          else
            match product_targets r reference_velocity positions (S i) rest with
            | inl e => inl e
            | inr l =>
                inr (Build_ArticoreJointTarget (pj_motor joint)
                       (f32_mul (pj_direction joint) (at_ positions i)) :: l)
            end
      end
  end.

(** The arrays of a standard MIT command. *)
Record MitArrays := {
  ma_positions : list f32;
  ma_velocities : list f32;
  ma_kp : list f32;
  ma_kd : list f32;
  ma_torques : list f32
}.

Definition mit_refusal (joint : ProductJoint) (a : MitArrays) (i : nat) : option exn :=
  match validate_product_position joint (at_ (ma_positions a) i) i with
  | Some e => Some e
  | None =>
      if f32_gt (f32_abs (at_ (ma_velocities a) i)) (pj_velocity_limit joint) then
        Some (InvalidArgument "velocity exceeds product joint limit")
      else if f32_gt (f32_abs (at_ (ma_torques a) i)) (pj_torque_limit joint) then
        Some (InvalidArgument "torque exceeds product joint limit")
      else if f32_lt (at_ (ma_kp a) i) f32_zero || f32_gt (at_ (ma_kp a) i) (f32_of_Z 500) ||
              f32_lt (at_ (ma_kd a) i) f32_zero || f32_gt (at_ (ma_kd a) i) (f32_of_Z 5) then
        Some (InvalidArgument "MIT gain exceeds protocol limits")
      else None
  end.

Definition mit_command (joint : ProductJoint) (a : MitArrays) (i : nat) : ArticoreMitCommand :=
  Build_ArticoreMitCommand (pj_motor joint)
    (f32_mul (pj_direction joint) (at_ (ma_positions a) i))
    (f32_mul (f32_mul (pj_direction joint) (at_ (ma_velocities a) i))
       (pj_velocity_command_scale joint))
    (at_ (ma_kp a) i) (at_ (ma_kd a) i)
    (f32_mul (f32_mul (pj_direction joint) (at_ (ma_torques a) i))
       (pj_torque_command_scale joint)).

Fixpoint mit_commands (r : YunyiRuntimeResources) (a : MitArrays) (i : nat) (indices : list nat) :
    exn + list ArticoreMitCommand :=
  match indices with
  | [] => inr []
  | _ :: rest =>
      match mit_refusal (joint_at r i) a i with
      | Some e => inl e
      | None =>
          match mit_commands r a (S i) rest with
          | inl e => inl e
          | inr l => inr (mit_command (joint_at r i) a i :: l)
          end
      end
  end.

(** [trajectory_joint] and [product_cartesian_joints]
    ([runtime/src/product_cartesian.cpp]). *)
Definition kYunyiCartesianMaximumVelocity : f32 := f32_of_Z 1.
Definition kYunyiCartesianTrajectoryPvDriveVelocityLimit : f32 := f32_of_Z 3.

Definition product_cartesian_trajectory_pv_drive_velocity_limit (joint_hard_velocity_limit : f32) :
    f32 :=
  f32_min joint_hard_velocity_limit kYunyiCartesianTrajectoryPvDriveVelocityLimit.

Definition trajectory_joint (source : ProductJoint) (product_index : nat) : NativeTrajectoryJoint :=
  let pv_limit := product_cartesian_trajectory_pv_drive_velocity_limit (pj_velocity_limit source) in
  {| tj_role := yunyi_joint_role product_index; tj_motor := pj_motor source;
     tj_direction := pj_direction source;
     tj_velocity_command_scale := pj_velocity_command_scale source;
     tj_velocity_feedback_scale := pj_velocity_feedback_scale source;
     tj_torque_command_scale := pj_torque_command_scale source;
     tj_lower_position := pj_lower source; tj_upper_position := pj_upper source;
     tj_velocity_limit := pj_velocity_limit source;
     tj_acceleration_limit := pj_acceleration_limit source;
     tj_torque_limit := pj_torque_limit source; tj_mit_kp := pj_kp source; tj_mit_kd := pj_kd source;
     tj_mit_feedforward_torque := f32_zero; tj_pv_velocity_limit := pv_limit;
     tj_pv_hold_velocity_limit := f32_min pv_limit kNativePvFinalHoldVelocityLimit |}.

Definition product_cartesian_joints (r : YunyiRuntimeResources) : list NativeTrajectoryJoint :=
  map (fun index => trajectory_joint (joint_at r index) index) (seq 0 PRODUCT_DUAL_ARM_DOF).

(** [require_unchanged_planned_reference] ([detail/product_cartesian.hpp]). *)
Definition same_reference (before after : NativeTrajectorySample) : bool :=
  Bool.eqb (sa_active before) (sa_active after) &&
  (sa_motion_id before =? sa_motion_id after) &&
  bool_decide (sa_operation before = sa_operation after) &&
  (length (sa_positions before) =? length (sa_positions after))%nat &&
  forallb (fun p => negb (f32_gt (f32_abs (f32_sub p.1 p.2)) (f32_lit 1 10000)))
    (zip (sa_positions before) (sa_positions after)).

Definition require_unchanged_planned_reference (before after : NativeTrajectorySample)
    (motion_name : string) : option exn :=
  if same_reference before after then None
  else Some (InvalidArgument
    (motion_name ++ " queue tail changed while planning; no motion was queued")%string).

Section Operations.
Context {B : Type} `{!MotorBackend B} `{!MotorSnapshots B} `{!CartesianPlanner}.

Definition refuse_with {S} (o : option exn) : prog S unit :=
  match o with Some e => pthrow e | None => pret tt end.

Definition raise {S A} (x : exn + A) : prog S A :=
  match x with inl e => pthrow e | inr a => pret a end.

(** ** Joint positions *)

Definition speed_text (mode : ControlMode) : string :=
  match mode with
  | ModePv => "ordinary PV speed must be finite and within 1..100"
  | ModeMit => "fast MIT speed must be finite and within 0..100"
  end.

(** [install_product_joint_positions(runtime, positions, count, speed)]: in PV
    mode the command is installed and the speed stored under
    [product_pv_limits_mutex]. *)
Definition install_product_joint_positions (who : nat) (positions : list f32)
    (speed_percent : f32) : Pd (B := B) unit :=
  do product <- checked_yunyi;
  refuse_with (require_product_count (length positions)) ;;;
  refuse_with (require_finite positions "positions") ;;;
  do mode <- get_core product_mode;
  if negb (percent_valid (match mode with ModePv => f32_one | ModeMit => f32_zero end) speed_percent)
  then pthrow (InvalidArgument (speed_text mode))
  else
    match mode with
    | ModeMit =>
        let velocity := yunyi_mit_fast_follow_reference_velocity speed_percent in
        do targets <- raise (product_targets product velocity positions 0
                               (seq 0 PRODUCT_DUAL_ARM_DOF));
        on_runtime (set_joint_mit who targets velocity)
    | ModePv =>
        with_mutex who LimitsMutex (
          do limits <- get_core (fun c => effective_product_pv_limits speed_percent
            (product_pv_max_velocity_percent c) (product_pv_max_acceleration_percent c));
          do targets <- raise (product_targets product f32_zero positions 0
                                 (seq 0 PRODUCT_DUAL_ARM_DOF));
          on_runtime (set_joint_pv_profile who targets limits.1 limits.2) ;;;
          set_core (fun c => c <| product_speed_percent := speed_percent |>))
    end.

Definition require_mode (mode : ControlMode) (refusal : string) : Pd (B := B) unit :=
  do current <- get_core product_mode;
  if bool_decide (current = mode) then pret tt else pthrow (RuntimeError refusal).

Definition native_runtime_set_joint_pv (who : nat) (positions : list f32) (speed_percent : f32) :
    Pd (B := B) (Native unit) :=
  commanding "PV joint command: " (
    (if percent_valid f32_one speed_percent then pret tt
     else pthrow (InvalidArgument "PV command speed must be finite and within 1..100")) ;;;
    do product <- checked_yunyi;
    require_mode ModePv "PV joint command requires product PV mode" ;;;
    install_product_joint_positions who positions speed_percent ;;;
    record_ok OPERATION_COMMAND ;;;
    pret (NativeOk tt)).

Definition native_runtime_set_joint_mit (a : MitArrays) (count : nat) :
    Pd (B := B) (Native unit) :=
  commanding "standard MIT joint command: " (
    do product <- checked_yunyi;
    refuse_with (require_product_count count) ;;;
    refuse_with (require_finite (ma_positions a) "positions") ;;;
    refuse_with (require_finite (ma_velocities a) "velocities") ;;;
    refuse_with (require_finite (ma_kp a) "kp") ;;;
    refuse_with (require_finite (ma_kd a) "kd") ;;;
    refuse_with (require_finite (ma_torques a) "feedforward_torques") ;;;
    require_mode ModeMit "standard MIT joint command requires product MIT mode" ;;;
    do commands <- raise (mit_commands product a 0 (seq 0 PRODUCT_DUAL_ARM_DOF));
    on_runtime (submit_mit commands) ;;;
    record_ok OPERATION_COMMAND ;;;
    pret (NativeOk tt)).

Definition native_runtime_set_joint_mit_fast (who : nat) (positions : list f32)
    (speed_percent : f32) : Pd (B := B) (Native unit) :=
  commanding "fast MIT joint command: " (
    do product <- checked_yunyi;
    require_mode ModeMit "fast MIT joint command requires product MIT mode" ;;;
    install_product_joint_positions who positions speed_percent ;;;
    record_ok OPERATION_COMMAND ;;;
    pret (NativeOk tt)).

(** ** The speed settings

    Each of the three changes one percentage: the limits of the active command
    are updated first, under [product_pv_limits_mutex]. *)
Definition change_percent (who : nat) (refusal : string)
    (change : ProductCore -> ProductCore) : Pd (B := B) (Native unit) :=
  do product <- checked_yunyi;
  require_mode ModePv refusal ;;;
  with_mutex who LimitsMutex (
    do limits <- get_core (fun c => let c := change c in
      effective_product_pv_limits (product_speed_percent c) (product_pv_max_velocity_percent c)
        (product_pv_max_acceleration_percent c));
    on_runtime (update_joint_pv_profile_limits who limits.1 limits.2) ;;;
    set_core change ;;;
    pret (NativeOk tt)).

Definition speed_refusal : string :=
  "speed percentage setting is available only in product PV mode".
Definition max_speed_refusal : string :=
  "maximum speed setting is available only in product PV mode".
Definition max_acceleration_refusal : string :=
  "maximum acceleration setting is available only in product PV mode".

Definition native_runtime_set_speed_percent (who : nat) (speed_percent : f32) :
    Pd (B := B) (Native unit) :=
  commanding "" (
    (if percent_valid f32_one speed_percent then pret tt
     else pthrow (InvalidArgument "speed_percent must be finite and within 1..100")) ;;;
    change_percent who speed_refusal (fun c => c <| product_speed_percent := speed_percent |>)).

Definition native_runtime_set_max_speed (who : nat) (percent : f32) : Pd (B := B) (Native unit) :=
  commanding "" (
    refuse_with (require_pv_maximum_percent percent "ordinary PV maximum speed percentage") ;;;
    change_percent who max_speed_refusal
      (fun c => c <| product_pv_max_velocity_percent := percent |>)).

Definition native_runtime_set_max_acceleration (who : nat) (percent : f32) :
    Pd (B := B) (Native unit) :=
  commanding "" (
    refuse_with (require_pv_maximum_percent percent "ordinary PV maximum acceleration percentage") ;;;
    change_percent who max_acceleration_refusal
      (fun c => c <| product_pv_max_acceleration_percent := percent |>)).

Definition get_percent (who : nat) (refusal : string) (f : ProductCore -> f32) :
    Pd (B := B) (Native f32) :=
  querying (
    do product <- checked_yunyi;
    require_mode ModePv refusal ;;;
    with_mutex who LimitsMutex (do x <- get_core f; pret (NativeOk x))).

Definition native_runtime_get_speed_percent (who : nat) : Pd (B := B) (Native f32) :=
  get_percent who speed_refusal product_speed_percent.
Definition native_runtime_get_max_speed (who : nat) : Pd (B := B) (Native f32) :=
  get_percent who max_speed_refusal product_pv_max_velocity_percent.
Definition native_runtime_get_max_acceleration (who : nat) : Pd (B := B) (Native f32) :=
  get_percent who max_acceleration_refusal product_pv_max_acceleration_percent.

(** ** Grippers *)

Definition GRIPPER_STRENGTH_MAX : Z := 10.

Definition gripper_mode_of (mode : Z) : option ArticoreGripperMode :=
  if mode =? 0 then Some GRIPPER_MODE_PROTECTED
  else if mode =? 1 then Some GRIPPER_MODE_DIRECT else None.

Definition gripper_commands (r : YunyiRuntimeResources) (openings : list f32) (strength : Z) :
    list ArticoreGripperCommand :=
  map (fun side => Build_ArticoreGripperCommand (nth side (ry_grippers r) 0%nat)
                     (at_ openings side) (f32_of_Z 1000) strength)
    (List.filter (gripper_on r) (seq 0 2)).

Definition set_product_grippers_impl (who : nat) (left_opening right_opening : f32)
    (strength minimum_strength mode : Z) (strength_error : string) : Pd (B := B) (Native unit) :=
  commanding "" (
    if negb (f32_isfinite left_opening) || negb (f32_isfinite right_opening) then
      pthrow (InvalidArgument "gripper opening contains NaN or Inf")
    else if (strength <? minimum_strength) || (GRIPPER_STRENGTH_MAX <? strength) then
      pthrow (InvalidArgument strength_error)
    else
      match gripper_mode_of mode with
      | None => pthrow (InvalidArgument "gripper mode must be PROTECTED or DIRECT")
      | Some mode =>
          do product <- checked_yunyi;
          (if any_gripper product then
             let clamp x := f32_clamp x f32_zero (f32_of_Z 1000) in
             on_runtime (set_gripper_commands who
               (gripper_commands product [clamp left_opening; clamp right_opening] strength) mode)
           else pret tt) ;;;
          record_ok OPERATION_COMMAND ;;;
          pret (NativeOk tt)
      end).

Definition native_runtime_set_grippers (who : nat) (left_opening right_opening : f32)
    (strength mode : Z) : Pd (B := B) (Native unit) :=
  set_product_grippers_impl who left_opening right_opening strength GRIPPER_STRENGTH_MIN mode
    "gripper strength must be in the range 0..10".

(** ** Inverse kinematics *)

(** [read_yunyi_motor_state(motor, state, stats)]. *)
Definition read_yunyi_motor_state (motor : handle) :
    Pd (B := B) (option (ArticoreMotorState * ArticoreFeedbackStats)) :=
  if (motor =? 0)%nat then pret None
  else
    do r <- lift (read (fun s : Safety B => motor_snapshot motor (rt_backend s)));
    pret (match r with
          | Some (state, (has_feedback, count, age)) =>
              Some (default no_MotorState state,
                    Build_ArticoreFeedbackStats has_feedback count (if age <? 0 then 0 else age))
          | None => None
          end).

Definition cached_position (fresh_limit : Z) (joint : ProductJoint) (index : nat) :
    Pd (B := B) f32 :=
  do r <- read_yunyi_motor_state (pj_motor joint);
  match r with
  | Some (motor, stats) =>
      if ams_has_value motor && afs_has_feedback stats && (afs_age_ns stats <=? fresh_limit) &&
         f32_isfinite (ams_pos motor)
      then pret (f32_mul (pj_direction joint) (ams_pos motor))
      else pthrow (RuntimeError
        ("solve_ik requires fresh complete joint feedback at " ++ yunyi_joint_role index)%string)
  | None => pthrow (RuntimeError
      ("solve_ik requires fresh complete joint feedback at " ++ yunyi_joint_role index)%string)
  end.

Definition unavailable_reference : string := "current planned arm reference is unavailable".

(** A [std::runtime_error] with this text is handled, everything else goes
    on. *)
Definition reference_unavailable (e : exn) : bool :=
  match e with
  | RuntimeError what | InvalidRuntimeState what => String.eqb what unavailable_reference
  | _ => false
  end.

Definition product_ik_reference (who : nat) (product : YunyiRuntimeResources)
    (joints : list NativeTrajectoryJoint) : Pd (B := B) NativeTrajectorySample :=
  do planned <- pcatch
    (do x <- lift (with_command who (planned_arm_sample joints)); pret (Some x))
    (fun e => if reference_unavailable e then pret None else pthrow e);
  match planned with
  | Some reference => pret reference
  | None =>
      do fresh_limit <- lift (read (fun s : Safety B => feedback_max_age_ns (rt_config s)));
      do positions <- collect (seq 0 PRODUCT_DUAL_ARM_DOF) (fun index =>
        cached_position fresh_limit (joint_at product index) index);
      pret {| sa_active := false; sa_motion_id := 0; sa_operation := OPERATION_NONE;
              sa_positions := positions; sa_velocities := zeros PRODUCT_DUAL_ARM_DOF;
              sa_accelerations := zeros PRODUCT_DUAL_ARM_DOF |}
  end.

Definition kYunyiProductIkBudget : Z := 8000000.

Definition native_runtime_solve_ik (who : nat) (left_target_pose right_target_pose : Pose) :
    Pd (B := B) (Native JointArray) :=
  querying (
    refuse_with (require_finite left_target_pose "left target pose") ;;;
    refuse_with (require_finite right_target_pose "right target pose") ;;;
    with_mutex who MotionMutex (
      checked ;;;
      do product <- checked_yunyi;
      do reference <- product_ik_reference who product (product_cartesian_joints product);
      do now <- product_clock;
      do product <- current_yunyi;
      do mode <- get_core product_mode;
      do target <- Done (plan_dual_ik product mode reference left_target_pose right_target_pose
                           (now + kYunyiProductIkBudget));
      pret (NativeOk target))).

(** ** Planned motions *)

Record CartesianSpeedScale := {
  reference_velocity : f32;
  reference_acceleration : f32
}.

Definition speed_scale_of (percent : f32) : CartesianSpeedScale :=
  let scale := f32_div percent percent_hundred in
  {| reference_velocity := f32_mul kYunyiCartesianMaximumVelocity scale;
     reference_acceleration :=
       f32_mul (f32_mul kYunyiTrajectoryPvAccelerationLimit scale) scale |}.

Definition cartesian_speed_scale (who : nat) : Pd (B := B) CartesianSpeedScale :=
  with_mutex who LimitsMutex (
    do percent <- get_core product_speed_percent;
    pret (speed_scale_of percent)).

(** The reference a motion is planned from: the end of the queue, or where the
    arm is. *)
Definition planned_reference (enqueue : bool) (joints : list NativeTrajectoryJoint) :
    Rt (B := B) NativeTrajectorySample :=
  if enqueue then planned_trajectory_tail_sample joints else planned_arm_sample joints.

(** The first transaction: the token and the reference, or why there is none. *)
Definition begin_planning (who : nat) (enqueue : bool) (joints : list NativeTrajectoryJoint) :
    Rt (B := B) (Z * (exn + NativeTrajectorySample)) :=
  with_command who (
    do token <- begin_command_planning enqueue;
    do reference <- pcatch (do x <- planned_reference enqueue joints; pret (inr x))
                      (fun e => pret (inl e));
    pret (token, reference)).

(** The second transaction: the motion is started where the reference is the
    same. *)
Definition start_planned (who : nat) (enqueue : bool) (joints : list NativeTrajectoryJoint)
    (reference : NativeTrajectorySample) (motion_name : string) (rq : NativeTrajectoryRequest)
    (operation : ArticoreRuntimeOperation) (token : Z) : Rt (B := B) Z :=
  with_command who (
    do current <- planned_reference enqueue joints;
    refuse_with (require_unchanged_planned_reference reference current motion_name) ;;;
    do id <- start_trajectory who rq 0 true enqueue token;
    record operation OPERATION_OK "" ;;;
    pret id).

Definition move_trajectory_impl (who : nat) (enqueue : bool) (motion_name : string)
    (operation : ArticoreRuntimeOperation)
    (plan : YunyiRuntimeResources -> ControlMode -> NativeTrajectorySample ->
            CartesianSpeedScale -> outcome NativeTrajectoryRequest) : Pd (B := B) (Native Z) :=
  recording operation (with_mutex who MotionMutex (
    checked ;;;
    do product <- checked_yunyi;
    let joints := product_cartesian_joints product in
    do begun <- lift (begin_planning who enqueue joints);
    ensuring
      (do reference <- raise begun.2;
       do speed <- cartesian_speed_scale who;
       do product <- current_yunyi;
       do mode <- get_core product_mode;
       do rq <- Done (plan product mode reference speed);
       do id <- lift (start_planned who enqueue joints reference motion_name rq operation begun.1);
       pret (NativeOk id))
      (lift (cancel_command_planning begun.1)))).

Definition move_linear_trajectory_impl (who : nat) (side : Z) (start_pose : option Pose)
    (end_pose : Pose) (enqueue : bool) (operation : ArticoreRuntimeOperation) :
    Pd (B := B) (Native Z) :=
  move_trajectory_impl who enqueue "linear" operation (fun product mode reference speed =>
    match plan_linear product mode side reference start_pose end_pose
            (reference_acceleration speed) (reference_velocity speed) with
    | Returned rq => Returned (rq <| rq_operation := operation |>)
    | o => o
    end).

Definition move_circular_trajectory_impl (who : nat) (side : Z) (start_pose via_pose end_pose : Pose)
    (enqueue : bool) : Pd (B := B) (Native Z) :=
  move_trajectory_impl who enqueue "circular" OPERATION_MOVE_CIRCULAR
    (fun product mode reference speed =>
       plan_circular product mode side reference start_pose via_pose end_pose
         (reference_acceleration speed) (reference_velocity speed)).

Definition native_runtime_move_pose (who : nat) (side : Z) (target_pose : Pose) :
    Pd (B := B) (Native Z) :=
  move_linear_trajectory_impl who side None target_pose false OPERATION_MOVE_POSE.

Definition native_runtime_move_linear (who : nat) (side : Z) (start_pose : option Pose)
    (end_pose : Pose) : Pd (B := B) (Native Z) :=
  move_linear_trajectory_impl who side start_pose end_pose false OPERATION_MOVE_LINEAR.

Definition native_runtime_move_circular (who : nat) (side : Z) (start_pose via_pose end_pose : Pose) :
    Pd (B := B) (Native Z) :=
  move_circular_trajectory_impl who side start_pose via_pose end_pose false.

Definition native_runtime_stop_motion (who : nat) : Pd (B := B) (Native unit) :=
  catching_all
    (with_mutex who MotionMutex (
       on_runtime (cancel_all_motions who) ;;;
       record_ok OPERATION_STOP_MOTION ;;;
       pret (NativeOk tt)))
    (fun what => record_if OPERATION_STOP_MOTION OPERATION_INVALID_STATE what ;;;
                 pret (refused OPERATION_INVALID_STATE what)).

End Operations.
