(* ===== verification/ProductOps.v ===== *)
(** * The product runtime: lifecycle, state and tool offsets

    The other operations of [runtime/src/yunyi_runtime_core.cpp]: connecting
    and disconnecting, the modes and the power, the guided modes, and what can
    be read: the state of the joints and grippers, the pose of a tool, the
    tool offsets, the limits and the health. *)

From Stdlib Require Import String.
From S2P Require Import Prelude Float32 Float64 PvShaping RuntimeTypes Threads NativeTypes SafetyState Motions Gripper Commands TrajectoryCycle Planning JointPosition Enable Lifecycle Maintenance Recover Gravity Health Yunyi Product ProductCommands.
#[local] Open Scope mdl_scope.
#[local] Open Scope thread_scope.

(** [RobotModel], built for a side and a tool offset
    ([runtime/src/robot_model.cpp], on Pinocchio): what its constructor throws,
    and forward kinematics. *)
Record ArticoreRobotPose := {
  rp_position : list f64;
  rp_rotation : list f64
}.

Class RobotModels := {
  robot_model_error : Z -> list f32 -> option exn;
  robot_fk : Z -> list f32 -> list f64 -> outcome ArticoreRobotPose
}.

Definition control_mode_of (mode : Z) : option ControlMode :=
  if mode =? 1 then Some ModePv else if mode =? 2 then Some ModeMit else None.

(** ** The state of the product *)

(** What one motor contributes: [jr_feedback] is the age and the number of its
    last update. *)
Record JointReading := {
  jr_position : f32;
  jr_velocity : f32;
  jr_torque : f32;
  jr_mos_temperature : f32;
  jr_rotor_temperature : f32;
  jr_enabled_valid : bool;
  jr_enabled : bool;
  jr_temperature_valid : bool;
  jr_fresh : bool;
  jr_feedback : option (Z * Z)
}.

Definition unavailable : f32 := S754_nan.

Definition joint_reading (fresh_limit : Z) (joint : ProductJoint)
    (r : option (ArticoreMotorState * ArticoreFeedbackStats)) : JointReading :=
  let motor := default no_MotorState (fst <$> r) in
  let has_value := bool_decide (is_Some r) && ams_has_value motor in
  let feedback :=
    match r with
    | Some (_, stats) =>
        if has_value && afs_has_feedback stats
        then Some (afs_age_ns stats, afs_update_count stats) else None
    | None => None
    end in
  let fresh := match feedback with Some (age, _) => age <=? fresh_limit | None => false end in
  let power_valid := fresh && (ams_status_code motor <=? 1) in
  let temperature_valid :=
    fresh && f32_isfinite (ams_t_mos motor) && f32_isfinite (ams_t_rotor motor) in
  let value x := if has_value then x else unavailable in
  let temperature x := if temperature_valid then x else unavailable in
  {| jr_position := value (f32_mul (pj_direction joint) (ams_pos motor));
     jr_velocity := value (f32_mul (f32_mul (pj_direction joint) (ams_vel motor))
                             (pj_velocity_feedback_scale joint));
     jr_torque := value (f32_mul (f32_mul (pj_direction joint) (ams_torq motor))
                           (pj_torque_feedback_scale joint));
     jr_mos_temperature := temperature (ams_t_mos motor);
     jr_rotor_temperature := temperature (ams_t_rotor motor);
     jr_enabled_valid := power_valid; jr_enabled := power_valid && (ams_status_code motor =? 1);
     jr_temperature_valid := temperature_valid; jr_fresh := fresh; jr_feedback := feedback |}.

(** [maximum_age], [sequence] and [complete_timing]. *)
Record Timing := { tm_maximum_age : Z; tm_sequence : Z; tm_complete : bool }.

Definition u64_max : Z := 2 ^ 64 - 1.

Definition no_timing : Timing := Build_Timing 0 u64_max true.

Definition count_feedback (t : Timing) (feedback : option (Z * Z)) : Timing :=
  match feedback with
  | Some (age, count) =>
      Build_Timing (Z.max (tm_maximum_age t) age) (Z.min (tm_sequence t) count) (tm_complete t)
  | None => Build_Timing (tm_maximum_age t) (tm_sequence t) false
  end.

Definition timestamp_of (now : Z) (t : Timing) : Z :=
  if tm_maximum_age t <? u64 now then u64 now - tm_maximum_age t else 0.
Definition sequence_of (t : Timing) : Z := if tm_sequence t =? u64_max then 0 else tm_sequence t.

Record ArticoreProductArmState := {
  pa_positions : list f32;
  pa_velocities : list f32;
  pa_torques : list f32;
  pa_mos_temperatures : list f32;
  pa_rotor_temperatures : list f32;
  pa_enabled_mask : Z;
  pa_enabled_valid_mask : Z;
  pa_temperature_valid_mask : Z
}.

(** [mask |= 1U << index] over the joints of an arm. *)
Definition mask_of (f : JointReading -> bool) (l : list JointReading) : Z :=
  fold_left Z.lor (imap (fun i r => if f r then Z.shiftl 1 (Z.of_nat i) else 0) l) 0.

Definition arm_state (l : list JointReading) : ArticoreProductArmState := {|
  pa_positions := map jr_position l; pa_velocities := map jr_velocity l;
  pa_torques := map jr_torque l; pa_mos_temperatures := map jr_mos_temperature l;
  pa_rotor_temperatures := map jr_rotor_temperature l;
  pa_enabled_mask := mask_of jr_enabled l; pa_enabled_valid_mask := mask_of jr_enabled_valid l;
  pa_temperature_valid_mask := mask_of jr_temperature_valid l |}.

(** The members of a side's gripper. *)
Record ProductGripperState := {
  pg_available : bool;
  pg_feedback_valid : bool;
  pg_opening : f32;
  pg_level : Z;
  pg_enabled : bool;
  pg_enabled_valid : bool;
  pg_mos_temperature : f32;
  pg_rotor_temperature : f32;
  pg_temperature_valid : bool
}.

Definition no_gripper : ProductGripperState := {|
  pg_available := false; pg_feedback_valid := false; pg_opening := unavailable; pg_level := 0;
  pg_enabled := false; pg_enabled_valid := false; pg_mos_temperature := unavailable;
  pg_rotor_temperature := unavailable; pg_temperature_valid := false |}.

Definition gripper_opening (side : nat) (l : list ArticoreGripperHealth) : f32 :=
  fold_left (fun x g => if gh_side g =? Z.of_nat side then gh_opening g else x) (firstn 2 l)
    unavailable.

Definition gripper_state (side : nat) (r : JointReading) (level : Z)
    (health : list ArticoreGripperHealth) : ProductGripperState := {|
  pg_available := true; pg_feedback_valid := jr_fresh r; pg_opening := gripper_opening side health;
  pg_level := level; pg_enabled := jr_enabled r; pg_enabled_valid := jr_enabled_valid r;
  pg_mos_temperature := jr_mos_temperature r; pg_rotor_temperature := jr_rotor_temperature r;
  pg_temperature_valid := jr_temperature_valid r |}.

Record ArticoreProductState := {
  ps_has_grippers : bool;
  ps_left : ArticoreProductArmState;
  ps_right : ArticoreProductArmState;
  ps_grippers : list ProductGripperState;
  ps_motion_arrived : bool;
  ps_timestamp_ns : Z;
  ps_sequence : Z
}.

Record ArticoreProductPose := {
  pp_side : Z;
  pp_values : list f32;
  pp_timestamp_ns : Z;
  pp_sequence : Z
}.

Record ArticoreTcpOffset := { to_side : Z; to_values : list f32 }.

Definition side_valid (side : Z) : bool := (side =? 0) || (side =? 1).

(** Roll, pitch and yaw of a rotation; in the gimbal lock the yaw is zero. *)
Definition rpy_of_rotation `{!Libm} (rotation : list f64) : f64 * f64 * f64 :=
  let r i := nth i rotation f64_zero in
  let one := f64_of_Z 1 in
  let pitch := libm_asin (f64_clamp (f64_opp (r 6%nat)) (f64_opp one) one) in
  if f64_lt (f64_lit 1 1000000000) (f64_abs (libm_cos pitch)) then
    (libm_atan2 (r 7%nat) (r 8%nat), pitch, libm_atan2 (r 3%nat) (r 0%nat))
  else (libm_atan2 (f64_opp (r 5%nat)) (r 4%nat), pitch, f64_zero).

Section Operations.
Context {B : Type} `{!MotorBackend B} `{!MotorSnapshots B} `{!Libm} `{!RobotModels}.

Definition read_product_joint (fresh_limit : Z) (joint : ProductJoint) : Pd (B := B) JointReading :=
  do r <- read_yunyi_motor_state (pj_motor joint); pret (joint_reading fresh_limit joint r).

(** The driver's scales do not concern a gripper. *)
Definition gripper_joint (motor : handle) : ProductJoint := {|
  pj_motor := motor; pj_direction := f32_one; pj_lower := f32_zero; pj_upper := f32_zero;
  pj_velocity_limit := f32_zero; pj_acceleration_limit := f32_zero; pj_torque_limit := f32_zero;
  pj_velocity_command_scale := f32_one; pj_velocity_feedback_scale := f32_one;
  pj_torque_command_scale := f32_one; pj_torque_feedback_scale := f32_one; pj_kp := f32_zero;
  pj_kd := f32_zero |}.

Definition read_gripper (fresh_limit : Z) (product : YunyiRuntimeResources)
    (health : list ArticoreGripperHealth) (side : nat) :
    Pd (B := B) (ProductGripperState * option (option (Z * Z))) :=
  if negb (gripper_on product side) then pret (no_gripper, None)
  else
    do r <- read_product_joint fresh_limit (gripper_joint (nth side (ry_grippers product) 0%nat));
    do level <- lift (gripper_force_level (Z.of_nat side));
    pret (gripper_state side r level health, Some (jr_feedback r)).

Definition installed_feedback (l : list (ProductGripperState * option (option (Z * Z)))) :
    list (option (Z * Z)) :=
  concat (map (fun g => match snd g with Some f => [f] | None => [] end) l).

Definition native_runtime_get_state (who : nat) : Pd (B := B) (Native ArticoreProductState) :=
  catching_all (
    do product <- checked_yunyi;
    checked ;;;
    do arrived <- lift motion_arrived;
    do fresh_limit <- lift (read (fun s : Safety B => feedback_max_age_ns (rt_config s)));
    do joints <- collect (seq 0 PRODUCT_DUAL_ARM_DOF) (fun i =>
      read_product_joint fresh_limit (joint_at product i));
    do grippers <- (
      if any_gripper product then
        do h <- lift (health who);
        collect (seq 0 2) (read_gripper fresh_limit product (ah_grippers h))
      else pret [(no_gripper, None); (no_gripper, None)]);
    let timing := fold_left count_feedback
      (map jr_feedback joints ++ installed_feedback grippers) no_timing in
    do now <- product_clock;
    pret (NativeOk {|
      ps_has_grippers := any_gripper product;
      ps_left := arm_state (firstn PRODUCT_ARM_DOF joints);
      ps_right := arm_state (skipn PRODUCT_ARM_DOF joints);
      ps_grippers := map fst grippers; ps_motion_arrived := arrived;
      ps_timestamp_ns := if tm_complete timing then timestamp_of now timing else 0;
      ps_sequence := if tm_complete timing then sequence_of timing else 0 |}))
    (fun what => pret (minus_one what)).

Definition native_runtime_get_joint_angle_vel_limits : Pd (B := B) (Native JointLimits) :=
  catching_all (
    do product <- checked_yunyi;
    let of_joints f := map (fun i => f (joint_at product i)) (seq 0 PRODUCT_DUAL_ARM_DOF) in
    pret (NativeOk {| lower_angles := of_joints pj_lower; upper_angles := of_joints pj_upper;
                      velocity_limits := of_joints pj_velocity_limit |}))
    (fun what => pret (minus_one what)).

(** ** The pose of a tool *)

(** One joint of the arm: its position, age and number of updates. *)
Definition pose_joint (product : YunyiRuntimeResources) (side : Z) (index : nat) :
    Pd (B := B) (f64 * (Z * Z)) :=
  let joint := joint_at product (Z.to_nat side * PRODUCT_ARM_DOF + index)%nat in
  let missing := RuntimeError
    ("complete pose feedback is unavailable for " ++
     (if (side =? 0)%Z then "left/joint" else "right/joint") ++
     to_string (Z.of_nat index + 1))%string in
  do r <- read_yunyi_motor_state (pj_motor joint);
  match r with
  | Some (motor, stats) =>
      if negb (ams_has_value motor && afs_has_feedback stats) then pthrow missing
      else
        let q := f64_of_f32 (f32_mul (pj_direction joint) (ams_pos motor)) in
        if f64_isfinite q then pret (q, (afs_age_ns stats, afs_update_count stats))
        else pthrow (RuntimeError "pose feedback contains NaN or Inf")
  | None => pthrow missing
  end.

(** [product.tcp_offsets[side]]; the pose model of the side was built with
    it. *)
Definition tcp_offset_of (product : YunyiRuntimeResources) (side : Z) : list f32 :=
  nth (Z.to_nat side) (ry_tcp_offsets product) [].

Definition native_runtime_get_pose (side : Z) : Pd (B := B) (Native ArticoreProductPose) :=
  if negb (side_valid side) then
    pret (minus_one "product pose side must be LEFT(0) or RIGHT(1)")
  else
    catching_all (
      do product <- checked_yunyi;
      do joints <- collect (seq 0 PRODUCT_ARM_DOF) (pose_joint product side);
      let timing := fold_left count_feedback (map (fun x => Some x.2) joints) no_timing in
      do product <- current_yunyi;
      do native_pose <- Done (robot_fk side (tcp_offset_of product side) (map fst joints));
      let '(roll, pitch, yaw) := rpy_of_rotation (rp_rotation native_pose) in
      do now <- product_clock;
      pret (NativeOk {|
        pp_side := side;
        pp_values := map f32_of_f64
          (map (fun i => nth i (rp_position native_pose) f64_zero) [0; 1; 2]%nat ++
           [roll; pitch; yaw]);
        pp_timestamp_ns := timestamp_of now timing; pp_sequence := sequence_of timing |}))
      (fun what => pret (minus_one what)).

(** ** Tool offsets *)

Definition tcp_offset_refusal (st : SafetyState) (disable_confirmed : bool) : option exn :=
  match st with
  | Disconnected => None
  | Ready => if disable_confirmed then None
             else Some (RuntimeError "TCP offset requires confirmed physical disable in READY")
  | _ => Some (RuntimeError "TCP offset can only be changed while disconnected or READY")
  end.

Definition store_tcp_offset (side : Z) (values : list f32) (c : ProductCore) : ProductCore :=
  c <| yunyi ::= option_map (fun r =>
         r <| ry_tcp_offsets ::= fun l => <[Z.to_nat side := values]> l |>) |>.

Definition native_runtime_set_tcp_offset (who : nat) (offset : ArticoreTcpOffset) :
    Pd (B := B) (Native unit) :=
  recording OPERATION_SET_TCP_OFFSET (
    if negb (side_valid (to_side offset)) then
      pthrow (InvalidArgument "TCP offset side must be LEFT(0) or RIGHT(1)")
    else
      refuse_with (require_finite (to_values offset) "TCP offset") ;;;
      checked ;;;
      do product <- checked_yunyi;
      do h <- lift (health who);
      refuse_with (tcp_offset_refusal (ah_state h) (ah_disable_confirmed h)) ;;;
      refuse_with (robot_model_error (to_side offset) (to_values offset)) ;;;
      do resources <- current_yunyi;
      set_core (store_tcp_offset (to_side offset) (to_values offset)) ;;;
      lift (record OPERATION_SET_TCP_OFFSET OPERATION_OK "") ;;;
      pret (NativeOk tt)).

Definition native_runtime_get_tcp_offset (side : Z) : Pd (B := B) (Native ArticoreTcpOffset) :=
  if negb (side_valid side) then
    pret (refused OPERATION_INVALID_ARGUMENT "TCP offset side must be LEFT(0) or RIGHT(1)")
  else
    catching_all (
      do product <- checked_yunyi;
      do product <- current_yunyi;
      pret (NativeOk (Build_ArticoreTcpOffset side (tcp_offset_of product side))))
      (fun what => pret (refused OPERATION_INVALID_STATE what)).

(** [product.gripper_present[side]] is read before the side is checked. *)
Definition native_runtime_reset_tcp_offset (who : nat) (side : Z) : Pd (B := B) (Native unit) :=
  catching_all (
    do product <- checked_yunyi;
    do present <- pdefined (nth_error (ry_gripper_present product) (Z.to_nat side));
    native_runtime_set_tcp_offset who
      (Build_ArticoreTcpOffset side (default_yunyi_tcp_offset present)))
    (fun what => pret (refused OPERATION_INVALID_STATE what)).

(** ** Grippers, modes *)

Definition native_runtime_has_grippers : Pd (B := B) (Native bool) :=
  call (do product <- checked_yunyi; pret (any_gripper product)).

Definition native_runtime_get_gripper_presence : Pd (B := B) (Native (bool * bool)) :=
  call (do product <- checked_yunyi; pret (gripper_on product 0, gripper_on product 1)).

Definition native_runtime_get_control_mode : Pd (B := B) (Native ControlMode) :=
  call (
    checked ;;;
    do c <- get_core (fun c => (yunyi c, product_mode c));
    match c.1 with
    | Some _ => pret c.2
    | None => lift control_mode
    end).

(** [configure_mode(mode)] of the safety runtime, with a mode that may be none
    ([runtime/src/runtime_maintenance.cpp]). *)
Definition configure_mode_value (who : nat) (mode : Z) : Rt (B := B) ArticoreOperationError :=
  match control_mode_of mode with
  | Some mode => configure_mode who mode
  | None =>
      with_lifecycle who (with_command who (
        record OPERATION_CONFIGURE_MODE OPERATION_INVALID_ARGUMENT "unsupported control mode" ;;;
        pret OPERATION_INVALID_ARGUMENT))
  end.

(** What an operation of the safety runtime that returns a code leads to. *)
Definition coded (who : nat) (code : ArticoreOperationError) : Pd (B := B) (Native unit) :=
  if ok_code code then pret (NativeOk tt)
  else do h <- on_runtime (health who); pret (refused code (ah_last_operation_error h)).

Definition maintaining (p : Pd (B := B) (Native unit)) : Pd (B := B) (Native unit) :=
  catching_all p (fun what => pret (refused OPERATION_INVALID_ARGUMENT what)).

Definition native_runtime_configure_mode (who : nat) (mode : Z) : Pd (B := B) (Native unit) :=
  maintaining (
    do result <- on_runtime (configure_mode_value who mode);
    (match control_mode_of mode with
     | Some mode =>
         if ok_code result then
           do y <- get_core yunyi;
           match y with
           | Some _ => set_core (fun c => c <| product_mode := mode |>)
           | None => pret tt
           end
         else pret tt
     | None => pret tt
     end) ;;;
    coded who result).

Definition native_runtime_clear_faults (who : nat) : Pd (B := B) (Native unit) :=
  maintaining (do result <- on_runtime (clear_faults who); coded who result).

Definition native_runtime_set_zero (who : nat) : Pd (B := B) (Native unit) :=
  maintaining (do result <- on_runtime (set_zero who); coded who result).

(** ** Connecting *)

Definition native_runtime_connect (who : nat) : Pd (B := B) (Native unit) :=
  catching_all (
    do previous <- on_runtime (health who);
    on_runtime (connect who) ;;;
    let connected := record_ok OPERATION_CONNECT ;;; pret (NativeOk tt) in
    do y <- get_core yunyi;
    match y with
    | None => connected
    | Some _ =>
        do h <- on_runtime (health who);
        if bool_decide (ah_state previous = Fault) || bool_decide (ah_state h = Fault)
        then connected
        else
          checked ;;;
          do mode <- get_core product_mode;
          do configured <- lift (configure_mode_for_connect who mode);
          if ok_code configured then connected else coded who configured
    end)
    (fun what => record_if OPERATION_CONNECT OPERATION_FEEDBACK what ;;; pret (minus_one what)).

(** [runtime->runtime.reset()]: the pointer first, then the destructor, whose
    [close] may throw. *)
Definition destroy_runtime (who : nat) : Pd (B := B) unit :=
  do has <- has_runtime;
  pwhen has (
    write (fun s : Product B => s <| pd_runtime_set := false |>) ;;;
    lift (pcatch (close who) (fun _ => stop_worker)) ;;;
    write (fun s : Product B => s <| pd_runtime := None |>)).

(** What a failed disconnect leaves in [failure]. *)
Definition disconnect_once (who : nat) : Pd (B := B) (option string) :=
  pcatch
    (on_runtime (close who) ;;; record_ok OPERATION_DISCONNECT ;;; pret None)
    (fun e =>
       match e with
       | OtherException _ => pthrow e
       | _ => record_if OPERATION_DISCONNECT OPERATION_VERIFICATION (exn_what e) ;;;
              pret (Some (exn_what e))
       end).

Definition native_runtime_disconnect (who : nat) : Pd (B := B) (Native unit) :=
  with_mutex who TerminalMutex (
    do c <- get_core (fun c => (yunyi_owned c, core_terminally_disconnected c));
    if c.1 && c.2 then pret (NativeOk tt)
    else
      do failure <- disconnect_once who;
      (if c.1 : bool then
         destroy_runtime who ;;;
         set_core (fun c => c <| yunyi := None |>) ;;;
         set_core (fun c => c <| core_terminally_disconnected := true |>)
       else pret tt) ;;;
      pret (match failure with
            | Some what => if c.1 && str_empty what then NativeOk tt else minus_one what
            | None => NativeOk tt
            end)).

(** ** Power and the guided modes *)

Definition native_runtime_enable (who : nat) : Pd (B := B) (Native unit) :=
  pcatch (
    do product <- checked_yunyi;
    checked ;;;
    do mode <- get_core product_mode;
    lift (enable who mode) ;;;
    lift (record OPERATION_ENABLE OPERATION_OK "") ;;;
    pret (NativeOk tt))
    (fun e =>
       match e with
       | InvalidRuntimeState what =>
           record_if OPERATION_ENABLE OPERATION_INVALID_STATE what ;;;
           pret (refused OPERATION_INVALID_STATE what)
       | OtherException _ => pthrow e
       | _ =>
           record_if OPERATION_ENABLE OPERATION_MOTOR_COMMAND (exn_what e) ;;;
           pret (minus_one (exn_what e))
       end).

Definition native_runtime_disable (who : nat) : Pd (B := B) (Native unit) :=
  catching_all
    (on_runtime (disable who) ;;; record_ok OPERATION_DISABLE ;;; pret (NativeOk tt))
    (fun what => record_if OPERATION_DISABLE OPERATION_VERIFICATION what ;;; pret (minus_one what)).

Definition native_runtime_estop (who : nat) : Pd (B := B) (Native unit) :=
  call (on_runtime (estop who)).

Definition native_runtime_recover (who : nat) : Pd (B := B) (Native unit) :=
  call (on_runtime (recover who)).

Definition native_runtime_start_gravity_compensation (who : nat) (transition_ms : Z) :
    Pd (B := B) (Native unit) :=
  call (on_runtime (start_gravity_compensation who (Some transition_ms))).

Definition native_runtime_stop_gravity_compensation (who : nat) : Pd (B := B) (Native unit) :=
  call (on_runtime (stop_gravity_compensation who)).

Definition native_runtime_get_gravity_compensation_status : Pd (B := B) (Native GravityControl) :=
  call (on_runtime gravity_compensation_status).

Definition native_runtime_start_bimanual_follow (who : nat) (leader_side : Z) :
    Pd (B := B) (Native unit) :=
  recording OPERATION_START_BIMANUAL_FOLLOW (
    on_runtime (start_bimanual_follow who leader_side) ;;;
    record_ok OPERATION_START_BIMANUAL_FOLLOW ;;;
    pret (NativeOk tt)).

Definition native_runtime_stop_bimanual_follow (who : nat) : Pd (B := B) (Native unit) :=
  recording OPERATION_STOP_BIMANUAL_FOLLOW (
    on_runtime (stop_bimanual_follow who) ;;;
    record_ok OPERATION_STOP_BIMANUAL_FOLLOW ;;;
    pret (NativeOk tt)).

Definition native_runtime_get_bimanual_follow_status :
    Pd (B := B) (Native BimanualFollowControl) :=
  call (on_runtime bimanual_follow_status).

Definition native_runtime_get_health (who : nat) : Pd (B := B) (Native ArticoreSafetyHealth) :=
  call (on_runtime (health who)).

End Operations.
