(* ===== verification/Facade.v ===== *)
(** * The product facade

    [YunyiRuntimeCore] (the end of [runtime/src/yunyi_runtime_core.cpp]) and
    [YunyiRuntime] ([runtime/src/yunyi_runtime_facade.cpp]): the methods the
    service calls.  [product_call] is the [YunyiRuntime] the service is
    modelled over, as programs on the state of the product. *)

From Stdlib Require Import String.
From S2P Require Import Prelude Float32 Float64 RuntimeTypes Threads NativeTypes SafetyState Lifecycle Gravity Health ServiceState Yunyi Product ProductCommands ProductOps.
#[local] Open Scope mdl_scope.
#[local] Open Scope thread_scope.

(** ** Errors *)

Definition mentions (message : string) (words : list string) : bool :=
  existsb (fun w => str_contains w message) words.

Definition classify_exception (e : exn) : RuntimeErrorCode :=
  match e with
  | InvalidArgument _ => CodeInvalidArgument
  | _ =>
      let message := exn_what e in
      if mentions message ["state"; "enabled"; "disabled"]%string then CodeWrongState
      else if mentions message ["busy"; "active motion"]%string then CodeBusy
      else if mentions message ["timeout"; "timed out"]%string then CodeTimeout
      else if mentions message ["CAN"; "transport"; "socket"]%string then CodeTransportError
      else CodeInternalError
  end.

Definition exception_status (e : exn) : Status :=
  match e with
  | OtherException _ => failure CodeInternalError "unknown Runtime exception"
  | _ => failure (classify_exception e) (exn_what e)
  end.

(** ** Creation *)

(** The processors of the threads, where none is configured. *)
Definition with_processors (cpu_count : Z) (t : ThreadPolicy) : ThreadPolicy := {|
  realtime := realtime t;
  control_cpu := if control_cpu t <? 0 then cpu_count - 1 else control_cpu t;
  can_tx_cpu := if can_tx_cpu t <? 0 then Z.max 0 (cpu_count - 2) else can_tx_cpu t;
  can_rx_cpu := if can_rx_cpu t <? 0 then Z.max 0 (cpu_count - 3) else can_rx_cpu t;
  control_priority := control_priority t; can_tx_priority := can_tx_priority t;
  can_rx_priority := can_rx_priority t; lock_memory := lock_memory t |}.

Definition offline (cpu_count : Z) (t : ThreadPolicy) : bool :=
  (cpu_count <=? control_cpu t) || (cpu_count <=? can_tx_cpu t) || (cpu_count <=? can_rx_cpu t).

Definition priority_outside (p : Z) : bool := (p <? 1) || (99 <? p).

Definition priorities_refused (t : ThreadPolicy) : bool :=
  realtime t && (priority_outside (control_priority t) || priority_outside (can_tx_priority t) ||
                 priority_outside (can_rx_priority t)).

Definition with_threads (t : ThreadPolicy) (c : YunyiRuntimeConfig) : YunyiRuntimeConfig := {|
  left_can_interface := left_can_interface c; right_can_interface := right_can_interface c;
  initial_control_mode := initial_control_mode c; threads := t;
  feedback_max_age := feedback_max_age c; motor_watchdog := motor_watchdog c;
  motor_discovery_timeout := motor_discovery_timeout c;
  motor_discovery_retries := motor_discovery_retries c |}.

Definition interface_refused (name : string) : bool :=
  str_empty name || (15 <? Z.of_nat (String.length name)).

(** What [YunyiRuntime::create] makes of its configuration. *)
Definition checked_config (cpu_count : Z) (c : YunyiRuntimeConfig) : Status + YunyiRuntimeConfig :=
  let invalid text := inl (failure CodeInvalidArgument text) in
  if interface_refused (left_can_interface c) || interface_refused (right_can_interface c) then
    invalid "CAN interface names must contain 1..15 bytes"
  else if String.eqb (left_can_interface c) (right_can_interface c) then
    invalid "left and right CAN interfaces must differ"
  else if (feedback_max_age c <=? 0) || (motor_watchdog c <=? 0) ||
          (motor_discovery_timeout c <=? 0) || (10 <? motor_discovery_retries c) then
    invalid "Runtime timeouts must be positive and discovery retries must be within 0..=10"
  else
    let t := if 0 <? cpu_count then with_processors cpu_count (threads c) else threads c in
    if (0 <? cpu_count) && offline cpu_count t then invalid "configured CPU is not online"
    else if priorities_refused t then invalid "SCHED_FIFO priorities must be within 1..99"
    else inr (with_threads t c).

Definition native_config (c : YunyiRuntimeConfig) : YunyiNativeConfig := {|
  nc_feedback_max_age_ms := u32 (feedback_max_age c);
  nc_motor_watchdog_ms := u32 (motor_watchdog c) |}.

(** ** Conversions *)

Definition gravity_phase_value (p : ArticoreGravityCompensationPhase) : Z :=
  match p with
  | GRAVITY_INACTIVE => 0 | GRAVITY_ENTERING => 1 | GRAVITY_ACTIVE => 2 | GRAVITY_EXITING => 3
  end.

Definition bimanual_phase_value (p : ArticoreBimanualFollowPhase) : Z :=
  match p with
  | BIMANUAL_FOLLOW_INACTIVE => 0 | BIMANUAL_FOLLOW_ENTERING => 1
  | BIMANUAL_FOLLOW_ACTIVE => 2 | BIMANUAL_FOLLOW_EXITING => 3
  end.

(** A side is zero or one wherever the runtime reports one. *)
Definition robot_side (side : Z) : RobotSide := if side =? 0 then Left else Right.

Definition gravity_status (g : GravityControl) : GravityCompensationStatus := {|
  gc_phase := gravity_phase_value (gv_status_phase g); gc_active := gv_status_active g;
  gc_transition_progress := gv_status_transition_progress g;
  gc_control_cycles := gv_status_control_cycles g;
  gc_feedforward_torques := gv_status_feedforward g |}.

Definition follow_status (b : BimanualFollowControl) : BimanualFollowStatus := {|
  bf_phase := bimanual_phase_value (bm_status_phase b); bf_active := bm_status_active b;
  bf_leader := robot_side (bm_status_leader_side b);
  bf_transition_progress := bm_status_transition_progress b;
  bf_control_cycles := bm_status_control_cycles b;
  bf_leader_positions := bm_status_leader_positions b;
  bf_follower_target_positions := bm_status_follower_target_positions b;
  bf_maximum_tracking_error := bm_status_max_tracking_error b; bf_error := bm_status_error b |}.

(** [left | (right << kArmDof)], on 32 bits. *)
Definition both_masks (left right : Z) : Z := Z.lor left (u32 (Z.shiftl right (Z.of_nat kArmDof))).

Definition facade_state (s : ArticoreProductState) : RuntimeState :=
  let l := ps_left s in
  let r := ps_right s in {|
  rs_positions := pa_positions l ++ pa_positions r;
  rs_velocities := pa_velocities l ++ pa_velocities r;
  rs_torques := pa_torques l ++ pa_torques r;
  rs_mos_temperatures := pa_mos_temperatures l ++ pa_mos_temperatures r;
  rs_rotor_temperatures := pa_rotor_temperatures l ++ pa_rotor_temperatures r;
  rs_enabled_mask := both_masks (pa_enabled_mask l) (pa_enabled_mask r);
  rs_enabled_valid_mask := both_masks (pa_enabled_valid_mask l) (pa_enabled_valid_mask r);
  rs_temperature_valid_mask :=
    both_masks (pa_temperature_valid_mask l) (pa_temperature_valid_mask r);
  rs_has_grippers := ps_has_grippers s; rs_gripper_openings := map pg_opening (ps_grippers s);
  rs_gripper_available := map pg_available (ps_grippers s);
  rs_gripper_feedback_valid := map pg_feedback_valid (ps_grippers s);
  rs_motion_arrived := ps_motion_arrived s; rs_timestamp := ps_timestamp_ns s;
  rs_sequence := ps_sequence s |}.

Definition facade_health (h : ArticoreSafetyHealth) : RuntimeHealth := {|
  rh_state := ah_state h; rh_safe_holding := ah_safe_holding h;
  rh_disable_confirmed := ah_disable_confirmed h; rh_degraded := ah_degraded h;
  rh_safe_stopped := ah_safe_stopped h;
  rh_requires_resynchronization := ah_requires_resynchronization h;
  rh_consecutive_send_failures := ah_consecutive_send_failures h;
  rh_consecutive_feedback_failures := ah_consecutive_feedback_failures h;
  rh_fault_reason := ah_fault_reason h; rh_safety_reason := ah_safety_reason h;
  rh_last_operation_error := ah_last_operation_error h; rh_motor_faults := ah_motor_faults h;
  rh_operation_failed_motors := ah_operation_failed_motors h;
  rh_metrics := {| rm_ticks := ah_control_ticks h; rm_overruns := ah_control_overruns h;
                   rm_maximum_period := ah_maximum_control_period_ns h;
                   rm_maximum_send_time := ah_maximum_send_time_ns h |} |}.

Definition topology (present : bool * bool) : HardwareTopology :=
  let effector (b : bool) := if b then DamiaoGripper else EffectorNone in
  {| end_effector_left := effector present.1; end_effector_right := effector present.2;
     topology_revision := 1 + (if present.1 then 1 else 0) + 2 * (if present.2 then 1 else 0) |}.

Section Facade.
Context {B : Type} `{!MotorBackend B} `{!ArmDynamics} `{!MotorSnapshots B} `{!CartesianPlanner}.
Context `{!Libm} `{!RobotModels}.

(** ** [YunyiRuntimeCore] *)

(** [YunyiRuntimeCore::checked()]. *)
Definition core_checked : Pd (B := B) unit :=
  do alive <- read (fun s : Product B => bool_decide (is_Some (pd_core s)));
  if alive then pret tt else pthrow (RuntimeError "Yunyi Runtime core is disconnected").

(** [check_result(native(checked(), ...), operation)]. *)
Definition core_method {A} (operation : string) (p : Pd (B := B) (Native A)) : Pd (B := B) A :=
  core_checked ;;; do r <- p; check_result operation r.

Definition core_action {A} (operation : string) (p : Pd (B := B) (Native A)) : Pd (B := B) unit :=
  core_method operation p ;;; pret tt.

Definition same_counts (c : MitCommand) : bool :=
  forallb (fun l => (length l =? length (mc_positions c))%nat)
    [mc_velocities c; mc_kp c; mc_kd c; mc_feedforward_torques c].

Definition core_set_joint_mit (c : MitCommand) : Pd (B := B) unit :=
  if negb (same_counts c) then
    pthrow (InvalidArgument "MIT frame arrays must have the same joint count")
  else
    core_action "set_joint_mit" (native_runtime_set_joint_mit
      (Build_MitArrays (mc_positions c) (mc_velocities c) (mc_kp c) (mc_kd c)
         (mc_feedforward_torques c)) (length (mc_positions c))).

(** [state_.reset()], after the native disconnect has emptied it. *)
Definition reset_core (s : Product B) : Product B :=
  s <| pd_core := None |> <| pd_runtime_set := false |> <| pd_runtime := None |>.

Definition core_disconnect (who : nat) : Pd (B := B) unit :=
  do alive <- read (fun s : Product B => bool_decide (is_Some (pd_core s)));
  if negb alive then pret tt
  else
    do result <- native_runtime_disconnect who;
    write reset_core ;;;
    check_result "disconnect" result.

(** The destructor: [release()]. *)
Definition core_release (who : nat) : Pd (B := B) unit :=
  do alive <- read (fun s : Product B => bool_decide (is_Some (pd_core s)));
  if negb alive then pret tt
  else native_runtime_disconnect who ;;; write reset_core.

(** ** [YunyiRuntime] *)

Definition invoke (p : Pd (B := B) unit) : Pd (B := B) Status :=
  pcatch (p ;;; pret success) (fun e => pret (exception_status e)).

Definition query {T} (p : Pd (B := B) T) : Pd (B := B) (Result T) :=
  pcatch (do x <- p; pret (Value x)) (fun e => pret (Error (exception_status e))).

(** [std::lock_guard] on [terminal_mutex] of the facade. *)
Definition with_terminal {A} (who : nat) (p : Pd (B := B) A) : Pd (B := B) A :=
  await (fun s : Product B => bool_decide (pd_terminal_mutex s = None))
        (fun s : Product B => (tt, s <| pd_terminal_mutex := Some who |>)) ;;;
  pfinally p (fun s : Product B => s <| pd_terminal_mutex := None |>).

Definition facade_connect (who : nat) : Pd (B := B) Status :=
  invoke (with_terminal who (
    do terminal <- read pd_terminally_disconnected;
    if terminal then pthrow (LogicError "Runtime cannot reconnect after disconnect")
    else core_action "connect" (native_runtime_connect who))).

Definition facade_disconnect (who : nat) : Pd (B := B) Status :=
  invoke (with_terminal who (
    do terminal <- read pd_terminally_disconnected;
    if terminal then pret tt
    else
      core_disconnect who ;;;
      write (fun s : Product B => s <| pd_terminally_disconnected := true |>))).

(** Both actions run; the failure of the disable is the one reported. *)
Definition on_control_lost (who : nat) (reason : string) : Pd (B := B) Status :=
  write (fun s : Product B => s <| pd_control_lost_reason := reason |>) ;;;
  do stopped <- invoke (core_action "stop_motion" (native_runtime_stop_motion who));
  do disabled <- invoke (core_action "disable" (native_runtime_disable who));
  pret (if negb (status_ok disabled) then disabled else stopped).

Definition facade_control_mode : Pd (B := B) (Result ControlMode) :=
  query (core_method "get_control_mode" native_runtime_get_control_mode).
Definition facade_has_grippers : Pd (B := B) (Result bool) :=
  query (core_method "has_grippers" native_runtime_has_grippers).

(** The methods of a product. *)
Definition product_call (who : nat) {T} (c : Call T) : Pd (B := B) T :=
  match c with
  | Rt_connect => facade_connect who
  | Rt_disconnect => facade_disconnect who
  | Rt_configure_mode mode =>
      invoke (core_action "configure_mode" (native_runtime_configure_mode who mode))
  | Rt_control_mode => facade_control_mode
  | Rt_enable => invoke (core_action "enable" (native_runtime_enable who))
  | Rt_disable => invoke (core_action "disable" (native_runtime_disable who))
  | Rt_set_zero => invoke (core_action "set_zero" (native_runtime_set_zero who))
  | Rt_clear_faults => invoke (core_action "clear_faults" (native_runtime_clear_faults who))
  | Rt_estop => invoke (core_action "estop" (native_runtime_estop who))
  | Rt_recover => invoke (core_action "recover" (native_runtime_recover who))
  | Rt_on_control_lost reason => on_control_lost who reason
  | Rt_set_joint_pv positions percent =>
      invoke (core_action "set_joint_pv" (native_runtime_set_joint_pv who positions percent))
  | Rt_set_joint_mit command => invoke (core_set_joint_mit command)
  | Rt_set_joint_mit_fast positions percent =>
      invoke (core_action "set_joint_mit_fast"
        (native_runtime_set_joint_mit_fast who positions percent))
  | Rt_set_speed_percent x =>
      invoke (core_action "set_speed_percent" (native_runtime_set_speed_percent who x))
  | Rt_set_max_speed x => invoke (core_action "set_max_speed" (native_runtime_set_max_speed who x))
  | Rt_set_max_acceleration x =>
      invoke (core_action "set_max_acceleration" (native_runtime_set_max_acceleration who x))
  | Rt_speed_percent => query (core_method "get_speed_percent" (native_runtime_get_speed_percent who))
  | Rt_max_speed => query (core_method "get_max_speed" (native_runtime_get_max_speed who))
  | Rt_max_acceleration =>
      query (core_method "get_max_acceleration" (native_runtime_get_max_acceleration who))
  | Rt_hardware_topology =>
      query (do p <- core_method "get_gripper_presence" native_runtime_get_gripper_presence;
             pret (topology p))
  | Rt_has_grippers => facade_has_grippers
  | Rt_solve_ik l r => query (core_method "solve_ik" (native_runtime_solve_ik who l r))
  | Rt_move_pose side target =>
      invoke (core_action "move_pose" (native_runtime_move_pose who side target))
  | Rt_move_linear side target =>
      invoke (core_action "move_linear" (native_runtime_move_linear who side None target))
  | Rt_move_circular side start via finish =>
      invoke (core_action "move_circular" (native_runtime_move_circular who side start via finish))
  | Rt_stop_motion => invoke (core_action "stop_motion" (native_runtime_stop_motion who))
  | Rt_set_grippers l r strength mode =>
      invoke (core_action "set_grippers" (native_runtime_set_grippers who l r strength mode))
  | Rt_set_tcp_offset side offset =>
      invoke (core_action "set_tcp_offset"
        (native_runtime_set_tcp_offset who (Build_ArticoreTcpOffset side offset)))
  | Rt_reset_tcp_offset side =>
      invoke (core_action "reset_tcp_offset" (native_runtime_reset_tcp_offset who side))
  | Rt_pose side =>
      query (do p <- core_method "get_pose" (native_runtime_get_pose side); pret (pp_values p))
  | Rt_tcp_offset side =>
      query (do o <- core_method "get_tcp_offset" (native_runtime_get_tcp_offset side);
             pret (to_values o))
  | Rt_joint_limits =>
      query (core_method "get_joint_angle_vel_limits" native_runtime_get_joint_angle_vel_limits)
  | Rt_start_gravity_compensation milliseconds =>
      invoke (core_action "start_gravity_compensation"
        (native_runtime_start_gravity_compensation who (u32 milliseconds)))
  | Rt_stop_gravity_compensation =>
      invoke (core_action "stop_gravity_compensation"
        (native_runtime_stop_gravity_compensation who))
  | Rt_start_bimanual_follow leader =>
      invoke (core_action "start_bimanual_follow" (native_runtime_start_bimanual_follow who leader))
  | Rt_stop_bimanual_follow =>
      invoke (core_action "stop_bimanual_follow" (native_runtime_stop_bimanual_follow who))
  | Rt_gravity_compensation_status =>
      query (do g <- core_method "get_gravity_compensation_status"
                       native_runtime_get_gravity_compensation_status;
             pret (gravity_status g))
  | Rt_bimanual_follow_status =>
      query (do b <- core_method "get_bimanual_follow_status"
                       native_runtime_get_bimanual_follow_status;
             pret (follow_status b))
  | Rt_state => query (do s <- core_method "get_state" (native_runtime_get_state who);
                       pret (facade_state s))
  | Rt_health => query (do h <- core_method "get_health" (native_runtime_get_health who);
                        pret (facade_health h))
  end.

(** ** [YunyiRuntime::create]

    [opened] is what opening the two channels, looking for the motors and
    building the controller group leads to: the backend and the motors found,
    or an exception. *)
Definition pose_models_error (r : YunyiRuntimeResources) : option exn :=
  match robot_model_error 0 (tcp_offset_of r 0) with
  | Some e => Some e
  | None => robot_model_error 1 (tcp_offset_of r 1)
  end.

Definition create_core (who : nat) (now : Z) (c : YunyiRuntimeConfig)
    (opened : exn + (B * Found * Found)) (environment_hz : option string) (warning : string) :
    outcome (Product B) :=
  match opened with
  | inl e => Thrown e
  | inr (backend, l, r) =>
      let resources := make_resources l r in
      match pose_models_error resources with
      | Some e => Thrown e
      | None =>
          match create_yunyi_runtime who now backend (native_config c) l r environment_hz
                  warning with
          | (Returned _, Some runtime) =>
              Returned (new_product resources (initial_control_mode c) runtime)
          | (Thrown e, _) => Thrown e
          | (Undefined, _) => Undefined
          | (Unfinished, _) | (Returned _, None) => Unfinished
          end
      end
  end.

(** Every exception of the construction goes through [check_result]. *)
Definition creation_error (e : exn) : exn :=
  RuntimeError ("create configured Yunyi Runtime failed: " ++
    match e with
    | OtherException _ => "unknown configured Yunyi Runtime creation error"
    | _ => exn_what e
    end)%string.

Definition create (who : nat) (now cpu_count : Z) (c : YunyiRuntimeConfig)
    (opened : exn + (B * Found * Found)) (environment_hz : option string) (warning : string) :
    outcome (Result (Product B * YunyiRuntimeConfig)) :=
  match checked_config cpu_count c with
  | inl refusal => Returned (Error refusal)
  | inr c =>
      match create_core who now c opened environment_hz warning with
      | Returned p => Returned (Value (p, c))
      | Thrown e => Returned (Error (exception_status (creation_error e)))
      | Undefined => Undefined
      | Unfinished => Unfinished
      end
  end.

(** What the service is modelled over: a method that runs to its end on its
    own. *)
#[export] Instance product_runtime (who : nat) : YunyiRuntime (Product B) :=
  {| rt_call T c := run_alone (product_call who c) |}.

End Facade.
