(* ===== verification/Drivers.v ===== *)
(** * The motors behind the safety runtime, and how a product finds them

    [YunyiMotorBackend] of [runtime/src/yunyi_runtime.cpp]: how the calls of
    [MotorBackend] are made of the operations of the two controllers, of their
    group and of the motor handles, and how their exceptions become return
    codes with a text per thread.  A handle of the runtime is the address of a
    motor object of one of the two controllers; 0 is the null pointer. *)

From Stdlib Require Import String.
From S2P Require Import Prelude Float32 CanBus SocketCan RuntimeTypes Threads NativeTypes SafetyState Gravity ServiceState Yunyi Product ProductCommands ProductOps Facade MotorHandle World MotorOps Controller ControllerGroup.
#[local] Open Scope mdl_scope.

(** ** Constants *)

Definition kPvPositionKpRegister : Z := 27.
Definition kJoint3PvPositionKp : f32 := f32_of_Z 198.
Definition kJoint4PvPositionKp : f32 := f32_of_Z 198.

(** ** The group, one dispatch at a time

    [send_mit] and [send_pos_vel] hold the dispatch mutex until the workers are
    done.  The workers are run one after the other here; [DriverLaws] shows
    that no schedule of theirs makes a difference.  A batch has no loop that
    could run out of fuel, so a job without a result is undefined. *)

Section Group.
Context (envs : nat -> Environment).

Definition run_worker (i : nat) : M Group unit := fun g =>
  match worker_start i g with
  | None => (Returned tt, g)
  | Some g1 =>
      match worker_finish envs i g1 with
      | Some g2 => (Returned tt, g2)
      | None => (Undefined, g1)
      end
  end.

(** [wait_and_raise], reached when the workers are done. *)
Definition raise_errors : M Group unit := fun g =>
  match wait_and_raise g with
  | Some o => (o, g)
  | None => (Unfinished, g)
  end.

Definition group_send (t : Task) : M Group unit :=
  dispatch_begin t ;;;
  do workers <- gets (fun g => length (g_workers g));
  for_each (seq 0 workers) run_worker ;;;
  raise_errors.

End Group.

(** ** Pointers *)

(** The address of the object at location [snd p] of controller [fst p]. *)
Definition address (p : pointer) : handle := S (2 * snd p + fst p).
Definition object (h : handle) : pointer := (Nat.modulo (pred h) 2, Nat.div (pred h) 2).

(** ** The state

    [motor_owners] of the resources, the group with its two controllers, and
    the text [g_motor_error] of each thread. *)
Record Drivers := {
  dv_group : Group;
  dv_owners : gmap handle pointer;
  dv_errors : nat -> string
}.

Definition set_worlds (worlds : list World) (g : Group) : Group :=
  {| g_worlds := worlds; g_workers := g_workers g; g_stopping := g_stopping g;
     g_generation := g_generation g; g_completed := g_completed g; g_kind := g_kind g;
     g_mit_batches := g_mit_batches g; g_pos_vel_batches := g_pos_vel_batches g;
     g_errors := g_errors g |}.

Definition with_dv_group (g : Group) (d : Drivers) : Drivers :=
  {| dv_group := g; dv_owners := dv_owners d; dv_errors := dv_errors d |}.

(** [g_motor_error = text] on thread [who]. *)
Definition set_motor_error (who : nat) (text : string) : M Drivers unit :=
  modify (fun d =>
    {| dv_group := dv_group d; dv_owners := dv_owners d;
       dv_errors := fun t => if (t =? who)%nat then text else dv_errors d t |}).

(** A program on a part of the state. *)
Definition focus {S T A} (get : S -> T) (set : T -> S -> S) (m : M T A) : M S A := fun s =>
  let '(o, t) := m (get s) in (o, set t s).

Definition on_group {A} (m : M Group A) : M Drivers A := focus dv_group with_dv_group m.

(** A program of controller [i], which has a bus of its own. *)
Definition at_world {A} (i : nat) (m : M World A) : M (list World) A := fun worlds =>
  match worlds !! i with
  | Some w => let '(o, w') := m w in (o, <[i := w']> worlds)
  | None => (Undefined, worlds)
  end.

Definition on_controller {A} (i : nat) (m : M World A) : M Drivers A :=
  on_group (focus g_worlds set_worlds (at_world i m)).

(** ** Calls and their codes *)

(** [native_call]: the exception becomes the thread's text and the code -1. *)
Definition native_call (who : nat) (fn : M Drivers unit) : M Drivers Z :=
  try_catch (fn ;;; set_motor_error who "ok" ;;; ret 0)
    (fun e =>
       set_motor_error who (error_text "unknown native Motor exception" e) ;;; ret (-1)).

(** A call that fills a record: it is cleared first, so a call that throws
    leaves it at [zero]; the callers of a null pointer pass a cleared one. *)
Definition native_read {A} (who : nat) (zero : A) (fn : M Drivers A) : M Drivers (Z * A) :=
  try_catch (do a <- fn; set_motor_error who "ok" ;;; ret (0, a))
    (fun e =>
       set_motor_error who (error_text "unknown native Motor exception" e) ;;; ret (-1, zero)).

Definition foreign_handle : exn := InvalidArgument "command contains a foreign Motor handle".

Definition owner_at (d : Drivers) (h : handle) : option pointer := dv_owners d !! h.

Definition owned_motor (h : handle) : M Drivers pointer :=
  do owner <- gets (fun d => owner_at d h);
  match owner with Some p => ret p | None => throw foreign_handle end.

(** The commands of the runtime, with their handles looked up. *)
Fixpoint native_commands {A C} (motor : A -> handle) (command : A -> C) (l : list A) :
    M Drivers (list (GroupCommand C)) :=
  match l with
  | [] => ret []
  | c :: rest =>
      do p <- owned_motor (motor c);
      do commands <- native_commands motor command rest;
      ret ({| gc_motor := Some p; gc_command := command c |} :: commands)
  end.

Definition native_pos_vel (c : ArticorePosVelCommand) : PosVelBatchCommand :=
  {| pv_motor := None; pv_pos := pv_target_position c;
     pv_velocity_limit := NativeTypes.pv_velocity_limit c |}.

Definition native_mit (c : ArticoreMitCommand) : MitBatchCommand :=
  {| mit_motor := None; mit_pos := mit_target_position c; mit_vel := mit_target_velocity c;
     mit_kp := mit_stiffness c; mit_kd := mit_damping c; mit_tau := mit_feedforward_torque c |}.

Definition native_state (s : MotorState) : ArticoreMotorState :=
  Build_ArticoreMotorState true (ms_can_id s) (ms_arbitration_id s) (ms_status_code s) (ms_pos s)
    (ms_vel s) (ms_torq s) (ms_t_mos s) (ms_t_rotor s).

Definition native_stats (s : FeedbackStats) : ArticoreFeedbackStats :=
  Build_ArticoreFeedbackStats (fs_has_feedback s) (fs_update_count s)
    (if fs_age s <? 0 then 0 else fs_age s).

(** The age, or the largest number for never. *)
Definition native_age (age : option Z) : Z :=
  match age with Some t => Z.max 0 t | None => 2 ^ 64 - 1 end.

Definition native_health (h : TransportHealth) : ArticoreDriverTransportHealth :=
  Build_ArticoreDriverTransportHealth (th_connected h) (th_healthy h) (th_tx_frames h)
    (th_rx_frames h) (th_send_errors h) (th_receive_errors h) (native_age (th_last_tx_age h))
    (native_age (th_last_rx_age h)) (copy_text 256 (th_last_error h)).

Definition no_health : ArticoreDriverTransportHealth :=
  Build_ArticoreDriverTransportHealth false false 0 0 0 0 0 0 "".

(** The copy into the caller's array takes what fits. *)
Definition native_report (capacity : nat) (r : FeedbackBatchReport) :
    ArticoreFeedbackReport * list Z :=
  (Build_ArticoreFeedbackReport (rep_expected_count r) (rep_received_count r)
     (count_of (rep_missing_motor_ids r)), take capacity (rep_missing_motor_ids r)).

Definition no_feedback_report : ArticoreFeedbackReport * list Z := (Build_ArticoreFeedbackReport 0 0 0, []).

Definition report_code (s : FeedbackBatchStatus) : Z :=
  match s with Ok => 0 | TransportError => 2 | Timeout => 3 | Incomplete => 4 end.

Definition report_text (r : FeedbackBatchReport) : string :=
  match rep_status r with
  | Ok => "ok"
  | _ => if str_empty (rep_error r) then "fresh feedback is incomplete" else rep_error r
  end.

Definition gain_error (joint3 : bool) : exn :=
  RuntimeError ((if joint3 then "J3" else "J4") ++
                " PV position-loop Kp readback verification failed")%string.

(** [std::abs(current - expected_kp) > 1.0e-4f]. *)
Definition gain_differs (current expected : f32) : bool :=
  f32_gt (f32_abs (f32_sub current expected)) (f32_lit 1 10000).

Section Motors.
Context {Env : Environment} (fuel : nat).

(** A critical section on a handle that reads the clock. *)
Definition read_handle_now {A} (l : nat) (f : Z -> MotorHandle -> A) : M World A :=
  atomic (fun w => match w_store w !! l with
                   | Some m => (Returned (f (w_clock w) m), w)
                   | None => (Undefined, w)
                   end).

(** The position-loop gain of J3 and J4: read, written and stored when it
    differs, and read again. *)
Definition verify_position_gain (l : nat) (joint3 : bool) (timeout : Z) : M World unit :=
  let expected := if joint3 then kJoint3PvPositionKp else kJoint4PvPositionKp in
  do current <- get_register_f32 fuel l kPvPositionKpRegister timeout;
  (if gain_differs current expected then
     write_register_f32 fuel l kPvPositionKpRegister expected ;;;
     store_parameters fuel l
   else ret tt) ;;;
  do configured <- get_register_f32 fuel l kPvPositionKpRegister timeout;
  if gain_differs configured expected then throw (gain_error joint3) else ret tt.

Definition ensure_motor_mode (l : nat) (mode timeout : Z) : M World unit :=
  ensure_mode fuel l mode timeout ;;;
  do m <- read_handle l (fun m => m);
  let id := motor_id_ m in
  if (mode =? 2) && ((id =? 3) || (id =? 4)) && bool_decide (model_ m = "4340P"%string)
  then verify_position_gain l (id =? 3) timeout
  else ret tt.

End Motors.

(** ** The calls *)

(** The controller of a side; the runtime holds a null pointer for no other. *)
Definition side_controller (side : Z) : option nat :=
  if side =? 0 then Some 0%nat else if side =? 1 then Some 1%nat else None.

Definition invalid_request : string := "invalid native feedback request".

Section Calls.
Context (envs : nat -> Environment) (fuel who : nat).

Definition group_send_pos_vel (commands : list ArticorePosVelCommand) : M Drivers Z :=
  native_call who (
    do native <- native_commands NativeTypes.pv_motor native_pos_vel commands;
    on_group (group_send envs (PosVelTask native))).

Definition group_send_mit (commands : list ArticoreMitCommand) : M Drivers Z :=
  native_call who (
    do native <- native_commands NativeTypes.mit_motor native_mit commands;
    on_group (group_send envs (MitTask native))).

(** An exception outside [std::exception] is not caught here. *)
Definition request_controller_feedback (side timeout_ms : Z) (capacity : nat) :
    M Drivers (Z * ArticoreFeedbackReport * list Z) :=
  let answer code (r : ArticoreFeedbackReport * list Z) := (code, fst r, snd r) in
  match side_controller side, timeout_ms =? 0 with
  | Some i, false =>
      catch_std
        (do r <- on_controller i (request_feedback_all_report (Env := envs i) fuel (ms timeout_ms));
         set_motor_error who (report_text r) ;;;
         ret (answer (report_code (rep_status r)) (native_report capacity r)))
        (fun what => set_motor_error who what ;;; ret (answer 2 no_feedback_report))
  | _, _ => set_motor_error who invalid_request ;;; ret (answer 1 no_feedback_report)
  end.

(** A program of the motor behind a handle that is not null. *)
Definition at_motor {A} (h : handle) (m : Environment -> nat -> M World A) : M Drivers A :=
  let p := object h in on_controller (fst p) (m (envs (fst p)) (snd p)).

Definition motor_call (h : handle) (m : Environment -> nat -> M World unit) : M Drivers Z :=
  if (h =? 0)%nat then ret (-1) else native_call who (at_motor h m).

Definition motor_read {A} (h : handle) (zero : A) (m : Environment -> nat -> M World A) :
    M Drivers (Z * A) :=
  if (h =? 0)%nat then ret (-1, zero) else native_read who zero (at_motor h m).

Definition controller_call (side : Z) (m : Environment -> M World unit) : M Drivers Z :=
  match side_controller side with
  | Some i => native_call who (on_controller i (m (envs i)))
  | None => ret (-1)
  end.

Definition get_state (h : handle) : M Drivers (Z * ArticoreMotorState) :=
  motor_read h no_MotorState (fun E l =>
    do state <- read_handle l latest_state;
    ret (match state with Some s => native_state s | None => no_MotorState end)).

Definition get_feedback_stats (h : handle) : M Drivers (Z * ArticoreFeedbackStats) :=
  motor_read h no_FeedbackStats (fun E l =>
    do stats <- read_handle_now l feedback_stats;
    ret (native_stats stats)).

Definition get_transport_health (side : Z) : M Drivers (Z * ArticoreDriverTransportHealth) :=
  match side_controller side with
  | Some i =>
      native_read who no_health
        (do h <- on_controller i (transport_health (Env := envs i)); ret (native_health h))
  | None => ret (-1, no_health)
  end.

Definition controller_enable_all (side : Z) : M Drivers Z :=
  controller_call side (fun E => enable_all fuel).
Definition controller_disable_all (side : Z) : M Drivers Z :=
  controller_call side (fun E => disable_all fuel).
Definition motor_enable (h : handle) : M Drivers Z := motor_call h (fun E l => enable l).
Definition motor_disable (h : handle) : M Drivers Z := motor_call h (fun E l => disable l).
Definition motor_clear_error (h : handle) : M Drivers Z := motor_call h (fun E l => clear_error l).
Definition motor_set_zero (h : handle) : M Drivers Z :=
  motor_call h (fun E l => set_zero_position l).
Definition motor_ensure_mode (h : handle) (mode timeout_ms : Z) : M Drivers Z :=
  motor_call h (fun E l => ensure_motor_mode fuel l mode (ms timeout_ms)).
Definition motor_set_timeout (h : handle) (timeout_ms : Z) : M Drivers Z :=
  motor_call h (fun E l => set_can_timeout_ms fuel l timeout_ms).

(** [YunyiMotorBackend], as thread [who] uses it. *)
Definition yunyi_call (communication_timeout_ms : Z) (T : Type) (c : BackendCall T) :
    M Drivers T :=
  match c in BackendCall T return M Drivers T with
  | Bk_send_pos_vel commands => group_send_pos_vel commands
  | Bk_send_mit commands => group_send_mit commands
  | Bk_disable_all side => controller_disable_all side
  | Bk_request_feedback side timeout_ms capacity =>
      request_controller_feedback side timeout_ms capacity
  | Bk_get_state motor => get_state motor
  | Bk_get_feedback_stats motor => get_feedback_stats motor
  | Bk_get_transport_health side => get_transport_health side
  | Bk_has_transport_health => ret true
  | Bk_disable_motor motor => motor_disable motor
  | Bk_last_error_message => gets (fun d => Some (dv_errors d who))
  | Bk_can_enable_all => ret true
  | Bk_enable_all side => controller_enable_all side
  | Bk_can_enable_motor => ret true
  | Bk_enable_motor motor => motor_enable motor
  | Bk_can_clear_error => ret true
  | Bk_clear_error motor => motor_clear_error motor
  | Bk_can_set_zero => ret true
  | Bk_set_zero motor => motor_set_zero motor
  | Bk_can_ensure_mode => ret true
  | Bk_ensure_mode motor mode timeout_ms => motor_ensure_mode motor mode timeout_ms
  | Bk_can_set_timeout => ret true
  | Bk_set_timeout_ms motor timeout_ms => motor_set_timeout motor timeout_ms
  | Bk_communication_timeout_ms => ret communication_timeout_ms
  end.

End Calls.

(** The interface of the safety runtime has no exceptions and no undefined
    behaviour: after a call without an answer nothing is known of the motors,
    and [anything] answers. *)
Definition yunyi_backend (envs : nat -> Environment) (fuel who : nat)
    (communication_timeout_ms : Z) (anything : forall T, BackendCall T -> T) :
    MotorBackend (option Drivers) := {|
  bk_call T c b :=
    match b with
    | Some d =>
        match yunyi_call envs fuel who communication_timeout_ms T c d with
        | (Returned a, d') => (a, Some d')
        | _ => (anything T c, None)
        end
    | None => (anything T c, None)
    end |}.

(** ** Opening the product

    [create_yunyi_runtime] up to the construction of the safety runtime: the two
    channels, the search for the motors and the group; and the whole creation of
    a product on them. *)

Definition kModels : list string :=
  ["8009"; "8009"; "4340P"; "4340P"; "4310"; "4310"; "4310"; "4310"]%string.

(** ** The search for the motors *)

(** [discover_motors]: the candidates of a side. *)
Definition side_candidate (side index : nat) : MotorCandidate :=
  let id := Z.of_nat index + 1 in
  {| cand_role := motor_role side index; cand_motor_id := id; cand_feedback_id := 0x10 + id;
     cand_model := nth index kModels ""%string;
     cand_policy := if (index =? PRODUCT_ARM_DOF)%nat then Optional else Required |}.

Definition side_candidates (side : nat) : list MotorCandidate := map (side_candidate side) (seq 0 8).

Definition found_result (side : nat) (r : MotorDiscoveryResult) : option handle :=
  if bool_decide (res_state r = Present) then option_map (fun l => address (side, l)) (res_motor r)
  else None.

Definition discover_side (envs : nat -> Environment) (fuel side : nat)
    (timeout_ms retry_count : Z) : M (list World) Found :=
  do discovered <- at_world side
    (discover_damiao_motors (Env := envs side) fuel (side_candidates side) (ms timeout_ms)
       retry_count);
  ret (map (found_result side) discovered).

(** [motor_owners.emplace]: the found objects by their addresses. *)
Definition owners_of (found : Found) : gmap handle pointer :=
  fold_left (fun owners o =>
    match o with Some h => <[h := object h]> owners | None => owners end) found ∅.

(** ** The channels *)

(** The controller of a channel that has just been opened, at time [clock]. *)
Definition new_world (clock : Z) (tx_gap_us bulk_gap_ms : option string) (interface : string) :
    World :=
  let '(c, bus) := make_Controller tx_gap_us bulk_gap_ms ("socketcanfd " ++ interface)%string in
  {| w_clock := clock; w_step := 0; w_sent := []; w_bus := bus; w_store := ∅; w_ctl := c |}.

(** What the operating system and the environment variables give. *)
Record Platform := {
  pf_envs : nat -> Environment;
  pf_fuel : nat;
  pf_clock : Z;
  pf_open_error : nat -> option exn;
  pf_tx_gap_us : option string;
  pf_bulk_gap_ms : option string
}.

Definition open_channel (p : Platform) (side : nat) (interface : string) : exn + World :=
  if str_empty interface then inl (InvalidArgument "CAN interface name is empty")
  else
    match pf_open_error p side with
    | Some e => inl e
    | None => inr (new_world (pf_clock p) (pf_tx_gap_us p) (pf_bulk_gap_ms p) interface)
    end.

Definition open_group (worlds : list World) : outcome Group := make_Group [Some 0%nat; Some 1%nat] worlds.

(** [create_yunyi_runtime] up to the construction of the safety runtime; a mode
    it refuses is not a [ControlMode]. *)
Definition open_yunyi (p : Platform) (left_interface right_interface : string)
    (timeout_ms retry_count : Z) : outcome (Drivers * Found * Found) :=
  match open_channel p 0 left_interface with
  | inl e => Thrown e
  | inr left_world =>
      match open_channel p 1 right_interface with
      | inl e => Thrown e
      | inr right_world =>
          let search :=
            do l <- discover_side (pf_envs p) (pf_fuel p) 0 timeout_ms retry_count;
            do r <- discover_side (pf_envs p) (pf_fuel p) 1 timeout_ms retry_count;
            do worlds <- gets (fun worlds => worlds);
            do group <- of_outcome (open_group worlds);
            ret ({| dv_group := group; dv_owners := owners_of l ∪ owners_of r;
                    dv_errors := fun _ => "ok"%string |}, l, r) in
          fst (search [left_world; right_world])
      end
  end.

(** ** A product on its motors *)

(** [MotorHandle::state_snapshot], where the motor is; [None] where it throws. *)
Definition drivers_snapshot (motor : handle) (d : Drivers) :
    option (option ArticoreMotorState * (bool * Z * Z)) :=
  let '(side, l) := object motor in
  match g_worlds (dv_group d) !! side with
  | Some w =>
      match w_store w !! l with
      | Some m =>
          let snapshot := state_snapshot (w_clock w) m in
          let stats := snap_feedback snapshot in
          Some (option_map native_state (snap_state snapshot),
                (fs_has_feedback stats, fs_update_count stats, fs_age stats))
      | None => None
      end
  | None => None
  end.

#[export] Instance yunyi_snapshots : MotorSnapshots (option Drivers) := {|
  motor_snapshot motor b := match b with Some d => drivers_snapshot motor d | None => None end |}.

Section Creation.
Context (p : Platform) (who : nat) (anything : forall T, BackendCall T -> T).
Context `{!ArmDynamics} `{!CartesianPlanner} `{!Libm} `{!RobotModels}.

(** [YunyiRuntime::create]: a refused configuration opens nothing. *)
Definition create_product (now cpu_count : Z) (c : YunyiRuntimeConfig)
    (environment_hz : option string) (warning : string) :
    outcome (Result (Product (option Drivers) * YunyiRuntimeConfig)) :=
  match checked_config cpu_count c with
  | inl refusal => Returned (Error refusal)
  | inr checked =>
      let backend : MotorBackend (option Drivers) :=
        yunyi_backend (pf_envs p) (pf_fuel p) who (nc_motor_watchdog_ms (native_config checked))
          anything in
      let build (opened : exn + (option Drivers * Found * Found)) :=
        create who now cpu_count c opened environment_hz warning in
      match open_yunyi p (c_str (left_can_interface checked)) (c_str (right_can_interface checked))
              (u32 (motor_discovery_timeout checked)) (motor_discovery_retries checked) with
      | Returned (d, l, r) => build (inr (Some d, l, r))
      | Thrown e => build (inl e)
      | Undefined => Undefined
      | Unfinished => Unfinished
      end
  end.

End Creation.
