(* ===== verification/CartesianMath.v ===== *)
(** * The geometry of Cartesian motions

    [detail/cartesian_math.hpp] in [double]: vectors, the arc through three
    points, quaternions and their interpolation.  Sines and cosines are those
    of the class [Libm].  What throws returns an [outcome]. *)

From Stdlib Require Import String.
From S2P Require Import Prelude Float32 Float64 RuntimeTypes NativeTypes Product.
#[local] Open Scope mdl_scope.

(** ** Results that may be exceptions *)

Declare Scope plan_scope.

Definition obind {A B} (o : outcome A) (k : A -> outcome B) : outcome B :=
  match o with
  | Returned a => k a
  | Thrown e => Thrown e
  | Undefined => Undefined
  | Unfinished => Unfinished
  end.

Notation "'let*' x := m 'in' k" := (obind m (fun x => k))
  (at level 200, x name, m at level 100, k at level 200, right associativity) : plan_scope.
Notation "m ';*' k" := (obind m (fun _ : unit => k))
  (at level 199, k at level 200, right associativity) : plan_scope.
#[local] Open Scope plan_scope.

(** [if (refusal) throw std::invalid_argument(text)]. *)
Definition oguard (refusal : bool) (e : exn) : outcome unit :=
  if refusal then Thrown e else Returned tt.

Lemma obind_returned {A B} (o : outcome A) (k : A -> outcome B) b :
  obind o k = Returned b -> exists a, o = Returned a /\ k a = Returned b.
Proof. destruct o; try done. by exists a. Qed.

Lemma oguard_returned refusal e u : oguard refusal e = Returned u -> refusal = false.
Proof. by destruct refusal. Qed.

(** A result that was returned, taken apart. *)
Ltac inv_plan H :=
  repeat
    (let a := fresh "x" in let E := fresh "E" in
     apply obind_returned in H as (a & E & H);
     try (apply oguard_returned in E)).

(** [double] literals. *)
Definition d0 : f64 := f64_zero.
Definition d1 : f64 := f64_of_Z 1.
Definition d2 : f64 := f64_of_Z 2.
Definition dhalf : f64 := f64_lit 1 2.

(** [3.14159265358979323846] is 884279719003555 / 2^48. *)
Definition kPi : f64 := f64_lit 884279719003555 (2 ^ 48).
Definition two_pi : f64 := f64_mul d2 kPi.

(** [cartesian::require_pv_mode]. *)
Definition require_pv_mode (mode : ControlMode) : outcome unit :=
  oguard (negb (bool_decide (mode = ModePv)))
    (RuntimeError "product Cartesian motion requires PV mode").

(** ** Vectors *)

Record Vector3 := { v_x : f64; v_y : f64; v_z : f64 }.

(** The first three numbers of an array. *)
Definition vector_of (l : list f64) : Vector3 :=
  {| v_x := nth 0 l d0; v_y := nth 1 l d0; v_z := nth 2 l d0 |}.

Definition map2_vector (f : f64 -> f64 -> f64) (a b : Vector3) : Vector3 :=
  {| v_x := f (v_x a) (v_x b); v_y := f (v_y a) (v_y b); v_z := f (v_z a) (v_z b) |}.

Definition subtract : Vector3 -> Vector3 -> Vector3 := map2_vector f64_sub.
Definition add : Vector3 -> Vector3 -> Vector3 := map2_vector f64_add.

Definition scale (a : Vector3) (factor : f64) : Vector3 :=
  {| v_x := f64_mul (v_x a) factor; v_y := f64_mul (v_y a) factor; v_z := f64_mul (v_z a) factor |}.

Definition cross (a b : Vector3) : Vector3 := {|
  v_x := f64_sub (f64_mul (v_y a) (v_z b)) (f64_mul (v_z a) (v_y b));
  v_y := f64_sub (f64_mul (v_z a) (v_x b)) (f64_mul (v_x a) (v_z b));
  v_z := f64_sub (f64_mul (v_x a) (v_y b)) (f64_mul (v_y a) (v_x b)) |}.

Definition dot (a b : Vector3) : f64 :=
  f64_add (f64_add (f64_mul (v_x a) (v_x b)) (f64_mul (v_y a) (v_y b))) (f64_mul (v_z a) (v_z b)).

Definition norm (a : Vector3) : f64 := f64_sqrt (dot a a).

Definition lerp_position (start end_ : Vector3) (amount : f64) : Vector3 :=
  let at_ f := f64_add (f start) (f64_mul amount (f64_sub (f end_) (f start))) in
  {| v_x := at_ v_x; v_y := at_ v_y; v_z := at_ v_z |}.

(** ** Quaternions *)

Record Quaternion := { q_w : f64; q_x : f64; q_y : f64; q_z : f64 }.

Definition quaternion_dot (a b : Quaternion) : f64 :=
  f64_add (f64_add (f64_add (f64_mul (q_w a) (q_w b)) (f64_mul (q_x a) (q_x b)))
             (f64_mul (q_y a) (q_y b))) (f64_mul (q_z a) (q_z b)).

Definition quaternion_norm (q : Quaternion) : f64 := f64_sqrt (quaternion_dot q q).

Definition map_quaternion (f : f64 -> f64) (q : Quaternion) : Quaternion :=
  {| q_w := f (q_w q); q_x := f (q_x q); q_y := f (q_y q); q_z := f (q_z q) |}.

Definition divided (q : Quaternion) (n : f64) : Quaternion := map_quaternion (fun x => f64_div x n) q.

(** [std::numeric_limits<double>::epsilon()]. *)
Definition f64_epsilon : f64 := f64_lit 1 (2 ^ 52).

(** The four cases choose the largest of the components. *)
Definition unnormalised_rotation (rotation : list f64) : Quaternion :=
  let r i := nth i rotation d0 in
  let trace := f64_add (f64_add (r 0%nat) (r 4%nat)) (r 8%nat) in
  let quarter x := f64_mul (f64_lit 1 4) x in
  let size a b c := f64_mul (f64_sqrt (f64_sub (f64_sub (f64_add d1 (r a)) (r b)) (r c))) d2 in
  if f64_lt d0 trace then
    let s := f64_mul (f64_sqrt (f64_add trace d1)) d2 in
    {| q_w := quarter s; q_x := f64_div (f64_sub (r 7%nat) (r 5%nat)) s;
       q_y := f64_div (f64_sub (r 2%nat) (r 6%nat)) s;
       q_z := f64_div (f64_sub (r 3%nat) (r 1%nat)) s |}
  else if f64_lt (r 4%nat) (r 0%nat) && f64_lt (r 8%nat) (r 0%nat) then
    let s := size 0%nat 4%nat 8%nat in
    {| q_w := f64_div (f64_sub (r 7%nat) (r 5%nat)) s; q_x := quarter s;
       q_y := f64_div (f64_add (r 1%nat) (r 3%nat)) s;
       q_z := f64_div (f64_add (r 2%nat) (r 6%nat)) s |}
  else if f64_lt (r 8%nat) (r 4%nat) then
    let s := size 4%nat 0%nat 8%nat in
    {| q_w := f64_div (f64_sub (r 2%nat) (r 6%nat)) s;
       q_x := f64_div (f64_add (r 1%nat) (r 3%nat)) s; q_y := quarter s;
       q_z := f64_div (f64_add (r 5%nat) (r 7%nat)) s |}
  else
    let s := size 8%nat 0%nat 4%nat in
    {| q_w := f64_div (f64_sub (r 3%nat) (r 1%nat)) s;
       q_x := f64_div (f64_add (r 2%nat) (r 6%nat)) s;
       q_y := f64_div (f64_add (r 5%nat) (r 7%nat)) s; q_z := quarter s |}.

Definition quaternion_from_rotation (rotation : list f64) : outcome Quaternion :=
  let result := unnormalised_rotation rotation in
  let n := quaternion_norm result in
  oguard (negb (f64_isfinite n) || f64_le n f64_epsilon)
    (InvalidArgument "Cartesian orientation is invalid") ;*
  Returned (divided result n).

(** The nine entries, row by row. *)
Definition rotation_from_quaternion (q : Quaternion) : list f64 :=
  let '{| q_w := w; q_x := x; q_y := y; q_z := z |} := q in
  let one_minus a b := f64_sub d1 (f64_mul d2 (f64_add a b)) in
  let twice a := f64_mul d2 a in
  let xx := f64_mul x x in let yy := f64_mul y y in let zz := f64_mul z z in
  let xy := f64_mul x y in let xz := f64_mul x z in let yz := f64_mul y z in
  let wx := f64_mul w x in let wy := f64_mul w y in let wz := f64_mul w z in
  [one_minus yy zz; twice (f64_sub xy wz); twice (f64_add xz wy);
   twice (f64_add xy wz); one_minus xx zz; twice (f64_sub yz wx);
   twice (f64_sub xz wy); twice (f64_add yz wx); one_minus xx yy].

(** ** The arc through three points *)

Record CircularArc := {
  arc_center : Vector3;
  arc_radial_axis : Vector3;
  arc_tangent_axis : Vector3;
  arc_normal : Vector3;
  arc_radius : f64;
  arc_via_angle : f64;
  arc_end_angle : f64
}.

Section Geometry.
Context `{!Libm}.

(** [CircularArc::position]. *)
Definition arc_position (arc : CircularArc) (angle : f64) : Vector3 :=
  add (arc_center arc)
    (scale (add (scale (arc_radial_axis arc) (libm_cos angle))
                (scale (arc_tangent_axis arc) (libm_sin angle))) (arc_radius arc)).

Definition tiny : f64 := f64_lit 1 1000000.
Definition angle_margin : f64 := f64_lit 1 1000000000.

(** [angle_of], in the plane given by two axes; not negative. *)
Definition angle_of (center radial tangent point : Vector3) : f64 :=
  let offset := subtract point center in
  let angle := libm_atan2 (dot offset tangent) (dot offset radial) in
  if f64_lt angle d0 then f64_add angle two_pi else angle.

Definition circle_center (start to_via to_end plane : Vector3) : Vector3 :=
  add start
    (scale (add (scale (cross to_end plane) (dot to_via to_via))
                (scale (cross plane to_via) (dot to_end to_end)))
       (f64_div d1 (f64_mul d2 (dot plane plane)))).

Definition circular_arc_from_three_points (start via end_ : Vector3) : outcome CircularArc :=
  let to_via := subtract via start in
  let to_end := subtract end_ start in
  let via_distance := norm to_via in
  let end_distance := norm to_end in
  oguard (negb (f64_isfinite via_distance) || negb (f64_isfinite end_distance) ||
          f64_le via_distance tiny || f64_le end_distance tiny ||
          f64_le (norm (subtract end_ via)) tiny)
    (InvalidArgument "circular start, via and end positions must be distinct") ;*
  let plane := cross to_via to_end in
  let plane_norm := norm plane in
  oguard (negb (f64_isfinite plane_norm) ||
          f64_le plane_norm (f64_mul (f64_mul (f64_lit 1 100000000) via_distance) end_distance))
    (InvalidArgument "circular start, via and end positions must not be collinear") ;*
  let center := circle_center start to_via to_end plane in
  let start_radius := subtract start center in
  let radius := norm start_radius in
  oguard (negb (f64_isfinite radius) || f64_le radius tiny || f64_lt (f64_of_Z 100) radius)
    (InvalidArgument "circular path radius is invalid") ;*
  let radial := scale start_radius (f64_div d1 radius) in
  let normal := scale plane (f64_div d1 plane_norm) in
  let tangent := cross normal radial in
  let via_angle := angle_of center radial tangent via in
  let end_angle := angle_of center radial tangent end_ in
  let opposite a := scale a (f64_opp d1) in
  let result :=
    if f64_le end_angle via_angle then {|
      arc_center := center; arc_radial_axis := radial; arc_tangent_axis := opposite tangent;
      arc_normal := opposite normal; arc_radius := radius;
      arc_via_angle := angle_of center radial (opposite tangent) via;
      arc_end_angle := angle_of center radial (opposite tangent) end_ |}
    else {|
      arc_center := center; arc_radial_axis := radial; arc_tangent_axis := tangent;
      arc_normal := normal; arc_radius := radius; arc_via_angle := via_angle;
      arc_end_angle := end_angle |} in
  oguard (f64_le (arc_via_angle result) angle_margin ||
          f64_le (f64_sub (arc_end_angle result) (arc_via_angle result)) angle_margin ||
          f64_lt (f64_add two_pi angle_margin) (arc_end_angle result))
    (InvalidArgument "circular arc angles are degenerate") ;*
  Returned result.

(** ** Interpolation *)

Definition angular_distance (start end_ : Quaternion) : f64 :=
  f64_mul d2 (libm_acos (f64_clamp (f64_abs (quaternion_dot start end_)) d0 d1)).

Definition slerp (start end_ : Quaternion) (amount : f64) : Quaternion :=
  let cosine := quaternion_dot start end_ in
  let flip := f64_lt cosine d0 in
  let end_ := if flip then map_quaternion f64_opp end_ else end_ in
  let cosine := f64_clamp (if flip then f64_opp cosine else cosine) (f64_opp d1) d1 in
  if f64_lt (f64_lit 9995 10000) cosine then
    let at_ f := f64_add (f start) (f64_mul amount (f64_sub (f end_) (f start))) in
    let result := {| q_w := at_ q_w; q_x := at_ q_x; q_y := at_ q_y; q_z := at_ q_z |} in
    divided result (quaternion_norm result)
  else
    let angle := libm_acos cosine in
    let denominator := libm_sin angle in
    let start_weight := f64_div (libm_sin (f64_mul (f64_sub d1 amount) angle)) denominator in
    let end_weight := f64_div (libm_sin (f64_mul amount angle)) denominator in
    let at_ f := f64_add (f64_mul start_weight (f start)) (f64_mul end_weight (f end_)) in
    {| q_w := at_ q_w; q_x := at_ q_x; q_y := at_ q_y; q_z := at_ q_z |}.

Definition circular_slerp_through_via (start via end_ : Quaternion) (via_amount amount : f64) :
    outcome Quaternion :=
  oguard (negb (f64_isfinite via_amount) || f64_le via_amount d0 || f64_le d1 via_amount ||
          negb (f64_isfinite amount))
    (InvalidArgument "circular orientation progress is invalid") ;*
  let bounded := f64_clamp amount d0 d1 in
  Returned (if f64_le bounded via_amount then slerp start via (f64_div bounded via_amount)
            else slerp via end_ (f64_div (f64_sub bounded via_amount) (f64_sub d1 via_amount))).

End Geometry.
