(* ===== verification/CartesianTiming.v ===== *)
(** * The timing of Cartesian paths

    The time law of [runtime/src/product_cartesian.cpp]: a joint path sampled
    by geometry is resampled through one quintic into knots close enough for
    linear interpolation, and stretched until velocity and acceleration stay
    within their limits.  Points and timestamps, which the source pushes
    together on two vectors, are one list of knots. *)

From Stdlib Require Import String.
From S2P Require Import Prelude Float32 Float64 NativeTypes Planning Product ProductCommands CartesianMath.
#[local] Open Scope mdl_scope.
#[local] Open Scope plan_scope.

(** ** Rounding to integers *)

(** [std::floor] of a finite number. *)
Definition f64_floor (x : f64) : option Z :=
  match x with
  | S754_zero _ => Some 0
  | S754_finite s m e =>
      let z := if s then Zneg m else Zpos m in
      Some (if 0 <=? e then z * 2 ^ e else z / 2 ^ (- e))
  | _ => None
  end.

Definition f64_ceil (x : f64) : option Z := Z.opp <$> f64_floor (f64_opp x).

(** A cast to an unsigned type: undefined for what it cannot hold. *)
Definition to_unsigned (w : Z) (z : option Z) : outcome Z :=
  match z with
  | Some z => if (0 <=? z) && (z <? 2 ^ w) then Returned z else Undefined
  | None => Undefined
  end.

Definition f64_of_nat (n : nat) : f64 := f64_of_Z (Z.of_nat n).

(** ** The quintic *)

Definition kYunyiCartesianMinimumKnotIntervalSeconds : f64 := f64_lit 4 1000.
Definition kYunyiCartesianMaximumKnotIntervalSeconds : f64 := f64_lit 50 1000.
Definition kYunyiCartesianMaximumKnotJointStep : f64 := f64_lit 20 1000.
Definition kYunyiCartesianKnotLinearizationTolerance : f64 := f64_lit 1 1000.
Definition kCartesianMaximumExecutionSegments : Z := kNativeMaximumTrajectoryWaypoints - 3.

Definition quintic_progress (amount : f64) : f64 :=
  let amount := f64_clamp amount d0 d1 in
  let amount2 := f64_mul amount amount in
  let amount3 := f64_mul amount2 amount in
  f64_mul amount3
    (f64_add (f64_of_Z 10)
       (f64_mul amount (f64_add (f64_of_Z (-15)) (f64_mul (f64_of_Z 6) amount)))).

(** Sixty halvings. *)
Definition inverse_quintic_progress (progress : f64) : f64 :=
  let progress := f64_clamp progress d0 d1 in
  let halve (b : f64 * f64) :=
    let middle := f64_mul dhalf (f64_add b.1 b.2) in
    if f64_lt (quintic_progress middle) progress then (middle, b.2) else (b.1, middle) in
  let b := Nat.iter 60 halve (d0, d1) in
  f64_mul dhalf (f64_add b.1 b.2).

(** ** Points of the path *)

Definition CartesianJointPoint : Type := list f32.

Definition front (path : list CartesianJointPoint) : CartesianJointPoint := nth 0 path [].
Definition back (path : list CartesianJointPoint) : CartesianJointPoint := List.last path [].

(** [f32] difference of two coordinates, as a [double]. *)
Definition difference (a b : f32) : f64 := f64_of_f32 (f32_sub a b).

Definition zip_points {A} (f : f32 -> f32 -> A) (p q : CartesianJointPoint) : list A :=
  map (fun j => f (at_ p j) (at_ q j)) (seq 0 PRODUCT_DUAL_ARM_DOF).

Definition between (local : f64) (lower upper : CartesianJointPoint) : CartesianJointPoint :=
  zip_points (fun a b => f32_of_f64 (f64_add (f64_of_f32 a) (f64_mul local (difference b a))))
    lower upper.

Definition too_short : exn := InvalidArgument "Cartesian path requires at least two points".

Definition sample_cartesian_joint_path (path : list CartesianJointPoint) (time_amount : f64) :
    outcome CartesianJointPoint :=
  oguard (length path <? 2)%nat too_short ;*
  let time_amount := f64_clamp time_amount d0 d1 in
  let path_position :=
    f64_mul (quintic_progress time_amount) (f64_of_nat (length path - 1)) in
  let* floor := to_unsigned 64 (f64_floor path_position) in
  let lower := Nat.min (Z.to_nat floor) (length path - 2) in
  let local := if f64_le d1 time_amount then d1 else f64_sub path_position (f64_of_nat lower) in
  let point := between local (nth lower path []) (nth (S lower) path []) in
  let point := if f64_le time_amount d0 then front path else point in
  Returned (if f64_le d1 time_amount then back path else point).

(** ** The stretch a path needs *)

Definition Knot : Type := f64 * CartesianJointPoint.

(** One joint of one interval: the velocity goes on, the factor grows to what
    velocity and acceleration need. *)
Definition joint_stretch (maximum_velocity maximum_acceleration interval acceleration_interval : f64)
    (x : f64 * list f64) (joint : f64 * f64) : f64 * list f64 :=
  let '(factor, velocities) := x in
  let '(step, previous_velocity) := joint in
  let velocity := f64_div step interval in
  let acceleration := f64_div (f64_sub velocity previous_velocity) acceleration_interval in
  let factor := f64_max factor (f64_div (f64_abs velocity) maximum_velocity) in
  (f64_max factor (f64_sqrt (f64_div (f64_abs acceleration) maximum_acceleration)),
   velocities ++ [velocity]).

(** [before] is the timestamp two samples back. *)
Fixpoint interval_stretch (maximum_velocity maximum_acceleration : f64) (before : option f64)
    (previous : Knot) (x : f64 * list f64) (knots : list Knot) : outcome (f64 * list f64) :=
  match knots with
  | [] => Returned x
  | knot :: rest =>
      let interval := f64_sub knot.1 previous.1 in
      oguard (negb (f64_isfinite interval) || f64_le interval d0)
        (InvalidArgument "Cartesian adaptive knot timestamps are not strictly increasing") ;*
      let acceleration_interval :=
        match before with
        | None => interval
        | Some t => f64_mul dhalf (f64_sub (f64_add interval previous.1) t)
        end in
      let steps := zip_points difference knot.2 previous.2 in
      let x := fold_left
        (joint_stretch maximum_velocity maximum_acceleration interval acceleration_interval)
        (zip steps x.2) (x.1, []) in
      interval_stretch maximum_velocity maximum_acceleration (Some previous.1) knot x rest
  end.

Definition stopping_stretch (maximum_acceleration final_interval : f64) (factor velocity : f64) : f64 :=
  let stopping_acceleration := f64_div velocity final_interval in
  f64_max factor (f64_sqrt (f64_div (f64_abs stopping_acceleration) maximum_acceleration)).

Definition no_knot : Knot := (d0, []).

(** The last interval of at least two knots. *)
Definition final_interval (path : list Knot) : f64 :=
  f64_sub (List.last path no_knot).1 (nth (length path - 2) path no_knot).1.

Definition variable_path_stretch_factor (path : list Knot) (maximum_velocity maximum_acceleration : f64) :
    outcome f64 :=
  let* x := interval_stretch maximum_velocity maximum_acceleration None (nth 0 path no_knot)
              (d1, replicate PRODUCT_DUAL_ARM_DOF d0) (tl path) in
  Returned (fold_left (stopping_stretch maximum_acceleration (final_interval path)) x.2 x.1).

(** ** Knots between two amounts *)

(** The knots pushed so far, the newest first, and the stretch that makes the
    intervals long enough. *)
Record Subdivision := {
  sd_knots : list Knot;
  sd_scale : f64
}.

Definition fold_max (l : list f64) : f64 := fold_left f64_max l d0.

Definition push_knot (k : Knot) (s : Subdivision) : Subdivision :=
  {| sd_knots := k :: sd_knots s; sd_scale := sd_scale s |}.

Definition require_scale (minimum interval : f64) (s : Subdivision) : Subdivision :=
  {| sd_knots := sd_knots s;
     sd_scale := f64_max (sd_scale s)
       (f64_mul (f64_div minimum (f64_max interval (f64_lit 1 1000000000000))) (f64_lit 101 100)) |}.

Definition slack : f64 := f64_lit 1 1000000000000.
Definition over (x limit : f64) : bool := f64_lt (f64_add limit slack) x.

(** The interval is too long, a joint moves too far, or the middle is too far
    from the line. *)
Definition must_split (interval : f64) (start middle end_ : CartesianJointPoint) : bool :=
  let maximum_step := fold_max (map f64_abs (zip_points difference end_ start)) in
  let chord := zip_points (fun a b => f64_mul dhalf (f64_of_f32 (f32_add a b))) start end_ in
  let maximum_linearization_error :=
    fold_max (map (fun j => f64_abs (f64_sub (f64_of_f32 (at_ middle j)) (nth j chord d0)))
                (seq 0 PRODUCT_DUAL_ARM_DOF)) in
  over interval kYunyiCartesianMaximumKnotIntervalSeconds ||
  over maximum_step kYunyiCartesianMaximumKnotJointStep ||
  over maximum_linearization_error kYunyiCartesianKnotLinearizationTolerance.

Definition below_minimum (x : f64) : bool :=
  f64_lt (f64_add x slack) kYunyiCartesianMinimumKnotIntervalSeconds.

(** [append_interval]; [levels] is 32 less the depth of the source. *)
Fixpoint append_interval (path : list CartesianJointPoint) (duration : f64) (levels : nat)
    (start_amount : f64) (start : CartesianJointPoint) (end_amount : f64)
    (end_ : CartesianJointPoint) (s : Subdivision) : outcome Subdivision :=
  oguard (kCartesianMaximumExecutionSegments <? Z.of_nat (length (sd_knots s)))
    (InvalidArgument "Cartesian automatic timing requires more than the native point capacity") ;*
  let interval := f64_mul (f64_sub end_amount start_amount) duration in
  let middle_amount := f64_mul dhalf (f64_add start_amount end_amount) in
  let* middle := sample_cartesian_joint_path path middle_amount in
  let knot := (f64_mul end_amount duration, end_) in
  if must_split interval start middle end_ then
    match levels with
    | O => Thrown (InvalidArgument "Cartesian adaptive knot subdivision did not converge")
    | S levels =>
        if below_minimum (f64_mul dhalf interval) then
          Returned (push_knot knot
            (require_scale (f64_mul d2 kYunyiCartesianMinimumKnotIntervalSeconds) interval s))
        else
          let* s := append_interval path duration levels start_amount start middle_amount middle s in
          append_interval path duration levels middle_amount middle end_amount end_ s
    end
  else
    Returned (push_knot knot
      (if below_minimum interval
       then require_scale kYunyiCartesianMinimumKnotIntervalSeconds interval s else s)).

(** ** The time law *)

Definition joint_variation (path : list CartesianJointPoint) (joint : nat) : f64 :=
  fold_left (fun variation pq =>
      f64_add variation (f64_abs (difference (at_ pq.2 joint) (at_ pq.1 joint))))
    (zip path (tl path)) d0.

Definition first_duration (path : list CartesianJointPoint) (maximum_velocity maximum_acceleration : f64) :
    f64 :=
  let variation := fold_max (map (joint_variation path) (seq 0 PRODUCT_DUAL_ARM_DOF)) in
  f64_max (f64_max (f64_lit 10 100)
             (f64_div (f64_mul (f64_lit 1875 1000) variation) maximum_velocity))
    (f64_sqrt (f64_div (f64_mul (f64_of_Z 6) variation) maximum_acceleration)).

(** The amounts at which the path passes its geometry samples. *)
Definition mandatory_amounts (n : nat) : list f64 :=
  d0 :: map (fun sample => inverse_quintic_progress (f64_div (f64_of_nat sample) (f64_of_nat (n - 1))))
          (seq 1 (n - 2)) ++ [d1].

(** The points at the inner amounts; the two ends are those of the path. *)
Definition mandatory_point (path : list CartesianJointPoint) (amounts : list f64) (index : nat) :
    outcome CartesianJointPoint :=
  if (index =? 0)%nat then Returned (front path)
  else if (S index =? length amounts)%nat then Returned (back path)
  else sample_cartesian_joint_path path (nth index amounts d0).

Fixpoint append_segments (path : list CartesianJointPoint) (duration : f64) (amounts : list f64)
    (segments : list nat) (s : Subdivision) : outcome Subdivision :=
  match segments with
  | [] => Returned s
  | segment :: rest =>
      let* start := mandatory_point path amounts segment in
      let* end_ := mandatory_point path amounts (S segment) in
      let* s := append_interval path duration 32 (nth segment amounts d0) start
                  (nth (S segment) amounts d0) end_ s in
      append_segments path duration amounts rest s
  end.

(** The ends of the knots are set to those of the path. *)
Definition pin_last (knot : Knot) (l : list Knot) : list Knot := removelast l ++ [knot].
Definition pin_ends (path : list CartesianJointPoint) (duration : f64) (l : list Knot) : list Knot :=
  match pin_last (duration, back path) l with
  | _ :: rest => (d0, front path) :: rest
  | [] => []
  end.

Definition almost_one : f64 := f64_lit 10001 10000.
Definition one_percent_more (x : f64) : f64 := f64_mul x (f64_lit 101 100).

(** The knots for one duration and the stretch they still need. *)
Definition timing_attempt (path : list CartesianJointPoint) (maximum_velocity maximum_acceleration : f64)
    (duration : f64) : outcome (list Knot * f64) :=
  oguard (negb (f64_isfinite duration) || f64_lt (f64_of_Z 60) duration)
    (InvalidArgument
       "Cartesian trajectory cannot satisfy velocity and acceleration limits within 60 seconds") ;*
  let amounts := mandatory_amounts (length path) in
  let* s := append_segments path duration amounts (seq 0 (length amounts - 1))
              {| sd_knots := [(d0, front path)]; sd_scale := d1 |} in
  let knots := pin_ends path duration (rev (sd_knots s)) in
  let* limit_factor := variable_path_stretch_factor knots maximum_velocity maximum_acceleration in
  Returned (knots, if f64_lt almost_one limit_factor
                   then f64_max (sd_scale s) (one_percent_more limit_factor) else sd_scale s).

Fixpoint timing_attempts (path : list CartesianJointPoint) (maximum_velocity maximum_acceleration : f64)
    (attempts : nat) (duration : f64) : outcome (list Knot) :=
  match attempts with
  | O => Thrown (InvalidArgument "Cartesian adaptive trajectory timing did not converge")
  | S attempts =>
      let* x := timing_attempt path maximum_velocity maximum_acceleration duration in
      if f64_le x.2 almost_one then Returned x.1
      else timing_attempts path maximum_velocity maximum_acceleration attempts (f64_mul duration x.2)
  end.

Definition not_positive (x : f64) : bool := negb (f64_isfinite x) || f64_le x d0.

Definition time_parameterize_cartesian_trajectory (path : list CartesianJointPoint)
    (maximum_velocity maximum_acceleration : f64) : outcome (list Knot) :=
  oguard (not_positive maximum_velocity || not_positive maximum_acceleration)
    (InvalidArgument
       "Cartesian trajectory velocity and acceleration must be finite and positive") ;*
  oguard (length path <? 2)%nat too_short ;*
  timing_attempts path maximum_velocity maximum_acceleration 20
    (first_duration path maximum_velocity maximum_acceleration).

(** ** Paths of several pieces *)

(** The points from [first] to [last], both of the path. *)
Definition piece (path : list CartesianJointPoint) (first last : nat) :
    outcome (list CartesianJointPoint) :=
  oguard (last <=? first)%nat
    (InvalidArgument "piecewise Cartesian path contains an empty segment") ;*
  if (last <? length path)%nat then Returned (firstn (S (last - first)) (skipn first path))
  else Undefined.

Definition shifted (offset : f64) (knots : list Knot) : list Knot :=
  map (fun k => (f64_add offset k.1, k.2)) knots.

Fixpoint append_pieces (path : list CartesianJointPoint) (maximum_velocity maximum_acceleration : f64)
    (first : nat) (control_points : list nat) (result : list Knot) (time_offset : f64) :
    outcome (list Knot) :=
  match control_points with
  | [] => Returned result
  | last :: rest =>
      let* geometry := piece path first last in
      let* timed := time_parameterize_cartesian_trajectory geometry maximum_velocity
                      maximum_acceleration in
      let result := result ++ shifted time_offset (if (first =? 0)%nat then timed else tl timed) in
      append_pieces path maximum_velocity maximum_acceleration last rest result
        (List.last result no_knot).1
  end.

Definition time_parameterize_piecewise_cartesian_trajectory (path : list CartesianJointPoint)
    (control_point_indices : list nat) (maximum_velocity maximum_acceleration : f64) :
    outcome (list Knot) :=
  oguard ((length control_point_indices <? 2)%nat ||
          negb (nth 0 control_point_indices 0%nat =? 0)%nat ||
          negb (S (List.last control_point_indices 0%nat) =? length path)%nat)
    (InvalidArgument "piecewise Cartesian path control-point indices are invalid") ;*
  let* result := append_pieces path maximum_velocity maximum_acceleration
                   0 (tl control_point_indices) [] d0 in
  oguard (kNativeMaximumTrajectoryWaypoints <? Z.of_nat (length result))
    (InvalidArgument
       "piecewise Cartesian automatic timing requires more than the native point capacity") ;*
  Returned result.
