(* ===== verification/Cartesian.v ===== *)
(** * The planner of Cartesian motions

    [runtime/src/product_cartesian.cpp] and [product_cartesian_validation.cpp]:
    from a planned reference and target poses to a trajectory request.  A plan
    samples the geometry, solves inverse kinematics sample by sample, refuses a
    joint path that jumps or chatters, and times it.  [cartesian_planner] is
    the planner of the product runtime built from these functions.

    The planner holds the mutex of the pose model only while it computes, so a
    call is a function of its arguments. *)

From Stdlib Require Import String.
From S2P Require Import Prelude Float32 Float64 PvShaping RuntimeTypes NativeTypes Motions Planning Yunyi Product ProductCommands ProductOps CartesianMath CartesianTiming.
#[local] Open Scope mdl_scope.
#[local] Open Scope plan_scope.
#[local] Notation "s +++ t" := (String.append s t) (at level 60, right associativity).

(** ** Inverse kinematics, as the planner calls it *)

Record ArticoreIkOptions := {
  io_max_iterations : Z;
  io_max_retries : Z;
  io_tolerance : f64;
  io_step_size : f64;
  io_damping : f64;
  io_random_seed : Z
}.

Record ArticoreIkResult := {
  ik_success : bool;
  ik_iterations : Z;
  ik_error_norm : f64;
  ik_q : list f64
}.

(** The searches of [RobotModel]: the model is that of a side with a tool
    offset; the third may take the budget given and answers with the best
    result as well. *)
Class InverseKinematics := {
  ik_from_seed : Z -> list f32 -> ArticoreRobotPose -> list f64 -> ArticoreIkOptions ->
    outcome ArticoreIkResult;
  ik_nearest_until : Z -> list f32 -> ArticoreRobotPose -> list f64 -> ArticoreIkOptions -> Z ->
    outcome ArticoreIkResult;
  ik_endpoint_candidates_until : Z -> list f32 -> ArticoreRobotPose -> list f64 ->
    ArticoreIkOptions -> Z -> outcome (list (list f64) * ArticoreIkResult)
}.

(** [product_path_ik_options] and [product_endpoint_ik_options]. *)
Definition product_path_ik_options : ArticoreIkOptions := {|
  io_max_iterations := 1000; io_max_retries := 0; io_tolerance := f64_zero;
  io_step_size := f64_zero; io_damping := f64_zero; io_random_seed := 0 |}.

Definition product_endpoint_ik_options : ArticoreIkOptions := {|
  io_max_iterations := 1000; io_max_retries := 1000; io_tolerance := f64_zero;
  io_step_size := f64_zero; io_damping := f64_zero; io_random_seed := 0 |}.

Definition kYunyiLinearTranslationSampleDistance : f64 := f64_lit 2 1000.
Definition kYunyiLinearOrientationSampleDistance : f64 := f64_lit 1 10.
Definition kYunyiCircularTranslationSampleDistance : f64 := f64_lit 2 1000.
Definition kYunyiCircularOrientationSampleDistance : f64 := f64_lit 1 10.
Definition kYunyiCartesianMaximumIkJointStep : f64 := f64_lit 35 100.
Definition kYunyiCartesianIkDirectionDeadband : f64 := f64_lit 1 1000.
Definition kYunyiCartesianIkChatterExcursion : f64 := f64_lit 10 1000.
Definition kCircularMaximumGeometrySegments : Z := 2048.

Definition arm_indices : list nat := seq 0 PRODUCT_ARM_DOF.
Definition side_offset (side : Z) : nat := (Z.to_nat side * PRODUCT_ARM_DOF)%nat.

(** ** Poses *)

Section Poses.
Context `{!Libm}.

(** Roll, pitch and yaw as a rotation, row by row. *)
Definition rpy_rotation (roll pitch yaw : f64) : list f64 :=
  let sr := libm_sin roll in let cr := libm_cos roll in
  let sp := libm_sin pitch in let cp := libm_cos pitch in
  let sy := libm_sin yaw in let cy := libm_cos yaw in
  let m := f64_mul in
  [m cy cp; f64_sub (m (m cy sp) sr) (m sy cr); f64_add (m (m cy sp) cr) (m sy sr);
   m sy cp; f64_add (m (m sy sp) sr) (m cy cr); f64_sub (m (m sy sp) cr) (m cy sr);
   f64_opp sp; m cp sr; m cp cr].

Definition robot_pose_from_rpy (values : Pose) : outcome ArticoreRobotPose :=
  let v i := f64_of_f32 (at_ values i) in
  oguard (negb (forallb (fun i => f32_isfinite (at_ values i)) (seq 0 6)))
    (InvalidArgument "target_pose contains NaN or Inf") ;*
  Returned {| rp_position := [v 0%nat; v 1%nat; v 2%nat];
              rp_rotation := rpy_rotation (v 3%nat) (v 4%nat) (v 5%nat) |}.

Definition cartesian_pose (position : Vector3) (orientation : Quaternion) : ArticoreRobotPose :=
  {| rp_position := [v_x position; v_y position; v_z position];
     rp_rotation := rotation_from_quaternion orientation |}.

(** The distance of two poses: of the positions, and the angle. *)
Definition pose_error (actual expected : ArticoreRobotPose) : outcome (f64 * f64) :=
  let position_error :=
    norm (subtract (vector_of (rp_position actual)) (vector_of (rp_position expected))) in
  let* a := quaternion_from_rotation (rp_rotation actual) in
  let* b := quaternion_from_rotation (rp_rotation expected) in
  Returned (position_error, angular_distance a b).

End Poses.

Definition position_tolerance : f64 := f64_lit 5 1000.
Definition orientation_tolerance : f64 := f64_lit 35 1000.
Definition within_tolerance (e : f64 * f64) : bool :=
  f64_le e.1 position_tolerance && f64_le e.2 orientation_tolerance.

Definition require_side (side : Z) : outcome unit :=
  oguard (negb (side_valid side)) (InvalidArgument "Cartesian motion side must be LEFT(0) or RIGHT(1)").

(** ** The reference a motion starts from *)

Definition incomplete_reference (motion_name : string) : exn :=
  RuntimeError (motion_name +++ " requires a complete current planned reference")%string.

Definition reference_q (reference : NativeTrajectorySample) (side : Z) : list f64 :=
  map (fun i => f64_of_f32 (at_ (sa_positions reference) (side_offset side + i))) arm_indices.

(** The operations of the core state machine a Cartesian motion may follow. *)
Definition cartesian_may_follow (operation : ArticoreRuntimeOperation) : bool :=
  match operation with
  | OPERATION_MOVE_POSE | OPERATION_MOVE_LINEAR | OPERATION_MOVE_CIRCULAR => true
  | _ => false
  end.

Definition complete (l : list f32) : bool := (length l =? PRODUCT_DUAL_ARM_DOF)%nat.

Definition require_cartesian_reference (reference : NativeTrajectorySample) (motion_name : string) :
    outcome unit :=
  oguard (sa_active reference && negb (cartesian_may_follow (sa_operation reference)))
    (RuntimeError (motion_name +++ " cannot follow the current planned Runtime operation")%string) ;*
  oguard (negb (complete (sa_positions reference)) || negb (complete (sa_velocities reference)) ||
          negb (complete (sa_accelerations reference)))
    (incomplete_reference motion_name).

(** ** The continuity of the joint path *)

(** [CartesianIkContinuityState] of one joint. *)
Record JointTrend := {
  jt_direction : Z;
  jt_excursion : f64;
  jt_reversed : bool
}.

Definition no_trend : JointTrend := Build_JointTrend 0 d0 false.
Definition no_trends : list JointTrend := replicate PRODUCT_ARM_DOF no_trend.

Definition branch_error (label : string) (side : Z) (joint : nat) (step : f64) (sample : nat) : exn :=
  InvalidArgument
    (label +++ " changes to a discontinuous IK branch at sample " +++ to_string (Z.of_nat sample) +++
     ": " +++ yunyi_joint_role (side_offset side + joint) +++ " step=" +++ show_float step +++
     " rad exceeds " +++ show_float kYunyiCartesianMaximumIkJointStep +++ " rad")%string.

Definition chatter_error (label : string) (side : Z) (joint : nat) (travel : f64) (sample : nat) : exn :=
  InvalidArgument
    (label +++ " contains repeated IK joint direction chatter at sample " +++
     to_string (Z.of_nat sample) +++ ": " +++ yunyi_joint_role (side_offset side + joint) +++
     " reversed again after only " +++ show_float travel +++ " rad of travel")%string.

(** One joint: a step below the deadband does not count as a direction. *)
Definition joint_continuity (side : Z) (label : string) (sample joint : nat) (step : f64)
    (t : JointTrend) : outcome JointTrend :=
  let travel := f64_abs step in
  oguard (negb (f64_isfinite step))
    (InvalidArgument (label +++ " contains a non-finite IK joint step")%string) ;*
  oguard (f64_lt kYunyiCartesianMaximumIkJointStep travel)
    (branch_error label side joint step sample) ;*
  if f64_le kYunyiCartesianIkDirectionDeadband travel then
    let direction := if f64_lt d0 step then 1 else -1 in
    if jt_direction t =? 0 then Returned (Build_JointTrend direction travel (jt_reversed t))
    else if direction =? jt_direction t then
      Returned (Build_JointTrend (jt_direction t) (f64_add (jt_excursion t) travel) (jt_reversed t))
    else
      oguard (jt_reversed t && f64_le (jt_excursion t) kYunyiCartesianIkChatterExcursion)
        (chatter_error label side joint (jt_excursion t) sample) ;*
      Returned (Build_JointTrend direction travel true)
  else Returned t.

Fixpoint joints_continuity (side : Z) (label : string) (sample joint : nat) (steps : list f64)
    (trends : list JointTrend) : outcome (list JointTrend) :=
  match steps, trends with
  | step :: steps, t :: trends =>
      let* t := joint_continuity side label sample joint step t in
      let* rest := joints_continuity side label sample (S joint) steps trends in
      Returned (t :: rest)
  | _, _ => Returned trends
  end.

Definition joint_steps (previous current : list f64) : list f64 :=
  map (fun j => f64_sub (nth j current d0) (nth j previous d0)) arm_indices.

Definition require_cartesian_ik_continuity (side : Z) (previous current : list f64)
    (trends : list JointTrend) (label : string) (sample : nat) : outcome (list JointTrend) :=
  oguard (negb (side_valid side)) (InvalidArgument "Cartesian IK continuity side is invalid") ;*
  joints_continuity side label sample 0 (joint_steps previous current) trends.

(** ** Checked inverse kinematics *)

Definition unreachable_error (context : string) (ik : ArticoreIkResult) : exn :=
  InvalidArgument
    (context +++ " is unreachable; IK error_norm=" +++ fixed_six (ik_error_norm ik))%string.

Definition ik_limit_error (context : string) (index : nat) (joint : ProductJoint) (q : f64) : exn :=
  InvalidArgument
    (context +++ " IK result exceeds product position limits: " +++ yunyi_joint_role index +++
     " position=" +++ show_float q +++ " rad, allowed=[" +++ show_float (pj_lower joint) +++ ", " +++
     show_float (pj_upper joint) +++ "] rad")%string.

(** The limits are floats, widened by the comparison. *)
Definition within_product_limits (joint : ProductJoint) (q : f64) : bool :=
  f64_isfinite q && negb (f64_lt q (f64_of_f32 (pj_lower joint))) &&
  negb (f64_lt (f64_of_f32 (pj_upper joint)) q).

Fixpoint require_within_limits (product : YunyiRuntimeResources) (side : Z) (context : string)
    (q : list f64) (indices : list nat) : outcome unit :=
  match indices with
  | [] => Returned tt
  | i :: rest =>
      let joint := joint_at product (side_offset side + i) in
      oguard (negb (within_product_limits joint (nth i q d0)))
        (ik_limit_error context (side_offset side + i) joint (nth i q d0)) ;*
      require_within_limits product side context q rest
  end.

Definition checked_ik_result (product : YunyiRuntimeResources) (side : Z) (context : string)
    (ik : ArticoreIkResult) : outcome (list f64) :=
  oguard (negb (ik_success ik)) (unreachable_error context ik) ;*
  require_within_limits product side context (ik_q ik) arm_indices ;*
  Returned (map (fun i => nth i (ik_q ik) d0) arm_indices).

Section Planner.
Context `{!Libm} `{!RobotModels} `{!InverseKinematics}.

Definition solve_path_ik (product : YunyiRuntimeResources) (side : Z) (target : ArticoreRobotPose)
    (seed : list f64) (context : string) : outcome (list f64) :=
  let* ik := ik_from_seed side (tcp_offset_of product side) target seed product_path_ik_options in
  checked_ik_result product side context ik.

Definition solve_endpoint_ik (product : YunyiRuntimeResources) (side : Z)
    (target : ArticoreRobotPose) (seed : list f64) (context : string) (deadline : Z) :
    outcome (list f64) :=
  let* ik := ik_nearest_until side (tcp_offset_of product side) target seed
               product_endpoint_ik_options deadline in
  checked_ik_result product side context ik.

(** A new [RobotModel] may throw. *)
Definition planning_model (product : YunyiRuntimeResources) (side : Z) : outcome unit :=
  match robot_model_error side (tcp_offset_of product side) with
  | Some e => Thrown e
  | None => Returned tt
  end.

(** ** The start pose a caller declares *)

Definition start_mismatch : string := "start_pose does not match current planned pose".

Definition mismatch_error (motion_name : string) (e : f64 * f64) : exn :=
  InvalidArgument
    (motion_name +++ " " +++ start_mismatch +++ ": " +++
     "position_error=" +++ show_float e.1 +++ " m, " +++
     "orientation_error=" +++ show_float e.2 +++ " rad, " +++
     "tolerances=[position<=0.005, orientation<=0.035]")%string.

Definition validate_cartesian_start_pose (product : YunyiRuntimeResources) (side : Z)
    (reference : NativeTrajectorySample) (declared : ArticoreRobotPose) (motion_name : string) :
    outcome unit :=
  require_side side ;*
  oguard (str_empty motion_name) (InvalidArgument "Cartesian motion name is empty") ;*
  oguard (negb (complete (sa_positions reference))) (incomplete_reference motion_name) ;*
  planning_model product side ;*
  let* current := robot_fk side (tcp_offset_of product side) (reference_q reference side) in
  let* e := pose_error current declared in
  oguard (negb (within_tolerance e)) (mismatch_error motion_name e).

(** ** Convergence *)

Definition show_tolerances : string :=
  " tolerances=[position<=" +++ fixed_six position_tolerance +++ ", orientation<=" +++
  fixed_six orientation_tolerance +++ "]".

(** What the check answers or throws, and what its caller makes of it: an
    exception counts as not converged. *)
Definition pose_convergence (product : YunyiRuntimeResources) (side : Z)
    (expected : ArticoreRobotPose) (label : string) (actual_positions : list f32) :
    outcome (bool * string) :=
  if negb (complete actual_positions)
  then Returned (false, (label +++ " feedback has the wrong joint count")%string)
  else
    let q := map (fun i => f64_of_f32 (at_ actual_positions (side_offset side + i))) arm_indices in
    let* actual := robot_fk side (tcp_offset_of product side) q in
    let* e := pose_error actual expected in
    Returned (if within_tolerance e then (true, ""%string)
              else (false, (label +++ " position_error=" +++ fixed_six e.1 +++
                            " orientation_error=" +++ fixed_six e.2 +++ show_tolerances)%string)).

Definition pose_convergence_check (product : YunyiRuntimeResources) (side : Z)
    (expected : ArticoreRobotPose) (label : string) : ConvergenceCheck :=
  fun actual_positions =>
    match pose_convergence product side expected label actual_positions with
    | Returned answer => answer
    | Thrown e => (false, exn_what e)
    | Undefined | Unfinished => (false, ""%string)
    end.

(** ** From knots to a request *)

Record NativeCartesianTrajectoryPlan := {
  plan_trajectory : NativeTrajectoryRequest;
  plan_minimum_duration_s : f64
}.

Definition all_joints : Z := Z.ones (Z.of_nat PRODUCT_DUAL_ARM_DOF).
Definition arm_mask (side : Z) : Z :=
  Z.shiftl (Z.ones (Z.of_nat PRODUCT_ARM_DOF)) (Z.of_nat (side_offset side)).

Definition still : list f32 := zeros PRODUCT_DUAL_ARM_DOF.

Definition plain_waypoint (knot : Knot) : NativeTrajectoryWaypoint := {|
  wp_time_s := knot.1; wp_positions := knot.2; wp_velocities := still; wp_accelerations := still;
  wp_velocity_valid_mask := 0; wp_acceleration_valid_mask := 0 |}.

Definition with_derivatives (velocities accelerations : list f32) (w : NativeTrajectoryWaypoint) :
    NativeTrajectoryWaypoint := {|
  wp_time_s := wp_time_s w; wp_positions := wp_positions w; wp_velocities := velocities;
  wp_accelerations := accelerations; wp_velocity_valid_mask := all_joints;
  wp_acceleration_valid_mask := all_joints |}.

(** The first waypoint has the derivatives of the reference, the last is at
    rest. *)
Definition plan_waypoints (reference : NativeTrajectorySample) (path : list Knot) :
    list NativeTrajectoryWaypoint :=
  imap (fun index knot =>
    let w := plain_waypoint knot in
    if (index =? 0)%nat then with_derivatives (sa_velocities reference) (sa_accelerations reference) w
    else if (S index =? length path)%nat then with_derivatives still still w else w) path.



Definition assemble_cartesian_trajectory_plan (path : list Knot) (reference : NativeTrajectorySample)
    (product : YunyiRuntimeResources) (mode : ControlMode) (operation : ArticoreRuntimeOperation)
    (side : Z) (maximum_reference_acceleration maximum_reference_velocity : f32) :
    outcome NativeCartesianTrajectoryPlan :=
  require_pv_mode mode ;*
  oguard (negb (positive_finite maximum_reference_acceleration))
    (InvalidArgument "Cartesian trajectory acceleration must be finite and positive") ;*
  oguard (negb (positive_finite maximum_reference_velocity))
    (InvalidArgument "Cartesian trajectory velocity must be finite and positive") ;*
  oguard (length path <? 2)%nat
    (InvalidArgument "Cartesian adaptive path positions and timestamps disagree") ;*
  let '(duration, end_point) := List.last path no_knot in
  let expected_q := map (fun i => f64_of_f32 (at_ end_point (side_offset side + i))) arm_indices in
  let* expected := robot_fk side (tcp_offset_of product side) expected_q in
  Returned {|
    plan_trajectory := {|
      rq_mode := mode; rq_operation := operation; rq_execution := TrajectoryPv;
      rq_pv_reference_velocity := maximum_reference_velocity;
      rq_pv_reference_acceleration := maximum_reference_acceleration;
      rq_pv_drive_velocity_limit := kYunyiPvDriveVelocityLimit;
      rq_allow_out_of_limit_start_recovery := true;
      rq_approach_segment_count := 0; rq_approach_deadline_s := f64_zero;
      rq_completion_deadline_s := duration;
      rq_cartesian_tracking_joint_mask := arm_mask side;
      rq_joints := product_cartesian_joints product;
      rq_waypoints := plan_waypoints reference path;
      rq_approach_convergence_check := None;
      rq_final_convergence_check :=
        Some (pose_convergence_check product side expected "Cartesian endpoint") |};
    plan_minimum_duration_s := duration |}.

(** [prepend_cartesian_approach]: from the reference to the first waypoint,
    which becomes a stop. *)
Definition leading_waypoints (approach : list Knot) : list NativeTrajectoryWaypoint :=
  imap (fun index knot =>
    let w := plain_waypoint knot in
    if (index =? 0)%nat then with_derivatives still still w else w) (removelast approach).

Definition shifted_waypoints (offset : f64) (l : list NativeTrajectoryWaypoint) :
    list NativeTrajectoryWaypoint :=
  imap (fun index w =>
    let w := w <| wp_time_s ::= fun t => f64_add t offset |> in
    if (index =? 0)%nat then with_derivatives still still w else w) l.

Definition prepend_cartesian_approach (plan : NativeCartesianTrajectoryPlan)
    (product : YunyiRuntimeResources) (side : Z) (reference : NativeTrajectorySample)
    (declared_start : ArticoreRobotPose) : outcome NativeCartesianTrajectoryPlan :=
  let rq := plan_trajectory plan in
  let waypoints := rq_waypoints rq in
  oguard ((length waypoints =? 0)%nat || negb (complete (sa_positions reference)))
    (RuntimeError "Cartesian approach requires a complete preplanned path") ;*
  let approach_target := match waypoints with w :: _ => wp_positions w | [] => [] end in
  let* approach := time_parameterize_cartesian_trajectory [sa_positions reference; approach_target]
      (f64_of_f32 (rq_pv_reference_velocity rq)) (f64_of_f32 (rq_pv_reference_acceleration rq)) in
  let leading_count := (length approach - 1)%nat in
  oguard (kNativeMaximumTrajectoryWaypoints -
            Z.min (Z.of_nat (length waypoints)) kNativeMaximumTrajectoryWaypoints
          <? Z.of_nat leading_count)
    (InvalidArgument "Cartesian approach and path require more than the native point capacity") ;*
  let minimum_approach_duration := (List.last approach no_knot).1 in
  let path_duration := last_time waypoints in
  let minimum_total_duration := f64_add minimum_approach_duration path_duration in
  oguard (negb (f64_isfinite minimum_total_duration) || f64_lt (f64_of_Z 60) minimum_total_duration)
    (InvalidArgument "Cartesian approach requires an unsafe duration") ;*
  Returned {|
    plan_trajectory :=
      rq <| rq_waypoints := leading_waypoints approach ++
              shifted_waypoints minimum_approach_duration waypoints |>
         <| rq_approach_segment_count := Z.of_nat leading_count |>
         <| rq_approach_deadline_s := minimum_approach_duration |>
         <| rq_completion_deadline_s := minimum_total_duration |>
         <| rq_approach_convergence_check :=
              Some (pose_convergence_check product side declared_start
                      "Cartesian approach start") |>;
    plan_minimum_duration_s := minimum_total_duration |}.

(** ** Samples of the geometry *)

(** [std::ceil] as a [double]. *)
Definition rounded_up (x : f64) : f64 :=
  match f64_ceil x with Some z => f64_of_Z z | None => x end.

Definition linear_segments (start end_ : ArticoreRobotPose) (start_orientation end_orientation : Quaternion) :
    f64 :=
  let translation :=
    norm (subtract (vector_of (rp_position end_)) (vector_of (rp_position start))) in
  let orientation := angular_distance start_orientation end_orientation in
  f64_max d1 (rounded_up
    (f64_max (f64_div translation kYunyiLinearTranslationSampleDistance)
       (f64_div orientation kYunyiLinearOrientationSampleDistance))).

Definition linear_sample (start end_ : ArticoreRobotPose) (start_orientation end_orientation : Quaternion)
    (segments : Z) (sample : nat) : ArticoreRobotPose :=
  let amount := f64_div (f64_of_nat sample) (f64_of_Z segments) in
  cartesian_pose
    (lerp_position (vector_of (rp_position start)) (vector_of (rp_position end_)) amount)
    (slerp start_orientation end_orientation amount).

Definition append_linear_pose_samples (output : list ArticoreRobotPose)
    (start end_ : ArticoreRobotPose) : outcome (list ArticoreRobotPose) :=
  let* start_orientation := quaternion_from_rotation (rp_rotation start) in
  let* end_orientation := quaternion_from_rotation (rp_rotation end_) in
  let required := linear_segments start end_ start_orientation end_orientation in
  let available := kNativeMaximumTrajectoryWaypoints -
    Z.min (Z.of_nat (length output)) kNativeMaximumTrajectoryWaypoints in
  oguard (negb (f64_isfinite required) || f64_lt (f64_of_Z available) required)
    (InvalidArgument "Cartesian linear geometry requires more than the native point capacity") ;*
  let* segments := to_unsigned 64 (f64_floor required) in
  Returned (output ++ map (linear_sample start end_ start_orientation end_orientation segments)
                        (seq 1 (Z.to_nat segments))).

(** The poses and the indices of the control poses among them. *)
Fixpoint append_edges (poses : list ArticoreRobotPose) (x : list ArticoreRobotPose * list nat) :
    outcome (list ArticoreRobotPose * list nat) :=
  match poses with
  | start :: ((end_ :: _) as rest) =>
      let* output := append_linear_pose_samples x.1 start end_ in
      append_edges rest (output, x.2 ++ [(length output - 1)%nat])
  | _ => Returned x
  end.

Definition no_pose : ArticoreRobotPose := {| rp_position := []; rp_rotation := [] |}.

Definition piecewise_linear_pose_samples (poses : list ArticoreRobotPose) :
    outcome (list ArticoreRobotPose * list nat) :=
  oguard (length poses <? 2)%nat (InvalidArgument "linear path requires at least two poses") ;*
  let* x := append_edges poses ([nth 0 poses no_pose], [0%nat]) in
  Returned (removelast x.1 ++ [List.last poses no_pose], x.2).

(** ** The joint path *)

(** The waypoint of a side: the joints of the other side stay. *)
Definition with_side (start : list f32) (side : Z) (q : list f64) : CartesianJointPoint :=
  map (fun i =>
    if (side_offset side <=? i)%nat && (i <? side_offset side + PRODUCT_ARM_DOF)%nat
    then f32_of_f64 (nth (i - side_offset side) q d0) else at_ start i)
    (seq 0 PRODUCT_DUAL_ARM_DOF).

(** What the loop over the samples carries. *)
Record PathState := {
  ps_seed : list f64;
  ps_trends : list JointTrend;
  ps_path : list CartesianJointPoint
}.

Definition path_start (start : list f32) (start_q : list f64) : PathState :=
  {| ps_seed := start_q; ps_trends := no_trends; ps_path := [start] |}.

Definition solve_sample (product : YunyiRuntimeResources) (side : Z) (start : list f32)
    (pose : ArticoreRobotPose) (context : string) (sample : nat) (s : PathState) : outcome PathState :=
  let* solved := solve_path_ik product side pose (ps_seed s) context in
  let* trends := require_cartesian_ik_continuity side (ps_seed s) solved (ps_trends s) context sample in
  Returned {| ps_seed := solved; ps_trends := trends;
              ps_path := ps_path s ++ [with_side start side solved] |}.

Fixpoint solve_samples (product : YunyiRuntimeResources) (side : Z) (start : list f32)
    (target inner : string) (sample : nat) (poses : list ArticoreRobotPose) (s : PathState) :
    outcome PathState :=
  match poses with
  | [] => Returned s
  | pose :: rest =>
      let context := match rest with [] => target | _ => inner end in
      let* s := solve_sample product side start pose context sample s in
      solve_samples product side start target inner (S sample) rest s
  end.

(** ** Linear motions *)

Definition build_linear_path_trajectory_plan_common (product : YunyiRuntimeResources)
    (mode : ControlMode) (side : Z) (reference : NativeTrajectorySample)
    (control_poses : list ArticoreRobotPose) (acceleration velocity : f32) :
    outcome NativeCartesianTrajectoryPlan :=
  require_pv_mode mode ;*
  require_side side ;*
  require_cartesian_reference reference "linear path" ;*
  planning_model product side ;*
  let* poses := piecewise_linear_pose_samples control_poses in
  let* s := solve_samples product side (sa_positions reference) "Cartesian linear path target"
              "Cartesian piecewise linear path sample" 1 (tl poses.1)
              (path_start (sa_positions reference) (reference_q reference side)) in
  let* path := time_parameterize_piecewise_cartesian_trajectory (ps_path s) poses.2
                 (f64_of_f32 velocity) (f64_of_f32 acceleration) in
  assemble_cartesian_trajectory_plan path reference product mode OPERATION_MOVE_LINEAR side
    acceleration velocity.

Definition validate_declared (product : YunyiRuntimeResources) (side : Z)
    (reference : NativeTrajectorySample) (declared : option ArticoreRobotPose) (motion_name : string) :
    outcome unit :=
  match declared with
  | Some pose => validate_cartesian_start_pose product side reference pose motion_name
  | None => Returned tt
  end.

Definition build_linear_trajectory_plan_common (product : YunyiRuntimeResources)
    (mode : ControlMode) (side : Z) (reference : NativeTrajectorySample)
    (declared_start : option ArticoreRobotPose) (end_pose_values : Pose)
    (acceleration velocity : f32) : outcome NativeCartesianTrajectoryPlan :=
  require_pv_mode mode ;*
  require_side side ;*
  require_cartesian_reference reference "linear" ;*
  validate_declared product side reference declared_start "linear" ;*
  let* end_pose := robot_pose_from_rpy end_pose_values in
  planning_model product side ;*
  let start_q := reference_q reference side in
  let* actual_start := robot_fk side (tcp_offset_of product side) start_q in
  let geometric_start := default actual_start declared_start in
  let* poses := append_linear_pose_samples [geometric_start] geometric_start end_pose in
  let* s := solve_samples product side (sa_positions reference) "Cartesian linear target"
              "Cartesian linear path sample" 1 (tl poses)
              (path_start (sa_positions reference) start_q) in
  let* path := time_parameterize_cartesian_trajectory (ps_path s) (f64_of_f32 velocity)
                 (f64_of_f32 acceleration) in
  assemble_cartesian_trajectory_plan path reference product mode OPERATION_MOVE_LINEAR side
    acceleration velocity.

(** ** Circular motions *)

(** [std::max<uint32_t>(1, ceil(max(length / distance, angle / distance)))]. *)
Definition circular_segments (length_ orientation : f64) : outcome Z :=
  let* n := to_unsigned 32 (f64_ceil
    (f64_max (f64_div length_ kYunyiCircularTranslationSampleDistance)
       (f64_div orientation kYunyiCircularOrientationSampleDistance))) in
  Returned (Z.max 1 n).

Definition circular_sample (arc : CircularArc) (start via end_ : Quaternion) (via_amount angle : f64) :
    outcome ArticoreRobotPose :=
  let* orientation := circular_slerp_through_via start via end_ via_amount
                        (f64_div angle (arc_end_angle arc)) in
  Returned (cartesian_pose (arc_position arc angle) orientation).

(** The samples of one half, [angle] from the first to the last. *)
Fixpoint solve_arc (product : YunyiRuntimeResources) (side : Z) (start : list f32)
    (pose_at : f64 -> outcome ArticoreRobotPose) (angle_at : nat -> f64) (context : string)
    (index_offset : nat) (samples : list nat) (s : PathState) : outcome PathState :=
  match samples with
  | [] => Returned s
  | sample :: rest =>
      let* pose := pose_at (angle_at sample) in
      let* s := solve_sample product side start pose context (index_offset + sample) s in
      solve_arc product side start pose_at angle_at context index_offset rest s
  end.

Definition build_circular_trajectory_plan_common (product : YunyiRuntimeResources)
    (mode : ControlMode) (side : Z) (reference : NativeTrajectorySample)
    (declared_start : option ArticoreRobotPose) (via_pose_values end_pose_values : Pose)
    (acceleration velocity : f32) : outcome NativeCartesianTrajectoryPlan :=
  require_pv_mode mode ;*
  require_side side ;*
  let* via := robot_pose_from_rpy via_pose_values in
  let* end_ := robot_pose_from_rpy end_pose_values in
  planning_model product side ;*
  require_cartesian_reference reference "circular" ;*
  let start_q := reference_q reference side in
  let* actual_start := robot_fk side (tcp_offset_of product side) start_q in
  validate_declared product side reference declared_start "circular" ;*
  let geometric_start := default actual_start declared_start in
  let* start_orientation := quaternion_from_rotation (rp_rotation geometric_start) in
  let* arc := circular_arc_from_three_points (vector_of (rp_position geometric_start))
                (vector_of (rp_position via)) (vector_of (rp_position end_)) in
  let* via_orientation := quaternion_from_rotation (rp_rotation via) in
  let* end_orientation := quaternion_from_rotation (rp_rotation end_) in
  let second_angle := f64_sub (arc_end_angle arc) (arc_via_angle arc) in
  let* first_segments := circular_segments (f64_mul (arc_radius arc) (arc_via_angle arc))
                           (angular_distance start_orientation via_orientation) in
  let* second_segments := circular_segments (f64_mul (arc_radius arc) second_angle)
                            (angular_distance via_orientation end_orientation) in
  oguard (kCircularMaximumGeometrySegments <? u32 (first_segments + second_segments))
    (InvalidArgument "circular path is too long for one native transaction") ;*
  let pose_at := circular_sample arc start_orientation via_orientation end_orientation
                   (f64_div (arc_via_angle arc) (arc_end_angle arc)) in
  let amount sample segments := f64_div (f64_of_nat sample) (f64_of_Z segments) in
  let solve := solve_arc product side (sa_positions reference) pose_at in
  let* s := solve (fun sample => f64_mul (amount sample first_segments) (arc_via_angle arc))
              "Cartesian circular start-to-via path" 0%nat (seq 1 (Z.to_nat first_segments))
              (path_start (sa_positions reference) start_q) in
  let* s := solve (fun sample => f64_add (arc_via_angle arc)
                                   (f64_mul (amount sample second_segments) second_angle))
              "Cartesian circular via-to-end path" (Z.to_nat first_segments)
              (seq 1 (Z.to_nat second_segments)) s in
  let* path := time_parameterize_cartesian_trajectory (ps_path s) (f64_of_f32 velocity)
                 (f64_of_f32 acceleration) in
  assemble_cartesian_trajectory_plan path reference product mode OPERATION_MOVE_CIRCULAR side
    acceleration velocity.

(** ** Approaching a declared start *)

Definition no_branch_error (label : string) (best : ArticoreIkResult) : exn :=
  InvalidArgument
    ("Cartesian " +++ label +++ " start has no reachable IK branch; IK error_norm=" +++
     fixed_six (ik_error_norm best))%string.

Definition branch_within_limits (product : YunyiRuntimeResources) (side : Z) (q : list f64) : bool :=
  forallb (fun i => within_product_limits (joint_at product (side_offset side + i)) (nth i q d0))
    arm_indices.

Definition solve_cartesian_trajectory_approach_targets (product : YunyiRuntimeResources) (side : Z)
    (reference : NativeTrajectorySample) (target_pose_values : Pose) (label : string) :
    outcome (list CartesianJointPoint) :=
  require_side side ;*
  require_cartesian_reference reference "trajectory approach" ;*
  let* target := robot_pose_from_rpy target_pose_values in
  let* x := ik_endpoint_candidates_until side (tcp_offset_of product side) target
              (reference_q reference side) product_endpoint_ik_options kYunyiProductIkBudget in
  oguard (length x.1 =? 0)%nat (no_branch_error label x.2) ;*
  let results := map (with_side (sa_positions reference) side)
                   (List.filter (branch_within_limits product side) x.1) in
  oguard (length results =? 0)%nat
    (InvalidArgument
       ("Cartesian " +++ label +++ " start has no reachable IK branch inside product limits")%string) ;*
  Returned results.

(** The reference a path starts from after an approach. *)
Definition approach_reference (reference : NativeTrajectorySample) (target : CartesianJointPoint) :
    NativeTrajectorySample := {|
  sa_active := sa_active reference; sa_motion_id := sa_motion_id reference;
  sa_operation := sa_operation reference; sa_positions := target; sa_velocities := still;
  sa_accelerations := still |}.

Definition no_path_error (label : string) (branches : nat) (path_failure : string) : exn :=
  InvalidArgument
    ("Cartesian " +++ label +++ " start is reachable, but no start IK branch can " +++
     "continuously complete the path; attempted_branches=" +++ to_string (Z.of_nat branches) +++
     "; path_failure=" +++ path_failure)%string.

(** The first branch from which the whole path can be planned; the first
    refusal is kept for the message, any other exception goes on. *)
Fixpoint first_branch (label : string) (branches : nat)
    (attempt : CartesianJointPoint -> outcome NativeCartesianTrajectoryPlan)
    (targets : list CartesianJointPoint) (path_failure : string) :
    outcome NativeCartesianTrajectoryPlan :=
  match targets with
  | [] => Thrown (no_path_error label branches path_failure)
  | target :: rest =>
      match attempt target with
      | Thrown (InvalidArgument what) =>
          first_branch label branches attempt rest
            (if str_empty path_failure then what else path_failure)
      | o => o
      end
  end.

(** [std::string::find(...) != npos]. *)
Definition mentions (part text : string) : bool := bool_decide (is_Some (String.index 0 part text)).

(** A refused start pose is not an error yet: the motion may approach it. *)
Definition or_approach {A} (direct : outcome A) (approach : outcome A) : outcome A :=
  match direct with
  | Thrown (InvalidArgument what) => if mentions start_mismatch what then approach else direct
  | o => o
  end.

(** The three motions with a declared start differ in how they build the path
    from a reference. *)
Definition plan_with_start (product : YunyiRuntimeResources) (side : Z)
    (reference : NativeTrajectorySample) (start_pose_values : Pose)
    (declared_start : ArticoreRobotPose) (name label : string)
    (build : NativeTrajectorySample -> outcome NativeCartesianTrajectoryPlan) :
    outcome NativeCartesianTrajectoryPlan :=
  or_approach
    (validate_cartesian_start_pose product side reference declared_start name ;*
     build reference)
    (let* targets := solve_cartesian_trajectory_approach_targets product side reference
                       start_pose_values label in
     first_branch label (length targets)
       (fun target =>
          let* plan := build (approach_reference reference target) in
          prepend_cartesian_approach plan product side reference declared_start)
       targets "").

Definition build_linear_trajectory_plan_from_reference (product : YunyiRuntimeResources)
    (mode : ControlMode) (side : Z) (reference : NativeTrajectorySample) (start_pose : option Pose)
    (end_pose : Pose) (acceleration velocity : f32) : outcome NativeCartesianTrajectoryPlan :=
  match start_pose with
  | None => build_linear_trajectory_plan_common product mode side reference None end_pose
              acceleration velocity
  | Some values =>
      let* declared_start := robot_pose_from_rpy values in
      plan_with_start product side reference values declared_start "linear" "Linear"
        (fun reference => build_linear_trajectory_plan_common product mode side reference
                            (Some declared_start) end_pose acceleration velocity)
  end.

Fixpoint poses_from_values (l : list Pose) : outcome (list ArticoreRobotPose) :=
  match l with
  | [] => Returned []
  | values :: rest =>
      let* pose := robot_pose_from_rpy values in
      let* poses := poses_from_values rest in
      Returned (pose :: poses)
  end.

Definition build_linear_path_trajectory_plan_from_reference (product : YunyiRuntimeResources)
    (mode : ControlMode) (side : Z) (reference : NativeTrajectorySample) (pose_values : list Pose)
    (acceleration velocity : f32) : outcome NativeCartesianTrajectoryPlan :=
  require_pv_mode mode ;*
  require_side side ;*
  oguard ((length pose_values <? 2)%nat || (64 <? length pose_values)%nat)
    (InvalidArgument "linear path pose_count must be within [2,64]") ;*
  let* poses := poses_from_values pose_values in
  plan_with_start product side reference (nth 0 pose_values []) (nth 0 poses no_pose)
    "linear path" "Linear Path"
    (fun reference => build_linear_path_trajectory_plan_common product mode side reference poses
                        acceleration velocity).

Definition build_circular_trajectory_plan_from_reference (product : YunyiRuntimeResources)
    (mode : ControlMode) (side : Z) (reference : NativeTrajectorySample)
    (start_pose via_pose end_pose : Pose) (acceleration velocity : f32) :
    outcome NativeCartesianTrajectoryPlan :=
  let* declared_start := robot_pose_from_rpy start_pose in
  plan_with_start product side reference start_pose declared_start "circular" "Circular"
    (fun reference => build_circular_trajectory_plan_common product mode side reference
                        (Some declared_start) via_pose end_pose acceleration velocity).

(** The overload without a start pose: the arc begins where the reference
    is. *)
Definition build_circular_trajectory_plan_from_here (product : YunyiRuntimeResources)
    (mode : ControlMode) (side : Z) (reference : NativeTrajectorySample) (via_pose end_pose : Pose)
    (acceleration velocity : f32) : outcome NativeCartesianTrajectoryPlan :=
  build_circular_trajectory_plan_common product mode side reference None via_pose end_pose
    acceleration velocity.

(** ** Joint targets for a pair of poses *)

Definition endpoint_context (side : Z) : string :=
  if side =? 0 then "left Cartesian point-to-point target" else "right Cartesian point-to-point target".

(** Both sides are solved on threads of their own; what the left one throws
    is thrown first. *)
Definition solve_dual_point_to_point_targets_from_reference (product : YunyiRuntimeResources)
    (reference : NativeTrajectorySample) (left_target_pose right_target_pose : Pose)
    (deadline : Z) : outcome JointArray :=
  require_cartesian_reference reference "dual point-to-point" ;*
  let solve_side side :=
    let* target := robot_pose_from_rpy (if side =? 0 then left_target_pose else right_target_pose) in
    solve_endpoint_ik product side target (reference_q reference side) (endpoint_context side)
      deadline in
  let* left := solve_side 0 in
  let* right := solve_side 1 in
  Returned (map f32_of_f64 (left ++ right)).

(** ** The planner of the product runtime *)

Definition trajectory_of (plan : outcome NativeCartesianTrajectoryPlan) :
    outcome NativeTrajectoryRequest :=
  let* p := plan in Returned (plan_trajectory p).

#[export] Instance cartesian_planner : CartesianPlanner := {|
  plan_dual_ik product mode reference left right deadline :=
    solve_dual_point_to_point_targets_from_reference product reference left right deadline;
  plan_linear product mode side reference start_pose end_pose acceleration velocity :=
    trajectory_of (build_linear_trajectory_plan_from_reference product mode side reference
                     start_pose end_pose acceleration velocity);
  plan_circular product mode side reference start_pose via_pose end_pose acceleration velocity :=
    trajectory_of (build_circular_trajectory_plan_from_reference product mode side reference
                     start_pose via_pose end_pose acceleration velocity)
|}.

End Planner.
