(* ===== verification/IkSearch.v ===== *)
(** * Inverse kinematics

    The searches of [runtime/src/robot_model.cpp]: damped least squares with a
    line search from one seed ([solve]), the deterministic seeds, random
    retries, the choice of the solution nearest to the seed, and the deadline.
    The rigid-body functions of Pinocchio and the linear algebra of Eigen are
    the class [RigidBody]; [yunyi_searches] is the interface the planner is
    written against. *)

From Stdlib Require Import String.
From S2P Require Import Prelude Float32 Float64 NativeTypes Yunyi Product ProductCommands ProductOps CartesianMath Cartesian.
#[local] Open Scope mdl_scope.
#[local] Open Scope plan_scope.

(** ** Limits and seeds *)

(** [JointSpec::lower] and [JointSpec::upper] of [kLeft] and [kRight]. *)
Definition model_lower (side : Z) : list f64 :=
  map (fun n => f64_lit n 10000)
    (if side =? 0 then [-27450; -3489; -25294; -1744; -20933; -7850; -13956]
     else [-27450; -22678; -25294; -1744; -20933; -7850; -13956]).
Definition model_upper (side : Z) : list f64 :=
  map (fun n => f64_lit n 10000)
    (if side =? 0 then [27450; 22678; 25294; 22678; 20933; 7850; 13956]
     else [27450; 3489; 25294; 22678; 20933; 7850; 13956]).

(** [1.57079632679489661923] is 884279719003555 / 2^49. *)
Definition kHalfPi : f64 := f64_lit 884279719003555 (2 ^ 49).

Definition pointwise (f : f64 -> f64 -> f64) (a b : list f64) : list f64 :=
  map (fun i => f (nth i a d0) (nth i b d0)) arm_indices.

Definition difference_of : list f64 -> list f64 -> list f64 := pointwise f64_sub.

(** [std::clamp], joint by joint. *)
Definition bounded_seed (lower upper seed : list f64) : list f64 :=
  map (fun i => f64_clamp (nth i seed d0) (nth i lower d0) (nth i upper d0)) arm_indices.

(** The digits of [index] in a base, mirrored behind the point; one digit for
    each unit of fuel, and an index has no more digits than its value. *)
Fixpoint radical_digits (fuel : nat) (index base : Z) (fraction result : f64) : f64 :=
  match fuel with
  | O => result
  | S fuel =>
      if index <=? 0 then result
      else
        let result := f64_add result (f64_mul (f64_of_Z (index mod base)) fraction) in
        radical_digits fuel (index / base) base (f64_div fraction (f64_of_Z base)) result
  end.

Definition radical_inverse (index base : Z) : f64 :=
  radical_digits (Z.to_nat index) index base (f64_div d1 (f64_of_Z base)) d0.

Definition seed_bases : list Z := [2; 3; 5; 7; 11; 13; 17].

Definition home_seed : list f64 := [d0; d0; d0; kHalfPi; d0; d0; d0].
Definition zero_seed : list f64 := replicate PRODUCT_ARM_DOF d0.
Definition midpoint_seed (lower upper : list f64) : list f64 :=
  pointwise (fun l u => f64_mul dhalf (f64_add l u)) lower upper.

(** The fraction of the second joint is mirrored on the right side. *)
Definition distributed_seed (side : Z) (lower upper : list f64) (sample : Z) : list f64 :=
  map (fun joint =>
    let fraction := radical_inverse sample (nth joint seed_bases 2) in
    let fraction := if (side =? 1) && (joint =? 1)%nat then f64_sub d1 fraction else fraction in
    let l := nth joint lower d0 in
    f64_add l (f64_mul fraction (f64_sub (nth joint upper d0) l))) arm_indices.

Definition limits_invalid (lower upper : list f64) : bool :=
  existsb (fun i =>
    let l := nth i lower d0 in
    let u := nth i upper d0 in
    negb (f64_isfinite l) || negb (f64_isfinite u) || f64_lt u l) arm_indices.

Definition yunyi_ptp_fallback_ik_seeds (side : Z) (lower upper : list f64) : outcome (list (list f64)) :=
  oguard (negb (side_valid side))
    (InvalidArgument "endpoint IK seed side must be LEFT(0) or RIGHT(1)") ;*
  oguard (limits_invalid lower upper) (InvalidArgument "endpoint IK seed limits are invalid") ;*
  Returned ([bounded_seed lower upper home_seed; bounded_seed lower upper zero_seed;
             midpoint_seed lower upper] ++
            map (distributed_seed side lower upper) [1; 2; 3; 4; 5]).

(** ** What the search computes with *)

(** [kin_residual]: the logarithm of the placement error at a configuration,
    six numbers, of the model of a side and tool offset; [kin_step]: the damped
    pseudoinverse step there, for a damping of the diagonal, a step size and,
    where it is regularised, a preferred posture; [kin_integrate]: a
    configuration moved by a step.  [eig_norm] and [eig_squared_norm] are sums
    in Eigen's order, [eig_rotation] its test for a finite proper rotation and a
    finite translation; [libm_hypot] and [libm_square] are [std::hypot] and
    [std::pow] with exponent 2; [random_draw]: the n-th draw of the generator
    with a seed, between two bounds; [search_clock]: the n-th reading of the
    steady clock during a search, the first one before it begins. *)
Class RigidBody := {
  kin_residual : Z -> list f32 -> ArticoreRobotPose -> list f64 -> list f64;
  kin_step : Z -> list f32 -> ArticoreRobotPose -> list f64 -> f64 -> f64 -> option (list f64) ->
    list f64;
  kin_integrate : list f64 -> list f64 -> list f64;
  eig_norm : list f64 -> f64;
  eig_squared_norm : list f64 -> f64;
  eig_rotation : ArticoreRobotPose -> bool;
  libm_hypot : f64 -> f64 -> f64;
  libm_square : f64 -> f64;
  random_draw : Z -> nat -> f64 -> f64 -> f64;
  search_clock : nat -> Z
}.

Definition kPathIkPositionTolerance : f64 := f64_lit 5 10000.
Definition kPathIkOrientationTolerance : f64 := f64_lit 35 1000.
Definition kPathIkOrientationWeight : f64 := f64_lit 20 100.

(** The settings after their defaults. *)
Record Settings := {
  st_max_iterations : Z;
  st_max_retries : Z;
  st_tolerance : f64;
  st_step_size : f64;
  st_damping : f64;
  st_random_seed : Z
}.

Definition positive_or (x default : f64) : f64 := if f64_lt d0 x then x else default.

Definition settings_of (o : ArticoreIkOptions) : Settings := {|
  st_max_iterations := if io_max_iterations o =? 0 then 1000 else io_max_iterations o;
  st_max_retries := if io_max_retries o =? 0 then 8 else io_max_retries o;
  st_tolerance := positive_or (io_tolerance o) (f64_lit 1 10000);
  st_step_size := positive_or (io_step_size o) (f64_lit 5 10);
  st_damping := positive_or (io_damping o) (f64_lit 1 1000000);
  st_random_seed := io_random_seed o |}.

(** What one search is about. *)
Record Problem := {
  pb_side : Z;
  pb_tool : list f32;
  pb_target : ArticoreRobotPose;
  pb_seed : list f64;
  pb_settings : Settings;
  pb_regularize : bool;
  pb_deadline : option Z
}.

(** The readings of the clock so far, and [deadline_expired]. *)
Record Progress := {
  pr_reads : nat;
  pr_expired : bool
}.

Record Attempt := {
  at_q : list f64;
  at_error : f64;
  at_iterations : Z;
  at_success : bool
}.

Section Search.
Context `{!RigidBody}.

Definition check_deadline (p : Problem) (g : Progress) : Progress :=
  match pb_deadline p with
  | None => g
  | Some deadline =>
      {| pr_reads := S (pr_reads g);
         pr_expired := pr_expired g || (deadline <=? search_clock (pr_reads g)) |}
  end.

(** ** One attempt *)

Definition residual_at (p : Problem) (q : list f64) : list f64 :=
  kin_residual (pb_side p) (pb_tool p) (pb_target p) q.

Definition position_part (residual : list f64) : f64 := eig_norm (firstn 3 residual).
Definition orientation_part (residual : list f64) : f64 := eig_norm (skipn 3 residual).

Definition residual_error (p : Problem) (residual : list f64) : f64 :=
  if pb_regularize p
  then libm_hypot (position_part residual)
         (f64_mul kPathIkOrientationWeight (orientation_part residual))
  else eig_norm residual.

Definition converged (p : Problem) (residual : list f64) : bool :=
  if pb_regularize p
  then f64_le (position_part residual) kPathIkPositionTolerance &&
       f64_le (orientation_part residual) kPathIkOrientationTolerance
  else f64_lt (residual_error p residual) (st_tolerance (pb_settings p)).

(** [cwiseMax(lower).cwiseMin(upper)]. *)
Definition inside_model (p : Problem) (q : list f64) : list f64 :=
  pointwise f64_min (pointwise f64_max q (model_lower (pb_side p))) (model_upper (pb_side p)).

Definition newton_step (p : Problem) (q : list f64) (error : f64) : list f64 :=
  let diagonal := f64_mul (st_damping (pb_settings p)) (f64_max d1 (f64_mul error (f64_of_Z 10))) in
  kin_step (pb_side p) (pb_tool p) (pb_target p) q diagonal (st_step_size (pb_settings p))
    (if pb_regularize p then Some (pb_seed p) else None).

(** Up to four halvings: the first candidate with a smaller error. *)
Fixpoint line_search (p : Problem) (q delta : list f64) (error alpha : f64) (lines : nat)
    (g : Progress) : option (list f64) * Progress :=
  match lines with
  | O => (None, g)
  | S lines =>
      let g := check_deadline p g in
      if pr_expired g then (None, g)
      else
        let candidate := inside_model p (kin_integrate q (map (f64_mul alpha) delta)) in
        if f64_lt (residual_error p (residual_at p candidate)) error then (Some candidate, g)
        else line_search p q delta error (f64_mul alpha dhalf) lines g
  end.

(** After the loop: the configuration reached is judged unless the time is
    over. *)
Definition settle_attempt (p : Problem) (a : Attempt) (g : Progress) : Attempt * Progress :=
  if pr_expired g then (a, g)
  else
    let residual := residual_at p (at_q a) in
    ({| at_q := at_q a; at_error := residual_error p residual;
        at_iterations := st_max_iterations (pb_settings p); at_success := converged p residual |}, g).

Fixpoint iterate (p : Problem) (iterations : nat) (iteration : Z) (a : Attempt) (g : Progress) :
    Attempt * Progress :=
  match iterations with
  | O => settle_attempt p a g
  | S iterations =>
      let g := check_deadline p g in
      if pr_expired g then settle_attempt p a g
      else
        let residual := residual_at p (at_q a) in
        let error := residual_error p residual in
        if converged p residual then
          ({| at_q := at_q a; at_error := error; at_iterations := iteration; at_success := true |}, g)
        else
          let a := {| at_q := at_q a; at_error := error; at_iterations := iteration;
                      at_success := false |} in
          match line_search p (at_q a) (newton_step p (at_q a) error) error d1 4 g with
          | (Some q, g) =>
              iterate p iterations (iteration + 1)
                {| at_q := q; at_error := error; at_iterations := iteration; at_success := false |} g
          | (None, g) => settle_attempt p a g
          end
  end.

Definition solve (p : Problem) (q : list f64) (g : Progress) : Attempt * Progress :=
  iterate p (Z.to_nat (st_max_iterations (pb_settings p))) 0
    {| at_q := q; at_error := S754_infinity false; at_iterations := 0; at_success := false |} g.

(** ** The best attempt and the candidates *)

Definition seed_distance (p : Problem) (q : list f64) : f64 :=
  eig_squared_norm (difference_of q (pb_seed p)).

Definition joint_distance (a b : list f64) : f64 :=
  fold_left (fun distance d => f64_add distance (f64_mul d d)) (difference_of a b) d0.

(** [record_candidate]: a success that is not among the candidates. *)
Definition record_candidate (a : Attempt) (candidates : list (list f64)) : list (list f64) :=
  if negb (at_success a) then candidates
  else if existsb (fun existing =>
            f64_le (joint_distance existing (at_q a)) (f64_lit 1 10000000000)) candidates
  then candidates else candidates ++ [at_q a].

(** The best attempt with its distance, and the candidates. *)
Record Ranking := {
  rk_best : Attempt;
  rk_distance : f64;
  rk_candidates : list (list f64)
}.

Definition nearer (a best : Attempt) (distance best_distance : f64) : bool :=
  f64_lt distance best_distance ||
  (f64_lt (f64_abs (f64_sub distance best_distance)) (f64_lit 1 1000000000000) &&
   f64_lt (at_error a) (at_error best)).

(** A success replaces a failure and a success farther away, a failure a worse
    failure. *)
Definition rank (nearest : bool) (p : Problem) (a : Attempt) (r : Ranking) : Ranking :=
  let candidates := record_candidate a (rk_candidates r) in
  let best := rk_best r in
  if at_success a && nearest then
    let distance := seed_distance p (at_q a) in
    if negb (at_success best) || nearer a best distance (rk_distance r)
    then {| rk_best := a; rk_distance := distance; rk_candidates := candidates |}
    else {| rk_best := best; rk_distance := rk_distance r; rk_candidates := candidates |}
  else if negb (at_success best) && f64_lt (at_error a) (at_error best)
  then {| rk_best := a; rk_distance := rk_distance r; rk_candidates := candidates |}
  else {| rk_best := best; rk_distance := rk_distance r; rk_candidates := candidates |}.

Definition first_ranking (p : Problem) (a : Attempt) : Ranking := {|
  rk_best := a;
  rk_distance := if at_success a then seed_distance p (at_q a) else S754_infinity false;
  rk_candidates := record_candidate a [] |}.

(** The seeds that are not the one already tried, until the time is over. *)
Fixpoint try_fallbacks (p : Problem) (fallbacks : list (list f64)) (x : Ranking * Progress) :
    Ranking * Progress :=
  match fallbacks with
  | [] => x
  | fallback :: rest =>
      if pr_expired x.2 then x
      else if f64_le (seed_distance p fallback) (f64_lit 1 (10 ^ 24)) then try_fallbacks p rest x
      else
        let '(a, g) := solve p fallback x.2 in
        try_fallbacks p rest (rank true p a x.1, g)
  end.

Definition random_seed_at (p : Problem) (retry : nat) : list f64 :=
  map (fun i => random_draw (st_random_seed (pb_settings p)) (retry * PRODUCT_ARM_DOF + i)
                  (nth i (model_lower (pb_side p)) d0) (nth i (model_upper (pb_side p)) d0))
    arm_indices.

(** [always]: the search goes on after a success. *)
Fixpoint try_random (p : Problem) (nearest always : bool) (retries : list nat)
    (x : Ranking * Progress) : Ranking * Progress :=
  match retries with
  | [] => x
  | retry :: rest =>
      if pr_expired x.2 || (at_success (rk_best x.1) && negb always) then x
      else
        let '(a, g) := solve p (random_seed_at p retry) x.2 in
        try_random p nearest always rest (rank nearest p a x.1, g)
  end.

(** [std::sort] by the distance to the seed.  It leaves the order of equally
    distant candidates open; here they keep the order they had, and no theorem
    speaks of it. *)
Definition candidate_distance (p : Problem) (q : list f64) : f64 :=
  fold_left (fun distance d => f64_add distance (libm_square d)) (difference_of q (pb_seed p)) d0.

Fixpoint insert_candidate (p : Problem) (q : list f64) (l : list (list f64)) : list (list f64) :=
  match l with
  | [] => [q]
  | q' :: rest =>
      if f64_lt (candidate_distance p q) (candidate_distance p q') then q :: l
      else q' :: insert_candidate p q rest
  end.

Definition sort_candidates (p : Problem) (l : list (list f64)) : list (list f64) :=
  fold_left (fun sorted q => insert_candidate p q sorted) l [].

(** ** [ik_impl] *)

(** How the entry points differ. *)
Record Policy := {
  po_nearest : bool;
  po_fallbacks : option (list (list f64));
  po_random : bool;
  po_candidates : bool
}.

Definition check_settings (s : Settings) : outcome unit :=
  oguard ((1000000 <? st_max_iterations s) || (1000 <? st_max_retries s))
    (InvalidArgument "IK iteration or retry count is unreasonably large") ;*
  oguard (negb (f64_isfinite (st_tolerance s)) || negb (f64_isfinite (st_step_size s)) ||
          negb (f64_isfinite (st_damping s)))
    (InvalidArgument "IK options must be finite").

Definition no_progress : Progress := {| pr_reads := 1; pr_expired := false |}.

(** The attempts, in the order of the source. *)
Definition search (p : Problem) (o : Policy) : Ranking * Progress :=
  let '(first, g) := solve p (pb_seed p) no_progress in
  let x := (first_ranking p first, g) in
  let x := match po_fallbacks o with
           | Some fallbacks =>
               if negb (at_success first) || po_candidates o then try_fallbacks p fallbacks x else x
           | None => x
           end in
  let deterministic_success := at_success (rk_best x.1) in
  let global := po_random o && po_nearest o && negb (at_success first) in
  if po_random o
  then try_random p (po_nearest o) (global && negb deterministic_success)
         (seq 0 (Z.to_nat (st_max_retries (pb_settings p)))) x
  else x.

Definition result_of (a : Attempt) : ArticoreIkResult := {|
  ik_success := at_success a; ik_iterations := at_iterations a; ik_error_norm := at_error a;
  ik_q := at_q a |}.

Definition ik_impl (p : Problem) (o : Policy) : outcome (list (list f64) * ArticoreIkResult) :=
  check_settings (pb_settings p) ;*
  oguard (negb (eig_rotation (pb_target p)))
    (InvalidArgument "IK target must contain a finite proper rotation") ;*
  oguard (negb (forallb f64_isfinite (pb_seed p)))
    (InvalidArgument "initial_q contains non-finite values") ;*
  let '(r, g) := search p o in
  oguard (pr_expired g && negb (at_success (rk_best r)) && negb (po_candidates o))
    (RuntimeError "IK time budget exceeded without a converged solution") ;*
  Returned (if po_candidates o then sort_candidates p (rk_candidates r) else [], result_of (rk_best r)).

Definition problem (side : Z) (tool : list f32) (target : ArticoreRobotPose) (seed : list f64)
    (options : ArticoreIkOptions) (regularize : bool) (deadline : option Z) : Problem := {|
  pb_side := side; pb_tool := tool; pb_target := target; pb_seed := seed;
  pb_settings := settings_of options; pb_regularize := regularize; pb_deadline := deadline |}.

(** ** The entry points *)

Definition fallback_seeds (side : Z) : outcome (list (list f64)) :=
  yunyi_ptp_fallback_ik_seeds side (model_lower side) (model_upper side).

Definition model_ik_from_seed (side : Z) (tool : list f32) (target : ArticoreRobotPose)
    (seed : list f64) (options : ArticoreIkOptions) : outcome ArticoreIkResult :=
  let* x := ik_impl (problem side tool target seed options true None)
    {| po_nearest := false; po_fallbacks := None; po_random := false; po_candidates := false |} in
  Returned x.2.

(** [ik] and [ik_nearest], which no motion uses. *)
Definition model_ik (side : Z) (tool : list f32) (target : ArticoreRobotPose)
    (seed : list f64) (options : ArticoreIkOptions) : outcome ArticoreIkResult :=
  let* x := ik_impl (problem side tool target seed options false None)
    {| po_nearest := false; po_fallbacks := None; po_random := true; po_candidates := false |} in
  Returned x.2.

Definition model_ik_nearest (side : Z) (tool : list f32) (target : ArticoreRobotPose)
    (seed : list f64) (options : ArticoreIkOptions) : outcome ArticoreIkResult :=
  let* seeds := fallback_seeds side in
  let* x := ik_impl (problem side tool target seed options false None)
    {| po_nearest := true; po_fallbacks := Some seeds; po_random := true; po_candidates := false |} in
  Returned x.2.

Definition model_ik_nearest_until (side : Z) (tool : list f32) (target : ArticoreRobotPose)
    (seed : list f64) (options : ArticoreIkOptions) (deadline : Z) : outcome ArticoreIkResult :=
  let* seeds := fallback_seeds side in
  let* x := ik_impl (problem side tool target seed options false (Some deadline))
    {| po_nearest := true; po_fallbacks := Some seeds; po_random := true; po_candidates := false |} in
  Returned x.2.

(** The deadline is [budget] after the first reading of the clock. *)
Definition model_ik_endpoint_candidates_until (side : Z) (tool : list f32)
    (target : ArticoreRobotPose) (seed : list f64) (options : ArticoreIkOptions) (budget : Z) :
    outcome (list (list f64) * ArticoreIkResult) :=
  let* seeds := fallback_seeds side in
  ik_impl (problem side tool target seed options false (Some (search_clock 0 + budget)))
    {| po_nearest := true; po_fallbacks := Some seeds; po_random := true; po_candidates := true |}.

#[export] Instance yunyi_searches : InverseKinematics := {|
  ik_from_seed := model_ik_from_seed;
  ik_nearest_until := model_ik_nearest_until;
  ik_endpoint_candidates_until := model_ik_endpoint_candidates_until
|}.

End Search.
