(* ===== verification/SafetyLaws.v ===== *)
(** * What an action of the safety runtime may do

    One relation between the states before and after an action,
    [rt_step E frames], and for every operation without locks that all its
    actions move along it: the trace only grows, by calls made in the state and
    under the lock of the moment; the locks, the clock and the layout stay as
    they are; and the lifecycle flags move along [E].  Where [frames] is false
    no control frame is handed to the backend.  The operations with locks are
    in [SafetyDiscipline]. *)

From Stdlib Require Import String.
From S2P Require Import Prelude Float32 Float64 PvShaping RuntimeTypes Threads NativeTypes Trajectory SafetyState Motions Gripper Safety Feedback Disable Faults Commands Enable Lifecycle Maintenance TrajectoryCycle Completion Gravity ArmCycle SafetyWorker.
#[local] Open Scope mdl_scope.
#[local] Open Scope thread_scope.

(** ** The edges of the worker *)

Inductive state_edge : SafetyState -> SafetyState -> Prop :=
| edge_stay st : state_edge st st
| edge_first_command : state_edge Enabled Running
| edge_degrade : state_edge Running Degraded
| edge_safe_stop st : safe_stop_refused st = false -> state_edge st SafeStop
| edge_fault st : st <> Disconnected -> state_edge st Fault.

(** The latches: an emergency stop stays, a motor fault is only added, and the
    fault latch follows the state. *)
Record worker_edge (c c' : SafetyCore) : Prop := {
  we_state : state_edge (state_ c) (state_ c');
  we_mode : mode_ c' = mode_ c;
  we_stopping : stopping_ c' = stopping_ c;
  we_estop : emergency_stop_latched_ c' = emergency_stop_latched_ c;
  we_motor_fault : motor_fault_latched_ c = true -> motor_fault_latched_ c' = true;
  we_fault : fault_latched_ c' = fault_latched_ c \/
             (fault_latched_ c' = true /\ state_ c' = Fault) \/
             (fault_latched_ c' = false /\ state_ c' = SafeStop)
}.

Lemma worker_edge_refl c : worker_edge c c.
Proof. split; try done; [constructor|by left]. Qed.

(** The relations that allow the worker its edges. *)
Record Edges := {
  edges_of :> SafetyCore -> SafetyCore -> Prop;
  worker_may c c' : worker_edge c c' -> edges_of c c'
}.

Definition worker_edges : Edges := Build_Edges worker_edge (fun c c' H => H).

(** ** The motors *)

Definition motor_identity (m : MotorRecord) : handle * Z * bool * string :=
  (motor_of m, side_of m, is_gripper m, name_of m).

(** A gripper has the profile of its force level; the levels it has profiles
    for are the default alone or all eleven. *)
Definition all_levels : gset Z := list_to_set (seqZ GRIPPER_STRENGTH_MIN 11).

Definition levels_of (m : MotorRecord) : gset Z := dom (force_profiles m).

Definition leveled (m : MotorRecord) : Prop :=
  is_gripper m = true ->
  force_level m ∈ levels_of m /\
  (levels_of m = {[GRIPPER_FORCE_DEFAULT]} \/ levels_of m = all_levels).

(** What an action may do to a motor: not who it is, and a gripper does not
    lose levels. *)
Record kept (m m' : MotorRecord) : Prop := {
  kp_identity : motor_identity m' = motor_identity m;
  kp_leveled : leveled m -> leveled m';
  kp_levels : leveled m -> is_gripper m = true -> levels_of m ⊆ levels_of m'
}.

#[export] Instance kept_preorder : PreOrder kept.
Proof.
  split; [by split|]. intros m1 m2 m3 [Hi Hl Hs] [Hi' Hl' Hs']. split; [congruence|auto|].
  intros H1 Hg. etrans; [by apply Hs|]. apply Hs'; [by apply Hl|].
  unfold motor_identity in Hi. congruence.
Qed.

Lemma kept_refl l : Forall2 kept l l.
Proof. reflexivity. Qed.
#[export] Hint Resolve kept_refl : core.

Lemma kept_identity l l' : Forall2 kept l l' -> map motor_identity l' = map motor_identity l.
Proof. induction 1 as [|m m' l l' Hm _ IH]; [done|]. simpl. by rewrite IH, (kp_identity _ _ Hm). Qed.

(** All of what the relation speaks of. *)
Definition motor_core (m : MotorRecord) : (handle * Z * bool * string) * Z * gmap Z GripperForceProfile :=
  (motor_identity m, force_level m, force_profiles m).

Lemma kept_core m m' : motor_core m' = motor_core m -> kept m m'.
Proof.
  unfold motor_core. intros [= H1 H2 H3 H4 Hf Hp].
  split; unfold leveled, levels_of, motor_identity; by rewrite ?H1, ?H2, ?H3, ?H4, ?Hf, ?Hp.
Qed.

Lemma kept_update motor (f : MotorRecord -> MotorRecord) l :
  (forall m, m ∈ l -> motor_of m = motor -> kept m (f m)) -> Forall2 kept l (update_motor motor f l).
Proof.
  intros Hf. unfold update_motor. induction l as [|m l IH]; simpl; constructor.
  - case_bool_decide; [apply Hf; [left|done]|reflexivity].
  - apply IH. intros x Hx. apply Hf. by right.
Qed.

Lemma kept_map (f : MotorRecord -> MotorRecord) l :
  (forall m, kept m (f m)) -> Forall2 kept l (map f l).
Proof. intros Hf. induction l; simpl; by constructor. Qed.

Lemma kept_leveled l l' : Forall2 kept l l' -> Forall leveled l -> Forall leveled l'.
Proof.
  induction 1 as [|m m' l l' Hm _ IH]; [done|]. intros [H1 H2]%Forall_cons.
  constructor; [by apply Hm|auto].
Qed.

(** The handles are distinct and the grippers have their profiles. *)
Definition profiled (l : list MotorRecord) : Prop := Forall leveled l /\ NoDup (map motor_of l).

Lemma kept_profiled l l' : Forall2 kept l l' -> profiled l -> profiled l'.
Proof.
  intros Hk [Hl Hn]. split; [by eapply kept_leveled|].
  pose proof (f_equal (map (fun x => x.1.1.1)) (kept_identity _ _ Hk)) as He.
  rewrite !map_map in He. simpl in He. unfold motor_of in *. by rewrite He.
Qed.

(** A level for the grippers with a handle; it stays one. *)
Definition level_known (motor : handle) (level : Z) (l : list MotorRecord) : Prop :=
  forall m, m ∈ l -> motor_of m = motor -> is_gripper m = true -> level ∈ levels_of m.

Lemma level_kept motor level l l' :
  Forall2 kept l l' -> Forall leveled l -> level_known motor level l -> level_known motor level l'.
Proof.
  intros Hk Hl Hf m' [i Hi]%list_elem_of_lookup Hm Hg.
  destruct (Forall2_lookup_r _ _ _ _ _ Hk Hi) as (m & Hi0 & [Hid _ Hs]).
  unfold motor_identity in Hid. injection Hid as Hm0 _ Hg0 _.
  apply Hs; [by eapply Forall_lookup in Hl|congruence|].
  apply Hf; [by eapply list_elem_of_lookup_2|congruence..].
Qed.

(** ** One action *)

(** The frames that move a motor. *)
Definition control_frame (e : SafetyEvent) : bool :=
  match ev_call e with
  | Bk_send_pos_vel _ | Bk_send_mit _ => true
  | _ => false
  end.

Section Steps.
Context {B : Type} `{!MotorBackend B}.

Definition logged (frames : bool) (s : Safety B) (e : SafetyEvent) : Prop :=
  ev_state e = state_ (rt_core s) /\ ev_locked_by e = rt_command_lock s /\
  (frames = false -> control_frame e = false).

(** What stays: two sides, the motors in their order, a history within its
    capacity, joints that are configured, the sides in use and the age that
    feedback may have. *)
Record layout (s s' : Safety B) : Prop := {
  ly_sides : length (rt_sides s) = 2%nat -> length (rt_sides s') = 2%nat;
  ly_motors : Forall2 kept (rt_motors s) (rt_motors s');
  ly_history : (length (rt_history s) <= history_capacity)%nat ->
               (length (rt_history s') <= history_capacity)%nat;
  ly_joints : rt_joints s <> ∅ -> rt_joints s' <> ∅;
  ly_fixed : (rt_active_sides s', feedback_max_age_ns (rt_config s')) =
             (rt_active_sides s, feedback_max_age_ns (rt_config s))
}.

Record rt_step (E : Edges) (frames : bool) (s s' : Safety B) : Prop := {
  st_edge : E (rt_core s) (rt_core s');
  st_command_lock : rt_command_lock s' = rt_command_lock s;
  st_lifecycle_lock : rt_lifecycle_lock s' = rt_lifecycle_lock s;
  st_clock : rt_clock s' = rt_clock s;
  st_trace : exists l, rt_trace s' = rt_trace s ++ l /\ Forall (logged frames s) l;
  st_layout : layout s s'
}.

#[export] Instance layout_preorder : PreOrder layout.
Proof.
  split; [by split|]. intros s1 s2 s3 [] []. split; [auto|by etrans|auto..|congruence].
Qed.

End Steps.

Section Edges.
Context {B : Type} `{!MotorBackend B}.
Context (E : Edges).
Local Notation T := (rt_step E) (only parsing).

#[export] Instance rt_step_refl frames : Reflexive (rt_step (B := B) E frames).
Proof.
  intros s. split; try done.
  - apply worker_may, worker_edge_refl.
  - exists []. by rewrite app_nil_r.
Qed.

(** An action that changes none of what the relation speaks of. *)
Definition aside (s s' : Safety B) : Prop :=
  rt_core s' = rt_core s /\ rt_command_lock s' = rt_command_lock s /\
  rt_lifecycle_lock s' = rt_lifecycle_lock s /\ rt_clock s' = rt_clock s /\
  rt_trace s' = rt_trace s /\ layout s s'.

Lemma aside_step frames s s' : aside s s' -> T frames s s'.
Proof.
  intros (Hc & Hl & Hll & Hk & Ht & Hy). split; try done.
  - rewrite Hc. apply worker_may, worker_edge_refl.
  - exists []. by rewrite Ht, app_nil_r.
Qed.

(** One that changes the core besides. *)
Lemma core_step frames (s s' : Safety B) :
  worker_edge (rt_core s) (rt_core s') ->
  rt_command_lock s' = rt_command_lock s -> rt_lifecycle_lock s' = rt_lifecycle_lock s ->
  rt_clock s' = rt_clock s -> rt_trace s' = rt_trace s -> layout s s' -> T frames s s'.
Proof. intros Hc Hl Hll Hk Ht Hy. split; auto; [by apply worker_may|]. exists []. by rewrite Ht, app_nil_r. Qed.

Lemma acts_bk frames {X} (c : BackendCall X) :
  (frames = false ->
   match c with Bk_send_pos_vel _ | Bk_send_mit _ => False | _ => True end) ->
  acts (T frames) (bk (B := B) c).
Proof.
  intros Hc. apply acts_act. intros s. destruct (bk_call X c (rt_backend s)) as [x b]. simpl.
  split; try done; simpl.
  - apply worker_may, worker_edge_refl.
  - eexists. split; [done|]. constructor; [|done]. repeat split; simpl; [].
    intros Hf. specialize (Hc Hf). unfold control_frame. simpl. by destruct c.
Qed.

Lemma acts_pfold {X A} (R : Safety B -> Safety B -> Prop) (l : list X)
    (step : A -> X -> prog (Safety B) A) a :
  (forall a x, acts R (step a x)) -> acts R (pfold l step a).
Proof.
  intros Hs. revert a. induction l as [|x l IH]; intros a; simpl; [done|].
  apply acts_bind; [apply Hs|]. intros a'. apply IH.
Qed.


(** ** Leaves *)

Lemma aside_refl s : aside s s.
Proof. repeat split; done. Qed.

Lemma aside_trans s1 s2 s3 : aside s1 s2 -> aside s2 s3 -> aside s1 s3.
Proof.
  intros (?&?&?&?&?&?) (?&?&?&?&?&?). split_and!; try congruence. by etrans.
Qed.

Lemma layout_same (s s' : Safety B) :
  rt_sides s' = rt_sides s -> rt_motors s' = rt_motors s -> rt_history s' = rt_history s ->
  rt_joints s' = rt_joints s -> rt_active_sides s' = rt_active_sides s ->
  rt_config s' = rt_config s -> layout s s'.
Proof.
  intros Hs Hm Hh Hj Ha Hc. split; [congruence|by rewrite Hm|congruence|by rewrite Hj|].
  by rewrite Ha, Hc.
Qed.

Lemma motors_update motor (f : MotorRecord -> MotorRecord) l :
  (forall m, motor_core (f m) = motor_core m) -> Forall2 kept l (update_motor motor f l).
Proof. intros Hf. apply kept_update. intros m _ _. apply kept_core, Hf. Qed.

Lemma motors_map (f : MotorRecord -> MotorRecord) l :
  (forall m, motor_core (f m) = motor_core m) -> Forall2 kept l (map f l).
Proof. intros Hf. apply kept_map. intros m. apply kept_core, Hf. Qed.

Lemma archive_bound t h :
  (length h <= history_capacity -> length (archive_trajectory_locked t h) <= history_capacity)%nat.
Proof.
  intros Hh. unfold archive_trajectory_locked. case_match; [done|]. rewrite length_drop, length_app.
  simpl. lia.
Qed.

Lemma archive_all_bound l h :
  (length h <= history_capacity -> length (archive_all l h) <= history_capacity)%nat.
Proof.
  unfold archive_all. revert h. induction l as [|t l IH]; intros h Hh; simpl; [done|].
  by apply IH, archive_bound.
Qed.

Lemma update_side_length side f l : length (update_side side f l) = length l.
Proof. apply length_alter. Qed.

Lemma aside_terminate state error s : aside s (terminate_trajectory_locked state error s).
Proof.
  unfold terminate_trajectory_locked. case_match; (split_and!; [done..|]); split; try done; simpl;
    apply archive_all_bound.
Qed.

End Edges.

(** ** Programs *)

Create HintDb aside discriminated.
#[export] Hint Resolve motors_update motors_map archive_all_bound aside_terminate : aside.

(** Directly: every component of the state after is the one before, or the
    hints know its layout. *)
Ltac aside_now :=
  split_and!; try reflexivity; split; simpl; rewrite ?length_map, ?update_side_length;
  auto with aside.

Ltac aside_tac :=
  solve [eauto 2 with aside
        | aside_now
        | repeat case_match; aside_now
        | eapply aside_trans; [solve [eauto 2 with aside]|]; aside_now].

Ltac rt_leaf :=
  first [apply acts_write | apply acts_act | apply acts_await]; intros; apply aside_step; cbv zeta;
  cbn [snd]; aside_tac.

Ltac rt_step :=
  match goal with
  | |- forall _, _ => intro
  | |- acts _ (match ?x with _ => _ end) => destruct x
  | |- acts _ (bk _) => apply acts_bk; intros; done
  | |- acts _ (write _) => rt_leaf
  | |- acts _ (act _) => rt_leaf
  | |- acts _ (await _ _) => rt_leaf
  | |- acts _ (pfold _ _ _) => apply acts_pfold
  | |- acts _ _ => first [solve [eauto 2 with acts] |
      apply acts_bind | apply acts_catch | apply acts_pwhen | apply acts_pfor | apply acts_par]
  end.
Ltac rt_tac := repeat rt_step.

Section Quiet.
Context {B : Type} `{!MotorBackend B} (E : Edges).
Context (fr : bool).
Local Notation quiet p := (acts (rt_step E fr) p).

Lemma acts_clock_now : quiet (clock_now (B := B)). Proof. rt_tac. Qed.
Lemma acts_sleep n : quiet (sleep_ms (B := B) n). Proof. unfold sleep_ms. rt_tac. Qed.
Lemma acts_motor_error e : quiet (motor_error (B := B) e). Proof. unfold motor_error. rt_tac. Qed.
Lemma acts_fetch_stats m : quiet (fetch_stats (B := B) m). Proof. unfold fetch_stats. rt_tac. Qed.
Lemma acts_fetch_state m : quiet (fetch_state (B := B) m). Proof. unfold fetch_state. rt_tac. Qed.
Hint Resolve acts_clock_now acts_sleep acts_motor_error acts_fetch_stats acts_fetch_state : acts.

Lemma acts_fetch_fresh age m : quiet (fetch_fresh (B := B) age m).
Proof. unfold fetch_fresh. rt_tac. Qed.

Lemma acts_run_sides {A} sides (job : Z -> Rt (B := B) A) :
  (forall side, quiet (job side)) -> quiet (run_active_sides sides job).
Proof. intros Hj. unfold run_active_sides, job_result. rt_tac; auto with acts. Qed.

Lemma acts_change_motor h (f : MotorRecord -> MotorRecord) :
  (forall m, motor_core (f m) = motor_core m) -> quiet (change_motor (B := B) h f).
Proof. intros Hf. unfold change_motor. rt_tac. Qed.

Lemma acts_current_motor m : quiet (current_motor (B := B) m).
Proof. unfold current_motor. rt_tac. Qed.
Lemma acts_except {A} (x : exn + A) : quiet (except (B := B) x).
Proof. unfold except. rt_tac. Qed.
Lemma acts_rethrow o : quiet (rethrow (B := B) o). Proof. unfold rethrow. rt_tac. Qed.
Lemma acts_mark_faulted m : quiet (mark_motor_faulted (B := B) m).
Proof. unfold mark_motor_faulted. rt_tac. Qed.
Hint Resolve acts_fetch_fresh acts_run_sides acts_current_motor acts_except acts_rethrow
  acts_mark_faulted : acts.

Lemma acts_fault_trajectory e : quiet (fault_trajectory (B := B) e).
Proof. unfold fault_trajectory. rt_tac. Qed.
Hint Resolve acts_fault_trajectory : acts.
Hint Extern 2 (acts _ (change_motor _ _)) =>
  apply acts_change_motor; intros; simpl; repeat case_match; reflexivity : acts.
Hint Extern 2 (acts _ (store_motor _ _)) => apply acts_change_motor; reflexivity : acts.

(** *** Grippers *)

Lemma acts_prepare_gripper now scale disabled acc m :
  quiet (prepare_gripper (B := B) now scale disabled acc m).
Proof. unfold prepare_gripper. rt_tac. Qed.
Hint Resolve acts_prepare_gripper : acts.

Lemma acts_prepare_grippers now : quiet (prepare_gripper_commands_locked (B := B) now).
Proof. unfold prepare_gripper_commands_locked. rt_tac. Qed.

Lemma acts_hold_gripper now disabled l c : quiet (hold_gripper (B := B) now disabled l c).
Proof. unfold hold_gripper. rt_tac. Qed.

Lemma acts_seed_gripper activate l m : quiet (seed_gripper (B := B) activate l m).
Proof. unfold seed_gripper. rt_tac. Qed.

(** *** Health *)

Lemma acts_motor_fault : quiet (current_motor_fault_reported (B := B)).
Proof.
  unfold current_motor_fault_reported. apply acts_bind; [rt_tac|]. intros motors.
  induction motors as [|m l IH]; cbn [any_motor_fault]; rt_tac.
Qed.

Lemma acts_plan_arm mode connected p m : quiet (plan_arm_motor (B := B) mode connected p m).
Proof. unfold plan_arm_motor. rt_tac. Qed.

Lemma acts_plan_gripper connected p c : quiet (plan_gripper (B := B) connected p c).
Proof. unfold plan_gripper. rt_tac. Qed.
Hint Resolve acts_prepare_grippers acts_hold_gripper acts_seed_gripper acts_motor_fault
  acts_plan_arm acts_plan_gripper : acts.

Lemma core_aside (s1 s2 s3 : Safety B) : aside s1 s2 ->
  worker_edge (rt_core s2) (rt_core s3) -> rt_command_lock s3 = rt_command_lock s2 ->
  rt_lifecycle_lock s3 = rt_lifecycle_lock s2 -> rt_clock s3 = rt_clock s2 ->
  rt_trace s3 = rt_trace s2 -> layout s2 s3 -> rt_step E fr s1 s3.
Proof.
  intros Ha ? ? ? ? ? Hy'. unfold aside in Ha. destruct Ha as (Hc & Hl & Hll & Hk & Ht & Hy).
  apply core_step; try congruence. by etrans.
Qed.

Lemma acts_commit l now : quiet (commit_gripper_commands_sent (B := B) l now).
Proof.
  unfold commit_gripper_commands_sent. destruct l as [|c l]; [done|]. apply acts_write. intros s.
  unfold commit_gripper. case_match; [|apply aside_step; aside_tac].
  apply core_step; try reflexivity; [|split; done]. simpl.
  case_bool_decide as Hs; split; simpl in *; auto using edge_stay. rewrite Hs. constructor.
Qed.

(** *** Feedback *)

Lemma side_fold_length {A} (l : list A) (step : list SideHealth -> A -> list SideHealth) sides :
  (forall sides x, length (step sides x) = length sides) ->
  length (fold_left step l sides) = length sides.
Proof.
  intros Hs. revert sides. induction l as [|x l IH]; intros sides; simpl; [done|].
  by rewrite IH, Hs.
Qed.

Lemma aside_sides (s : Safety B) (f : list SideHealth -> list SideHealth) :
  (forall l, length (f l) = length l) -> aside s (s <| rt_sides ::= f |>).
Proof. intros Hf. split_and!; try reflexivity. split; simpl; rewrite ?Hf; auto. Qed.

Lemma aside_presence motors (s : Safety B) : aside s (presence_faulted motors s).
Proof. aside_now. Qed.

Lemma aside_record_transport side answer message acc (s : Safety B) :
  aside s (record_transport (B := B) side answer message acc s).2.
Proof.
  unfold record_transport; cbv zeta. cbn [snd]. destruct answer as [health|].
  - case_match; [apply aside_sides; intros; apply update_side_length|].
    eapply aside_trans; [apply aside_sides|apply aside_presence].
    intros. apply update_side_length.
  - apply aside_sides. intros. apply update_side_length.
Qed.

Lemma acts_refresh_transport e : quiet (refresh_transport_health (B := B) e).
Proof.
  unfold refresh_transport_health, refresh_transport_side. rt_tac.
  apply acts_act. intros s. apply aside_step, aside_record_transport.
Qed.

Lemma acts_collect_health : quiet (collect_motor_feedback_health (B := B)).
Proof. unfold collect_motor_feedback_health, collect_motor. rt_tac. Qed.


(** Only flags of the core that the edges do not speak of change. *)
Definition same_flags (c c' : SafetyCore) : Prop :=
  state_ c' = state_ c /\ mode_ c' = mode_ c /\ stopping_ c' = stopping_ c /\
  fault_latched_ c' = fault_latched_ c /\ motor_fault_latched_ c' = motor_fault_latched_ c /\
  emergency_stop_latched_ c' = emergency_stop_latched_ c.

Lemma same_flags_edge c c' : same_flags c c' -> worker_edge c c'.
Proof.
  intros (Hs & Hm & Ht & Hf & Hmf & He). split; try congruence; [|by left].
  rewrite Hs. constructor.
Qed.

Lemma aside_core_step (s1 s2 : Safety B) (f : SafetyCore -> SafetyCore) :
  aside s1 s2 -> worker_edge (rt_core s2) (f (rt_core s2)) ->
  rt_step E fr s1 (s2 <| rt_core ::= f |>).
Proof. intros Ha He. by eapply core_aside. Qed.

Definition store_feedback_sides (recovery_check : bool) (maximum_age : Z)
    (items : list ArticoreMotorFeedbackHealth) (active : list bool) (sides : list SideHealth) :=
  fold_left (fun l side => store_side recovery_check maximum_age items active side l)
    both_sides sides.

Lemma store_side_length rc age items active side sides :
  length (store_side rc age items active side sides) = length sides.
Proof. unfold store_side. case_match; [done|]. apply update_side_length. Qed.

Lemma rt_step_store_feedback rc ok now age items unconfirmed s :
  rt_step E fr s (store_feedback (B := B) rc ok now age items unconfirmed s).2.
Proof.
  assert (Hl : layout s (store_feedback rc ok now age items unconfirmed s).2).
  { unfold store_feedback. cbv zeta. repeat case_match; split; cbn; auto;
      unfold both_sides; cbn [fold_left]; rewrite ?store_side_length; auto. }
  unfold store_feedback in *. cbv zeta in *.
  repeat case_match; cbn [snd] in *; apply core_step; try reflexivity; try exact Hl; try
    (apply same_flags_edge; split_and!; reflexivity);
    (split; simpl; [constructor|done..|by left]).
Qed.

Lemma acts_refresh_feedback rc held e :
  quiet (refresh_feedback_health (B := B) rc held e).
Proof.
  pose proof acts_refresh_transport. pose proof acts_collect_health.
  unfold refresh_feedback_health. rt_tac. apply acts_act. intros s. apply rt_step_store_feedback.
Qed.

Lemma acts_request_side timeout side : quiet (request_side (B := B) timeout side).
Proof. unfold request_side. rt_tac. Qed.

Lemma acts_merge_side acc x : quiet (merge_side (B := B) acc x).
Proof. unfold merge_side, side_can_id. rt_tac. Qed.
Hint Resolve acts_request_side acts_merge_side acts_refresh_transport acts_refresh_feedback
  acts_collect_health : acts.

Lemma acts_request_feedback timeout e : quiet (request_feedback_parallel (B := B) timeout e).
Proof. unfold request_feedback_parallel. rt_tac. Qed.

Lemma acts_snapshot_motor missing l m : quiet (snapshot_motor (B := B) missing l m).
Proof. unfold snapshot_motor. rt_tac. Qed.
Hint Resolve acts_request_feedback acts_snapshot_motor : acts.

Lemma store_snapshot_length active l e sides side :
  length (store_snapshot_side active l e sides side) = length sides.
Proof. unfold store_snapshot_side. case_match; [done|]. apply update_side_length. Qed.

Lemma acts_store_snapshot now l e : quiet (write (store_snapshot (B := B) now l e)).
Proof.
  apply acts_write. intros s. apply aside_step. unfold store_snapshot. cbv zeta.
  case_match; (split_and!; try reflexivity; split; cbn; auto; unfold both_sides; cbn [fold_left];
    rewrite ?store_snapshot_length; auto).
Qed.
Hint Resolve acts_store_snapshot : acts.

Lemma acts_fresh_snapshot missing : quiet (fresh_feedback_snapshot (B := B) missing).
Proof. unfold fresh_feedback_snapshot. rt_tac. Qed.
Hint Resolve acts_fresh_snapshot : acts.

Lemma acts_validate missing e : quiet (validate_fresh_feedback_snapshot (B := B) missing e).
Proof. unfold validate_fresh_feedback_snapshot. rt_tac. Qed.
Hint Resolve acts_validate : acts.

(** *** Holds *)

Lemma acts_install_hold mode p : quiet (act (install_hold (B := B) mode p)).
Proof.
  apply acts_act. intros s. apply core_step; try reflexivity; [|split; done].
  by apply same_flags_edge.
Qed.
Hint Resolve acts_install_hold : acts.

End Quiet.

#[export] Hint Resolve acts_clock_now acts_sleep acts_motor_error acts_fetch_stats acts_fetch_state acts_fetch_fresh acts_current_motor acts_except acts_rethrow acts_mark_faulted acts_fault_trajectory acts_prepare_gripper acts_prepare_grippers acts_hold_gripper acts_seed_gripper acts_motor_fault acts_plan_arm acts_plan_gripper acts_commit acts_refresh_transport acts_collect_health acts_refresh_feedback acts_request_side acts_merge_side acts_request_feedback acts_snapshot_motor acts_store_snapshot acts_fresh_snapshot acts_validate acts_install_hold : acts.
#[export] Hint Resolve acts_run_sides : acts.
#[export] Hint Extern 2 (acts _ (change_motor _ _)) =>
  apply acts_change_motor; intros; simpl; repeat case_match; reflexivity : acts.
#[export] Hint Extern 2 (acts _ (store_motor _ _)) => apply acts_change_motor; reflexivity : acts.

(** The named combinators join the steps. *)
Ltac rt_step ::=
  match goal with
  | |- forall _, _ => intro
  | |- acts _ (match ?x with _ => _ end) => destruct x
  | |- acts _ (bk _) => apply acts_bk; intros; done
  | |- acts _ (write _) => first [solve [eauto 2 with acts] | rt_leaf]
  | |- acts _ (act _) => first [solve [eauto 2 with acts] | rt_leaf]
  | |- acts _ (await _ _) => rt_leaf
  | |- acts _ (pfold _ _ _) => apply acts_pfold
  | |- acts _ (run_active_sides _ _) => apply acts_run_sides
  | |- acts _ _ => first [solve [eauto 2 with acts] |
      apply acts_bind | apply acts_catch | apply acts_pwhen | apply acts_pfor | apply acts_par]
  end.
