(* ===== verification/SafetyActions.v ===== *)
(** * The lock-free operations move along the worker's edges

    [SafetyLaws] for the larger operations: disabling, the transitions to a
    stop or a fault, commands, trajectories, gravity compensation and the arm
    control cycle, each without the mutexes around it.  Those that send control
    frames do so under the hypothesis that frames may be sent. *)

From Stdlib Require Import String.
From S2P Require Import Prelude Float32 Float64 PvShaping RuntimeTypes Threads NativeTypes Trajectory SafetyState Motions Gripper Safety Feedback Disable Faults Commands Enable Lifecycle Maintenance TrajectoryCycle Completion Gravity ArmCycle SafetyWorker SafetyLaws.
#[local] Open Scope mdl_scope.
#[local] Open Scope thread_scope.

Ltac framed_now := split_and!; try reflexivity; split; try done.

Section Actions.
Context {B : Type} `{!MotorBackend B} (E : Edges).
Context (fr : bool).
Local Notation quiet p := (acts (rt_step E fr) p).

(** ** Disabling *)

Lemma acts_disable_one side r m : quiet (disable_one (B := B) side r m).
Proof. unfold disable_one. rt_tac. Qed.

Lemma aside_side_error (s : Safety B) side detail failure :
  aside s (s <| rt_sides ::= set_side_error_locked side detail failure |>).
Proof. apply aside_sides. intros. apply update_side_length. Qed.

Lemma acts_report_side side acc detail : quiet (report_side (B := B) side acc detail).
Proof.
  unfold report_side. rt_tac. apply acts_write. intros s. apply aside_step, aside_side_error.
Qed.
Hint Resolve acts_disable_one acts_report_side : acts.

Lemma acts_send_disable targets e : quiet (send_disable_parallel (B := B) targets e).
Proof. unfold send_disable_parallel, gather_side. rt_tac. Qed.

Lemma acts_check_target complete missing l m : quiet (check_target (B := B) complete missing l m).
Proof. unfold check_target. rt_tac. Qed.
Hint Resolve acts_check_target : acts.

Lemma acts_confirm_rounds fuel targets deadline e :
  quiet (confirm_rounds (B := B) fuel targets deadline e).
Proof.
  revert e. induction fuel as [|fuel IH]; intros e; cbn [confirm_rounds]; [done|].
  unfold collect_unconfirmed. rt_tac.
Qed.
Hint Resolve acts_send_disable acts_confirm_rounds : acts.

Lemma acts_confirm_disabled targets e : quiet (confirm_disabled (B := B) targets e).
Proof. unfold confirm_disabled, confirm_until_deadline, name_unconfirmed. rt_tac. Qed.

Lemma acts_disable_report ok barrier missing sent retried attempted preserve e :
  quiet (update_disable_report (B := B) ok barrier missing sent retried attempted preserve e).
Proof. unfold update_disable_report, report_one. rt_tac. Qed.

Lemma acts_settle_gripper m : quiet (settle_gripper (B := B) m).
Proof. unfold settle_gripper. rt_tac. Qed.
Hint Resolve acts_settle_gripper : acts.

Lemma acts_each {X} (l : list X) (body : X -> Rt (B := B) unit) :
  (forall x, quiet (body x)) -> quiet (each l body).
Proof. intros Hb. induction l as [|x l IH]; cbn [each]; [done|]. by apply acts_bind. Qed.

Lemma acts_barrier_attempt acc n : quiet (barrier_attempt (B := B) acc n).
Proof. unfold barrier_attempt. rt_tac. Qed.

(** ** Degradation, safe stop, fault *)

(** Everything but the core, and the motion ended. *)
Definition framed (s s' : Safety B) : Prop :=
  rt_command_lock s' = rt_command_lock s /\ rt_lifecycle_lock s' = rt_lifecycle_lock s /\
  rt_clock s' = rt_clock s /\ rt_trace s' = rt_trace s /\ layout s s'.

Lemma framed_step s s' :
  framed s s' -> worker_edge (rt_core s) (rt_core s') -> rt_step E fr s s'.
Proof. intros (Hl & Hll & Hk & Ht & Hy) He. by apply core_step. Qed.

Lemma framed_trans s1 s2 s3 : framed s1 s2 -> framed s2 s3 -> framed s1 s3.
Proof.
  intros (? & ? & ? & ? & ?) (? & ? & ? & ? & ?). split_and!; try congruence. by etrans.
Qed.

Lemma framed_terminate state error (s s0 : Safety B) :
  framed s s0 -> framed s (terminate_trajectory_locked state error s0).
Proof.
  intros (Hl & Hll & Hk & Ht & Hy). destruct (aside_terminate state error s0)
    as (_ & Gl & Gll & Gk & Gt & Gy).
  split_and!; try congruence. by etrans.
Qed.

Lemma core_terminate state error (s : Safety B) :
  rt_core (terminate_trajectory_locked state error s) = rt_core s.
Proof. apply aside_terminate. Qed.

Lemma acts_degrade reason : quiet (enter_degraded (B := B) reason).
Proof.
  apply acts_write. intros s. unfold degrade. case_bool_decide as Hs; [|apply aside_step; aside_tac].
  apply core_step; try reflexivity; [|split; done].
  split; simpl; try done; [rewrite Hs; constructor|by left].
Qed.

Lemma rt_step_safe_stop reason now s : rt_step E fr s (safe_stop (B := B) reason now s).2.
Proof.
  unfold safe_stop. destruct (safe_stop_refused (state_ (rt_core s))) eqn:Hr; [reflexivity|].
  cbv zeta. cbn [snd]. apply framed_step.
  - eapply framed_trans; [apply framed_terminate with
      (s0 := s <| rt_core ::= fun c => c <| state_ := SafeStop |> |>); framed_now|framed_now].
  - unfold release_control, clear_mailboxes. cbn. rewrite core_terminate.
    split; simpl; try done; [by constructor|]. by right; right.
Qed.

Lemma rt_step_fault reason off hold motor_fault arm e now s :
  rt_step E fr s (fault (B := B) reason off hold motor_fault arm e now s).2.
Proof.
  unfold fault. case_bool_decide as Hd; [reflexivity|]. cbv zeta. cbn [snd]. apply framed_step.
  - eapply framed_trans; [apply framed_terminate with
      (s0 := s <| rt_core ::= fun c => c <| state_ := Fault |> |>); framed_now|].
    destruct hold; split_and!; try reflexivity; split; simpl; try done; apply motors_map;
      intros m; unfold fault_gripper; by repeat case_match.
  - unfold release_control, clear_mailboxes. destruct hold; cbn; rewrite core_terminate;
      (split; simpl; [by constructor|done|done|done| |by right; left]);
      intros ->; done.
Qed.

Lemma acts_capture_motor mode acc m : quiet (capture_motor (B := B) mode acc m).
Proof. unfold capture_motor. rt_tac. Qed.

(** A change of flags the edges do not speak of. *)
Lemma acts_flags (f : SafetyCore -> SafetyCore) :
  (forall c, same_flags c (f c)) -> quiet (write (fun s : Safety B => s <| rt_core ::= f |>)).
Proof.
  intros Hf. apply acts_write. intros s. apply core_step; try reflexivity; [|split; done].
  apply same_flags_edge, Hf.
Qed.

(** ** Commands *)

Lemma acts_guarded {A} check (f : Safety B -> A * Safety B) :
  (forall s, check s = None -> rt_step E fr s (f s).2) -> quiet (guarded check f).
Proof.
  intros Hf. unfold guarded. apply acts_bind; [|intros; apply acts_except].
  apply acts_act. intros s. destruct (check s) eqn:Hc; [reflexivity|].
  specialize (Hf s Hc). by destruct (f s).
Qed.

Lemma acts_next_generation : quiet (next_arm_generation (B := B)).
Proof. unfold next_arm_generation. rt_tac. Qed.

Lemma acts_rejected o : quiet (rejected (B := B) o). Proof. unfold rejected. rt_tac. Qed.
Hint Resolve acts_next_generation acts_rejected : acts.

Lemma acts_init_motor mode required mb m : quiet (init_motor (B := B) mode required mb m).
Proof. unfold init_motor. rt_tac. Qed.
Hint Resolve acts_init_motor : acts.

Lemma acts_init_mailbox mode required :
  quiet (initialize_arm_mailbox_from_feedback (B := B) mode required).
Proof. unfold initialize_arm_mailbox_from_feedback. rt_tac. Qed.

Lemma acts_torque_feedback acc c : quiet (torque_feedback (B := B) acc c).
Proof. unfold torque_feedback. rt_tac. Qed.
Hint Resolve acts_torque_feedback : acts.

Lemma acts_torque_limited requested scale :
  quiet (prepare_mit_torque_limited_commands (B := B) requested scale).
Proof. unfold prepare_mit_torque_limited_commands. rt_tac. Qed.

Lemma aside_keep_gripper acc c (s : Safety B) : aside s (keep_gripper_command acc c s).2.
Proof.
  unfold keep_gripper_command. repeat case_match; simpl; try apply aside_refl.
  split_and!; try reflexivity. split; simpl; auto. by apply motors_update.
Qed.

Lemma acts_keep_grippers l : quiet (act (keep_gripper_commands (B := B) l)).
Proof.
  apply acts_act. intros s. apply aside_step. unfold keep_gripper_commands.
  generalize (None : option exn) as acc. revert s. induction l as [|c l IH]; intros s acc;
    [apply aside_refl|].
  cbn [fold_left]. pose proof (aside_keep_gripper acc c s) as Hc. revert Hc.
  cbn [fst snd]. destruct (keep_gripper_command acc c s) as [acc' s']. simpl. intros Hc.
  eapply aside_trans; [exact Hc|apply IH].
Qed.

Lemma target_gripper_same mode v m :
  motor_identity (target_gripper mode v m) = motor_identity m /\
  force_level (target_gripper mode v m) = vg_force_level v /\
  force_profiles (target_gripper mode v m) = force_profiles m.
Proof. unfold target_gripper. cbv zeta. by repeat case_match. Qed.

Lemma kept_target mode v m :
  (is_gripper m = true -> vg_force_level v ∈ levels_of m) -> kept m (target_gripper mode v m).
Proof.
  destruct (target_gripper_same mode v m) as (Hi & Hl & Hp). intros Hv.
  split; [done|unfold leveled, levels_of in *|unfold levels_of; by rewrite Hp].
  rewrite Hl, Hp. unfold motor_identity in Hi. injection Hi as _ _ -> _.
  intros Hm Hg. split; [by apply Hv|by apply Hm].
Qed.

Lemma kept_targets mode (l : list ValidatedGripper) motors :
  Forall leveled motors ->
  Forall (fun v => level_known (vg_motor v) (vg_force_level v) motors) l ->
  Forall2 kept motors
    (fold_left (fun a v => update_motor (vg_motor v) (target_gripper mode v) a) l motors).
Proof.
  revert motors. induction l as [|v l IH]; intros motors Hm Hl; [done|].
  apply Forall_cons in Hl as [Hv Hl]. cbn [fold_left].
  assert (Hk : Forall2 kept motors (update_motor (vg_motor v) (target_gripper mode v) motors)).
  { apply kept_update. intros m Hin He. apply kept_target. by apply Hv. }
  etrans; [exact Hk|]. apply IH; [by eapply kept_leveled|].
  eapply Forall_impl; [exact Hl|]. intros x. by apply level_kept.
Qed.

Lemma aside_store_targets mode l now (s : Safety B) :
  Forall leveled (rt_motors s) ->
  Forall (fun v => level_known (vg_motor v) (vg_force_level v) (rt_motors s)) l ->
  aside s (store_targets mode l now s).
Proof.
  intros Hm Hl. split_and!; try reflexivity. split; [done|by apply kept_targets|done..].
Qed.

Lemma acts_command_allowed gravity : quiet (command_allowed (B := B) gravity).
Proof. apply acts_guarded. intros. reflexivity. Qed.

Lemma acts_consume : quiet (write (consume_pending (B := B))).
Proof.
  apply acts_write. intros s. apply aside_step. unfold consume_pending.
  case_match; [aside_now|apply aside_refl].
Qed.

Lemma acts_submit_pv l lifetime : quiet (submit_pos_vel_ex (B := B) l lifetime).
Proof.
  unfold submit_pos_vel_ex. rt_tac.
Qed.

Lemma acts_submit_mit l lifetime : quiet (submit_mit_ex (B := B) l lifetime).
Proof.
  unfold submit_mit_ex. rt_tac.
Qed.

Lemma acts_begin_planning allow : quiet (begin_command_planning (B := B) allow).
Proof.
  unfold begin_command_planning. apply acts_guarded. intros s _. unfold take_token. cbv zeta.
  case_match. simpl. apply core_step; try reflexivity; [|split; done]. by apply same_flags_edge.
Qed.

Lemma acts_cancel_planning token : quiet (cancel_command_planning (B := B) token).
Proof.
  unfold cancel_command_planning. rt_tac. apply acts_write. intros s. case_match; [|reflexivity].
  apply core_step; try reflexivity; [|split; done]. by apply same_flags_edge.
Qed.

Lemma collect_joints_some velocity motors configured l joints :
  collect_joints velocity motors configured l = inr joints ->
  l <> [] \/ configured <> ∅ -> joints <> ∅.
Proof.
  revert configured. induction l as [|v l IH]; intros configured; cbn [collect_joints].
  { by intros [= <-] [?|?]. }
  case_match; [done|]. case_match; [done|]. intros Hl _. apply (IH _ Hl). right.
  apply insert_non_empty.
Qed.

Lemma acts_configure_joints l : quiet (configure_joints (B := B) l).
Proof.
  unfold configure_joints. destruct l as [|v l]; [rt_tac|]. apply acts_bind; [rt_tac|]. intros p.
  case_match; [rt_tac|]. unfold except. destruct (collect_joints _ _ _ _) as [e|joints] eqn:Hj; [done|].
  apply acts_guarded. intros s _. apply aside_step. split_and!; try reflexivity. split; try done.
  intros _. apply (collect_joints_some _ _ _ _ _ Hj). by left.
Qed.

Lemma apply_limits_some joints seen l joints' :
  apply_limits joints seen l = inr joints' -> joints <> ∅ -> joints' <> ∅.
Proof.
  revert joints seen. induction l as [|v l IH]; intros joints seen; cbn [apply_limits].
  { by intros [= <-]. }
  case_match; [done|]. intros Hl Hj. apply (IH _ _ Hl). intros He. apply Hj.
  apply map_empty. intros k. rewrite map_empty in He. specialize (He k).
  apply lookup_alter_None in He. done.
Qed.

Lemma acts_configure_limits l : quiet (configure_joint_safety_limits (B := B) l).
Proof.
  unfold configure_joint_safety_limits. rt_tac. apply acts_act. intros s. apply aside_step.
  unfold store_limits. repeat case_match; simpl; try apply aside_refl.
  split_and!; try reflexivity. split; try done. by eapply apply_limits_some.
Qed.

End Actions.

#[export] Hint Resolve acts_disable_one acts_report_side acts_send_disable acts_check_target
  acts_confirm_rounds acts_confirm_disabled acts_disable_report acts_settle_gripper acts_each
  acts_barrier_attempt : acts.

#[export] Hint Resolve acts_degrade acts_capture_motor acts_next_generation acts_rejected
  acts_init_motor acts_init_mailbox acts_torque_feedback acts_torque_limited acts_keep_grippers
  acts_command_allowed acts_consume acts_submit_pv acts_submit_mit acts_begin_planning acts_cancel_planning
  acts_configure_joints acts_configure_limits : acts.

(** ** The control cycle *)

Section Cycle.
Context {B : Type} `{!MotorBackend B} `{!ArmDynamics} (E : Edges).
Context (fr : bool).
Local Notation quiet p := (acts (rt_step E fr) p).

Lemma aside_running_cycle now (s : Safety B) : aside s (running_cycle now s).2.
Proof.
  unfold running_cycle. cbv zeta. destruct (pace _ _ _) as [failure t].
  destruct failure; [aside_now|]. repeat case_match; aside_now.
Qed.

Lemma acts_prepare_trajectory now : quiet (act (prepare_trajectory_cycle (B := B) now)).
Proof.
  apply acts_act. intros s. apply aside_step. unfold prepare_trajectory_cycle.
  repeat case_match; simpl; auto using aside_refl, aside_running_cycle.
Qed.

Lemma archive_history (s : Safety B) t :
  (length (rt_history s) <= history_capacity ->
   length (archive_trajectory_locked t (rt_history s)) <= history_capacity)%nat.
Proof. apply archive_bound. Qed.
Hint Resolve archive_history : aside.

Lemma aside_begin_completion now (s : Safety B) : aside s (begin_completion now s).2.
Proof.
  unfold begin_completion, hand_over, start_next. cbv zeta.
  repeat case_match; simpl; try apply aside_refl; aside_now.
Qed.

Lemma acts_begin_completion now : quiet (act (begin_completion (B := B) now)).
Proof. apply acts_act. intros s. apply aside_step, aside_begin_completion. Qed.

Lemma acts_survey p : quiet (survey (B := B) p).
Proof. unfold survey, survey_step, fetch_arrival. rt_tac. Qed.

Lemma aside_monitor now p v (s : Safety B) : aside s (monitor_hold now p v s).
Proof. unfold monitor_hold, relapse. cbv zeta. repeat case_match; try apply aside_refl; aside_now. Qed.

Lemma aside_finish_motion now mode v (s : Safety B) : aside s (finish_motion now mode v s).
Proof. unfold finish_motion, start_next. cbv zeta. case_match; aside_now. Qed.

Lemma aside_end_overdue now p v wide (s : Safety B) : aside s (end_overdue now p v wide s).
Proof.
  unfold end_overdue. cbv zeta. case_match; [|apply aside_refl].
  eapply aside_trans; [apply aside_terminate|]. aside_now.
Qed.

Lemma aside_judge now p v (s : Safety B) : aside s (judge_completion now p v s).
Proof.
  unfold judge_completion. cbv zeta. case_match; [apply aside_refl|].
  set (s1 := s <| rt_trajectory ::= _ |>). assert (Ha : aside s s1) by (subst s1; aside_now).
  clearbody s1. case_match; [eapply aside_trans; [exact Ha|apply aside_monitor]|].
  destruct (if sv_active v then _ else _) as [[completed wide] t].
  assert (Hb : aside s (s1 <| rt_trajectory := t |>)).
  { eapply aside_trans; [exact Ha|]. aside_now. }
  eapply aside_trans; [exact Hb|]. repeat case_match.
  - aside_now.
  - apply aside_finish_motion.
  - apply aside_end_overdue.
Qed.

Lemma acts_completion now : quiet (update_trajectory_completion (B := B) now).
Proof.
  pose proof acts_begin_completion. pose proof acts_survey.
  unfold update_trajectory_completion. rt_tac. apply acts_write. intros s.
  apply aside_step, aside_judge.
Qed.

End Cycle.

#[export] Hint Resolve acts_prepare_trajectory acts_completion : acts.

Section Sends.
Context {B : Type} `{!MotorBackend B} `{!ArmDynamics} (E : Edges).
Local Notation quiet p := (forall fr, acts (rt_step E fr) p).
Local Notation sends p := (acts (rt_step E true) p).

Lemma acts_send_pv l : sends (send_pos_vel (B := B) l).
Proof. by apply acts_bk. Qed.
Lemma acts_send_mit l : sends (send_mit (B := B) l).
Proof. by apply acts_bk. Qed.
Hint Resolve acts_send_pv acts_send_mit : acts.

(** *** Holds *)

Lemma acts_send_side_mit l message acc side : sends (send_side_mit (B := B) l message acc side).
Proof. unfold send_side_mit. rt_tac. Qed.
Lemma acts_send_side_pv l message acc side : sends (send_side_pv (B := B) l message acc side).
Proof. unfold send_side_pv. rt_tac. Qed.
Hint Resolve acts_send_side_mit acts_send_side_pv : acts.

Lemma acts_arm_hold mode st had_pv had_mit pv mit :
  sends (send_arm_hold (B := B) mode st had_pv had_mit pv mit).
Proof. unfold send_arm_hold. rt_tac. Qed.

(** *** The disable barrier *)

Lemma acts_barrier : sends (establish_disable_barrier (B := B)).
Proof. unfold establish_disable_barrier. rt_tac. Qed.
Hint Resolve acts_barrier : acts.

Lemma acts_disable_locked feedback preserve e :
  sends (disable_locked (B := B) feedback preserve e).
Proof. unfold disable_locked. rt_tac. Qed.

(** *** Gravity compensation *)

Lemma acts_role_at m : quiet (role_at (B := B) m).
Proof. intros fr. unfold role_at. rt_tac. Qed.
Hint Resolve acts_role_at : acts.

Lemma acts_gravity_joint arm scale hold states gravity acc joint :
  quiet (gravity_joint (B := B) arm scale hold states gravity acc joint).
Proof. intros fr. unfold gravity_joint. rt_tac. Qed.
Hint Resolve acts_gravity_joint : acts.

Lemma acts_gravity_arm scale hold acc arm : quiet (gravity_arm (B := B) scale hold acc arm).
Proof. intros fr. unfold gravity_arm, read_arm, read_joint. rt_tac. Qed.
Hint Resolve acts_gravity_arm : acts.

Lemma aside_record_gravity phase progress requested applied stats (s : Safety B) :
  aside s (record_gravity phase progress requested applied stats s).
Proof. unfold record_gravity, gravity_phase_done. cbv zeta. repeat case_match; aside_now. Qed.

Lemma acts_gravity_cycle now include : sends (run_gravity_control_cycle (B := B) now include).
Proof.
  unfold run_gravity_control_cycle, gravity_grippers, send_gravity. rt_tac;
    apply acts_write; intros; apply aside_step, aside_record_gravity.
Qed.

(** *** The arm cycle *)

Lemma acts_shape_mailbox mode degraded : quiet (shape_mailbox (B := B) mode degraded).
Proof. intros fr. unfold shape_mailbox, shape_row, fetch_enabled. rt_tac. Qed.

Lemma acts_follow_joint mode degraded leader starts acc joint :
  quiet (follow_joint (B := B) mode degraded leader starts acc joint).
Proof. intros fr. unfold follow_joint, fetch_pair. rt_tac. Qed.
Hint Resolve acts_shape_mailbox acts_follow_joint : acts.

Lemma acts_follow_cycle mode degraded b : quiet (follow_cycle (B := B) mode degraded b).
Proof. intros fr. unfold follow_cycle. rt_tac. Qed.

Lemma acts_prepare_batch mode degraded include disabled now :
  quiet (prepare_batch (B := B) mode degraded include disabled now).
Proof. intros fr. unfold prepare_batch. rt_tac. Qed.

Lemma acts_track_motion adaptive mask l : quiet (track_motion (B := B) adaptive mask l).
Proof. intros fr. unfold track_motion, track_joint. rt_tac. Qed.
Hint Resolve acts_follow_cycle acts_prepare_batch acts_track_motion : acts.

Lemma failure_sides_length active error sides :
  length (fold_left (fun l side => if active_side active side
                                   then set_side_error_locked side error true l else l)
            both_sides sides) = length sides.
Proof. apply side_fold_length. intros l x. case_match; [apply update_side_length|done]. Qed.

Lemma aside_send_failure e (s : Safety B) : aside s (record_send_failure e s).
Proof.
  split_and!; try reflexivity. split; [|done..].
  unfold record_send_failure. cbn [rt_sides set]. intros Hs. by rewrite failure_sides_length.
Qed.

Lemma sent_sides_length active sides : length (sent_sides active sides) = length sides.
Proof.
  apply side_fold_length. intros l x. case_match; [apply update_side_length|done].
Qed.

Lemma aside_recorded mode now b adaptive k bimanual leader f generation (s : Safety B) :
  aside s (record_sent mode now b adaptive k bimanual leader f false generation s).
Proof.
  assert (Hs : rt_sides (record_sent mode now b adaptive k bimanual leader f false generation s) =
               sent_sides (rt_active_sides s) (rt_sides s)) by by destruct mode.
  split_and!; try by destruct mode. split; [|by destruct mode..].
  rewrite Hs, sent_sides_length. done.
Qed.

Definition first_command (c : SafetyCore) : SafetyCore :=
  let c := c <| has_successful_command_ := true |> <| first_command_accepted_ := false |> in
  if bool_decide (state_ c = Enabled) then c <| state_ := Running |> else c.

Lemma first_command_edge c : worker_edge c (first_command c).
Proof.
  unfold first_command. cbv zeta. case_bool_decide as He; split; simpl in *; auto using edge_stay.
  rewrite He. constructor.
Qed.

Lemma record_sent_user mode now b adaptive k bimanual leader f generation (s : Safety B) :
  let s1 := record_sent mode now b adaptive k bimanual leader f false generation s in
  let s2 := record_sent mode now b adaptive k bimanual leader f true generation s in
  rt_core s2 = first_command (rt_core s1) /\ framed s1 s2.
Proof.
  split; [destruct mode; reflexivity|]. split_and!.
  - trans (rt_command_lock s); by destruct mode.
  - trans (rt_lifecycle_lock s); by destruct mode.
  - trans (rt_clock s); by destruct mode.
  - trans (rt_trace s); by destruct mode.
  - apply layout_same.
    + trans (sent_sides (rt_active_sides s) (rt_sides s)); by destruct mode.
    + trans (rt_motors s); by destruct mode.
    + trans (rt_history s); by destruct mode.
    + trans (rt_joints s); by destruct mode.
    + trans (rt_active_sides s); by destruct mode.
    + trans (rt_config s); by destruct mode.
Qed.

Lemma acts_record_sent mode now b adaptive k bimanual leader f user generation :
  quiet (write (record_sent (B := B) mode now b adaptive k bimanual leader f user generation)).
Proof.
  intros fr. apply acts_write. intros s.
  pose proof (aside_recorded mode now b adaptive k bimanual leader f generation s) as Ha.
  destruct user; [|by apply aside_step].
  destruct (record_sent_user mode now b adaptive k bimanual leader f generation s)
    as [Hc (Hl & Hll & Hk & Ht & Hy)].
  eapply core_aside; try eassumption. rewrite Hc. apply first_command_edge.
Qed.
Hint Resolve acts_record_sent : acts.

Lemma acts_send_batch mode b : sends (send_batch (B := B) mode b).
Proof. unfold send_batch. rt_tac. Qed.
Hint Resolve acts_send_batch acts_gravity_cycle : acts.

Lemma acts_finish_cycle mode now adaptive mask bimanual f user generation completing b :
  sends (finish_cycle (B := B) mode now adaptive mask bimanual f user generation completing b).
Proof.
  unfold finish_cycle. rt_tac. apply acts_write. intros s. apply aside_step, aside_send_failure.
Qed.
Hint Resolve acts_finish_cycle : acts.

Lemma acts_dispatch core adaptive mask bimanual disabled now include completing :
  sends (dispatch_cycle (B := B) core adaptive mask bimanual disabled now include completing).
Proof. unfold dispatch_cycle. rt_tac. Qed.

End Sends.

#[export] Hint Resolve acts_send_pv acts_send_mit acts_send_side_mit acts_send_side_pv
  acts_arm_hold acts_barrier acts_disable_locked acts_role_at acts_gravity_cycle acts_dispatch : acts.
