(* ===== verification/MotionActions.v ===== *)
(** * Joint positions and trajectories move along the worker's edges

    [SafetyLaws] for [JointPosition] and [Planning], whose sections under
    [state_mutex_] ask the drivers: what such a section does is many calls and
    reads, none of which moves the core, and at most one write at its end. *)

From Stdlib Require Import String.
From S2P Require Import Prelude Float32 Float64 PvShaping RuntimeTypes Threads NativeTypes Trajectory SafetyState Motions Gripper Safety Feedback Disable Faults Commands Planning JointPosition Enable Lifecycle Maintenance TrajectoryCycle Completion Gravity ArmCycle SafetyWorker SafetyLaws SafetyActions.
#[local] Open Scope mdl_scope.
#[local] Open Scope thread_scope.

(** ** Sections that ask the drivers *)

Section Alone.
Context {S : Type} (T : S -> S -> Prop) `{!PreOrder T}.

Lemma run_alone_acts {A} (p : prog S A) s : acts T p -> T s (run_alone p s).2.
Proof.
  revert s. induction p as [o|X g f k IH]; intros s; cbn [run_alone acts]; [done|].
  intros [Hf Hk]. destruct (g s) eqn:Hg; [|done]. specialize (Hf s Hg).
  destruct (f s) as [x s']. etrans; [exact Hf|]. by apply IH.
Qed.

End Alone.

Lemma run_alone_bind {S A C} (p : prog S A) (k : A -> prog S C) s :
  run_alone (pbind p k) s =
  match run_alone p s with
  | (Returned a, s') => run_alone (k a) s'
  | (Thrown e, s') => (Thrown e, s')
  | (Undefined, s') => (Undefined, s')
  | (Unfinished, s') => (Unfinished, s')
  end.
Proof.
  revert s. induction p as [o|X g f c IH]; intros s; cbn [pbind run_alone]; [by destruct o|].
  destruct (g s); [|done]. destruct (f s) as [x s']. apply IH.
Qed.

Section Probes.
Context {B : Type} `{!MotorBackend B}.

(** Calls and reads, and writes to what the edges do not speak of. *)
Record probed (fr : bool) (s s' : Safety B) : Prop := {
  pb_core : rt_core s' = rt_core s;
  pb_command_lock : rt_command_lock s' = rt_command_lock s;
  pb_lifecycle_lock : rt_lifecycle_lock s' = rt_lifecycle_lock s;
  pb_clock : rt_clock s' = rt_clock s;
  pb_trace : exists l, rt_trace s' = rt_trace s ++ l /\ Forall (logged fr s) l;
  pb_layout : layout s s'
}.

#[export] Instance probed_preorder fr : PreOrder (probed fr).
Proof.
  split.
  - intros s. split; try done. exists []. by rewrite app_nil_r.
  - intros s1 s2 s3 [Hc Hl Hll Hk (t & Ht & Hlog) ?] [Hc' Hl' Hll' Hk' (t' & Ht' & Hlog') ?].
    split; try congruence.
    + exists (t ++ t'). rewrite Ht', Ht, app_assoc. split; [done|]. apply Forall_app. split; [done|].
      eapply Forall_impl; [exact Hlog'|]. intros e (H1 & H2 & H3). split_and!; [congruence..|done].
    + by etrans.
Qed.

Lemma aside_probed fr s s' : aside s s' -> probed fr s s'.
Proof. intros (? & ? & ? & ? & Ht & ?). split; try done. exists []. by rewrite Ht, app_nil_r. Qed.

Lemma probed_bk fr {X} (c : BackendCall X) :
  (fr = false ->
   match c with Bk_send_pos_vel _ | Bk_send_mit _ => False | _ => True end) ->
  acts (probed fr) (bk (B := B) c).
Proof.
  intros Hc. apply acts_act. intros s. destruct (bk_call X c (rt_backend s)) as [x b]. simpl.
  split; try done; simpl. eexists. split; [done|]. constructor; [|done]. split_and!; try done.
  intros Hf. specialize (Hc Hf). unfold control_frame. simpl. by destruct c.
Qed.

(** A write at the end of a section, along [E]. *)
Definition moved (E : Edges) (s s' : Safety B) : Prop :=
  E (rt_core s) (rt_core s') /\ rt_command_lock s' = rt_command_lock s /\
  rt_lifecycle_lock s' = rt_lifecycle_lock s /\ rt_clock s' = rt_clock s /\
  rt_trace s' = rt_trace s /\ layout s s'.

Lemma probed_moved E fr s1 s2 s3 : probed fr s1 s2 -> moved E s2 s3 -> rt_step E fr s1 s3.
Proof.
  intros [Hc Hl Hll Hk (t & Ht & Hlog) ?] (He & Hl' & Hll' & Hk' & Ht' & ?).
  split; try congruence.
  - exists t. by rewrite Ht', Ht.
  - by etrans.
Qed.

Lemma probed_step (E : Edges) fr s1 s2 : probed fr s1 s2 -> rt_step E fr s1 s2.
Proof.
  intros Hp. eapply probed_moved; [exact Hp|]. split_and!; try done.
  apply worker_may, worker_edge_refl.
Qed.

Lemma acts_atomically E fr {A} (p : Rt (B := B) A) :
  acts (probed fr) p -> acts (rt_step E fr) (atomically p).
Proof.
  intros Hp. unfold atomically. apply acts_bind; [|done]. apply acts_act. intros s.
  apply probed_step. exact (run_alone_acts (probed fr) p s Hp).
Qed.

Lemma acts_atomically_act E fr {A C} (p : Rt (B := B) A) (f : A -> Safety B -> C * Safety B) :
  acts (probed fr) p -> (forall x s, moved E s (f x s).2) ->
  acts (rt_step E fr) (atomically (do x <- p; act (f x))).
Proof.
  intros Hp Hf. unfold atomically. apply acts_bind; [|done]. apply acts_act. intros s.
  cbn [fst snd]. rewrite run_alone_bind. pose proof (run_alone_acts (probed fr) p s Hp) as Hs.
  destruct (run_alone p s) as [[x|e| |] s']; cbn [snd] in *; try by apply probed_step.
  eapply probed_moved; [exact Hs|]. cbn. specialize (Hf x s'). by destruct (f x s').
Qed.

Lemma moved_core (E : Edges) (s s' : Safety B) :
  E (rt_core s) (rt_core s') -> rt_command_lock s' = rt_command_lock s ->
  rt_lifecycle_lock s' = rt_lifecycle_lock s -> rt_clock s' = rt_clock s ->
  rt_trace s' = rt_trace s -> layout s s' -> moved E s s'.
Proof. intros. unfold moved. by split_and!. Qed.

End Probes.

(** Follows a program of probes. *)
Ltac probe_leaf :=
  first [apply acts_write | apply acts_act]; intros; apply aside_probed; cbv zeta; cbn [snd];
  aside_tac.
Ltac probe_step :=
  match goal with
  | |- forall _, _ => intro
  | |- acts _ (match ?x with _ => _ end) => destruct x
  | |- acts _ (bk _) => apply probed_bk; done
  | |- acts _ (write _) => probe_leaf
  | |- acts _ (act _) => probe_leaf
  | |- acts _ (pfold _ _ _) => apply acts_pfold
  | |- acts _ _ => first [solve [eauto 2 with acts] | apply acts_bind]
  end.
Ltac probe_tac := repeat probe_step.

Section Motion.
Context {B : Type} `{!MotorBackend B} (E : Edges) (fr : bool).
Local Notation quiet p := (acts (rt_step E fr) p).
Local Notation probes p := (acts (probed fr) p).

Lemma probes_fetch_state m : probes (fetch_state (B := B) m).
Proof. unfold fetch_state. probe_tac. Qed.
Lemma probes_fetch_stats m : probes (fetch_stats (B := B) m).
Proof. unfold fetch_stats. probe_tac. Qed.
Lemma probes_motor_error e : probes (motor_error (B := B) e).
Proof. unfold motor_error. probe_tac. Qed.
Hint Resolve probes_fetch_state probes_fetch_stats probes_motor_error : acts.

Lemma probes_fetch_fresh age m : probes (fetch_fresh (B := B) age m).
Proof. unfold fetch_fresh. probe_tac. Qed.
Lemma probes_except {A} (x : exn + A) : probes (except (B := B) x).
Proof. by destruct x. Qed.
Lemma probes_rejected o : probes (rejected (B := B) o).
Proof. by destruct o. Qed.
Hint Resolve probes_fetch_fresh probes_except probes_rejected : acts.

Lemma probes_guarded {A} check (f : Safety B -> A * Safety B) :
  (forall s, aside s (f s).2) -> probes (guarded check f).
Proof.
  intros Hf. unfold guarded. apply acts_bind; [|intros; apply probes_except].
  apply acts_act. intros s. specialize (Hf s). destruct (check s); [reflexivity|].
  destruct (f s). by apply aside_probed.
Qed.

Lemma probes_next_generation : probes (next_arm_generation (B := B)).
Proof. unfold next_arm_generation. probe_tac. Qed.
Hint Resolve probes_next_generation : acts.

(** ** Joint positions *)

Lemma probes_add_target r mb t : probes (add_target (B := B) r mb t).
Proof. unfold add_target. probe_tac. Qed.
Hint Resolve probes_add_target : acts.

Lemma aside_end_completed label (s : Safety B) : aside s (end_completed label s).
Proof. unfold end_completed. case_match; [apply aside_terminate|apply aside_refl]. Qed.

Lemma probes_prepare_mailbox r targets now token :
  probes (prepare_mailbox (B := B) r targets now token).
Proof.
  unfold prepare_mailbox.
  apply acts_bind; [apply probes_guarded; intros; apply aside_end_completed|intros _].
  apply acts_bind; [apply probes_guarded; intros; apply aside_refl|]. probe_tac.
Qed.

Lemma acts_install_locked r targets now token :
  quiet (install_locked (B := B) r targets now token).
Proof.
  unfold install_locked. apply acts_atomically_act; [apply probes_prepare_mailbox|].
  intros mb s. apply moved_core; try reflexivity; [|by split].
  apply worker_may, same_flags_edge. cbn. by case_match.
Qed.

(** ** Trajectories *)

Lemma acts_check_start_joint synchronized disabled first k j :
  quiet (check_start_joint (B := B) synchronized disabled first k j).
Proof. unfold check_start_joint. rt_tac. Qed.
Hint Resolve acts_check_start_joint : acts.

Lemma acts_check_start_joints synchronized disabled first k l :
  quiet (check_start_joints (B := B) synchronized disabled first k l).
Proof. revert k. induction l as [|j l IH]; intros k; cbn [check_start_joints]; rt_tac. Qed.
Hint Resolve acts_check_start_joints : acts.

Lemma aside_install_trajectory enqueue now t (s : Safety B) :
  aside s (install_trajectory enqueue now t s).
Proof.
  unfold install_trajectory. cbv zeta. repeat case_match;
    (split_and!; try reflexivity; split; cbn; auto using archive_bound).
Qed.

Lemma aside_moved (s1 s2 : Safety B) (f : SafetyCore -> SafetyCore) :
  aside s1 s2 -> worker_edge (rt_core s2) (f (rt_core s2)) ->
  rt_step E fr s1 (s2 <| rt_core ::= f |>).
Proof. apply aside_core_step. Qed.

Lemma acts_commit_trajectory rq p replace_id enqueue token now :
  quiet (act (commit_trajectory (B := B) rq p replace_id enqueue token now)).
Proof.
  apply acts_act. intros s. unfold commit_trajectory. cbv zeta.
  case_match; [reflexivity|]. case_match; [apply aside_step; aside_tac|]. cbn [snd].
  match goal with |- context [install_trajectory ?e ?n ?t ?x] =>
    pose proof (aside_install_trajectory e n t x) as Ha end.
  assert (Hs : aside s (install_trajectory enqueue now (queued_trajectory rq p
    (next_motion_id_ (rt_counters s))) (s <| rt_counters ::= fun c =>
      c <| next_motion_id_ := u64 (next_motion_id_ (rt_counters s) + 1) |> |>))).
  { eapply aside_trans; [|exact Ha]. aside_now. }
  case_match; [by apply aside_step|]. apply aside_core_step; [exact Hs|by apply same_flags_edge].
Qed.
Hint Resolve acts_commit_trajectory : acts.

Lemma acts_start_prepared rq p replace_id planned enqueue token :
  quiet (start_prepared (B := B) rq p replace_id planned enqueue token).
Proof. unfold start_prepared. rt_tac. Qed.

(** ** New limits *)

Lemma aside_motion_limits velocity acceleration limit (s : Safety B) :
  aside s (motion_limits velocity acceleration limit s).2.
Proof. unfold motion_limits. cbv zeta. repeat case_match; simpl; try apply aside_refl; aside_now. Qed.

Lemma aside_profile_limits velocities accelerations (s : Safety B) :
  aside s (profile_limits velocities accelerations s).2.
Proof. unfold profile_limits. cbv zeta. repeat case_match; simpl; try apply aside_refl; aside_now. Qed.

Lemma acts_motion_limits velocity acceleration limit :
  quiet (act (motion_limits (B := B) velocity acceleration limit)).
Proof. apply acts_act. intros s. apply aside_step, aside_motion_limits. Qed.

Lemma acts_profile_limits velocities accelerations :
  quiet (act (profile_limits (B := B) velocities accelerations)).
Proof. apply acts_act. intros s. apply aside_step, aside_profile_limits. Qed.

End Motion.

#[export] Hint Resolve probes_fetch_state probes_fetch_stats probes_motor_error probes_fetch_fresh
  probes_except probes_rejected : acts.
#[export] Hint Resolve acts_install_locked acts_start_prepared acts_motion_limits
  acts_profile_limits : acts.
