(* ===== verification/LifecycleActions.v ===== *)
(** * The lifecycle operations keep the emergency stop

    What the holder of [lifecycle_mutex_] may do to the core, and for the
    parts of enabling, disabling, connecting, closing, maintenance, gravity
    compensation and bimanual following that they do nothing else.  Besides,
    the edges of the clients that hold no lifecycle mutex. *)

From Stdlib Require Import String.
From S2P Require Import Prelude Float32 Float64 PvShaping RuntimeTypes Threads NativeTypes Trajectory SafetyState Motions Gripper Safety Feedback Disable Faults Commands Enable Lifecycle Maintenance TrajectoryCycle Completion Gravity ArmCycle SafetyWorker SafetyLaws SafetyActions.
#[local] Open Scope mdl_scope.
#[local] Open Scope thread_scope.

(** ** The edges *)

(** A lifecycle operation other than the emergency stop leaves its latch as it
    is, and a runtime that is stopping keeps stopping. *)
Record life_edge (c c' : SafetyCore) : Prop := {
  le_estop : emergency_stop_latched_ c' = emergency_stop_latched_ c;
  le_stopping : stopping_ c = true -> stopping_ c' = true
}.

Lemma worker_life c c' : worker_edge c c' -> life_edge c c'.
Proof. intros []. split; congruence. Qed.

Definition life_edges : Edges := Build_Edges life_edge worker_life.

(** Without the mutex a client may also put a running arm into a hold, when a
    gripper command could not be sent, and report that the retries of
    [clear_faults] have run out. *)
Inductive client_state_edge : SafetyState -> SafetyState -> Prop :=
| client_worker st st' : state_edge st st' -> client_state_edge st st'
| client_hold : client_state_edge Running SafeHold
| client_clear_failed st : client_state_edge st Fault.

Record client_edge (c c' : SafetyCore) : Prop := {
  ce_state : client_state_edge (state_ c) (state_ c');
  ce_mode : mode_ c' = mode_ c;
  ce_stopping : stopping_ c' = stopping_ c;
  ce_estop : emergency_stop_latched_ c' = emergency_stop_latched_ c;
  ce_motor_fault : motor_fault_latched_ c = true -> motor_fault_latched_ c' = true;
  ce_fault : fault_latched_ c' = fault_latched_ c \/
             (fault_latched_ c' = true /\ state_ c' = Fault) \/
             (fault_latched_ c' = false /\ state_ c' = SafeStop)
}.

Lemma worker_client c c' : worker_edge c c' -> client_edge c c'.
Proof. intros []. split; auto. by apply client_worker. Qed.

Definition client_edges : Edges := Build_Edges client_edge worker_client.

Lemma client_life c c' : client_edge c c' -> life_edge c c'.
Proof. intros []. split; congruence. Qed.

Lemma rt_step_edges {B} `{!MotorBackend B} (E E' : Edges) fr (s s' : Safety B) :
  (forall c c', E c c' -> E' c c') -> rt_step E fr s s' -> rt_step E' fr s s'.
Proof. intros HE []. split; auto. Qed.

Section Clients.
Context {B : Type} `{!MotorBackend B}.

Lemma acts_install_capture fr reason mode now c :
  acts (rt_step client_edges fr) (act (install_capture (B := B) reason mode now c)).
Proof.
  apply acts_act. intros s. unfold install_capture. case_match eqn:Hm; [reflexivity|].
  apply negb_false_iff, andb_prop in Hm as [Hm _].
  apply andb_prop in Hm as [Hm%bool_decide_eq_true _]. cbn [snd].
  split; try reflexivity; [|by exists []; rewrite app_nil_r|by split].
  cbn. split; simpl; try done; [rewrite Hm; apply client_hold|by left].
Qed.

End Clients.

(** ** Reading positions, along any edges *)

Section Positions.
Context {B : Type} `{!MotorBackend B} (E : Edges) (fr : bool).
Local Notation quiet p := (acts (rt_step E fr) p).

Lemma acts_read_position config velocity no_config no_feedback acc m :
  quiet (read_position (B := B) config velocity no_config no_feedback acc m).
Proof. unfold read_position. rt_tac. Qed.
Hint Resolve acts_read_position : acts.

Lemma acts_read_positions config velocity no_feedback arms :
  quiet (read_positions (B := B) config velocity no_feedback arms).
Proof. unfold read_positions. rt_tac. Qed.

Lemma acts_fresh_position acc m : quiet (fresh_position (B := B) acc m).
Proof. unfold fresh_position. rt_tac. Qed.

End Positions.

#[export] Hint Resolve acts_read_positions acts_fresh_position : acts.

(** ** The mode of the motors, along any edges *)

Section HardwareMode.
Context {B : Type} `{!MotorBackend B} (E : Edges) (fr : bool).
Local Notation quiet p := (acts (rt_step E fr) p).

Lemma acts_set_motor_timeout m : quiet (set_motor_timeout (B := B) m).
Proof. unfold set_motor_timeout. rt_tac. Qed.
Hint Resolve acts_set_motor_timeout : acts.

Lemma acts_configure_motor mode deadline l m : quiet (configure_motor (B := B) mode deadline l m).
Proof. unfold configure_motor. rt_tac. Qed.
Hint Resolve acts_configure_motor : acts.

Lemma acts_hardware_mode mode : quiet (configure_hardware_mode (B := B) mode).
Proof. unfold configure_hardware_mode. rt_tac. Qed.

End HardwareMode.

#[export] Hint Resolve acts_hardware_mode : acts.

(** ** Under the lifecycle mutex *)

Section Life.
Context {B : Type} `{!MotorBackend B} (fr : bool).
Local Notation life p := (acts (rt_step life_edges fr) p).

Lemma life_step (s s' : Safety B) :
  framed s s' ->
  emergency_stop_latched_ (rt_core s') = emergency_stop_latched_ (rt_core s) ->
  (stopping_ (rt_core s) = true -> stopping_ (rt_core s') = true) -> rt_step life_edges fr s s'.
Proof.
  intros (Hl & Hll & Hk & Ht & Hy) He Hs. split; try done. exists []. by rewrite app_nil_r.
Qed.

(** *** Enabling *)

Lemma acts_begin_enable : life (act (begin_enable (B := B))).
Proof.
  apply acts_act. intros s. unfold begin_enable. cbv zeta. case_match; [reflexivity|].
  by apply life_step; [framed_now|..].
Qed.

Lemma kept_enabled m : kept m (enabled_motor m).
Proof.
  assert (H : motor_identity (enabled_motor m) = motor_identity m /\
              force_profiles (enabled_motor m) = force_profiles m /\
              (is_gripper m = true -> force_level (enabled_motor m) = GRIPPER_FORCE_DEFAULT)).
  { destruct m as [d]. unfold enabled_motor, is_gripper. cbn. by destruct (d_is_gripper d). }
  destruct H as (Hi & Hp & Hl). split; [done| |unfold levels_of; by rewrite Hp].
  unfold leveled, levels_of. rewrite Hp. unfold motor_identity in Hi. injection Hi as _ _ -> _.
  intros Hm Hg. destruct (Hm Hg) as [_ Hd]. split; [|done]. rewrite (Hl Hg).
  destruct Hd as [-> | ->]; by vm_compute.
Qed.

Lemma acts_initialize mode :
  life (write (fun s : Safety B => initialize_enabled_state mode (rt_clock s) s)).
Proof.
  apply acts_write. intros s. apply life_step; try done.
  split_and!; try reflexivity. split; [done|apply kept_map, kept_enabled|done..].
Qed.

Lemma acts_end_transaction : life (write (end_transaction (B := B))).
Proof. apply acts_write. intros s. by apply life_step; [framed_now|..]. Qed.

Lemma acts_enable_report ok disabled missing e :
  life (update_enable_report (B := B) ok disabled missing e).
Proof. unfold update_enable_report, enable_rows. rt_tac. Qed.

Lemma acts_scan_motor e m : life (scan_motor (B := B) e m).
Proof. unfold scan_motor. rt_tac. Qed.

Lemma acts_retry_enable l : life (retry_enable (B := B) l).
Proof. unfold retry_enable, retry_one. rt_tac. Qed.
Hint Resolve acts_scan_motor acts_retry_enable : acts.

Lemma acts_enable_rounds fuel deadline missing retried e :
  life (enable_rounds (B := B) fuel deadline missing retried e).
Proof.
  revert missing retried e. induction fuel as [|fuel IH]; intros missing retried e;
    cbn [enable_rounds]; [done|]. rt_tac.
Qed.
Hint Resolve acts_enable_rounds : acts.

Lemma acts_confirm_enabled deadline missing :
  life (confirm_enabled_feedback (B := B) deadline missing).
Proof. unfold confirm_enabled_feedback. rt_tac. Qed.

Lemma acts_enable_sides e : life (enable_sides (B := B) e).
Proof. unfold enable_sides, enable_side. rt_tac. Qed.

Lemma acts_enable_rejection c faults : life (enable_rejection (B := B) c faults).
Proof. unfold enable_rejection, fault_row. rt_tac. Qed.

Lemma acts_enable_fault e motor_fault : life (write (enable_fault (B := B) e motor_fault)).
Proof. apply acts_write. intros s. by apply life_step; [framed_now|..]. Qed.

Lemma acts_rolled_back disabled e : life (write (enable_rolled_back (B := B) disabled e)).
Proof. apply acts_write. intros s. by apply life_step; [framed_now|..]. Qed.

(** *** Disabling and closing *)

Lemma acts_begin_disable : life (act (begin_disable (B := B))).
Proof.
  apply acts_act. intros s. unfold begin_disable. case_bool_decide; [reflexivity|]. cbv zeta.
  cbn [snd]. apply life_step; [|cbn; by rewrite core_terminate..].
  eapply framed_trans; [by apply framed_terminate; framed_now|framed_now].
Qed.

Lemma acts_disable_done confirmed motor_fault preserve reason e :
  life (write (disable_done (B := B) confirmed motor_fault preserve reason e)).
Proof.
  apply acts_write. intros s. unfold disable_done. cbv zeta.
  repeat case_match; (apply life_step; [framed_now|done|done]).
Qed.

Lemma acts_begin_stop : life (act (begin_stop (B := B))).
Proof.
  apply acts_act. intros s. unfold begin_stop. case_match; [reflexivity|]. cbv zeta. cbn [snd].
  apply life_step.
  - eapply framed_trans; [apply framed_terminate with
      (s0 := s <| rt_core ::= fun c => c <| stopping_ := true |> |>); framed_now|framed_now].
  - cbn. by rewrite core_terminate.
  - intros _. cbn. by rewrite core_terminate.
Qed.

Lemma acts_disconnected : life (write (disconnected (B := B))).
Proof.
  apply acts_write. intros s. apply life_step; [|done..].
  split_and!; try reflexivity. split; try done. intros Hs. unfold disconnected. cbn.
  by rewrite length_map.
Qed.
Hint Resolve acts_begin_stop acts_disconnected : acts.

Lemma acts_stop_worker : life (stop_worker (B := B)).
Proof. unfold stop_worker. rt_tac. Qed.

(** *** Connecting *)

Lemma acts_begin_connect cached : life (act (begin_connect (B := B) cached)).
Proof.
  apply acts_act. intros s. unfold begin_connect, begin_transaction. cbv zeta.
  repeat case_match; try reflexivity; cbn [snd]; (apply life_step; [|done..]);
    (split_and!; try reflexivity; split; done).
Qed.

Lemma acts_connect_refused e : life (write (connect_refused (B := B) e)).
Proof.
  apply acts_write. intros s. apply life_step; [|done..].
  split_and!; try reflexivity. split; [|done..]. intros Hs. unfold connect_refused. cbn [rt_sides set].
  rewrite side_fold_length; [done|]. intros l x. case_match; [apply update_side_length|done].
Qed.

Lemma acts_connect_scan x m : life (connect_scan (B := B) x m).
Proof. unfold connect_scan. rt_tac. Qed.

Lemma acts_revalidation_refused e l : life (write (revalidation_refused (B := B) e l)).
Proof. apply acts_write. intros s. by apply life_step; [framed_now|..]. Qed.

Lemma acts_connect_done x : life (write (connect_done (B := B) x)).
Proof.
  apply acts_write. intros s. apply life_step; [|done..].
  split_and!; try reflexivity. split; [|done..]. intros Hs. unfold connect_done. cbn [rt_sides set].
  rewrite side_fold_length; [done|]. intros l y. unfold connected_side.
  case_match; [done|apply update_side_length].
Qed.
Hint Resolve acts_begin_connect acts_connect_refused acts_connect_scan acts_revalidation_refused
  acts_connect_done : acts.

Lemma acts_connect_transaction revalidating : life (connect_transaction (B := B) revalidating).
Proof. unfold connect_transaction. rt_tac. Qed.

(** *** Maintenance *)

Lemma acts_begin_maintenance op : life (act (begin_maintenance (B := B) op)).
Proof.
  apply acts_act. intros s. unfold begin_maintenance. cbv zeta. case_match; cbn [snd].
  - by apply life_step; [framed_now|..].
  - apply aside_step. aside_tac.
Qed.

Lemma acts_finished op v latch motor_fault :
  life (write (finished_maintenance (B := B) op v latch motor_fault)).
Proof.
  apply acts_write. intros s. unfold finished_maintenance. cbv zeta.
  destruct (ok_code (vd_code v)).
  - unfold maintenance_ok, clears_faults. destruct op; (apply life_step; [framed_now|..]); cbn;
      repeat case_match; done.
  - destruct latch; by apply life_step; [framed_now|..].
Qed.

Lemma acts_configured_mode op : life (write (configured_mode (B := B) op)).
Proof.
  apply acts_write. intros s. destruct op; try reflexivity. by apply life_step; [framed_now|..].
Qed.

Lemma acts_precheck_motor op stationary v m : life (precheck_motor (B := B) op stationary v m).
Proof. unfold precheck_motor. rt_tac. Qed.

Lemma acts_fresh_feedback e : life (fresh_feedback (B := B) e).
Proof. unfold fresh_feedback. rt_tac. Qed.
Hint Resolve acts_begin_maintenance acts_finished acts_configured_mode acts_precheck_motor
  acts_fresh_feedback : acts.

Lemma acts_precheck op stationary : life (maintenance_precheck (B := B) op stationary).
Proof. unfold maintenance_precheck. rt_tac. Qed.

Lemma acts_maintain op : life (maintain_motors (B := B) op).
Proof. unfold maintain_motors, maintain_motor. rt_tac. Qed.
Hint Resolve acts_maintain acts_precheck : acts.

Lemma acts_maintenance_command op : life (maintenance_command (B := B) op).
Proof. unfold maintenance_command. rt_tac. Qed.

Lemma acts_verify op stationary v m : life (verify_motor (B := B) op stationary v m).
Proof. unfold verify_motor. rt_tac. Qed.

Lemma acts_finish op v latch : life (finish_maintenance (B := B) op v latch).
Proof. unfold finish_maintenance. rt_tac. Qed.
Hint Resolve acts_maintenance_command acts_verify acts_finish : acts.

(** The body of [run_motor_maintenance]. *)
Definition maintenance_body (op : Maintenance) (stationary : bool) :
    Rt (B := B) ArticoreOperationError :=
  do pre <- maintenance_precheck op stationary;
  if negb (ok_code (vd_code pre)) then finish_maintenance op pre (latches (vd_code pre))
  else
    do command <- maintenance_command op;
    if negb (ok_code (vd_code command.1)) then finish_maintenance op command.1 command.2
    else
      do motors <- read rt_motors;
      do fresh <- fresh_feedback "";
      match fresh.2 with
      | Some error =>
          finish_maintenance op
            (Build_Verdict OPERATION_FEEDBACK error (missing_names motors fresh.1)) true
      | None =>
          do v <- pfold motors (verify_motor op stationary) fine;
          if negb (ok_code (vd_code v)) then finish_maintenance op v true
          else write (configured_mode op) ;;; finish_maintenance op fine false
      end.

Lemma acts_maintenance op stationary : life (maintenance_body op stationary).
Proof. unfold maintenance_body. rt_tac. Qed.

(** *** Gravity compensation and bimanual following *)

Lemma acts_enter_gravity now ms positions : life (write (enter_gravity (B := B) now ms positions)).
Proof. apply acts_write. intros s. by apply life_step; [framed_now|..]. Qed.

Lemma acts_start_follow now leader positions :
  life (write (start_follow (B := B) now leader positions)).
Proof. apply acts_write. intros s. by apply life_step; [framed_now|..]. Qed.

Lemma acts_stop_follow joints : life (act (stop_follow (B := B) joints)).
Proof.
  apply acts_act. intros s. apply aside_step. unfold stop_follow.
  destruct (hold_joints _ _ _) as [[e|] mb]; aside_now.
Qed.

End Life.
