(* ===== verification/SafetyDiscipline.v ===== *)
(** * The discipline of the threads

    A rely and a guarantee for every thread of the safety runtime, thread 0
    being the worker: control frames only go out under [command_mutex_], the
    core only moves along the edges of the thread or, under
    [lifecycle_mutex_], those of the lifecycle operations, and who gives the
    lifecycle mutex up leaves a runtime that is stopped if an emergency stop
    is latched.  [keeps] is what a program of a thread owes, with rules for
    the ways programs are put together. *)

From Stdlib Require Import String.
From S2P Require Import Prelude RuntimeTypes Threads NativeTypes SafetyState SafetyLaws SafetyActions LifecycleActions.
#[local] Open Scope mdl_scope.
#[local] Open Scope thread_scope.

(** ** Stopped *)

Definition stopped (c : SafetyCore) : Prop :=
  (state_ c = Fault \/ state_ c = Disconnected) /\ fault_latched_ c = true.

Definition halted_core (c : SafetyCore) : Prop :=
  emergency_stop_latched_ c = true -> stopped c.

Lemma client_stopped c c' : client_edge c c' -> stopped c -> stopped c'.
Proof.
  intros [Hst _ _ _ _ Hf] [Hs Hl].
  assert (Hs' : state_ c' = Fault \/ state_ c' = Disconnected).
  { destruct Hst as [st st' He| |st]; [|by destruct Hs|by left].
    destruct He as [st| | |st Hr|st _]; [done|by destruct Hs|by destruct Hs| |by left].
    by destruct Hs as [->| ->]. }
  split; [done|]. destruct Hf as [->|[[-> _]|[_ Hss]]]; [done..|].
  by rewrite Hss in Hs'; destruct Hs'.
Qed.

Lemma client_halted c c' : client_edge c c' -> halted_core c -> halted_core c'.
Proof.
  intros He Hh Hs. eapply client_stopped; [done|]. apply Hh. by rewrite <- (ce_estop _ _ He).
Qed.

(** What a core may be known to be while others move it. *)
Class Steady (P : SafetyCore -> Prop) : Prop :=
  steady c c' : client_edge c c' -> P c -> P c'.

Definition released (c : SafetyCore) : Prop := emergency_stop_latched_ c = false.
Definition resting (c : SafetyCore) : Prop := emergency_stop_latched_ c = true /\ stopped c.
Definition anything (c : SafetyCore) : Prop := True.

(** What not even the holder of the lifecycle mutex takes back. *)
Class Lasting (P : SafetyCore -> Prop) : Prop :=
  lasting c c' : life_edge c c' -> P c -> P c'.

#[export] Instance lasting_steady P `{!Lasting P} : Steady P.
Proof. intros c c' He. by apply lasting, client_life. Qed.

#[export] Instance lasting_released : Lasting released.
Proof. intros c c' He. unfold released. by rewrite (le_estop _ _ He). Qed.

#[export] Instance lasting_anything : Lasting anything.
Proof. done. Qed.

#[export] Instance steady_stopped : Steady stopped.
Proof. intros c c'. apply client_stopped. Qed.

#[export] Instance steady_resting : Steady resting.
Proof.
  intros c c' He [Hs Ht]. split; [by rewrite (ce_estop _ _ He)|]. by eapply client_stopped.
Qed.

#[export] Instance steady_halted : Steady halted_core.
Proof. intros c c'. apply client_halted. Qed.

(** Whether some client may call [recover], the one operation that takes an
    emergency stop back. *)
Class Recoverable : Set := recoverable : bool.

(** Latches that no operation takes back. *)
Record any_edge {rec : Recoverable} (c c' : SafetyCore) : Prop := {
  ae_estop : recoverable = false ->
             emergency_stop_latched_ c = true -> emergency_stop_latched_ c' = true;
  ae_stopping : stopping_ c = true -> stopping_ c' = true
}.

Lemma life_any {rec : Recoverable} c c' : life_edge c c' -> any_edge c c'.
Proof. intros []. split; [congruence|done]. Qed.

Lemma client_any {rec : Recoverable} c c' : client_edge c c' -> any_edge c c'.
Proof. intros He. by apply life_any, client_life. Qed.

(** ** Rely and guarantee *)

Section Discipline.
Context {B : Type} `{!MotorBackend B} {rec : Recoverable}.
Implicit Types (s : Safety B) (i : nat) (c : bool) (P : SafetyCore -> Prop).

(** Thread 0 is the worker. *)
Definition thread_edges i : Edges := if (i =? 0)%nat then worker_edges else client_edges.

Definition depth i (l : option (nat * nat)) : nat :=
  match l with Some (owner, n) => if bool_decide (owner = i) then n else 0%nat | None => 0%nat end.

Definition halted s : Prop := halted_core (rt_core s).

(** Who could take the lifecycle mutex would find a runtime at rest. *)
Definition calm i s : Prop := may_lock i (rt_lifecycle_lock s) = true -> halted s.

Record guarantee i s s' : Prop := {
  g_core : match depth i (rt_lifecycle_lock s) with
           | O => thread_edges i (rt_core s) (rt_core s')
           | S _ => any_edge (rt_core s) (rt_core s')
           end;
  g_command : rt_command_lock s' = rt_command_lock s \/
              (rt_command_lock s = None /\ rt_command_lock s' = Some i) \/
              (rt_command_lock s = Some i /\ rt_command_lock s' = None);
  g_lifecycle : rt_lifecycle_lock s' = rt_lifecycle_lock s \/
                (may_lock i (rt_lifecycle_lock s) = true /\
                 may_lock i (rt_lifecycle_lock s') = true /\
                 (rt_lifecycle_lock s' = None -> halted s'));
  g_clock : rt_clock s' = rt_clock s;
  g_trace : exists l, rt_trace s' = rt_trace s ++ l /\
                      Forall (logged (bool_decide (rt_command_lock s = Some i)) s) l;
  g_layout : layout s s'
}.

Record rely i s s' : Prop := {
  r_command : rt_command_lock s = Some i <-> rt_command_lock s' = Some i;
  r_lifecycle n : rt_lifecycle_lock s = Some (i, n) <-> rt_lifecycle_lock s' = Some (i, n);
  r_core n : rt_lifecycle_lock s = Some (i, n) -> rtc client_edge (rt_core s) (rt_core s');
  r_calm : calm i s -> calm i s';
  r_clock : rt_clock s <= rt_clock s';
  r_trace : exists l, rt_trace s' = rt_trace s ++ l;
  r_layout : layout s s'
}.

(** The environment: time passes, the robot and the scheduler move. *)
Record environment s s' : Prop := {
  env_clock : rt_clock s <= rt_clock s';
  env_same : s' = s <| rt_clock := rt_clock s' |> <| rt_backend := rt_backend s' |>
                    <| rt_helper_turn := rt_helper_turn s' |>
}.

#[export] Instance rely_preorder i : PreOrder (rely i).
Proof.
  split.
  - intros s. split; try done. exists []. by rewrite app_nil_r.
  - intros s1 s2 s3 [Hc Hl Hr Hm Hk [t Ht] Hy] [Hc' Hl' Hr' Hm' Hk' [t' Ht'] Hy']. split.
    + by rewrite Hc.
    + intros n. by rewrite Hl.
    + intros n Hn. etrans; [by eapply Hr|]. eapply Hr'. by apply Hl.
    + auto.
    + lia.
    + exists (t ++ t'). by rewrite Ht', Ht, app_assoc.
    + by etrans.
Qed.

Lemma thread_client i x y : thread_edges i x y -> client_edge x y.
Proof. unfold thread_edges. case_match; [apply worker_client|done]. Qed.

Lemma depth_not_mine i j l : i <> j -> may_lock j l = false \/ depth i l = 0%nat \/
                             (exists n, l = Some (i, n)).
Proof. destruct l as [[o n]|]; simpl; repeat case_bool_decide; subst; eauto. Qed.

Lemma guarantee_rely i j s s' : i <> j -> guarantee i s s' -> rely j s s'.
Proof.
  intros Hij [Hc Hl Hll Hk (t & Ht & _) Hy]. split.
  - destruct Hl as [->|[[-> ->]|[-> ->]]]; [done|split; congruence..].
  - intros n. destruct Hll as [->|(H1 & H2 & _)]; [done|].
    destruct (rt_lifecycle_lock s) as [[o m]|], (rt_lifecycle_lock s') as [[o' m']|];
      simpl in *; repeat case_bool_decide; subst; split; congruence.
  - intros n Hn. rewrite Hn in Hc. simpl in Hc. rewrite bool_decide_eq_false_2 in Hc by done.
    eapply rtc_once, thread_client, Hc.
  - intros Hcalm Hm. destruct Hll as [E|(H1 & H2 & H3)].
    + rewrite E in Hm. destruct (depth i (rt_lifecycle_lock s)) eqn:Hd.
      * eapply client_halted; [eapply thread_client, Hc|]. by apply Hcalm.
      * destruct (rt_lifecycle_lock s) as [[o m]|]; simpl in *; repeat case_bool_decide;
          congruence.
    + destruct (rt_lifecycle_lock s') as [[o' m']|]; [|by apply H3].
      simpl in *; repeat case_bool_decide; congruence.
  - by rewrite Hk.
  - by exists t.
  - done.
Qed.

Lemma environment_rely j s s' : environment s s' -> rely j s s'.
Proof.
  intros [Hk ->]. split; try done. exists []. by rewrite app_nil_r.
Qed.

(** ** What a program owes *)

(** Where the thread stands: whether it holds the command mutex, how often
    the lifecycle mutex, and what it knows, besides that the grippers have their
    profiles. *)
Definition stands i c (l : nat) P s : Prop :=
  bool_decide (rt_command_lock s = Some i) = c /\ depth i (rt_lifecycle_lock s) = l /\
  match l with O => calm i s | S _ => P (rt_core s) end /\ profiled (rt_motors s).

(** A program that has come to an end; one that goes on for ever keeps its
    mutexes. *)
Definition ended {A} (o : outcome A) : Prop :=
  match o with Returned _ | Thrown _ => True | _ => False end.

Definition keeps i c (l : nat) P {A} (p : Rt (B := B) A) : Prop :=
  forall s, stands i c l P s ->
    wp (rely i) (guarantee i) p (fun o s' => ended o -> stands i c l P s') s.

Lemma stands_rely i c l P `{!Steady P} s s' : rely i s s' -> stands i c l P s -> stands i c l P s'.
Proof.
  intros [Hc Hl Hcore Hcalm _ _ Hy] (Hs & Hd & HP & Hp).
  split_and!; [..|by eapply kept_profiled, Hp; apply Hy].
  - rewrite <- Hs. apply bool_decide_ext. tauto.
  - rewrite <- Hd. unfold depth. clear -Hl.
    destruct (rt_lifecycle_lock s') as [[o' m']|].
    + case_bool_decide; subst.
      * destruct (Hl m') as [_ Hm]. rewrite (Hm eq_refl). by rewrite bool_decide_eq_true_2.
      * destruct (rt_lifecycle_lock s) as [[o m]|]; [|done]. case_bool_decide; [|done]. subst.
        destruct (Hl m) as [Hm _]. by specialize (Hm eq_refl); simplify_eq.
    + destruct (rt_lifecycle_lock s) as [[o m]|]; [|done]. case_bool_decide; [|done]. subst.
      destruct (Hl m) as [Hm _]. by specialize (Hm eq_refl).
  - destruct l as [|l]; [auto|]. unfold depth in Hd. clear Hs Hc.
    destruct (rt_lifecycle_lock s) as [[o m]|]; [|done]. case_bool_decide; [subst o|done].
    specialize (Hcore m eq_refl). revert Hcore HP.
    generalize (rt_core s) as x, (rt_core s') as y. induction 1; intros; [done|].
    apply IHHcore. by eapply steady.
Qed.

(** ** Rules *)

Lemma keeps_done i c l P `{!Steady P} {A} (o : outcome A) : keeps i c l P (Done o).
Proof. intros s Hs s1 Hr _. by eapply stands_rely. Qed.

Lemma keeps_then i c l P {A X} (p : Rt (B := B) A) (k : A -> Rt X) :
  keeps i c l P p -> (forall a, keeps i c l P (k a)) -> keeps i c l P (pbind p k).
Proof.
  intros Hp Hk s Hs. apply wp_bind; [apply _|]. eapply wp_mono; [|by apply Hp].
  intros [a|e| |] s' Hs'; simpl; [by apply Hk, Hs'|done..].
Qed.

Lemma keeps_handle i c l P {A} (p : Rt (B := B) A) h :
  keeps i c l P p -> (forall e, keeps i c l P (h e)) -> keeps i c l P (pcatch p h).
Proof.
  intros Hp Hh s Hs. apply wp_catch; [apply _|]. eapply wp_mono; [|by apply Hp].
  intros [a|e| |] s' Hs'; [done|by apply Hh, Hs'|done..].
Qed.

(** A relation fits where the thread may move along it. *)
Definition fits i l P (E : Edges) : Prop :=
  forall x y, E x y ->
    match l with O => thread_edges i x y | S _ => any_edge x y /\ (P x -> P y) end.

Lemma stands_step i c l P E s s' :
  fits i l P E -> stands i c l P s -> rt_step E c s s' -> guarantee i s s' /\ stands i c l P s'.
Proof.
  intros HE (Hc & Hd & HP & Hp) [He Hl Hll Hk Ht Hy]. specialize (HE _ _ He). split.
  - split; [|by left|by left|done|by rewrite Hc|done]. rewrite Hd. destruct l; [done|apply HE].
  - split_and!; [by rewrite Hl|by rewrite Hll| |by eapply kept_profiled; [apply Hy|]].
    destruct l as [|l].
    + intros Hm. eapply client_halted; [by eapply thread_client|]. apply HP. by rewrite <- Hll.
    + by apply HE.
Qed.

Lemma keeps_acts i c l P E {A} (p : Rt (B := B) A) :
  Steady P -> fits i l P E -> acts (rt_step E c) p -> keeps i c l P p.
Proof.
  intros HP HE Hp s Hs. eapply wp_mono with (Q1 := fun _ s' => stands i c l P s'); [done|].
  eapply wp_acts; [done| |intros; by eapply stands_rely|done].
  intros s1 s2 Hs1 Ht. by eapply stands_step.
Qed.

Lemma fits_worker i l P : Steady P -> fits i l P worker_edges.
Proof.
  intros HP x y He. pose proof (worker_client _ _ He) as Hc. destruct l as [|l].
  - unfold thread_edges. by case_match.
  - split; [by apply client_any|]. by apply steady.
Qed.

Lemma fits_client i l P : Steady P -> i <> 0%nat -> fits i l P client_edges.
Proof.
  intros HP Hi x y He. destruct l as [|l].
  - unfold thread_edges. by destruct i.
  - split; [by apply client_any|]. by apply steady.
Qed.

Lemma fits_lasting i l P `{!Lasting P} : fits i (S l) P life_edges.
Proof. intros x y He. split; [by apply life_any|]. by apply lasting. Qed.

Lemma keeps_worker i c l P {A} (p : Rt (B := B) A) `{!Steady P} :
  acts (rt_step worker_edges c) p -> keeps i c l P p.
Proof. apply keeps_acts; [done|]. by apply fits_worker. Qed.

Lemma keeps_lasting i c l P {A} (p : Rt (B := B) A) `{!Lasting P} :
  acts (rt_step life_edges c) p -> keeps i c (S l) P p.
Proof. apply keeps_acts; [apply _|]. by apply fits_lasting. Qed.

(** *** Mutexes *)

Lemma wp_finally {T} (R G : T -> T -> Prop) `{!PreOrder R} {A} (p : prog T A) release
    (Q : outcome A -> T -> Prop) (t : T) :
  wp R G p (fun o t' => ended o ->
    G t' (release t') /\ forall t2, R (release t') t2 -> Q o t2) t ->
  wp R G (pfinally p release) (fun o t' => ended o -> Q o t') t.
Proof.
  revert t. induction p as [[a|e| |]|X g f k IH]; intros t; cbn [pfinally wp].
  - intros Hw t1 Ht _. destruct (Hw t1 Ht I) as [HG Hk]. split; [done|]. intros t2 Ht2 _. by apply Hk.
  - intros Hw t1 Ht _. destruct (Hw t1 Ht I) as [HG Hk]. split; [done|]. intros t2 Ht2 _. by apply Hk.
  - by intros _ t1 _ [].
  - by intros _ t1 _ [].
  - intros Hw t1 Ht Hg. destruct (Hw t1 Ht Hg) as [HG Hk]. split; [done|]. by apply IH.
Qed.

(** From one knowledge of the core to another, with what the outcome says. *)
Definition passes i c l P Q {A} (Post : outcome A -> Prop) (p : Rt (B := B) A) : Prop :=
  forall s, stands i c l P s ->
    wp (rely i) (guarantee i) p (fun o s' => ended o -> stands i c l Q s' /\ Post o) s.

Lemma passes_keeps i c l P {A} (p : Rt (B := B) A) :
  passes i c l P P (fun _ => True) p -> keeps i c l P p.
Proof. intros Hp s Hs. eapply wp_mono; [|by apply Hp]. intros o s' Ho He. by apply Ho. Qed.

Lemma keeps_passes_true i c l P {A} (p : Rt (B := B) A) :
  keeps i c l P p -> passes i c l P P (fun _ => True) p.
Proof. intros Hp s Hs. eapply wp_mono; [|by apply Hp]. intros o s' Ho He. split; auto. Qed.

(** The command mutex, and what is known of the motors. *)
Lemma wp_command i l P Q (K : list MotorRecord -> Prop) {A} (Post : outcome A -> Prop)
    (p : Rt (B := B) A) s :
  Steady P -> Steady Q ->
  (forall x y, Forall2 kept x y -> profiled x -> K x -> K y) ->
  (forall s1, stands i true l P s1 -> K (rt_motors s1) ->
     wp (rely i) (guarantee i) p (fun o s' => ended o -> stands i true l Q s' /\ Post o) s1) ->
  stands i false l P s -> K (rt_motors s) ->
  wp (rely i) (guarantee i) (with_command i p)
    (fun o s' => ended o -> stands i false l Q s' /\ Post o) s.
Proof.
  intros HP HQ HK Hp Hs Hk. unfold with_command. apply wp_await. intros s1 Hr Hg.
  apply bool_decide_eq_true in Hg.
  pose proof (HK _ _ (ly_motors _ _ (r_layout _ _ _ Hr)) ltac:(apply Hs) Hk) as Hk1.
  pose proof (stands_rely _ _ _ _ _ _ Hr Hs) as (Hc & Hd & Hi & Hpr).
  cbn [fst snd]. split.
  { split; cbn; [|by right; left|by left|done|by exists []; rewrite app_nil_r|by split].
    rewrite Hd. destruct l; [apply worker_may, worker_edge_refl|by split]. }
  apply wp_finally; [apply _|]. eapply wp_mono; [|apply Hp; [|exact Hk1]].
  - intros o s' Hend Hended. destruct (Hend Hended) as [(Hc' & Hd' & Hi' & Hp') Ho]. apply bool_decide_eq_true in Hc'. split.
    + split; cbn; [|by right; right|by left|done|by exists []; rewrite app_nil_r|by split].
      rewrite Hd'. destruct l; [apply worker_may, worker_edge_refl|by split].
    + intros s2 Hr2. split; [|done]. eapply stands_rely; [apply _|exact Hr2|]. by split_and!.
  - split_and!; [by apply bool_decide_eq_true_2|done..].
Qed.

Lemma passes_command i l P Q {A} (Post : outcome A -> Prop) (p : Rt (B := B) A) :
  Steady P -> Steady Q ->
  passes i true l P Q Post p -> passes i false l P Q Post (with_command i p).
Proof. intros HP HQ Hp s Hs. apply wp_command with (P := P) (K := fun _ => True); auto. Qed.

Lemma keeps_command i l P {A} (p : Rt (B := B) A) :
  Steady P -> keeps i true l P p -> keeps i false l P (with_command i p).
Proof. intros HP Hp. by apply passes_keeps, passes_command, keeps_passes_true. Qed.

(** Inside the lifecycle mutex, once more. *)
Lemma keeps_lifecycle_again i c l P {A} (p : Rt (B := B) A) :
  Steady P -> keeps i c (S (S l)) P p -> keeps i c (S l) P (with_lifecycle i p).
Proof.
  intros HP Hp s Hs. unfold with_lifecycle. apply wp_await. intros s1 Hr Hg.
  pose proof (stands_rely _ _ _ _ _ _ Hr Hs) as (Hc & Hd & Hi & Hpr). cbn [fst snd].
  unfold depth in Hd. destruct (rt_lifecycle_lock s1) as [[o n]|] eqn:Hl; [|done].
  simpl in Hg. rewrite Hg in Hd. subst n. apply bool_decide_eq_true in Hg. subst o. split.
  { split; cbn; rewrite ?Hl; cbn; rewrite ?bool_decide_eq_true_2 by done;
      [by split|by left|by right|done|by exists []; rewrite app_nil_r|by split]. }
  apply wp_finally; [apply _|]. eapply wp_mono; [|apply Hp].
  - intros o s' Hend Hended. destruct (Hend Hended) as (Hc' & Hd' & Hi' & Hp'). unfold depth in Hd'.
    destruct (rt_lifecycle_lock s') as [[o' n]|] eqn:Hl'; [|done].
    case_bool_decide as Ho; [subst o' n|done]. split.
    + split; cbn; rewrite ?Hl'; cbn; rewrite ?bool_decide_eq_true_2 by done;
        [by split|by left|by right|done|by exists []; rewrite app_nil_r|by split].
    + intros s2 Hr2. eapply stands_rely; [apply _|exact Hr2|]. split_and!; cbn; try done.
      rewrite Hl'. cbn. by rewrite bool_decide_eq_true_2.
  - split_and!; cbn; try done. rewrite Hl. cbn. by rewrite bool_decide_eq_true_2.
Qed.

(** Taking the lifecycle mutex: the runtime is at rest if an emergency stop is
    latched, and has to be when the mutex is given up. *)
Lemma keeps_lifecycle i c P {A} (p : Rt (B := B) A) :
  (forall s, stands i c 1 halted_core s ->
     wp (rely i) (guarantee i) p (fun o s' => ended o -> stands i c 1 halted_core s') s) ->
  keeps i c 0 P (with_lifecycle i p).
Proof.
  intros Hp s Hs. unfold with_lifecycle. apply wp_await. intros s1 Hr Hg.
  assert (Hs1 : stands i c 0 halted_core s1) by by eapply stands_rely; [apply _|..].
  destruct Hs1 as (Hc & Hd & Hi & Hpr). cbn [fst snd].
  assert (Hn : rt_lifecycle_lock s1 = None \/ rt_lifecycle_lock s1 = Some (i, 0%nat)).
  { unfold depth in Hd. destruct (rt_lifecycle_lock s1) as [[o n]|]; [|by left]. right.
    simpl in Hg. rewrite Hg in Hd. apply bool_decide_eq_true in Hg. by subst. }
  set (s2 := s1 <| rt_lifecycle_lock ::= _ |>).
  assert (Hl2 : rt_lifecycle_lock s2 = Some (i, 1%nat)).
  { subst s2. cbn. by destruct Hn as [-> | ->]. }
  split.
  { split; try done; [|by left|right|by exists []; rewrite app_nil_r].
    - rewrite Hd. apply worker_may, worker_edge_refl.
    - rewrite Hl2. split_and!; [done|by apply bool_decide_eq_true_2|done]. }
  apply wp_finally; [apply _|]. eapply wp_mono; [|apply Hp].
  - intros o s' Hend Hended. destruct (Hend Hended) as (Hc' & Hd' & Hi' & Hp'). unfold depth in Hd'.
    destruct (rt_lifecycle_lock s') as [[o' n]|] eqn:Hl'; [|done].
    case_bool_decide as Ho; [subst o' n|done]. split.
    + split; cbn; rewrite ?Hl'; cbn; rewrite ?bool_decide_eq_true_2 by done;
        [by split|by left|by right|done|by exists []; rewrite app_nil_r|by split].
    + intros s3 Hr3. change (stands i c 0 halted_core s3).
      eapply stands_rely; [apply _|exact Hr3|].
      split_and!; [done|cbn; by rewrite Hl'|intros _; exact Hi'|exact Hp'].
  - split_and!; [done|by rewrite Hl2; cbn; rewrite bool_decide_eq_true_2| |exact Hpr]. exact (Hi Hg).
Qed.

(** In two parts: no emergency stop is latched, or the runtime is at rest. *)
Lemma keeps_lifecycle_split i c P {A} (p : Rt (B := B) A) :
  keeps i c 1 released p -> keeps i c 1 resting p -> keeps i c 0 P (with_lifecycle i p).
Proof.
  intros Hp1 Hp2. apply keeps_lifecycle. intros s (Hc & Hd & Hh & Hp).
  destruct (emergency_stop_latched_ (rt_core s)) eqn:Hs.
  - eapply wp_mono; [|by apply Hp2; split_and!; [..|split; [|apply Hh]|]].
    intros o s' Ho He. destruct (Ho He) as (Hc' & Hd' & [_ Hst] & Hp'). by split_and!; [..|intros _|].
  - eapply wp_mono; [|by apply Hp1; split_and!].
    intros o s' Ho He. destruct (Ho He) as (Hc' & Hd' & Hst & Hp'). split_and!; try done.
    intros Hes. unfold released in Hst. congruence.
Qed.

End Discipline.
