(* ===== verification/SafetyThreads.v ===== *)
(** * The worker and the operations of the API keep the discipline

    [keeps] for every operation of the runtime, in the section of a thread
    that holds the lifecycle mutex or not. *)

From Stdlib Require Import String.
From S2P Require Import Prelude Float32 Float64 PvShaping RuntimeTypes Threads NativeTypes Trajectory SafetyState Motions Gripper Safety Feedback Disable Faults Commands Enable Lifecycle Maintenance TrajectoryCycle Completion Gravity ArmCycle SafetyWorker SafetyLaws SafetyActions LifecycleActions SafetyDiscipline.
#[local] Open Scope mdl_scope.
#[local] Open Scope thread_scope.

Create HintDb keeps discriminated.

(** Follows a program; the parts without mutexes are leaves. *)
Ltac keep_leaf :=
  apply keeps_worker; [typeclasses eauto|solve [eauto 3 with acts]].
Ltac keep_act :=
  apply keeps_worker; [typeclasses eauto|first [solve [eauto 2 with acts] | solve [rt_leaf]]].
Ltac keep_step :=
  match goal with
  | |- forall _, _ => intro
  | |- keeps _ _ _ _ (match ?x with _ => _ end) => destruct x
  | |- keeps _ _ _ _ (Done _) => apply keeps_done; typeclasses eauto
  | |- keeps _ _ _ _ (with_command _ _) => apply keeps_command; [typeclasses eauto|]
  | |- keeps _ _ _ _ (write _) => keep_act
  | |- keeps _ _ _ _ (act _) => keep_act
  | |- keeps _ _ _ _ (read _) => keep_act
  | |- keeps _ _ _ _ (await _ _) => keep_act
  | |- keeps _ _ _ _ (pwhen _ _) => apply keeps_worker; [typeclasses eauto|solve [rt_tac]]
  | |- keeps _ _ _ _ (pfold _ _ _) => apply keeps_worker; [typeclasses eauto|solve [rt_tac]]
  | |- keeps _ _ _ _ _ =>
      first [solve [eauto 2 with keeps] | keep_leaf | apply keeps_then | apply keeps_handle]
  end.
Ltac keep_tac := repeat keep_step.

Section Operations.
Context {B : Type} `{!MotorBackend B} `{!ArmDynamics} {rec : Recoverable}.
Context (i : nat) (l : nat) (P : SafetyCore -> Prop) `{!Steady P}.
Local Notation keep p := (keeps i false l P p).

Lemma keeps_gripper_hold : keep (send_gripper_hold_once (B := B) i).
Proof. unfold send_gripper_hold_once. keep_tac. Qed.
Hint Resolve keeps_gripper_hold : keeps.

Lemma keeps_disable_hardware feedback preserve : keep (disable_hardware (B := B) i feedback preserve).
Proof. unfold disable_hardware. keep_tac. Qed.
Hint Resolve keeps_disable_hardware : keeps.

Lemma keeps_protective_hold : keep (prepare_protective_hold (B := B) i).
Proof. unfold prepare_protective_hold. keep_tac. Qed.
Hint Resolve keeps_protective_hold : keeps.

Lemma keeps_safe_hold : keep (send_safe_hold_once (B := B) i).
Proof. unfold send_safe_hold_once. keep_tac. Qed.

Lemma keeps_safe_stop reason : keep (enter_safe_stop (B := B) i reason).
Proof.
  unfold enter_safe_stop. keep_tac. apply keeps_worker; [done|]. apply acts_act. intros s.
  apply rt_step_safe_stop.
Qed.

Lemma keeps_enter_fault reason off hold : keep (enter_fault (B := B) i reason off hold).
Proof.
  unfold enter_fault. keep_tac.
  - apply keeps_worker; [done|]. apply acts_act. intros s. apply rt_step_fault.
  - apply keeps_worker; [done|]. apply acts_write. intros s. unfold torque_off_done.
    apply core_step; try reflexivity; [|split; done]. by apply same_flags_edge.
Qed.
Hint Resolve keeps_safe_hold keeps_safe_stop keeps_enter_fault : keeps.

Lemma keeps_gripper_control : keep (run_gripper_control_once (B := B) i).
Proof. unfold run_gripper_control_once. keep_tac. Qed.

Lemma keeps_arm_cycle now include : keep (run_arm_control_cycle (B := B) i now include).
Proof. unfold run_arm_control_cycle. keep_tac. Qed.

Lemma keeps_seed_grippers activate : keep (seed_gripper_targets_from_feedback (B := B) i activate).
Proof. unfold seed_gripper_targets_from_feedback. keep_tac. Qed.

Lemma keeps_initial_hold mode : keep (send_initial_hold (B := B) i mode).
Proof. unfold send_initial_hold. keep_tac. Qed.

End Operations.

#[export] Hint Resolve keeps_gripper_hold keeps_disable_hardware keeps_protective_hold
  keeps_safe_hold keeps_safe_stop keeps_enter_fault keeps_gripper_control keeps_arm_cycle
  keeps_seed_grippers keeps_initial_hold : keeps.

(** ** The worker *)

Section Worker.
Context {B : Type} `{!MotorBackend B} `{!ArmDynamics} {rec : Recoverable}.
Context (i : nat) (l : nat) (P : SafetyCore -> Prop) `{!Steady P}.
Local Notation keep p := (keeps i false l P p).

Lemma keeps_stop_or_fault reason text : keep (stop_or_fault (B := B) i reason text).
Proof. unfold stop_or_fault. keep_tac. Qed.
Hint Resolve keeps_stop_or_fault : keeps.

Lemma ready_sides_length complete e active sides :
  length (ready_sides complete e active sides) = length sides.
Proof.
  apply side_fold_length. intros sd x. case_match; [done|apply update_side_length].
Qed.

Lemma acts_record_ready complete e fr :
  acts (rt_step worker_edges fr) (write (record_ready (B := B) complete e)).
Proof.
  apply acts_write. intros s. apply aside_step. unfold record_ready. cbv zeta.
  case_match; (split_and!; try reflexivity; split; [|done..]; intros Hs; (etrans; [apply ready_sides_length|exact Hs])).
Qed.
Hint Resolve acts_record_ready : acts.

Lemma keeps_ready_feedback : keep (on_ready_feedback (B := B) i).
Proof. unfold on_ready_feedback. keep_tac. Qed.

Lemma keeps_on_arm now combined : keep (on_arm (B := B) i now combined).
Proof. unfold on_arm. keep_tac. Qed.

Lemma keeps_unhealthy e : keep (on_unhealthy (B := B) i e).
Proof. unfold on_unhealthy. keep_tac. Qed.
Hint Resolve keeps_unhealthy : keeps.

Lemma keeps_on_feedback : keep (on_feedback (B := B) i).
Proof. unfold on_feedback. keep_tac. Qed.

Lemma keeps_on_gripper : keep (on_gripper (B := B) i).
Proof. unfold on_gripper. keep_tac. Qed.

Lemma acts_hold_failed e fr : acts (rt_step worker_edges fr) (act (hold_failed (B := B) e)).
Proof.
  apply acts_act. intros s. unfold hold_failed. cbv zeta. cbn [snd].
  apply core_step; try reflexivity; [|split; done]. apply same_flags_edge. cbn.
  by case_match.
Qed.
Hint Resolve acts_hold_failed : acts.

Lemma keeps_on_hold : keep (on_hold (B := B) i).
Proof. unfold on_hold. keep_tac. Qed.
Hint Resolve keeps_ready_feedback keeps_on_arm keeps_on_feedback keeps_on_gripper keeps_on_hold :
  keeps.

Lemma keeps_perform now d : keep (perform (B := B) i now d).
Proof. unfold perform, on_grace, on_timeout, part. keep_tac. Qed.
Hint Resolve keeps_perform : keeps.

Lemma acts_decide now fr : acts (rt_step worker_edges fr) (act (decide_due (B := B) now)).
Proof.
  apply acts_act. intros s. unfold decide_due. cbv zeta. cbn [snd].
  apply core_step; try reflexivity; [|split; done]. apply same_flags_edge. cbn. by case_match.
Qed.
Hint Resolve acts_decide : acts.

Lemma acts_wait fr : acts (rt_step worker_edges fr) (wait_wakeup (B := B)).
Proof. unfold wait_wakeup. rt_tac. Qed.
Hint Resolve acts_wait : acts.

Lemma keeps_worker_round : keep (worker_round (B := B) i).
Proof. unfold worker_round. keep_tac. Qed.

End Worker.
