(* ===== verification/SafetyLifecycle.v ===== *)
(** * The lifecycle operations leave a stopped runtime

    [enable], [disable], [connect], [close], [estop], maintenance, gravity
    compensation and bimanual following, with [lifecycle_mutex_]: whatever they
    do, a runtime with a latched emergency stop is at rest when the mutex is
    given up.  Where no emergency stop is latched this asks for nothing; where
    one is, the first section of the operation decides: it refuses, or it is a
    transaction that keeps the fault. *)

From Stdlib Require Import String.
From S2P Require Import Prelude Float32 Float64 PvShaping RuntimeTypes Threads NativeTypes Trajectory SafetyState Motions Gripper Safety Feedback Disable Faults Commands Enable Lifecycle Maintenance TrajectoryCycle Completion Gravity ArmCycle SafetyWorker SafetyLaws SafetyActions LifecycleActions SafetyDiscipline SafetyThreads.
#[local] Open Scope mdl_scope.
#[local] Open Scope thread_scope.

(** ** From one knowledge of the core to another *)

Section Edges.
Context {rec : Recoverable}.

Lemma any_edge_refl c : any_edge c c.
Proof. by split. Qed.

Definition any_edges : Edges :=
  Build_Edges any_edge (fun c c' H => client_any c c' (worker_client c c' H)).

(** An edge that keeps [P]. *)
Definition known_edges (P : SafetyCore -> Prop) `{!Steady P} : Edges :=
  Build_Edges (fun c c' => any_edge c c' /\ (P c -> P c'))
    (fun c c' H => conj (client_any c c' (worker_client c c' H)) (steady c c' (worker_client c c' H))).

End Edges.

Section Passes.
Context {B : Type} `{!MotorBackend B} {rec : Recoverable}.
Implicit Types (s : Safety B) (i : nat) (c : bool) (P Q : SafetyCore -> Prop).

(** The outcomes a program may have. *)
Fixpoint leaves {S A} (Post : outcome A -> Prop) (p : prog S A) : Prop :=
  match p with
  | Done o => Post o
  | Act _ _ k => forall x, leaves Post (k x)
  end.

Lemma leaves_true {S A} (p : prog S A) : leaves (fun _ => True) p.
Proof. by induction p. Qed.

Lemma keeps_passes i c l P {A} (Post : outcome A -> Prop) (p : Rt (B := B) A) :
  keeps i c l P p -> leaves Post p -> passes i c l P P Post p.
Proof.
  intros Hp Hl s Hs. specialize (Hp s Hs). revert s Hs Hp.
  enough (Hw : forall s, wp (rely i) (guarantee i) p (fun o s' => ended o -> stands i c l P s') s ->
    wp (rely i) (guarantee i) p (fun o s' => ended o -> stands i c l P s' /\ Post o) s) by auto.
  induction p as [o|X g f k IH]; simpl; intros s Hw s1 Hs1.
  - intros He. split; [by apply Hw|done].
  - intros Hg. destruct (Hw s1 Hs1 Hg) as [HG Hk]. split; [done|]. by apply IH.
Qed.

Lemma passes_done i c l P `{!Steady P} {A} (Post : outcome A -> Prop) (o : outcome A) :
  Post o -> passes (B := B) i c l P P Post (Done o).
Proof. intros Ho. apply keeps_passes; [by apply keeps_done|done]. Qed.

Lemma passes_bind i c l P Q Z {A X} (Post : outcome A -> Prop) (Post' : outcome X -> Prop)
    (p : Rt (B := B) A) (k : A -> Rt X) :
  passes i c l P Q Post p -> (forall a, Post (Returned a) -> passes i c l Q Z Post' (k a)) ->
  (forall e, Post (Thrown e) -> Post' (Thrown e) /\ forall x, Q x -> Z x) ->
  passes i c l P Z Post' (pbind p k).
Proof.
  assert (Hw : forall s, (forall x, Q x -> Z x) -> stands i c l Q s -> stands i c l Z s).
  { intros s HQ (Hc & Hd & Hs & Hm). split_and!; try done. destruct l; [done|]. by apply HQ. }
  intros Hp Hk He s Hs. apply wp_bind; [apply _|]. eapply wp_mono; [|by apply Hp].
  intros [a|e| |] s' Ho; simpl; [| |by intros []..]; destruct (Ho I) as [Hs' HP]; [by apply Hk|].
  intros _. destruct (He e HP). by split; [apply Hw|].
Qed.

Definition returned {A} (Post : A -> Prop) (o : outcome A) : Prop :=
  match o with Returned a => Post a | _ => False end.

(** One action, under the lifecycle mutex. *)
Lemma passes_act i c l P Q {A} (Post : A -> Prop) (f : Safety B -> A * Safety B) :
  Steady P -> Steady Q ->
  (forall s, P (rt_core s) ->
     rt_step any_edges c s (f s).2 /\ Q (rt_core (f s).2) /\ Post (f s).1) ->
  passes i c (S l) P Q (returned Post) (act f).
Proof.
  intros HP HQ Hf s Hs s1 Hr _. pose proof (stands_rely _ _ _ _ _ _ Hr Hs) as (Hc & Hd & H1 & Hm).
  destruct (Hf s1 H1) as ([He Hl Hll Hk Ht Hy] & H2 & H3). split.
  - split; [by rewrite Hd|by left|by left|done|by rewrite Hc|done].
  - intros s2 Hr2 _. split; [|done]. eapply stands_rely; [done|exact Hr2|].
    split_and!; [by rewrite Hl|by rewrite Hll|done|by eapply kept_profiled; [apply Hy|]].
Qed.

Lemma passes_weaken i c l P Q Q' {A} (Post Post' : outcome A -> Prop) (p : Rt (B := B) A) :
  (forall x, Q x -> Q' x) -> (forall o, Post o -> Post' o) ->
  passes i c l P Q Post p -> passes i c l P Q' Post' p.
Proof.
  intros HQ HPost Hp s Hs. eapply wp_mono; [|by apply Hp].
  intros o s' Hpost He. destruct (Hpost He) as [(Hc & Hd & Hs' & Hm) Ho].
  split; [split_and!; try done|auto].
  destruct l; [done|]. by apply HQ.
Qed.

(** What is known afterwards depends on the answer of the first section. *)
Lemma passes_first i c l P Q {A X} (known : A -> SafetyCore -> Prop)
    (f : Safety B -> A * Safety B) (Post : outcome X -> Prop) (k : A -> Rt (B := B) X) :
  Steady P -> (forall a, Steady (known a)) ->
  (forall s, P (rt_core s) ->
     rt_step any_edges c s (f s).2 /\ known (f s).1 (rt_core (f s).2)) ->
  (forall a, passes i c (S l) (known a) Q Post (k a)) ->
  passes i c (S l) P Q Post (pbind (act f) k).
Proof.
  intros HP HK Hf Hk s Hs. apply wp_act. intros s1 Hr.
  pose proof (stands_rely _ _ _ _ _ _ Hr Hs) as (Hc & Hd & H1 & Hm).
  destruct (Hf s1 H1) as ([He Hl Hll Hkk Ht Hy] & H2). split.
  - split; [by rewrite Hd|by left|by left|done|by rewrite Hc|done].
  - apply Hk. split_and!; [by rewrite Hl|by rewrite Hll|done|].
    by eapply kept_profiled; [apply Hy|].
Qed.

(** The first section decides. *)
Lemma keeps_first i c l P {A X} (Post : A -> Prop) (f : Safety B -> A * Safety B)
    (k : A -> Rt (B := B) X) :
  Steady P ->
  (forall s, P (rt_core s) ->
     rt_step any_edges c s (f s).2 /\ P (rt_core (f s).2) /\ Post (f s).1) ->
  (forall a, Post a -> keeps i c (S l) P (k a)) -> keeps i c (S l) P (pbind (act f) k).
Proof.
  intros HP Hf Hk. apply passes_keeps. eapply passes_bind with (Q := P); [by apply passes_act|..];
    [|done..].
  intros a Ha. apply keeps_passes; [by apply Hk|apply leaves_true].
Qed.

Lemma keeps_known i c l P `{!Steady P} {A} (p : Rt (B := B) A) :
  acts (rt_step (known_edges P) c) p -> keeps i c (S l) P p.
Proof. apply keeps_acts; [done|]. by intros x y. Qed.

Lemma known_step P `{!Steady P} c s s' :
  rt_step any_edges c s s' -> (P (rt_core s) -> P (rt_core s')) -> rt_step (known_edges P) c s s'.
Proof. intros [] HP. by split. Qed.

End Passes.

#[export] Hint Resolve acts_begin_enable acts_initialize acts_end_transaction acts_enable_report
  acts_confirm_enabled acts_enable_sides acts_enable_rejection acts_enable_fault acts_rolled_back
  acts_begin_disable acts_disable_done acts_stop_worker acts_connect_transaction acts_maintenance
  acts_enter_gravity acts_start_follow acts_stop_follow
  acts_begin_connect acts_finish : acts.

#[export] Hint Extern 3 (acts _ (write _)) =>
  apply acts_flags; intros; split_and!; reflexivity : acts.
#[export] Hint Extern 0 (Steady _) => typeclasses eauto : keeps.

(** Follows a program; a leaf is without mutexes, and its edges are the
    lifecycle's where no emergency stop is latched, else the worker's. *)
Ltac life_leaf :=
  first [apply keeps_lasting; [typeclasses eauto|solve [eauto 3 with acts | rt_tac]]
        | apply keeps_worker; [typeclasses eauto|solve [eauto 3 with acts | rt_tac]]].
Ltac life_step :=
  match goal with
  | |- forall _, _ => intro
  | |- keeps _ _ _ _ (match ?x with _ => _ end) => destruct x
  | |- keeps _ _ _ _ (Done _) => apply keeps_done; typeclasses eauto
  | |- keeps _ _ _ _ (with_command _ _) => apply keeps_command; [typeclasses eauto|]
  | |- keeps _ _ _ _ (act _) => life_leaf
  | |- keeps _ _ _ _ (write _) => life_leaf
  | |- keeps _ _ _ _ (read _) => life_leaf
  | |- keeps _ _ _ _ _ =>
      first [solve [eauto 2 with keeps] | life_leaf | apply keeps_then | apply keeps_handle]
  end.
Ltac life_tac := repeat life_step.

(** ** Enabling and disabling *)

Section Lifecycle.
Context {B : Type} `{!MotorBackend B} `{!ArmDynamics} {rec : Recoverable}.
Context (i : nat).

Lemma keeps_attempt c l P `{!Steady P} (p : Rt (B := B) unit) :
  keeps i c l P p -> keeps i c l P (attempt p).
Proof.
  intros Hp. apply keeps_handle; [|intros e; by apply keeps_done].
  apply keeps_then; [done|]. intros _. by apply keeps_done.
Qed.
Hint Resolve keeps_attempt : keeps.

Lemma life_first c {A} (f : Safety B -> A * Safety B) s :
  acts (rt_step life_edges c) (act f) -> rt_step any_edges c s (f s).2.
Proof.
  intros [Ha _]. eapply rt_step_edges; [|by apply (Ha s)]. intros x y. apply life_any.
Qed.

Lemma known_act c P `{!Steady P} {A} (f : Safety B -> A * Safety B) :
  acts (rt_step life_edges c) (act f) ->
  (forall s, P (rt_core s) -> P (rt_core (f s).2)) -> acts (rt_step (known_edges P) c) (act f).
Proof. intros Ha HP. apply acts_act. intros s. apply known_step; [by apply life_first|apply HP]. Qed.

Lemma known_write c P `{!Steady P} (f : Safety B -> Safety B) :
  acts (rt_step life_edges c) (write f) -> (forall s, P (rt_core s) -> P (rt_core (f s))) ->
  acts (rt_step (known_edges P) c) (write f).
Proof. intros Ha HP. by apply (known_act c P (fun s => (tt, f s))). Qed.

Lemma keeps_enable_body l P `{!Lasting P} mode :
  keeps i false (S l) P (
    do rejected <- act (begin_enable (B := B));
    match rejected with
    | Some (c, faults) =>
        do text <- enable_rejection c faults; pthrow (InvalidRuntimeState text)
    | None =>
        do native <- bk Bk_can_enable_all;
        if negb native then enable_without_callback i mode
        else
          do r <- enable_transaction i mode;
          match r.2 with
          | None => pret tt
          | Some error => enable_failed i r.1 error
          end
    end).
Proof. unfold enable_without_callback, enable_transaction, enable_failed. life_tac. Qed.

Lemma keeps_enable P mode : keeps i false 0 P (enable (B := B) i mode).
Proof.
  apply keeps_lifecycle_split; [by apply keeps_enable_body, _|].
  apply keeps_first with (Post := fun r => r <> None); [apply _| |].
  - intros s Hs. pose proof Hs as [_ [Hst _]]. unfold begin_enable. cbv zeta.
    replace (enable_rejected (rt_core s)) with true; [split_and!; [reflexivity|done..]|].
    unfold enable_rejected. by destruct Hst as [-> | ->].
  - intros [[core faults]|] Hn; [|done]. life_tac.
Qed.

(** Disabling, at any depth of the lifecycle mutex. *)
Definition disable_body : Rt (B := B) unit :=
  do begun <- act (begin_disable (B := B));
  do p <- except begun;
  do r <- disable_hardware i true false;
  do motor_fault <- current_motor_fault_reported;
  write (disable_done r.1 motor_fault p.1 p.2 r.2) ;;;
  if r.1 then pret tt else pthrow (RuntimeError r.2).

Lemma keeps_disable_body l P `{!Lasting P} : keeps i false (S l) P disable_body.
Proof. unfold disable_body. life_tac. Qed.

Lemma rests_disable_body l : keeps i false (S l) resting disable_body.
Proof.
  apply keeps_first with (Post := fun r => forall p, r = inr p -> p.1 = true); [apply _| |].
  - intros s Hs. pose proof Hs as [_ [Hst Hl]].
    split; [by apply life_first, acts_begin_disable|]. unfold begin_disable.
    case_bool_decide as Hd; [by split|]. destruct Hst as [Hst|]; [|done]. cbv zeta. cbn [fst snd].
    split; [|intros p [= <-]; cbn; by rewrite bool_decide_eq_true_2].
    eapply steady; [|exact Hs]. apply worker_client, same_flags_edge. cbn.
    rewrite core_terminate. by split_and!.
  - intros [e|p] Hp; [by apply (keeps_done _ _ _ _ (Thrown e))|].
    unfold except, pret; cbn [pbind]. rewrite (Hp p eq_refl).
    life_tac. apply (keeps_known _ _ _ resting), known_write; [apply acts_disable_done|].
    intros s [He _]. unfold disable_done. case_match; (split; [done|split; [by left|done]]).
Qed.

Lemma keeps_disable P : keeps i false 0 P (disable (B := B) i).
Proof. apply keeps_lifecycle_split; [apply keeps_disable_body, _|apply rests_disable_body]. Qed.

(** ** Closing *)

Lemma resting_same c c' :
  state_ c' = state_ c -> fault_latched_ c' = fault_latched_ c ->
  emergency_stop_latched_ c' = emergency_stop_latched_ c -> resting c -> resting c'.
Proof. unfold resting, stopped. by intros -> -> ->. Qed.

Lemma rests_stop_worker c : acts (rt_step (known_edges resting) c) (stop_worker (B := B)).
Proof.
  unfold stop_worker. apply acts_bind; [|intros first; case_match; [done|apply acts_bind]].
  - apply known_act; [apply acts_begin_stop|]. intros s Hs. unfold begin_stop.
    case_match; [done|]. revert Hs. cbv zeta. apply resting_same; cbn; by rewrite core_terminate.
  - rt_tac.
  - intros _. apply known_write; [apply acts_disconnected|].
    intros s (He & _ & Hl). split; [done|split; [by right|done]].
Qed.

Lemma keeps_close P : keeps i false 0 P (close (B := B) i).
Proof.
  assert (Hd : keeps i false 1 released (disable (B := B) i)).
  { apply keeps_lifecycle_again; [apply _|]. apply keeps_disable_body, _. }
  assert (Hd' : keeps i false 1 resting (disable (B := B) i)).
  { apply keeps_lifecycle_again; [apply _|]. apply rests_disable_body. }
  apply keeps_lifecycle_split; (apply keeps_then; [life_leaf|intros [needed|]; [|life_tac]]).
  - life_tac.
  - assert (keeps i false 1 resting (stop_worker (B := B))) 
      by apply (keeps_known _ _ _ resting), rests_stop_worker.
    life_tac.
Qed.

(** ** Connecting *)

Lemma rests_connect_done c x :
  acts (rt_step (known_edges resting) c) (write (connect_done (B := B) x)).
Proof.
  apply known_write; [apply acts_connect_done|]. intros s (He & _ & _). unfold connect_done.
  cbv zeta. cbn. rewrite He. cbn. split; [done|]. by split; [left|].
Qed.

Lemma rests_connect_transaction c revalidating :
  acts (rt_step (known_edges resting) c) (connect_transaction (B := B) revalidating).
Proof.
  pose proof rests_connect_done. unfold connect_transaction. rt_tac.
  - apply known_write; [apply acts_connect_refused|]. intros ?. by apply resting_same.
  - apply known_write; [apply acts_revalidation_refused|]. intros ?. by apply resting_same.
Qed.

Lemma begin_transaction_core revalidating (s : Safety B) :
  same_flags (rt_core s) (rt_core (begin_transaction revalidating s).2).
Proof. unfold begin_transaction. by case_match. Qed.

Definition connect_body : Rt (B := B) unit :=
  do cached <- current_motor_fault_reported;
  do begun <- act (begin_connect (B := B) cached);
  do start <- except begun;
  match start with
  | ConnectNothing => pret tt
  | ConnectGo revalidating => connect_transaction revalidating
  end.

Lemma keeps_connect_body l P `{!Lasting P} : keeps i false (S l) P connect_body.
Proof. unfold connect_body, except. life_tac. Qed.

Lemma keeps_connect P : keeps i false 0 P (connect (B := B) i).
Proof.
  apply keeps_lifecycle_split; [apply keeps_connect_body, _|].
  apply keeps_then; [life_leaf|]. intros cached.
  apply keeps_first with (Post := fun _ => True); [apply _| |].
  - intros s Hs. split; [by apply life_first, acts_begin_connect|]. split; [|done].
    pose proof Hs as (He & _ & _). unfold begin_connect. repeat case_match; try done.
    all: try (eapply steady; [apply worker_client, same_flags_edge, begin_transaction_core|done]).
    all: by apply resting_same with (c := rt_core s).
  - intros a _. apply keeps_then; [life_tac|]. intros [|revalidating]; [life_tac|].
    apply (keeps_known _ _ _ resting), rests_connect_transaction.
Qed.

(** ** Maintenance *)

Definition refused_state (v : Verdict) : Prop := vd_code v = OPERATION_INVALID_STATE.

Lemma refuses_precheck c l op stationary :
  passes i c (S l) resting resting (returned refused_state)
    (maintenance_precheck (B := B) op stationary).
Proof.
  unfold maintenance_precheck. eapply passes_bind with (Q := resting)
    (Post := returned (fun r => exists v, r = Some v /\ refused_state v)); [|..|done].
  - apply passes_act; [apply _..|]. intros s Hs. pose proof Hs as (He & Hst & _).
    split; [by apply life_first, acts_begin_maintenance|]. unfold begin_maintenance. cbv zeta.
    replace (maintenance_state op (rt_core s)) with false; [split; [exact Hs|by eexists]|].
    unfold maintenance_state. rewrite He. destruct Hst as [-> | ->]; simpl; by rewrite ?andb_false_r.
  - intros r (v & -> & Hv). apply keeps_passes; [|done]. life_tac.
Qed.

Lemma keeps_maintenance P op stationary :
  keeps i false 0 P (run_motor_maintenance (B := B) i op stationary).
Proof.
  apply keeps_lifecycle_split; (apply keeps_command; [apply _|]).
  - apply keeps_lasting; [apply _|apply acts_maintenance].
  - apply passes_keeps. eapply passes_bind; [apply refuses_precheck|..|done].
    intros [code error failed] Hv. cbv in Hv. subst code.
    apply keeps_passes; [|apply leaves_true]. unfold finish_maintenance. cbn [ok_code latches negb vd_code].
    apply keeps_then; [life_leaf|]. intros motor_fault. apply keeps_then; [|life_tac].
    apply (keeps_known _ _ _ resting), known_write; [apply acts_finished|].
    intros s. by apply resting_same.
Qed.

(** ** Gravity compensation and bimanual following *)

(** A guard that refuses what is known. *)
Lemma keeps_refused c l P `{!Steady P} {A X} check (f : Safety B -> A * Safety B)
    (k : A -> Rt (B := B) X) :
  (forall s, P (rt_core s) -> check s <> None) ->
  keeps i c (S l) P (pbind (guarded check f) k).
Proof.
  intros Hc. apply passes_keeps.
  apply passes_bind with (Q := P) (Post := fun o => exists e, o = Thrown e); [|by intros a [e He]|done..].
  unfold guarded. eapply passes_bind with (Q := P)
    (Post := returned (fun r => exists e, r = inl e)); [|..|done].
  - apply passes_act; [apply _..|]. intros s Hs. specialize (Hc s Hs).
    destruct (check s) as [e|]; [|done]. split; [reflexivity|split; [exact Hs|by eexists]].
  - intros r (e & ->). apply keeps_passes; [life_tac|by eexists].
Qed.

Lemma not_running c : resting c -> enabled_or_running c = false.
Proof. intros (_ & _ & Hl). unfold enabled_or_running. by rewrite Hl, andb_false_r. Qed.

Lemma keeps_start_gravity P `{!Steady P} config :
  keeps i false 0 P (start_gravity_compensation (B := B) i config).
Proof.
  unfold start_gravity_compensation. cbv zeta. destruct (60000 <? _); [by apply keeps_done|].
  apply keeps_lifecycle_split; (apply keeps_command; [apply _|]).
  - apply keeps_then; [apply keeps_lasting; [apply _|apply acts_guarded; intros; reflexivity]|].
    life_tac.
  - apply (keeps_refused _ _ resting). intros s Hs. unfold gravity_startable.
    by rewrite (not_running _ Hs).
Qed.

Lemma keeps_stop_gravity P : keeps i false 0 P (stop_gravity_compensation (B := B) i).
Proof.
  apply keeps_lifecycle_split; (apply keeps_command; [apply _|]).
  - unfold except. life_tac.
  - apply (keeps_first _ _ _ resting) with (Post := fun r => forall x, r <> inr (Some x)); [apply _| |].
    + intros s Hs. split; [reflexivity|]. split; [exact Hs|]. intros x. destruct Hs as (_ & _ & Hl).
      unfold stop_check, gravity_stoppable. rewrite Hl. case_bool_decide; [done|].
      by rewrite andb_false_r.
    + intros [e|[x|]] Hr; [|by destruct (Hr x)|]; unfold except, pret, pthrow; cbn [pbind]; life_tac.
Qed.

Lemma keeps_start_follow P `{!Steady P} side :
  keeps i false 0 P (start_bimanual_follow (B := B) i side).
Proof.
  unfold start_bimanual_follow. destruct (negb _); [by apply keeps_done|].
  apply keeps_lifecycle_split; (apply keeps_command; [apply _|]).
  - apply keeps_then; [apply keeps_lasting; [apply _|apply acts_guarded; intros; reflexivity]|].
    life_tac.
  - apply (keeps_refused _ _ resting). intros s Hs. unfold bimanual_startable. cbv zeta.
    by rewrite (not_running _ Hs).
Qed.

Lemma keeps_stop_follow P : keeps i false 0 P (stop_bimanual_follow (B := B) i).
Proof.
  apply keeps_lifecycle_split; (apply keeps_command; [apply _|]); [life_tac|].
  unfold rejected. life_tac. apply (keeps_known _ _ _ resting), known_act; [apply acts_stop_follow|].
  intros s. unfold stop_follow. by destruct (hold_joints _ _ _) as [[e|] mb].
Qed.

End Lifecycle.

(** ** The emergency stop *)

Lemma leaves_bind {S A X} (Post : outcome A -> Prop) (Post' : outcome X -> Prop) (p : prog S A)
    (k : A -> prog S X) :
  leaves Post p ->
  (forall o, Post o -> match o with
                       | Returned a => leaves Post' (k a)
                       | Thrown e => Post' (Thrown e)
                       | Undefined => Post' Undefined
                       | Unfinished => Post' Unfinished
                       end) -> leaves Post' (pbind p k).
Proof.
  intros Hp Hk. induction p as [o|Y g f c IH]; simpl; [specialize (Hk o Hp); by destruct o|].
  intros x. apply IH, Hp.
Qed.

Lemma leaves_finally {S A} (Post : outcome A -> Prop) (p : prog S A) release :
  leaves Post p -> leaves Post (pfinally p release).
Proof. intros Hp. induction p as [[]|Y g f c IH]; simpl; auto. Qed.

(** No exception and no undefined behaviour. *)
Definition plain {St A} (p : prog St A) : Prop := leaves (returned (fun _ => True)) p.

Section Answers.
Context {B : Type} `{!MotorBackend B} {rec : Recoverable}.
Context (i : nat) (c : bool) (l : nat) (P : SafetyCore -> Prop) `{!Steady P}.

(** A program that returns, and with what. *)
Definition answers {A} (Post : A -> Prop) (p : Rt (B := B) A) : Prop :=
  passes i c l P P (returned Post) p.

Lemma answers_bind {A X} (Post : A -> Prop) (Post' : X -> Prop) (p : Rt (B := B) A)
    (k : A -> Rt X) :
  answers Post p -> (forall a, Post a -> answers Post' (k a)) -> answers Post' (pbind p k).
Proof. intros Hp Hk. by eapply passes_bind. Qed.

Lemma answers_pret {A} (a : A) : answers (fun _ => True) (pret a).
Proof. apply keeps_passes; [by apply keeps_done|done]. Qed.

Lemma answers_plain {A} (p : Rt (B := B) A) :
  acts (rt_step worker_edges c) p -> plain p -> answers (fun _ => True) p.
Proof. intros Ha Hp. apply keeps_passes; [by apply keeps_worker|done]. Qed.

Lemma answers_fold {A X} (steps : list X) (step : A -> X -> Rt (B := B) A) a :
  (forall a x, answers (fun _ => True) (step a x)) ->
  answers (fun _ => True) (pfold steps step a).
Proof.
  intros Hs. revert a. induction steps as [|x steps IH]; intros a; [apply answers_pret|].
  cbn [pfold]. eapply answers_bind; [apply Hs|]. intros a' _. apply IH.
Qed.

(** The motors have their profiles when they are read. *)
Lemma answers_read {A} (Post : A -> Prop) (f : Safety B -> A) :
  (forall s, profiled (rt_motors s) -> Post (f s)) -> answers Post (read f).
Proof.
  intros Hf s Hs s1 Hr _. pose proof (stands_rely _ _ _ _ _ _ Hr Hs) as (Hc & Hd & H1 & Hm). split.
  - split; [|by left|by left|done|by exists []; rewrite app_nil_r|by split].
    rewrite Hd. destruct l; [apply worker_may, worker_edge_refl|by split].
  - intros s2 Hr2. split; [|by apply Hf]. by eapply stands_rely; [done|exact Hr2|].
Qed.

Lemma leveled_profile m : leveled m -> is_gripper m = true -> exists g, active_gripper_profile m = inr g.
Proof.
  intros Hm Hg. destruct (Hm Hg) as [Hl _]. unfold levels_of in Hl.
  apply elem_of_dom in Hl as [g Hg']. exists g. unfold active_gripper_profile. by rewrite Hg'.
Qed.

Lemma answers_plan_gripper connected p command :
  answers (fun _ => True) (plan_gripper (B := B) connected p command).
Proof.
  unfold plan_gripper. cbv zeta. eapply answers_bind with
    (Post := fun r => forall m, r = Some m -> exists g, active_gripper_profile m = inr g).
  - apply answers_read. intros s [Hs _] m Hm. apply find_some in Hm as [Hin Hm].
    apply andb_prop in Hm as [Hg _]. apply leveled_profile; [|done].
    rewrite List.Forall_forall in Hs. by apply Hs.
  - intros [m|] Hm; [|apply answers_pret]. destruct (Hm m eq_refl) as [g Hg]. rewrite Hg.
    case_match; [apply answers_pret|].
    eapply answers_bind; [apply answers_plain; [eauto with acts|done]|]. intros st _.
    case_match; apply answers_pret.
Qed.

Lemma answers_fault_reported : answers (fun _ => True) (current_motor_fault_reported (B := B)).
Proof.
  apply answers_plain; [eauto with acts|]. unfold current_motor_fault_reported, plain.
  intros motors. cbn. induction motors as [|m rest IH]; [done|]. cbn. intros [rc st].
  repeat case_match; done.
Qed.

End Answers.

(** The first part of a program, without mutexes. *)
Ltac answers_step :=
  eapply answers_bind; [apply answers_plain; [typeclasses eauto|eauto with acts|done]|];
  intros ? _.

Section Hold.
Context {B : Type} `{!MotorBackend B} {rec : Recoverable} (i l : nat) (P : SafetyCore -> Prop) `{!Steady P}.

Lemma answers_protective_hold :
  answers i false l P (fun _ => True) (prepare_protective_hold (B := B) i).
Proof.
  unfold prepare_protective_hold. eapply answers_bind with (Post := fun _ => True).
  - apply passes_command; [done..|]. do 2 answers_step.
    eapply answers_bind; [apply answers_fold; [done|]|].
    { intros x m. apply answers_plain; [done|eauto with acts|]. unfold plan_arm_motor.
      case_match; [done|]. by intros [? ?] [? ?]. }
    intros p _. answers_step. eapply answers_bind; [apply answers_fold; [done|]|].
    { intros x command. by apply answers_plan_gripper. }
    intros p' _. by apply answers_pret.
  - intros planned _. answers_step. by apply answers_pret.
Qed.

End Hold.

(** An emergency stop has begun on a connected runtime. *)
Definition doomed (c : SafetyCore) : Prop :=
  emergency_stop_latched_ c = true /\ state_ c <> Disconnected.

#[export] Instance steady_doomed : Steady doomed.
Proof.
  intros c c' He [Hs Hd]. split; [by rewrite (ce_estop _ _ He)|].
  pose proof (ce_state _ _ He) as Hst. remember (state_ c) as x. remember (state_ c') as y.
  destruct Hst as [st st' He'| |st]; [|done..]. by destruct He'.
Qed.

Section Estop.
Context {B : Type} `{!MotorBackend B} {rec : Recoverable} (i : nat).

Lemma fault_rests reason off hold motor_fault arm e now (s : Safety B) :
  doomed (rt_core s) -> resting (rt_core (fault reason off hold motor_fault arm e now s).2).
Proof.
  intros [Hs Hd]. unfold fault. rewrite bool_decide_eq_false_2 by done. cbv zeta. cbn [snd].
  unfold release_control, clear_mailboxes, resting, stopped.
  destruct hold; cbn; rewrite core_terminate; cbn; auto.
Qed.

Lemma enter_fault_rests l reason hold :
  passes i false (S l) doomed resting (returned (fun _ => True))
    (enter_fault (B := B) i reason false hold).
Proof.
  unfold enter_fault. eapply passes_bind with (Q := doomed) (Post := returned (fun _ => True));
    [apply answers_fault_reported, _|intros motor_fault _|done..].
  eapply passes_bind with (Q := doomed) (Post := returned (fun _ => True)); [| |done..].
  { destruct hold; [apply answers_protective_hold, _|apply answers_pret, _]. }
  intros held _. eapply passes_bind with (Q := resting) (Post := returned (fun _ => True)); [| |done..].
  - apply passes_command; [apply _..|]. apply passes_act; [apply _..|]. intros s Hs.
    split; [apply rt_step_fault|]. split; [by apply fault_rests|done].
  - intros faulted _. rewrite orb_true_r. apply answers_pret, _.
Qed.

Definition after_begin (a : EstopStart) : SafetyCore -> Prop :=
  match a with EstopHold _ _ => doomed | _ => resting end.

#[local] Instance steady_after_begin a : Steady (after_begin a).
Proof. destruct a; apply _. Qed.

Lemma begin_estop_known (s : Safety B) :
  halted_core (rt_core s) ->
  after_begin (begin_estop s).1 (rt_core (begin_estop s).2).
Proof.
  intros Hh. unfold begin_estop. destruct (emergency_stop_latched_ (rt_core s)) eqn:He; cbn.
  - destruct (Hh He) as [Hst _]. by split; [|split].
  - case_bool_decide as Hd; cbn; [by split; [|split; [right|]]|by split].
Qed.

Lemma rt_step_begin_estop c (s : Safety B) : rt_step any_edges c s (begin_estop s).2.
Proof.
  unfold begin_estop. case_match eqn:He; cbn [snd];
    (split; [|done|done|done|by exists []; rewrite app_nil_r|by split]); by split; cbn.
Qed.

Lemma acts_note_fault error fr : acts (rt_step worker_edges fr) (write (note_fault (B := B) error)).
Proof. apply acts_flags. intros c. case_match; by split_and!. Qed.
Hint Resolve acts_note_fault : acts.

Lemma keeps_estop P : keeps i false 0 P (estop (B := B) i).
Proof.
  apply keeps_lifecycle. change (keeps i false 1 halted_core (
    do start <- act (begin_estop (B := B));
    match start with
    | EstopAlready | EstopDisconnected => pret tt
    | EstopHold was_disable_confirmed requires_hold =>
        enter_fault i estop_text false requires_hold ;;;
        if negb requires_hold then
          write (fun s : Safety B => s <| rt_core ::= fun c =>
            c <| disable_confirmed_ := was_disable_confirmed |>
              <| fault_reason_ := estop_text |> |>)
        else estop_hold i
    end)).
  assert (Hrest : forall p : Rt (B := B) unit, keeps i false 1 resting p ->
    passes i false 1 resting halted_core (fun _ => True) p).
  { intros p Hp. eapply passes_weaken; [| |by apply keeps_passes_true]; [|done].
    intros x [_ Hx] _. exact Hx. }
  apply passes_keeps. eapply passes_first with (known := after_begin); [apply _..| |].
  - intros s Hs. split; [apply rt_step_begin_estop|by apply begin_estop_known].
  - intros [| |was hold]; [apply Hrest; life_tac..|].
    eapply passes_bind with (Q := resting); [apply enter_fault_rests|intros ? _|done..].
    apply Hrest. unfold estop_hold. life_tac.
Qed.

End Estop.
