(* ===== verification/SafetyMotion.v ===== *)
(** * Joint positions, trajectories and motor power keep the discipline

    [keeps] for the operations of [JointPosition], [Planning] and [Power], with
    the mutexes they take.  A planned command runs in the command transaction
    of its caller. *)

From Stdlib Require Import String.
From S2P Require Import Prelude Float32 Float64 PvShaping RuntimeTypes Threads NativeTypes Trajectory SafetyState Motions Gripper Safety Feedback Disable Faults Commands Planning JointPosition Enable Lifecycle Maintenance Power TrajectoryCycle Completion Gravity ArmCycle SafetyWorker SafetyLaws SafetyActions MotionActions LifecycleActions SafetyDiscipline SafetyThreads SafetyLifecycle.
#[local] Open Scope mdl_scope.
#[local] Open Scope thread_scope.

Section Positions.
Context {B : Type} `{!MotorBackend B} {rec : Recoverable}.
Context (i l : nat) (P : SafetyCore -> Prop) `{!Steady P}.

(** A planned command is in the caller's transaction. *)
Lemma keeps_install_position r targets planned token :
  keeps i planned l P (install_joint_position (B := B) i r targets planned token).
Proof.
  unfold install_joint_position. destruct planned; cbn [negb andb]; keep_tac.
Qed.
Hint Resolve keeps_install_position : keeps.

Lemma keeps_set_targets r targets planned token :
  keeps i planned l P (set_targets (B := B) i r targets planned token).
Proof. unfold set_targets. keep_tac. Qed.
Hint Resolve keeps_set_targets : keeps.

Lemma keeps_planned_only what token c (p : Rt (B := B) unit) :
  keeps i c l P p -> keeps i c l P (planned_only what token p).
Proof. intros Hp. unfold planned_only. keep_tac. Qed.

Lemma keeps_set_profile targets velocities accelerations :
  keeps i false l P (set_joint_pv_profile (B := B) i targets velocities accelerations).
Proof. unfold set_joint_pv_profile. keep_tac. Qed.

Lemma keeps_profile_planned targets velocities accelerations token :
  keeps i true l P (set_joint_pv_profile_planned (B := B) i targets velocities accelerations token).
Proof. apply keeps_planned_only. keep_tac. Qed.

Lemma keeps_mit_speed targets percent :
  keeps i false l P (set_joint_mit_speed (B := B) i targets percent).
Proof. unfold set_joint_mit_speed, set_joint_mit. keep_tac. Qed.

Lemma keeps_pv_speed targets percent :
  keeps i false l P (set_joint_pv_speed (B := B) i targets percent).
Proof. unfold set_joint_pv_speed, set_joint_pv_plain, set_joint_pv. keep_tac. Qed.

Lemma keeps_motion_limits velocity acceleration limit :
  keeps i false l P (update_joint_pv_motion_limits (B := B) i velocity acceleration limit).
Proof. unfold update_joint_pv_motion_limits. keep_tac. Qed.

Lemma keeps_profile_limits velocities accelerations :
  keeps i false l P (update_joint_pv_profile_limits (B := B) i velocities accelerations).
Proof. unfold update_joint_pv_profile_limits. keep_tac. Qed.

Lemma keeps_start_trajectory rq replace_id planned enqueue token :
  keeps i planned l P (start_trajectory (B := B) i rq replace_id planned enqueue token).
Proof. unfold start_trajectory. destruct planned; cbn [negb andb]; keep_tac. Qed.

End Positions.

(** ** Motor power *)

Section Power.
Context {B : Type} `{!MotorBackend B} (E : Edges) (fr : bool).
Local Notation quiet p := (acts (rt_step E fr) p).
Local Notation probes p := (acts (probed fr) p).

Lemma probes_power_of a d l : probes (power_of (B := B) a d l).
Proof. revert a d. induction l as [|m l IH]; intros a d; cbn [power_of]; probe_tac. Qed.
Hint Resolve probes_power_of : acts.

Lemma probes_cached_power selected : probes (cached_motor_power_state (B := B) selected).
Proof. unfold cached_motor_power_state. probe_tac. Qed.

Lemma acts_power_of a d l : quiet (power_of (B := B) a d l).
Proof. revert a d. induction l as [|m l IH]; intros a d; cbn [power_of]; rt_tac. Qed.
Hint Resolve acts_power_of : acts.

Lemma acts_cached_power selected : quiet (cached_motor_power_state (B := B) selected).
Proof. unfold cached_motor_power_state. rt_tac. Qed.

Lemma acts_query_feedback : quiet (query_feedback (B := B)).
Proof. unfold query_feedback. rt_tac. Qed.

Lemma acts_power_query : quiet (act (begin_power_query (B := B))).
Proof.
  apply acts_act. intros s. unfold begin_power_query. cbv zeta.
  repeat case_match; try reflexivity; cbn [snd];
    (apply core_step; try reflexivity; [|by split]; by apply same_flags_edge).
Qed.

Lemma acts_transition_over : quiet (write (transition_over (B := B))).
Proof.
  apply acts_write. intros s. apply core_step; try reflexivity; [|by split]. by apply same_flags_edge.
Qed.

Lemma probes_power_checked enabled : probes (power_checked (B := B) enabled).
Proof. unfold power_checked. probe_tac. Qed.

Lemma acts_begin_power enabled selected : quiet (begin_power (B := B) enabled selected).
Proof.
  apply (acts_atomically_act E fr); [apply probes_power_checked|]. intros c s. cbn [snd].
  unfold begun_power. cbv zeta.
  set (s1 := terminate_trajectory_locked _ _ s).
  pose proof (aside_terminate MOTION_CANCELLED
    (if enabled then "trajectory cancelled by motor enable"
     else "trajectory cancelled by motor disable")%string s) as Ha.
  change (aside s s1) in Ha. destruct Ha as (Hc & Hl & Hll & Hk & Ht & []).
  destruct enabled; (apply moved_core; cbn; [|done..|by split]); rewrite Hc;
    apply worker_may; by apply same_flags_edge.
Qed.

Lemma acts_note_disabled : quiet (note_all_disabled (B := B)).
Proof. apply acts_atomically. unfold note_disabled. probe_tac. Qed.

Lemma acts_power_refresh e : quiet (power_refresh (B := B) e).
Proof. unfold power_refresh. rt_tac. Qed.
Hint Resolve acts_power_refresh acts_note_disabled : acts.

Lemma acts_read_initial enabled r m : quiet (read_initial (B := B) enabled r m).
Proof. unfold read_initial. rt_tac. Qed.
Hint Resolve acts_read_initial : acts.

Lemma acts_preflight enabled selected : quiet (preflight (B := B) enabled selected).
Proof. unfold preflight. rt_tac. Qed.

Lemma acts_power_confirmed expected selected : quiet (power_confirmed (B := B) expected selected).
Proof. unfold power_confirmed, confirm_one. rt_tac. Qed.

Lemma acts_rollback l e : quiet (rollback (B := B) l e).
Proof. unfold rollback, rollback_one, rolled_back_one. rt_tac. Qed.

Lemma acts_power_row enabled r rb m : quiet (power_row (B := B) enabled r rb m).
Proof. unfold power_row. rt_tac. Qed.
Hint Resolve acts_power_row : acts.

Lemma acts_power_rows enabled r rb l m : quiet (power_rows (B := B) enabled r rb l m).
Proof. unfold power_rows. rt_tac. Qed.

End Power.

#[export] Hint Resolve acts_cached_power acts_query_feedback acts_power_query acts_transition_over
  acts_begin_power acts_note_disabled acts_preflight acts_power_confirmed acts_rollback
  acts_power_rows : acts.

Section PowerSends.
Context {B : Type} `{!MotorBackend B} (E : Edges).

Lemma acts_power_transaction enabled ready selected :
  acts (rt_step E true) (power_transaction (B := B) enabled ready selected).
Proof.
  unfold power_transaction, enable_batch, enable_selected, send_power_holds, disable_batch,
    disable_selected, disable_again. rt_tac.
Qed.

End PowerSends.

#[export] Hint Resolve acts_power_transaction : acts.

Section PowerLife.
Context {B : Type} `{!MotorBackend B} {rec : Recoverable} (i : nat).

Lemma acts_power_known fr :
  acts (rt_step life_edges fr)
    (atomically (do all <- cached_motor_power_state None; write (power_known (B := B) all))).
Proof.
  apply (acts_atomically_act life_edges fr) with (f := fun all s => (tt, power_known all s));
    [apply probes_cached_power|].
  intros all s. apply moved_core; try reflexivity; [|by split]. unfold power_known. cbn.
  case_bool_decide; by split.
Qed.

Lemma acts_settle enabled selected started r rb motor_fault all fr :
  acts (rt_step life_edges fr)
    (write (settle_power (B := B) enabled selected started r rb motor_fault all)).
Proof.
  apply acts_write. intros s. apply life_step; [framed_now|..]; unfold settle_power, settle_state;
    cbn; repeat case_match; done.
Qed.
Hint Resolve acts_power_known acts_settle : acts.

Lemma keeps_motor_power_state P role : keeps i false 0 P (motor_power_state (B := B) i role).
Proof.
  apply keeps_lifecycle_split; (apply keeps_then; [life_leaf|intros motors]);
    (apply keeps_then; [life_leaf|intros selected]).
  - life_tac.
  - apply keeps_first with (Post := fun r => r <> inr true); [apply _| |].
    + intros s Hs. pose proof Hs as (_ & Hst & _). unfold begin_power_query. cbv zeta.
      destruct Hst as [-> | ->]; cbn; (split; [reflexivity|]); by split.
    + intros [e|[]] Hr; [by apply (keeps_done _ _ _ _ (Thrown e))|done|].
      unfold except, pret. cbn [pbind negb]. life_tac.
Qed.

(** What the first section has seen. *)
Lemma begin_power_spec enabled selected (s : Safety B) st :
  (run_alone (do c <- power_checked enabled;
              act (fun s : Safety B => (state_ c, begun_power enabled selected s))) s).1 =
    Returned st ->
  st = state_ (rt_core s) /\ exists can, power_rejected enabled can (rt_core s) = None.
Proof.
  assert (Hk : forall can s1, (run_alone (pbind (pbind (rejected (power_rejected enabled can (rt_core s)))
      (fun _ => pret (rt_core s))) (fun c => act (fun s : Safety B =>
        (state_ c, begun_power enabled selected s)))) s1).1 = Returned st ->
    st = state_ (rt_core s) /\ exists can, power_rejected enabled can (rt_core s) = None).
  { intros can s1. destruct (power_rejected enabled can (rt_core s)) eqn:Hc; [done|].
    cbn [rejected rethrow pbind pret act run_alone fst snd]. intros [= <-]. eauto. }
  unfold power_checked, read. cbn [act pbind pret run_alone].
  destruct (power_rejected enabled true (rt_core s)); [apply Hk|]. destruct enabled; [|apply Hk].
  unfold bk. cbn [pbind act pret run_alone]. destruct (bk_call _ _ _) as [can b]. apply Hk.
Qed.

Lemma keeps_power_batch P roles enabled :
  keeps i false 0 P (set_motor_power_batch (B := B) i roles enabled).
Proof.
  apply keeps_lifecycle_split; (apply keeps_then; [life_leaf|intros motors]);
    (apply keeps_then; [life_leaf|intros selected]).
  - life_tac.
  - apply (keeps_first i false 0 resting
      (fun o => forall st, o = Returned st -> enabled = false /\ st = Fault)
      (run_alone (do c <- power_checked enabled;
                  act (fun s : Safety B => (state_ c, begun_power enabled selected s))))
      (fun o => pbind (Done o) _)); [apply _| |].
    + intros s Hs. destruct (acts_begin_power worker_edges false enabled selected) as [Ha _].
      specialize (Ha s eq_refl). cbn in Ha. split_and!.
      * eapply rt_step_edges; [|exact Ha]. intros x y Hxy. by apply client_any, worker_client.
      * eapply steady; [|exact Hs]. apply worker_client, Ha.
      * intros st Hst. apply begin_power_spec in Hst as (-> & can & Hc).
        pose proof Hs as (_ & Hst & _). unfold power_rejected in Hc.
        destruct Hst as [Hst|Hst]; rewrite Hst in Hc; [rewrite Hst|by cbn in Hc].
        destruct enabled; [|done]. by destruct (stopping_ (rt_core s)).
    + intros [st|e| |] Ho; try (apply (keeps_done _ _ _ resting)).
      destruct (Ho st eq_refl) as [-> ->]. cbn [pbind]. life_tac.
      apply (keeps_known _ _ _ resting), known_write; [apply acts_settle|].
      intros s (He & _ & Hl). unfold settle_power, settle_state. cbn.
      case_bool_decide; (split; [exact He|split; [by left|exact Hl]]).
Qed.

Lemma keeps_set_motor_power P role enabled `{!Steady P} :
  keeps i false 0 P (set_motor_power (B := B) i role enabled).
Proof.
  unfold set_motor_power. apply keeps_then; [apply keeps_power_batch|]. intros report.
  case_match; by apply keeps_done.
Qed.

End PowerLife.
