(* ===== verification/SafetyRecovery.v ===== *)
(** * Recovery ends at rest or without an emergency stop

    [recover] holds the lifecycle mutex from its first section to its last.
    What it knows of the core changes on the way: frozen in FAULT, then free to
    be enabled, then without the latch; and wherever it throws, the runtime has
    been stopped before.  [ends] speaks of what is known where a program
    returns and where it throws; [does] of the calls of the backend that a
    program which returns has made, read off the trace. *)

From Stdlib Require Import String.
From S2P Require Import Prelude Float32 Float64 PvShaping RuntimeTypes Threads NativeTypes Trajectory SafetyState Motions Gripper Safety Feedback Disable Faults Commands Planning JointPosition Enable Lifecycle Maintenance Power Recover TrajectoryCycle Completion Gravity ArmCycle SafetyWorker SafetyLaws SafetyActions MotionActions LifecycleActions SafetyDiscipline SafetyThreads SafetyLifecycle SafetyMotion.
#[local] Open Scope mdl_scope.
#[local] Open Scope thread_scope.

(** ** Programs that only return *)

Section Plain.
Context {S : Type}.

Lemma plain_bind {A X} (p : prog S A) (k : A -> prog S X) :
  plain p -> (forall a, plain (k a)) -> plain (pbind p k).
Proof. intros Hp Hk. eapply leaves_bind; [exact Hp|]. intros [a|e| |] Ho; [apply Hk|done..]. Qed.

(** Two jobs that return do so together. *)
Definition both_returned {A X} (r : outcome A * outcome X) : Prop :=
  returned (fun _ => True) r.1 /\ returned (fun _ => True) r.2.

Lemma leaves_premap {A X} (Post : outcome X -> Prop) (h : outcome A -> X) (p : prog S A) :
  plain p -> (forall a, Post (Returned (h (Returned a)))) -> leaves Post (premap h p).
Proof.
  intros Hp Hh. induction p as [[a|e| |]|Y g f k IH]; [apply Hh|done..|].
  intros x. apply IH, Hp.
Qed.

Lemma leaves_par {A X} oracle (p : prog S A) (q : prog S X) :
  plain p -> plain q -> leaves (returned both_returned) (par oracle p q).
Proof.
  intros Hp. revert q. induction p as [o|Y g f k IH]; intros q Hq.
  { apply leaves_premap; [done|]. intros a. split; [exact Hp|done]. }
  induction q as [o|Z g' f' k' IHq].
  { apply leaves_premap; [exact Hp|]. intros a. split; [done|exact Hq]. }
  intros [x|y]; [apply IH; [apply Hp|exact Hq]|apply IHq, Hq].
Qed.

End Plain.

Create HintDb plain discriminated.

Section Folds.
Context {B : Type} `{!MotorBackend B}.

Lemma plain_fold {A X} (l : list X) (step : A -> X -> Rt (B := B) A) a :
  (forall a x, plain (step a x)) -> plain (pfold l step a).
Proof.
  intros Hs. revert a. induction l as [|x l IH]; intros a; cbn [pfold]; [done|].
  apply plain_bind; [apply Hs|]. intros a'. apply IH.
Qed.

End Folds.

Ltac plain_step :=
  match goal with
  | |- forall _, _ => intro
  | |- plain (match ?x with _ => _ end) => destruct x
  | |- plain (pfold _ _ _) => apply plain_fold
  | |- plain (pbind (Done _) _) => cbn [pbind]
  | |- plain _ => first [done | solve [eauto 2 with plain] | apply plain_bind]
  end.
Ltac plain_tac := repeat plain_step.

Section Requests.
Context {B : Type} `{!MotorBackend B}.

Lemma plain_run_sides {A} sides (job : Z -> Rt (B := B) A) :
  (forall side, plain (job side)) -> plain (run_active_sides sides job).
Proof.
  intros Hj. unfold run_active_sides. repeat case_match; [|plain_tac; auto..].
  eapply leaves_bind; [by apply leaves_par|]. intros [[[a|e| |] [b|e'| |]]|e| |]; cbn; try done;
    by intros [].
Qed.

Lemma plain_request_side timeout side : plain (request_side (B := B) timeout side).
Proof. unfold request_side. plain_tac. Qed.
Hint Resolve plain_run_sides plain_request_side : plain.

Lemma plain_merge_side acc x : plain (merge_side (B := B) acc x).
Proof. unfold merge_side, side_can_id, fetch_state. plain_tac. Qed.
Hint Resolve plain_merge_side : plain.

Lemma plain_request_feedback timeout e : plain (request_feedback_parallel (B := B) timeout e).
Proof. unfold request_feedback_parallel. plain_tac. Qed.

Lemma plain_fetch_fresh age m : plain (fetch_fresh (B := B) age m).
Proof. unfold fetch_fresh, fetch_stats, fetch_state. plain_tac. Qed.
Hint Resolve plain_fetch_fresh : plain.

Lemma plain_not_at_zero l m : plain (not_at_zero (B := B) l m).
Proof. unfold not_at_zero. plain_tac. Qed.

End Requests.

#[export] Hint Resolve plain_request_feedback plain_not_at_zero : plain.

(** ** Where a program returns and where it throws *)

Section Ends.
Context {B : Type} `{!MotorBackend B} {rec : Recoverable}.
Implicit Types (i l : nat) (c : bool) (P Q R : SafetyCore -> Prop).

Definition where_ended i c l Q R {A} (o : outcome A) (s : Safety B) : Prop :=
  match o with
  | Returned _ => stands i c l Q s
  | Thrown _ => stands i c l R s
  | _ => True
  end.

Definition ends i c l P Q R {A} (p : Rt (B := B) A) : Prop :=
  forall s, stands i c l P s -> wp (rely i) (guarantee i) p (where_ended i c l Q R) s.

Lemma keeps_ends i c l P {A} (p : Rt (B := B) A) : keeps i c l P p -> ends i c l P P P p.
Proof.
  intros Hp s Hs. eapply wp_mono; [|by apply Hp]. intros [a|e| |] s' Ho; cbn; [by apply Ho..|done|done].
Qed.

Lemma ends_keeps i c l P {A} (p : Rt (B := B) A) : ends i c l P P P p -> keeps i c l P p.
Proof. intros Hp s Hs. eapply wp_mono; [|by apply Hp]. by intros [a|e| |] s' Ho. Qed.

Lemma stands_mono i c l P Q (s : Safety B) :
  (forall x, P x -> Q x) -> stands i c (S l) P s -> stands i c (S l) Q s.
Proof. intros HPQ (Hc & Hd & HP & Hm). split_and!; try done. by apply HPQ. Qed.

Lemma ends_mono i c l P P' Q Q' R R' {A} (p : Rt (B := B) A) :
  (forall x, P' x -> P x) -> (forall x, Q x -> Q' x) -> (forall x, R x -> R' x) ->
  ends i c (S l) P Q R p -> ends i c (S l) P' Q' R' p.
Proof.
  intros HP HQ HR Hp s Hs. eapply wp_mono; [|apply Hp; by eapply stands_mono].
  intros [a|e| |] s'; cbn; [by apply stands_mono..|done|done].
Qed.

Lemma ends_pbind i c l P Q Z R {A X} (p : Rt (B := B) A) (k : A -> Rt X) :
  ends i c l P Q R p -> (forall a, ends i c l Q Z R (k a)) -> ends i c l P Z R (pbind p k).
Proof.
  intros Hp Hk s Hs. apply wp_bind; [apply _|]. eapply wp_mono; [|by apply Hp].
  intros [a|e| |] s' Ho; cbn; [by apply Hk|done..].
Qed.

Lemma ends_catch i c l P Q M R {A} (p : Rt (B := B) A) h :
  ends i c l P Q M p -> (forall e, ends i c l M Q R (h e)) -> ends i c l P Q R (pcatch p h).
Proof.
  intros Hp Hh s Hs. apply wp_catch; [apply _|]. eapply wp_mono; [|by apply Hp].
  intros [a|e| |] s' Ho; [done|by apply Hh|done..].
Qed.

Lemma ends_plain i c l P R {A} (p : Rt (B := B) A) :
  keeps i c l P p -> plain p -> ends i c l P P R p.
Proof.
  intros Hp Hl s Hs. eapply wp_mono; [|exact (keeps_passes i c l P _ p Hp Hl s Hs)].
  intros [a|e| |] s' Ho; cbn; [by apply Ho|by destruct (Ho I)|done|done].
Qed.

Lemma ends_pthrow i c l P Q `{!Steady P} {A} e : ends i c l P Q P (Done (Thrown e) : Rt (B := B) A).
Proof. intros s Hs s' Hr. by eapply stands_rely. Qed.

Lemma ends_pret i c l P R `{!Steady P} {A} (a : A) : ends i c l P P R (pret a : Rt (B := B) A).
Proof. apply ends_plain; [by apply keeps_done|done]. Qed.

(** One action that the holder of the mutex may do. *)
Lemma ends_write i c l P Q R (f : Safety B -> Safety B) :
  Steady P -> Steady Q ->
  (forall s, P (rt_core s) -> rt_step any_edges c s (f s) /\ Q (rt_core (f s))) ->
  ends i c (S l) P Q R (write f).
Proof.
  intros HP HQ Hf s Hs. eapply wp_mono; [|apply (passes_act i c l P Q (fun _ => True)
    (fun s => (tt, f s)) HP HQ)]; [|by intros s1 H1; destruct (Hf s1 H1)|exact Hs].
  intros [a|e| |] s' Ho; cbn; [by apply Ho|by destruct (Ho I)|done|done].
Qed.

End Ends.

(** ** [fail_recovery] *)

Section Recovery.
Context {B : Type} `{!MotorBackend B} {rec : Recoverable}.
Context (i : nat).

Lemma acts_recovery_cleared (E : Edges) fr : acts (rt_step E fr) (write (recovery_cleared (B := B))).
Proof.
  apply acts_write. intros s. apply core_step; try reflexivity; [|by split].
  by apply same_flags_edge.
Qed.
Hint Resolve acts_recovery_cleared : acts.

Lemma life_write c (f : Safety B -> Safety B) s :
  framed s (f s) -> life_edge (rt_core s) (rt_core (f s)) -> rt_step any_edges c s (f s).
Proof.
  intros (Hl & Hll & Hk & Ht & Hy) He. split; try done; [by apply life_any|].
  exists []. by rewrite Ht, app_nil_r.
Qed.

(** Whatever was known before, the runtime is stopped when this throws, and it
    always throws. *)
Lemma ends_fail l Q {A} stage code error failed :
  ends i false (S l) anything Q stopped (fail_recovery (B := B) (A := A) i stage code error failed).
Proof.
  unfold fail_recovery.
  apply ends_pbind with (Q := anything); [apply ends_plain; [life_leaf|]|intros motor_fault].
  { unfold current_motor_fault_reported. plain_tac.
    induction a as [|m l' IH]; cbn [any_motor_fault]; plain_tac. }
  apply ends_pbind with (Q := anything); [apply ends_plain; [life_tac|done]|intros _].
  apply ends_pbind with (Q := stopped); [apply ends_write; [apply _..|]|intros _].
  { intros s _. split; [apply life_write; [framed_now|done]|]. by split; [left|]. }
  apply ends_pbind with (Q := stopped); [apply keeps_ends; life_tac|intros disabled].
  apply ends_pbind with (Q := stopped); [apply keeps_ends; life_tac|intros motors].
  apply ends_pbind with (Q := stopped); [apply ends_write; [apply _..|]|intros _; unfold pthrow; apply ends_pthrow, _].
  intros s [_ Hl]. split; [apply life_write; [framed_now|done]|]. by split; [left|].
Qed.

Lemma keeps_fail l {A} stage code error failed :
  keeps i false (S l) stopped (fail_recovery (B := B) (A := A) i stage code error failed).
Proof. apply ends_keeps. eapply ends_mono; [..|apply ends_fail]; done. Qed.

(** An operation whose exceptions end the recovery. *)
Lemma ends_guarding l (p : Rt (B := B) unit) stage code failed :
  keeps i false (S l) anything p ->
  ends i false (S l) anything anything stopped
    (pcatch p (fun e => fail_recovery i stage code (exn_what e) failed)).
Proof. intros Hp. eapply ends_catch; [by apply keeps_ends|]. intros e. apply ends_fail. Qed.

(** ** The stages *)

Hint Resolve keeps_fail : keeps.

Lemma keeps_recover_motors l : keeps i false (S l) stopped (recover_motors (B := B) i).
Proof.
  unfold recover_motors, clear_motor_faults, clear_one, recovery_health, unhealthy_one,
    distance_one. life_tac.
  apply (keeps_known _ _ _ stopped). apply acts_write. intros s. apply known_step; [|done].
  by apply life_write; [framed_now|].
Qed.

(** The rounds of the zero return only throw where the recovery has failed. *)
Lemma ends_zero_rounds l fuel deadline failed :
  ends i false (S l) anything anything stopped (zero_rounds (B := B) fuel i deadline failed).
Proof.
  revert failed. induction fuel as [|fuel IH]; intros failed; cbn [zero_rounds]; [by intros s _ s1 _|].
  apply ends_pbind with (Q := anything); [apply ends_plain; [life_tac|done]|intros now].
  destruct (negb _); [apply ends_pret, _|].
  apply ends_pbind with (Q := anything); [apply ends_plain; [life_tac|done]|intros _].
  apply ends_pbind with (Q := anything); [apply ends_plain; [life_tac|done]|intros p].
  apply ends_pbind with (Q := anything);
    [apply ends_plain; [life_tac|apply plain_request_feedback]|intros [[requested missing] error]].
  destruct (negb requested); [apply ends_fail|].
  apply ends_pbind with (Q := anything); [apply ends_plain; [life_tac|done]|intros c].
  destruct (stopped_reason c); [apply ends_fail|].
  apply ends_pbind with (Q := anything).
  { apply ends_plain; [unfold not_at_zero; life_tac|apply plain_fold, plain_not_at_zero]. }
  intros [|x rest]; [apply ends_pret, _|apply IH].
Qed.

(** *** The zero return *)

Definition configured (s : Safety B) : Prop := rt_joints s <> ∅.

Lemma velocity_configured (mode : ControlMode) joints :
  joints <> ∅ -> exists v, ordinary_velocity_from_percent mode kRecoverySpeedPercent joints = inr v.
Proof.
  intros Hj. unfold ordinary_velocity_from_percent.
  replace (negb (f32_isfinite kRecoverySpeedPercent) || _ || _) with false by (by vm_compute).
  assert (Hs : (size joints =? 0)%nat = false).
  { apply Nat.eqb_neq. by intros Hz%map_size_empty_iff. }
  rewrite Hs. by eexists.
Qed.

Lemma velocity_known (mode : ControlMode) percent joints v :
  ordinary_velocity_from_percent mode percent joints = inr v -> joints <> ∅.
Proof.
  unfold ordinary_velocity_from_percent. case_match; [done|].
  destruct (size joints =? 0)%nat eqn:Hs; [done|]. intros _ ->. by rewrite map_size_empty in Hs.
Qed.

(** Reading, and what is read. *)
Lemma wp_read i0 c l P `{!Steady P} {A X} (f : Safety B -> A) (k : A -> Rt (B := B) X) Q s :
  stands i0 c l P s ->
  (forall s1, rely i0 s s1 -> stands i0 c l P s1 -> wp (rely i0) (guarantee i0) (k (f s1)) Q s1) ->
  wp (rely i0) (guarantee i0) (pbind (read f) k) Q s.
Proof.
  intros Hs Hk. apply wp_act. intros s1 Hr. pose proof (stands_rely _ _ _ _ _ _ Hr Hs) as Hs1.
  split; [|by apply Hk]. cbn [snd fst].
  by apply (stands_step i0 c l P worker_edges s1 s1); [apply fits_worker|..].
Qed.

(** A speed command that is accepted leaves configured joints. *)
Lemma wp_speed l (mode : ControlMode) (p : f32 -> Rt (B := B) unit) s :
  (forall v, keeps i false (S l) anything (p v)) -> stands i false (S l) anything s ->
  wp (rely i) (guarantee i)
    (do joints <- read rt_joints;
     do velocity <- except (ordinary_velocity_from_percent mode kRecoverySpeedPercent joints);
     p velocity)
    (fun o s' => ended o -> stands i false (S l) anything s' /\ (forall u, o = Returned u -> configured s')) s.
Proof.
  intros Hp Hs. apply (wp_read i false (S l) anything); [done|]. intros s1 _ Hs1.
  destruct (ordinary_velocity_from_percent mode _ _) as [e|v] eqn:Hv; cbn [except pthrow pret pbind].
  - intros s2 Hr _. split; [by eapply stands_rely; [apply _|..]|done].
  - apply velocity_known in Hv. eapply wp_mono; [|apply wp_frame with (K := configured)
      (Q := fun o s' => ended o -> stands i false (S l) anything s')].
    + intros o s2 [H1 H2] Ho. auto.
    + intros x y Hr. apply (ly_joints _ _ (r_layout _ _ _ Hr)).
    + intros x y HG. apply (g_layout _ _ _ HG).
    + done.
    + by apply Hp.
Qed.

Lemma ends_return_to_zero l distance :
  ends i false (S l) anything anything stopped (return_to_zero (B := B) i distance).
Proof.
  unfold return_to_zero.
  apply ends_pbind with (Q := anything); [apply ends_plain; [life_tac|done]|intros motors].
  intros s Hs. apply wp_bind; [apply _|]. apply wp_catch; [apply _|].
  eapply wp_mono with (Q1 := fun o s' => ended o -> stands i false (S l) anything s' /\
                                (forall u, o = Returned u -> configured s')).
  - intros [u|e| |] s' Ho; cbn [after]; [| |done..].
    2: { eapply wp_mono; [|apply (ends_fail l (fun _ => False)); by apply Ho].
         intros [u|e'| |] s2; [by intros (_ & _ & [] & _)|done..]. }
    destruct (Ho I) as [Hs' Hj]. specialize (Hj u eq_refl).
    apply (wp_read i false (S l) anything); [done|]. intros s1 Hr Hs1.
    destruct (velocity_configured (mode_ (rt_core s1)) (rt_joints s1)) as [v ->];
      [by apply (ly_joints _ _ (r_layout _ _ _ Hr))|]. cbn [except pret pbind].
    revert s1 Hr Hs1. intros s1 _. revert s1.
    apply ends_pbind with (Q := anything); [apply ends_plain; [life_tac|done]|intros now].
    cbv zeta. apply ends_pbind with (Q := anything); [apply ends_zero_rounds|].
    intros [|x rest]; [apply ends_pret, _|apply ends_fail].
  - unfold submit_zero. apply (wp_read i false (S l) anything); [done|]. intros s1 _ Hs1.
    cbn [fst snd]. destruct (mode_ (rt_core s1)); apply wp_speed; try done; intros v.
    + apply keeps_set_targets, _.
    + apply keeps_set_targets, _.
Qed.

(** ** [recover] *)

(** Where a recovery that returns leaves the runtime, from where the others may
    have moved it. *)
Definition recovered_core (c : SafetyCore) : Prop :=
  state_ c = Ready /\ fault_latched_ c = false /\ motor_fault_latched_ c = false /\
  emergency_stop_latched_ c = false /\ disable_confirmed_ c = true.

Definition since (P : SafetyCore -> Prop) (c' : SafetyCore) : Prop :=
  exists c, P c /\ rtc client_edge c c'.

#[local] Instance steady_since P : Steady (since P).
Proof. intros c1 c2 He (c & Hc & Hr). exists c. split; [done|]. by eapply rtc_r. Qed.

Lemma since_released c : since recovered_core c -> released c.
Proof.
  intros (c0 & (_ & _ & _ & He & _) & Hr). change (released c0) in He.
  induction Hr as [|x y z Hxy _ IH]; [done|]. apply IH. by eapply steady.
Qed.

Lemma acts_begin_recover (E : Edges) fr : acts (rt_step E fr) (act (begin_recover (B := B))).
Proof.
  apply acts_act. intros s. apply aside_step. unfold begin_recover. cbv zeta.
  repeat case_match; aside_now.
Qed.

Lemma acts_recovery_released (E : Edges) fr :
  acts (rt_step E fr) (write (recovery_released (B := B))).
Proof.
  apply acts_write. intros s. apply core_step; try reflexivity; [|by split].
  by apply same_flags_edge.
Qed.
Hint Resolve acts_begin_recover acts_recovery_released : acts.

Lemma nested l P `{!Steady P} (p : Rt (B := B) unit) :
  keeps i false (S (S l)) P p -> keeps i false (S l) P (with_lifecycle i p).
Proof. apply keeps_lifecycle_again, _. Qed.

Lemma ends_recover :
  recoverable = true ->
  ends i false 1 halted_core (since recovered_core) halted_core (recover_body (B := B) i).
Proof.
  intros Hrec. unfold recover_body. cbv zeta.
  apply ends_pbind with (Q := halted_core); [apply keeps_ends; life_leaf|intros begun].
  apply ends_pbind with (Q := halted_core); [apply keeps_ends; life_tac|intros first].
  apply ends_pbind with (Q := halted_core); [apply keeps_ends; life_leaf|intros motors].
  apply ends_mono with (P := anything) (Q := since recovered_core) (R := stopped).
  { done. } { done. } { by intros x Hx _. }
  apply ends_pbind with (Q := anything).
  { destruct first; [|apply ends_pret, _]. apply ends_guarding, nested; [apply _|].
    apply keeps_connect_body, _. }
  intros _. apply ends_pbind with (Q := stopped).
  { apply ends_write; [apply _..|]. intros s _. split; [by apply life_write; [framed_now|]|].
    by split; [left|]. }
  intros _. apply ends_pbind with (Q := stopped); [apply keeps_ends; life_tac|intros _].
  apply ends_pbind with (Q := stopped); [apply keeps_ends, keeps_recover_motors|intros distance].
  apply ends_pbind with (Q := anything).
  { apply ends_write; [apply _..|]. intros s _. split; [by apply life_write; [framed_now|]|done]. }
  intros _. apply ends_pbind with (Q := anything); [apply ends_plain; [life_tac|done]|intros mode].
  apply ends_pbind with (Q := anything).
  { apply ends_guarding, nested; [apply _|]. apply keeps_enable_body, _. }
  intros _. apply ends_pbind with (Q := anything); [apply ends_return_to_zero|intros _].
  apply ends_pbind with (Q := anything).
  { apply ends_guarding, nested; [apply _|]. apply keeps_disable_body, _. }
  intros _. apply ends_write; [apply _..|]. intros s _. split; [|eexists; split; [|reflexivity]; by split_and!].
  split; try reflexivity; [|by exists []; rewrite app_nil_r|by split].
  split; cbn; [by rewrite Hrec|done].
Qed.

Lemma keeps_recover P : recoverable = true -> keeps i false 0 P (recover (B := B) i).
Proof.
  intros Hrec. apply keeps_lifecycle. apply (ends_keeps i false 1 halted_core).
  eapply ends_mono; [..|by apply ends_recover]; [done| |done].
  intros x Hx%since_released He. unfold released in Hx. congruence.
Qed.

End Recovery.

(** ** What a recovery that returns has done

    The calls of the backend that a program makes, in their order, read off
    the trace: [does p Done] says that where [p] returns [a], the calls made
    meanwhile have a subsequence in [Done a]. *)

Section Deeds.
Context {B : Type} `{!MotorBackend B}.
Implicit Types (s : Safety B) (l : list SafetyEvent) (m : MotorRecord).

(** Calls are recorded and stay recorded; the motors stay. *)
Record moves s s' : Prop := {
  mv_trace : exists l, rt_trace s' = rt_trace s ++ l;
  mv_layout : layout s s'
}.

#[export] Instance moves_preorder : PreOrder moves.
Proof.
  split; [split; [exists []; by rewrite app_nil_r|reflexivity]|].
  intros s1 s2 s3 [[l1 H1] Hy1] [[l2 H2] Hy2]. split; [|by etrans].
  exists (l1 ++ l2). by rewrite H2, H1, app_assoc.
Qed.

(** A call with an answer in [P]. *)
Definition answered {X} (c : BackendCall X) (P : X -> Prop) l : Prop :=
  exists st holder x, EvCall st holder X c x ∈ l /\ P x.

Definition frame_sent m l : Prop := answered (Bk_disable_motor (motor_of m)) (fun _ => True) l.

(** The drivers have feedback of the motor that is young enough, and it says
    that the motor is disabled. *)
Definition reported_disabled (maximum_age : Z) m l : Prop :=
  answered (Bk_get_feedback_stats (motor_of m))
    (fun r => fst r = 0 /\ afs_has_feedback (snd r) = true /\ afs_age_ns (snd r) <= maximum_age) l /\
  answered (Bk_get_state (motor_of m))
    (fun r => fst r = 0 /\ ams_has_value (snd r) = true /\ ams_status_code (snd r) = 0) l.

Definition on_active_side s m : Prop :=
  side_of m ∈ both_sides /\ active_side (rt_active_sides s) (side_of m) = true.

(** Every motor was sent the disable frame and then reported that it is
    disabled. *)
Definition all_disabled s l : Prop :=
  exists l1 l2, l = l1 ++ l2 /\
    (forall m, m ∈ rt_motors s -> on_active_side s m -> frame_sent m l1) /\
    (forall m, m ∈ rt_motors s -> reported_disabled (feedback_max_age_ns (rt_config s)) m l2).

(** The faults of every motor were cleared. *)
Definition all_cleared s l : Prop :=
  forall m, m ∈ rt_motors s -> on_active_side s m ->
    answered (Bk_clear_error (motor_of m)) (fun rc => rc = 0) l.

Definition recovery_deeds s s' : Prop :=
  exists t l1 l2 l3, rt_trace s' = rt_trace s ++ t /\ l1 ++ l2 ++ l3 `sublist_of` t /\
    all_disabled s l1 /\ all_cleared s l2 /\ all_disabled s l3.

(** *** The judgement *)

Context (s0 : Safety B).

Definition deed {A} (D : A -> list SafetyEvent -> Prop) s (o : outcome A) (s' : Safety B) : Prop :=
  match o with
  | Returned a => exists t l, rt_trace s' = rt_trace s ++ t /\ l `sublist_of` t /\ D a l
  | _ => True
  end.

Definition does {A} (p : Rt (B := B) A) (D : A -> list SafetyEvent -> Prop) : Prop :=
  forall s, layout s0 s -> observes moves p (deed D s) s.

Lemma deed_moves {A} (D : A -> list SafetyEvent -> Prop) s o s1 s2 :
  moves s1 s2 -> deed D s o s1 -> deed D s o s2.
Proof.
  intros [[t' Ht'] _]. destruct o as [a|e| |]; try done. intros (t & l & Ht & Hl & HD).
  exists (t ++ t'), l. split_and!; [by rewrite Ht', Ht, app_assoc|by apply sublist_inserts_r|done].
Qed.

Lemma does_mono {A} (p : Rt (B := B) A) (D D' : A -> list SafetyEvent -> Prop) :
  (forall a l, D a l -> D' a l) -> does p D -> does p D'.
Proof.
  intros HD Hp s Hs. eapply observes_mono; [apply _| |by apply Hp]. intros [a|e| |] s' _; try done.
  intros (t & l & ? & ? & ?). exists t, l. auto.
Qed.

Lemma does_any {A} (p : Rt (B := B) A) : does p (fun _ _ => True).
Proof.
  intros s Hs. eapply observes_mono; [apply _| |apply observes_any]. intros [a|e| |] s' [[t Ht] _] _; try done.
  exists t, []. split_and!; [done|apply sublist_nil_l|done].
Qed.

Lemma does_pret {A} (a : A) (D : A -> list SafetyEvent -> Prop) : D a [] -> does (pret a) D.
Proof.
  intros HD s Hs s1 [[t Ht] _]. exists t, []. split_and!; [done|apply sublist_nil_l|done].
Qed.

Lemma does_throw {A} e (D : A -> list SafetyEvent -> Prop) : does (Done (Thrown e)) D.
Proof. by intros s Hs s1 Hs1. Qed.

Lemma does_bind {A X} (p : Rt (B := B) A) (k : A -> Rt X) D (Z : X -> list SafetyEvent -> Prop) :
  does p D -> (forall a l1, D a l1 -> does (k a) (fun b l2 => Z b (l1 ++ l2))) -> does (pbind p k) Z.
Proof.
  intros Hp Hk s Hs. apply observes_bind; [apply _|]. eapply observes_mono; [apply _| |by apply Hp].
  intros [a|e| |] s1 Hs1; try done. intros (t & l & Ht & Hl & HD).
  eapply observes_mono; [apply _| |apply (Hk a l HD); etrans; [exact Hs|apply Hs1]].
  intros [b|e| |] s2 _; try done. intros (t' & l' & Ht' & Hl' & HK).
  exists (t ++ t'), (l ++ l'). split_and!; [by rewrite Ht', Ht, app_assoc|by apply sublist_app|done].
Qed.

(** Whatever a program does, none of it need be looked at. *)
Lemma does_nothing {A} (p : Rt (B := B) A) : does p (fun _ l => l = []).
Proof.
  intros s Hs. eapply observes_mono; [apply _| |by apply (does_any p)].
  intros [a|e| |] s' _; try done. intros (t & l & ? & _). exists t, [].
  split_and!; [done|apply sublist_nil_l|done].
Qed.

(** What comes before, or after, may do what it likes. *)
Lemma does_skip {A X} (p : Rt (B := B) A) (k : A -> Rt X) (Z : X -> list SafetyEvent -> Prop) :
  (forall a, does (k a) Z) -> does (pbind p k) Z.
Proof.
  intros Hk. apply (does_bind _ _ _ _ (does_nothing p)). intros a l ->. apply Hk.
Qed.

Lemma does_then {A X} (p : Rt (B := B) A) (k : A -> Rt X) (P : list SafetyEvent -> Prop) :
  does p (fun _ => P) -> does (pbind p k) (fun _ => P).
Proof.
  intros Hp. apply (does_bind _ _ _ _ Hp). intros a l1 H1.
  eapply does_mono; [|apply does_nothing]. intros b l ->. by rewrite app_nil_r.
Qed.

Lemma does_catch {A} (p : Rt (B := B) A) h D :
  does p D -> (forall e, does (h e) D) -> does (pcatch p h) D.
Proof.
  intros Hp Hh s Hs. apply observes_catch; [apply _|]. eapply observes_mono; [apply _| |by apply Hp].
  intros [a|e| |] s1 Hs1; try done. intros _.
  eapply observes_mono; [apply _| |apply (Hh e); etrans; [exact Hs|apply Hs1]].
  intros [a|e'| |] s2 _; try done. intros (t & l & Ht & Hl & HD). destruct Hs1 as [[t' Ht'] _].
  exists (t' ++ t), l. split_and!; [by rewrite Ht, Ht', app_assoc|by apply sublist_inserts_l|done].
Qed.

Lemma does_finally {A} (p : Rt (B := B) A) release D : does p D -> does (pfinally p release) D.
Proof.
  intros Hp s Hs. specialize (Hp s Hs). revert Hp. generalize s at 2 4 as s1. revert s Hs.
  intros s _ s1. revert s1. induction p as [[a|e| |]|X g f k IH]; intros s1 Hp; cbn [pfinally];
    try (by intros s2 Hs2).
  - intros s2 Hs2 _ Hf s3 Hs3. cbn [fst snd] in *. apply (deed_moves D s (Returned a) s2); [by etrans|by apply Hp].
  - intros s2 Hs2 Hg Hf. apply IH. by apply Hp.
Qed.

Lemma does_command {A} who (p : Rt (B := B) A) D : does p D -> does (with_command who p) D.
Proof. intros Hp. unfold with_command. apply does_skip. intros []. by apply does_finally. Qed.

Lemma does_lifecycle {A} who (p : Rt (B := B) A) D : does p D -> does (with_lifecycle who p) D.
Proof. intros Hp. unfold with_lifecycle. apply does_skip. intros []. by apply does_finally. Qed.

Lemma does_read {A} (f : Safety B -> A) (D : A -> list SafetyEvent -> Prop) :
  (forall s, layout s0 s -> D (f s) []) -> does (read f) D.
Proof.
  intros HD s Hs. apply observes_act. intros s1 s2 Hs1 _ [[t2 Ht2] _]. destruct Hs1 as [[t1 Ht1] Hy].
  exists (t1 ++ t2), []. cbn [fst snd] in *. split_and!;
    [by rewrite Ht2, Ht1, app_assoc|apply sublist_nil_l|apply HD; by etrans].
Qed.

Lemma does_bk {X} (c : BackendCall X) : does (bk c) (fun x l => answered c (eq x) l).
Proof.
  intros s Hs. apply observes_act. intros s1 s2 [[t1 Ht1] _] _ [[t2 Ht2] _].
  destruct (bk_call X c (rt_backend s1)) as [x b]. cbn [fst snd] in *.
  set (e := EvCall (state_ (rt_core s1)) (rt_command_lock s1) X c x) in *.
  exists (t1 ++ [e] ++ t2), [e]. split_and!.
  - rewrite Ht2. cbn. by rewrite Ht1, <- !app_assoc.
  - apply sublist_inserts_l, sublist_inserts_r. done.
  - eexists _, _, x. split; [apply list_elem_of_singleton; reflexivity|done].
Qed.

Lemma does_fold {A X} (xs : list X) (step : A -> X -> Rt (B := B) A) (a : A)
    (I : list X -> A -> list SafetyEvent -> Prop) :
  I [] a [] ->
  (forall seen a x l1, I seen a l1 -> does (step a x) (fun b l2 => I (seen ++ [x]) b (l1 ++ l2))) ->
  does (pfold xs step a) (I xs).
Proof.
  intros H0 Hs. assert (Hgen : forall rest seen a l0, I seen a l0 ->
    does (pfold rest step a) (fun b l => I (seen ++ rest) b (l0 ++ l))).
  { intros rest. induction rest as [|x rest IH]; intros seen a' l0 Ha; cbn [pfold].
    - apply does_pret. by rewrite !app_nil_r.
    - apply (does_bind _ _ _ _ (Hs seen a' x l0 Ha)). intros b l1 Hb.
      eapply does_mono; [|by apply (IH (seen ++ [x]) b (l0 ++ l1))].
      intros c l2. by rewrite <- !app_assoc. }
  exact (Hgen xs [] a [] H0).
Qed.

(** Two jobs at once: both have done what they do, in some order. *)
Lemma does_sides {A} active (job : Z -> Rt (B := B) A) (K : Z -> A -> list SafetyEvent -> Prop) :
  (forall side a l l', l `sublist_of` l' -> K side a l -> K side a l') ->
  (forall side, does (job side) (K side)) ->
  does (run_active_sides active job) (fun r l =>
    forall side, side ∈ both_sides -> active_side active side = true ->
      exists a, (if side =? 0 then r.1 else r.2) = Some a /\ K side a l).
Proof.
  intros HK Hj. unfold run_active_sides.
  destruct (active_side active 0) eqn:E0, (active_side active 1) eqn:E1.
  - intros s Hs. apply observes_bind; [apply _|]. eapply observes_mono; [apply _| |
      apply (observes_par _ _ _ _ (deed (K 0) s) (deed (K 1) s));
        [intros; by eapply deed_moves..|by apply Hj|by apply Hj]].
    intros [[[a|e| |] [b|e'| |]]|e| |] s1 _; cbn; try done.
    intros [(t & l0 & Ht & Hl0 & H0) (t' & l1 & Ht' & Hl1 & H1)] s2 [[t2 Ht2] _].
    assert (t' = t) as -> by (rewrite Ht in Ht'; by apply app_inv_head in Ht').
    exists (t ++ t2), t. split_and!; [by rewrite Ht2, Ht, app_assoc|by apply sublist_inserts_r|].
    intros side [->|[->|[]%elem_of_nil]%elem_of_cons]%elem_of_cons _; eexists; (split; [reflexivity|]).
    + exact (HK _ _ _ _ Hl0 H0).
    + exact (HK _ _ _ _ Hl1 H1).
  - apply (does_bind _ _ _ _ (Hj 0)). intros a l1 Ha. apply does_pret. rewrite app_nil_r.
    intros side [->|[->|[]%elem_of_nil]%elem_of_cons]%elem_of_cons; [|by rewrite E1].
    intros _. by exists a.
  - apply (does_bind _ _ _ _ (Hj 1)). intros a l1 Ha. apply does_pret. rewrite app_nil_r.
    intros side [->|[->|[]%elem_of_nil]%elem_of_cons]%elem_of_cons; [by rewrite E0|].
    intros _. by exists a.
  - apply does_pret.
    intros side [->|[->|[]%elem_of_nil]%elem_of_cons]%elem_of_cons; [by rewrite E0|by rewrite E1].
Qed.

(** *** Asking the motors *)

Lemma answered_mono {X} (c : BackendCall X) (P P' : X -> Prop) l l' :
  l `sublist_of` l' -> (forall x, P x -> P' x) -> answered c P l -> answered c P' l'.
Proof.
  intros Hl HP (st & holder & x & Hin & Hx). exists st, holder, x. split; [|auto].
  by eapply sublist_subseteq.
Qed.

Lemma frame_sent_mono m l l' : l `sublist_of` l' -> frame_sent m l -> frame_sent m l'.
Proof. intros Hl. by apply (answered_mono _ _ _ _ _ Hl). Qed.

Lemma reported_mono age m l l' :
  l `sublist_of` l' -> reported_disabled age m l -> reported_disabled age m l'.
Proof.
  intros Hl [H1 H2]. split; by apply (answered_mono _ _ _ _ _ Hl (fun _ H => H)).
Qed.

Lemma does_stats motor : does (fetch_stats motor) (fun r l => forall st, r = Some st ->
  answered (Bk_get_feedback_stats motor)
    (fun x => fst x = 0 /\ afs_has_feedback (snd x) = true /\ snd x = st) l).
Proof.
  unfold fetch_stats. apply (does_bind _ _ _ _ (does_bk _)). intros a l1 Ha. apply does_pret.
  intros st. rewrite app_nil_r. destruct (_ && _) eqn:E; [|done]. intros [= <-].
  apply andb_true_iff in E as [E1%Z.eqb_eq E2]. eapply answered_mono; [reflexivity| |exact Ha].
  by intros x <-.
Qed.

Lemma does_state motor : does (fetch_state motor) (fun r l => forall st, r = Some st ->
  answered (Bk_get_state motor)
    (fun x => fst x = 0 /\ ams_has_value (snd x) = true /\ snd x = st) l).
Proof.
  unfold fetch_state. apply (does_bind _ _ _ _ (does_bk _)). intros a l1 Ha. apply does_pret.
  intros st. rewrite app_nil_r. destruct (_ && _) eqn:E; [|done]. intros [= <-].
  apply andb_true_iff in E as [E1%Z.eqb_eq E2]. eapply answered_mono; [reflexivity| |exact Ha].
  by intros x <-.
Qed.

(** *** Disabling *)

Notation age := (feedback_max_age_ns (rt_config s0)).

Lemma confirmed_motor complete missing m stats state :
  unconfirmed_motor complete missing age m stats state = false ->
  exists st v, stats = Some st /\ state = Some v /\ afs_age_ns st <= age /\ ams_status_code v = 0.
Proof.
  unfold unconfirmed_motor. destruct (_ && _); [done|]. destruct stats as [st|], state as [v|]; try done.
  intros [[_ Ha]%orb_false_iff Hv]%orb_false_iff. exists st, v. apply Z.ltb_ge in Ha.
  apply negb_false_iff, Z.eqb_eq in Hv. auto.
Qed.

Lemma does_check_target complete missing ms m :
  does (check_target complete missing ms m) (fun r l =>
    r = ms ++ [m] \/ (r = ms /\ reported_disabled age m l)).
Proof.
  unfold check_target. apply (does_bind _ _ _ _ (does_stats _)). intros stats l1 H1.
  apply (does_bind _ _ _ _ (does_state _)). intros state l2 H2.
  apply (does_bind _ _ (fun a e => a = age /\ e = [])).
  { apply does_read. intros s Hy. by pose proof (ly_fixed _ _ Hy) as [= _ Ha]. }
  intros a l3 [-> ->]. apply does_pret. rewrite !app_nil_r.
  destruct (unconfirmed_motor _ _ _ _ _ _) eqn:E; [by left|right]. split; [done|].
  apply confirmed_motor in E as (st & v & -> & -> & Ha & Hv). split.
  - eapply answered_mono; [apply sublist_inserts_r; reflexivity| |by apply (H1 st)].
    by intros x (? & ? & <-).
  - eapply answered_mono; [apply sublist_inserts_l; reflexivity| |by apply (H2 v)].
    by intros x (? & ? & <-).
Qed.

Definition reported (ms : list MotorRecord) l : Prop := Forall (fun m => reported_disabled age m l) ms.

Lemma reported_all_mono ms l l' : l `sublist_of` l' -> reported ms l -> reported ms l'.
Proof. intros Hl Hr. eapply Forall_impl; [exact Hr|]. intros m. by apply reported_mono. Qed.

Lemma does_collect targets complete missing :
  does (collect_unconfirmed targets complete missing) (fun r l => r = [] -> reported targets l).
Proof.
  unfold collect_unconfirmed.
  apply (does_fold targets _ _ (fun seen r l => r = [] -> reported seen l)).
  { intros _. constructor. }
  intros seen r m l1 H1. eapply does_mono; [|apply does_check_target].
  intros r' l2 [->|[-> Hm]] Hr; [by apply app_nil in Hr as [_ ?]|].
  apply Forall_app. split; [|constructor; [|constructor]].
  - eapply reported_all_mono; [apply sublist_inserts_r; reflexivity|auto].
  - eapply reported_mono; [apply sublist_inserts_l; reflexivity|done].
Qed.

Lemma does_confirm_rounds fuel targets deadline e :
  does (confirm_rounds fuel targets deadline e) (fun r l => r.1 = [] -> reported targets l).
Proof.
  revert e. induction fuel as [|fuel IH]; intros e; cbn [confirm_rounds]; [by intros s Hs s1 _|].
  apply does_skip. intros now. apply does_skip. intros [[complete missing] request_error].
  apply (does_bind _ _ _ _ (does_collect _ _ _)). intros [|m rest] l1 H1.
  { apply does_pret. intros _. rewrite app_nil_r. by apply H1. }
  apply does_skip. intros _. apply does_skip. intros now'. destruct (now' <? deadline).
  - eapply does_mono; [|apply IH]. intros r l2 H2 Hr.
    eapply reported_all_mono; [apply sublist_inserts_l; reflexivity|auto].
  - by apply does_pret.
Qed.

Lemma does_confirm targets e :
  does (confirm_disabled targets e) (fun c l => cf_unconfirmed c = [] -> reported targets l).
Proof.
  assert (Hc : does (confirm_until_deadline targets) (fun r l => r.1 = [] -> reported targets l)).
  { unfold confirm_until_deadline. apply does_skip. intros timeout. apply does_skip. intros now.
    apply does_confirm_rounds. }
  unfold confirm_disabled. apply (does_bind _ _ _ _ Hc). intros [[|m rest] e1] l1 H1; cbn [fst snd] in *.
  { apply does_pret. intros _. rewrite app_nil_r. by apply H1. }
  apply does_skip. intros retried. apply (does_bind _ _ _ _ Hc). intros [final e2] l2 H2. cbn [fst snd] in *.
  apply (does_bind _ _ (fun u _ => u = [] -> final = [])).
  { apply (does_fold final _ _ (fun seen u _ => u = [] -> seen = [])); [done|].
    intros seen u m' l3 _. unfold name_unconfirmed. apply does_skip. intros state. apply does_pret.
    by intros [_ ?]%app_nil. }
  intros [|x u] l3 H3; apply does_pret; [|done]. intros _. rewrite app_nil_r.
  eapply reported_all_mono; [apply sublist_inserts_l, sublist_inserts_r; reflexivity|]. auto.
Qed.

(** The motors that are read are the motors of the start. *)
Lemma does_motors : does (read rt_motors) (fun ms l => Forall2 kept (rt_motors s0) ms /\ l = []).
Proof. apply does_read. intros s Hy. split; [apply Hy|done]. Qed.

Lemma kept_elem (P : handle -> Z -> Prop) ms :
  Forall2 kept (rt_motors s0) ms -> (forall m, m ∈ ms -> P (motor_of m) (side_of m)) ->
  forall m, m ∈ rt_motors s0 -> P (motor_of m) (side_of m).
Proof.
  intros Hk HP m [i Hi]%list_elem_of_lookup.
  destruct (Forall2_lookup_l _ _ _ _ _ Hk Hi) as (m' & Hi' & [Hid _ _]).
  unfold motor_identity in Hid. injection Hid as <- <- _ _. apply HP.
  by eapply list_elem_of_lookup_2.
Qed.

Lemma does_send targets e :
  does (send_disable_parallel targets e)
    (fun _ l => forall m, m ∈ targets -> on_active_side s0 m -> frame_sent m l).
Proof.
  unfold send_disable_parallel.
  apply (does_bind _ _ (fun a l => a = rt_active_sides s0 /\ l = [])).
  { apply does_read. intros s Hy. by pose proof (ly_fixed _ _ Hy) as [= Ha _]. }
  intros active l0 [-> ->]. apply does_then.
  eapply does_mono; [|apply (does_sides _ _ (fun side _ l =>
    forall m, m ∈ side_motors targets side -> frame_sent m l))].
  - intros r l Hl m Hm [Hs Ha]. destruct (Hl _ Hs Ha) as (a & _ & Hf). apply Hf.
    unfold side_motors. rewrite list_elem_of_In, List.filter_In, <- list_elem_of_In.
    by rewrite Z.eqb_refl.
  - intros side a l l' Hl Hf m Hm. by eapply frame_sent_mono; [|apply Hf].
  - intros side. eapply does_mono; [|apply (does_fold _ _ _ (fun seen _ l =>
      forall m, m ∈ seen -> frame_sent m l))]; [done|by intros m ?%elem_of_nil|].
    intros seen r m l1 H1. unfold disable_one. apply (does_bind _ _ _ _ (does_bk _)).
    intros rc l2 H2. eapply does_mono with (D := fun _ l => l = []); [|apply does_nothing].
    intros r' l -> m' [Hm| ->%list_elem_of_singleton]%elem_of_app; rewrite app_nil_r.
    + eapply frame_sent_mono; [apply sublist_inserts_r; reflexivity|auto].
    + eapply answered_mono; [apply sublist_inserts_l; reflexivity| |exact H2]. done.
Qed.

Lemma does_disable_locked e :
  does (disable_locked true false e) (fun r l => r.1.1.1 = true -> all_disabled s0 l).
Proof.
  unfold disable_locked. apply does_skip. intros barrier. cbv zeta.
  apply (does_bind _ _ _ _ does_motors). intros ms l0 [Hms ->].
  assert (Hall : List.filter (fun m => negb (false && is_gripper m)) ms = ms)
    by (clear; induction ms as [|m ms IH]; [done|exact (f_equal (cons m) IH)]).
  cbv beta. rewrite Hall. apply (does_bind _ _ _ _ (does_send _ _)). intros sent l1 H1.
  apply (does_bind _ _ _ _ (does_confirm _ _)). intros c l2 H2. apply does_skip. intros _.
  apply does_pret. cbn [fst]. intros [_ Hc]%andb_true_iff. rewrite app_nil_r.
  exists l1, l2. split_and!; [done| |].
  - intros m Hm. unfold on_active_side. revert m Hm.
    apply (kept_elem (fun h side => side ∈ both_sides /\ active_side (rt_active_sides s0) side = true ->
      answered (Bk_disable_motor h) (fun _ => True) l1) ms Hms). intros m Hm Hs. by apply H1.
  - apply Nat.eqb_eq, nil_length_inv in Hc. specialize (H2 Hc). unfold reported in H2.
    rewrite Forall_forall in H2. exact (kept_elem (fun h _ =>
      answered (Bk_get_feedback_stats h) _ l2 /\ answered (Bk_get_state h) _ l2) ms Hms H2).
Qed.

Lemma does_disable_hardware who :
  does (disable_hardware who true false) (fun r l => r.1 = true -> all_disabled s0 l).
Proof.
  unfold disable_hardware. apply does_skip. intros held. cbv zeta. rewrite andb_false_l.
  apply (does_bind _ _ _ _ (does_command _ _ _ (does_disable_locked _))).
  intros [[[ok barrier] sent] c] l Hl. apply does_skip. intros _. apply does_pret. by rewrite app_nil_r.
Qed.

Lemma does_disable who : does (disable who) (fun _ l => all_disabled s0 l).
Proof.
  unfold disable. apply does_lifecycle. apply does_skip. intros begun. apply does_skip. intros p.
  apply (does_bind _ _ _ _ (does_disable_hardware who)). intros [ok text] l Hl.
  apply does_skip. intros fault. apply does_skip. intros _. destruct ok; [|apply does_throw].
  apply does_pret. rewrite app_nil_r. by apply Hl.
Qed.

(** *** Clearing the faults *)

Definition cleared (ms : list MotorRecord) l : Prop :=
  forall m, m ∈ ms -> answered (Bk_clear_error (motor_of m)) (fun rc => rc = 0) l.

Lemma cleared_mono ms l l' : l `sublist_of` l' -> cleared ms l -> cleared ms l'.
Proof. intros Hl Hc m Hm. by apply (answered_mono _ _ _ _ _ Hl (fun _ H => H)), Hc. Qed.

Lemma does_clear_side ms :
  does (pfold ms clear_one []) (fun r l => r = [] -> cleared ms l).
Proof.
  apply (does_fold ms _ _ (fun seen r l => r = [] -> cleared seen l)); [by intros _ m ?%elem_of_nil|].
  intros seen r m l1 H1. unfold clear_one. apply (does_bind _ _ _ _ (does_bk _)). intros rc l2 H2.
  destruct (Z.eqb_spec rc 0) as [->|].
  - apply does_pret. rewrite app_nil_r. intros Hr m' [Hm| ->%list_elem_of_singleton]%elem_of_app.
    + eapply cleared_mono; [apply sublist_inserts_r; reflexivity|by apply H1|done].
    + eapply answered_mono; [apply sublist_inserts_l; reflexivity| |exact H2]. by intros x <-.
  - apply does_skip. intros e. apply does_pret. by intros [_ ?]%app_nil.
Qed.

Lemma does_clear : does clear_motor_faults (fun r l => r = [] -> all_cleared s0 l).
Proof.
  unfold clear_motor_faults. apply (does_bind _ _ (fun (p : list MotorRecord * list bool) l =>
    (Forall2 kept (rt_motors s0) p.1 /\ p.2 = rt_active_sides s0) /\ l = [])).
  { apply does_read. intros s Hy. pose proof (ly_fixed _ _ Hy) as [= Ha _].
    split_and!; [apply Hy|exact Ha|done]. }
  intros [ms active] l0 [[Hms Ha] ->]. cbn [fst snd] in *. subst active.
  apply (does_bind _ _ (fun r l => forall side, side ∈ both_sides ->
    active_side (rt_active_sides s0) side = true ->
    exists a, (if side =? 0 then r.1 else r.2) = Some a /\ (a = [] -> cleared (side_motors ms side) l))).
  { apply (does_sides _ _ (fun side (a : list (string * string)) l => a = [] -> cleared (side_motors ms side) l)).
    - intros side a l l' Hl Hf Hr. by eapply cleared_mono; [|apply Hf].
    - intros side. apply does_clear_side. }
  intros r l1 H1. apply does_pret. intros [Hr0 Hr1]%app_nil m Hm [Hs Hact]. rewrite app_nil_r.
  revert m Hm Hs Hact. assert (Hcl : forall m, m ∈ ms -> side_of m ∈ both_sides ->
    active_side (rt_active_sides s0) (side_of m) = true ->
    answered (Bk_clear_error (motor_of m)) (fun rc => rc = 0) l1).
  { intros m Hm Hs Hact. destruct (H1 _ Hs Hact) as (a & Hra & Hc). apply Hc.
    - destruct (side_of m =? 0); [by rewrite Hra in Hr0|by rewrite Hra in Hr1].
    - unfold side_motors. rewrite list_elem_of_In, List.filter_In, <- list_elem_of_In.
      by rewrite Z.eqb_refl. }
  exact (kept_elem (fun h side => side ∈ both_sides -> active_side (rt_active_sides s0) side = true ->
    answered (Bk_clear_error h) (fun rc => rc = 0) l1) ms Hms Hcl).
Qed.

(** *** Recovering *)

Lemma does_fail {A} who stage code error failed :
  does (fail_recovery (A := A) who stage code error failed) (fun _ _ => False).
Proof. unfold fail_recovery. repeat (apply does_skip; intros ?). apply does_throw. Qed.

Lemma does_recover_motors who :
  does (recover_motors who) (fun _ l => exists l1 l2, l = l1 ++ l2 /\ all_disabled s0 l1 /\ all_cleared s0 l2).
Proof.
  unfold recover_motors. apply does_skip. intros motors. cbv zeta.
  apply (does_bind _ _ _ _ (does_disable_hardware who)). intros [ok text] l1 H1. cbn [fst snd] in *.
  apply (does_bind _ _ (fun _ l => ok = true /\ l = [])).
  { destruct ok; [by apply does_pret|]. eapply does_mono; [|apply does_fail]. done. }
  intros _ l0 [Hok ->]. specialize (H1 Hok). apply does_skip. intros _. apply does_skip. intros can.
  apply does_skip. intros _. apply (does_bind _ _ _ _ does_clear). intros uncleared l2 H2.
  apply (does_bind _ _ (fun _ l => uncleared = [] /\ l = [])).
  { destruct uncleared; [by apply does_pret|]. eapply does_mono; [|apply does_fail]. done. }
  intros _ l0 [Hun ->]. eapply does_mono; [|apply does_nothing]. intros d l ->. rewrite !app_nil_r.
  exists l1, l2. auto.
Qed.

Lemma does_recover who :
  does (recover_body who) (fun _ l => exists l1 l2 l3, l = l1 ++ l2 ++ l3 /\
    all_disabled s0 l1 /\ all_cleared s0 l2 /\ all_disabled s0 l3).
Proof.
  unfold recover_body. apply does_skip. intros begun. apply does_skip. intros first.
  apply does_skip. intros motors. cbv zeta. do 3 (apply does_skip; intros _).
  apply (does_bind _ _ _ _ (does_recover_motors who)). intros distance l (l1 & l2 & -> & H1 & H2).
  apply does_skip. intros _. apply does_skip. intros mode. do 2 (apply does_skip; intros _).
  apply (does_bind _ _ (fun _ l => all_disabled s0 l)).
  { apply does_catch; [apply does_disable|]. intros e. eapply does_mono; [|apply does_fail]. done. }
  intros _ l3 H3. eapply does_mono; [|apply does_nothing]. intros _ l0 ->. rewrite !app_nil_r.
  exists l1, l2, l3. by rewrite <- app_assoc.
Qed.

End Deeds.

(** What is seen of every run within the discipline. *)
Lemma recover_observed {B} `{!MotorBackend B} {rec : Recoverable} who (s : Safety B) Q :
  wp (rely who) (guarantee who) (recover_body who) Q s ->
  wp (rely who) (guarantee who) (recover_body who)
    (fun o s' => Q o s' /\ forall u, o = Returned u -> recovery_deeds s s') s.
Proof.
  intros Hwp. pose proof (does_recover s who s ltac:(reflexivity)) as Hseen.
  eapply wp_mono; [|eapply (wp_observes moves); [| |exact Hwp|exact Hseen]].
  - intros o s' [HQ Hd]. split; [done|]. intros u ->.
    destruct Hd as (t & l & Ht & Hl & l1 & l2 & l3 & -> & H1 & H2 & H3). by exists t, l1, l2, l3.
  - intros a b Hr. split; [apply Hr|apply Hr].
  - intros a b HG. destruct (g_trace _ _ _ HG) as (l & Hl & _). split; [by exists l|apply HG].
Qed.
