(* ===== verification/SafetyApi.v ===== *)
(** * The clients of the runtime

    The operations of the API as one type, [ApiCall], with what each of them
    runs, and for each of them that it keeps the discipline. *)

From Stdlib Require Import String.
From S2P Require Import Prelude Float32 Float64 PvShaping RuntimeTypes Threads NativeTypes Trajectory SafetyState Motions Gripper Safety Feedback Disable Faults Commands Planning JointPosition Enable Lifecycle Construct Maintenance Power Recover TrajectoryCycle Completion Gravity ArmCycle SafetyWorker SafetyLaws SafetyActions MotionActions LifecycleActions SafetyDiscipline SafetyThreads SafetyLifecycle SafetyMotion SafetyRecovery.
#[local] Open Scope mdl_scope.
#[local] Open Scope thread_scope.

(** The operations a client may call. *)
Inductive ApiCall :=
| CallConnect | CallEnable (mode : ControlMode) | CallDisable | CallEstop | CallClose
| CallConfigureMode (mode : ControlMode) | CallConfigureModeForConnect (mode : ControlMode)
| CallSetZero | CallClearFaults
| CallConfigureJoints (l : list ArticoreJointControlConfig)
| CallConfigureLimits (l : list ArticoreJointSafetyLimits)
| CallConfigureGrippers (l : list ArticoreGripperProductBinding)
| CallConfigureForce (l : list ArticoreGripperForceProfile)
| CallConfigureGravity (l : list ArticoreGravityProductBinding)
| CallConfigureIdentities (l : list ArticoreMotorIdentity)
| CallDeclarePresence (role : string) (p : ArticorePresenceState)
| CallSubmitPv (l : list ArticorePosVelCommand) (lifetime : ArticoreCommandLifetime)
| CallSubmitMit (l : list ArticoreMitCommand) (lifetime : ArticoreCommandLifetime)
| CallSubmitGripperMit (l : list ArticoreMitCommand)
| CallSetGrippers (l : list ArticoreGripperCommand) (mode : ArticoreGripperMode)
| CallSetOpenings (l : list ArticoreGripperTarget)
| CallBeginPlanning (allow_trajectory : bool) | CallCancelPlanning (token : Z)
| CallCancelMotion (motion_id : Z) | CallCancelAllMotions
| CallStartGravity (config : option Z) | CallStopGravity
| CallStartFollow (leader_side : Z) | CallStopFollow
| CallReportFeedbackFailure (side : Z) (reason : string)
| CallRecover
| CallMotorPowerState (role : string)
| CallSetMotorPower (role : string) (enabled : bool)
| CallSetMotorPowerBatch (roles : list string) (enabled : bool)
| CallStartTrajectory (rq : NativeTrajectoryRequest) (replace_id : Z) (enqueue : bool) (token : Z)
| CallSetJointMit (l : list ArticoreJointTarget) (velocity : f32)
| CallSetJointMitDirect (l : list ArticoreJointTarget)
| CallSetJointPv (l : list ArticoreJointTarget) (velocity acceleration limit : f32)
| CallSetJointPvProfile (l : list ArticoreJointTarget) (velocities accelerations : list f32)
| CallSetJointMitSpeed (l : list ArticoreJointTarget) (percent : f32)
| CallSetJointPvSpeed (l : list ArticoreJointTarget) (percent : f32)
| CallUpdatePvMotionLimits (velocity acceleration limit : f32)
| CallUpdatePvProfileLimits (velocities accelerations : list f32).

Section Api.
Context {B : Type} `{!MotorBackend B} `{!ArmDynamics}.

Definition discard {A} (p : Rt (B := B) A) : Rt unit := p ;;; pret tt.

Definition api_call (who : nat) (c : ApiCall) : Rt (B := B) unit :=
  match c with
  | CallConnect => connect who
  | CallEnable mode => enable who mode
  | CallDisable => disable who
  | CallEstop => estop who
  | CallClose => close who
  | CallConfigureMode mode => discard (configure_mode who mode)
  | CallConfigureModeForConnect mode => discard (configure_mode_for_connect who mode)
  | CallSetZero => discard (set_zero who)
  | CallClearFaults => discard (clear_faults who)
  | CallConfigureJoints l => configure_joints l
  | CallConfigureLimits l => configure_joint_safety_limits l
  | CallConfigureGrippers l => configure_gripper_products who l
  | CallConfigureForce l => configure_gripper_force_profiles who l
  | CallConfigureGravity l => configure_gravity_products who l
  | CallConfigureIdentities l => configure_motor_identities who l
  | CallDeclarePresence role p => declare_motor_presence role p
  | CallSubmitPv l lifetime => submit_pos_vel_ex l lifetime
  | CallSubmitMit l lifetime => submit_mit_ex l lifetime
  | CallSubmitGripperMit l => submit_gripper_mit who l
  | CallSetGrippers l mode => set_gripper_commands who l mode
  | CallSetOpenings l => set_gripper_openings who l
  | CallBeginPlanning allow => discard (begin_command_planning allow)
  | CallCancelPlanning token => cancel_command_planning token
  | CallCancelMotion id => cancel_motion who id
  | CallCancelAllMotions => cancel_all_motions who
  | CallStartGravity config => start_gravity_compensation who config
  | CallStopGravity => stop_gravity_compensation who
  | CallStartFollow side => start_bimanual_follow who side
  | CallStopFollow => stop_bimanual_follow who
  | CallReportFeedbackFailure side reason => report_feedback_failure side reason
  | CallRecover => recover who
  | CallMotorPowerState role => discard (motor_power_state who role)
  | CallSetMotorPower role enabled => discard (set_motor_power who role enabled)
  | CallSetMotorPowerBatch roles enabled => discard (set_motor_power_batch who roles enabled)
  | CallStartTrajectory rq replace_id enqueue token =>
      discard (start_trajectory who rq replace_id false enqueue token)
  | CallSetJointMit l velocity => set_joint_mit who l velocity
  | CallSetJointMitDirect l => set_joint_mit_direct who l
  | CallSetJointPv l velocity acceleration limit => set_joint_pv who l velocity acceleration limit
  | CallSetJointPvProfile l velocities accelerations =>
      set_joint_pv_profile who l velocities accelerations
  | CallSetJointMitSpeed l percent => set_joint_mit_speed who l percent
  | CallSetJointPvSpeed l percent => set_joint_pv_speed who l percent
  | CallUpdatePvMotionLimits velocity acceleration limit =>
      update_joint_pv_motion_limits who velocity acceleration limit
  | CallUpdatePvProfileLimits velocities accelerations =>
      update_joint_pv_profile_limits who velocities accelerations
  end.

(** Whether a call may take an emergency stop back. *)
Definition recovers (c : ApiCall) : bool := match c with CallRecover => true | _ => false end.

End Api.

(** ** Without the lifecycle mutex *)

Section Plain.
Context {B : Type} `{!MotorBackend B} `{!ArmDynamics} {rec : Recoverable}.
Context (i : nat) (l : nat) (P : SafetyCore -> Prop) `{!Steady P} (Hi : i <> 0%nat).
Local Notation keep p := (keeps i false l P p).

Lemma keeps_client {A} c (p : Rt (B := B) A) :
  acts (rt_step client_edges c) p -> keeps i c l P p.
Proof. apply keeps_acts; [done|]. by apply fits_client. Qed.

Lemma keeps_hold_from_feedback reason : keep (enter_safe_hold_from_feedback (B := B) i reason).
Proof. unfold enter_safe_hold_from_feedback. keep_tac. apply keeps_client, acts_install_capture. Qed.

Lemma keeps_submit_gripper_mit commands : keep (submit_gripper_mit (B := B) i commands).
Proof.
  pose proof keeps_hold_from_feedback. unfold submit_gripper_mit. keep_tac.
Qed.

(** *** Gripper targets *)

(** The levels that were checked against the motors. *)
Definition levels_checked (v : list ValidatedGripper) (motors : list MotorRecord) : Prop :=
  profiled motors /\ Forall (fun x => level_known (vg_motor x) (vg_force_level x) motors) v.

Lemma levels_checked_kept v x y :
  Forall2 kept x y -> levels_checked v x -> levels_checked v y.
Proof.
  intros Hk [Hp Hv]. split; [by eapply kept_profiled|]. eapply Forall_impl; [exact Hv|].
  intros g. apply level_kept; [done|apply Hp].
Qed.

Lemma validate_gripper_known motors seen c v :
  NoDup (map motor_of motors) -> validate_gripper motors seen c = Some v ->
  level_known (vg_motor v) (vg_force_level v) motors.
Proof.
  intros Hn. unfold validate_gripper. destruct (find_gripper motors (gcmd_motor c)) as [m|] eqn:Hf;
    [|done].
  case_match eqn:Hc; [done|]. intros [= <-]. cbn. repeat rewrite orb_false_iff in Hc.
  destruct Hc as [_ Hl%bool_decide_eq_false]. intros m' Hin He Hg.
  apply find_some in Hf as [Hm [_ Hh%bool_decide_eq_true]%andb_prop].
  apply list_elem_of_In, list_elem_of_lookup in Hm as [j Hj].
  apply list_elem_of_lookup in Hin as [k Hk].
  assert (j = k) as ->.
  { eapply (NoDup_lookup _ j k (gcmd_motor c)); [exact Hn|..]; rewrite list_lookup_fmap.
    - rewrite Hj. cbn. congruence.
    - rewrite Hk. cbn. congruence. }
  assert (m' = m) as -> by congruence. unfold levels_of. apply elem_of_dom.
  destruct (force_profiles m !! gcmd_force_level c); [by eexists|done].
Qed.

Lemma validate_grippers_known motors seen commands v :
  profiled motors -> validate_grippers motors seen commands = inr v -> levels_checked v motors.
Proof.
  intros Hp Hv. split; [done|]. revert seen v Hv. destruct Hp as [_ Hn].
  induction commands as [|c commands IH]; intros seen v; cbn [validate_grippers].
  { intros [= <-]. constructor. }
  destruct (validate_gripper motors seen c) as [x|] eqn:Hx; [|done].
  destruct (validate_grippers _ _ commands) as [e|rest] eqn:Hr; [done|]. intros [= <-].
  constructor; [by eapply validate_gripper_known|by eapply IH].
Qed.

Lemma wp_store_targets mode v s :
  stands i true l P s -> levels_checked v (rt_motors s) ->
  wp (rely i) (guarantee i)
    (guarded (require_state_for_command true false 0)
       (fun s : Safety B => (tt, store_targets mode v (rt_clock s) s)))
    (fun o s' => ended o -> stands i true l P s' /\ True) s.
Proof.
  intros Hs Hk. apply wp_act. intros s1 Hr. pose proof (stands_rely _ _ _ _ _ _ Hr Hs) as Hs1.
  pose proof (levels_checked_kept _ _ _ (ly_motors _ _ (r_layout _ _ _ Hr)) Hk) as [Hp1 Hv1].
  assert (Hstep : forall s2, rt_step worker_edges true s1 s2 ->
    guarantee i s1 s2 /\ stands i true l P s2).
  { intros s2 Ha. by apply (stands_step i true l P worker_edges); [apply fits_worker|..]. }
  case_match; cbn [fst snd].
  - destruct (Hstep s1) as [HG Hs2]; [reflexivity|]. split; [done|]. intros s2 Hr2 _.
    split; [by eapply stands_rely|done].
  - destruct (Hstep (store_targets mode v (rt_clock s1) s1)) as [HG Hs2].
    { apply aside_step, aside_store_targets; [apply Hp1|done]. }
    split; [done|]. intros s2 Hr2 _. split; [by eapply stands_rely|done].
Qed.

Lemma keeps_set_grippers commands mode : keep (set_gripper_commands (B := B) i commands mode).
Proof.
  unfold set_gripper_commands. destruct commands as [|c commands]; [by apply keeps_done|].
  intros s Hs. apply wp_act. intros s1 Hr. pose proof (stands_rely _ _ _ _ _ _ Hr Hs) as Hs1.
  split; [by apply (stands_step i false l P worker_edges s1 s1); [apply fits_worker|..]|].
  cbn [fst snd]. case_match; [by apply keeps_done|].
  destruct (validate_grippers _ _ _) as [e|v] eqn:Hv; [by apply (keeps_done _ _ _ _ (Thrown e))|].
  apply validate_grippers_known in Hv; [|apply Hs1]. unfold except, pret. cbn [pbind].
  apply wp_bind; [apply _|]. eapply wp_mono; [|apply wp_frame with
    (K := fun x : Safety B => levels_checked v (rt_motors x)) (Q := fun o x => ended o -> stands i false l P x)].
  - intros o s2 [Hs2 Hk]. destruct o as [[]|e| |]; cbn [after]; [|done..]. specialize (Hs2 I).
    eapply wp_mono; [|apply wp_command with (P := P) (Q := P) (K := levels_checked v)
                        (Post := fun _ => True); try done].
    + intros o s3 Ho He. by apply Ho.
    + intros x y Hxy _. by apply levels_checked_kept.
    + intros s3 Hs3 Hk3. by apply wp_store_targets.
  - intros x y Hxy. apply levels_checked_kept, Hxy.
  - intros x y Hxy. apply levels_checked_kept, Hxy.
  - done.
  - assert (Ha : keep (command_allowed (B := B) true)) by keep_leaf. by apply Ha.
Qed.
Hint Resolve keeps_set_grippers : keeps.

Lemma keeps_set_openings targets : keep (set_gripper_openings (B := B) i targets).
Proof. unfold set_gripper_openings. keep_tac. Qed.

Lemma aside_cancel_motion id (s : Safety B) : aside s (cancel_motion_locked id s).2.
Proof.
  unfold cancel_motion_locked. repeat case_match; simpl; try apply aside_refl;
    try apply aside_terminate. split_and!; try reflexivity. split; try done. apply archive_bound.
Qed.

Lemma acts_cancel_motion id fr : acts (rt_step worker_edges fr) (act (cancel_motion_locked (B := B) id)).
Proof. apply acts_act. intros s. apply aside_step, aside_cancel_motion. Qed.
Hint Resolve acts_cancel_motion : acts.

Lemma keeps_cancel_motion id : keep (cancel_motion (B := B) i id).
Proof. unfold cancel_motion. keep_tac. Qed.

Lemma keeps_cancel_all : keep (cancel_all_motions (B := B) i).
Proof. unfold cancel_all_motions. keep_tac. Qed.

Lemma acts_declare role p fr : acts (rt_step worker_edges fr) (declare_motor_presence (B := B) role p).
Proof.
  assert (Ha : forall s : Safety B, aside s (declare_presence role p s).2).
  { intros s. unfold declare_presence. repeat case_match; simpl; try apply aside_refl; aside_now. }
  unfold declare_motor_presence. rt_tac; apply acts_act; intros; apply aside_step, Ha.
Qed.

Lemma acts_report_failure side reason fr :
  acts (rt_step worker_edges fr) (report_feedback_failure (B := B) side reason).
Proof.
  unfold report_feedback_failure. rt_tac. apply acts_write. intros s. apply aside_step.
  split_and!; try reflexivity. split; [|done..]. intros Hs. etrans; [|exact Hs].
  apply update_side_length.
Qed.

(** *** Before the runtime connects *)

Lemma levels_included m : leveled m -> is_gripper m = true -> levels_of m ⊆ all_levels.
Proof.
  intros Hm Hg. destruct (Hm Hg) as [_ [-> | ->]]; [|done].
  apply singleton_subseteq_l. by vm_compute.
Qed.

(** A gripper with all levels, at the default one. *)
Lemma kept_all m m' :
  motor_identity m' = motor_identity m -> force_level m' = GRIPPER_FORCE_DEFAULT ->
  levels_of m' = all_levels -> kept m m'.
Proof.
  intros Hid Hl Ha. split; [done|unfold leveled; rewrite Hl, Ha|rewrite Ha; apply levels_included].
  intros _ _. split; [by vm_compute|by right].
Qed.

Lemma kept_bind id m : kept m (bind_product kYunyiGripperV1 id m).
Proof. by apply kept_all. Qed.

Definition builtin (pending : list (handle * GripperProductProfile * string)) : Prop :=
  Forall (fun b => b.1.2 = kYunyiGripperV1) pending.

Lemma resolve_builtin motors unique action bindings p :
  resolve_bindings motors unique action bindings = inr p -> builtin p.1.
Proof.
  revert unique action p.
  induction bindings as [|b rest IH]; intros unique action p; cbn [resolve_bindings].
  { intros [= <-]. constructor. }
  destruct (gb_profile_id b) as [id|]; [|done]. case_match; [done|].
  unfold find_builtin_gripper_product_profile. destruct (bool_decide (id = _)); [|done].
  case_match; [done|]. case_match; [done|].
  destruct (resolve_bindings _ _ _ rest) as [e|[pending action']] eqn:Hr; [done|].
  intros [= <-]. constructor; [done|]. by apply IH in Hr.
Qed.

Lemma bind_all_kept pending motors : builtin pending -> Forall2 kept motors (bind_all pending motors).
Proof.
  unfold bind_all. intros Hp. revert motors.
  induction Hp as [|[[motor p] id] pending Hb _ IH]; intros motors; [done|].
  cbn in Hb. subst p. cbn [fold_left fst snd]. etrans; [|apply IH].
  apply kept_update. intros m _ _. apply kept_bind.
Qed.

(** The levels a force profile may be for, and those that were collected. *)
Definition force_levels : gset Z := list_to_set (seqZ GRIPPER_FORCE_MIN 10).

Definition forced (configured : gmap handle (gmap Z GripperForceProfile)) : Prop :=
  forall motor levels, configured !! motor = Some levels -> dom levels ⊆ force_levels.

Lemma collect_forced motors configured profiles configured' :
  forced configured -> collect_profiles motors configured profiles = inr configured' ->
  forced configured'.
Proof.
  revert configured. induction profiles as [|v rest IH]; intros configured Hf;
    cbn [collect_profiles]; [by intros [= <-]|].
  case_match eqn:Hv; [done|]. case_match; [done|]. apply IH.
  intros motor levels [[-> <-]|[_ Hl]]%lookup_insert_Some; [|by eapply Hf].
  rewrite dom_insert. apply union_subseteq. split.
  - apply singleton_subseteq_l. apply negb_false_iff in Hv. unfold force_profile_valid in Hv.
    rewrite !andb_true_iff in Hv.
    unfold force_levels. apply elem_of_list_to_set, elem_of_seqZ.
    unfold GRIPPER_FORCE_MIN, GRIPPER_FORCE_MAX in *. lia.
  - destruct (configured !! motor) as [levels|] eqn:Hc; cbn; [exact (Hf _ _ Hc)|]. rewrite dom_empty_L. set_solver.
Qed.

(** Ten levels between 1 and 10 are all of them. *)
Lemma force_levels_all (levels : gmap Z GripperForceProfile) :
  dom levels ⊆ force_levels -> size levels = kForceLevelCount -> dom levels = force_levels.
Proof.
  intros Hs Hn. apply leibniz_equiv. apply set_subseteq_size_equiv; [done|].
  rewrite size_dom, Hn. by vm_compute.
Qed.

Lemma kept_install levels m :
  dom levels ⊆ force_levels -> size levels = kForceLevelCount ->
  kept m (m <| force_profiles :=
             match levels !! GRIPPER_STRENGTH_MIN with
             | Some _ => levels
             | None => <[GRIPPER_STRENGTH_MIN := minimum_strength]> levels
             end |> <| force_level := GRIPPER_FORCE_DEFAULT |>).
Proof.
  intros Hs Hn. apply kept_all; [reflexivity..|]. unfold levels_of. cbn.
  pose proof (force_levels_all levels Hs Hn) as Hd.
  assert (levels !! GRIPPER_STRENGTH_MIN = None) as ->.
  { apply not_elem_of_dom. rewrite Hd. by vm_compute. }
  rewrite dom_insert_L, Hd. by vm_compute.
Qed.

Lemma install_kept configured motors :
  forced configured -> Forall2 kept motors (install_profiles configured motors).2.
Proof.
  intros Hf. induction motors as [|m rest IH]; [done|]. cbn [install_profiles].
  destruct (install_profiles configured rest) as [e rest']. simpl in IH. case_match.
  { by constructor. }
  destruct (configured !! motor_of m) as [levels|] eqn:Hl; [|done].
  destruct (size levels =? kForceLevelCount)%nat eqn:Hn; [|done]. apply Nat.eqb_eq in Hn.
  constructor; [|done]. apply kept_install; [by eapply Hf|done].
Qed.

Lemma keeps_before_connect {A} text (f : Safety B -> (exn + A) * Safety B) :
  (forall s, aside s (f s).2) -> keep (before_connect i text f).
Proof.
  intros Hf. unfold before_connect. keep_tac. apply keeps_worker; [done|]. apply acts_act.
  intros s. apply aside_step. case_match; [apply Hf|apply aside_refl].
Qed.

Hint Extern 1 (keeps _ _ _ _ (before_connect _ _ _)) => apply keeps_before_connect : keeps.

Lemma aside_bind_products p action (s : Safety B) :
  builtin p ->
  aside s (s <| rt_motors ::= bind_all p |>
             <| rt_config ::= fun c => match action with
                                       | Some a => c <| gripper_fault_action := a |>
                                       | None => c
                                       end |>).
Proof. intros Hp. split_and!; try reflexivity. split; [done|by apply bind_all_kept|done..|].
  by destruct action.
Qed.

Lemma aside_install_profiles profiles (s : Safety B) :
  aside s (install_force_profiles profiles s).2.
Proof.
  unfold install_force_profiles. cbv zeta. repeat case_match; simpl; try apply aside_refl.
  all: match goal with H : install_profiles ?g _ = _, Hc : collect_profiles _ ∅ _ = _ |- _ =>
      pose proof (install_kept g (rt_motors s)) as Hp; rewrite H in Hp;
      eapply collect_forced in Hc; [|by intros ? ?] end;
    (split_and!; try reflexivity; split; [done|by apply Hp|done..]).
Qed.

Lemma keeps_configure_grippers bindings : keep (configure_gripper_products (B := B) i bindings).
Proof.
  unfold configure_gripper_products. apply keeps_then; [keep_leaf|]. intros motors. cbv zeta.
  case_match; [case_match; by apply keeps_done|]. case_match; [by apply keeps_done|].
  destruct (resolve_bindings _ _ _ _) as [e|p] eqn:Hp; [by apply (keeps_done _ _ _ _ (Thrown e))|].
  apply keeps_before_connect. intros s. by eapply aside_bind_products, resolve_builtin.
Qed.

Lemma keeps_configure_force profiles :
  keep (configure_gripper_force_profiles (B := B) i profiles).
Proof.
  unfold configure_gripper_force_profiles. case_match; [keep_leaf|].
  apply keeps_before_connect. intros s. apply aside_install_profiles.
Qed.

(** *** Clearing faults

    Where the retries have run out the fault is reported without a mutex. *)

Lemma acts_finish_clear v fr :
  retriable (vd_code v) = true ->
  acts (rt_step client_edges fr) (finish_maintenance (B := B) ClearFaults v true).
Proof.
  intros Hv. unfold finish_maintenance. apply acts_bind; [case_match; auto with acts|].
  intros motor_fault. apply acts_bind; [|done]. apply acts_write. intros s.
  unfold finished_maintenance. replace (ok_code (vd_code v)) with false by (by destruct (vd_code v)).
  split; try done; [|by exists []; rewrite app_nil_r].
  split; cbn; try done; [apply client_clear_failed|by intros ->|by right; left].
Qed.

Definition clear_outcome (o : outcome (ArticoreOperationError * bool)) : Prop :=
  match o with Returned r => r.2 = true -> retriable r.1 = true | _ => True end.

End Plain.

Section Clients.
Context {B : Type} `{!MotorBackend B} `{!ArmDynamics} {rec : Recoverable}.
Context (i : nat) (P : SafetyCore -> Prop) `{!Steady P} (Hi : i <> 0%nat).
Local Notation keep p := (keeps i false 0 P p).

Lemma passes_clear_attempts fuel deadline :
  passes i false 0 P P clear_outcome (clear_attempts (B := B) fuel i deadline).
Proof.
  induction fuel as [|fuel IH]; cbn [clear_attempts]; [by apply (passes_done i false 0 P)|].
  eapply passes_bind with (Q := P); [apply keeps_passes_true, keeps_maintenance|intros code _|done..].
  destruct (retriable code) eqn:Hr; cbn [negb]; [|by apply (passes_done i false 0 P)].
  eapply passes_bind with (Q := P); [apply keeps_passes_true; keep_leaf|intros now _|done..].
  case_match; [apply (passes_done i false 0 P); intros _; exact Hr|].
  eapply passes_bind with (Q := P); [apply keeps_passes_true; keep_act|intros _ _|done..]. exact IH.
Qed.

Lemma keeps_clear_faults : keep (clear_faults (B := B) i).
Proof.
  unfold clear_faults. apply keeps_then; [keep_leaf|]. intros now.
  apply passes_keeps. eapply passes_bind with (Q := P); [apply passes_clear_attempts| |done..].
  intros [code again] Hr. cbn [fst snd]. apply keeps_passes_true.
  destruct again; [|by apply keeps_done]. cbn [negb]. apply keeps_then; [keep_act|]. intros last.
  cbv zeta. apply keeps_client; [done..|]. apply acts_finish_clear. by apply Hr.
Qed.

Lemma keeps_configure_mode_for_connect mode : keep (configure_mode_for_connect (B := B) i mode).
Proof.
  unfold configure_mode_for_connect. apply keeps_then; [apply keeps_maintenance|]. intros code.
  apply keeps_then; [|intros _; by apply keeps_done]. case_match; [by apply keeps_done|].
  apply keeps_worker; [done|]. apply acts_write. intros s. unfold connect_mode_failed.
  case_match; [|reflexivity]. apply core_step; try reflexivity; [|by split].
  by apply same_flags_edge.
Qed.

Lemma acts_store_identities identities fr :
  acts (rt_step worker_edges fr) (guarded (identities_refused identities)
    (fun s : Safety B => (tt, store_identities identities s))).
Proof.
  apply acts_guarded. intros s _. apply aside_step.
  split_and!; try reflexivity. split; [done| |done..]. unfold store_identities. cbn.
  generalize (rt_motors s). induction identities as [|x rest IH]; intros motors; [done|].
  cbn [fold_left]. etrans; [|apply IH]. by apply motors_update.
Qed.

Lemma keeps_configure_identities identities :
  keep (configure_motor_identities (B := B) i identities).
Proof.
  apply keeps_lifecycle_split; (apply keeps_worker; [apply _|]; apply acts_store_identities).
Qed.

Lemma keeps_configure_gravity bindings : keep (configure_gravity_products (B := B) i bindings).
Proof.
  assert (Ha : forall fr arms, acts (rt_step worker_edges fr) (guarded (fun s : Safety B =>
          if negb (bool_decide (state_ (rt_core s) = Disconnected)) ||
             hardware_transition_ (rt_core s)
          then Some (RuntimeError "gravity product bindings are fixed after connect") else None)
        (fun s : Safety B => (tt, s <| rt_gravity_arms := sort_arms arms |>)))).
  { intros fr arms. apply acts_guarded. intros s _. apply aside_step. aside_now. }
  unfold configure_gravity_products. apply keeps_then; [keep_act|]. intros motors. cbv zeta.
  destruct (negb (_ =? _)%nat); [by apply keeps_done|].
  apply keeps_then; [unfold except; destruct (bind_arms _ _ _); by apply keeps_done|]. intros arms.
  apply keeps_lifecycle_split; (apply keeps_command; [apply _|]; by apply keeps_worker; [apply _|]).
Qed.

Hint Resolve keeps_enable keeps_disable keeps_close keeps_connect keeps_maintenance keeps_estop
  keeps_start_gravity keeps_stop_gravity keeps_start_follow keeps_stop_follow
  keeps_clear_faults keeps_configure_mode_for_connect keeps_configure_gravity
  keeps_configure_identities
  keeps_configure_grippers keeps_configure_force keeps_submit_gripper_mit keeps_set_grippers
  keeps_set_openings keeps_cancel_motion keeps_cancel_all : keeps.
Hint Resolve keeps_motor_power_state keeps_power_batch keeps_set_motor_power
  keeps_start_trajectory : keeps.
Hint Resolve acts_declare acts_report_failure : acts.

(** Every operation of the API keeps the discipline. *)
Lemma keeps_discard {A} (p : Rt (B := B) A) : keep p -> keep (discard p).
Proof. intros Hp. apply keeps_then; [done|]. intros _. by apply keeps_done. Qed.

Lemma keeps_api_call c :
  (recovers c = true -> recoverable = true) -> keep (api_call (B := B) i c).
Proof.
  intros Hc. destruct c; cbn [api_call];
    lazymatch goal with
    | |- keeps _ _ _ _ (recover _) => apply keeps_recover, Hc, eq_refl
    | |- keeps _ _ _ _ (discard _) => apply keeps_discard
    | |- keeps _ _ _ _ (set_joint_mit_speed _ _ _) => apply keeps_mit_speed, _
    | |- keeps _ _ _ _ (set_joint_pv_speed _ _ _) => apply keeps_pv_speed, _
    | |- keeps _ _ _ _ (set_joint_pv_profile _ _ _ _) => apply keeps_set_profile, _
    | |- keeps _ _ _ _ (update_joint_pv_motion_limits _ _ _ _) => apply keeps_motion_limits, _
    | |- keeps _ _ _ _ (update_joint_pv_profile_limits _ _ _) => apply keeps_profile_limits, _
    | |- keeps _ _ _ _ (set_joint_mit _ _ _) => apply keeps_set_targets, _
    | |- keeps _ _ _ _ (set_joint_mit_direct _ _) => apply keeps_set_targets, _
    | |- keeps _ _ _ _ (set_joint_pv _ _ _ _ _) => apply keeps_set_targets, _
    | _ => idtac
    end;
    unfold configure_mode, set_zero;
    first [solve [eauto 2 with keeps] | solve [keep_leaf]].
Qed.

End Clients.
