(* ===== verification/SafetyTermination.v ===== *)
(** * The operations of the runtime come to an end

    [fin p]: however time passes and whatever the other threads and the robot
    do meanwhile, a run of [p] that is not blocked on a mutex or in a sleep for
    ever ends by returning or throwing; its loops do not run out of fuel.  A
    program without loops over time is [tidy]: none of its leaves is
    unfinished.  The loops over time sleep in every round, so that the rounds
    are bounded by the time to the deadline. *)

From Stdlib Require Import String.
From S2P Require Import Prelude Float32 Float64 PvShaping RuntimeTypes Threads NativeTypes Trajectory SafetyState Motions Gripper Safety Feedback Disable Faults Commands Planning JointPosition Enable Lifecycle Construct Maintenance Power Recover TrajectoryCycle Completion Gravity ArmCycle SafetyWorker SafetyLaws SafetyActions MotionActions LifecycleActions SafetyDiscipline SafetyThreads SafetyLifecycle SafetyMotion SafetyRecovery SafetyApi.
#[local] Open Scope mdl_scope.
#[local] Open Scope thread_scope.

Definition tidy {S A} (p : prog S A) : Prop := leaves ended p.

Section Tidy.
Context {S : Type}.

Lemma tidy_bind {A X} (p : prog S A) (k : A -> prog S X) :
  tidy p -> (forall a, tidy (k a)) -> tidy (pbind p k).
Proof. intros Hp Hk. eapply leaves_bind; [exact Hp|]. intros [a|e| |] Ho; [apply Hk|done..]. Qed.

Lemma tidy_catch {A} (p : prog S A) h : tidy p -> (forall e, tidy (h e)) -> tidy (pcatch p h).
Proof.
  intros Hp Hh. induction p as [[a|e| |]|X g f k IH]; cbn in *; try done; [apply Hh|].
  intros x. apply IH, Hp.
Qed.

Lemma tidy_premap {A X} (h : outcome A -> X) (p : prog S A) : tidy (premap h p).
Proof. induction p as [o|X' g f k IH]; [done|]. exact IH. Qed.

Lemma tidy_par {A X} oracle (p : prog S A) (q : prog S X) :
  tidy p -> tidy q ->
  leaves (fun o => match o with Returned r => ended r.1 /\ ended r.2 | _ => False end) (par oracle p q).
Proof.
  assert (Hm : forall A X (h : outcome A -> outcome A * outcome X) (p : prog S A),
    tidy p -> (forall o, ended o -> ended (h o).1 /\ ended (h o).2) ->
    leaves (fun o => match o with Returned r => ended r.1 /\ ended r.2 | _ => False end) (premap h p)).
  { intros A' X' h p' Hp Hh. induction p' as [o|Y g f k IH]; [by apply Hh|]. intros x. apply IH, Hp. }
  assert (Hm' : forall A X (h : outcome X -> outcome A * outcome X) (p : prog S X),
    tidy p -> (forall o, ended o -> ended (h o).1 /\ ended (h o).2) ->
    leaves (fun o => match o with Returned r => ended r.1 /\ ended r.2 | _ => False end) (premap h p)).
  { intros A' X' h p' Hp Hh. induction p' as [o|Y g f k IH]; [by apply Hh|]. intros x. apply IH, Hp. }
  intros Hp. revert q. induction p as [o|Y g f k IH]; intros q Hq.
  { apply Hm'; [exact Hq|]. intros o' Ho. by split; [exact Hp|]. }
  induction q as [o|Z g' f' k' IHq].
  { apply Hm; [exact Hp|]. intros o' Ho. by split; [|exact Hq]. }
  intros [x|y]; [apply IH; [apply Hp|exact Hq]|apply IHq, Hq].
Qed.

End Tidy.

Section Fin.
Context {B : Type} `{!MotorBackend B}.

Definition clock_le (s s' : Safety B) : Prop := rt_clock s <= rt_clock s'.

#[export] Instance clock_preorder : PreOrder clock_le.
Proof. split; [intros s; unfold clock_le; lia|]. intros s1 s2 s3. unfold clock_le. lia. Qed.

Definition unrestricted (s s' : Safety B) : Prop := True.

(** Every run of the program ends in [Q]. *)
Definition runs {A} (p : Rt (B := B) A) (Q : outcome A -> Safety B -> Prop) (s : Safety B) : Prop :=
  wp clock_le unrestricted p Q s.

Definition fin {A} (p : Rt (B := B) A) : Prop := forall s, runs p (fun o _ => ended o) s.

Lemma fin_tidy {A} (p : Rt (B := B) A) : tidy p -> fin p.
Proof.
  intros Hp. induction p as [o|X g f k IH]; intros s s1 Hs; [done|]. intros _. split; [done|].
  apply IH, Hp.
Qed.

Lemma fin_bind {A X} (p : Rt (B := B) A) (k : A -> Rt X) :
  fin p -> (forall a, fin (k a)) -> fin (pbind p k).
Proof.
  intros Hp Hk s. apply wp_bind; [apply _|]. eapply wp_mono; [|apply Hp].
  intros [a|e| |] s' Ho; [apply Hk|done..].
Qed.

Lemma fin_catch {A} (p : Rt (B := B) A) h : fin p -> (forall e, fin (h e)) -> fin (pcatch p h).
Proof.
  intros Hp Hh s. apply wp_catch; [apply _|]. eapply wp_mono; [|apply Hp].
  intros [a|e| |] s' Ho; [done|apply Hh|done..].
Qed.

Lemma fin_act {A X} g (f : Safety B -> X * Safety B) (k : X -> Rt (B := B) A) :
  (forall x, fin (k x)) -> fin (Act g f k).
Proof. intros Hk s s1 _ _. split; [done|]. apply Hk. Qed.

Lemma fin_finally {A} (p : Rt (B := B) A) release : fin p -> fin (pfinally p release).
Proof.
  intros Hp s. specialize (Hp s). revert s Hp.
  induction p as [[a|e| |]|X g f k IH]; intros s Hp; cbn [pfinally]; try exact Hp.
  - intros s1 _ _. split; [done|]. by intros s2 _.
  - intros s1 _ _. split; [done|]. by intros s2 _.
  - intros s1 Hs Hg. destruct (Hp s1 Hs Hg) as [_ Hk]. split; [done|]. by apply IH.
Qed.

Lemma fin_command {A} who (p : Rt (B := B) A) : fin p -> fin (with_command who p).
Proof. intros Hp. apply fin_act. intros []. by apply fin_finally. Qed.

Lemma fin_lifecycle {A} who (p : Rt (B := B) A) : fin p -> fin (with_lifecycle who p).
Proof. intros Hp. apply fin_act. intros []. by apply fin_finally. Qed.

Lemma fin_fold {A X} (l : list X) (step : A -> X -> Rt (B := B) A) (a : A) :
  (forall a x, fin (step a x)) -> fin (pfold l step a).
Proof.
  intros Hs. revert a. induction l as [|x l IH]; intros a; cbn [pfold]; [by apply fin_tidy|].
  apply fin_bind; [apply Hs|]. intros a'. apply IH.
Qed.

Lemma tidy_fold {A X} (l : list X) (step : A -> X -> Rt (B := B) A) a :
  (forall a x, tidy (step a x)) -> tidy (pfold l step a).
Proof.
  intros Hs. revert a. induction l as [|x l IH]; intros a; cbn [pfold]; [done|].
  apply tidy_bind; [apply Hs|]. intros a'. apply IH.
Qed.

Lemma tidy_run_sides {A} sides (job : Z -> Rt (B := B) A) :
  (forall side, tidy (job side)) -> tidy (run_active_sides sides job).
Proof.
  intros Hj. unfold run_active_sides, job_result.
  repeat case_match; try (apply tidy_bind; [apply Hj|done]); [|done].
  eapply leaves_bind; [by apply tidy_par|]. intros [r|e| |]; try done. intros [H1 H2].
  apply tidy_bind; [exact H1|]. intros a. by apply tidy_bind; [exact H2|].
Qed.

Lemma tidy_each {X} (l : list X) (body : X -> Rt (B := B) unit) :
  (forall x, tidy (body x)) -> tidy (each l body).
Proof. intros Hb. induction l as [|x l IH]; cbn [each]; [done|]. by apply tidy_bind. Qed.

(** A section of its own never waits. *)
Fixpoint instant {A} (p : Rt (B := B) A) : Prop :=
  match p with
  | Done o => ended o
  | Act g f k => (forall s, g s = true) /\ forall x, instant (k x)
  end.

Lemma instant_bind {A X} (p : Rt (B := B) A) (k : A -> Rt X) :
  instant p -> (forall a, instant (k a)) -> instant (pbind p k).
Proof.
  intros Hp Hk. induction p as [[a|e| |]|X' g f c IH]; [apply Hk|done..|].
  destruct Hp as [Hg Hc]. split; [done|]. intros x. by apply IH.
Qed.

Lemma instant_fold {A X} (l : list X) (step : A -> X -> Rt (B := B) A) (a : A) :
  (forall a x, instant (step a x)) -> instant (pfold l step a).
Proof.
  intros Hs. revert a. induction l as [|x l IH]; intros a; cbn [pfold]; [done|].
  apply instant_bind; [apply Hs|]. intros a'. apply IH.
Qed.

Lemma run_alone_ended {A} (p : Rt (B := B) A) s : instant p -> ended (run_alone p s).1.
Proof.
  revert s. induction p as [o|X g f k IH]; intros s; cbn [run_alone instant]; [done|].
  intros [Hg Hk]. rewrite Hg. destruct (f s) as [x s']. by apply IH.
Qed.

Lemma fin_atomically {A} (p : Rt (B := B) A) : instant p -> fin (atomically p).
Proof.
  intros Hp s. apply wp_act. intros s1 _. split; [done|]. intros s2 _. by apply run_alone_ended.
Qed.

(** A program whose actions leave the clock as it is. *)
Lemma runs_clock {A} (p : Rt (B := B) A) t s :
  acts clock_le p -> fin p -> t <= rt_clock s ->
  runs p (fun o s' => ended o /\ t <= rt_clock s') s.
Proof.
  intros Ha Hf. specialize (Hf s). revert s Hf. induction p as [o|X g f k IH]; intros s Hf Ht.
  - intros s1 Hs. split; [exact (Hf s1 Hs)|]. unfold clock_le in Hs. lia.
  - intros s1 Hs Hg. split; [done|]. destruct Ha as [Hc Hk]. destruct (Hf s1 Hs Hg) as [_ Hf'].
    apply IH; [done..|]. specialize (Hc s1 Hg). unfold clock_le in *. lia.
Qed.

Lemma acts_clock {A} (E : Edges) fr (p : Rt (B := B) A) :
  acts (rt_step E fr) p -> acts clock_le p.
Proof. apply acts_mono. intros s s' Hs. unfold clock_le. by rewrite (st_clock _ _ _ _ Hs). Qed.

Lemma acts_clock_finally {A} (p : Rt (B := B) A) release :
  (forall s, rt_clock (release s) = rt_clock s) -> acts clock_le p ->
  acts clock_le (pfinally p release).
Proof.
  intros Hr. induction p as [[a|e| |]|X g f k IH]; cbn [pfinally acts]; try done.
  - intros _. split; [|done]. intros s _. unfold clock_le. cbn. by rewrite Hr.
  - intros _. split; [|done]. intros s _. unfold clock_le. cbn. by rewrite Hr.
  - intros [Hf Hk]. split; [done|]. auto.
Qed.

Lemma acts_clock_command {A} who (p : Rt (B := B) A) :
  acts clock_le p -> acts clock_le (with_command who p).
Proof. intros Hp. split; [intros s _; unfold clock_le; cbn; lia|]. intros []. by apply acts_clock_finally. Qed.

Lemma acts_clock_lifecycle {A} who (p : Rt (B := B) A) :
  acts clock_le p -> acts clock_le (with_lifecycle who p).
Proof. intros Hp. split; [intros s _; unfold clock_le; cbn; lia|]. intros []. by apply acts_clock_finally. Qed.

End Fin.

Create HintDb fin discriminated.

(** Follows a program and opens the definitions on the way. *)
Ltac program_head t := lazymatch t with ?f _ => program_head f | _ => t end.
Ltac open_program p := let h := program_head p in unfold h.

Ltac tidy_step :=
  lazymatch goal with
  | |- forall _, _ => intro
  | |- tidy (let x := ?v in @?b x) => change (tidy (b v)); generalize v; intro; cbv beta
  | |- tidy (Done _) => exact I
  | |- tidy (pret _) => exact I
  | |- tidy (pthrow _) => exact I
  | |- tidy (Act _ _ _) => intro
  | |- tidy (act _) => intro; exact I
  | |- tidy (await _ _) => intro; exact I
  | |- tidy (read _) => intro; exact I
  | |- tidy (write _) => intro; exact I
  | |- tidy (pbind _ _) => apply tidy_bind
  | |- tidy (pcatch _ _) => apply tidy_catch
  | |- tidy (pfold _ _ _) => apply tidy_fold
  | |- tidy (each _ _) => apply tidy_each
  | |- tidy (run_active_sides _ _) => apply tidy_run_sides
  | |- tidy (match ?x with _ => _ end) => destruct x
  | |- tidy ?p => first [solve [auto 1 with fin] | open_program p]
  end.
Ltac tidy_tac := repeat tidy_step.

Ltac instant_step :=
  lazymatch goal with
  | |- forall _, _ => intro
  | |- instant (let x := ?v in @?b x) => change (instant (b v)); generalize v; intro; cbv beta
  | |- instant (Done _) => exact I
  | |- instant (pret _) => exact I
  | |- instant (pthrow _) => exact I
  | |- instant (act _) => split; [done|intro; exact I]
  | |- instant (read _) => split; [done|intro; exact I]
  | |- instant (write _) => split; [done|intro; exact I]
  | |- instant (pbind _ _) => apply instant_bind
  | |- instant (pfold _ _ _) => apply instant_fold
  | |- instant (match ?x with _ => _ end) => destruct x
  | |- instant ?p => first [solve [auto 1 with fin] | open_program p]
  end.
Ltac instant_tac := repeat instant_step.

Ltac fin_step :=
  lazymatch goal with
  | |- forall _, _ => intro
  | |- fin (let x := ?v in @?b x) => change (fin (b v)); generalize v; intro; cbv beta
  | |- fin (Done _) => apply fin_tidy; exact I
  | |- fin (pret _) => apply fin_tidy; exact I
  | |- fin (pthrow _) => apply fin_tidy; exact I
  | |- fin (act _) => apply fin_act; intro; apply fin_tidy; exact I
  | |- fin (await _ _) => apply fin_act; intro; apply fin_tidy; exact I
  | |- fin (read _) => apply fin_act; intro; apply fin_tidy; exact I
  | |- fin (write _) => apply fin_act; intro; apply fin_tidy; exact I
  | |- fin (pbind _ _) => apply fin_bind
  | |- fin (pcatch _ _) => apply fin_catch
  | |- fin (with_command _ _) => apply fin_command
  | |- fin (with_lifecycle _ _) => apply fin_lifecycle
  | |- fin (pfold _ _ _) => apply fin_fold
  | |- fin (each _ _) => apply fin_tidy
  | |- fin (atomically _) => apply fin_atomically
  | |- fin (run_active_sides _ _) => apply fin_tidy
  | |- fin (match ?x with _ => _ end) => destruct x
  | |- fin ?p => first [solve [auto 1 with fin] | open_program p]
  | |- tidy _ => tidy_step
  | |- instant _ => instant_step
  end.
Ltac fin_tac := repeat fin_step.

Section Pieces.
Context {B : Type} `{!MotorBackend B}.

Lemma tidy_request_feedback timeout e : tidy (request_feedback_parallel (B := B) timeout e).
Proof. tidy_tac. Qed.

Lemma tidy_motor_fault : tidy (current_motor_fault_reported (B := B)).
Proof.
  unfold current_motor_fault_reported. tidy_step; [tidy_tac|]. intros motors.
  induction motors as [|m l IH]; cbn [any_motor_fault]; tidy_tac; exact IH.
Qed.

Lemma tidy_send_disable targets e : tidy (send_disable_parallel (B := B) targets e).
Proof. tidy_tac. Qed.
Hint Resolve tidy_request_feedback tidy_motor_fault tidy_send_disable : fin.

Lemma tidy_refresh_feedback rc held e : tidy (refresh_feedback_health (B := B) rc held e).
Proof. tidy_tac. Qed.

Lemma tidy_validate missing e : tidy (validate_fresh_feedback_snapshot (B := B) missing e).
Proof. tidy_tac. Qed.

Lemma tidy_barrier : tidy (establish_disable_barrier (B := B)).
Proof. tidy_tac. Qed.

End Pieces.

#[export] Hint Resolve tidy_request_feedback tidy_motor_fault tidy_send_disable
  tidy_refresh_feedback tidy_validate tidy_barrier : fin.
#[export] Hint Extern 3 (fin _) => apply fin_tidy; solve [auto 1 with fin] : fin.

(** ** The loops over time *)

Section Loops.
Context {B : Type} `{!MotorBackend B}.

(** A part of a round, after which the clock still says at least [t]. *)
Lemma runs_part {A X} (p : Rt (B := B) A) (k : A -> Rt X) t s :
  acts clock_le p -> fin p -> t <= rt_clock s ->
  (forall a s', t <= rt_clock s' -> runs (k a) (fun o _ => ended o) s') ->
  runs (pbind p k) (fun o _ => ended o) s.
Proof.
  intros Ha Hf Ht Hk. apply wp_bind; [apply _|]. eapply wp_mono; [|by apply (runs_clock p t)].
  intros [a|e| |] s' [Ho Hs]; cbn; [by apply Hk|done..].
Qed.

(** Reading the clock, and waiting for it. *)
Lemma runs_clock_now {X} (k : Z -> Rt (B := B) X) t s :
  t <= rt_clock s ->
  (forall now s', t <= now -> now <= rt_clock s' -> runs (k now) (fun o _ => ended o) s') ->
  runs (pbind clock_now k) (fun o _ => ended o) s.
Proof.
  intros Ht Hk s1 Hs _. split; [done|]. cbn. apply Hk; unfold clock_le in Hs; lia.
Qed.

Lemma runs_await {X} (until : Z) (k : unit -> Rt (B := B) X) s :
  (forall s', until <= rt_clock s' -> runs (k tt) (fun o _ => ended o) s') ->
  runs (pbind (await (fun s : Safety B => until <=? rt_clock s) (fun s => (tt, s))) k)
    (fun o _ => ended o) s.
Proof. intros Hk s1 Hs Hg. split; [done|]. cbn. apply Hk. lia. Qed.

Lemma runs_sleep {X} (n : Z) (k : unit -> Rt (B := B) X) t s :
  t <= rt_clock s ->
  (forall s', t + milliseconds_ns n <= rt_clock s' -> runs (k tt) (fun o _ => ended o) s') ->
  runs (pbind (sleep_ms n) k) (fun o _ => ended o) s.
Proof.
  intros Ht Hk. unfold sleep_ms. intros s1 Hs _. split; [done|]. cbn.
  intros s2 Hs2 Hg. split; [done|]. apply Hk. unfold clock_le in *. lia.
Qed.

Lemma runs_fin {A} (p : Rt (B := B) A) s : fin p -> runs p (fun o _ => ended o) s.
Proof. intros Hp. apply Hp. Qed.

Lemma runs_confirm fuel targets deadline e t s :
  t <= rt_clock s -> deadline <= t + Z.of_nat (S fuel) * milliseconds_ns 1 ->
  runs (confirm_rounds (B := B) (S fuel) targets deadline e) (fun o _ => ended o) s.
Proof.
  unfold milliseconds_ns. revert e t s. induction fuel as [|fuel IH]; intros e t s Ht Hd;
    cbn [confirm_rounds].
  all: apply (runs_clock_now _ t s Ht); intros now s1 Ht1 Hs1; cbv zeta.
  all: apply (runs_part _ _ now s1); [eapply acts_clock with (E := worker_edges), (acts_request_feedback _ true)|
    fin_tac|exact Hs1|intros [[complete missing] error] s2 Hs2].
  all: unfold collect_unconfirmed; apply (runs_part _ _ now s2);
    [eapply acts_clock with (E := worker_edges) (fr := true); rt_tac|fin_tac|exact Hs2|intros result s3 Hs3].
  all: destruct result as [|x result]; [by apply runs_fin; fin_tac|].
  all: apply (runs_sleep _ _ now s3 Hs3); unfold milliseconds_ns; intros s4 Hs4.
  all: apply (runs_clock_now _ _ s4 Hs4); intros now' s5 Hn5 Hs5.
  all: destruct (now' <? deadline) eqn:Hlt; [|by apply runs_fin; fin_tac].
  - lia.
  - apply (IH _ now'); [done|]. lia.
Qed.

Lemma fin_confirm_until targets : fin (confirm_until_deadline (B := B) targets).
Proof.
  intros s. apply fin_act. intros timeout s1. apply (runs_clock_now _ (rt_clock s1)); [lia|].
  intros now s2 _ Hs. unfold confirm_fuel. apply (runs_confirm _ _ _ _ now); [done|].
  unfold milliseconds_ns. lia.
Qed.

Lemma runs_enable fuel deadline missing retried e t s :
  t <= rt_clock s -> deadline <= t + Z.of_nat fuel * milliseconds_ns 1 ->
  runs (enable_rounds (B := B) (S fuel) deadline missing retried e) (fun o _ => ended o) s.
Proof.
  unfold milliseconds_ns. revert missing retried e t s.
  induction fuel as [|fuel IH]; intros missing retried e t s Ht Hd; cbn [enable_rounds];
    apply (runs_clock_now _ t s Ht); intros now s1 Ht1 Hs1.
  { replace (now <? deadline) with false by lia. cbn [negb]. apply runs_fin; fin_tac. }
  destruct (now <? deadline) eqn:Hlt; cbn [negb]; [|apply runs_fin; fin_tac].
  apply (runs_clock_now _ now s1 Hs1). intros now' s2 Hn2 Hs2.
  apply (runs_part _ _ now s2); [apply (acts_clock worker_edges true); rt_tac|fin_tac|lia|].
  intros config s3 Hs3. cbv zeta. apply (runs_part _ _ now s3);
    [apply (acts_clock worker_edges true), acts_request_feedback|fin_tac|exact Hs3|].
  intros [[complete missed] error] s4 Hs4.
  apply (runs_part _ _ now s4); [apply (acts_clock worker_edges true); rt_tac|fin_tac|exact Hs4|].
  intros motors s5 Hs5. apply (runs_part _ _ now s5);
    [apply (acts_clock life_edges true); rt_tac; apply acts_scan_motor|fin_tac|exact Hs5|].
  intros x s6 Hs6. destruct (es_fault x); [apply runs_fin; fin_tac|].
  destruct (es_all_enabled x); [apply runs_fin; fin_tac|].
  apply (runs_part _ _ now s6);
    [apply (acts_clock life_edges true), acts_retry_enable|fin_tac|exact Hs6|].
  intros failed s7 Hs7. destruct failed; [apply runs_fin; fin_tac|].
  apply (runs_sleep _ _ now s7 Hs7). intros s8 Hs8. unfold milliseconds_ns in Hs8.
  apply (IH _ _ _ (now + 1000000)); lia.
Qed.

Lemma fin_confirm_enabled deadline missing :
  fin (confirm_enabled_feedback (B := B) deadline missing).
Proof.
  intros s. apply wp_act. intros s1 _. split; [done|]. cbn [fst snd]. unfold enable_fuel.
  apply (runs_enable _ _ _ _ _ (rt_clock s1)); [lia|]. unfold milliseconds_ns.
  pose proof (Z.div_mod (deadline - rt_clock s1) 1000000). pose proof
    (Z.mod_pos_bound (deadline - rt_clock s1) 1000000). lia.
Qed.

End Loops.

#[export] Hint Resolve fin_confirm_until fin_confirm_enabled : fin.

(** ** The operations *)

Section Operations.
Context {B : Type} `{!MotorBackend B} `{!ArmDynamics}.
Context (who : nat).

Lemma fin_disable_hardware feedback preserve : fin (disable_hardware (B := B) who feedback preserve).
Proof. fin_tac. Qed.
Hint Resolve fin_disable_hardware : fin.

Lemma fin_enter_fault reason off hold : fin (enter_fault (B := B) who reason off hold).
Proof. fin_tac. Qed.
Hint Resolve fin_enter_fault : fin.

Lemma fin_enable mode : fin (enable (B := B) who mode).
Proof. fin_tac. Qed.

Lemma fin_disable : fin (disable (B := B) who).
Proof. fin_tac. Qed.

Lemma fin_connect : fin (connect (B := B) who).
Proof. fin_tac. Qed.

Lemma fin_maintenance op stationary : fin (run_motor_maintenance (B := B) who op stationary).
Proof. fin_tac. Qed.
Hint Resolve fin_enable fin_disable fin_connect fin_maintenance : fin.

(** *** Clearing faults *)

Lemma acts_clock_maintenance op stationary :
  acts clock_le (run_motor_maintenance (B := B) who op stationary).
Proof.
  unfold run_motor_maintenance. apply acts_clock_lifecycle, acts_clock_command.
  apply (acts_clock life_edges true), acts_maintenance.
Qed.

Lemma runs_clear fuel deadline t s :
  t <= rt_clock s -> deadline <= t + Z.of_nat fuel * kClearFaultRetryDelay ->
  runs (clear_attempts (B := B) (S fuel) who deadline) (fun o _ => ended o) s.
Proof.
  unfold kClearFaultRetryDelay, milliseconds_ns. revert t s.
  induction fuel as [|fuel IH]; intros t s Ht Hd; cbn [clear_attempts];
    (apply (runs_part _ _ t s); [apply acts_clock_maintenance|apply fin_maintenance|exact Ht|]);
    intros code s1 Hs1; (destruct (retriable code); cbn [negb]; [|apply runs_fin; fin_tac]);
    apply (runs_clock_now _ t s1 Hs1); intros now s2 Hn Hs2.
  { replace (deadline <=? now) with true by lia. apply runs_fin; fin_tac. }
  destruct (deadline <=? now) eqn:Hlt; [apply runs_fin; fin_tac|].
  apply runs_await. intros s3 Hs3. unfold kClearFaultRetryDelay, milliseconds_ns in Hs3.
  apply (IH (Z.min deadline (now + 50 * 1000000))); lia.
Qed.

Lemma fin_clear_faults : fin (clear_faults (B := B) who).
Proof.
  unfold clear_faults. replace clear_fuel with (S 101) by (by vm_compute).
  intros s. apply (runs_clock_now _ (rt_clock s)); [lia|]. intros now s1 _ Hs1.
  apply wp_bind; [apply _|]. eapply wp_mono; [|apply (runs_clear 101 _ now); [done|]].
  - intros [r|e| |] s' Ho; [|done..]. apply runs_fin. fin_tac.
  - unfold kClearFaultRetryDelay, kClearFaultRetryWindow, milliseconds_ns. cbn. lia.
Qed.

(** *** Recovery *)

Lemma fin_fail {A} stage code error failed :
  fin (fail_recovery (B := B) (A := A) who stage code error failed).
Proof. fin_tac. Qed.
Hint Resolve fin_fail : fin.

Lemma runs_zero fuel deadline failed t s :
  t <= rt_clock s -> deadline <= t + Z.of_nat fuel * milliseconds_ns 1 ->
  runs (zero_rounds (B := B) (S fuel) who deadline failed) (fun o _ => ended o) s.
Proof.
  unfold milliseconds_ns. revert failed t s.
  induction fuel as [|fuel IH]; intros failed t s Ht Hd; cbn [zero_rounds];
    apply (runs_clock_now _ t s Ht); intros now s1 Ht1 Hs1.
  { replace (now <? deadline) with false by lia. cbn [negb]. apply runs_fin; fin_tac. }
  destruct (now <? deadline) eqn:Hlt; cbn [negb]; [|apply runs_fin; fin_tac].
  apply (runs_sleep _ _ now s1 Hs1). unfold milliseconds_ns. intros s2 Hs2.
  apply (runs_part _ _ (now + 1000000) s2);
    [apply (acts_clock worker_edges true); rt_tac|fin_tac|lia|]. intros p s3 Hs3.
  apply (runs_part _ _ (now + 1000000) s3);
    [apply (acts_clock worker_edges true), acts_request_feedback|fin_tac|exact Hs3|].
  intros [[requested missing] error] s4 Hs4. destruct requested; cbn [negb];
    [|apply runs_fin; fin_tac].
  apply (runs_part _ _ (now + 1000000) s4);
    [apply (acts_clock worker_edges true); rt_tac|fin_tac|exact Hs4|]. intros c s5 Hs5.
  destruct (stopped_reason c); [apply runs_fin; fin_tac|].
  apply (runs_part _ _ (now + 1000000) s5);
    [apply (acts_clock worker_edges true); unfold not_at_zero; rt_tac|fin_tac|exact Hs5|].
  intros [|x rest] s6 Hs6; [apply runs_fin; fin_tac|]. apply (IH _ (now + 1000000)); lia.
Qed.

Lemma fin_return_to_zero distance : fin (return_to_zero (B := B) who distance).
Proof.
  unfold return_to_zero. do 4 (apply fin_bind; [fin_tac|intros ?]).
  intros s. apply (runs_clock_now _ (rt_clock s)); [lia|]. intros now s1 _ Hs1. cbv zeta.
  apply wp_bind; [apply _|]. eapply wp_mono; [|apply (runs_zero _ _ _ now); [done|]].
  - intros [r|e| |] s' Ho; [|done..]. apply runs_fin. fin_tac.
  - unfold milliseconds_ns. lia.
Qed.
Hint Resolve fin_return_to_zero : fin.

Lemma fin_recover_body : fin (recover_body (B := B) who).
Proof. fin_tac. Qed.

Lemma fin_recover : fin (recover (B := B) who).
Proof. unfold recover. by apply fin_lifecycle, fin_recover_body. Qed.

(** *** The power of the motors *)

Lemma instant_power_of a d l : instant (power_of (B := B) a d l).
Proof. revert a d. induction l as [|m l IH]; intros a d; cbn [power_of]; instant_tac; apply IH. Qed.

Lemma tidy_power_of a d l : tidy (power_of (B := B) a d l).
Proof. revert a d. induction l as [|m l IH]; intros a d; cbn [power_of]; tidy_tac; apply IH. Qed.
Hint Resolve instant_power_of tidy_power_of : fin.

Lemma fin_set_power roles enabled : fin (set_motor_power_batch (B := B) who roles enabled).
Proof. fin_tac. Qed.
Hint Resolve fin_set_power : fin.

Lemma tidy_start_joints synchronized disabled first k l :
  tidy (check_start_joints (B := B) synchronized disabled first k l).
Proof. revert k. induction l as [|j l IH]; intros k; cbn [check_start_joints]; tidy_tac; apply IH. Qed.
Hint Resolve tidy_start_joints : fin.

(** ** Every round of every thread *)

Lemma fin_api_call c : fin (api_call (B := B) who c).
Proof.
  pose proof fin_clear_faults. pose proof fin_recover.
  destruct c; cbn [api_call]; fin_tac.
Qed.

Lemma fin_worker_round : fin (worker_round (B := B) who).
Proof. fin_tac. Qed.

End Operations.
