(* ===== verification/SafetySystem.v ===== *)
(** * The safety runtime as a system of threads

    Thread 0 is the worker, the others are clients that call the API one
    operation after the other and survive its exceptions.  What the discipline
    of the threads means for the whole: who may move a motor, what an emergency
    stop leaves behind, which transitions of the state there are, and what
    never changes. *)

From Stdlib Require Import String.
From S2P Require Import Prelude Float32 Float64 PvShaping RuntimeTypes Threads NativeTypes Trajectory SafetyState Motions Gripper Safety Feedback Disable Faults Commands Planning JointPosition Enable Lifecycle Construct Maintenance Power Recover TrajectoryCycle Completion Gravity ArmCycle SafetyWorker SafetyLaws SafetyActions LifecycleActions SafetyDiscipline SafetyThreads SafetyLifecycle SafetyMotion SafetyRecovery SafetyApi SafetyTermination.
#[local] Open Scope mdl_scope.
#[local] Open Scope thread_scope.

Section System.
Context {B : Type} `{!MotorBackend B} `{!ArmDynamics} {rec : Recoverable}.

(** A round of a thread; a client's local variable is what it still has to
    call. *)
Definition runtime_body (thread : nat) (script : list ApiCall) :
    Rt (B := B) (option (list ApiCall)) :=
  match thread with
  | O => do more <- worker_round 0; pret (match more with Some _ => Some script | None => None end)
  | S _ =>
      match script with
      | [] => pret None
      | c :: rest => pcatch (api_call thread c) (fun _ => pret tt) ;;; pret (Some rest)
      end
  end.

Definition runtime_step : system -> system -> Prop := sys_step runtime_body environment.

Definition runtime_threads (scripts : list (list ApiCall)) :=
  runtime_body 0 [] :: imap (fun k script => runtime_body (S k) script) scripts.

Definition runtime_start (s : Safety B) (scripts : list (list ApiCall)) : system :=
  (s, runtime_threads scripts).

(** A runtime before its threads start. *)
Record initial (s : Safety B) : Prop := {
  in_command : rt_command_lock s = None;
  in_lifecycle : rt_lifecycle_lock s = None;
  in_halted : halted s;
  in_profiled : profiled (rt_motors s);
  in_sides : length (rt_sides s) = 2%nat;
  in_history : (length (rt_history s) <= history_capacity)%nat;
  in_trace : rt_trace s = []
}.

(** ** The threads keep their contracts *)

(** What a script may call. *)
Definition allowed (script : list ApiCall) : Prop :=
  Forall (fun c => recovers c = true -> recoverable = true) script.

Definition ready (i : nat) (script : list ApiCall) (s : Safety B) : Prop :=
  stands i false 0 anything s /\ allowed script.

Lemma body_ok i script s : ready i script s -> thread_ok rely guarantee ready i (runtime_body i script) s.
Proof.
  intros [Hs Ha]. unfold thread_ok. destruct i as [|i]; cbn [runtime_body].
  - apply wp_bind; [apply _|]. eapply wp_mono; [|by apply keeps_worker_round with (P := anything)].
    intros [[[]|]|e| |] s' Hs'; [|by intros s2 Hr|done..]. intros s2 Hr. split; [|done].
    by eapply stands_rely; [apply _|exact Hr|apply Hs'].
  - destruct script as [|c rest]; [by intros s2 _|]. apply Forall_cons in Ha as [Hc Ha].
    apply wp_bind; [apply _|]. eapply wp_mono; [|apply (keeps_handle (S i) false 0 anything); [| |exact Hs]].
    + intros [[]|e| |] s' Hs'; [|done..]. intros s2 Hr. split; [|done].
      by eapply stands_rely; [apply _|exact Hr|apply Hs'].
    + by apply keeps_api_call.
    + intros e. apply keeps_done, _.
Qed.

Lemma runtime_rely_guarantee :
  rely_guarantee runtime_body environment rely guarantee ready.
Proof.
  split.
  - apply rely_preorder.
  - intros i j s s' Hij. by apply guarantee_rely.
  - intros j s s'. apply environment_rely.
  - apply body_ok.
Qed.

(** ** What holds in every reachable state *)

Definition sent_under_lock (e : SafetyEvent) : Prop :=
  control_frame e = true -> ev_locked_by e <> None.

Record sound (s0 s : Safety B) : Prop := {
  sd_halted : rt_lifecycle_lock s = None -> halted s;
  sd_frames : Forall sent_under_lock (rt_trace s);
  sd_estop : any_edge (rt_core s0) (rt_core s);
  sd_layout : layout s0 s
}.

Lemma guarantee_any i (s s' : Safety B) : guarantee i s s' -> any_edge (rt_core s) (rt_core s').
Proof.
  intros [Hc _ _ _ _ _]. destruct (depth _ _); [|done].
  by eapply client_any, thread_client.
Qed.

Lemma any_edge_trans c1 c2 c3 : any_edge c1 c2 -> any_edge c2 c3 -> any_edge c1 c3.
Proof. intros [] []. split; auto. Qed.

Lemma guarantee_sound i s0 (s s' : Safety B) : guarantee i s s' -> sound s0 s -> sound s0 s'.
Proof.
  intros HG [Hh Hf Hs Hy]. pose proof (guarantee_any _ _ _ HG) as Ha.
  destruct HG as [Hc _ Hll _ (l & Ht & Hl) Hy']. split.
  - intros Hn. destruct Hll as [E|(_ & _ & Hend)]; [|by apply Hend]. rewrite E in Hn.
    rewrite Hn in Hc. simpl in Hc. eapply client_halted; [by eapply thread_client|]. by apply Hh.
  - rewrite Ht. apply Forall_app. split; [done|]. eapply Forall_impl; [exact Hl|].
    intros e (_ & Hlock & Hfr) Hcf. rewrite Hlock. case_bool_decide as Hi; [by rewrite Hi|].
    rewrite (Hfr eq_refl) in Hcf. done.
  - by eapply any_edge_trans.
  - by etrans.
Qed.

Lemma environment_sound s0 (s s' : Safety B) : environment s s' -> sound s0 s -> sound s0 s'.
Proof. intros [_ ->] [Hh Hf Hs []]. by split. Qed.

Lemma initial_sound s : initial s -> sound s s.
Proof. intros []. split; [done|rewrite in_trace0; constructor|apply any_edge_refl|reflexivity]. Qed.

Lemma initial_threads s scripts :
  initial s -> Forall allowed scripts -> threads_ok rely guarantee ready (runtime_start s scripts).
Proof.
  intros [] Hall i p Hp. assert (Hready : forall script, allowed script -> ready i script s).
  { intros script Ha. split; [|done].
    split_and!; [by rewrite in_command0|by rewrite in_lifecycle0|by intros _|done]. }
  assert (Hbody : exists script, allowed script /\ p = runtime_body i script) by
    (destruct i as [|i]; [exists []; split; [constructor|by injection Hp]|]; cbn [runtime_start runtime_threads snd] in Hp;
     change (imap (fun k script => runtime_body (S k) script) scripts !! i = Some p) in Hp;
     rewrite list_lookup_imap in Hp; destruct (scripts !! i) as [script|] eqn:Hi; [|done];
     exists script; split; [by eapply Forall_lookup in Hall|by injection Hp]).
  destruct Hbody as (script & Ha & ->). exact (body_ok i script s (Hready script Ha)).
Qed.

Lemma runtime_sound s scripts c :
  initial s -> Forall allowed scripts -> rtc runtime_step (runtime_start s scripts) c ->
  threads_ok rely guarantee ready c /\ sound s (fst c).
Proof.
  intros Hi Hall Hrun.
  eapply (reachable_threads_ok _ _ _ _ _ (sound s) _ _ runtime_rely_guarantee); [..|exact Hrun].
  - intros i x y. apply guarantee_sound.
  - intros x y. apply environment_sound.
  - by apply initial_threads.
  - by apply initial_sound.
Qed.

(** ** No thread runs for ever *)

Lemma fin_body i script : fin (runtime_body i script).
Proof.
  destruct i as [|i]; cbn [runtime_body].
  - apply fin_bind; [apply fin_worker_round|]. intros more. by apply fin_tidy.
  - destruct script as [|c rest]; [by apply fin_tidy|].
    apply fin_bind; [|intros _; by apply fin_tidy].
    apply fin_catch; [apply fin_api_call|]. intros _. by apply fin_tidy.
Qed.

Lemma start_body s scripts i p :
  snd (runtime_start s scripts) !! i = Some p -> exists script, p = runtime_body i script.
Proof.
  destruct i as [|i]; [intros [= <-]; by exists []|]. cbn [runtime_start runtime_threads snd].
  change (imap (fun k script => runtime_body (S k) script) scripts !! i = Some p ->
          exists script, p = runtime_body (S i) script).
  rewrite list_lookup_imap. destruct (scripts !! i) as [script|]; [|done]. intros [= <-]. by exists script.
Qed.

(** What a thread still has to do comes to an end, in every reachable state. *)
Lemma runtime_runs s scripts c :
  initial s -> Forall allowed scripts -> rtc runtime_step (runtime_start s scripts) c ->
  forall i p, snd c !! i = Some p -> runs p (fun o _ => ended o) (fst c).
Proof.
  intros Hi Ha. revert c.
  refine (rtc_ind_r _ _ _ _).
  { intros i p Hp. apply start_body in Hp as [script ->]. apply fin_body. }
  intros c1 c2 Hrun Hstep IH i p Hp.
  destruct (runtime_sound _ _ _ Hi Ha Hrun) as [Hok _].
  destruct Hstep as [j X g f k x ts Hj Hg|j l x ts Hj|x x' ts He]; cbn [fst snd] in *.
  - destruct (Hok j _ Hj x ltac:(reflexivity) Hg) as [HG _].
    destruct (decide (j = i)) as [->|Hn].
    + rewrite list_lookup_insert_eq in Hp by (by eapply lookup_lt_Some). injection Hp as <-.
      by apply (IH i _ Hj x).
    + rewrite list_lookup_insert_ne in Hp by done. eapply wp_stable; [apply _| |exact (IH _ _ Hp)].
      unfold clock_le. by rewrite (g_clock _ _ _ HG).
  - destruct (decide (j = i)) as [->|Hn].
    + rewrite list_lookup_insert_eq in Hp by (by eapply lookup_lt_Some). injection Hp as <-.
      apply fin_body.
    + rewrite list_lookup_insert_ne in Hp by done. exact (IH _ _ Hp).
  - eapply wp_stable; [apply _| |exact (IH _ _ Hp)]. apply He.
Qed.

End System.
