(* ===== verification/SafetyTheorems.v ===== *)
(** * The safety runtime: what holds of every run

    The theorems about the reachable states of the worker and the clients, from
    the state the constructor leaves, with a concrete runtime of one arm motor
    as their instance. *)

From Stdlib Require Import String.
From S2P Require Import Prelude Float32 Float64 PvShaping RuntimeTypes Threads NativeTypes Trajectory SafetyState Motions Gripper Safety Feedback Disable Faults Commands Planning JointPosition Enable Lifecycle Construct Maintenance Power Recover TrajectoryCycle Completion Gravity ArmCycle SafetyWorker SafetyLaws SafetyActions LifecycleActions SafetyDiscipline SafetyThreads SafetyLifecycle SafetyMotion SafetyRecovery SafetyApi SafetyTermination SafetySystem.
#[local] Open Scope mdl_scope.
#[local] Open Scope thread_scope.

(** ** The constructor *)

Lemma make_record_spec require d m :
  make_record require d = inr m ->
  descriptor m = d /\ (d_is_gripper d = true -> gripper_described d = true -> leveled m) /\
  (d_is_gripper d = false -> leveled m).
Proof.
  unfold make_record. destruct (d_is_gripper d) eqn:Hg; cbn [negb].
  - destruct (gripper_described d); [|destruct require; [|done]]; intros [= <-].
    + split_and!; [done| |done]. intros _ _ _.
      assert (levels_of (gripper_record d) = {[GRIPPER_FORCE_DEFAULT]}) as -> by apply dom_singleton_L.
      split; [by apply elem_of_singleton|by left].
    + done.
  - intros [= <-]. split_and!; [done..|]. intros _. unfold leveled, is_gripper. cbn. congruence.
Qed.

Definition described (d : ArticoreMotorDescriptor) : Prop :=
  d_is_gripper d = true -> gripper_described d = true.

Lemma make_motors_distinct require unique roles l motors :
  make_motors require unique roles l = inr motors ->
  NoDup (map motor_of motors) /\ map descriptor motors = l /\
  Forall (fun h => h ∉ unique) (map motor_of motors) /\
  Forall2 (fun d m => make_record require d = inr m) l motors.
Proof.
  revert unique roles motors. induction l as [|d l IH]; intros unique roles motors; cbn [make_motors].
  { intros [= <-]. split_and!; constructor. }
  case_match; [done|]. case_bool_decide as Hu; [done|]. case_match; [done|]. case_match; [done|].
  destruct (make_record require d) as [e|m] eqn:Hm; [done|].
  destruct (make_motors _ _ _ l) as [e|rest] eqn:Hr; [done|]. intros [= <-].
  destruct (IH _ _ _ Hr) as (Hn & Hm' & Hf & H2). destruct (make_record_spec _ _ _ Hm) as (<- & _).
  split_and!; [|by f_equal/=| |by constructor].
  - cbn. constructor; [|done]. intros Hin. rewrite Forall_forall in Hf. specialize (Hf _ Hin).
    unfold motor_of in Hf. set_solver.
  - cbn. constructor; [done|]. eapply Forall_impl; [exact Hf|]. set_solver.
Qed.

Lemma make_motors_profiled require unique roles l motors :
  Forall described l -> make_motors require unique roles l = inr motors -> profiled motors.
Proof.
  intros Hl Hm. apply make_motors_distinct in Hm as (Hn & _ & _ & H2). split; [|done].
  induction H2 as [|d m l motors Hm _ IH]; [constructor|]. apply Forall_cons in Hl as [Hd Hl].
  apply NoDup_cons in Hn as [_ Hn]. constructor; [|by apply IH].
  destruct (make_record_spec _ _ _ Hm) as (<- & Hg & Ha).
  destruct (d_is_gripper (descriptor m)) eqn:E; [by apply Hg, Hd|by apply Ha].
Qed.

Section Theorems.
Context {B : Type} `{!MotorBackend B} `{!ArmDynamics}.

Lemma make_initial now (backend : B) c s :
  Forall described (cn_motors c) -> make_SafetyRuntime now backend c = inr s -> initial s.
Proof.
  intros Hd. unfold make_SafetyRuntime. repeat case_match; try done. intros [= <-].
  match goal with H : make_motors _ _ _ _ = inr _ |- _ =>
      apply make_motors_profiled in H as Hp; [|done] end.
  by split; try done; unfold history_capacity; cbn; lia.
Qed.

(** Every step is the environment's, a thread's start of a round, or an action
    within a thread's guarantee. *)
Lemma runtime_steps {rec : Recoverable} s scripts c1 c2 :
  initial s -> Forall allowed scripts -> rtc runtime_step (runtime_start s scripts) c1 -> runtime_step c1 c2 ->
  fst c2 = fst c1 \/ environment (fst c1) (fst c2) \/ exists i, guarantee i (fst c1) (fst c2).
Proof.
  intros Hi Ha Hrun Hstep. destruct (runtime_sound _ _ _ Hi Ha Hrun) as [Hok _].
  by apply (sys_step_ok _ _ _ _ _ _ _ runtime_rely_guarantee Hok Hstep).
Qed.

Lemma runtime_any {rec : Recoverable} s scripts c1 c2 :
  initial s -> Forall allowed scripts -> rtc runtime_step (runtime_start s scripts) c1 -> rtc runtime_step c1 c2 ->
  any_edge (rt_core (fst c1)) (rt_core (fst c2)).
Proof.
  intros Hi Ha Hrun Hmore. destruct (runtime_sound _ _ _ Hi Ha Hrun) as [Hok _].
  eapply (reachable_threads_ok _ _ _ _ _ (fun x => any_edge (rt_core (fst c1)) (rt_core x)) _ _
            runtime_rely_guarantee); [..|exact Hmore]; [| |done|apply any_edge_refl].
  - intros i x y HG Hx. by eapply any_edge_trans, guarantee_any.
  - by intros x y [_ ->].
Qed.

(** Scripts that may call everything, and scripts that do not recover. *)
Lemma all_allowed (scripts : list (list ApiCall)) : Forall (allowed (rec := true)) scripts.
Proof. apply Forall_true. intros script. by apply Forall_true. Qed.

Definition without_recovery (scripts : list (list ApiCall)) : Prop :=
  Forall (Forall (fun c => recovers c = false)) scripts.

Lemma without_allowed scripts : without_recovery scripts -> Forall (allowed (rec := false)) scripts.
Proof.
  intros Hs. eapply Forall_impl; [exact Hs|]. intros script Hc. eapply Forall_impl; [exact Hc|].
  intros c Hr Hr'. congruence.
Qed.

End Theorems.

(** ** A concrete runtime: one arm motor that does what it is told *)

Definition sample_state (enabled : bool) : ArticoreMotorState :=
  {| ams_has_value := true; ams_can_id := 1; ams_arbitration_id := 17;
     ams_status_code := if enabled then 1 else 0; ams_pos := f32_zero; ams_vel := f32_zero;
     ams_torq := f32_zero; ams_t_mos := f32_zero; ams_t_rotor := f32_zero |}.

Definition sample_answer (T : Type) (c : BackendCall T) (enabled : bool) : T * bool :=
  match c in BackendCall T return T * bool with
  | Bk_send_pos_vel _ | Bk_send_mit _ => (0, enabled)
  | Bk_disable_all _ | Bk_disable_motor _ => (0, false)
  | Bk_enable_all _ | Bk_enable_motor _ => (0, true)
  | Bk_request_feedback _ _ _ => ((0, Build_ArticoreFeedbackReport 1 1 0, []), enabled)
  | Bk_get_state _ => ((0, sample_state enabled), enabled)
  | Bk_get_feedback_stats _ => ((0, Build_ArticoreFeedbackStats true 1 0), enabled)
  | Bk_get_transport_health _ =>
      ((0, Build_ArticoreDriverTransportHealth true true 0 0 0 0 0 0 ""%string), enabled)
  | Bk_has_transport_health => (false, enabled)
  | Bk_last_error_message => (None, enabled)
  | Bk_can_enable_all | Bk_can_enable_motor | Bk_can_clear_error | Bk_can_set_zero
  | Bk_can_ensure_mode | Bk_can_set_timeout => (true, enabled)
  | Bk_clear_error _ | Bk_set_zero _ | Bk_ensure_mode _ _ _ | Bk_set_timeout_ms _ _ => (0, enabled)
  | Bk_communication_timeout_ms => (100, enabled)
  end.

#[local] Instance sample_backend : MotorBackend bool := {| bk_call := sample_answer |}.
#[local] Instance sample_dynamics : ArmDynamics := fun _ l => l.

Definition sample_descriptor : ArticoreMotorDescriptor := {|
  d_motor := 1%nat; d_side := 0; d_is_gripper := false; d_name := "left/joint1"%string;
  d_safe_kp := f32_of_Z 10; d_safe_kd := f32_of_Z 1; d_overload_torque := f32_zero;
  d_retreat_distance := f32_zero; d_contact_torque := f32_zero; d_motion_window_ms := 0;
  d_stall_movement := f32_zero; d_min_position_error := f32_zero; d_contact_hold_ms := 0;
  d_overload_hold_ms := 0; d_hold_offset := f32_zero; d_retreat_retry_ms := 0;
  d_open_position := f32_zero; d_closed_position := f32_zero; d_normal_kp := f32_zero;
  d_normal_kd := f32_zero; d_close_speed := f32_zero; d_max_step_interval_ms := 0;
  d_closing_direction := f32_zero; d_lower_position := f32_zero; d_upper_position := f32_zero |}.

Definition sample_config : ArticoreRuntimeConfig := {|
  command_timeout_ms := 100; enable_grace_ms := 10; safe_hold_hz := 50; feedback_check_hz := 100;
  feedback_failure_threshold := 3; feedback_max_age_ms := 100; safe_hold_failure_threshold := 3;
  disable_feedback_timeout_ms := 20; safe_pv_velocity_limit := f32_one;
  gripper_fault_action := GRIPPER_FAULT_HOLD |}.

Definition sample_construction : Construction := {|
  cn_config := sample_config; cn_has_group := true; cn_has_controller := [true; false];
  cn_motors := [sample_descriptor]; cn_require_profiles := false; cn_control_hz := 0;
  cn_environment_hz := None; cn_warning := ""%string |}.

Definition sample_runtime : Safety bool :=
  match make_SafetyRuntime 1000 false sample_construction with
  | inr s => s
  | inl _ => new_Safety 0 false sample_config 0 false [] ""%string []
  end.

(** A client's script, on its own between the rounds of the worker. *)
Definition sample_run (script : list ApiCall) (steps : nat) : system :=
  run_schedule runtime_body (replicate steps 1%nat) (runtime_start sample_runtime [script]).

Definition sample_script : list ApiCall := [CallConnect; CallEnable ModePv; CallEstop].

Lemma sample_initial : initial sample_runtime.
Proof.
  apply (make_initial 1000 false sample_construction); [|by vm_compute].
  by repeat constructor.
Qed.

Lemma sample_reachable script steps :
  rtc runtime_step (runtime_start sample_runtime [script]) (sample_run script steps).
Proof. apply run_schedule_reachable. Qed.

(** ** The theorems *)

(** C2. After an emergency stop the runtime is at rest.  In every reachable state
    of the worker and the clients, whatever the interleaving, the robot and the
    clock do, once an emergency stop is latched and nobody is inside a lifecycle
    operation, the runtime is FAULT or DISCONNECTED with its fault latch set. *)
Theorem emergency_stop_rests {B} `{!MotorBackend B} `{!ArmDynamics} (s : Safety B) scripts c :
  initial s -> rtc runtime_step (runtime_start s scripts) c ->
  rt_lifecycle_lock (fst c) = None -> emergency_stop_latched_ (rt_core (fst c)) = true ->
  (state_ (rt_core (fst c)) = Fault \/ state_ (rt_core (fst c)) = Disconnected) /\
  fault_latched_ (rt_core (fst c)) = true.
Proof.
  intros Hi Hrun Hlock Hestop. destruct (runtime_sound (rec := true) _ _ _ Hi (all_allowed _) Hrun) as [_ [Hh _ _ _]].
  by apply Hh.
Qed.

Lemma emergency_stop_rests_witness :
  let c := sample_run sample_script 400 in
  state_ (rt_core (fst (sample_run (take 2 sample_script) 400))) = Enabled /\
  (state_ (rt_core (fst c)) = Fault \/ state_ (rt_core (fst c)) = Disconnected) /\
  fault_latched_ (rt_core (fst c)) = true.
Proof.
  split; [by vm_compute|].
  exact (emergency_stop_rests sample_runtime [sample_script] (sample_run sample_script 400)
           sample_initial (sample_reachable _ _) ltac:(by vm_compute) ltac:(by vm_compute)).
Defined.

(** C3. Motors are only moved under the command mutex.  In every reachable state
    each position and MIT frame that has been handed to the drivers was handed
    over while a thread held [command_mutex_]. *)
Theorem control_frames_locked {B} `{!MotorBackend B} `{!ArmDynamics} (s : Safety B) scripts c :
  initial s -> rtc runtime_step (runtime_start s scripts) c ->
  Forall (fun e => control_frame e = true -> ev_locked_by e <> None) (rt_trace (fst c)).
Proof. intros Hi Hrun. by destruct (runtime_sound (rec := true) _ _ _ Hi (all_allowed _) Hrun) as [_ [_ Hf _ _]]. Qed.

Lemma control_frames_locked_witness :
  length (List.filter control_frame (rt_trace (fst (sample_run sample_script 400)))) = 2%nat /\
  Forall (fun e => control_frame e = true -> ev_locked_by e <> None)
    (rt_trace (fst (sample_run sample_script 400))).
Proof.
  split; [by vm_compute|].
  exact (control_frames_locked sample_runtime [sample_script] (sample_run sample_script 400)
           sample_initial (sample_reachable _ _)).
Defined.

(** C4. The stop of the runtime is final, and the emergency stop is but for
    [recover].  From any reachable state on, whatever is called, a runtime that is
    stopping keeps stopping; and where no client calls [recover], an emergency
    stop that is latched stays latched. *)
Theorem latches_stay {B} `{!MotorBackend B} `{!ArmDynamics} (s : Safety B) scripts c1 c2 :
  initial s -> rtc runtime_step (runtime_start s scripts) c1 -> rtc runtime_step c1 c2 ->
  (without_recovery scripts -> emergency_stop_latched_ (rt_core (fst c1)) = true ->
   emergency_stop_latched_ (rt_core (fst c2)) = true) /\
  (stopping_ (rt_core (fst c1)) = true -> stopping_ (rt_core (fst c2)) = true).
Proof.
  intros Hi H1 H2. split.
  - intros Hw. pose proof (runtime_any (rec := false) _ _ _ _ Hi (without_allowed _ Hw) H1 H2) as Ha.
    by apply Ha.
  - apply (runtime_any (rec := true) _ _ _ _ Hi (all_allowed _) H1 H2).
Qed.

Lemma latches_stay_witness :
  let scripts := [sample_script ++ [CallClearFaults]] in
  let c := sample_run (sample_script ++ [CallClearFaults]) 400 in
  emergency_stop_latched_ (rt_core (fst c)) = true /\
  ((without_recovery scripts -> emergency_stop_latched_ (rt_core (fst c)) = true ->
    emergency_stop_latched_ (rt_core (fst c)) = true) /\
   (stopping_ (rt_core (fst c)) = true -> stopping_ (rt_core (fst c)) = true)) /\
  without_recovery scripts.
Proof.
  split; [by vm_compute|]. split; [|by repeat constructor].
  exact (latches_stay sample_runtime [sample_script ++ [CallClearFaults]] _ _
           sample_initial (sample_reachable _ 400) ltac:(reflexivity)).
Defined.

(** C7. Outside the lifecycle operations there are seven transitions.  While
    nobody is inside a lifecycle operation a step changes the state of the
    runtime only by a first command (ENABLED to RUNNING), a degradation (RUNNING
    to DEGRADED), a hold (RUNNING to SAFE_HOLD), a safe stop or a fault; it
    leaves the control mode, the emergency stop and [stopping_] as they are, and
    the fault latch goes up with FAULT and down with SAFE_STOP only. *)
Theorem free_transitions {B} `{!MotorBackend B} `{!ArmDynamics} (s : Safety B) scripts c1 c2 :
  initial s -> rtc runtime_step (runtime_start s scripts) c1 -> runtime_step c1 c2 ->
  rt_lifecycle_lock (fst c1) = None ->
  client_edge (rt_core (fst c1)) (rt_core (fst c2)).
Proof.
  intros Hi Hrun Hstep Hlock. destruct (runtime_steps (rec := true) _ _ _ _ Hi (all_allowed _) Hrun Hstep) as [->|[[_ ->]|[i HG]]].
  - apply worker_client, worker_edge_refl.
  - apply worker_client, worker_edge_refl.
  - destruct HG as [Hc _ _ _ _ _]. rewrite Hlock in Hc. simpl in Hc. by eapply thread_client.
Qed.

(** The client has commanded the enabled motor; the worker is next. *)
Definition sample_command : list ApiCall :=
  [CallConnect; CallEnable ModePv;
   CallSubmitPv [Build_ArticorePosVelCommand 1%nat f32_zero f32_one] COMMAND_STREAMING].

Definition sample_moving (steps : nat) : system :=
  run_schedule runtime_body (replicate 300 1%nat ++ replicate steps 0%nat)
    (runtime_start sample_runtime [sample_command]).

Lemma free_transitions_witness :
  let c1 := sample_moving 14 in
  let c2 := thread_step runtime_body c1 0 in
  state_ (rt_core (fst c1)) = Enabled /\ state_ (rt_core (fst c2)) = Running /\
  client_edge (rt_core (fst c1)) (rt_core (fst c2)).
Proof.
  split; [by vm_compute|]. split; [by vm_compute|].
  apply (free_transitions sample_runtime [sample_command] (sample_moving 14));
    [apply sample_initial|apply run_schedule_reachable| |by vm_compute].
  apply thread_step_acts. by vm_compute.
Defined.

(** C8. The shape of the state.  In every reachable state the runtime has its two
    sides and the motors it was built with, each with its handle, side, kind and
    role; the history of motions is within its capacity; and every gripper has a
    force profile for the level it is set to. *)
Theorem reachable_shape {B} `{!MotorBackend B} `{!ArmDynamics} (s : Safety B) scripts c :
  initial s -> rtc runtime_step (runtime_start s scripts) c ->
  length (rt_sides (fst c)) = 2%nat /\
  map motor_identity (rt_motors (fst c)) = map motor_identity (rt_motors s) /\
  (length (rt_history (fst c)) <= history_capacity)%nat /\
  Forall (fun m => is_gripper m = true -> exists profile, active_gripper_profile m = inr profile)
    (rt_motors (fst c)).
Proof.
  intros Hi Hrun. destruct (runtime_sound (rec := true) _ _ _ Hi (all_allowed _) Hrun) as [_ [_ _ _ [Hs Hm Hh]]].
  destruct Hi as [_ _ _ Hp H2 H3 _]. split_and!; [by apply Hs|by apply kept_identity|by apply Hh|].
  destruct (kept_profiled _ _ Hm Hp) as [Hl _]. eapply Forall_impl; [exact Hl|].
  intros m. apply leveled_profile.
Qed.

Lemma reachable_shape_witness :
  let c := sample_run sample_script 400 in
  length (rt_sides (fst c)) = 2%nat /\
  map motor_identity (rt_motors (fst c)) = map motor_identity (rt_motors sample_runtime) /\
  (length (rt_history (fst c)) <= history_capacity)%nat /\
  Forall (fun m => is_gripper m = true -> exists profile, active_gripper_profile m = inr profile)
    (rt_motors (fst c)).
Proof.
  exact (reachable_shape sample_runtime [sample_script] (sample_run sample_script 400)
           sample_initial (sample_reachable _ _)).
Defined.

(** Construction.  Where the constructor accepts a configuration whose grippers
    are all described, the runtime it leaves is fit to start the threads: both
    mutexes free, DISCONNECTED without a latch, the motors those of the
    descriptors, in their order and with distinct handles. *)
Theorem construction_initial {B} `{!MotorBackend B} now (backend : B) c s :
  Forall described (cn_motors c) -> make_SafetyRuntime now backend c = inr s ->
  initial s /\ state_ (rt_core s) = Disconnected /\ fault_latched_ (rt_core s) = false /\
  map descriptor (rt_motors s) = cn_motors c.
Proof.
  intros Hd Hs. split; [by eapply make_initial|]. revert Hs. unfold make_SafetyRuntime.
  repeat case_match; try done. intros [= <-]. split_and!; [done..|].
  match goal with H : make_motors _ _ _ _ = inr _ |- _ =>
      by apply make_motors_distinct in H as (_ & Hm & _) end.
Qed.

Lemma construction_initial_witness :
  initial sample_runtime /\ state_ (rt_core sample_runtime) = Disconnected /\
  fault_latched_ (rt_core sample_runtime) = false /\
  map descriptor (rt_motors sample_runtime) = [sample_descriptor].
Proof.
  apply (construction_initial 1000 false sample_construction); [by repeat constructor|].
  by vm_compute.
Defined.

(** C6. No thread hangs.  In every reachable state what a thread still has to do
    in its round, an operation of the API or a round of the worker, comes to an end:
    if only time goes forward, whatever the robot and the other threads do, it
    takes finitely many actions until it has returned or thrown, unless it waits
    for a mutex for ever; no loop runs out of its fuel. *)
Theorem rounds_end {B} `{!MotorBackend B} `{!ArmDynamics} (s : Safety B) scripts c i p :
  initial s -> rtc runtime_step (runtime_start s scripts) c -> snd c !! i = Some p ->
  wp clock_le unrestricted p
    (fun o _ => match o with Returned _ | Thrown _ => True | _ => False end) (fst c).
Proof. intros Hi Hrun Hp. apply (runtime_runs (rec := true) _ _ _ Hi (all_allowed _) Hrun _ _ Hp). Qed.

Lemma rounds_end_witness :
  exists p, snd (sample_run sample_script 30) !! 1%nat = Some p /\
    wp clock_le unrestricted p
      (fun o _ => match o with Returned _ | Thrown _ => True | _ => False end)
      (fst (sample_run sample_script 30)).
Proof.
  assert (Hl : length (snd (sample_run sample_script 30)) = 2%nat) by by vm_compute.
  destruct (snd (sample_run sample_script 30) !! 1%nat) as [p|] eqn:Hp.
  - exists p. split; [reflexivity|].
    exact (rounds_end sample_runtime [sample_script] (sample_run sample_script 30) 1%nat p
             sample_initial (sample_reachable _ _) Hp).
  - exfalso. apply lookup_ge_None_1 in Hp. rewrite Hl in Hp. clear Hl. lia.
Defined.

(** C5. Recovery.  Where no emergency stop is unattended, [recover] ends, whatever
    the worker and the other clients do within their discipline, in one of two ways.
    It returns: then every motor was sent the disable frame and reported, by feedback
    young enough, that it is disabled; after that the faults of every motor were
    cleared; after that every motor was disabled and reported it once more; and the
    runtime was left READY with all latches cleared, from where only the worker and
    the clients have moved it.  Or it throws: then a runtime whose emergency stop is
    latched is FAULT or DISCONNECTED with its fault latch set. *)
Theorem recover_contract {B} `{!MotorBackend B} (who : nat) (s : Safety B) :
  stands who false 1 halted_core s ->
  wp (rely who) (guarantee (rec := true) who) (recover_body who)
    (fun o s' => match o with
                 | Returned _ =>
                     recovery_deeds s s' /\
                     exists c, recovered_core c /\ rtc client_edge c (rt_core s')
                 | Thrown _ =>
                     emergency_stop_latched_ (rt_core s') = true ->
                     (state_ (rt_core s') = Fault \/ state_ (rt_core s') = Disconnected) /\
                     fault_latched_ (rt_core s') = true
                 | Undefined | Unfinished => False
                 end) s.
Proof.
  intros Hs. pose proof (recover_observed _ _ _ (ends_recover (rec := true) who eq_refl s Hs)) as Hr.
  eapply wp_mono; [|eapply wp_both; [|exact Hr|apply (fin_recover_body who s)]];
    [|intros a b Hab; apply Hab].
  intros [u|e| |] s'; cbn; [|by intros [[(_ & _ & Hk & _) _] _]|by intros [_ []]..].
  intros [[(_ & _ & Hk & _) Hd] _]. split; [by apply (Hd u)|exact Hk].
Qed.

(** A client in the lifecycle mutex. *)
Definition inside (s : Safety bool) : Safety bool :=
  s <| rt_lifecycle_lock := Some (1, 1)%nat |>.

Lemma inside_profiled s : profiled (rt_motors s) -> profiled (rt_motors (inside s)).
Proof. done. Qed.

Definition sample_joint : ArticoreJointControlConfig := {|
  jcc_motor := 1%nat; jcc_lower_position := f32_of_Z (-2); jcc_upper_position := f32_of_Z 2;
  jcc_velocity_limit := f32_of_Z 2; jcc_torque_limit := f32_of_Z 10; jcc_mit_kp := f32_of_Z 10;
  jcc_mit_kd := f32_of_Z 1; jcc_mit_feedforward_torque := f32_zero;
  jcc_mit_fast_follow_kp := f32_of_Z 10; jcc_mit_fast_follow_kd := f32_of_Z 1;
  jcc_velocity_feedback_scale := f32_one |}.

Definition stopped_script : list ApiCall := CallConfigureJoints [sample_joint] :: sample_script.

Definition recovering : Safety bool := inside (fst (sample_run stopped_script 400)).

(** The client alone, while time passes as it waits. *)
Fixpoint wait (fuel : nat) (g : Safety bool -> bool) (s : Safety bool) : Safety bool :=
  match fuel with
  | O => s
  | S n => if g s then s else wait n g (s <| rt_clock ::= Z.add 1000000 |>)
  end.

Fixpoint patiently {A} (p : Rt (B := bool) A) (s : Safety bool) : option (outcome A * Safety bool) :=
  match p with
  | Done o => Some (o, s)
  | Act g f k =>
      let s1 := wait 100 g s in
      if g s1 then patiently (k (fst (f s1))) (snd (f s1)) else None
  end.

Lemma wait_rely i fuel g s : rely i s (wait fuel g s).
Proof.
  revert s. induction fuel as [|fuel IH]; intros s; cbn [wait]; [reflexivity|].
  destruct (g s); [reflexivity|]. etrans; [|apply IH]. apply environment_rely. split; cbn; [lia|].
  by destruct s.
Qed.

Lemma wp_patiently {A} i G (p : Rt (B := bool) A) Q s o s' :
  wp (rely i) G p Q s -> patiently p s = Some (o, s') -> Q o s'.
Proof.
  revert s. induction p as [o0|X g f k IH]; intros s; cbn [patiently].
  - intros Hw [= <- <-]. apply Hw. reflexivity.
  - intros Hw. destruct (g _) eqn:Hg; [|done]. apply IH. by apply (Hw _ (wait_rely i 100 g s) Hg).
Qed.

Lemma recovering_stands : stands 1%nat false 1 halted_core recovering.
Proof.
  destruct (runtime_sound (rec := true) _ _ _ sample_initial (all_allowed _)
              (sample_reachable stopped_script 400)) as [_ [_ _ _ Hy]].
  split_and!; [by vm_compute..| |].
  - intros _. split; [left|]; by vm_compute.
  - apply inside_profiled.
    exact (kept_profiled _ _ (ly_motors _ _ Hy) (in_profiled _ sample_initial)).
Qed.

(** After the emergency stop the client recovers, and returns. *)
Lemma recover_contract_witness :
  emergency_stop_latched_ (rt_core recovering) = true /\
  exists s', option_map fst (patiently (recover_body 1%nat) recovering) = Some (Returned tt) /\
    option_map snd (patiently (recover_body 1%nat) recovering) = Some s' /\
    recovery_deeds recovering s'.
Proof.
  split; [by vm_compute|].
  assert (Hret : option_map fst (patiently (recover_body 1%nat) recovering) = Some (Returned tt))
    by by vm_compute.
  destruct (patiently (recover_body 1%nat) recovering) as [[o s']|] eqn:E; [|done].
  injection Hret as ->. exists s'. split_and!; [reflexivity..|].
  exact (proj1 (wp_patiently _ _ _ _ _ _ _ (recover_contract 1%nat recovering recovering_stands) E)).
Defined.
