(* ===== verification/ProductLaws.v ===== *)
(** * The product's checks and limits against those of the safety runtime

    A product command is checked in the product's own terms and then again, in
    the motors' directions, by the safety runtime: for the positions the two
    checks accept the same.  The motion profile of ordinary POS_VEL commands,
    two percentages applied in single precision, never exceeds the table. *)

From S2P Require Import Prelude Float32 FloatOrder Float64 PvShaping RuntimeTypes Threads NativeTypes SafetyState Motions Commands JointPosition SafetyActions Gravity Yunyi Product ProductCommands.
#[local] Open Scope mdl_scope.

(** ** Positions *)

Definition f32_is_unit (x : f32) : bool :=
  match x with
  | S754_finite _ m e => (m =? 8388608)%positive && (e =? -23)
  | _ => false
  end.

Lemma f32_is_unit_eq x : f32_is_unit x = true -> x = f32_unit (f32_signbit x).
Proof.
  destruct x as [| | |s m e]; try done. cbn [f32_is_unit].
  intros [->%Pos.eqb_eq ->%Z.eqb_eq]%andb_prop. done.
Qed.

Definition f32_exact (x : f32) : bool := valid_binary 24 128 x && f32_isfinite x.

(** What the tables have to satisfy, for one joint of one side. *)
Definition joint_table_ok (side index : nat) : bool :=
  let j := product_joint side index 0%nat in
  f32_exact (pj_lower j) && f32_exact (pj_upper j) && f32_is_unit (pj_direction j) &&
  negb (f32_gt (f32_abs f32_zero) (nth index kNativeVelocityRange f32_zero)) &&
  negb (f32_gt (f32_abs f32_zero) (nth index kYunyiNativeTorqueRange f32_zero)).

Lemma joint_tables_ok :
  forallb (fun side => forallb (joint_table_ok side) (seq 0 PRODUCT_ARM_DOF)) [0; 1]%nat = true.
Proof. vm_compute. reflexivity. Qed.

Lemma joint_table_at side index :
  (side < 2)%nat -> (index < PRODUCT_ARM_DOF)%nat -> joint_table_ok side index = true.
Proof.
  intros Hs Hi. pose proof joint_tables_ok as H. rewrite forallb_forall in H.
  assert (Hf : forallb (joint_table_ok side) (seq 0 PRODUCT_ARM_DOF) = true).
  { apply H. destruct side as [|[|?]]; [left|right; left|lia]; done. }
  rewrite forallb_forall in Hf. apply Hf, in_seq. lia.
Qed.

Lemma f32_exact_number x : f32_exact x = true -> f32_number x.
Proof. intros [V F]%andb_prop. split; [exact V|by destruct x]. Qed.

Lemma joint_table_spec (side index : nat) (motor : handle) :
  (side < 2)%nat -> (index < PRODUCT_ARM_DOF)%nat ->
  f32_number (pj_lower (product_joint side index motor)) /\
  f32_number (pj_upper (product_joint side index motor)) /\
  (exists s, pj_direction (product_joint side index motor) = f32_unit s) /\
  f32_gt (f32_abs f32_zero) (nth index kNativeVelocityRange f32_zero) = false /\
  f32_gt (f32_abs f32_zero) (nth index kYunyiNativeTorqueRange f32_zero) = false.
Proof.
  intros Hs Hi. pose proof (joint_table_at side index Hs Hi) as H.
  unfold joint_table_ok in H. rewrite !andb_true_iff, !negb_true_iff in H.
  destruct H as ((((Hl & Hu) & Hd) & Hv) & Ht). apply f32_is_unit_eq in Hd.
  split_and!; try first [done|by apply f32_exact_number].
  eexists. exact Hd.
Qed.

Lemma joint_velocity_limit side index motor :
  (index < PRODUCT_ARM_DOF)%nat -> pj_velocity_limit (product_joint side index motor) = f32_of_Z 5.
Proof. do 7 (destruct index as [|index]; [done|]). unfold PRODUCT_ARM_DOF. lia. Qed.

(** One joint: the product's limits and those of its motor. *)
Lemma joint_position_agrees side index motor joints motors (p : f32) k :
  (side < 2)%nat -> (index < PRODUCT_ARM_DOF)%nat -> f32_exact p = true ->
  joints !! motor =
    Some (joint_control_config (product_joint_config index (product_joint side index motor))) ->
  validate_product_position (product_joint side index motor) p k = None <->
  validate_position_velocity_torque joints motors motor
    (f32_mul (pj_direction (product_joint side index motor)) p) f32_zero f32_zero = None.
Proof.
  intros Hs Hi Hp Hj. pose proof (f32_exact_number p Hp) as Np.
  destruct (joint_table_spec side index motor Hs Hi) as (Hl & Hu & [s Hd] & Hv & Ht).
  unfold f32_exact in Hp. apply andb_prop in Hp as [Vp Fp].
  unfold validate_position_velocity_torque, validate_product_position. rewrite Hj.
  unfold joint_control_config, product_joint_config. cbn [hard_lower_position hard_upper_position
    soft_lower_position soft_upper_position jcc_lower_position jcc_upper_position
    jc_velocity_limit jc_torque_limit jcc_velocity_limit jcc_torque_limit].
  rewrite Hd, Hv, Ht, f32_mul_unit by exact Vp. destruct s.
  - replace (f32_isfinite (f32_opp p)) with true by (by destruct p).
    replace (f32_gt (f32_unit true) f32_zero) with false by reflexivity.
    unfold f32_gt. fold (f32_lt (f32_opp (pj_lower (product_joint side index motor))) (f32_opp p)).
    fold (f32_lt (pj_upper (product_joint side index motor)) p). rewrite !f32_lt_opp by done.
    rewrite orb_comm. cbn [negb andb f32_isfinite f32_zero]. by repeat case_match.
  - rewrite Fp. replace (f32_gt (f32_unit false) f32_zero) with true by reflexivity.
    cbn [negb andb f32_isfinite f32_zero]. by repeat case_match.
Qed.

(** What [configure_joints] stores. *)
Lemma collect_joints_lookup velocity motors configured l joints :
  collect_joints velocity motors configured l = inr joints ->
  configured ⊆ joints /\
  forall v, v ∈ l -> joints !! jcc_motor v = Some (joint_control_config v).
Proof.
  revert configured. induction l as [|v l IH]; intros configured; cbn [collect_joints].
  { intros [= <-]. split; [done|]. by intros v ?%not_elem_of_nil. }
  case_match; [done|]. case_match eqn:Hv; [done|]. intros [Hsub Hl]%IH. split.
  - etrans; [by apply insert_subseteq|done].
  - intros w [->|Hw]%elem_of_cons; [|by apply Hl]. eapply lookup_weaken; [|done].
    apply lookup_insert_eq.
Qed.

(** The targets in the motors' directions. *)
Definition native_target (r : YunyiRuntimeResources) (positions : list f32) (i : nat) :
    ArticoreJointTarget :=
  Build_ArticoreJointTarget (pj_motor (joint_at r i))
    (f32_mul (pj_direction (joint_at r i)) (at_ positions i)).

Definition native_refusal (joints : gmap handle JointControlConfig) (motors : list MotorRecord)
    (t : ArticoreJointTarget) : option exn :=
  validate_position_velocity_torque joints motors (jt_motor t) (jt_target_position t)
    f32_zero f32_zero.

Section Configured.
Context (arm_motors : list handle) (r : YunyiRuntimeResources).
Context (Harm : length arm_motors = PRODUCT_DUAL_ARM_DOF).
Context (Hr : ry_joints r = (configure_joint_table arm_motors).1).

Lemma joint_at_configured i :
  (i < PRODUCT_DUAL_ARM_DOF)%nat ->
  joint_at r i = product_joint (i / PRODUCT_ARM_DOF) (i mod PRODUCT_ARM_DOF) (nth i arm_motors 0%nat).
Proof.
  intros Hi. unfold joint_at. rewrite Hr. cbn. rewrite !nth_lookup, list_lookup_imap.
  destruct (arm_motors !! i) eqn:E; [done|]. apply lookup_ge_None in E. lia.
Qed.

Lemma config_configured i :
  (i < PRODUCT_DUAL_ARM_DOF)%nat ->
  product_joint_config (i mod PRODUCT_ARM_DOF) (joint_at r i) ∈ (configure_joint_table arm_motors).2.
Proof.
  intros Hi. rewrite joint_at_configured by done. cbn. apply list_elem_of_lookup. exists i.
  rewrite !list_lookup_imap, nth_lookup.
  destruct (arm_motors !! i) eqn:E; [done|]. apply lookup_ge_None in E. lia.
Qed.

Lemma joint_side i :
  (i < PRODUCT_DUAL_ARM_DOF)%nat ->
  (i / PRODUCT_ARM_DOF < 2)%nat /\ (i mod PRODUCT_ARM_DOF < PRODUCT_ARM_DOF)%nat.
Proof.
  intros Hi. split; [|by apply Nat.mod_upper_bound]. by apply Nat.Div0.div_lt_upper_bound.
Qed.

Context (velocity : f32) (motors : list MotorRecord) (joints : gmap handle JointControlConfig).
Context (Hj : collect_joints velocity motors ∅ (configure_joint_table arm_motors).2 = inr joints).

Lemma target_agrees positions i k :
  (i < PRODUCT_DUAL_ARM_DOF)%nat -> f32_exact (at_ positions i) = true ->
  validate_product_position (joint_at r i) (at_ positions i) k = None <->
  native_refusal joints motors (native_target r positions i) = None.
Proof.
  intros Hi Hp. destruct (joint_side i Hi) as [Hs Hm].
  destruct (collect_joints_lookup _ _ _ _ _ Hj) as [_ Hl].
  specialize (Hl _ (config_configured i Hi)). unfold native_refusal, native_target. cbn.
  rewrite joint_at_configured in * by done. by apply joint_position_agrees.
Qed.

Lemma velocity_within i v :
  (i < PRODUCT_DUAL_ARM_DOF)%nat -> f32_gt v (f32_of_Z 5) = false ->
  f32_gt v (pj_velocity_limit (joint_at r i)) = false.
Proof.
  intros Hi Hv. destruct (joint_side i Hi) as [Hs Hm]. rewrite joint_at_configured by done.
  by rewrite joint_velocity_limit.
Qed.

Lemma product_targets_exact v positions i l targets :
  f32_gt v (f32_of_Z 5) = false -> forallb f32_exact positions = true ->
  length positions = PRODUCT_DUAL_ARM_DOF -> (i + length l <= PRODUCT_DUAL_ARM_DOF)%nat ->
  product_targets r v positions i l = inr targets <->
  targets = map (native_target r positions) (seq i (length l)) /\
  Forall (fun t => native_refusal joints motors t = None) targets.
Proof.
  intros Hv Hp Hn. revert i targets. induction l as [|x l IH]; intros i targets Hi.
  { cbn. split; [intros [= <-]; by split|by intros [-> _]]. }
  cbn [length] in *. cbn [product_targets seq map].
  rewrite velocity_within by (done || lia).
  assert (Hx : f32_exact (at_ positions i) = true).
  { rewrite forallb_forall in Hp. apply Hp, nth_In. lia. }
  pose proof (target_agrees positions i i ltac:(lia) Hx) as Ha.
  destruct (validate_product_position _ _ _) as [e|].
  { split; [done|]. intros [-> Hf]. apply Forall_cons in Hf as [Hf _]. by apply Ha in Hf. }
  specialize (IH (S i)). destruct (product_targets r v positions (S i) l) as [e|rest].
  - split; [done|]. intros [-> Hf]. apply Forall_cons in Hf as [_ Hf].
    specialize (IH (map (native_target r positions) (seq (S i) (length l))) ltac:(lia)).
    destruct IH as [_ IH]. discriminate IH. by split.
  - destruct (IH rest ltac:(lia)) as [[-> Hf] _]; [done|]. split.
    + intros [= <-]. split; [done|]. constructor; [by apply Ha|done].
    + by intros [-> _].
Qed.

End Configured.

(** ** Percentages *)

Lemma percent_upto lower p :
  f32_valid p -> percent_valid lower p = true -> f32_number lower -> 0 <= f32_place lower ->
  f32_upto (f32_units f32_hundred) p.
Proof.
  intros V H Nl Hl. unfold percent_valid in H. rewrite !andb_true_iff, !negb_true_iff in H.
  destruct H as [[F Hlow] Hhigh]. assert (N : f32_number p) by (split; [done|by destruct p]).
  unfold f32_gt in Hhigh. change (SFltb percent_hundred p) with (f32_lt percent_hundred p) in Hhigh.
  rewrite f32_lt_place in Hlow by done. rewrite f32_lt_place in Hhigh by done.
  rewrite !(f32_place_finite p) in * by done. rewrite Z.ltb_ge in *.
  split; [done|]. split; [done|].
  change (f32_place percent_hundred) with (f32_units f32_hundred) in Hhigh. lia.
Qed.

(** The largest limits of a product joint. *)
Definition maximum_of (table : list f32) (i : nat) : f32 :=
  nth (i mod PRODUCT_ARM_DOF) table f32_zero.

Lemma pv_tables_safe :
  forallb percent_safe
    (kYunyiMitFastFollowMaximumVelocity :: kYunyiOrdinaryPvJointMaximumVelocities ++
     kYunyiOrdinaryPvJointMaximumAccelerations) = true.
Proof. vm_compute. reflexivity. Qed.

Lemma table_safe v :
  v ∈ kYunyiMitFastFollowMaximumVelocity :: kYunyiOrdinaryPvJointMaximumVelocities ++
      kYunyiOrdinaryPvJointMaximumAccelerations -> percent_safe v = true.
Proof.
  pose proof pv_tables_safe as H. rewrite forallb_forall in H. intros Hv. by apply H, list_elem_of_In.
Qed.

Lemma percent_safe_upto v : percent_safe v = true -> f32_upto (f32_units v) v.
Proof.
  unfold percent_safe, product_safe. rewrite !andb_true_iff.
  intros [[[[[[D _] _] _] _] _] _]. by apply f32_dense_upto.
Qed.

Lemma percent_of_upto v x p :
  percent_safe v = true -> f32_upto (f32_units v) x -> f32_upto (f32_units f32_hundred) p ->
  f32_upto (f32_units v) (percent_of p x).
Proof. apply f32_percent_upto. Qed.

Lemma one_number : f32_number f32_one /\ 0 <= f32_place f32_one.
Proof. split; [by split|]. by vm_compute. Qed.

Lemma percent_one_upto p :
  f32_valid p -> percent_valid f32_one p = true -> f32_upto (f32_units f32_hundred) p.
Proof. intros V H. destruct one_number. by apply (percent_upto f32_one). Qed.

Lemma fast_follow_within p :
  f32_valid p -> percent_valid f32_zero p = true ->
  f32_gt (yunyi_mit_fast_follow_reference_velocity p) (f32_of_Z 5) = false.
Proof.
  intros V H. pose proof (percent_upto f32_zero p V H ltac:(by split) ltac:(done)) as Hp.
  assert (S : percent_safe kYunyiMitFastFollowMaximumVelocity = true) by (apply table_safe; left).
  pose proof (percent_of_upto _ _ p S (percent_safe_upto _ S) Hp) as (Vx & Fx & Hx).
  unfold yunyi_mit_fast_follow_reference_velocity, f32_gt.
  set (x := percent_of _ _) in *. change (SFltb (f32_of_Z 5) x) with (f32_lt (f32_of_Z 5) x).
  rewrite f32_lt_place; [|by split|split; [done|by destruct x]].
  rewrite (f32_place_finite x) by done. apply Z.ltb_ge. apply Hx.
Qed.

(** A limit of the profile, of the joint with an index. *)
Lemma velocity_limit_within index speed maximum :
  f32_valid speed -> percent_valid f32_one speed = true ->
  f32_valid maximum -> percent_valid f32_one maximum = true ->
  f32_upto (f32_units (maximum_of kYunyiOrdinaryPvJointMaximumVelocities index))
    (yunyi_ordinary_pv_velocity_limit index speed maximum).
Proof.
  intros Vs Hs Vm Hm. unfold yunyi_ordinary_pv_velocity_limit. fold (maximum_of kYunyiOrdinaryPvJointMaximumVelocities index).
  assert (S : percent_safe (maximum_of kYunyiOrdinaryPvJointMaximumVelocities index) = true).
  { apply table_safe, list_elem_of_further, elem_of_app. left. apply list_elem_of_In, nth_In.
    by apply Nat.mod_upper_bound. }
  apply percent_of_upto; [done| |by apply percent_one_upto].
  apply percent_of_upto; [done|by apply percent_safe_upto|by apply percent_one_upto].
Qed.

Lemma scale_upto_one p : f32_upto (f32_units f32_hundred) p -> f32_upto (f32_units f32_one) (f32_div p percent_hundred).
Proof.
  intros Hp. eapply (f32_div_upto p percent_hundred _ (f32_units f32_hundred)); [exact Hp| | | |].
  - apply f32_dense_upto. by vm_compute.
  - by vm_compute.
  - apply f32_bound_of_units; [done|]. by vm_compute.
  - destruct Hp as (_ & _ & Hp). change (f32_units percent_hundred) with (f32_units f32_hundred).
    replace (f32_units f32_one) with (2 ^ 149) by (by vm_compute). lia.
Qed.

Lemma acceleration_limit_within index speed maximum :
  f32_valid speed -> percent_valid f32_one speed = true ->
  f32_valid maximum -> percent_valid f32_one maximum = true ->
  f32_upto (f32_units (maximum_of kYunyiOrdinaryPvJointMaximumAccelerations index))
    (yunyi_ordinary_pv_acceleration_limit index speed maximum).
Proof.
  intros Vs Hs Vm Hm. unfold yunyi_ordinary_pv_acceleration_limit.
  fold (maximum_of kYunyiOrdinaryPvJointMaximumAccelerations index).
  set (v := maximum_of _ index).
  assert (S : percent_safe v = true).
  { apply table_safe, list_elem_of_further, elem_of_app. right. apply list_elem_of_In, nth_In.
    by apply Nat.mod_upper_bound. }
  pose proof (percent_safe_upto v S) as Hv.
  pose proof (percent_of_upto v v maximum S Hv (percent_one_upto _ Vm Hm)) as Hx.
  pose proof (scale_upto_one speed (percent_one_upto _ Vs Hs)) as Hy.
  eapply (f32_mul_upto _ _ _ _ _ Hx Hy).
  - apply f32_bound_of_units; [apply Hv|apply Hv].
  - destruct Hx as (_ & _ & Hx), Hy as (_ & _ & Hy).
    replace (f32_units f32_one) with (2 ^ 149) in Hy by (by vm_compute). nia.
Qed.
