(* ===== verification/ProductSystem.v ===== *)
(** * The product as a system of threads

    The discipline of the safety runtime carries over to the product: every
    operation of the runtime that the product calls, under whatever mutexes of
    its own, is an operation of a client.  It holds as long as the product
    points to its runtime, which only a disconnect ends. *)

From Stdlib Require Import String.
From S2P Require Import Prelude Float32 Float64 PvShaping RuntimeTypes Threads NativeTypes Trajectory SafetyState Motions Gripper Safety Feedback Disable Faults Commands Planning JointPosition Enable Lifecycle Construct Maintenance Power Recover TrajectoryCycle Completion Gravity ArmCycle SafetyWorker SafetyLaws SafetyActions MotionActions LifecycleActions SafetyDiscipline SafetyThreads SafetyLifecycle SafetyMotion SafetyRecovery SafetyApi SafetyTermination SafetySystem ServiceState Health Yunyi Product ProductCommands ProductOps Facade.
#[local] Open Scope mdl_scope.
#[local] Open Scope thread_scope.

(** ** The runtime the product points to *)

Definition live {B} (s : Product B) : option (Safety B) :=
  if pd_runtime_set s then pd_runtime s else None.

(** What holds of the runtime while there is one. *)
Definition while_live {B} (P : Safety B -> Prop) (s : Product B) : Prop :=
  match live s with Some r => P r | None => True end.

(** A move of the runtime, or none, or its end. *)
Definition live_step {B} (R : Safety B -> Safety B -> Prop) (s s' : Product B) : Prop :=
  match live s, live s' with
  | Some r, Some r' => R r r'
  | None, Some _ => False
  | _, None => True
  end.

#[export] Instance live_step_preorder {B} (R : Safety B -> Safety B -> Prop) `{!PreOrder R} :
  PreOrder (live_step R).
Proof.
  split.
  - intros s. unfold live_step. by destruct (live s).
  - intros s1 s2 s3. unfold live_step. destruct (live s1), (live s2), (live s3); try done. by etrans.
Qed.

Lemma live_step_mono {B} (R R' : Safety B -> Safety B -> Prop) s s' :
  (forall x y, R x y -> R' x y) -> live_step R s s' -> live_step R' s s'.
Proof. intros H. unfold live_step. destruct (live s), (live s'); auto. Qed.

Lemma live_step_keeps {B} (R : Safety B -> Safety B -> Prop) (P : Safety B -> Prop) s s' :
  (forall x y, R x y -> P x -> P y) -> live_step R s s' -> while_live P s -> while_live P s'.
Proof. intros H. unfold live_step, while_live. destruct (live s), (live s'); try done. apply H. Qed.

(** An action beside the runtime. *)
Definition beside {B} (s s' : Product B) : Prop := live s' = live s \/ live s' = None.

Lemma beside_step {B} (R : Safety B -> Safety B -> Prop) `{!Reflexive R} s s' :
  beside s s' -> live_step R s s'.
Proof. unfold beside, live_step. intros [-> | ->]; by destruct (live s). Qed.

Lemma beside_while {B} (P : Safety B -> Prop) s s' : beside s s' -> while_live P s -> while_live P s'.
Proof. unfold beside, while_live. by intros [-> | ->]. Qed.

(** No action brings a runtime back. *)
Definition gone {B} (s s' : Product B) : Prop := live s = None -> live s' = None.

Lemma beside_gone {B} (s s' : Product B) : beside s s' -> gone s s'.
Proof. unfold beside, gone. by intros [-> | ->]. Qed.

Lemma acts_gone_lift {B A} (p : prog (Safety B) A) : acts gone (lift p).
Proof.
  induction p as [o|X g f k IH]; cbn [lift acts]; [done|]. split; [|by intros [x|]].
  intros s _. unfold gone, live. destruct (pd_runtime s) eqn:E; cbn; [|by rewrite E].
  by destruct (pd_runtime_set s).
Qed.

(** ** A program of the runtime inside the product *)

Section Lifted.
Context {B : Type} (R G : Safety B -> Safety B -> Prop) `{!PreOrder R}.

Lemma wp_gone {A} (p : prog (Product B) A) (Q : outcome A -> Product B -> Prop) s :
  acts gone p -> (forall o s', live s' = None -> Q o s') -> live s = None ->
  wp (live_step R) (live_step G) p Q s.
Proof.
  intros Hp HQ Hs. eapply wp_mono with (Q1 := fun _ s' => live s' = None); [by auto|].
  eapply wp_acts; [exact Hp| | |done].
  - intros s1 s2 H1 H2. specialize (H2 H1). unfold live_step. by rewrite H1, H2.
  - intros s1 s2. unfold live_step. intros H H1. rewrite H1 in H. by destruct (live s2).
Qed.

Lemma wp_lift {A} (p : prog (Safety B) A) (Q : outcome A -> Safety B -> Prop) s :
  (forall r, live s = Some r -> wp R G p Q r) ->
  wp (live_step R) (live_step G) (lift p) (fun o s' => while_live (Q o) s') s.
Proof.
  destruct (live s) as [r|] eqn:Hs; intros Hp.
  2: { apply wp_gone; [apply acts_gone_lift| |done]. intros o s' H. unfold while_live. by rewrite H. }
  specialize (Hp r eq_refl). revert s r Hs Hp.
  induction p as [o|X g f k IH]; intros s r Hs Hp; cbn [lift wp].
  - intros s1 H1. unfold live_step in H1. rewrite Hs in H1. unfold while_live.
    destruct (live s1) as [r1|]; [|done]. by apply Hp.
  - intros s1 H1 Hg. unfold live_step in H1. rewrite Hs in H1. clear Hs.
    destruct (live s1) as [r1|] eqn:E1.
    + unfold live in E1. destruct (pd_runtime_set s1) eqn:Es; [|done]. rewrite E1 in *.
      destruct (Hp r1 H1 Hg) as [HG Hk]. cbn [fst snd].
      assert (El : live (s1 <| pd_runtime := Some (snd (f r1)) |>) = Some (snd (f r1)))
        by (unfold live; cbn; by rewrite Es).
      split; [|by apply (IH _ _ _ El)]. unfold live_step. rewrite El. unfold live. by rewrite Es, E1.
    + pose proof (acts_gone_lift (Act g f k)) as [Ha Hk].
      specialize (Ha s1 Hg E1). cbn [fst snd] in *. split.
      * unfold live_step. by rewrite E1, Ha.
      * apply wp_gone; [apply Hk| |done]. intros o s' H. unfold while_live. by rewrite H.
Qed.

End Lifted.

(** ** What a program of a client owes *)

Section Clients.
Context {B : Type} `{!MotorBackend B} `{!ArmDynamics} {rec : Recoverable}.
Context (i : nat).

Definition pstands : Product B -> Prop := while_live (stands i false 0 anything).

Definition pkeeps {A} (p : Pd (B := B) A) : Prop :=
  forall s, pstands s ->
    wp (live_step (rely i)) (live_step (guarantee i)) p (fun o s' => ended o -> pstands s') s.

Lemma guarantee_reflexive c s : stands (B := B) i c 0 anything s -> guarantee i s s.
Proof.
  intros (_ & Hd & _). split; [|by left|by left|done| |done].
  - rewrite Hd. apply worker_may, worker_edge_refl.
  - exists []. by rewrite app_nil_r.
Qed.

Lemma pstands_rely s s' : live_step (rely i) s s' -> pstands s -> pstands s'.
Proof. apply live_step_keeps. intros x y. apply stands_rely, _. Qed.

Lemma pkeeps_done {A} (o : outcome A) : pkeeps (Done o).
Proof. intros s Hs s1 Hr _. by eapply pstands_rely. Qed.

Lemma pkeeps_then {A X} (p : Pd A) (k : A -> Pd X) :
  pkeeps p -> (forall a, pkeeps (k a)) -> pkeeps (pbind p k).
Proof.
  intros Hp Hk s Hs. apply wp_bind; [apply _|]. eapply wp_mono; [|by apply Hp].
  intros [a|e| |] s' Hs'; simpl; [by apply Hk, Hs'|done..].
Qed.

Lemma pkeeps_handle {A} (p : Pd A) h :
  pkeeps p -> (forall e, pkeeps (h e)) -> pkeeps (pcatch p h).
Proof.
  intros Hp Hh s Hs. apply wp_catch; [apply _|]. eapply wp_mono; [|by apply Hp].
  intros [a|e| |] s' Hs'; [done|by apply Hh, Hs'|done..].
Qed.

Lemma beside_guarantee (s s' : Product B) :
  pstands s -> beside s s' -> live_step (guarantee i) s s' /\ pstands s'.
Proof.
  intros Hs Hb. split; [|by eapply beside_while]. unfold pstands, while_live in Hs.
  unfold live_step. destruct Hb as [-> | ->]; destruct (live s); try done.
  by eapply guarantee_reflexive.
Qed.

Lemma pkeeps_beside {A} (p : Pd A) : acts beside p -> pkeeps p.
Proof.
  intros Hp s Hs. eapply wp_mono with (Q1 := fun _ s' => pstands s'); [done|].
  eapply wp_acts; [exact Hp| |intros ??; apply pstands_rely|exact Hs].
  intros s1 s2. apply beside_guarantee.
Qed.

Lemma pkeeps_lift {A} (p : Rt (B := B) A) :
  keeps i false 0 anything p -> pkeeps (lift p).
Proof.
  intros Hp s Hs.
  eapply wp_mono; [|eapply wp_lift with (Q := fun o r => ended o -> stands i false 0 anything r)].
  - intros o s'. unfold pstands, while_live. destruct (live s'); auto.
  - intros r Hr. apply Hp. unfold pstands, while_live in Hs. by rewrite Hr in Hs.
Qed.

Lemma pkeeps_finally {A} (p : Pd A) release :
  pkeeps p -> (forall s, beside s (release s)) -> pkeeps (pfinally p release).
Proof.
  intros Hp Hr s Hs. apply wp_finally; [apply _|]. eapply wp_mono; [|by apply Hp].
  intros o s' Ho He. destruct (beside_guarantee s' (release s') (Ho He) (Hr s')) as [HG Hs'].
  split; [exact HG|]. intros s2 H2. by eapply pstands_rely.
Qed.

Lemma wp_premap {T} (R G : T -> T -> Prop) `{!PreOrder R} {A X} (h : outcome A -> X)
    (p : prog T A) (Q : outcome X -> T -> Prop) s :
  wp R G p (fun o s' => Q (Returned (h o)) s') s -> wp R G (premap h p) Q s.
Proof.
  revert s. induction p as [o|Y g f k IH]; intros s; cbn [premap wp]; [done|].
  intros Hw s1 H1 Hg. destruct (Hw s1 H1 Hg). auto.
Qed.

Lemma pkeeps_ensuring {A} (p : Pd A) destructor :
  pkeeps p -> pkeeps destructor -> pkeeps (ensuring p destructor).
Proof.
  intros Hp Hd s Hs. apply wp_bind; [apply _|]. apply wp_premap; [apply _|].
  eapply wp_mono; [|by apply Hp]. intros o s' Ho. cbn [after].
  destruct o as [a|e| |]; try by intros s1 _ [].
  all: apply pkeeps_then; [exact Hd|intros _; apply pkeeps_done|by apply Ho].
Qed.

End Clients.

(** ** The operations of the runtime that only the product calls *)

Section RuntimeOperations.
Context {B : Type} `{!MotorBackend B} `{!ArmDynamics} {rec : Recoverable}.
Context (i : nat) (Hi : i <> 0%nat).
Local Notation keep p := (keeps i false 0 anything p).

Lemma acts_record operation code error fr :
  acts (rt_step worker_edges fr) (record (B := B) operation code error).
Proof.
  apply acts_write. intros s. unfold operation_recorded. cbv zeta.
  apply core_step; try reflexivity; [|by split]. apply same_flags_edge. cbn. by destruct (explains _ _ _ _).
Qed.
Hint Resolve acts_record : acts.

Lemma probes_collect_health fr : acts (probed fr) (collect_motor_feedback_health (B := B)).
Proof. unfold collect_motor_feedback_health, collect_motor. probe_tac. Qed.

Lemma probes_report_gripper l m fr : acts (probed fr) (report_gripper (B := B) l m).
Proof. unfold report_gripper, live_age. probe_tac. Qed.
Hint Resolve probes_collect_health probes_report_gripper : acts.

Lemma acts_health_report now fr :
  acts (rt_step worker_edges fr) (atomically (
    do items <- collect_motor_feedback_health;
    do motors <- read rt_motors;
    do grippers <- pfold motors (report_gripper (B := B)) [];
    do s <- read (fun s : Safety B => s);
    pret (health_report s now items grippers))).
Proof. apply acts_atomically. probe_tac. Qed.
Hint Resolve acts_health_report : acts.

Lemma keeps_health : keep (health (B := B) i).
Proof. unfold health. keep_tac. Qed.

Lemma acts_planned_arm joints fr :
  acts (rt_step worker_edges fr) (planned_arm_sample (B := B) joints).
Proof. unfold planned_arm_sample, trajectory_sample. rt_tac. Qed.
Hint Resolve acts_planned_arm : acts.

Lemma acts_planned_reference enqueue joints fr :
  acts (rt_step worker_edges fr) (planned_reference (B := B) enqueue joints).
Proof. unfold planned_reference, planned_trajectory_tail_sample. rt_tac. Qed.
Hint Resolve acts_planned_reference : acts.

Lemma keeps_begin_planning enqueue joints : keep (begin_planning (B := B) i enqueue joints).
Proof. unfold begin_planning. keep_tac. Qed.

Hint Resolve keeps_start_trajectory : keeps.
Lemma keeps_start_planned enqueue joints reference name rq operation token :
  keep (start_planned (B := B) i enqueue joints reference name rq operation token).
Proof. unfold start_planned, refuse_with. keep_tac. Qed.

Lemma keeps_configure_value mode : keep (configure_mode_value (B := B) i mode).
Proof.
  unfold configure_mode_value. destruct (control_mode_of mode).
  - apply keeps_maintenance.
  - apply keeps_lifecycle_split; keep_tac.
Qed.

Lemma keeps_planned_sample joints :
  keep (with_command i (planned_arm_sample (B := B) joints)).
Proof. keep_tac. Qed.

End RuntimeOperations.

#[export] Hint Resolve acts_record acts_planned_reference acts_planned_arm : acts.
#[export] Hint Resolve keeps_health keeps_begin_planning keeps_start_planned keeps_configure_value
  keeps_planned_sample : keeps.

(** ** The operations of the product *)

(** Follows a program of the product. *)
Ltac beside_leaf :=
  apply pkeeps_beside; first [apply acts_await | apply acts_act | apply acts_write];
  intros; left; cbn; reflexivity.
Ltac pkeep_step :=
  match goal with
  | |- forall _, _ => intro
  | |- pkeeps _ (match ?x with _ => _ end) => destruct x
  | |- pkeeps _ (Done _) => apply pkeeps_done
  | |- pkeeps _ (pret _) => apply pkeeps_done
  | |- pkeeps _ (pthrow _) => apply pkeeps_done
  | |- pkeeps _ (lift _) =>
      first [solve [eauto 2 with pkeeps] | apply pkeeps_lift; solve [eauto 3 with keeps | keep_tac]]
  | |- pkeeps _ (read _) => beside_leaf
  | |- pkeeps _ (pwhen ?b _) => unfold pwhen; destruct b
  | |- pkeeps _ (ensuring _ _) => apply pkeeps_ensuring
  | |- pkeeps _ _ => first [solve [eauto 2 with pkeeps] | apply pkeeps_then | apply pkeeps_handle]
  end.
Ltac pkeep_tac := repeat pkeep_step.

Create HintDb pkeeps discriminated.

Section ProductOperations.
Context {B : Type} `{!MotorBackend B} `{!ArmDynamics} {rec : Recoverable}.
Context `{!MotorSnapshots B} `{!CartesianPlanner} `{!Libm} `{!RobotModels}.
Context (i : nat) (Hi : i <> 0%nat).
Local Notation keep p := (pkeeps (B := B) i p).
Implicit Types A : Type.

Lemma pkeeps_on_core {A} g (f : ProductCore -> A * ProductCore) : keep (on_core g f).
Proof.
  unfold on_core. apply pkeeps_then; [|intros r; by destruct r; apply pkeeps_done].
  apply pkeeps_beside, acts_await. intros s _. left. unfold live.
  destruct (pd_core s); [|done]. by destruct (f p).
Qed.
Hint Resolve pkeeps_on_core : pkeeps.

Lemma pkeeps_get_core {A} (f : ProductCore -> A) : keep (get_core f).
Proof. apply pkeeps_on_core. Qed.
Lemma pkeeps_set_core f : keep (set_core f).
Proof. apply pkeeps_on_core. Qed.
Hint Resolve pkeeps_get_core pkeeps_set_core : pkeeps.

Lemma pkeeps_with_mutex {A} m (p : Pd (B := B) A) : keep p -> keep (with_mutex i m p).
Proof.
  intros Hp. unfold with_mutex. apply pkeeps_then; [apply pkeeps_on_core|]. intros _.
  apply pkeeps_finally; [done|]. intros s. left. unfold live, unlock_core. by destruct s.
Qed.

Lemma pkeeps_has_runtime : keep has_runtime.
Proof. unfold has_runtime. pkeep_tac. Qed.
Hint Resolve pkeeps_has_runtime : pkeeps.
Lemma pkeeps_checked : keep checked.
Proof. unfold checked. pkeep_tac. Qed.
Hint Resolve pkeeps_checked : pkeeps.
Lemma pkeeps_checked_yunyi : keep checked_yunyi.
Proof. unfold checked_yunyi. pkeep_tac. Qed.
Lemma pkeeps_current_yunyi : keep current_yunyi.
Proof. unfold current_yunyi, pdefined. pkeep_tac. Qed.
Hint Resolve pkeeps_checked_yunyi pkeeps_current_yunyi : pkeeps.

Lemma pkeeps_on_runtime {A} (p : Rt (B := B) A) :
  keeps i false 0 anything p -> keep (on_runtime p).
Proof. intros Hp. unfold on_runtime. apply pkeeps_then; [auto with pkeeps|]. intros _. by apply pkeeps_lift. Qed.

Lemma pkeeps_record operation code error : keep (lift (record operation code error)).
Proof. pkeep_tac. Qed.
Hint Resolve pkeeps_record : pkeeps.
Lemma pkeeps_record_ok operation : keep (record_ok operation).
Proof. apply pkeeps_on_runtime. keep_tac. Qed.
Lemma pkeeps_record_if operation code error : keep (record_if operation code error).
Proof. unfold record_if. pkeep_tac. Qed.
Hint Resolve pkeeps_record_ok pkeeps_record_if : pkeeps.

Lemma pkeeps_catching {A} (p : Pd (Native A)) invalid failed :
  keep p -> (forall what, keep (invalid what)) -> (forall what, keep (failed what)) ->
  keep (catching p invalid failed).
Proof. intros Hp Hv Hf. unfold catching. apply pkeeps_handle; [done|]. intros e. destruct e; first [apply Hv | apply Hf | apply pkeeps_done]. Qed.

Lemma pkeeps_catching_all {A} (p : Pd (Native A)) failed :
  keep p -> (forall what, keep (failed what)) -> keep (catching_all p failed).
Proof. intros. by apply pkeeps_catching. Qed.

Lemma pkeeps_call {A} (p : Pd A) : keep p -> keep (call p).
Proof. intros Hp. unfold call. pkeep_tac. all: try done. Qed.

Lemma pkeeps_commanding {A} prefix (p : Pd (Native A)) : keep p -> keep (commanding prefix p).
Proof.
  intros Hp. unfold commanding, record_product_command_error.
  apply pkeeps_catching; [done|intros; pkeep_tac..].
Qed.

Lemma pkeeps_recording {A} operation (p : Pd (Native A)) : keep p -> keep (recording operation p).
Proof. intros Hp. apply pkeeps_catching; [done|intros; pkeep_tac..]. Qed.

Lemma pkeeps_querying {A} (p : Pd (Native A)) : keep p -> keep (querying p).
Proof. intros Hp. apply pkeeps_catching; [done|intros; pkeep_tac..]. Qed.

Lemma pkeeps_collect {X A} (l : list X) (f : X -> Pd A) : (forall x, keep (f x)) -> keep (collect l f).
Proof. intros Hf. induction l as [|x l IH]; cbn [collect]; pkeep_tac; auto. Qed.

End ProductOperations.

#[export] Hint Resolve pkeeps_on_core pkeeps_get_core pkeeps_set_core pkeeps_has_runtime
  pkeeps_checked pkeeps_checked_yunyi pkeeps_current_yunyi pkeeps_record pkeeps_record_ok
  pkeeps_record_if : pkeeps.

Ltac pd_step :=
  match goal with
  | |- pkeeps _ (with_mutex _ _ _) => apply pkeeps_with_mutex
  | |- pkeeps _ (on_runtime _) => apply pkeeps_on_runtime; solve [eauto 3 with keeps | keep_tac]
  | |- pkeeps _ (catching _ _ _) => apply pkeeps_catching
  | |- pkeeps _ (catching_all _ _) => apply pkeeps_catching_all
  | |- pkeeps _ (call _) => apply pkeeps_call
  | |- pkeeps _ (commanding _ _) => apply pkeeps_commanding
  | |- pkeeps _ (recording _ _) => apply pkeeps_recording
  | |- pkeeps _ (querying _) => apply pkeeps_querying
  | |- pkeeps _ (collect _ _) => apply pkeeps_collect
  | |- pkeeps _ (refuse_with ?x) => unfold refuse_with; destruct x
  | |- pkeeps _ (raise ?x) => unfold raise; destruct x
  | |- _ => pkeep_step
  end.
Ltac pd_tac := repeat pd_step.

Section ProductMethods.
Context {B : Type} `{!MotorBackend B} `{!ArmDynamics} {rec : Recoverable}.
Context `{!MotorSnapshots B} `{!CartesianPlanner} `{!Libm} `{!RobotModels}.
Context (i : nat) (Hi : i <> 0%nat).
Local Notation keep p := (pkeeps (B := B) i p).

Hint Resolve keeps_enable keeps_disable keeps_close keeps_connect keeps_maintenance keeps_estop
  keeps_start_gravity keeps_stop_gravity keeps_start_follow keeps_stop_follow
  keeps_clear_faults keeps_configure_mode_for_connect keeps_set_grippers keeps_cancel_all
  keeps_set_profile keeps_profile_limits keeps_set_targets : keeps.

(** *** Commands *)

Lemma pkeeps_require_mode mode refusal : keep (require_mode mode refusal).
Proof. unfold require_mode. pd_tac. Qed.
Hint Resolve pkeeps_require_mode : pkeeps.

Lemma pkeeps_install positions percent : keep (install_product_joint_positions i positions percent).
Proof. unfold install_product_joint_positions. pd_tac. Qed.
Hint Resolve pkeeps_install : pkeeps.

Lemma pkeeps_set_joint_pv positions percent : keep (native_runtime_set_joint_pv i positions percent).
Proof. unfold native_runtime_set_joint_pv. pd_tac. Qed.

Lemma pkeeps_set_joint_mit a count : keep (native_runtime_set_joint_mit a count).
Proof. unfold native_runtime_set_joint_mit. pd_tac. Qed.

Lemma pkeeps_set_joint_mit_fast positions percent :
  keep (native_runtime_set_joint_mit_fast i positions percent).
Proof. unfold native_runtime_set_joint_mit_fast. pd_tac. Qed.

Lemma pkeeps_change_percent refusal change : keep (change_percent i refusal change).
Proof. unfold change_percent. pd_tac. Qed.
Hint Resolve pkeeps_change_percent : pkeeps.

Lemma pkeeps_set_speed x : keep (native_runtime_set_speed_percent i x).
Proof. unfold native_runtime_set_speed_percent. pd_tac. Qed.
Lemma pkeeps_set_max_speed x : keep (native_runtime_set_max_speed i x).
Proof. unfold native_runtime_set_max_speed. pd_tac. Qed.
Lemma pkeeps_set_max_acceleration x : keep (native_runtime_set_max_acceleration i x).
Proof. unfold native_runtime_set_max_acceleration. pd_tac. Qed.

Lemma pkeeps_get_percent refusal f : keep (get_percent i refusal f).
Proof. unfold get_percent. pd_tac. Qed.

Lemma pkeeps_set_grippers l r strength mode : keep (native_runtime_set_grippers i l r strength mode).
Proof. unfold native_runtime_set_grippers, set_product_grippers_impl. pd_tac. Qed.

Lemma pkeeps_read_motor motor : keep (read_yunyi_motor_state motor).
Proof. unfold read_yunyi_motor_state. pd_tac. Qed.
Hint Resolve pkeeps_read_motor : pkeeps.

Lemma pkeeps_ik_reference product joints : keep (product_ik_reference i product joints).
Proof. unfold product_ik_reference, cached_position. pd_tac. Qed.
Hint Resolve pkeeps_ik_reference : pkeeps.

Lemma pkeeps_solve_ik l r : keep (native_runtime_solve_ik i l r).
Proof. unfold native_runtime_solve_ik, product_clock. pd_tac. Qed.

Lemma pkeeps_speed_scale : keep (cartesian_speed_scale i).
Proof. unfold cartesian_speed_scale. pd_tac. Qed.
Hint Resolve pkeeps_speed_scale : pkeeps.

Lemma pkeeps_move enqueue name operation plan :
  keep (move_trajectory_impl i enqueue name operation plan).
Proof. unfold move_trajectory_impl. pd_tac. Qed.

Lemma pkeeps_stop_motion : keep (native_runtime_stop_motion i).
Proof. unfold native_runtime_stop_motion. pd_tac. Qed.

(** *** What can be read *)

Lemma pkeeps_joint_reading limit joint : keep (read_product_joint limit joint).
Proof. unfold read_product_joint. pd_tac. Qed.
Hint Resolve pkeeps_joint_reading : pkeeps.

Lemma pkeeps_force_level side : keep (lift (gripper_force_level side)).
Proof.
  apply pkeeps_lift, keeps_worker; [apply _|]. unfold gripper_force_level. rt_tac.
Qed.
Hint Resolve pkeeps_force_level : pkeeps.

Lemma pkeeps_read_gripper limit product h side : keep (read_gripper limit product h side).
Proof. unfold read_gripper. pd_tac. Qed.
Hint Resolve pkeeps_read_gripper : pkeeps.

Lemma pkeeps_get_state : keep (native_runtime_get_state i).
Proof. unfold native_runtime_get_state, product_clock. pd_tac. Qed.

Lemma pkeeps_get_limits : keep native_runtime_get_joint_angle_vel_limits.
Proof. unfold native_runtime_get_joint_angle_vel_limits. pd_tac. Qed.

Lemma pkeeps_pose_joint product side index : keep (pose_joint product side index).
Proof. unfold pose_joint. pd_tac. Qed.
Hint Resolve pkeeps_pose_joint : pkeeps.

Lemma pkeeps_get_pose side : keep (native_runtime_get_pose side).
Proof. unfold native_runtime_get_pose, product_clock. pd_tac. Qed.

Lemma pkeeps_set_tcp offset : keep (native_runtime_set_tcp_offset i offset).
Proof. unfold native_runtime_set_tcp_offset. pd_tac. Qed.
Hint Resolve pkeeps_set_tcp : pkeeps.

Lemma pkeeps_get_tcp side : keep (native_runtime_get_tcp_offset side).
Proof. unfold native_runtime_get_tcp_offset. pd_tac. Qed.

Lemma pkeeps_reset_tcp side : keep (native_runtime_reset_tcp_offset i side).
Proof. unfold native_runtime_reset_tcp_offset, pdefined. pd_tac. Qed.

Lemma pkeeps_presence : keep native_runtime_get_gripper_presence.
Proof. unfold native_runtime_get_gripper_presence. pd_tac. Qed.

Lemma pkeeps_has_grippers : keep native_runtime_has_grippers.
Proof. unfold native_runtime_has_grippers. pd_tac. Qed.

Lemma pkeeps_control_mode : keep native_runtime_get_control_mode.
Proof. unfold native_runtime_get_control_mode, control_mode. pd_tac. Qed.

Lemma pkeeps_gravity_status : keep native_runtime_get_gravity_compensation_status.
Proof. unfold native_runtime_get_gravity_compensation_status. pd_tac. Qed.

Lemma pkeeps_follow_status : keep native_runtime_get_bimanual_follow_status.
Proof. unfold native_runtime_get_bimanual_follow_status. pd_tac. Qed.

Lemma pkeeps_get_health : keep (native_runtime_get_health i).
Proof. unfold native_runtime_get_health. pd_tac. Qed.

(** *** Lifecycle *)

Lemma pkeeps_coded code : keep (coded i code).
Proof. unfold coded. pd_tac. Qed.
Hint Resolve pkeeps_coded : pkeeps.

Lemma pkeeps_maintaining p : keep p -> keep (maintaining p).
Proof. intros Hp. unfold maintaining. pd_tac. Qed.

Lemma pkeeps_configure_mode mode : keep (native_runtime_configure_mode i mode).
Proof. unfold native_runtime_configure_mode. apply pkeeps_maintaining. pd_tac. Qed.

Lemma pkeeps_clear : keep (native_runtime_clear_faults i).
Proof. unfold native_runtime_clear_faults. apply pkeeps_maintaining. pd_tac. Qed.

Lemma pkeeps_set_zero : keep (native_runtime_set_zero i).
Proof. unfold native_runtime_set_zero, set_zero. apply pkeeps_maintaining. pd_tac. Qed.

Lemma pkeeps_connect : keep (native_runtime_connect i).
Proof. unfold native_runtime_connect. cbv zeta. pd_tac. Qed.

(** From the moment the pointer is reset nothing binds. *)
Lemma pkeeps_destroy : keep (destroy_runtime i).
Proof.
  unfold destroy_runtime. apply pkeeps_then; [apply pkeeps_has_runtime|]. intros [|]; [|pd_tac].
  intros s Hs. apply wp_act. intros s1 Hr. cbn [fst snd].
  set (s2 := s1 <| pd_runtime_set := false |>). assert (Hn : live s2 = None) by done.
  split; [unfold live_step; rewrite Hn; by destruct (live s1)|].
  apply wp_gone; [|intros o s' Ho _; unfold pstands, while_live; by rewrite Ho|done].
  apply acts_bind; [apply acts_gone_lift|]. intros _. apply acts_write. intros t _. unfold live.
  cbn. by destruct (pd_runtime_set t).
Qed.
Hint Resolve pkeeps_destroy : pkeeps.

Lemma pkeeps_disconnect_once : keep (disconnect_once i).
Proof. unfold disconnect_once. pd_tac. Qed.
Hint Resolve pkeeps_disconnect_once : pkeeps.

Lemma pkeeps_disconnect : keep (native_runtime_disconnect i).
Proof. unfold native_runtime_disconnect. pd_tac. Qed.

Lemma pkeeps_enable : keep (native_runtime_enable i).
Proof. unfold native_runtime_enable. pd_tac. Qed.

Lemma pkeeps_disable : keep (native_runtime_disable i).
Proof. unfold native_runtime_disable. pd_tac. Qed.

Lemma pkeeps_estop : keep (native_runtime_estop i).
Proof. unfold native_runtime_estop. pd_tac. Qed.

Lemma pkeeps_recover : recoverable = true -> keep (native_runtime_recover i).
Proof.
  intros Hr. unfold native_runtime_recover. apply pkeeps_call, pkeeps_on_runtime.
  by apply keeps_recover.
Qed.

Lemma pkeeps_start_gravity t : keep (native_runtime_start_gravity_compensation i t).
Proof. unfold native_runtime_start_gravity_compensation. pd_tac. Qed.

Lemma pkeeps_stop_gravity : keep (native_runtime_stop_gravity_compensation i).
Proof. unfold native_runtime_stop_gravity_compensation. pd_tac. Qed.

Lemma pkeeps_start_follow side : keep (native_runtime_start_bimanual_follow i side).
Proof. unfold native_runtime_start_bimanual_follow. pd_tac. Qed.

Lemma pkeeps_stop_follow : keep (native_runtime_stop_bimanual_follow i).
Proof. unfold native_runtime_stop_bimanual_follow. pd_tac. Qed.

(** *** The facade *)

Lemma pkeeps_core_method {A : Type} operation (p : Pd (Native A)) : keep p -> keep (core_method operation p).
Proof.
  intros Hp. unfold core_method, core_checked, check_result. pd_tac; done.
Qed.

Lemma pkeeps_core_action {A : Type} operation (p : Pd (Native A)) : keep p -> keep (core_action operation p).
Proof. intros Hp. apply pkeeps_then; [by apply pkeeps_core_method|]. intros _. apply pkeeps_done. Qed.

Lemma pkeeps_invoke p : keep p -> keep (invoke p).
Proof. intros Hp. unfold invoke. pd_tac; done. Qed.

Lemma pkeeps_query {A : Type} (p : Pd A) : keep p -> keep (query p).
Proof. intros Hp. unfold query. pd_tac; done. Qed.

Lemma pkeeps_with_terminal {A : Type} (p : Pd A) : keep p -> keep (with_terminal i p).
Proof.
  intros Hp. unfold with_terminal. apply pkeeps_then; [beside_leaf|]. intros _.
  apply pkeeps_finally; [done|]. intros s. by left.
Qed.

Lemma pkeeps_core_disconnect : keep (core_disconnect i).
Proof.
  unfold core_disconnect. apply pkeeps_then; [beside_leaf|]. intros [|]; cbn [negb]; [|pd_tac].
  apply pkeeps_then; [apply pkeeps_disconnect|intros r].
  apply pkeeps_then; [apply pkeeps_beside, acts_write; by right|intros _].
  unfold check_result. pd_tac.
Qed.

End ProductMethods.

#[export] Hint Resolve pkeeps_set_joint_pv pkeeps_set_joint_mit pkeeps_set_joint_mit_fast
  pkeeps_set_speed pkeeps_set_max_speed pkeeps_set_max_acceleration pkeeps_get_percent
  pkeeps_set_grippers pkeeps_solve_ik pkeeps_move
  pkeeps_stop_motion pkeeps_get_state pkeeps_get_limits pkeeps_get_pose pkeeps_set_tcp
  pkeeps_get_tcp pkeeps_reset_tcp pkeeps_presence pkeeps_has_grippers pkeeps_control_mode pkeeps_gravity_status pkeeps_follow_status
  pkeeps_get_health pkeeps_configure_mode pkeeps_clear pkeeps_set_zero pkeeps_connect
  pkeeps_enable pkeeps_disable pkeeps_estop pkeeps_start_gravity pkeeps_stop_gravity
  pkeeps_start_follow pkeeps_stop_follow pkeeps_core_disconnect : pkeeps.

(** ** The product as a system *)

Section ProductThreads.
Context {B : Type} `{!MotorBackend B} `{!ArmDynamics} {rec : Recoverable}.
Context `{!MotorSnapshots B} `{!CartesianPlanner} `{!Libm} `{!RobotModels}.

Lemma pkeeps_control_lost i reason : i <> 0%nat -> pkeeps (B := B) i (on_control_lost i reason).
Proof.
  intros Hi. unfold on_control_lost. apply pkeeps_then; [beside_leaf|]. intros _.
  apply pkeeps_then; [apply pkeeps_invoke, pkeeps_core_action, pkeeps_stop_motion|intros stopped].
  apply pkeeps_then; [by apply pkeeps_invoke, pkeeps_core_action, pkeeps_disable|intros disabled].
  apply pkeeps_done.
Qed.

(** Whether a call may take an emergency stop back. *)
Definition product_recovers {T} (c : Call T) : bool :=
  match c with Rt_recover => true | _ => false end.

(** Every method of the facade keeps the discipline of the runtime. *)
Lemma pkeeps_product_call i {T} (c : Call T) :
  i <> 0%nat -> (product_recovers c = true -> recoverable = true) ->
  pkeeps (B := B) i (product_call i c).
Proof.
  intros Hi Hc. destruct c; cbn [product_call product_recovers] in *;
    unfold facade_control_mode, facade_has_grippers;
    lazymatch goal with
    | |- pkeeps _ (on_control_lost _ _) => by apply pkeeps_control_lost
    | |- pkeeps _ (facade_connect _) =>
        apply pkeeps_invoke, pkeeps_with_terminal, pkeeps_then; [beside_leaf|intros [|]; [pd_tac|]];
        by apply pkeeps_core_action, pkeeps_connect
    | |- pkeeps _ (facade_disconnect _) =>
        apply pkeeps_invoke, pkeeps_with_terminal, pkeeps_then; [beside_leaf|intros [|]; [pd_tac|]];
        apply pkeeps_then; [by apply pkeeps_core_disconnect|intros _; beside_leaf]
    | |- pkeeps _ (invoke (core_action _ (native_runtime_recover _))) =>
        apply pkeeps_invoke, pkeeps_core_action; by apply pkeeps_recover, Hc
    | |- pkeeps _ (invoke (core_set_joint_mit _)) =>
        apply pkeeps_invoke; unfold core_set_joint_mit; case_match; [pd_tac|];
        apply pkeeps_core_action; auto with pkeeps
    | |- pkeeps _ (invoke (core_action _ _)) =>
        apply pkeeps_invoke, pkeeps_core_action; eauto 3 with pkeeps
    | |- pkeeps _ (query (core_method _ _)) =>
        apply pkeeps_query, pkeeps_core_method; eauto 3 with pkeeps
    | |- pkeeps _ (query _) =>
        apply pkeeps_query, pkeeps_then; [|intros ?; apply pkeeps_done];
        apply pkeeps_core_method; eauto 3 with pkeeps
    end.
Qed.

End ProductThreads.

(** ** The threads of the service and the worker *)

Section ProductRun.
Context {B : Type} `{!MotorBackend B} `{!ArmDynamics} {rec : Recoverable}.
Context `{!MotorSnapshots B} `{!CartesianPlanner} `{!Libm} `{!RobotModels}.

(** A call of the facade, whatever it returns. *)
Record FacadeCall := facade_call { fc_type : Type; fc_call : Call fc_type }.

(** A round of a thread: the worker's, or the next call of a client, whose
    result says what went wrong. *)
Definition product_body (thread : nat) (script : list FacadeCall) :
    Pd (B := B) (option (list FacadeCall)) :=
  match thread with
  | O =>
      do more <- lift (worker_round 0);
      pret (match more with Some _ => Some script | None => None end)
  | S _ =>
      match script with
      | [] => pret None
      | c :: rest => product_call thread (fc_call c) ;;; pret (Some rest)
      end
  end.

(** Time passes and the robot moves while there is a runtime. *)
Definition product_environment (s s' : Product B) : Prop :=
  match pd_runtime s with
  | Some r => exists r', environment r r' /\ s' = s <| pd_runtime := Some r' |>
  | None => s' = s
  end.

Definition product_step : system -> system -> Prop := sys_step product_body product_environment.

Definition product_start (s : Product B) (scripts : list (list FacadeCall)) : system :=
  (s, product_body 0 [] :: imap (fun k script => product_body (S k) script) scripts).

Definition product_allowed (script : list FacadeCall) : Prop :=
  Forall (fun c => product_recovers (fc_call c) = true -> recoverable = true) script.

Definition product_ready (i : nat) (script : list FacadeCall) (s : Product B) : Prop :=
  pstands i s /\ product_allowed script.

Lemma product_environment_step s s' : product_environment s s' -> live_step environment s s'.
Proof.
  unfold product_environment, live_step, live. destruct (pd_runtime s) as [r|] eqn:E.
  - intros (r' & He & ->). cbn. by destruct (pd_runtime_set s).
  - intros ->. rewrite E. by destruct (pd_runtime_set s).
Qed.

Lemma product_body_ok i script s :
  product_ready i script s ->
  thread_ok (fun j => live_step (rely j)) (fun j => live_step (guarantee j)) product_ready i
    (product_body i script) s.
Proof.
  intros [Hs Ha]. unfold thread_ok. destruct i as [|i]; cbn [product_body].
  - apply wp_bind; [apply _|]. eapply wp_mono; [|apply pkeeps_lift; [|exact Hs]].
    + intros [[[]|]|e| |] s' Hs'; [|by intros s2 Hr|done..]. intros s2 Hr. split; [|done].
      eapply pstands_rely; [exact Hr|by apply Hs'].
    + by apply keeps_worker_round.
  - destruct script as [|c rest]; [by intros s2 _|]. apply Forall_cons in Ha as [Hc Ha].
    apply wp_bind; [apply _|]. eapply wp_mono; [|by apply pkeeps_product_call].
    intros [x|e| |] s' Hs'; [|done..]. intros s2 Hr. split; [|done].
    eapply pstands_rely; [exact Hr|by apply Hs'].
Qed.

Lemma product_rely_guarantee :
  rely_guarantee product_body product_environment (fun j => live_step (rely j))
    (fun j => live_step (guarantee j)) product_ready.
Proof.
  split.
  - intros i. apply _.
  - intros i j s s' Hij. apply live_step_mono. intros x y. by apply guarantee_rely.
  - intros j s s' He. eapply live_step_mono; [|by apply product_environment_step].
    intros x y. apply environment_rely.
  - apply product_body_ok.
Qed.

(** A product whose runtime has just been built. *)
Definition product_initial (s : Product B) : Prop := exists r, live s = Some r /\ initial r.

Lemma product_threads s scripts :
  product_initial s -> Forall product_allowed scripts ->
  threads_ok (fun j => live_step (rely j)) (fun j => live_step (guarantee j)) product_ready
    (product_start s scripts).
Proof.
  intros (r & Hr & [Hcm Hlc Hh Hpr _ _ _]) Hall i p Hp.
  assert (Hready : forall script, product_allowed script -> product_ready i script s).
  { intros script Ha. split; [|done]. unfold pstands, while_live. rewrite Hr.
    split_and!; [by rewrite Hcm|by rewrite Hlc|by intros _|done]. }
  assert (Hbody : exists script, product_allowed script /\ p = product_body i script).
  { destruct i as [|i]; [exists []; split; [constructor|by injection Hp]|]. cbn [product_start snd] in Hp.
    change (imap (fun k script => product_body (S k) script) scripts !! i = Some p) in Hp.
    rewrite list_lookup_imap in Hp. destruct (scripts !! i) as [script|] eqn:Hi; [|done].
    exists script. split; [by eapply Forall_lookup in Hall|by injection Hp]. }
  destruct Hbody as (script & Ha & ->). exact (product_body_ok i script s (Hready script Ha)).
Qed.

(** What is sound of the runtime stays so while the product has it. *)
Lemma product_sound s r scripts c :
  live s = Some r -> initial r -> Forall product_allowed scripts ->
  rtc product_step (product_start s scripts) c -> while_live (sound r) (fst c).
Proof.
  intros Hr Hi Hall Hrun.
  eapply (reachable_threads_ok _ _ _ _ _ (while_live (sound r)) _ _ product_rely_guarantee);
    [..|exact Hrun].
  - intros i x y. apply live_step_keeps. intros a b. apply guarantee_sound.
  - intros x y He. eapply live_step_keeps; [|by apply product_environment_step].
    intros a b. apply environment_sound.
  - apply product_threads; [by exists r|done].
  - unfold while_live. cbn [product_start fst]. rewrite Hr. by apply initial_sound.
Qed.

End ProductRun.
