(* ===== verification/ProductTheorems.v ===== *)
(** * The product: what holds of every run

    The runtime that [create] leaves is fit to start the threads, whatever
    motors were found; and what the safety runtime guarantees holds of every
    run of a created product, with a concrete product as the instance. *)

From Stdlib Require Import String.
From S2P Require Import Prelude Float32 FloatOrder Float64 PvShaping RuntimeTypes Threads NativeTypes Trajectory SafetyState Motions Gripper Safety Feedback Disable Faults Commands Planning JointPosition Enable Lifecycle Construct Maintenance Power Recover TrajectoryCycle Completion Gravity ArmCycle SafetyWorker SafetyLaws SafetyActions MotionActions LifecycleActions SafetyDiscipline SafetyThreads SafetyLifecycle SafetyMotion SafetyRecovery SafetyApi SafetyTermination SafetySystem SafetyTheorems ServiceState Health Yunyi Product ProductCommands ProductOps Facade ProductLaws ProductSystem.
#[local] Open Scope mdl_scope.
#[local] Open Scope thread_scope.

(** ** Configuring a runtime that nobody else knows *)

Section Configuring.
Context {B : Type} `{!MotorBackend B}.
Implicit Types s : Safety B.

#[local] Instance aside_preorder : PreOrder (aside (B := B)).
Proof. split; [intros s; apply aside_refl|intros s1 s2 s3; apply aside_trans]. Qed.

Lemma run_alone_finally {A} (p : Rt A) release s :
  run_alone (pfinally p release) s =
  let '(o, s') := run_alone p s in
  (o, match o with Returned _ | Thrown _ => release s' | _ => s' end).
Proof.
  revert s. induction p as [[a|e| |]|X g f k IH]; intros s; cbn [pfinally run_alone]; try done.
  destruct (g s); [|done]. destruct (f s) as [x s']. apply IH.
Qed.

(** A section under the command mutex that only configures. *)
Lemma alone_command {A} who (p : Rt A) s a s' :
  rt_command_lock s = None -> (forall s1, aside s1 (run_alone p s1).2) ->
  run_alone (with_command who p) s = (Returned a, s') -> aside s s'.
Proof.
  intros Hn Hp. unfold with_command, lock_command. cbn [run_alone pbind await]. rewrite Hn. cbn.
  rewrite run_alone_finally. specialize (Hp (s <| rt_command_lock := Some who |>)).
  destruct (run_alone p _) as [o s2]. destruct Hp as (Hc & Hl & Hll & Hk & Ht & Hy).
  intros [= -> <-]. split_and!; [done| |done..|].
  - by rewrite Hn.
  - destruct Hy. by split.
Qed.

Lemma alone_lifecycle {A} who (p : Rt A) s a s' :
  rt_lifecycle_lock s = None ->
  (forall s1 s2, rt_command_lock s1 = rt_command_lock s -> run_alone p s1 = (Returned a, s2) -> aside s1 s2) ->
  run_alone (with_lifecycle who p) s = (Returned a, s') -> aside s s'.
Proof.
  intros Hn Hp. unfold with_lifecycle, lock_lifecycle. cbn [run_alone pbind await].
  rewrite Hn at 1. cbn [may_lock fst snd].
  set (s1 := s <| rt_lifecycle_lock ::= _ |>).
  assert (Hl1 : rt_lifecycle_lock s1 = Some (who, 1%nat)) by (subst s1; cbn; by rewrite Hn).
  change (run_alone (pfinally p unlock_lifecycle) s1 = (Returned a, s') -> aside s s').
  rewrite run_alone_finally. destruct (run_alone p s1) as [o s2] eqn:Hr. intros [= -> <-].
  destruct (Hp s1 s2 ltac:(reflexivity) Hr) as (Hc & Hl & Hll & Hk & Ht & Hy).
  split_and!; [done|done| |done..|].
  - unfold unlock_lifecycle. cbn. by rewrite Hll, Hl1, Hn.
  - destruct Hy. by split.
Qed.

Lemma alone_guarded {A} check (f : Safety B -> A * Safety B) s :
  aside s (f s).2 -> aside s (run_alone (guarded check f) s).2.
Proof.
  intros Hf. unfold guarded, except. cbn. destruct (check s); [apply aside_refl|].
  by destruct (f s).
Qed.

Lemma alone_guarded_returned {A} check (f : Safety B -> A * Safety B) s a s' :
  run_alone (guarded check f) s = (Returned a, s') -> aside s (f s).2 -> aside s s'.
Proof. intros Hr Hf. apply (alone_guarded check) in Hf. by rewrite Hr in Hf. Qed.

Lemma alone_returned {A C} (p : Rt A) (k : A -> Rt C) s c s' :
  run_alone (pbind p k) s = (Returned c, s') ->
  exists a s1, run_alone p s = (Returned a, s1) /\ run_alone (k a) s1 = (Returned c, s').
Proof. rewrite run_alone_bind. destruct (run_alone p s) as [[a|e| |] s1]; try done. eauto. Qed.

(** The configurations of [configure_yunyi]. *)
Definition at_rest s : Prop := rt_command_lock s = None /\ rt_lifecycle_lock s = None.

Lemma aside_rest s s' : aside s s' -> at_rest s -> at_rest s'.
Proof. unfold at_rest. intros (_ & -> & -> & _). done. Qed.

Lemma aside_store_identities l s : aside s (store_identities l s).
Proof.
  unfold store_identities. split_and!; try reflexivity. split; [done| |done..]. cbn.
  generalize (rt_motors s). induction l as [|x rest IH]; intros motors; [done|].
  cbn [fold_left]. etrans; [|apply IH]. by apply motors_update.
Qed.

Lemma configured_identities who l s u s' :
  at_rest s -> run_alone (configure_motor_identities who l) s = (Returned u, s') -> aside s s'.
Proof.
  intros [_ Hl]. apply alone_lifecycle; [done|]. intros s1 s2 _ Hr.
  eapply alone_guarded_returned; [exact Hr|]. apply aside_store_identities.
Qed.

Lemma configured_joints l s u s' :
  run_alone (configure_joints l) s = (Returned u, s') -> aside s s'.
Proof.
  unfold configure_joints. destruct l as [|v l]; [done|]. intros Hr.
  apply alone_returned in Hr as (p & s1 & [= <- <-] & Hr). revert Hr. cbn [fst snd].
  case_match; [done|]. unfold except. destruct (collect_joints _ _ _ _) as [e|joints] eqn:Hj; [done|].
  intros Hr. apply alone_returned in Hr as (j & s2 & [= <- <-] & Hr). cbn beta in Hr.
  eapply alone_guarded_returned; [exact Hr|]. split_and!; try reflexivity. split; try done.
  intros _. apply (collect_joints_some _ _ _ _ _ Hj). by left.
Qed.

Lemma configured_gravity who l s u s' :
  at_rest s -> run_alone (configure_gravity_products who l) s = (Returned u, s') -> aside s s'.
Proof.
  intros [Hc Hl] Hr. unfold configure_gravity_products in Hr.
  apply alone_returned in Hr as (motors & s1 & [= <- <-] & Hr). revert Hr. cbv zeta.
  destruct (negb _); [done|]. unfold except. destruct (bind_arms _ _ _) as [e|arms]; [done|].
  cbn [pbind pret]. apply alone_lifecycle; [done|]. intros s1 s2 Hs1.
  apply alone_command; [by rewrite Hs1|]. intros s3. apply alone_guarded. aside_now.
Qed.

End Configuring.

(** *** Binding the grippers to their product *)

Lemma leveled_bind id m : leveled (bind_product kYunyiGripperV1 id m).
Proof. intros _. split; [by vm_compute|right; by vm_compute]. Qed.

Lemma bind_all_leveled pending motors :
  builtin pending ->
  Forall (fun m => leveled m \/ motor_of m ∈ map (fun b => b.1.1) pending) motors ->
  Forall leveled (bind_all pending motors).
Proof.
  unfold bind_all. intros Hp. revert motors.
  induction Hp as [|[[motor p] id] pending Hb _ IH]; intros motors Hm; cbn [fold_left].
  { eapply Forall_impl; [exact Hm|]. cbn. intros m [?|[]%not_elem_of_nil]; done. }
  cbn in Hb. subst p. apply IH. unfold update_motor. apply Forall_map.
  eapply Forall_impl; [exact Hm|]. cbn. intros m Hor. case_bool_decide as E.
  - left. apply leveled_bind.
  - destruct Hor as [?|[?|?]%elem_of_cons]; [by left|congruence|by right].
Qed.

(** The bindings that are resolved: distinct grippers. *)
Lemma resolve_bindings_distinct motors unique action bindings p :
  resolve_bindings motors unique action bindings = inr p ->
  map (fun b => b.1.1) p.1 = map gb_motor bindings /\ NoDup (map gb_motor bindings) /\
  Forall (fun b => gb_motor b ∉ unique /\ find_gripper motors (gb_motor b) <> None) bindings.
Proof.
  revert unique action p.
  induction bindings as [|b rest IH]; intros unique action p; cbn [resolve_bindings].
  { intros [= <-]. split_and!; constructor. }
  destruct (gb_profile_id b) as [id|]; [|done].
  destruct (_ || bool_decide (gb_motor b ∈ unique)) eqn:Hu; [done|].
  apply orb_false_elim in Hu as [_ Hu%bool_decide_eq_false].
  destruct (find_builtin_gripper_product_profile id) as [pr|]; [|done].
  case_bool_decide as Hf; [done|]. case_bool_decide; [done|].
  destruct (resolve_bindings _ _ _ rest) as [e|[pending action']] eqn:Hr; [done|].
  intros [= <-]. destruct (IH _ _ _ Hr) as (Hm & Hn & Ha). cbn in *. split_and!.
  - by f_equal.
  - constructor; [|done]. intros (c & Hc & Hin)%list_elem_of_fmap.
    rewrite Forall_forall in Ha. destruct (Ha c Hin) as [Hx _]. set_solver.
  - constructor; [done|]. eapply Forall_impl; [exact Ha|]. intros c [Hx Hy]. split; [set_solver|done].
Qed.

Lemma find_gripper_motor motors h :
  find_gripper motors h <> None -> h ∈ map motor_of (List.filter is_gripper motors).
Proof.
  unfold find_gripper. destruct (find _ motors) as [m|] eqn:E; [intros _|done].
  apply find_some in E as [Hin [Hg Hm%bool_decide_eq_true]%andb_prop]. subst h.
  apply list_elem_of_fmap. exists m. split; [done|]. apply list_elem_of_In, filter_In. done.
Qed.

Lemma all_grippers_bound motors bindings p :
  NoDup (map motor_of motors) -> resolve_bindings motors ∅ None bindings = inr p ->
  length bindings = gripper_count motors -> Forall leveled (bind_all p.1 motors).
Proof.
  intros Hn Hr Hl. pose proof (resolve_builtin _ _ _ _ _ Hr) as Hb.
  apply resolve_bindings_distinct in Hr as (Hm & Hd & Ha). apply bind_all_leveled; [done|].
  rewrite Hm. set (grippers := map motor_of (List.filter is_gripper motors)).
  assert (Hp : map gb_motor bindings ≡ₚ grippers).
  { apply submseteq_length_Permutation.
    - apply NoDup_submseteq; [done|]. intros h (b & -> & Hin)%list_elem_of_fmap.
      rewrite Forall_forall in Ha. by apply find_gripper_motor, Ha.
    - subst grippers. rewrite !length_map. unfold gripper_count in Hl. lia. }
  apply Forall_forall. intros m Hin. destruct (is_gripper m) eqn:Hg; [right|left; by intros Hg'; congruence].
  rewrite Hp. apply list_elem_of_fmap. exists m. split; [done|].
  apply list_elem_of_In, filter_In. split; [by apply list_elem_of_In|done].
Qed.

Section Created.
Context {B : Type} `{!MotorBackend B} `{!ArmDynamics} `{!RobotModels}.
Implicit Types s : Safety B.

Lemma configured_grippers who l s u s' :
  at_rest s -> NoDup (map motor_of (rt_motors s)) ->
  run_alone (configure_gripper_products who l) s = (Returned u, s') ->
  aside s s' /\ Forall leveled (rt_motors s').
Proof.
  intros [Hc _] Hn Hr. unfold configure_gripper_products in Hr.
  apply alone_returned in Hr as (motors & s1 & [= <- <-] & Hr). revert Hr. cbv zeta.
  destruct (gripper_count (rt_motors s) =? 0)%nat eqn:Hg.
  { case_match; [|done]. intros [= _ <-]. split; [apply aside_refl|].
    apply Nat.eqb_eq, length_zero_iff_nil in Hg. apply Forall_forall. intros m Hin Hm.
    assert (Hf : m ∈ List.filter is_gripper (rt_motors s))
      by (apply list_elem_of_In, filter_In; split; [by apply list_elem_of_In|done]).
    rewrite Hg in Hf. by apply not_elem_of_nil in Hf. }
  destruct (length l =? gripper_count (rt_motors s))%nat eqn:Hl; cbn [negb]; [|done].
  apply Nat.eqb_eq in Hl. intros Hr.
  apply alone_returned in Hr as (p & s2 & Hp & Hr). unfold except in Hp.
  destruct (resolve_bindings _ _ _ l) as [e|q] eqn:Hq; [done|]. injection Hp as <- <-.
  pose proof (all_grippers_bound _ _ _ Hn Hq Hl) as Hlv.
  pose proof (aside_bind_products q.1 q.2 s (resolve_builtin _ _ _ _ _ Hq)) as Ha.
  unfold before_connect, with_command, lock_command in Hr. cbn [run_alone pbind await act] in Hr.
  rewrite Hc in Hr. cbn in Hr. case_bool_decide; [|done]. injection Hr as _ <-.
  destruct Ha as (Ha1 & Ha2 & Ha3 & Ha4 & Ha5 & [? ? ? ?]). split; [|done].
  split_and!; try done.
Qed.

(** What the safety runtime is after its constructor. *)
Lemma make_at_rest now (backend : B) c s :
  make_SafetyRuntime now backend c = inr s ->
  at_rest s /\ halted s /\ length (rt_sides s) = 2%nat /\
  (length (rt_history s) <= history_capacity)%nat /\ rt_trace s = [] /\
  NoDup (map motor_of (rt_motors s)).
Proof.
  unfold make_SafetyRuntime. repeat case_match; try done. intros [= <-].
  match goal with H : make_motors _ _ _ _ = inr _ |- _ =>
      apply make_motors_distinct in H as (Hn & _) end.
  split_and!; try done. unfold history_capacity. cbn. lia.
Qed.

Lemma aside_distinct s s' : aside s s' -> NoDup (map motor_of (rt_motors s)) ->
  NoDup (map motor_of (rt_motors s')).
Proof.
  intros (_ & _ & _ & _ & _ & [_ Hm _ _]) Hn.
  pose proof (f_equal (map (fun x => x.1.1.1)) (kept_identity _ _ Hm)) as He.
  rewrite !map_map in He. simpl in He. unfold motor_of in *. by rewrite He.
Qed.

Lemma aside_leveled s s' : aside s s' -> Forall leveled (rt_motors s) -> Forall leveled (rt_motors s').
Proof. intros (_ & _ & _ & _ & _ & [_ Hm _ _]). by apply kept_leveled. Qed.

(** [create_yunyi_runtime] leaves a runtime fit to start its threads. *)
Lemma created_runtime_initial who now (backend : B) c left right hz warning u s :
  create_yunyi_runtime who now backend c left right hz warning = (Returned u, Some s) -> initial s.
Proof.
  unfold create_yunyi_runtime. destruct (make_SafetyRuntime _ _ _) as [e|s0] eqn:Hm; [done|].
  destruct (run_alone _ s0) as [o s'] eqn:Hr. intros [= -> ->].
  destruct (make_at_rest _ _ _ _ Hm) as (Hrest & Hh & Hsd & Hhi & Ht & Hn).
  unfold configure_yunyi in Hr. cbv zeta in Hr.
  apply alone_returned in Hr as (u1 & s1 & S1 & Hr). apply (configured_identities _ _ _ _ _ Hrest) in S1.
  apply alone_returned in Hr as (u2 & s2 & S2 & Hr). apply configured_joints in S2.
  assert (A2 : aside s0 s2) by by eapply aside_trans.
  apply alone_returned in Hr as (u3 & s3 & S3 & Hr).
  apply configured_grippers in S3 as [S3 Hlv]; [|by eapply aside_rest|by eapply aside_distinct].
  assert (A3 : aside s0 s3) by by eapply aside_trans.
  apply configured_gravity in Hr; [|by eapply aside_rest].
  assert (A4 : aside s0 s) by by eapply aside_trans.
  pose proof A4 as (Hc & Hcl & Hll & _ & Htr & [Hs4 Hm4 Hh4 _]). destruct Hrest as [R1 R2].
  split; [by rewrite Hcl|by rewrite Hll| | |by apply Hs4|by apply Hh4|by rewrite Htr].
  - unfold halted in *. by rewrite Hc.
  - split; [exact (aside_leveled s3 s Hr Hlv)|exact (aside_distinct s0 s A4 Hn)].
Qed.

Lemma created_product_initial who now cpus config opened hz warning (p : Product B) checked :
  create who now cpus config opened hz warning = Returned (Value (p, checked)) -> product_initial p.
Proof.
  unfold create, create_core. destruct (checked_config cpus config) as [e|c]; [done|].
  destruct opened as [e|[[backend l] r]]; [done|].
  destruct (pose_models_error _); [done|].
  destruct (create_yunyi_runtime _ _ _ _ _ _ _ _) as [[[]|e| |] [s|]] eqn:Hs; try done.
  intros [= <- _]. exists s. split; [done|]. by eapply created_runtime_initial.
Qed.

End Created.

(** ** What a method may report *)

(** A program that throws no [std::invalid_argument], whatever it meets. *)
Definition tame {S A} (p : prog S A) : Prop :=
  leaves (fun o => match o with Thrown (InvalidArgument _) => False | _ => True end) p.

Lemma tame_done {S A} (a : A) : tame (S := S) (Done (Returned a)).
Proof. done. Qed.

Lemma tame_bind {S A X} (p : prog S A) (k : A -> prog S X) :
  tame p -> (forall a, tame (k a)) -> tame (pbind p k).
Proof. intros Hp Hk. eapply leaves_bind; [exact Hp|]. intros [a|[]| |] Ho; try done. apply Hk. Qed.

Lemma tame_catch {S A} (p : prog S A) h : (forall e, tame (h e)) -> tame (pcatch p h).
Proof.
  intros Hh. induction p as [[a|e| |]|X g f k IH]; first [apply Hh|done].
Qed.

Lemma tame_finally {S A} (p : prog S A) release : tame p -> tame (pfinally p release).
Proof. apply leaves_finally. Qed.

Lemma tame_lift {B A} (p : prog (Safety B) A) : tame p -> tame (lift p).
Proof. intros Hp. induction p as [o|X g f k IH]; cbn [lift]; [exact Hp|]. intros [x|]; [|done]. apply IH, Hp. Qed.

(** The code a method reports. *)
Class Coded (T : Type) := code_of : T -> RuntimeErrorCode.
#[export] Instance coded_status : Coded Status := status_code.
#[export] Instance coded_result T : Coded (Result T) := fun r =>
  match r with Value _ => CodeOk | Error st => status_code st end.

Definition reported {T} `{!Coded T} (P : RuntimeErrorCode -> Prop) (o : outcome T) : Prop :=
  match o with Returned x => P (code_of x) | _ => True end.

Definition not_invalid {S T} `{!Coded T} (p : prog S T) : Prop :=
  leaves (reported (fun code => code <> CodeInvalidArgument)) p.

Section Tame.
Context {B : Type} `{!MotorBackend B} `{!ArmDynamics} `{!MotorSnapshots B}.
Context `{!CartesianPlanner} `{!Libm} `{!RobotModels}.

Lemma tame_on_core {A} g (f : ProductCore -> A * ProductCore) : tame (on_core (B := B) g f).
Proof. intros [x|]; done. Qed.

Lemma tame_with_mutex {A} who m (p : Pd (B := B) A) : tame p -> tame (with_mutex who m p).
Proof. intros Hp. apply tame_bind; [apply tame_on_core|]. intros _. by apply tame_finally. Qed.

Lemma tame_has_runtime : tame (has_runtime (B := B)).
Proof. intros [[|] b]; done. Qed.

Lemma tame_record_if operation code error : tame (record_if (B := B) operation code error).
Proof.
  apply tame_bind; [apply tame_has_runtime|]. intros [|]; [|done]. by apply tame_lift.
Qed.

Lemma tame_then_pret {X} operation code error (x : X) :
  tame (record_if (B := B) operation code error ;;; pret x).
Proof. apply tame_bind; [apply tame_record_if|]. by intros _. Qed.

Lemma tame_catching {A} (p : Pd (B := B) (Native A)) invalid failed :
  (forall what, tame (invalid what)) -> (forall what, tame (failed what)) ->
  tame (catching p invalid failed).
Proof. intros Hv Hf. apply tame_catch. intros []; first [apply Hv|apply Hf|done]. Qed.

Lemma tame_call {A} (p : Pd (B := B) A) : tame (call p).
Proof. apply tame_catch. by intros []. Qed.

Lemma tame_commanding {A} prefix (p : Pd (B := B) (Native A)) : tame (commanding prefix p).
Proof.
  apply tame_catching; intros what; apply tame_then_pret.
Qed.

Lemma tame_recording {A} operation (p : Pd (B := B) (Native A)) : tame (recording operation p).
Proof.
  apply tame_catching; intros what; apply tame_then_pret.
Qed.

Lemma tame_maintaining (p : Pd (B := B) (Native unit)) : tame (maintaining p).
Proof. by apply tame_catching. Qed.

Lemma tame_destroy who : tame (destroy_runtime (B := B) who).
Proof.
  apply tame_bind; [apply tame_has_runtime|]. intros [|]; [|done].
  apply tame_bind; [done|]. intros _.
  apply tame_bind; [|done]. apply tame_lift, tame_catch. intros _.
  apply tame_bind; [done|]. by intros [|].
Qed.

Lemma tame_disconnect who : tame (native_runtime_disconnect (B := B) who).
Proof.
  apply tame_with_mutex, tame_bind; [apply tame_on_core|]. intros [owned terminal].
  cbn [fst snd]. destruct (owned && terminal); [done|]. apply tame_bind.
  - apply tame_catch. intros []; try apply tame_then_pret. done.
  - intros failure. apply tame_bind; [|done]. destruct owned; [|done].
    apply tame_bind; [apply tame_destroy|]. intros _.
    apply tame_bind; [apply tame_on_core|]. intros _. apply tame_on_core.
Qed.

(** Every native operation of the methods that return a status. *)
Lemma tame_core_method {A} operation (p : Pd (B := B) (Native A)) :
  tame p -> tame (core_method operation p).
Proof.
  intros Hp. apply tame_bind; [by intros []|]. intros _. apply tame_bind; [exact Hp|]. by intros [].
Qed.

Lemma tame_core_action {A} operation (p : Pd (B := B) (Native A)) :
  tame p -> tame (core_action operation p).
Proof. intros Hp. apply tame_bind; [by apply tame_core_method|done]. Qed.

Lemma tame_with_terminal {A} who (p : Pd (B := B) A) : tame p -> tame (with_terminal who p).
Proof. intros Hp. apply tame_bind; [done|]. intros _. by apply tame_finally. Qed.

Lemma tame_core_disconnect who : tame (core_disconnect (B := B) who).
Proof.
  apply tame_bind; [done|]. intros [|]; cbn [negb]; [|done].
  apply tame_bind; [apply tame_disconnect|]. intros r. apply tame_bind; [done|]. by destruct r.
Qed.

Lemma exception_status_invalid e :
  status_code (exception_status e) = CodeInvalidArgument -> exists what, e = InvalidArgument what.
Proof.
  destruct e; [|by intros _; eexists|..]; unfold exception_status, classify_exception, failure;
    cbn [status_code]; by repeat case_match.
Qed.

Lemma tame_invoke (p : Pd (B := B) unit) : tame p -> not_invalid (invoke p).
Proof.
  intros Hp. unfold invoke. induction p as [[[]|e| |]|X g f k IH]; try done.
  - intros Hc. apply exception_status_invalid in Hc as [? ->]. done.
  - intros x. apply IH, Hp.
Qed.

Lemma tame_query {T : Type} (p : Pd (B := B) T) : tame p -> not_invalid (query p).
Proof.
  intros Hp. unfold query. induction p as [[a|e| |]|X g f k IH]; try done.
  - intros Hc. apply exception_status_invalid in Hc as [? ->]. done.
  - intros x. apply IH, Hp.
Qed.

Lemma tame_catching_all {A} (p : Pd (B := B) (Native A)) failed :
  (forall what, tame (failed what)) -> tame (catching_all p failed).
Proof. intros Hf. by apply tame_catching. Qed.

Lemma tame_querying {A} (p : Pd (B := B) (Native A)) : tame (querying p).
Proof. by apply tame_catching. Qed.

End Tame.

(** Follows an operation to the clauses that end it. *)
Ltac tame_step :=
  match goal with
  | |- forall _, _ => intro
  | |- tame (core_action _ _) => apply tame_core_action
  | |- tame (core_method _ _) => apply tame_core_method
  | |- tame (with_terminal _ _) => apply tame_with_terminal
  | |- tame (pbind (core_method _ _) _) => apply tame_bind
  | |- tame (pbind (read _) _) => apply tame_bind; [done|]
  | |- tame (call _) => apply tame_call
  | |- tame (commanding _ _) => apply tame_commanding
  | |- tame (recording _ _) => apply tame_recording
  | |- tame (querying _) => apply tame_querying
  | |- tame (maintaining _) => apply tame_maintaining
  | |- tame (catching_all _ _) => apply tame_catching_all
  | |- tame (pret _) => done
  | |- tame (pbind (record_if _ _ _) _) => apply tame_then_pret
  | |- tame (if ?b then _ else _) => destruct b
  end.

Section Reports.
Context {B : Type} `{!MotorBackend B} `{!ArmDynamics} `{!MotorSnapshots B}.
Context `{!CartesianPlanner} `{!Libm} `{!RobotModels}.

Lemma tame_stop_motion who : tame (native_runtime_stop_motion (B := B) who).
Proof. unfold native_runtime_stop_motion. repeat tame_step. Qed.

Lemma tame_disable who : tame (native_runtime_disable (B := B) who).
Proof. unfold native_runtime_disable. repeat tame_step. Qed.

Lemma tame_enable who : tame (native_runtime_enable (B := B) who).
Proof. apply tame_catch. intros []; try apply tame_then_pret. done. Qed.

Lemma tame_connect who : tame (native_runtime_connect (B := B) who).
Proof. unfold native_runtime_connect. repeat tame_step. Qed.

Lemma not_invalid_control_lost who reason :
  not_invalid (on_control_lost (B := B) who reason).
Proof.
  apply (leaves_bind (fun _ => True)); [done|]. intros [[]|e| |] _; try done.
  eapply leaves_bind; [apply tame_invoke, tame_core_action, tame_stop_motion|].
  intros [stopped|e| |] Hs; try done.
  eapply leaves_bind; [apply tame_invoke, tame_core_action, tame_disable|].
  intros [disabled|e| |] Hd; try done. cbn. by case_match.
Qed.

Definition call_coded {T} (c : Call T) : Coded T.
Proof. destruct c; apply _. Defined.

Definition mismatched {T} (c : Call T) : bool :=
  match c with Rt_set_joint_mit command => negb (same_counts command) | _ => false end.

Lemma created_status who now cpus config (opened : exn + (B * Found * Found)) hz warning status :
  create who now cpus config opened hz warning = Returned (Error status) ->
  checked_config cpus config = inl status \/
  ((exists c, checked_config cpus config = inr c) /\ status_code status <> CodeInvalidArgument).
Proof.
  unfold create. destruct (checked_config cpus config) as [refusal|c].
  { intros [= ->]. by left. }
  destruct (create_core _ _ _ _ _ _) as [p|e| |]; try done. intros Hcreated. right.
  assert (status = exception_status (creation_error e)) as -> by congruence.
  split; [by eexists|]. intros Hc. apply exception_status_invalid in Hc as [what Hc]. discriminate.
Qed.

Lemma refused_config cpus config status :
  checked_config cpus config = inl status -> status_code status = CodeInvalidArgument.
Proof. unfold checked_config. repeat case_match; try done; by intros [= <-]. Qed.

(** C36. A product does not report refused arguments as such.  Whatever its state
    and whoever runs besides, no method of a product returns INVALID_ARGUMENT,
    except [set_joint_mit] for arrays of different lengths: by the time an
    exception is classified, the operation has turned it into a code and
    [check_result] the code into a [std::runtime_error].  [create] reports
    INVALID_ARGUMENT exactly where it refuses its configuration. *)
Theorem refusals_never_invalid_argument who :
  (forall T (c : Call T), mismatched c = false ->
     leaves (reported (Coded0 := call_coded c) (fun code => code <> CodeInvalidArgument))
       (product_call (B := B) who c)) /\
  (forall now cpus config (opened : exn + (B * Found * Found)) hz warning status,
     create who now cpus config opened hz warning = Returned (Error status) ->
     status_code status = CodeInvalidArgument <-> checked_config cpus config = inl status).
Proof.
  split; [intros T c|intros now cpus config opened hz warning status Hc].
  2: { split; [|apply refused_config]. intros Hi.
       by destruct (created_status _ _ _ _ _ _ _ _ Hc) as [?|[_ ?]]. }
  fold (not_invalid (Coded0 := call_coded c) (product_call (B := B) who c)).
  intros Hc. destruct c; cbn [product_call mismatched call_coded] in *;
    unfold facade_control_mode, facade_has_grippers;
    lazymatch goal with
    | |- not_invalid (on_control_lost _ _) => apply not_invalid_control_lost
    | |- not_invalid (facade_connect _) => apply tame_invoke
    | |- not_invalid (facade_disconnect _) => apply tame_invoke
    | |- not_invalid (invoke _) => apply tame_invoke
    | |- not_invalid (query _) => apply tame_query
    end.
  all: repeat tame_step; try solve [auto using tame_stop_motion, tame_disable, tame_enable, tame_connect].
  all: unfold native_runtime_configure_mode, native_runtime_set_zero, native_runtime_clear_faults,
    native_runtime_estop, native_runtime_recover, native_runtime_set_joint_pv, core_set_joint_mit,
    native_runtime_set_joint_mit, native_runtime_set_joint_mit_fast,
    native_runtime_set_speed_percent, native_runtime_set_max_speed,
    native_runtime_set_max_acceleration, native_runtime_get_speed_percent,
    native_runtime_get_max_speed, native_runtime_get_max_acceleration, get_percent,
    native_runtime_get_gripper_presence, native_runtime_solve_ik, native_runtime_move_pose,
    native_runtime_move_linear, native_runtime_move_circular, move_linear_trajectory_impl,
    move_circular_trajectory_impl, move_trajectory_impl, native_runtime_set_grippers,
    set_product_grippers_impl, native_runtime_set_tcp_offset, native_runtime_reset_tcp_offset,
    native_runtime_get_pose, native_runtime_get_tcp_offset,
    native_runtime_get_joint_angle_vel_limits, native_runtime_start_gravity_compensation,
    native_runtime_stop_gravity_compensation, native_runtime_start_bimanual_follow,
    native_runtime_stop_bimanual_follow, native_runtime_get_gravity_compensation_status,
    native_runtime_get_bimanual_follow_status, native_runtime_get_state,
    native_runtime_get_health, native_runtime_get_control_mode, native_runtime_has_grippers.
  all: repeat tame_step; try done.
  apply tame_bind; [apply tame_core_disconnect|done].
Qed.

End Reports.

(** ** A concrete product: seven joints on each side, no grippers *)

Definition sample_found (first : nat) : Found := map Some (seq first PRODUCT_ARM_DOF) ++ [None].

(** Each motor answers with its own identity. *)
Definition product_state (motor : handle) (enabled : bool) : ArticoreMotorState :=
  let id := Z.of_nat (if (motor <? 11)%nat then motor else motor - 10) in
  {| ams_has_value := true; ams_can_id := id; ams_arbitration_id := id + 16;
     ams_status_code := if enabled then 1 else 0; ams_pos := f32_zero; ams_vel := f32_zero;
     ams_torq := f32_zero; ams_t_mos := f32_of_Z 30; ams_t_rotor := f32_of_Z 30 |}.

Definition product_answer (T : Type) (c : BackendCall T) (enabled : bool) : T * bool :=
  match c in BackendCall T return T * bool with
  | Bk_get_state motor => ((0, product_state motor enabled), enabled)
  | c => sample_answer _ c enabled
  end.

#[local] Instance product_backend : MotorBackend bool := {| bk_call := product_answer |}.
#[local] Instance product_dynamics : ArmDynamics := fun _ l => l.
#[local] Instance product_snapshots : MotorSnapshots bool :=
  {| motor_snapshot motor enabled := Some (Some (product_state motor enabled), (true, 1, 0)) |}.
#[local] Instance product_planner : CartesianPlanner := {|
  plan_dual_ik _ _ reference _ _ _ := Returned (sa_positions reference);
  plan_linear _ _ _ _ _ _ _ _ := Thrown (InvalidArgument "no path");
  plan_circular _ _ _ _ _ _ _ _ _ := Thrown (InvalidArgument "no path") |}.
#[local] Instance product_libm : Libm := {|
  libm_sin x := x; libm_cos _ := f64_of_Z 1; libm_asin x := x; libm_acos x := x; libm_atan2 x _ := x |}.
#[local] Instance product_models : RobotModels := {|
  robot_model_error _ _ := None;
  robot_fk _ _ _ := Returned {| rp_position := replicate 3 f64_zero; rp_rotation := replicate 9 f64_zero |} |}.

Definition sample_product_config : YunyiRuntimeConfig := {|
  left_can_interface := "can0"; right_can_interface := "can1"; initial_control_mode := ModePv;
  threads := {| realtime := false; control_cpu := -1; can_tx_cpu := -1; can_rx_cpu := -1;
                control_priority := 80; can_tx_priority := 70; can_rx_priority := 70;
                lock_memory := false |};
  feedback_max_age := 250; motor_watchdog := 500; motor_discovery_timeout := 25;
  motor_discovery_retries := 8 |}.

Definition sample_opened : exn + (bool * Found * Found) :=
  inr (false, sample_found 1, sample_found 11).

Definition sample_product : option (Product bool * YunyiRuntimeConfig) :=
  match create 1 1000 4 sample_product_config sample_opened None "" with
  | Returned (Value p) => Some p
  | _ => None
  end.

Definition product_run (p : Product bool) (script : list FacadeCall) (steps : nat) : system :=
  run_schedule product_body (replicate steps 1%nat) (product_start p [script]).

Definition product_script : list FacadeCall :=
  [facade_call Status Rt_connect; facade_call Status Rt_enable; facade_call Status Rt_estop].

(** The runtime after some steps of one client. *)
Definition runtime_after (created : option (Product bool * YunyiRuntimeConfig))
    (script : list FacadeCall) (steps : nat) : option (Safety bool) :=
  match created with
  | Some (p, _) => live (fst (product_run p script steps))
  | None => None
  end.

Lemma runtime_after_some created script steps r :
  runtime_after created script steps = Some r ->
  exists p checked, created = Some (p, checked) /\ live (fst (product_run p script steps)) = Some r.
Proof. destruct created as [[p checked]|]; [|done]. by exists p, checked. Qed.

Lemma sample_product_created p checked :
  sample_product = Some (p, checked) ->
  create 1 1000 4 sample_product_config sample_opened None "" = Returned (Value (p, checked)).
Proof. unfold sample_product. destruct (create _ _ _ _ _ _ _) as [[[? ?]|?]| | |]; try done. by intros [= <- <-]. Qed.

Lemma product_run_reachable p script steps :
  rtc product_step (product_start p [script]) (product_run p script steps).
Proof. apply run_schedule_reachable. Qed.

(** ** The theorems *)

(** C1. Every run of a created product is safe.  In every reachable state of the
    worker and of any number of threads that call the methods of [YunyiRuntime],
    in any interleaving, as long as the product has its runtime: once an
    emergency stop is latched and nobody is inside a lifecycle operation the
    runtime is FAULT or DISCONNECTED with its fault latch set, and every position
    and MIT frame was handed to the drivers under the command mutex. *)
Theorem product_runs_safely {B} `{!MotorBackend B} `{!ArmDynamics} `{!MotorSnapshots B}
    `{!CartesianPlanner} `{!Libm} `{!RobotModels} who now cpus config opened hz warning
    (p : Product B) checked scripts c r :
  create who now cpus config opened hz warning = Returned (Value (p, checked)) ->
  rtc product_step (product_start p scripts) c -> live (fst c) = Some r ->
  (rt_lifecycle_lock r = None -> emergency_stop_latched_ (rt_core r) = true ->
   (state_ (rt_core r) = Fault \/ state_ (rt_core r) = Disconnected) /\
   fault_latched_ (rt_core r) = true) /\
  Forall (fun e => control_frame e = true -> ev_locked_by e <> None) (rt_trace r).
Proof.
  intros Hc Hrun Hr. destruct (created_product_initial _ _ _ _ _ _ _ _ _ Hc) as (r0 & Hr0 & Hi).
  pose proof (product_sound (rec := true) p r0 scripts c Hr0 Hi) as Hs.
  unfold while_live in Hs. rewrite Hr in Hs. destruct Hs as [Hh Hf _ _]; [|exact Hrun|by split].
  apply Forall_true. intros script. by apply Forall_true.
Qed.

(** An emergency stop that is over. *)
Definition stopped_by_estop (r : option (Safety bool)) : bool :=
  match r with
  | Some r => emergency_stop_latched_ (rt_core r) && bool_decide (rt_lifecycle_lock r = None)
  | None => false
  end.

Lemma stopped_by_estop_some o :
  stopped_by_estop o = true ->
  exists r, o = Some r /\ emergency_stop_latched_ (rt_core r) = true /\ rt_lifecycle_lock r = None.
Proof.
  destruct o as [r|]; [|done]. intros [He Hl%bool_decide_eq_true]%andb_prop. by exists r.
Qed.

Lemma sample_stopped :
  stopped_by_estop (runtime_after sample_product product_script 4000) = true.
Proof. vm_compute. reflexivity. Qed.

Lemma product_runs_safely_witness :
  exists r, runtime_after sample_product product_script 4000 = Some r /\
    emergency_stop_latched_ (rt_core r) = true /\
    (state_ (rt_core r) = Fault \/ state_ (rt_core r) = Disconnected) /\
    fault_latched_ (rt_core r) = true.
Proof.
  destruct (stopped_by_estop_some _ sample_stopped) as (r & Hr & He & Hl).
  exists r. split; [exact Hr|]. split; [exact He|].
  destruct (runtime_after_some _ _ _ _ Hr) as (p & checked & Hp & E).
  exact (proj1 (product_runs_safely 1 1000 4 sample_product_config sample_opened None "" p checked
    [product_script] _ r (sample_product_created p checked Hp) (product_run_reachable _ _ _) E) Hl He).
Defined.

(** What the first client is told on its own. *)
Definition told {T} (c : Call T) : option T :=
  match sample_product with
  | Some (p, _) => match fst (run_alone (product_call 1 c) p) with Returned x => Some x | _ => None end
  | None => None
  end.

Lemma refusals_never_invalid_argument_witness :
  let c := Rt_set_speed_percent (f32_of_Z 500) in
  option_map status_code (told c) = Some CodeInternalError /\
  mismatched c = false /\
  leaves (reported (fun code => code <> CodeInvalidArgument)) (product_call (B := bool) 1 c).
Proof.
  split; [vm_compute; reflexivity|]. split; [reflexivity|].
  apply (proj1 (refusals_never_invalid_argument 1) Status (Rt_set_speed_percent (f32_of_Z 500))).
  reflexivity.
Defined.

(** C9. The two position checks agree.  For a product with its joint table and a
    runtime configured from it, and for any fourteen finite positions, the loop
    of the product over its joints accepts the positions exactly when the safety
    runtime accepts every one of them in its motor's direction, and the targets
    are then those; the velocity of an ordinary command, zero or the share of the
    fast-follow maximum, never exceeds a joint. *)
Theorem position_checks_agree arm_motors r velocity motors joints reference positions targets :
  length arm_motors = PRODUCT_DUAL_ARM_DOF ->
  ry_joints r = (configure_joint_table arm_motors).1 ->
  collect_joints velocity motors ∅ (configure_joint_table arm_motors).2 = inr joints ->
  (reference = f32_zero \/
   exists p, f32_valid p /\ percent_valid f32_zero p = true /\
             reference = yunyi_mit_fast_follow_reference_velocity p) ->
  forallb f32_exact positions = true -> length positions = PRODUCT_DUAL_ARM_DOF ->
  product_targets r reference positions 0 (seq 0 PRODUCT_DUAL_ARM_DOF) = inr targets <->
  targets = map (native_target r positions) (seq 0 PRODUCT_DUAL_ARM_DOF) /\
  Forall (fun t => validate_position_velocity_torque joints motors (jt_motor t)
                     (jt_target_position t) f32_zero f32_zero = None) targets.
Proof.
  intros Ha Hr Hj Hv Hp Hn.
  rewrite (product_targets_exact _ _ Ha Hr _ _ _ Hj reference positions 0 _ targets); [done| |done..].
  destruct Hv as [->|(p & Vp & Hv & ->)]; [reflexivity|]. by apply fast_follow_within.
Qed.

Definition sample_arms : list handle := arm_motors_of (sample_found 1) (sample_found 11).
Definition sample_resources : YunyiRuntimeResources :=
  make_resources (sample_found 1) (sample_found 11).
Definition sample_motors : list MotorRecord :=
  map arm_record (side_descriptors 0 (sample_found 1) ++ side_descriptors 1 (sample_found 11)).
Definition sample_joints : gmap handle JointControlConfig :=
  match collect_joints (f32_lit 2 10) sample_motors ∅ (configure_joint_table sample_arms).2 with
  | inr joints => joints
  | inl _ => ∅
  end.
Definition sample_positions : list f32 := replicate PRODUCT_DUAL_ARM_DOF (f32_lit 1 10).
Definition sample_targets : list ArticoreJointTarget :=
  map (native_target sample_resources sample_positions) (seq 0 PRODUCT_DUAL_ARM_DOF).

Lemma sample_collected :
  collect_joints (f32_lit 2 10) sample_motors ∅ (configure_joint_table sample_arms).2 =
  inr sample_joints.
Proof.
  unfold sample_joints. assert (H : match collect_joints (f32_lit 2 10) sample_motors ∅
    (configure_joint_table sample_arms).2 with inr _ => true | inl _ => false end = true)
    by (vm_compute; reflexivity).
  by destruct (collect_joints _ _ _ _).
Qed.

Lemma position_checks_agree_witness :
  product_targets sample_resources (yunyi_mit_fast_follow_reference_velocity (f32_of_Z 50))
    sample_positions 0 (seq 0 PRODUCT_DUAL_ARM_DOF) = inr sample_targets /\
  Forall (fun t => validate_position_velocity_torque sample_joints sample_motors (jt_motor t)
                     (jt_target_position t) f32_zero f32_zero = None) sample_targets.
Proof.
  assert (E : product_targets sample_resources (yunyi_mit_fast_follow_reference_velocity (f32_of_Z 50))
    sample_positions 0 (seq 0 PRODUCT_DUAL_ARM_DOF) = inr sample_targets) by (vm_compute; reflexivity).
  split; [exact E|].
  assert (Hv : exists p, f32_valid p /\ percent_valid f32_zero p = true /\
      yunyi_mit_fast_follow_reference_velocity (f32_of_Z 50) =
      yunyi_mit_fast_follow_reference_velocity p).
  { exists (f32_of_Z 50). split_and!; vm_compute; reflexivity. }
  apply (position_checks_agree sample_arms sample_resources (f32_lit 2 10) sample_motors
    sample_joints (yunyi_mit_fast_follow_reference_velocity (f32_of_Z 50)) sample_positions
    sample_targets); [reflexivity|reflexivity|exact sample_collected|by right| |reflexivity|exact E].
  vm_compute. reflexivity.
Defined.

(** C10. The motion profile stays inside the table.  For percentages within their
    range, computed in single precision with a rounding at each of the five
    operations, every limit of the ordinary POS_VEL profile is a number between
    zero and the maximum of its joint. *)
Theorem pv_profile_within speed maximum_velocity maximum_acceleration :
  f32_valid speed -> percent_valid f32_one speed = true ->
  f32_valid maximum_velocity -> percent_valid f32_one maximum_velocity = true ->
  f32_valid maximum_acceleration -> percent_valid f32_one maximum_acceleration = true ->
  let limits := effective_product_pv_limits speed maximum_velocity maximum_acceleration in
  Forall2 (fun x i => f32_upto (f32_units (maximum_of kYunyiOrdinaryPvJointMaximumVelocities i)) x)
    limits.1 (seq 0 PRODUCT_DUAL_ARM_DOF) /\
  Forall2 (fun x i => f32_upto (f32_units (maximum_of kYunyiOrdinaryPvJointMaximumAccelerations i)) x)
    limits.2 (seq 0 PRODUCT_DUAL_ARM_DOF).
Proof.
  intros Vs Hs Vv Hv Va Hacc limits. subst limits. unfold effective_product_pv_limits. cbn [fst snd].
  split; apply Forall2_fmap_l, Forall_Forall2_diag, Forall_forall; intros i Hi.
  - by apply velocity_limit_within.
  - by apply acceleration_limit_within.
Qed.

Lemma pv_profile_within_witness :
  let limits := effective_product_pv_limits (f32_of_Z 73) (f32_of_Z 99) (f32_of_Z 100) in
  Forall2 (fun x i => f32_upto (f32_units (maximum_of kYunyiOrdinaryPvJointMaximumVelocities i)) x)
    limits.1 (seq 0 PRODUCT_DUAL_ARM_DOF) /\
  Forall2 (fun x i => f32_upto (f32_units (maximum_of kYunyiOrdinaryPvJointMaximumAccelerations i)) x)
    limits.2 (seq 0 PRODUCT_DUAL_ARM_DOF).
Proof. apply (pv_profile_within (f32_of_Z 73) (f32_of_Z 99) (f32_of_Z 100)); vm_compute; reflexivity. Defined.

(** ** A disconnect beside another method

    Nothing keeps the core alive while another thread is inside a method. *)

Definition race_scripts : list (list FacadeCall) :=
  [[facade_call (Result RuntimeHealth) Rt_health]; [facade_call Status Rt_disconnect]].

(** The first client has begun its query, the second disconnects, the first goes
    on. *)
Definition race_schedule (begun : nat) : list nat :=
  replicate begun 1%nat ++ concat (replicate 400 [0; 2]%nat) ++ replicate 20 1%nat.

Definition race (p : Product bool) (begun : nat) : system :=
  run_schedule product_body (race_schedule begun) (product_start p race_scripts).

Definition ended_undefined {S L} (p : option (prog S (option L))) : bool :=
  match p with Some (Done Undefined) => true | _ => false end.

Definition race_undefined (created : option (Product bool * YunyiRuntimeConfig)) (begun : nat) : bool :=
  match created with Some (p, _) => ended_undefined (snd (race p begun) !! 1%nat) | None => false end.

Lemma sample_race : race_undefined sample_product 3 = true.
Proof. vm_compute. reflexivity. Qed.

Lemma race_undefined_some created begun :
  race_undefined created begun = true ->
  exists p checked, created = Some (p, checked) /\ snd (race p begun) !! 1%nat = Some (Done Undefined).
Proof.
  destruct created as [[p checked]|]; [|done]. cbn. intros Hr. exists p, checked. split; [done|].
  by destruct (snd (race p begun) !! 1%nat) as [[[| | |]|]|].
Qed.

(** C37. A query beside a disconnect reaches undefined behaviour.  There is a run
    of a created product in which one client asks for the health, as the I/O
    thread of the service does several times a second, while another disconnects:
    the query goes on in a core that has been destroyed. *)
Theorem concurrent_disconnect_undefined :
  exists p checked c,
    create 1 1000 4 sample_product_config sample_opened None "" = Returned (Value (p, checked)) /\
    rtc product_step (product_start p race_scripts) c /\ snd c !! 1%nat = Some (Done Undefined).
Proof.
  destruct (race_undefined_some _ _ sample_race) as (p & checked & Hp & E).
  exists p, checked, (race p 3). split; [by apply sample_product_created|].
  split; [apply run_schedule_reachable|exact E].
Qed.

(** A side that does not exist: the presence of its gripper is read before the
    side is checked. *)
Definition undefined_result {T S} (r : outcome T * S) : bool :=
  match fst r with Undefined => true | _ => false end.

Example reset_tcp_offset_unchecked :
  match sample_product with
  | Some (p, _) => undefined_result (run_alone (product_call 1 (Rt_reset_tcp_offset 5)) p)
  | None => false
  end = true.
Proof. vm_compute. reflexivity. Qed.
