(* ===== verification/DriverLaws.v ===== *)
(** * What the codes of the motor backend promise

    A code 0 of the adapter between the safety runtime and the controllers:
    the frames of a group command have left on the buses of their motors, the
    mode and the position gain of a motor have been read back; and a dispatch of
    the group does not depend on the schedule of its workers. *)

From Stdlib Require Import String.
From S2P Require Import Prelude Float32 CanBus Protocol SocketCan RuntimeTypes Threads NativeTypes SafetyState Yunyi MotorHandle World MotorOps Controller ControllerGroup Drivers.
#[local] Open Scope mdl_scope.

(** ** A dispatch is its sequential run

    The workers of a controller group run concurrently; whatever their
    schedule, a dispatch that comes to its end leaves the same group, with the
    same result, as running the workers one after the other. *)

Section Schedules.
Context (envs : nat -> Environment).

(** What no worker touches. *)
Definition same_dispatch (g g' : Group) : Prop :=
  g_stopping g' = g_stopping g /\ g_generation g' = g_generation g /\ g_kind g' = g_kind g /\
  g_mit_batches g' = g_mit_batches g /\ g_pos_vel_batches g' = g_pos_vel_batches g /\
  length (g_workers g') = length (g_workers g).

#[local] Instance same_dispatch_preorder : PreOrder same_dispatch.
Proof.
  unfold same_dispatch. split; [intros g; by split_and!|]. intros g1 g2 g3; intros; destruct_and!.
  split_and!; congruence.
Qed.

Lemma group_step_same g g' : group_step envs g g' -> same_dispatch g g'.
Proof.
  intros [i g1 H|i g1 H].
  - unfold worker_start in H. repeat case_match; try done. injection H as <-.
    unfold same_dispatch. split_and!; try done. simpl. apply length_insert.
  - unfold worker_finish in H. repeat case_match; try done. injection H as <-.
    unfold same_dispatch. split_and!; try done. simpl. apply length_insert.
Qed.

Lemma group_steps_same g g' : rtc (group_step envs) g g' -> same_dispatch g g'.
Proof.
  intros H. induction H as [|g1 g2 g3 H _ IH]; [done|]. etrans; [by apply group_step_same|done].
Qed.

Section Dispatch.
Context (worlds : list World) (jobs : nat -> WorkerJob) (old generation : Z)
        (Hnew : old <> generation) (Hgen : in_word 64 generation).

Definition dispatch_complete (g : Group) : Prop := g_completed g = length (g_workers g).

(** Two ends of the same dispatch are the same group. *)
Lemma ends_agree g g' :
  dispatching envs worlds jobs old generation g -> dispatching envs worlds jobs old generation g' -> dispatch_complete g -> dispatch_complete g' -> same_dispatch g g' ->
  length worlds = length (g_workers g) -> g' = g.
Proof.
  intros D D' C C' (Hs & Hg & Hk & Hm & Hp & Hl) Hw.
  destruct (all_done _ _ _ _ _ Hnew _ D Hgen C) as [I R].
  destruct (all_done _ _ _ _ _ Hnew _ D' Hgen C') as [I' R'].
  assert (g_workers g' = g_workers g) as Ew.
  { apply list_eq_same_length with (length (g_workers g)); [done..|].
    intros i k k' _ Hi' Hi. rewrite (gi_workers _ I' _ _ Hi'), (gi_workers _ I _ _ Hi). congruence. }
  assert (forall i w, worlds !! i = Some w ->
    g_worlds g' !! i = g_worlds g !! i /\ g_errors g' !! i = g_errors g !! i) as Er.
  { intros i w Hi. destruct (R i w Hi Hw) as (e & w1 & E1 & E2 & E3).
    destruct (R' i w Hi) as (e' & w1' & E1' & E2' & E3'); [congruence|].
    rewrite E1 in E1'. injection E1' as <- <-. split; congruence. }
  assert (forall i, (i < length (g_workers g))%nat -> exists w, worlds !! i = Some w) as Hex.
  { intros i Hi. rewrite <- Hw in Hi. by apply lookup_lt_is_Some_2. }
  assert (g_worlds g' = g_worlds g) as Ewd.
  { apply list_eq_same_length with (length (g_workers g)).
    - apply (gi_worlds _ I).
    - rewrite (gi_worlds _ I'). by rewrite Ew.
    - intros i x y Hi Hx Hy. destruct (Hex i Hi) as [w E]. destruct (Er i w E). congruence. }
  assert (g_errors g' = g_errors g) as Ee.
  { apply list_eq_same_length with (length (g_workers g)).
    - apply (gi_errors _ I).
    - rewrite (gi_errors _ I'). by rewrite Ew.
    - intros i x y Hi Hx Hy. destruct (Hex i Hi) as [w E]. destruct (Er i w E). congruence. }
  unfold dispatch_complete in C, C'. destruct g, g'; simpl in *. congruence.
Qed.

(** No worker holds a job. *)
Definition quiescent (g : Group) : Prop :=
  forall i k, g_workers g !! i = Some k -> wk_job k = None.

Lemma run_worker_done i g :
  dispatching envs worlds jobs old generation g -> quiescent g ->
  (forall w, worlds !! i = Some w -> exists e w', run_job (envs i) (jobs i) w = (Returned e, w')) ->
  exists g', run_worker envs i g = (Returned tt, g') /\ rtc (group_step envs) g g' /\
    quiescent g' /\
    (forall k, g_workers g' !! i = Some k -> worker_done generation k = true) /\
    (forall j, j <> i -> g_workers g' !! j = g_workers g !! j).
Proof.
  intros D Q Hrun. unfold run_worker. destruct (worker_start i g) as [g1|] eqn:E1.
  - destruct (worker_start_dispatching _ _ _ _ _ Hnew _ _ _ D E1) as [D1 (k & Hk & -> & ->)].
    set (g1 := set_worker _ _ _) in *.
    assert (Ek : g_workers g1 !! i = Some {| wk_seen_generation := generation; wk_job := Some (jobs i) |})
      by (simpl; rewrite list_lookup_insert_eq; [done|by eapply lookup_lt_Some]).
    destruct (lookup_lt_is_Some_2 (g_worlds g1) i) as [w Ew].
    { rewrite (gd_worlds _ _ _ _ _ _ D1). by eapply lookup_lt_Some. }
    destruct (gd_workers _ _ _ _ _ _ D1 i _ Ek) as [(? & _)|[(_ & Hwi)|(? & _)]]; [done| |done].
    destruct (Hrun w) as (e & w' & Er); [congruence|].
    assert (exists g2, worker_finish envs i g1 = Some g2) as [g2 E2].
    { unfold worker_finish. rewrite Ek, Ew. simpl. rewrite Er. eauto. }
    rewrite E2. exists g2. split; [done|].
    destruct (worker_finish_dispatching _ _ _ _ _ _ _ _ D1 E2) as [_ (k2 & _ & _ & W2)].
    assert (L : (i < length (g_workers g))%nat) by (by eapply lookup_lt_Some).
    split; [eapply rtc_l; [by apply (StepStart _ _ i)|];
            eapply rtc_l; [by apply (StepFinish _ _ i)|done]|].
    simpl in W2. rewrite list_insert_insert_eq in W2. unfold quiescent. rewrite W2. split_and!.
    + intros j k' Hj. rewrite list_lookup_insert in Hj. case_decide; [by simplify_eq|].
      by eapply Q.
    + intros k' Hk'. rewrite list_lookup_insert_eq in Hk' by done. injection Hk' as <-.
      apply worker_done_idle.
    + intros j Hj. by rewrite list_lookup_insert_ne.
  - exists g. split_and!; try done. intros k Hk. unfold worker_start in E1. rewrite Hk in E1.
    rewrite (gd_open _ _ _ _ _ _ D), (Q i k Hk), (gd_generation _ _ _ _ _ _ D) in E1.
    unfold worker_done. rewrite (Q i k Hk). destruct (Z.eqb_spec (wk_seen_generation k) generation);
      [done|discriminate].
Qed.

(** The workers of [indices], one after the other. *)
Lemma run_workers_done indices g :
  dispatching envs worlds jobs old generation g -> quiescent g ->
  (forall i w, worlds !! i = Some w -> exists e w', run_job (envs i) (jobs i) w = (Returned e, w')) ->
  exists g', for_each indices (run_worker envs) g = (Returned tt, g') /\
    rtc (group_step envs) g g' /\
    forall j k, g_workers g' !! j = Some k -> j ∈ indices \/
      (exists k0, g_workers g !! j = Some k0 /\ worker_done generation k0 = true) ->
      worker_done generation k = true.
Proof.
  intros D Q Hrun. revert g D Q. induction indices as [|i rest IH]; intros g D Q; simpl.
  { exists g. split_and!; try done. intros j k Hk [?%elem_of_nil|(k0 & Hk0 & Hd)]; [done|congruence]. }
  destruct (run_worker_done i g D Q (Hrun i)) as (g1 & E1 & S1 & Q1 & H1 & F1).
  assert (D1 : dispatching envs worlds jobs old generation g1) by (by eapply group_steps_dispatching).
  destruct (IH g1 D1 Q1) as (g2 & E2 & S2 & H2). exists g2.
  rewrite (bind_run _ _ _ _ _ E1). split; [done|]. split; [by etrans|].
  intros j k Hk Hj.
  assert (Hl : exists k1, g_workers g1 !! j = Some k1).
  { apply lookup_lt_is_Some_2. destruct (group_steps_same _ _ S2) as (_ & _ & _ & _ & _ & <-).
    by eapply lookup_lt_Some. }
  destruct Hl as [k1 Hk1]. apply (H2 j k Hk). destruct (decide (j = i)) as [->|Hne].
  - right. exists k1. split; [done|by apply H1].
  - destruct Hj as [[->|?]%elem_of_cons|Hj]; [done|by left|]. right. by rewrite F1.
Qed.

Lemma all_jobs_returned g :
  dispatching envs worlds jobs old generation g -> dispatch_complete g -> length worlds = length (g_workers g) ->
  forall i w, worlds !! i = Some w -> exists e w', run_job (envs i) (jobs i) w = (Returned e, w').
Proof.
  intros D C Hl i w Hi. destruct (all_done _ _ _ _ _ Hnew _ D Hgen C) as [_ R].
  destruct (R i w Hi Hl) as (e & w' & H & _). eauto.
Qed.

End Dispatch.

(** The workers' runs are steps of the group. *)
Lemma run_worker_steps i g g' :
  run_worker envs i g = (Returned tt, g') -> rtc (group_step envs) g g'.
Proof.
  unfold run_worker. destruct (worker_start i g) as [g1|] eqn:E1; [|by intros [= <-]].
  destruct (worker_finish envs i g1) as [g2|] eqn:E2; [|done]. intros [= <-].
  eapply rtc_l; [by apply (StepStart _ _ i)|]. apply rtc_once. by apply (StepFinish _ _ i).
Qed.

Lemma run_workers_steps indices g g' :
  for_each indices (run_worker envs) g = (Returned tt, g') -> rtc (group_step envs) g g'.
Proof.
  revert g. induction indices as [|i rest IH]; simpl; intros g H; [by injection H as <-|].
  apply bind_returned in H as ([] & g1 & E & H). etrans; [by eapply run_worker_steps|by apply IH].
Qed.

Lemma run_worker_thrown i g e g' : run_worker envs i g = (Thrown e, g') -> False.
Proof. unfold run_worker. by repeat case_match. Qed.

Lemma run_workers_thrown indices g e g' :
  for_each indices (run_worker envs) g = (Thrown e, g') -> False.
Proof.
  revert g. induction indices as [|i rest IH]; simpl; intros g H; [done|].
  apply bind_thrown in H as [H|(? & g1 & _ & H)]; [by eapply run_worker_thrown|by eapply IH].
Qed.

(** C20. Concurrency makes no difference to a dispatch: the ends its workers can
    reach, in whatever order they start and finish, are exactly the one group
    and result of running them one after the other. *)
Theorem schedules_agree t g g1 g2 o :
  group_idle g -> dispatch_begin t g = (Returned tt, g1) ->
  (rtc (group_step envs) g1 g2 /\ wait_and_raise g2 = Some o) <->
  (group_send envs t g = (o, g2) /\ o <> Undefined /\ o <> Unfinished).
Proof.
  intros Hi Hb. destruct (u64_succ_ne _ (gi_generation _ Hi)) as [Hne Hgen].
  destruct (dispatch_begin_dispatching envs _ _ _ Hi Hb) as [D W].
  assert (Hl : length (g_worlds g) = length (g_workers g1)) by (rewrite W; apply (gi_worlds _ Hi)).
  unfold group_send. rewrite (bind_run _ _ _ _ _ Hb). unfold gets at 1.
  change (bind (fun s => _) _ g1) with
    ((for_each (seq 0 (length (g_workers g1))) (run_worker envs) ;;; raise_errors) g1).
  split.
  - intros [S Ho]. pose proof (group_steps_dispatching _ _ _ _ _ Hne _ _ D S) as D2.
    pose proof (group_steps_same _ _ S) as F2.
    assert (C2 : dispatch_complete g2).
    { unfold wait_and_raise in Ho. by destruct (Nat.eqb_spec (g_completed g2) (length (g_workers g2))). }
    assert (Hl2 : length (g_worlds g) = length (g_workers g2))
      by (destruct F2 as (_ & _ & _ & _ & _ & ->); done).
    assert (Q : quiescent g1).
    { intros i k Hk. rewrite W in Hk. by rewrite (gi_workers _ Hi i k Hk). }
    destruct (run_workers_done _ _ _ _ Hne (seq 0 (length (g_workers g1))) _ D Q
      (all_jobs_returned _ _ _ _ Hne Hgen _ D2 C2 Hl2)) as (g3 & E & S3 & H3).
    assert (g3 = g2) as ->.
    { pose proof (group_steps_same _ _ S3) as F3.
      pose proof (group_steps_dispatching _ _ _ _ _ Hne _ _ D S3) as D3.
      apply (ends_agree (g_worlds g) (shared_job (g_worlds g) t) _ _ Hne Hgen g2); try done.
      - unfold dispatch_complete. rewrite (gd_completed _ _ _ _ _ _ D3). apply count_all.
        intros k [i Hk]%list_elem_of_lookup_1. apply (H3 i k Hk). left.
        apply elem_of_seq. destruct F3 as (_ & _ & _ & _ & _ & <-).
        apply lookup_lt_Some in Hk. lia.
      - unfold same_dispatch in *. destruct_and!. split_and!; congruence. }
    rewrite (bind_run _ _ _ _ _ E). unfold raise_errors. rewrite Ho. split; [done|].
    unfold wait_and_raise in Ho. repeat case_match; try done; by injection Ho as <-.
  - intros (H & H1 & H2). unfold bind in H at 1.
    destruct (for_each _ _ g1) as [[[]|e| |] g3] eqn:E; try congruence.
    2:{ by apply run_workers_thrown in E. }
    apply run_workers_steps in E. unfold raise_errors in H.
    destruct (wait_and_raise g3) as [o'|] eqn:Eo; [|congruence]. by injection H as -> ->.
Qed.

End Schedules.

(** The second worker overtakes the first. *)
Lemma schedules_agree_witness :
  group_send sample_envs sample_task sample_group = (Returned tt, sample_step4).
Proof.
  apply (schedules_agree sample_envs sample_task sample_group sample_started sample_step4 (Returned tt)
    sample_group_idle sample_begin).
  split; [exact (rtc_nsteps_2 _ _ _ sample_steps)|vm_compute; reflexivity].
Defined.

(** ** The wrappers *)

Lemma focus_returned {S T A} (get : S -> T) set (m : M T A) s a s' :
  focus get set m s = (Returned a, s') ->
  exists t, m (get s) = (Returned a, t) /\ s' = set t s.
Proof. unfold focus. destruct (m (get s)) as [o t]. intros [= -> <-]. eauto. Qed.

Lemma at_world_returned {A} i (m : M World A) worlds a worlds' :
  at_world i m worlds = (Returned a, worlds') ->
  exists w w', worlds !! i = Some w /\ m w = (Returned a, w') /\ worlds' = <[i := w']> worlds.
Proof.
  unfold at_world. destruct (worlds !! i) as [w|]; [|done].
  destruct (m w) as [o w'] eqn:E. intros [= -> <-]. eauto.
Qed.

Lemma set_motor_error_run who text d u d' :
  set_motor_error who text d = (Returned u, d') ->
  dv_group d' = dv_group d /\ dv_owners d' = dv_owners d.
Proof. unfold set_motor_error, modify. by intros [= <- <-]. Qed.

(** A code 0 is a call that returned. *)
Lemma native_call_ok who fn d d' :
  native_call who fn d = (Returned 0, d') ->
  exists d1, fn d = (Returned tt, d1) /\ dv_group d' = dv_group d1 /\ dv_owners d' = dv_owners d1.
Proof.
  unfold native_call. intros [H|(e & d1 & _ & H)]%try_catch_returned.
  - apply bind_returned in H as ([] & d1 & H1 & H). apply bind_returned in H as (u & d2 & H2 & H).
    injection H as <-. apply set_motor_error_run in H2. eauto.
  - apply bind_returned in H as (u & d2 & _ & H). discriminate.
Qed.

Lemma native_commands_returned {A C} motor (command : A -> C) l d native d' :
  native_commands motor command l d = (Returned native, d') ->
  d' = d /\
  Forall2 (fun c g => exists p, owner_at d (motor c) = Some p /\ gc_motor g = Some p /\
    gc_command g = command c) l native.
Proof.
  revert native. induction l as [|c rest IH]; intros native H; cbn [native_commands] in H.
  { injection H as <- <-. by split; [|constructor]. }
  apply bind_returned in H as (p & d1 & Hp & H). unfold owned_motor, gets in Hp.
  unfold bind in Hp at 1. destruct (owner_at d (motor c)) as [p'|] eqn:E; [|done].
  injection Hp as <- <-. apply bind_returned in H as (l' & d2 & H1 & [= <- <-]).
  apply IH in H1 as [-> H1]. split; [done|]. constructor; [|done]. by exists p'.
Qed.

(** ** What a group command sends *)

Lemma group_send_schedule envs t g g2 :
  group_send envs t g = (Returned tt, g2) ->
  exists g1, dispatch_begin t g = (Returned tt, g1) /\ rtc (group_step envs) g1 g2 /\
    wait_and_raise g2 = Some (Returned tt).
Proof.
  unfold group_send. intros H. apply bind_returned in H as ([] & g1 & H1 & H).
  exists g1. split; [done|]. apply bind_returned in H as (n & g1' & [= _ <-] & H).
  apply bind_returned in H as ([] & g3 & H3 & H). apply run_workers_steps in H3.
  unfold raise_errors in H. destruct (wait_and_raise g3) as [o|] eqn:E; [|done].
  injection H as -> <-. done.
Qed.

(** Every job ran once and reported no error. *)
Lemma group_send_returned envs t g g' :
  group_idle g -> group_send envs t g = (Returned tt, g') ->
  (exists g1, dispatch_begin t g = (Returned tt, g1)) /\
  forall i w, g_worlds g !! i = Some w ->
    exists w', run_job (envs i) (shared_job (g_worlds g) t i) w = (Returned ""%string, w') /\
      g_worlds g' !! i = Some w'.
Proof.
  intros Hi (g1 & Hb & Hs & Ho)%group_send_schedule. split; [by exists g1|]. intros i w Hw.
  destruct (u64_succ_ne _ (gi_generation _ Hi)) as [Hne Hgen].
  destruct (dispatch_begin_dispatching envs _ _ _ Hi Hb) as [D W].
  pose proof (group_steps_dispatching _ _ _ _ _ Hne _ _ D Hs) as D2.
  pose proof (group_steps_same _ _ _ Hs) as (_ & _ & _ & _ & _ & L).
  unfold wait_and_raise in Ho. destruct (Nat.eqb_spec (g_completed g') (length (g_workers g'))) as [C|]; [|done].
  destruct (all_done _ _ _ _ _ Hne _ D2 Hgen C) as [_ R].
  destruct (R i w Hw) as (e & w' & E & Ew & Ee).
  { rewrite L, W. apply (gi_worlds _ Hi). }
  destruct (failure_text (g_errors g') 0 None) as [text|] eqn:F; [done|].
  apply failure_text_none in F as [_ F]. rewrite (F e) in E by (by eapply list_elem_of_lookup_2).
  by exists w'.
Qed.

Lemma first_owner_side worlds indices p i : first_owner worlds indices p = Some i -> fst p = i.
Proof.
  induction indices as [|j rest IH]; [done|]. simpl. unfold group_owns.
  destruct (bool_decide (fst p = j)) eqn:E; simpl; [|done].
  apply bool_decide_eq_true in E. case_match; [|done]. by intros [= <-].
Qed.

(** The commands of an accepted task have owners. *)
Lemma partition_owned {C} kind worlds (commands : list (GroupCommand C)) b b' :
  length b = length worlds ->
  partition kind worlds commands b = (Returned tt, b') ->
  Forall (fun c => exists p i, gc_motor c = Some p /\
    first_owner worlds (seq 0 (length worlds)) p = Some i) commands.
Proof.
  intros Hl H. unfold partition in H. destruct (_ <? _)%nat; [done|].
  apply partition_from_returned in H as (_ & _ & _ & A); [|done].
  apply Forall_forall. intros c Hc. destruct (A c Hc) as (p & Hp & _ & i & Ho). by exists p, i.
Qed.

Section Wire.
Context {A C : Type} (d : Drivers) (motor : A -> handle) (command : A -> C)
        (frame : C -> MotorHandle -> option CanFrame).

Definition command_side (c : A) : option nat :=
  match owner_at d (motor c) with Some p => Some (fst p) | None => None end.

(** The frame of a command, with the identity of the command's own motor. *)
Definition carries (w : World) (c : A) (f : CanFrame) : Prop :=
  exists p m, owner_at d (motor c) = Some p /\ w_store w !! snd p = Some m /\
    frame (command c) m = Some f.

Lemma share_carries worlds i w commands native frames :
  Forall2 (fun c g => exists p, owner_at d (motor c) = Some p /\ gc_motor g = Some p /\
    gc_command g = command c) commands native ->
  Forall (fun g : GroupCommand C => exists p i, gc_motor g = Some p /\
    first_owner worlds (seq 0 (length worlds)) p = Some i) native ->
  Forall2 (fun g f => exists p m, gc_motor g = Some p /\ w_store w !! snd p = Some m /\
    frame (gc_command g) m = Some f) (share worlds native i) frames ->
  Forall2 (carries w) (filter (fun c => command_side c = Some i) commands) frames.
Proof.
  intros H. revert frames. induction H as [|c g commands native (p & Hp & Hg & Hc) _ IH];
    intros frames Ho Hf.
  { apply Forall2_nil_inv_l in Hf as ->. constructor. }
  apply Forall_cons in Ho as [(p' & j & Hp' & Hj) Ho].
  assert (p' = p) as -> by congruence. pose proof (first_owner_side _ _ _ _ Hj) as Hs.
  unfold share in Hf. rewrite filter_cons in Hf. rewrite filter_cons.
  assert (owner_of worlds g = Some j) as Hw by (unfold owner_of; by rewrite Hg).
  assert (command_side c = Some j) as Hc' by (unfold command_side; rewrite Hp; simpl; congruence).
  rewrite Hw in Hf. rewrite Hc'. destruct (decide (Some j = Some i)); [|by apply IH].
  apply Forall2_cons_inv_l in Hf as (f & frames' & (p1 & m & E1 & E2 & E3) & Hf & ->).
  constructor; [|by apply IH]. exists p1, m. split_and!; [congruence|done|congruence].
Qed.

End Wire.

(** *** A batch that throws says why *)

Section Texts.
Context {Env : Environment}.

Lemma batch_command_text motor send w e w' :
  batch_command motor send w = (Thrown e, w') -> error_text "unknown native exception" e <> ""%string.
Proof.
  unfold batch_command. intros [H|(label & w1 & _ & H)]%bind_thrown; [by apply read_ctl_run in H as [? _]|].
  assert (F : forall s, error_text "unknown native exception" (foreign_motor s) <> ""%string).
  { intros s. unfold foreign_motor. simpl. by destruct s. }
  destruct motor as [l|]; [|by injection H as <- _].
  apply bind_thrown in H as [H|(owned & w2 & _ & H)]; [by apply owns_motor_no_throw in H|].
  destruct owned; [|by injection H as <- _]. simpl in H.
  apply try_catch_thrown in H as (e1 & w3 & _ & H).
  destruct e1; try (by injection H as <- _).
  all: apply bind_thrown in H as [H|(id & w4 & _ & H)]; [by apply read_handle_no_throw in H|].
  all: injection H as <- _; simpl; by destruct label.
Qed.

Lemma batch_text {A} (cs : list A) motor send w e w' :
  when_open (for_each cs (fun c => batch_command (motor c) (send c))) w = (Thrown e, w') ->
  error_text "unknown native exception" e <> ""%string.
Proof.
  unfold when_open. intros [H|(c & w1 & _ & H)]%bind_thrown; [by apply read_ctl_run in H as [? _]|].
  destruct (bus_closed_ c); [injection H as <- _; simpl; by destruct (endpoint_label_ c)|].
  revert w1 H. induction cs as [|x cs IH]; [done|]. intros w1 [H|(u & w2 & _ & H)]%bind_thrown;
    [by eapply batch_command_text|by eapply IH].
Qed.

End Texts.

(** What a job that reported nothing has sent. *)
Definition job_frames (job : WorkerJob) (w w' : World) : Prop :=
  exists frames, w_sent w' = w_sent w ++ frames /\
    match job with
    | MitJob batch => Forall2 (fun g f => exists p m, gc_motor g = Some p /\
        w_store w' !! snd p = Some m /\ mit_frame (gc_command g) m = Some f) batch frames
    | PosVelJob batch => Forall2 (fun g f => exists p m, gc_motor g = Some p /\
        w_store w' !! snd p = Some m /\ pos_vel_frame (gc_command g) m = Some f) batch frames
    end.

Lemma local_frames {C D} (local : GroupCommand C -> D) motor (frame : D -> MotorHandle -> option CanFrame)
    (frame' : C -> MotorHandle -> option CanFrame) w' (batch : list (GroupCommand C)) frames :
  (forall g, motor (local g) = option_map snd (gc_motor g)) ->
  (forall g m, frame (local g) m = frame' (gc_command g) m) ->
  Forall2 (fun c f => exists l m, motor c = Some l /\ w_store w' !! l = Some m /\
      frame c m = Some f) (map local batch) frames ->
  Forall2 (fun g f => exists p m, gc_motor g = Some p /\
      w_store w' !! snd p = Some m /\ frame' (gc_command g) m = Some f) batch frames.
Proof.
  intros Hm Hf H. apply Forall2_fmap_l in H. eapply Forall2_impl; [exact H|]. simpl.
  intros g f (l & m & Hl & Hs & Hfr). rewrite Hm in Hl. rewrite Hf in Hfr.
  destruct (gc_motor g) as [p|]; [|done]. injection Hl as <-. by exists p, m.
Qed.

Lemma run_job_frames env job w w' :
  run_job env job w = (Returned ""%string, w') -> job_frames job w w'.
Proof.
  unfold run_job, job_frames. destruct job as [batch|batch].
  - destruct (send_mit_batch (map local_mit batch) w) as [[[]|e| |] w1] eqn:E; try done.
    2:{ intros [= He _]. apply batch_text in E. congruence. }
    intros [= <-]. unfold send_mit_batch, when_open in E.
    apply bind_returned in E as (c & w2 & Ec & E).
    run_keeps quiet Ec. destruct (bus_closed_ c); [done|].
    apply (batch_log mit_motor _ mit_frame send_mit_sends_one) in E as [E _].
    destruct (E tt eq_refl) as (frames & Hs & Hf). exists frames. unfold quiet in *.
    split; [congruence|]. rewrite firstn_all in Hf. eapply local_frames; [..|exact Hf]; [|done].
    intros g. simpl. by destruct (gc_motor g).
  - destruct (send_pos_vel_batch (map local_pos_vel batch) w) as [[[]|e| |] w1] eqn:E; try done.
    2:{ intros [= He _]. apply batch_text in E. congruence. }
    intros [= <-]. unfold send_pos_vel_batch, when_open in E.
    apply bind_returned in E as (c & w2 & Ec & E).
    run_keeps quiet Ec. destruct (bus_closed_ c); [done|].
    apply (batch_log Controller.pv_motor _ pos_vel_frame send_pos_vel_sends_one) in E as [E _].
    destruct (E tt eq_refl) as (frames & Hs & Hf). exists frames. unfold quiet in *.
    split; [congruence|]. rewrite firstn_all in Hf. eapply local_frames; [..|exact Hf]; [|done].
    intros g. simpl. by destruct (gc_motor g).
Qed.

(** What a controller has sent for the commands of its own motors. *)
Definition sent_for {A C} (d d' : Drivers) (motor : A -> handle) (command : A -> C)
    (frame : C -> MotorHandle -> option CanFrame) (commands : list A) : Prop :=
  forall i w, g_worlds (dv_group d) !! i = Some w ->
    exists w' frames, g_worlds (dv_group d') !! i = Some w' /\ w_sent w' = w_sent w ++ frames /\
      Forall2 (carries d motor command frame w')
        (filter (fun c => command_side d motor c = Some i) commands) frames.

(** Every command has a motor, on one of the controllers. *)
Definition all_owned {A} (d : Drivers) (motor : A -> handle) (commands : list A) : Prop :=
  Forall (fun c => exists i, command_side d motor c = Some i /\
    is_Some (g_worlds (dv_group d) !! i)) commands.

Lemma first_owner_bound worlds indices p i : first_owner worlds indices p = Some i -> is_Some (worlds !! i).
Proof.
  induction indices as [|j rest IH]; [done|]. simpl. unfold group_owns.
  destruct (bool_decide (fst p = j)); simpl; [|done].
  destruct (worlds !! j) as [w|] eqn:E; [|done]. destruct (w_store w !! snd p); [|done].
  case_bool_decide; [|done]. intros [= <-]. by rewrite E.
Qed.

Lemma owned_commands {A C} d (motor : A -> handle) (command : A -> C) commands native :
  Forall2 (fun c g => exists p, owner_at d (motor c) = Some p /\ gc_motor g = Some p /\
    gc_command g = command c) commands native ->
  Forall (fun g : GroupCommand C => exists p i, gc_motor g = Some p /\
    first_owner (g_worlds (dv_group d)) (seq 0 (length (g_worlds (dv_group d)))) p = Some i) native ->
  all_owned d motor commands.
Proof.
  intros H Ho. apply Forall_forall. intros c Hc.
  apply list_elem_of_lookup_1 in Hc as [k Hk].
  destruct (Forall2_lookup_l _ _ _ _ _ H Hk) as (g & Hg & p & Hp & Hgp & _).
  rewrite Forall_forall in Ho. destruct (Ho g ltac:(by eapply list_elem_of_lookup_2)) as (p' & i & Hp' & Hi).
  assert (p' = p) as -> by congruence. exists i. split; [|by eapply first_owner_bound].
  unfold command_side. rewrite Hp. by rewrite <- (first_owner_side _ _ _ _ Hi).
Qed.

Section Commands.
Context (envs : nat -> Environment) (who : nat).

Lemma group_commands_sent {A C} d d' (motor : A -> handle) (command : A -> C) kind
    (task : list (GroupCommand C) -> Task) (frame : C -> MotorHandle -> option CanFrame)
    commands :
  (forall native g1, dispatch_begin (task native) (dv_group d) = (Returned tt, g1) ->
     exists b b', length b = length (g_worlds (dv_group d)) /\
       partition kind (g_worlds (dv_group d)) native b = (Returned tt, b')) ->
  (forall native i w w', job_frames (shared_job (g_worlds (dv_group d)) (task native) i) w w' ->
     exists frames, w_sent w' = w_sent w ++ frames /\
       Forall2 (fun g f => exists p m, gc_motor g = Some p /\ w_store w' !! snd p = Some m /\
         frame (gc_command g) m = Some f) (share (g_worlds (dv_group d)) native i) frames) ->
  group_idle (dv_group d) ->
  native_call who (
    do native <- native_commands motor command commands;
    on_group (group_send envs (task native))) d = (Returned 0, d') ->
  all_owned d motor commands /\ sent_for d d' motor command frame commands.
Proof.
  intros Hpart Hjob Hi (d1 & H & Hg & _)%native_call_ok.
  apply bind_returned in H as (native & d2 & [-> Hn]%native_commands_returned & H).
  apply focus_returned in H as (g' & Hs & ->). simpl in Hg.
  destruct (group_send_returned _ _ _ _ Hi Hs) as [[g1 Hb] Hr].
  destruct (Hpart _ _ Hb) as (b & b' & Hl & Hp). pose proof (partition_owned _ _ _ _ _ Hl Hp) as Ho.
  split; [by eapply owned_commands|]. intros i w Hw.
  destruct (Hr i w Hw) as (w' & Hj & Hw'). apply run_job_frames, Hjob in Hj as (frames & Hf & Hall).
  exists w', frames. split_and!; [by rewrite Hg|done|]. by eapply share_carries.
Qed.

(** C17. A group command that reports success has reached the wire: every
    command of the runtime has a motor of its own on one of the two
    controllers, and each controller has transmitted exactly one frame for
    each command of its motors, in their order and nothing else, with the
    motor's identity and the command's values. *)
Theorem commands_reach_the_wire d d' :
  group_idle (dv_group d) ->
  (forall commands, group_send_pos_vel envs who commands d = (Returned 0, d') ->
     all_owned d NativeTypes.pv_motor commands /\
     sent_for d d' NativeTypes.pv_motor native_pos_vel pos_vel_frame commands) /\
  (forall commands, group_send_mit envs who commands d = (Returned 0, d') ->
     all_owned d NativeTypes.mit_motor commands /\
     sent_for d d' NativeTypes.mit_motor native_mit mit_frame commands).
Proof.
  intros Hi. split; intros commands H.
  - apply (group_commands_sent _ _ _ _ PosVel PosVelTask pos_vel_frame) in H; [done| |by intros|done].
    intros native g1 Hb. simpl in Hb.
    destruct (partition PosVel _ native _) as [[[]| | |] b'] eqn:E; try done. eexists _, b'.
    split; [|exact E]. rewrite length_map, (gi_pos_vel _ Hi). by rewrite (gi_worlds _ Hi).
  - apply (group_commands_sent _ _ _ _ Mit MitTask mit_frame) in H; [done| |by intros|done].
    intros native g1 Hb. simpl in Hb.
    destruct (partition Mit _ native _) as [[[]| | |] b'] eqn:E; try done. eexists _, b'.
    split; [|exact E]. rewrite length_map, (gi_mit _ Hi). by rewrite (gi_worlds _ Hi).
Qed.

End Commands.

(** ** The mode of a motor, and the gain that goes with it *)

Section Gain.
Context {Env : Environment} (fuel : nat).

Lemma get_register_f32_returned l rid timeout w v w' :
  get_register_f32 fuel l rid timeout w = (Returned v, w') ->
  exists data, replied_since w w' l rid data /\ v = f32_of_raw data.
Proof.
  unfold get_register_f32. intros H. step_run H. apply of_outcome_returned in E as [_ ->].
  step_run H. injection H as <- <-. apply wait_for_register_returned in E. by exists a0.
Qed.

Lemma write_register_f32_evolves l rid v : keeps evolves (write_register_f32 fuel l rid v).
Proof.
  unfold write_register_f32. pose proof (write_register_with_retry_evolves fuel). keeps_tac.
Qed.

Lemma store_parameters_evolves l : keeps evolves (store_parameters fuel l).
Proof. unfold store_parameters. keeps_tac. Qed.

#[local] Hint Resolve write_register_f32_evolves store_parameters_evolves : keeps.

Lemma verify_position_gain_evolves l j t : keeps evolves (verify_position_gain fuel l j t).
Proof. unfold verify_position_gain. keeps_tac. Qed.

Lemma verify_position_gain_returned l joint3 timeout w w' :
  verify_position_gain fuel l joint3 timeout w = (Returned tt, w') ->
  exists data, replied_since w w' l kPvPositionKpRegister data /\
    gain_differs (f32_of_raw data) (f32_of_Z 198) = false.
Proof.
  unfold verify_position_gain. intros H. step_run H. run_keeps evolves E. step_run H.
  run_keeps evolves E0. step_run H. apply get_register_f32_returned in E1 as (data & Hd & ->).
  assert (Hx : (if joint3 then kJoint3PvPositionKp else kJoint4PvPositionKp) = f32_of_Z 198)
    by (by destruct joint3).
  rewrite Hx in H. destruct (gain_differs (f32_of_raw data) (f32_of_Z 198)) eqn:Eg; [done|]. injection H as <-.
  exists data. split; [|done]. eapply replied_earlier; [|exact Hd]. by etrans.
Qed.

(** The motors whose gain is verified: J3 and J4. *)
Definition gain_motor (m : MotorHandle) : Prop :=
  (motor_id_ m = 3 \/ motor_id_ m = 4) /\ model_ m = "4340P"%string.

Lemma ensure_motor_mode_returned l mode timeout w w' :
  ensure_motor_mode fuel l mode timeout w = (Returned tt, w') ->
  exists w1, evolves w w1 /\ evolves w1 w' /\
    (exists data, replied_since w w1 l 10 data /\ le_value data = mode) /\
    forall m, w_store w' !! l = Some m -> mode = 2 -> gain_motor m ->
      exists data, replied_since w1 w' l kPvPositionKpRegister data /\
        gain_differs (f32_of_raw data) (f32_of_Z 198) = false.
Proof.
  unfold ensure_motor_mode. intros H. step_run H. destruct a. run_keeps evolves E.
  apply ensure_mode_verified in E as (_ & _ & Hmode). step_run H. run_keeps evolves E.
  apply read_handle_returned in E as (m & Hm & ->).
  assert (V : evolves w1 w').
  { eapply keeps_returned; [|exact H]. pose proof verify_position_gain_evolves. keeps_tac. }
  exists w0. split_and!; [done|by etrans|done|]. intros m' Hm' -> [Hid Hmodel].
  destruct (ev_store _ _ V _ _ Hm) as (m2 & Hm2 & M). assert (m2 = m') as -> by congruence.
  rewrite (mo_motor_id _ _ _ M) in Hid. rewrite (mo_model _ _ _ M) in Hmodel.
  rewrite bool_decide_eq_true_2 in H by done.
  assert (Hc : (2 =? 2) && ((motor_id_ m =? 3) || (motor_id_ m =? 4)) && true = true)
    by (by destruct Hid as [-> | ->]).
  rewrite Hc in H. apply verify_position_gain_returned in H as (data & Hd & Hg).
  exists data. split; [|done]. by eapply replied_earlier.
Qed.

End Gain.

Section Mode.
Context (envs : nat -> Environment) (fuel who : nat).

Lemma at_motor_returned {A} h (m : Environment -> nat -> M World A) d a d' :
  at_motor envs h m d = (Returned a, d') ->
  exists w w', g_worlds (dv_group d) !! fst (object h) = Some w /\
    m (envs (fst (object h))) (snd (object h)) w = (Returned a, w') /\
    g_worlds (dv_group d') = <[fst (object h) := w']> (g_worlds (dv_group d)).
Proof.
  unfold at_motor, on_controller, on_group. cbv zeta. intros (g & H & ->)%focus_returned.
  apply focus_returned in H as (ws & H & ->). apply at_world_returned in H as (w & w' & Hw & Hm & ->).
  eauto.
Qed.

(** C19. A motor that was put into a mode is in it: with code 0 a reply to a read
    of register 10, received after the call began, holds exactly the mode; and
    for POS_VEL on J3 or J4 a reply received after that shows a position-loop
    gain that differs from 198 by no more than 1e-4, or is no number.  The
    other controller is untouched. *)
Theorem mode_and_gain_verified h mode timeout_ms d d' :
  motor_ensure_mode envs fuel who h mode timeout_ms d = (Returned 0, d') ->
  let '(side, l) := object h in
  exists w w1 w', g_worlds (dv_group d) !! side = Some w /\
    g_worlds (dv_group d') = <[side := w']> (g_worlds (dv_group d)) /\
    evolves w w1 /\ evolves w1 w' /\
    (exists data, replied_since w w1 l 10 data /\ le_value data = mode) /\
    forall m, w_store w' !! l = Some m -> mode = 2 -> gain_motor m ->
      exists data, replied_since w1 w' l kPvPositionKpRegister data /\
        gain_differs (f32_of_raw data) (f32_of_Z 198) = false.
Proof.
  unfold motor_ensure_mode, motor_call. destruct (h =? 0)%nat; [done|].
  intros (d1 & H & Hg & _)%native_call_ok. apply at_motor_returned in H as (w & w' & Hw & Hm & Hd).
  apply ensure_motor_mode_returned in Hm as (w1 & V1 & V2 & Hmode & Hgain).
  destruct (object h) as [side l]. exists w, w1, w'. rewrite Hg. split_and!; done.
Qed.

End Mode.

(** ** Two controllers with J3 on each *)

Definition sample_drivers : Drivers :=
  {| dv_group := sample_group; dv_owners := {[1%nat := (0%nat, 0%nat); 2%nat := (1%nat, 0%nat)]};
     dv_errors := fun _ => "ok"%string |}.

Definition pv_to (h : handle) : ArticorePosVelCommand :=
  {| NativeTypes.pv_motor := h; pv_target_position := f32_lit 1 2;
     NativeTypes.pv_velocity_limit := f32_of_Z 1 |}.

Lemma commands_reach_the_wire_witness :
  exists d', group_send_pos_vel sample_envs 0 [pv_to 2%nat; pv_to 1%nat] sample_drivers = (Returned 0, d') /\
    all_owned sample_drivers NativeTypes.pv_motor [pv_to 2%nat; pv_to 1%nat] /\
    sent_for sample_drivers d' NativeTypes.pv_motor native_pos_vel pos_vel_frame [pv_to 2%nat; pv_to 1%nat].
Proof.
  run_to_result (group_send_pos_vel sample_envs 0 [pv_to 2%nat; pv_to 1%nat] sample_drivers)
    (Returned (A := Z) 0) R.
  exists w. split; [exact R|].
  exact (proj1 (commands_reach_the_wire sample_envs 0 sample_drivers w sample_group_idle) _ R).
Defined.

(** Registers 10 and 27 of motor 3: the mode 2, and a gain of 198 or one that
    is no number. *)
Definition pos_vel_reply : CanFrame := can_frame 0x13 [3; 0; 0x33; 10; 2; 0; 0; 0].
Definition gain_reply : CanFrame := can_frame 0x13 [3; 0; 0x33; 27; 0; 0; 0x46; 0x43].
Definition nan_reply : CanFrame := can_frame 0x13 [3; 0; 0x33; 27; 0; 0; 0xC0; 0x7F].

Definition gain_envs (reply : CanFrame) (i : nat) : Environment := answering [pos_vel_reply; reply].

Lemma mode_and_gain_verified_witness :
  exists d' w w1 w' data,
    motor_ensure_mode (gain_envs gain_reply) 3 0 1%nat 2 500 sample_drivers = (Returned 0, d') /\
    g_worlds (dv_group sample_drivers) !! 0%nat = Some w /\ replied_since w1 w' 0 27 data /\
    gain_differs (f32_of_raw data) (f32_of_Z 198) = false.
Proof.
  run_to_result (motor_ensure_mode (gain_envs gain_reply) 3 0 1%nat 2 500 sample_drivers)
    (Returned (A := Z) 0) R.
  destruct (mode_and_gain_verified _ _ _ _ _ _ _ _ R)
    as (w0 & w1 & w' & Hw & Hd & _ & V & _ & H).
  injection Hw as <-.
  assert (Hex : exists m, w_store w' !! 0%nat = Some m /\ gain_motor m).
  { assert (Hs : option_map (fun w => option_map (fun m => (motor_id_ m, model_ m)) (w_store w !! 0%nat))
        (g_worlds (dv_group (snd (motor_ensure_mode (gain_envs gain_reply) 3 0 1%nat 2 500
          sample_drivers))) !! 0%nat) = Some (Some (3, "4340P"%string))) by (vm_compute; reflexivity).
    rewrite R in Hs. cbn [snd] in Hs. rewrite Hd in Hs. simpl in Hs.
    destruct (w_store w' !! 0%nat) as [m|]; [|discriminate]. injection Hs as H1 H2.
    exists m. split; [reflexivity|]. split; [by left|done]. }
  destruct Hex as (m & Hm & Hg). destruct (H m Hm eq_refl Hg) as (data & H1 & H2).
  exists w, sample_world, w1, w', data. split_and!; [exact R|reflexivity|exact H1|exact H2].
Defined.

(** A gain that reads back as no number passes the check: the call succeeds
    without writing the gain. *)
Theorem nan_gain_accepted :
  exists d' w, motor_ensure_mode (gain_envs nan_reply) 3 0 1%nat 2 500 sample_drivers = (Returned 0, d') /\
    g_worlds (dv_group d') !! 0%nat = Some w /\
    Forall (fun f => byte_at (cf_data f) 2 = 0x33) (w_sent w).
Proof.
  run_to_result (motor_ensure_mode (gain_envs nan_reply) 3 0 1%nat 2 500 sample_drivers)
    (Returned (A := Z) 0) R.
  assert (Hs : option_map (fun w1 => bool_decide (Forall (fun f => byte_at (cf_data f) 2 = 0x33) (w_sent w1)))
    (g_worlds (dv_group (snd (motor_ensure_mode (gain_envs nan_reply) 3 0 1%nat 2 500 sample_drivers)))
       !! 0%nat) = Some true) by (vm_compute; reflexivity).
  rewrite R in Hs. cbn [snd] in Hs. apply fmap_Some in Hs as (w0 & Hw0 & Hs).
  symmetry in Hs. apply bool_decide_eq_true in Hs. exists w, w0. by split_and!.
Qed.
