(* ===== verification/OpeningLaws.v ===== *)
(** * The motors of an opened product

    What the search on the two channels leaves: which objects the handles of
    the runtime denote, who owns them, and that the safety runtime can be built
    from them. *)

From Stdlib Require Import String.
From S2P Require Import Prelude Float32 CanBus Protocol SocketCan RuntimeTypes Threads NativeTypes SafetyState Construct Gravity ServiceState Yunyi Product ProductCommands ProductOps Facade MotorHandle World MotorOps Controller ControllerGroup Drivers.
#[local] Open Scope mdl_scope.

(** ** Where new handles are put *)

(** The store holds objects at the first [n] locations. *)
Definition packed (n : nat) (w : World) : Prop :=
  forall l, is_Some (w_store w !! l) <-> (l < n)%nat.

Lemma dispatch_domain now locs frame st l :
  is_Some (dispatch now locs frame st !! l) <-> is_Some (st !! l).
Proof.
  revert st. induction locs as [|l0 rest IH]; intros st; simpl; [done|].
  destruct (st !! l0) as [m|] eqn:E; [|done]. destruct (offer_frame now m frame) as [taken m'].
  assert (H : is_Some (<[l0 := m']> st !! l) <-> is_Some (st !! l)).
  { rewrite lookup_insert. case_decide; [|done]. subst. rewrite E. split; intros _; by eexists. }
  destruct taken; [done|]. by rewrite IH.
Qed.

Lemma receive_step_packed n ev w : packed n w -> packed n (receive_step ev w).
Proof.
  destruct ev; [done| |done]. intros H l. simpl. rewrite dispatch_domain. apply H.
Qed.

Lemma worker_steps_packed n evs w : packed n w -> packed n (worker_steps evs w).
Proof.
  revert w. induction evs as [|[d ev] rest IH]; [done|]. intros w H. simpl.
  by apply IH, receive_step_packed.
Qed.

Section Placement.
Context {Env : Environment}.

Lemma env_step_packed n w : packed n w -> packed n (env_step w).
Proof.
  intros H. unfold env_step. destruct (worker_may_run _); [|done].
  intros l. simpl. by apply worker_steps_packed.
Qed.

Lemma fresh_packed n w : packed n w -> fresh (map fst (map_to_list (w_store w))) = n.
Proof.
  intros H. set (ks := map fst (map_to_list (w_store w))).
  assert (Hin : forall l, l ∈ ks <-> (l < n)%nat).
  { intros l. rewrite <- (H l). unfold ks. change (map fst) with (fmap (M := list) (@fst nat MotorHandle)).
    rewrite list_elem_of_fmap. split.
    - intros ([l' m] & -> & Hm). apply elem_of_map_to_list in Hm. by exists m.
    - intros [m Hm]. exists (l, m). split; [done|]. by apply elem_of_map_to_list. }
  change (fresh ks) with (foldr (Nat.max ∘ S) 0%nat ks). clearbody ks. clear H.
  assert (Hle : forall xs k, (forall l, l ∈ xs -> (l < k)%nat) -> (foldr (Nat.max ∘ S) 0 xs <= k)%nat).
  { induction xs as [|x xs IH]; intros k Hk; simpl; [lia|].
    pose proof (Hk x ltac:(left)). pose proof (IH k ltac:(intros; apply Hk; by right)). lia. }
  assert (Hge : forall xs x, x ∈ xs -> (S x <= foldr (Nat.max ∘ S) 0 xs)%nat).
  { induction xs as [|y xs IH]; intros x; [by intros ?%elem_of_nil|].
    intros [->|Hx]%elem_of_cons; simpl; [lia|]. pose proof (IH x Hx). lia. }
  apply Nat.le_antisymm; [apply Hle; intros; by apply Hin|].
  destruct n as [|n]; [lia|]. apply Hge, Hin. lia.
Qed.

(** The identity of a handle is its candidate's. *)
Definition made_for (c : MotorCandidate) (m : MotorHandle) : Prop :=
  motor_id_ m = cand_motor_id c /\ feedback_id_ m = cand_feedback_id c /\ model_ m = cand_model c.

Definition placed (c : MotorCandidate) (l : nat) (w : World) : Prop :=
  exists m, w_store w !! l = Some m /\ made_for c m.

Lemma placed_later c l w w' : evolves w w' -> placed c l w -> placed c l w'.
Proof.
  intros V (m & Hm & H1 & H2 & H3). destruct (ev_store _ _ V _ _ Hm) as (m' & Hm' & M).
  exists m'. split; [done|]. unfold made_for.
  by rewrite (mo_motor_id _ _ _ M), (mo_feedback_id _ _ _ M), (mo_model _ _ _ M).
Qed.

Lemma alloc_placed m w l w' n :
  packed n w -> alloc_handle m w = (Returned l, w') ->
  l = n /\ packed (S n) w' /\ w_store w' !! l = Some m.
Proof.
  intros H%env_step_packed. unfold alloc_handle, atomic. intros [= <- <-].
  rewrite (fresh_packed n) by done. split; [done|]. simpl. rewrite lookup_insert_eq.
  split; [|done]. intros l'. simpl. rewrite lookup_insert. case_decide as E.
  - subst. split; [lia|]. by eexists.
  - rewrite (H l'). lia.
Qed.

Lemma make_MotorHandle_made c m :
  make_MotorHandle (cand_motor_id c) (cand_feedback_id c) (cand_model c) = Returned m -> made_for c m.
Proof. unfold make_MotorHandle. destruct (model_limits _); [|done..]. by intros [= <-]. Qed.

(** The candidates get the locations after those in use, in their order. *)
Lemma discovery_setup_placed cs w es w' n :
  Forall (fun c => is_disabled c = false) cs -> packed n w ->
  discovery_setup cs w = (Returned es, w') ->
  forall i c, cs !! i = Some c -> exists e, es !! i = Some e /\
    entry_motor e = Some (n + i)%nat /\ placed c (n + i) w'.
Proof.
  intros Hd. revert w es n. induction Hd as [|c cs Hc _ IH]; intros w es n Hp H i c' Hi; [done|].
  cbn [discovery_setup] in H. step_run H. step_run H. injection H as <- <-.
  rewrite Hc in E. step_run E. step_run E. step_run E. step_run E. injection E as <- <-.
  apply of_outcome_returned in E1 as [Em ->]. apply make_MotorHandle_made in Em.
  destruct (alloc_placed _ _ _ _ _ Hp E2) as (-> & Hp3 & Hs).
  assert (Hp5 : packed (S n) w5).
  { unfold update_ctl, atomic in E3. injection E3 as _ <-.
    unfold read_handle, atomic in E4. destruct (w_store _ !! n) as [m|]; [|done].
    injection E4 as _ <-. apply env_step_packed. intros l. simpl. by apply env_step_packed. }
  assert (V : evolves w3 w1).
  { assert (Hev : forall cs, keeps evolves (discovery_setup cs)).
    { clear. induction cs as [|c cs IH]; simpl; [keeps_tac|].
      pose proof alloc_handle_evolves. keeps_tac. }
    run_keeps evolves E3. run_keeps evolves E4. run_keeps evolves E0. by do 2 (etrans; [eassumption|]). }
  destruct i as [|i].
  - injection Hi as <-. rewrite Nat.add_0_r. eexists. split; [done|]. split; [done|].
    eapply placed_later; [exact V|]. by eexists.
  - destruct (IH w5 a0 (S n) Hp5 E0 i c' Hi) as (e & He & Hm & Hpl). exists e.
    rewrite Nat.add_succ_r. by split_and!.
Qed.

End Placement.

(** ** The search of one side *)

(** The handles of a side: seven joints and, perhaps, a gripper. *)
Definition found_on (side : nat) (gripper : bool) : Found :=
  map (fun index => Some (address (side, index))) (seq 0 PRODUCT_ARM_DOF) ++
  [if gripper then Some (address (side, PRODUCT_ARM_DOF)) else None].

(** The motor of a candidate is in the table under its id, at location [l]. *)
Definition motor_installed (c : MotorCandidate) (l : nat) (w : World) : Prop :=
  omap_find (cand_motor_id c) (motors_ (w_ctl w)) = Some l /\ placed c l w.

(** The motors of [found_on]. *)
Definition side_ready (side : nat) (gripper : bool) (w : World) : Prop :=
  forall index, (index < PRODUCT_ARM_DOF \/ index = PRODUCT_ARM_DOF /\ gripper = true)%nat ->
    motor_installed (side_candidate side index) index w.

Section Search.
Context {Env : Environment} (fuel : nat).

(** Every result of a discovery on an empty store: the candidate's own handle,
    present and installed, or nothing for an optional one. *)
Lemma discovery_installs cands timeout retry_count w results w' :
  Forall (fun c => is_disabled c = false) cands -> packed 0 w ->
  discover_damiao_motors fuel cands timeout retry_count w = (Returned results, w') ->
  length results = length cands /\
  forall i c r, cands !! i = Some c -> results !! i = Some r ->
    (res_motor r = Some i /\ res_state r = Present /\ motor_installed c i w') \/
    (res_motor r = None /\ is_required c = false).
Proof.
  intros Hen Hp (Hd & _ & _ & es & w1 & t & es1 & pending & es2 & Es & V & Hr & Hn & Hs & Hok & Hdrop & ->)
    %discovery_stages.
  destruct (settled_results cands es1 pending t es2 _ Hd Hn Hs Hok Hdrop) as [Hmap Hall].
  split; [by rewrite <- Hmap, !length_map|]. intros i c r Hi Hres.
  apply list_lookup_fmap_Some in Hres as (e2 & -> & He2).
  destruct (discovery_setup_placed cands _ es w1 0 Hen (env_step_packed _ _ Hp) Es i c Hi)
    as (e & He & Hm & Hpl).
  destruct Hr as (_ & _ & _ & Hr). destruct (Hr i e He) as (e1 & He1 & Hc1 & Hm1 & _).
  apply drop_missing_spec in Hdrop as (_ & R & _); [|done|done].
  destruct (R i e1 He1) as (e2' & He2' & Hc2 & _ & K & P). assert (e2' = e2) as -> by congruence.
  assert (Hc : entry_cand e2 = c).
  { assert (Hx : (entry_cand <$> es2) !! i = cands !! i) by (by rewrite <- Hmap).
    rewrite list_lookup_fmap, He2, Hi in Hx. by injection Hx. }
  destruct (decide (i ∈ pending)) as [Hin|Hin].
  - right. destruct (P Hin) as [Hnone Hreq]. rewrite <- Hc2, Hc in Hreq. done.
  - left. specialize (K Hin). rewrite Hm1, Hm in K.
    assert (Hok2 : result_ok (motors_ (w_ctl w')) (ent_result e2))
      by (apply Hall; by eapply list_elem_of_lookup_2).
    unfold result_ok in Hok2. unfold entry_motor in K. rewrite K in Hok2.
    destruct Hok2 as (_ & Hst & Hf). split_and!; [done|done|]. unfold entry_cand in Hc.
    rewrite Hc in Hf. split; [done|]. by eapply placed_later.
Qed.

End Search.

Lemma side_candidates_enabled side : Forall (fun c => is_disabled c = false) (side_candidates side).
Proof. repeat constructor. Qed.

Lemma side_candidates_lookup side i :
  (i < 8)%nat -> side_candidates side !! i = Some (side_candidate side i).
Proof.
  intros Hi. unfold side_candidates. change (map (side_candidate side)) with
    (fmap (M := list) (side_candidate side)). rewrite list_lookup_fmap, lookup_seq_lt by done. done.
Qed.

(** Eight answers, of which only the gripper's may be missing. *)
Lemma found_shape side (found : list (option handle)) :
  length found = 8%nat ->
  (forall i, (i < 8)%nat -> found !! i = Some (Some (address (side, i))) \/
     i = PRODUCT_ARM_DOF /\ found !! i = Some None) ->
  exists gripper, found = found_on side gripper /\
    (gripper = true -> found !! PRODUCT_ARM_DOF = Some (Some (address (side, PRODUCT_ARM_DOF)))).
Proof.
  intros Hl H. assert (Hj : forall i, (i < 7)%nat -> found !! i = Some (Some (address (side, i)))).
  { intros i Hi. destruct (H i ltac:(lia)) as [|[-> _]]; [done|]. unfold PRODUCT_ARM_DOF in Hi. lia. }
  assert (Hlist : forall o, found !! 7%nat = Some o ->
    found = map (fun index => Some (address (side, index))) (seq 0 PRODUCT_ARM_DOF) ++ [o]).
  { intros o Ho. apply list_eq_same_length with 8%nat; [done|done|]. intros i x y Hi Hx Hy.
    destruct (decide (i = 7%nat)) as [->|Hne].
    - rewrite Ho in Hx. injection Hx as <-. simpl in Hy. by injection Hy.
    - rewrite (Hj i) in Hx by lia. injection Hx as <-.
      do 7 (destruct i as [|i]; [simpl in Hy; by injection Hy|]). lia. }
  destruct (H 7%nat ltac:(lia)) as [Ho|[_ Ho]].
  - exists true. by split; [apply Hlist|].
  - exists false. by split; [apply Hlist|].
Qed.

Lemma found_result_motor side r o :
  res_motor r = o -> (is_Some o -> res_state r = Present) ->
  found_result side r = option_map (fun l => address (side, l)) o.
Proof.
  intros Hm Hs. unfold found_result. rewrite Hm. destruct o as [l|]; [|by case_bool_decide].
  rewrite Hs by (by eexists). done.
Qed.

Lemma discover_side_found envs fuel side timeout_ms retry_count worlds w found worlds' :
  worlds !! side = Some w -> packed 0 w ->
  discover_side envs fuel side timeout_ms retry_count worlds = (Returned found, worlds') ->
  exists gripper w', worlds' = <[side := w']> worlds /\ found = found_on side gripper /\
    side_ready side gripper w'.
Proof.
  intros Hw Hp H. unfold discover_side in H. apply bind_returned in H as (results & ws & H & [= <- <-]).
  unfold at_world in H. rewrite Hw in H.
  destruct (discover_damiao_motors _ _ _ _ _) as [o w'] eqn:E. injection H as -> <-.
  destruct (discovery_installs fuel _ _ _ _ _ _ (side_candidates_enabled side) Hp E) as [Hl Hres].
  assert (Hf : forall i, (i < 8)%nat ->
    map (found_result side) results !! i = Some (Some (address (side, i))) /\
      motor_installed (side_candidate side i) i w' \/
    i = PRODUCT_ARM_DOF /\ map (found_result side) results !! i = Some None).
  { intros i Hi. destruct (lookup_lt_is_Some_2 results i) as [r Hr]; [by rewrite Hl|].
    pose proof (list_lookup_fmap (found_result side) results i) as Hm. rewrite Hr in Hm.
    change (map (found_result side) results) with (found_result side <$> results). rewrite Hm. simpl.
    destruct (Hres i _ r (side_candidates_lookup side i Hi) Hr) as [(H1 & H2 & H3)|[H1 H2]].
    - left. split; [|done]. by rewrite (found_result_motor _ _ _ H1).
    - right. split; [|by rewrite (found_result_motor _ _ _ H1 ltac:(by intros []))].
      unfold PRODUCT_ARM_DOF. do 7 (destruct i as [|i]; [done|]). lia. }
  destruct (found_shape side (map (found_result side) results)) as (gripper & Hshape & Hg).
  { rewrite length_map. by rewrite Hl. }
  { intros i Hi. destruct (Hf i Hi) as [[? _]|?]; [by left|by right]. }
  exists gripper, w'. split; [done|]. split; [done|]. intros i Hi.
  destruct (Hf i) as [[_ Hin]|[-> Hn]]; [unfold PRODUCT_ARM_DOF in Hi; lia|done|].
  destruct Hi as [Hi|[_ ->]]; [lia|]. by rewrite Hg in Hn.
Qed.

(** ** The construction succeeds *)

Section Creation.
Context {B : Type} `{!MotorBackend B} `{!ArmDynamics}.

Definition created (r : outcome unit * option (Safety B)) : bool :=
  match r with (Returned _, Some _) => true | _ => false end.

Lemma found_created who now (backend : B) c gl gr hz warning rate :
  select_control_hz 0 hz = inr rate -> nc_feedback_max_age_ms c <> 0 ->
  created (create_yunyi_runtime who now backend c (found_on 0 gl) (found_on 1 gr) hz warning) = true.
Proof.
  intros Hr Ha. unfold create_yunyi_runtime, make_SafetyRuntime, yunyi_construction.
  cbn [cn_has_group cn_config cn_motors cn_require_profiles cn_has_controller cn_control_hz
    cn_environment_hz cn_warning negb].
  assert (Hc : config_invalid (yunyi_config c) = false).
  { unfold config_invalid, yunyi_config. cbn. apply Z.eqb_neq in Ha. rewrite Ha. by vm_compute. }
  rewrite Hc, Hr.
  destruct gl, gr; vm_compute; reflexivity.
Qed.

Context `{!RobotModels}.

Lemma found_product who now cpus config checked (backend : B) gl gr hz warning rate :
  checked_config cpus config = inr checked -> u32 (feedback_max_age checked) <> 0 ->
  select_control_hz 0 hz = inr rate ->
  pose_models_error (make_resources (found_on 0 gl) (found_on 1 gr)) = None ->
  exists product, create who now cpus config (inr (backend, found_on 0 gl, found_on 1 gr)) hz warning =
    Returned (Value (product, checked)).
Proof.
  intros Hc Ha Hr Hp. unfold create, create_core. rewrite Hc, Hp.
  pose proof (found_created who now backend (native_config checked) gl gr hz warning rate Hr Ha) as Hcreated.
  destruct (create_yunyi_runtime _ _ _ _ _ _ _ _) as [[u|e| |] [s|]]; try done. by eexists.
Qed.

End Creation.

(** ** Opening *)

(** A group between two dispatches, as its constructor makes it. *)
Lemma make_Group_idle controllers worlds g :
  make_Group controllers worlds = Returned g -> group_idle g /\ g_worlds g = worlds.
Proof.
  unfold make_Group. destruct controllers as [|c cs]; [done|]. cbv zeta.
  match goal with |- context [match ?x with _ => _ end] => destruct x end; try done.
  intros [= <-]. split; [|done].
  split; simpl; rewrite ?length_replicate; try done.
  intros i k Hk. by apply lookup_replicate in Hk as [-> _].
Qed.

Lemma of_outcome_returned' {S A} (o : outcome A) (s : S) a s' :
  of_outcome o s = (Returned a, s') -> o = Returned a.
Proof. destruct o; simpl; [by intros [= -> _]|done..]. Qed.

Lemma new_world_packed clock tx bulk interface : packed 0 (new_world clock tx bulk interface).
Proof. intros l. simpl. rewrite lookup_empty. split; [by intros []|lia]. Qed.

Lemma open_channel_world p side interface w :
  open_channel p side interface = inr w -> packed 0 w.
Proof.
  unfold open_channel. destruct (str_empty interface); [done|].
  destruct (pf_open_error p side); [done|]. intros [= <-]. apply new_world_packed.
Qed.

Lemma address_object side l : (side < 2)%nat -> object (address (side, l)) = (side, l).
Proof.
  intros Hs. unfold object, address. cbn [fst snd pred].
  rewrite (Nat.mul_comm 2 l), (Nat.add_comm (l * 2) side), Nat.Div0.mod_add, Nat.div_add by done.
  by rewrite Nat.mod_small, Nat.div_small by done.
Qed.

Lemma owners_of_spec found h p :
  owners_of found !! h = Some p <-> Some h ∈ found /\ p = object h.
Proof.
  unfold owners_of.
  assert (H : forall acc : gmap handle pointer, fold_left (fun owners o =>
      match o with Some h => <[h := object h]> owners | None => owners end) found acc !! h = Some p <->
    (Some h ∈ found /\ p = object h) \/ (Some h ∉ found /\ acc !! h = Some p)).
  { induction found as [|o found IH]; intros acc; cbn [fold_left].
    { rewrite elem_of_nil. intuition. }
    rewrite IH, elem_of_cons. destruct o as [h'|]; [|intuition congruence].
    rewrite lookup_insert. destruct (decide (Some h ∈ found)); case_decide as E; [subst h'| |subst h'|];
      intuition congruence. }
  rewrite H. rewrite lookup_empty. intuition congruence.
Qed.

(** C18. A product that opens is complete: on each channel the seven joints, and
    the gripper if it is there, are handles of objects of that channel's
    controller, made with their candidate's ids and model and installed under
    them; the adapter owns exactly those; the group is ready for its first
    command; and creating the product on them succeeds, whatever the backend,
    unless the configuration, the control rate of the environment or a
    kinematic model is refused or the age limit is zero as a 32-bit number. *)
Theorem opened_product_complete p left_interface right_interface timeout_ms retries d left right :
  open_yunyi p left_interface right_interface timeout_ms retries = Returned (d, left, right) ->
  group_idle (dv_group d) /\
  (forall side found, (side, found) ∈ [(0%nat, left); (1%nat, right)] ->
     exists gripper w, g_worlds (dv_group d) !! side = Some w /\ found = found_on side gripper /\
       side_ready side gripper w) /\
  (forall h q, owner_at d h = Some q <-> (Some h ∈ left \/ Some h ∈ right) /\ q = object h) /\
  forall (B : Type) (HB : MotorBackend B) (HD : ArmDynamics) (HM : RobotModels)
    who now cpus config checked (backend : B) hz warning rate,
    checked_config cpus config = inr checked -> u32 (feedback_max_age checked) <> 0 ->
    select_control_hz 0 hz = inr rate -> pose_models_error (make_resources left right) = None ->
    exists product, create who now cpus config (inr (backend, left, right)) hz warning =
      Returned (Value (product, checked)).
Proof.
  unfold open_yunyi. destruct (open_channel p 0 left_interface) as [?|w0] eqn:E0; [done|].
  destruct (open_channel p 1 right_interface) as [?|w1] eqn:E1; [done|]. cbv zeta.
  intros H. destruct (bind _ _ [w0; w1]) as [o ws] eqn:Hs. simpl in H. subst o.
  apply bind_returned in Hs as (l & ws1 & Hl & Hs). apply bind_returned in Hs as (r & ws2 & Hr & Hs).
  apply bind_returned in Hs as (ws3 & ws2' & [= <- <-] & Hs).
  apply bind_returned in Hs as (g & ws4 & Hg & [= <- <- <-]).
  apply discover_side_found with (w := w0) in Hl as (gl & wl & -> & -> & Rl);
    [|done|by eapply open_channel_world].
  apply discover_side_found with (w := w1) in Hr as (gr & wr & -> & -> & Rr);
    [|done|by eapply open_channel_world].
  apply of_outcome_returned' in Hg. unfold open_group in Hg. apply make_Group_idle in Hg as [Hi Hw].
  split_and!; [done| | |].
  - intros side found Hin. simpl. rewrite Hw. apply elem_of_cons in Hin as [[= -> ->]|Hin].
    + by exists gl, wl.
    + apply list_elem_of_singleton in Hin as [= -> ->]. by exists gr, wr.
  - intros h q. unfold owner_at. cbn [dv_owners]. rewrite lookup_union_Some_raw.
    rewrite !owners_of_spec. split.
    + intros [[? ->]|[_ [? ->]]]; auto.
    + intros [[?|Hin] ->]; [by left|].
      destruct (decide (Some h ∈ found_on 0 gl)); [by left|]. right. split; [|done].
      apply eq_None_not_Some. intros [q Hq]. by apply owners_of_spec in Hq as [? _].
  - intros B HB HD HM who now cpus config checked backend hz warning rate Hc Ha Hr Hp.
    by eapply found_product.
Qed.

(** ** Two channels whose motors answer, the right one without a gripper *)

(** Feedback of motor [id]: status 0, at rest. *)
Definition feedback_of (id : Z) : CanFrame :=
  can_frame (0x10 + id) [id; 0x80; 0; 0x7F; 0xF7; 0xFF; 30; 31].

Definition channel_env (motors : nat) : Environment :=
  {| env_delay := fun _ => 2500000%N;
     env_rx := fun _ => map (fun id => (0%N, RxFrame (feedback_of (Z.of_nat id)))) (seq 1 motors);
     env_poll := fun _ => RxNone; env_send := fun _ _ => None; env_shutdown := fun _ => None |}.

Definition sample_platform : Platform :=
  {| pf_envs := fun side => channel_env (if (side =? 0)%nat then 8 else 7); pf_fuel := 200;
     pf_clock := 1000000; pf_open_error := fun _ => None; pf_tx_gap_us := None;
     pf_bulk_gap_ms := None |}.

Definition sample_opening : outcome (Drivers * Found * Found) :=
  open_yunyi sample_platform "can-left" "can-right" 5 0.

Lemma opened_product_complete_witness :
  exists d, sample_opening = Returned (d, found_on 0 true, found_on 1 false) /\
    group_idle (dv_group d) /\ owner_at d (address (1%nat, 6%nat)) = Some (1%nat, 6%nat).
Proof.
  assert (Hlr : match sample_opening with Returned (_, l, r) => Some (l, r) | _ => None end =
    Some (found_on 0 true, found_on 1 false)) by (vm_compute; reflexivity).
  destruct sample_opening as [[[d l] r]|e| |] eqn:E; [injection Hlr as -> ->|discriminate..].
  destruct (opened_product_complete _ _ _ _ _ _ _ _ E) as (H1 & _ & H3 & _).
  exists d. split; [reflexivity|]. split; [exact H1|]. apply H3. split; [|reflexivity].
  right. vm_compute. do 6 right. left.
Defined.

(** The whole creation on these channels. *)
Section Whole.
#[local] Instance still_dynamics : ArmDynamics := fun _ l => l.
#[local] Instance no_planner : CartesianPlanner := {|
  plan_dual_ik _ _ reference _ _ _ := Thrown (RuntimeError "no planner");
  plan_linear _ _ _ _ _ _ _ _ := Thrown (RuntimeError "no planner");
  plan_circular _ _ _ _ _ _ _ _ _ := Thrown (RuntimeError "no planner") |}.
#[local] Instance no_libm : Libm := {|
  libm_sin x := x; libm_cos x := x; libm_asin x := x; libm_acos x := x; libm_atan2 x _ := x |}.
#[local] Instance no_models : RobotModels := {|
  robot_model_error _ _ := None; robot_fk _ _ _ := Thrown (RuntimeError "no model") |}.

(** What a call without an answer answers: the text of a message, or zero. *)
Definition no_answer (T : Type) (c : BackendCall T) : T :=
  match c in BackendCall T return T with
  | Bk_request_feedback _ _ _ => (0, Build_ArticoreFeedbackReport 0 0 0, [])
  | Bk_get_state _ => (0, no_MotorState)
  | Bk_get_feedback_stats _ => (0, no_FeedbackStats)
  | Bk_get_transport_health _ => (0, no_health)
  | Bk_last_error_message => None
  | Bk_send_pos_vel _ | Bk_send_mit _ | Bk_disable_all _ | Bk_disable_motor _ | Bk_enable_all _
  | Bk_enable_motor _ | Bk_clear_error _ | Bk_set_zero _ | Bk_ensure_mode _ _ _
  | Bk_set_timeout_ms _ _ | Bk_communication_timeout_ms => 0
  | Bk_has_transport_health | Bk_can_enable_all | Bk_can_enable_motor | Bk_can_clear_error
  | Bk_can_set_zero | Bk_can_ensure_mode | Bk_can_set_timeout => false
  end.

Example whole_product_created :
  match create_product sample_platform 1 no_answer 1000 4 default_YunyiRuntimeConfig None "" with
  | Returned (Value _) => true
  | _ => false
  end = true.
Proof. vm_compute. reflexivity. Qed.

End Whole.
