(* ===== verification/CartesianLaws.v ===== *)
(** * What a timed path keeps

    Lemmas on [CartesianTiming]: the factor a path is stretched by is not below
    what any of its intervals needs, the knots begin and end with the path, and
    their number is bounded. *)

From S2P Require Import Prelude Float32 Float64 FloatRound NativeTypes Planning ProductCommands CartesianMath CartesianTiming.
#[local] Open Scope mdl_scope.
#[local] Open Scope plan_scope.

(** ** The stretch factor *)

(** A factor, and what is not above it. *)
Definition factor_ok (f : f64) : Prop := is_number f /\ f64_valid f.

Lemma factor_ok_max f x : factor_ok f -> f64_valid x -> factor_ok (f64_max f x).
Proof. intros [N V] Vx. split; [by apply f64_max_number|by apply f64_max_valid]. Qed.

Lemma factor_ok_one : factor_ok d1.
Proof. by split; vm_compute. Qed.

Definition exceeded (c x : f64) : Prop := f64_lt c x = true.
Definition kept (c x : f64) : Prop := f64_lt c x = false.

Lemma kept_max c f x : factor_ok f -> kept c (f64_max f x) -> kept c f /\ kept c x.
Proof. intros [N _]. by apply f64_max_not_above. Qed.

(** What an interval asks of the factor for one joint. *)
Definition velocity_ratio (maximum_velocity velocity : f64) : f64 :=
  f64_div (f64_abs velocity) maximum_velocity.
Definition acceleration_ratio (maximum_acceleration acceleration : f64) : f64 :=
  f64_sqrt (f64_div (f64_abs acceleration) maximum_acceleration).

(** The acceleration itself, as a share of the maximum: the factor bounds its
    root, so it exceeds one by about twice as much. *)
Definition acceleration_share (maximum_acceleration acceleration : f64) : f64 :=
  f64_div (f64_abs acceleration) maximum_acceleration.

Lemma acceleration_share_kept amax a :
  kept (f64_lit 10001 10000) (acceleration_ratio amax a) ->
  kept (f64_lit 100021 100000) (acceleration_share amax a).
Proof.
  unfold kept, acceleration_ratio. fold (acceleration_share amax a).
  pose proof (f64_div_valid (f64_abs a) amax) as V. fold (acceleration_share amax a) in V.
  destruct (f64_lt (f64_lit 100021 100000) _) eqn:E; [|done]. intros H. exfalso.
  assert (Hr : f64_lt (f64_sqrt (acceleration_share amax a))
                 (S754_finite false 4504072480507883 (-52)) = false).
  { apply (f64_sqrt_above _ 4504545383292244); [exact V|lia..|exact E]. }
  revert E H Hr. set (x := acceleration_share amax a) in *. clearbody x. intros E H Hr.
  assert (N : is_number (f64_sqrt x))
    by (apply f64_sqrt_number; by apply (f64_lt_trans _ (f64_lit 100021 100000))).
  apply f64_not_lt in Hr; [|done|done].
  assert (f64_lt (f64_lit 10001 10000) (f64_sqrt x) = true)
    by (by apply (f64_lt_le_trans _ (S754_finite false 4504072480507883 (-52)))).
  congruence.
Qed.

Lemma joint_stretch_spec vmax amax interval acc_interval joints f vs f' vs' :
  fold_left (joint_stretch vmax amax interval acc_interval) joints (f, vs) = (f', vs') ->
  factor_ok f ->
  factor_ok f' /\ vs' = vs ++ map (fun j => f64_div j.1 interval) joints /\
  forall c, kept c f' -> kept c f /\
    forall j, j ∈ joints ->
      kept c (velocity_ratio vmax (f64_div j.1 interval)) /\
      kept c (acceleration_ratio amax
                (f64_div (f64_sub (f64_div j.1 interval) j.2) acc_interval)).
Proof.
  revert f vs. induction joints as [|[step previous] joints IH]; intros f vs; cbn [fold_left].
  - intros [= <- <-] Hf. split; [done|]. split; [by rewrite app_nil_r|]. intros c Hc.
    split; [done|]. intros j Hj. by apply not_elem_of_nil in Hj.
  - intros H Hf. cbn [joint_stretch] in H.
    set (velocity := f64_div step interval) in *.
    set (f1 := f64_max f (f64_div (f64_abs velocity) vmax)) in *.
    assert (H1 : factor_ok f1) by (apply factor_ok_max; [done|apply f64_div_valid]).
    apply IH in H as (Hf' & -> & Hk); [|apply factor_ok_max; [done|apply f64_sqrt_valid]].
    split; [done|]. split; [by rewrite <- app_assoc|]. intros c Hc.
    destruct (Hk c Hc) as [Ha Hr]. destruct (kept_max _ _ _ H1 Ha) as [Ha1 Ha2].
    destruct (kept_max _ _ _ Hf Ha1) as [Hb1 Hb2]. split; [done|].
    intros j [->|Hj]%elem_of_cons; [done|by apply Hr].
Qed.

(** ** Intervals of a timed path *)

Definition interval (a b : Knot) : f64 := f64_sub b.1 a.1.

Definition joint_velocity (a b : Knot) (j : nat) : f64 :=
  f64_div (difference (at_ b.2 j) (at_ a.2 j)) (interval a b).

(** The mean of two neighbouring intervals, as the source computes it. *)
Definition mean_interval (a b c : Knot) : f64 :=
  f64_mul dhalf (f64_sub (f64_add (interval b c) b.1) a.1).

Definition joint_acceleration (a b c : Knot) (j : nat) : f64 :=
  f64_div (f64_sub (joint_velocity b c j) (joint_velocity a b j)) (mean_interval a b c).

(** From rest, and to rest. *)
Definition starting_acceleration (a b : Knot) (j : nat) : f64 :=
  f64_div (f64_sub (joint_velocity a b j) d0) (interval a b).
Definition stopping_acceleration (a b : Knot) (j : nat) : f64 :=
  f64_div (joint_velocity a b j) (interval a b).

Definition joints14 : list nat := seq 0 PRODUCT_DUAL_ARM_DOF.

(** Every interval is finite and positive, and no velocity or acceleration
    needs a factor above [c]; [before] is the knot before [a]. *)
Fixpoint intervals_kept (c vmax amax : f64) (before : option Knot) (a : Knot) (l : list Knot) : Prop :=
  match l with
  | [] => True
  | b :: rest =>
      (f64_isfinite (interval a b) = true /\ f64_lt d0 (interval a b) = true) /\
      (forall j, j ∈ joints14 ->
         kept c (velocity_ratio vmax (joint_velocity a b j)) /\
         kept c (acceleration_ratio amax
           match before with
           | None => starting_acceleration a b j
           | Some z => joint_acceleration z a b j
           end)) /\
      intervals_kept c vmax amax (Some a) b rest
  end.

Definition velocities_before (before : option Knot) (a : Knot) : list f64 :=
  match before with
  | None => replicate PRODUCT_DUAL_ARM_DOF d0
  | Some z => map (joint_velocity z a) joints14
  end.

Lemma positive_interval x :
  negb (f64_isfinite x) || f64_le x d0 = false -> f64_isfinite x = true /\ f64_lt d0 x = true.
Proof.
  intros [Hf Hle]%orb_false_iff. apply negb_false_iff in Hf. split; [done|].
  apply f64_not_le; [|done|done]. by destruct x.
Qed.

(** The velocities of the last interval. *)
Fixpoint final_velocities (before : option Knot) (a : Knot) (l : list Knot) : list f64 :=
  match l with
  | [] => velocities_before before a
  | b :: rest => final_velocities (Some a) b rest
  end.

Lemma zip_same {A B C} (f : C -> A) (g : C -> B) (l : list C) :
  zip (map f l) (map g l) = map (fun x => (f x, g x)) l.
Proof. induction l as [|x l IH]; cbn; [done|by rewrite IH]. Qed.

Lemma velocities_before_map before a :
  velocities_before before a =
  map (fun j => match before with None => d0 | Some z => joint_velocity z a j end) joints14.
Proof. by destruct before. Qed.

Lemma interval_stretch_spec vmax amax before a f l f' vs' :
  interval_stretch vmax amax (fst <$> before) a (f, velocities_before before a) l =
    Returned (f', vs') ->
  factor_ok f ->
  factor_ok f' /\ vs' = final_velocities before a l /\
  forall c, kept c f' -> kept c f /\ intervals_kept c vmax amax before a l.
Proof.
  revert before a f. induction l as [|b l IH]; intros before a f; cbn [interval_stretch].
  - intros [= <- <-] Hf. done.
  - intros H Hf. apply obind_returned in H as ([] & Hg & H).
    apply oguard_returned, positive_interval in Hg. fold (interval a b) in Hg, H.
    change (@fst f64 (list f64)) with (@fst f64 (list f64)) in H. cbn [fst snd] in H.
    destruct (fold_left _ _ _) as [f1 vs1] eqn:E.
    apply joint_stretch_spec in E as (Hf1 & Hvs & Hk); [|done].
    unfold zip_points in Hvs, Hk. fold joints14 in Hvs, Hk.
    rewrite velocities_before_map, zip_same in Hvs, Hk. rewrite map_map in Hvs. cbn [app] in Hvs.
    subst vs1. apply (IH (Some a)) in H as (Hf' & -> & Hk'); [|done]. split; [done|]. split; [done|].
    intros c Hc. destruct (Hk' c Hc) as [H1 H2]. destruct (Hk c H1) as [H3 H4].
    split; [done|]. split; [done|]. split; [|done]. intros j Hj.
    assert (Hin : (difference (at_ b.2 j) (at_ a.2 j),
      match before with None => d0 | Some z => joint_velocity z a j end) ∈
      map (fun j => (difference (at_ b.2 j) (at_ a.2 j),
        match before with None => d0 | Some z => joint_velocity z a j end)) joints14)
      by (apply list_elem_of_fmap; eauto).
    destruct (H4 _ Hin) as [Hv Ha]. split; [exact Hv|]. destruct before as [z|]; exact Ha.
Qed.

Lemma stopping_stretch_spec amax final vs f :
  factor_ok f ->
  let f' := fold_left (stopping_stretch amax final) vs f in
  factor_ok f' /\
  forall c, kept c f' -> kept c f /\
    forall v, v ∈ vs -> kept c (acceleration_ratio amax (f64_div v final)).
Proof.
  revert f. induction vs as [|v vs IH]; intros f Hf; cbn [fold_left].
  - split; [done|]. intros c Hc. split; [done|]. intros v Hv. by apply not_elem_of_nil in Hv.
  - destruct (IH (stopping_stretch amax final f v)) as [Hf' Hk];
      [apply factor_ok_max; [done|apply f64_sqrt_valid]|].
    split; [done|]. intros c Hc. destruct (Hk c Hc) as [H1 H2].
    destruct (kept_max _ _ _ Hf H1) as [H3 H4]. split; [done|].
    intros w [->|Hw]%elem_of_cons; [done|by apply H2].
Qed.

(** The path with its last two knots in sight. *)
Lemma final_velocities_last before a l y z :
  final_velocities before a (l ++ [y; z]) = map (joint_velocity y z) joints14.
Proof. revert before a. induction l as [|b l IH]; intros before a; cbn; [done|apply IH]. Qed.

(** All the knots from the first on: the intervals, and the stop at the end. *)
Definition timing_kept (c vmax amax : f64) (knots : list Knot) : Prop :=
  match knots with
  | a :: rest =>
      intervals_kept c vmax amax None a rest /\
      forall l y z j, knots = l ++ [y; z] -> j ∈ joints14 ->
        kept c (acceleration_ratio amax (stopping_acceleration y z j))
  | [] => True
  end.

Lemma variable_path_stretch_factor_spec knots vmax amax f :
  variable_path_stretch_factor knots vmax amax = Returned f ->
  factor_ok f /\ forall c, kept c f -> timing_kept c vmax amax knots.
Proof.
  unfold variable_path_stretch_factor. intros H. apply obind_returned in H as ([f1 vs] & H & E).
  injection E as <-. destruct knots as [|a rest].
  { cbn in H. injection H as <- <-. destruct (stopping_stretch_spec amax (final_interval []) 
      (replicate PRODUCT_DUAL_ARM_DOF d0) d1 factor_ok_one) as [? _]. done. }
  cbn [nth tl] in H. apply (interval_stretch_spec vmax amax None) in H as (Hf & -> & Hk);
    [|apply factor_ok_one].
  destruct (stopping_stretch_spec amax (final_interval (a :: rest)) (final_velocities None a rest) f1 Hf)
    as [Hf' Hk']. split; [exact Hf'|]. intros c Hc. destruct (Hk' c Hc) as [H1 H2].
  split; [by apply Hk|]. intros l y z j El Hj.
  assert (Hfinal : final_interval (a :: rest) = interval y z).
  { rewrite El. unfold final_interval, interval. rewrite length_app. cbn [length].
    replace (length l + 2 - 2)%nat with (length l) by lia.
    rewrite app_nth2, Nat.sub_diag by lia. cbn [nth].
    replace (l ++ [y; z]) with ((l ++ [y]) ++ [z]) by (by rewrite <- app_assoc).
    by rewrite last_last. }
  rewrite Hfinal in H2. apply H2.
  assert (Hv : final_velocities None a rest = map (joint_velocity y z) joints14).
  { destruct l as [|b l]; injection El as -> ->; [done|]. apply final_velocities_last. }
  rewrite Hv. apply list_elem_of_fmap. eauto.
Qed.

(** ** Leaving the loop *)

Lemma one_percent_grows f :
  factor_ok f -> f64_lt almost_one f = true -> f64_lt almost_one (one_percent_more f) = true.
Proof.
  intros [_ V] H. unfold one_percent_more.
  replace (f64_lit 101 100) with (S754_finite false 4548635623644201 (-52)) by (by vm_compute).
  assert (Hpos : f64_lt f64_zero f = true)
    by (apply (f64_lt_trans _ almost_one); [by vm_compute|done]).
  apply (f64_lt_le_trans _ f); [done|]. by apply f64_mul_grows.
Qed.

(** ** The knots *)

(** Knots are only added, at most up to the capacity, and the stretch asked for
    stays a number. *)
Definition extends (s s' : Subdivision) : Prop :=
  (exists k new, sd_knots s' = k :: new ++ sd_knots s) /\
  Z.of_nat (length (sd_knots s')) <= kCartesianMaximumExecutionSegments + 1 /\
  (is_number (sd_scale s) -> is_number (sd_scale s')).

Lemma extends_push k s r :
  Z.of_nat (length (sd_knots s)) <= kCartesianMaximumExecutionSegments ->
  sd_knots r = sd_knots s -> (is_number (sd_scale s) -> is_number (sd_scale r)) ->
  extends s (push_knot k r).
Proof.
  intros Hl E Hn. unfold extends, push_knot. cbn [sd_knots sd_scale]. rewrite E. split_and!; try done.
  - by exists k, [].
  - cbn [length]. lia.
Qed.

Lemma extends_trans s1 s2 s3 : extends s1 s2 -> extends s2 s3 -> extends s1 s3.
Proof.
  intros ((k1 & n1 & E1) & _ & N1) ((k2 & n2 & E2) & L2 & N2). split_and!; [|done|auto].
  exists k2, (n2 ++ k1 :: n1). rewrite E2, E1. by rewrite <- app_assoc.
Qed.

Lemma append_interval_extends path duration levels a start b end_ s s' :
  append_interval path duration levels a start b end_ s = Returned s' -> extends s s'.
Proof.
  revert a start b end_ s s'. induction levels as [|levels IH]; intros a start b end_ s s';
    cbn [append_interval]; intros H; inv_plan H; apply Z.ltb_ge in E.
  - destruct (must_split _ _ _ _); [done|]. injection H as <-.
    apply extends_push; [done| |]; by destruct (below_minimum _); [|];
      first [done|intros; apply f64_max_number].
  - destruct (must_split _ _ _ _); [destruct (below_minimum (f64_mul _ _))|].
    + injection H as <-. apply extends_push; [done|done|]. intros. by apply f64_max_number.
    + apply obind_returned in H as (s1 & H1 & H2). eauto using extends_trans.
    + injection H as <-. destruct (below_minimum _); apply extends_push; try done.
      intros. by apply f64_max_number.
Qed.

Lemma append_segments_extends path duration amounts l s s' :
  append_segments path duration amounts l s = Returned s' -> l <> [] -> extends s s'.
Proof.
  revert s. induction l as [|i l IH]; intros s; [done|]. cbn [append_segments]. intros H _.
  apply obind_returned in H as (? & _ & H). apply obind_returned in H as (? & _ & H).
  apply obind_returned in H as (s1 & H1 & H2). apply append_interval_extends in H1.
  destruct l as [|i' l]; [by injection H2 as <-|]. eauto using extends_trans.
Qed.

Lemma pin_ends_spec path duration k l k' :
  pin_ends path duration ([k] ++ l ++ [k']) = (d0, front path) :: l ++ [(duration, back path)].
Proof.
  unfold pin_ends, pin_last. by rewrite app_assoc, removelast_last, <- app_assoc.
Qed.

(** The knots of an attempt, which begin and end as the path does. *)
Definition knots_of (path : list CartesianJointPoint) (duration : f64) (knots : list Knot) : Prop :=
  exists inner, knots = (d0, front path) :: inner ++ [(duration, back path)] /\
    Z.of_nat (length knots) <= kCartesianMaximumExecutionSegments + 1.

Lemma timing_attempt_spec path vmax amax duration knots scale :
  timing_attempt path vmax amax duration = Returned (knots, scale) ->
  f64_isfinite duration = true /\ f64_lt (f64_of_Z 60) duration = false /\
  knots_of path duration knots /\
  (f64_le scale almost_one = true -> timing_kept almost_one vmax amax knots).
Proof.
  unfold timing_attempt. intros H. apply obind_returned in H as ([] & E & H).
  apply oguard_returned, orb_false_iff in E as [Hf Hd]. apply negb_false_iff in Hf.
  split; [done|]. split; [done|].
  apply obind_returned in H as (s & Hs & H). apply obind_returned in H as (f & Hvar & H).
  apply append_segments_extends in Hs as ((k & new & Ek) & Hlen & Hn).
  2: { cbn. by destruct (map _ _). }
  cbn [sd_knots sd_scale] in *. specialize (Hn ltac:(done)).
  assert (Hrev : rev (sd_knots s) = [(d0, front path)] ++ rev new ++ [k])
    by (rewrite Ek; cbn [rev]; by rewrite rev_app_distr, <- app_assoc).
  rewrite Hrev, pin_ends_spec in *. injection H as <- Hscale. split.
  - exists (rev new). split; [done|]. rewrite Ek in Hlen. cbn [length] in *.
    rewrite !length_app, ?length_rev in *. cbn [length] in *. lia.
  - intros Hle. apply variable_path_stretch_factor_spec in Hvar as [Hfok Hk]. apply Hk.
    destruct (f64_lt almost_one f) eqn:Ea; [|done]. exfalso.
    pose proof (one_percent_grows f Hfok Ea) as Hg. rewrite <- Hscale in Hle.
    apply f64_not_lt in Hle; [|done|by apply f64_max_number].
    apply f64_max_not_above in Hle as [_ Hc]; [|done]. congruence.
Qed.

Lemma timing_attempts_spec path vmax amax attempts duration knots :
  timing_attempts path vmax amax attempts duration = Returned knots ->
  exists duration, f64_isfinite duration = true /\ f64_lt (f64_of_Z 60) duration = false /\
    knots_of path duration knots /\ timing_kept almost_one vmax amax knots.
Proof.
  revert duration. induction attempts as [|n IH]; intros duration; cbn [timing_attempts]; [done|].
  intros H. apply obind_returned in H as ([l scale] & Ha & H). cbn [fst snd] in H.
  destruct (f64_le scale almost_one) eqn:E; [|by apply IH in H]. injection H as <-.
  apply timing_attempt_spec in Ha as (? & ? & ? & Hk). exists duration. auto.
Qed.
