(* ===== verification/PlannerLaws.v ===== *)
(** * What a plan keeps

    Lemmas on [Cartesian]: every request the planner builds has the execution,
    the joints and the limits of a trajectory of the product, between 2 and
    30000 complete waypoints, and begins at the reference it was planned
    from. *)

From Stdlib Require Import String.
From S2P Require Import Prelude Float32 Float64 FloatRound PvShaping RuntimeTypes NativeTypes Motions Planning Yunyi Product ProductCommands ProductOps CartesianMath CartesianTiming Cartesian CartesianLaws.
#[local] Open Scope mdl_scope.
#[local] Open Scope plan_scope.

(** ** Complete points *)

Definition full (p : CartesianJointPoint) : Prop := length p = PRODUCT_DUAL_ARM_DOF.
Definition full_knots (l : list Knot) : Prop := Forall (fun k => full k.2) l.

Lemma full_zip (f : f32 -> f32 -> f32) p q : full (zip_points f p q).
Proof. unfold full, zip_points. by rewrite length_map, length_seq. Qed.

Lemma full_with_side start side q : full (with_side start side q).
Proof. unfold full, with_side. by rewrite length_map, length_seq. Qed.

Lemma full_still : full still.
Proof. done. Qed.

Lemma full_nth path i : Forall full path -> (i < length path)%nat -> full (nth i path []).
Proof. intros H Hi. rewrite Forall_forall in H. apply H, list_elem_of_In. by apply nth_In. Qed.

Lemma full_back path : Forall full path -> path <> [] -> full (back path).
Proof.
  intros H Hne. unfold back. destruct path as [|p path] using rev_ind; [done|].
  rewrite last_last. by apply Forall_app in H as [_ [H _]%Forall_cons].
Qed.

Lemma sample_full path t p :
  Forall full path -> sample_cartesian_joint_path path t = Returned p -> full p.
Proof.
  intros Hp. unfold sample_cartesian_joint_path. intros H.
  apply obind_returned in H as ([] & E & H). apply oguard_returned, Nat.ltb_ge in E.
  apply obind_returned in H as (floor & _ & H). injection H as <-.
  assert (path <> []) by (intros ->; cbn in E; lia).
  destruct (f64_le d1 _); [by apply full_back|]. destruct (f64_le _ d0); [|apply full_zip].
  apply full_nth; [done|lia].
Qed.

Lemma append_interval_full path duration levels a start b end_ s s' :
  Forall full path -> full end_ -> full_knots (sd_knots s) ->
  append_interval path duration levels a start b end_ s = Returned s' -> full_knots (sd_knots s').
Proof.
  intros Hp. revert a start b end_ s s'. induction levels as [|levels IH];
    intros a start b end_ s s' He Hs; cbn [append_interval]; intros H;
    apply obind_returned in H as ([] & _ & H); apply obind_returned in H as (middle & Hm & H);
    apply sample_full in Hm; try done.
  - destruct (must_split _ _ _ _); [done|]. injection H as <-.
    destruct (below_minimum _); by constructor.
  - destruct (must_split _ _ _ _); [destruct (below_minimum (f64_mul _ _))|].
    + injection H as <-. by constructor.
    + apply obind_returned in H as (s1 & H1 & H2). eauto.
    + injection H as <-. destruct (below_minimum _); by constructor.
Qed.

Lemma mandatory_point_full path amounts i p :
  Forall full path -> path <> [] -> mandatory_point path amounts i = Returned p -> full p.
Proof.
  intros Hp Hne. unfold mandatory_point. destruct (i =? 0)%nat.
  - intros [= <-]. apply full_nth; [done|]. destruct path; [done|cbn; lia].
  - destruct (_ =? _)%nat; [intros [= <-]; by apply full_back|by apply sample_full].
Qed.

Lemma append_segments_full path duration amounts l s s' :
  Forall full path -> path <> [] -> full_knots (sd_knots s) ->
  append_segments path duration amounts l s = Returned s' -> full_knots (sd_knots s').
Proof.
  intros Hp Hne. revert s. induction l as [|i l IH]; intros s Hs; cbn [append_segments].
  { by intros [= <-]. }
  intros H. apply obind_returned in H as (start & _ & H). apply obind_returned in H as (end_ & He & H).
  apply obind_returned in H as (s1 & H1 & H2).
  apply mandatory_point_full in He; [|done|done]. apply append_interval_full in H1; eauto.
Qed.

Lemma timing_attempts_full path vmax amax attempts duration knots :
  Forall full path -> path <> [] ->
  timing_attempts path vmax amax attempts duration = Returned knots -> full_knots knots.
Proof.
  intros Hp Hne. revert duration. induction attempts as [|n IH]; intros duration; cbn [timing_attempts]; [done|].
  intros H. apply obind_returned in H as ([l scale] & Ha & H). cbn [fst snd] in H.
  destruct (f64_le scale almost_one); [|by apply IH in H]. injection H as <-.
  unfold timing_attempt in Ha. apply obind_returned in Ha as ([] & _ & Ha).
  apply obind_returned in Ha as (s & Hs & Ha). apply obind_returned in Ha as (f & _ & Ha).
  injection Ha as <- _.
  assert (Hfront : full (front path)) by (apply full_nth; [done|destruct path; [done|cbn; lia]]).
  apply append_segments_full in Hs; [|done|done|by repeat constructor].
  unfold pin_ends, pin_last.
  assert (Hr : full_knots (removelast (rev (sd_knots s)) ++ [(duration, back path)])).
  { apply Forall_app. split; [|repeat constructor; by apply full_back].
    rewrite removelast_firstn_len. apply Forall_take. by apply Forall_rev. }
  destruct (removelast _ ++ _); [done|]. apply Forall_cons in Hr as [_ Hr]. by constructor.
Qed.

(** ** A timed path, as the planner uses it *)

(** Knots from the first point of the path to the last one, at most the
    capacity. *)
Record timed (path : list CartesianJointPoint) (knots : list Knot) : Prop := {
  td_ends : exists inner duration, knots = (d0, front path) :: inner ++ [(duration, back path)];
  td_count : Z.of_nat (length knots) <= kCartesianMaximumExecutionSegments + 1;
  td_full : full_knots knots
}.

Lemma time_parameterize_timed path vmax amax knots :
  Forall full path -> time_parameterize_cartesian_trajectory path vmax amax = Returned knots ->
  timed path knots.
Proof.
  intros Hp H. unfold time_parameterize_cartesian_trajectory in H.
  apply obind_returned in H as ([] & _ & H). apply obind_returned in H as ([] & E & H).
  apply oguard_returned, Nat.ltb_ge in E. assert (path <> []) by (intros ->; cbn in E; lia).
  pose proof (timing_attempts_full _ _ _ _ _ _ Hp ltac:(done) H).
  apply timing_attempts_spec in H as (duration & _ & _ & (inner & Ek & Hl) & _).
  split; [by exists inner, duration|done|done].
Qed.

Lemma timed_length path knots : timed path knots -> (2 <= length knots)%nat.
Proof. intros [(inner & d & ->) _ _]. cbn. rewrite length_app. cbn. lia. Qed.

(** ** Requests *)

Definition waypoint_ok (w : NativeTrajectoryWaypoint) : Prop :=
  full (wp_positions w) /\ full (wp_velocities w) /\ full (wp_accelerations w) /\
  (wp_velocity_valid_mask w = 0 \/ wp_velocity_valid_mask w = all_joints) /\
  (wp_acceleration_valid_mask w = 0 \/ wp_acceleration_valid_mask w = all_joints).

Record planned (product : YunyiRuntimeResources) (acceleration velocity : f32)
    (rq : NativeTrajectoryRequest) : Prop := {
  pl_positive : positive_finite acceleration = true /\ positive_finite velocity = true;
  pl_mode : rq_mode rq = ModePv;
  pl_execution : rq_execution rq = TrajectoryPv;
  pl_velocity : rq_pv_reference_velocity rq = velocity;
  pl_acceleration : rq_pv_reference_acceleration rq = acceleration;
  pl_drive : rq_pv_drive_velocity_limit rq = kYunyiPvDriveVelocityLimit;
  pl_joints : rq_joints rq = product_cartesian_joints product;
  pl_count : 2 <= Z.of_nat (length (rq_waypoints rq)) <= kNativeMaximumTrajectoryWaypoints;
  pl_approach : 0 <= rq_approach_segment_count rq < Z.of_nat (length (rq_waypoints rq));
  pl_waypoints : Forall waypoint_ok (rq_waypoints rq)
}.

Definition starts_at (positions : list f32) (rq : NativeTrajectoryRequest) : Prop :=
  exists w rest, rq_waypoints rq = w :: rest /\ wp_time_s w = d0 /\ wp_positions w = positions.

(** A plan without an approach. *)
Record direct (product : YunyiRuntimeResources) (reference : NativeTrajectorySample)
    (acceleration velocity : f32) (plan : NativeCartesianTrajectoryPlan) : Prop := {
  dp_planned : planned product acceleration velocity (plan_trajectory plan);
  dp_no_approach : rq_approach_segment_count (plan_trajectory plan) = 0;
  dp_starts : starts_at (sa_positions reference) (plan_trajectory plan)
}.

Definition full_reference (reference : NativeTrajectorySample) : Prop :=
  full (sa_positions reference) /\ full (sa_velocities reference) /\ full (sa_accelerations reference).

Lemma require_reference_full reference name u :
  require_cartesian_reference reference name = Returned u -> full_reference reference.
Proof.
  unfold require_cartesian_reference. intros H. apply obind_returned in H as ([] & _ & H).
  apply oguard_returned in H. rewrite !orb_false_iff, !negb_false_iff in H.
  unfold complete in H. rewrite !Nat.eqb_eq in H. unfold full_reference, full. intuition.
Qed.

Lemma plain_waypoint_ok k : full k.2 -> waypoint_ok (plain_waypoint k).
Proof. intros H. split_and!; try done; by left. Qed.

Lemma with_derivatives_ok v a w :
  full v -> full a -> waypoint_ok w -> waypoint_ok (with_derivatives v a w).
Proof. intros ? ? (? & _). split_and!; try done; by right. Qed.

Lemma Forall_imap {A B} (P : B -> Prop) (f : nat -> A -> B) l :
  (forall i x, l !! i = Some x -> P (f i x)) -> Forall P (imap f l).
Proof.
  intros H. apply Forall_lookup. intros i y Hy. rewrite list_lookup_imap in Hy.
  destruct (l !! i) as [x|] eqn:E; [|done]. injection Hy as <-. eauto.
Qed.

Lemma plan_waypoints_ok reference knots :
  full_reference reference -> full_knots knots -> Forall waypoint_ok (plan_waypoints reference knots).
Proof.
  intros (_ & Hv & Ha) Hk. apply Forall_imap. intros i k Hi.
  assert (Hf : full k.2) by (unfold full_knots in Hk; rewrite Forall_lookup in Hk; eauto).
  pose proof (plain_waypoint_ok k Hf). case_match; [by apply with_derivatives_ok|].
  case_match; [|done]. apply with_derivatives_ok; [apply full_still|apply full_still|done].
Qed.

Section Planner.
Context `{libm : !Libm} `{models : !RobotModels} `{ik : !InverseKinematics}.

Lemma assemble_direct path knots reference product mode operation side acceleration velocity plan :
  timed path knots -> full_reference reference -> front path = sa_positions reference ->
  assemble_cartesian_trajectory_plan knots reference product mode operation side acceleration
    velocity = Returned plan ->
  direct product reference acceleration velocity plan.
Proof.
  intros Ht Hr Hfront H. pose proof (timed_length _ _ Ht) as Hlen. destruct Ht as [Hends Hcount Hfull].
  unfold assemble_cartesian_trajectory_plan in H.
  apply obind_returned in H as ([] & Em & H). apply obind_returned in H as ([] & Ea & H).
  apply obind_returned in H as ([] & Ev & H). apply obind_returned in H as ([] & _ & H).
  apply oguard_returned, negb_false_iff, bool_decide_eq_true in Em.
  apply oguard_returned, negb_false_iff in Ea, Ev.
  destruct (List.last knots no_knot) as [duration end_point].
  apply obind_returned in H as (expected & _ & H). injection H as <-.
  unfold kCartesianMaximumExecutionSegments, kNativeMaximumTrajectoryWaypoints in *.
  split; cbn [plan_trajectory]; [|done|].
  - split; cbn; try done; unfold plan_waypoints; rewrite ?length_imap;
      unfold kNativeMaximumTrajectoryWaypoints; try lia.
    by apply plan_waypoints_ok.
  - destruct Hends as (inner & d & ->). eexists _, _. split; [reflexivity|]. cbn. by rewrite Hfront.
Qed.

(** The joint path of the samples begins at the reference and is complete. *)
Definition path_from (start : list f32) (s : PathState) : Prop :=
  exists rest, ps_path s = start :: rest /\ Forall full rest.

Lemma path_from_start start q : path_from start (path_start start q).
Proof. by exists []. Qed.

Lemma solve_sample_path product side start pose context sample s s' :
  path_from start s -> solve_sample product side start pose context sample s = Returned s' ->
  path_from start s'.
Proof.
  intros (rest & E & Hf) H. unfold solve_sample in H.
  apply obind_returned in H as (solved & _ & H). apply obind_returned in H as (trends & _ & H).
  injection H as <-. exists (rest ++ [with_side start side solved]). cbn. rewrite E. split; [done|].
  apply Forall_app. split; [done|]. constructor; [apply full_with_side|done].
Qed.

Lemma solve_samples_path product side start target inner sample poses s s' :
  path_from start s -> solve_samples product side start target inner sample poses s = Returned s' ->
  path_from start s'.
Proof.
  revert sample s. induction poses as [|pose poses IH]; intros sample s Hs; cbn [solve_samples].
  { by intros [= <-]. }
  intros H. apply obind_returned in H as (s1 & H1 & H). apply solve_sample_path in H1; eauto.
Qed.

Lemma solve_arc_path product side start pose_at angle_at context offset samples s s' :
  path_from start s -> solve_arc product side start pose_at angle_at context offset samples s = Returned s' ->
  path_from start s'.
Proof.
  revert s. induction samples as [|i samples IH]; intros s Hs; cbn [solve_arc].
  { by intros [= <-]. }
  intros H. apply obind_returned in H as (pose & _ & H). apply obind_returned in H as (s1 & H1 & H).
  apply solve_sample_path in H1; eauto.
Qed.

Lemma path_from_timed start s vmax amax knots :
  full start -> path_from start s ->
  time_parameterize_cartesian_trajectory (ps_path s) vmax amax = Returned knots ->
  timed (ps_path s) knots /\ front (ps_path s) = start.
Proof.
  intros Hf (rest & E & Hr) H. rewrite E in *. split; [|done].
  apply time_parameterize_timed in H; [done|]. by constructor.
Qed.

(** The pose of the reference is the declared one, within the tolerances. *)
Definition starts_near (product : YunyiRuntimeResources) (side : Z)
    (reference : NativeTrajectorySample) (declared : ArticoreRobotPose) : Prop :=
  exists current e,
    robot_fk side (tcp_offset_of product side) (reference_q reference side) = Returned current /\
    pose_error current declared = Returned e /\ within_tolerance e = true.

Lemma validate_start_near product side reference declared name u :
  validate_cartesian_start_pose product side reference declared name = Returned u ->
  starts_near product side reference declared.
Proof.
  unfold validate_cartesian_start_pose. intros H.
  do 4 apply obind_returned in H as ([] & _ & H).
  apply obind_returned in H as (current & Hc & H). apply obind_returned in H as (e & He & H).
  apply oguard_returned, negb_false_iff in H. by exists current, e.
Qed.

Lemma linear_common_near product mode side reference declared end_pose acceleration velocity plan :
  build_linear_trajectory_plan_common product mode side reference (Some declared) end_pose
    acceleration velocity = Returned plan ->
  starts_near product side reference declared.
Proof.
  unfold build_linear_trajectory_plan_common. intros H.
  do 3 apply obind_returned in H as ([] & _ & H).
  apply obind_returned in H as ([] & Hv & _). by eapply validate_start_near.
Qed.

Lemma circular_common_near product mode side reference declared via end_pose acceleration velocity plan :
  build_circular_trajectory_plan_common product mode side reference (Some declared) via end_pose
    acceleration velocity = Returned plan ->
  starts_near product side reference declared.
Proof.
  unfold build_circular_trajectory_plan_common. intros H.
  do 2 apply obind_returned in H as ([] & _ & H). do 2 apply obind_returned in H as (? & _ & H).
  do 2 apply obind_returned in H as ([] & _ & H). apply obind_returned in H as (? & _ & H).
  apply obind_returned in H as ([] & Hv & _). by eapply validate_start_near.
Qed.

Lemma linear_common_direct product mode side reference declared end_pose acceleration velocity plan :
  build_linear_trajectory_plan_common product mode side reference declared end_pose acceleration
    velocity = Returned plan ->
  direct product reference acceleration velocity plan.
Proof.
  unfold build_linear_trajectory_plan_common. intros H.
  apply obind_returned in H as ([] & _ & H). apply obind_returned in H as ([] & _ & H).
  apply obind_returned in H as ([] & Hr & H). apply require_reference_full in Hr.
  apply obind_returned in H as ([] & _ & H). apply obind_returned in H as (end_ & _ & H).
  apply obind_returned in H as ([] & _ & H). apply obind_returned in H as (actual & _ & H).
  apply obind_returned in H as (poses & _ & H). apply obind_returned in H as (s & Hs & H).
  apply obind_returned in H as (knots & Hk & H).
  apply solve_samples_path in Hs; [|apply path_from_start].
  destruct (path_from_timed _ _ _ _ _ (proj1 Hr) Hs Hk). by eapply assemble_direct.
Qed.

Lemma circular_common_direct product mode side reference declared via end_pose acceleration velocity plan :
  build_circular_trajectory_plan_common product mode side reference declared via end_pose acceleration
    velocity = Returned plan ->
  direct product reference acceleration velocity plan.
Proof.
  unfold build_circular_trajectory_plan_common. intros H.
  do 2 apply obind_returned in H as ([] & _ & H). do 2 apply obind_returned in H as (? & _ & H).
  apply obind_returned in H as ([] & _ & H).
  apply obind_returned in H as ([] & Hr & H). apply require_reference_full in Hr.
  apply obind_returned in H as (? & _ & H). apply obind_returned in H as ([] & _ & H).
  do 6 apply obind_returned in H as (? & _ & H).
  apply obind_returned in H as ([] & _ & H).
  apply obind_returned in H as (s1 & Hs1 & H). apply obind_returned in H as (s & Hs & H).
  apply obind_returned in H as (knots & Hk & H).
  apply solve_arc_path in Hs1; [|apply path_from_start]. apply solve_arc_path in Hs; [|done].
  destruct (path_from_timed _ _ _ _ _ (proj1 Hr) Hs Hk). by eapply assemble_direct.
Qed.

(** ** Plans with an approach *)

(** The waypoints up to the one with the number of approach segments lead from
    the reference to a target, where the arm stops. *)
Definition approaches (positions target : list f32) (rq : NativeTrajectoryRequest) : Prop :=
  0 < rq_approach_segment_count rq /\ starts_at positions rq /\
  exists w, rq_waypoints rq !! Z.to_nat (rq_approach_segment_count rq) = Some w /\
    wp_positions w = target /\ wp_velocities w = still /\ wp_accelerations w = still /\
    wp_velocity_valid_mask w = all_joints /\ wp_acceleration_valid_mask w = all_joints /\
    wp_time_s w = f64_add d0 (rq_approach_deadline_s rq).

Lemma leading_ok approach : full_knots approach -> Forall waypoint_ok (leading_waypoints approach).
Proof.
  intros H. apply Forall_imap. intros i k Hi.
  assert (Hf : full k.2).
  { rewrite removelast_firstn_len in Hi. apply lookup_take_Some in Hi as [Hi _].
    unfold full_knots in H. rewrite Forall_lookup in H. eauto. }
  pose proof (plain_waypoint_ok k Hf). case_match; [|done].
  apply with_derivatives_ok; [apply full_still|apply full_still|done].
Qed.

Lemma shifted_ok offset l : Forall waypoint_ok l -> Forall waypoint_ok (shifted_waypoints offset l).
Proof.
  intros H. apply Forall_imap. intros i w Hi. rewrite Forall_lookup in H. specialize (H i w Hi).
  destruct (i =? 0)%nat; [|exact H].
  apply with_derivatives_ok; [apply full_still|apply full_still|exact H].
Qed.

Lemma prepend_planned plan product side reference declared plan' reference' acceleration velocity :
  direct product reference' acceleration velocity plan -> full_reference reference' ->
  prepend_cartesian_approach plan product side reference declared = Returned plan' ->
  planned product acceleration velocity (plan_trajectory plan') /\
  approaches (sa_positions reference) (sa_positions reference') (plan_trajectory plan').
Proof.
  intros [Hp _ (w & rest & Ew & Ht & Hw)] Hr H. unfold prepend_cartesian_approach in H.
  apply obind_returned in H as ([] & Ec & H). apply obind_returned in H as (approach & Ha & H).
  apply obind_returned in H as ([] & El & H). apply obind_returned in H as ([] & _ & H).
  injection H as <-. apply oguard_returned in Ec, El.
  apply orb_false_iff in Ec as [_ Ec]. apply negb_false_iff, Nat.eqb_eq in Ec.
  apply Z.ltb_ge in El. rewrite Ew in *. rewrite Hw in Ha.
  apply time_parameterize_timed in Ha; [|repeat constructor; [done|apply Hr]].
  pose proof (timed_length _ _ Ha) as Hlen. destruct Ha as [(inner & d & Ek) _ Hf].
  assert (Hlead : length (leading_waypoints approach) = (length approach - 1)%nat)
    by (unfold leading_waypoints; rewrite length_imap, removelast_firstn_len, length_take; lia).
  assert (Hshift : forall o l, length (shifted_waypoints o l) = length l)
    by (intros; unfold shifted_waypoints; by rewrite length_imap).
  destruct Hp as [? ? ? ? ? ? ? Hcount ? Hok]. rewrite Ew in *. cbn [plan_trajectory] in *.
  split; [split|split_and!]; cbn -[shifted_waypoints Z.of_nat]; try done.
  - rewrite length_app, Hlead, Hshift. cbn [length] in *. lia.
  - rewrite length_app, Hlead, Hshift. cbn [length] in *. lia.
  - apply Forall_app. split; [by apply leading_ok|by apply shifted_ok].
  - lia.
  - rewrite Ek. destruct inner; cbn; eexists _, _; (split; [reflexivity|done]).
  - eexists. split.
    + rewrite Nat2Z.id, lookup_app_r by lia. rewrite Hlead, Nat.sub_diag. reflexivity.
    + cbn. rewrite Ht, Hw. done.
Qed.

(** ** The first branch that works *)

Lemma first_branch_returned label n attempt targets failure plan :
  first_branch label n attempt targets failure = Returned plan ->
  exists target, target ∈ targets /\ attempt target = Returned plan.
Proof.
  revert failure. induction targets as [|target targets IH]; intros failure; cbn [first_branch]; [done|].
  destruct (attempt target) as [p|e| |] eqn:E; try done.
  - intros [= <-]. exists target. split; [by left|done].
  - destruct e; try done. intros (t & Ht & Ha)%IH. exists t. split; [by right|done].
Qed.

Lemma or_approach_returned {A} (d a : outcome A) x :
  or_approach d a = Returned x -> d = Returned x \/ a = Returned x.
Proof.
  unfold or_approach. destruct d as [y|e| |]; try done; [by left|].
  destruct e; try done. destruct (mentions _ _); [by right|done].
Qed.

Lemma approach_targets_spec product side reference values label targets target :
  solve_cartesian_trajectory_approach_targets product side reference values label = Returned targets ->
  target ∈ targets ->
  full_reference reference /\
  exists q, branch_within_limits product side q = true /\
            target = with_side (sa_positions reference) side q.
Proof.
  unfold solve_cartesian_trajectory_approach_targets. intros H Ht.
  apply obind_returned in H as ([] & _ & H). apply obind_returned in H as ([] & Hr & H).
  apply require_reference_full in Hr. split; [done|].
  apply obind_returned in H as (pose & _ & H). apply obind_returned in H as ([l best] & _ & H).
  apply obind_returned in H as ([] & _ & H). apply obind_returned in H as ([] & _ & H).
  injection H as <-. cbn [fst] in Ht. apply list_elem_of_In, in_map_iff in Ht as (q & <- & Hq).
  apply filter_In in Hq as [_ Hq]. by exists q.
Qed.

Lemma approach_reference_full reference target : full target -> full_reference (approach_reference reference target).
Proof. intros H. split; [done|split; apply full_still]. Qed.

(** What a motion with a declared start is. *)
Definition with_start (product : YunyiRuntimeResources) (side : Z) (reference : NativeTrajectorySample)
    (declared : ArticoreRobotPose) (rq : NativeTrajectoryRequest) : Prop :=
  (starts_near product side reference declared /\ rq_approach_segment_count rq = 0 /\
   starts_at (sa_positions reference) rq) \/
  exists q, branch_within_limits product side q = true /\
    starts_near product side
      (approach_reference reference (with_side (sa_positions reference) side q)) declared /\
    approaches (sa_positions reference) (with_side (sa_positions reference) side q) rq.

Lemma plan_with_start_spec product side reference values declared name label build plan
    acceleration velocity :
  (forall r p, build r = Returned p ->
     direct product r acceleration velocity p /\ starts_near product side r declared) ->
  plan_with_start product side reference values declared name label build = Returned plan ->
  planned product acceleration velocity (plan_trajectory plan) /\
  with_start product side reference declared (plan_trajectory plan).
Proof.
  intros Hb H. unfold plan_with_start in H. apply or_approach_returned in H as [H|H].
  - apply obind_returned in H as ([] & Hv & H). destruct (Hb _ _ H) as [[Hp Hn Hs] Hnear].
    split; [done|]. left. done.
  - apply obind_returned in H as (targets & Ht & H).
    apply first_branch_returned in H as (target & Hin & H).
    destruct (approach_targets_spec _ _ _ _ _ _ _ Ht Hin) as (Hr & q & Hq & ->).
    apply obind_returned in H as (p & Hp & H). destruct (Hb _ _ Hp) as [Hd Hnear].
    destruct (prepend_planned _ _ _ _ _ _ _ _ _ Hd
      (approach_reference_full _ _ (full_with_side _ _ _)) H) as [H1 H2].
    split; [done|]. right. by exists q.
Qed.

Lemma with_start_begins product side reference declared rq :
  with_start product side reference declared rq -> starts_at (sa_positions reference) rq.
Proof. by intros [(_ & _ & ?)|(q & _ & _ & _ & ? & _)]. Qed.

(** What the planner of the product returns for a line and for an arc. *)
Lemma plan_linear_spec product mode side reference start end_pose acceleration velocity rq :
  plan_linear product mode side reference start end_pose acceleration velocity = Returned rq ->
  planned product acceleration velocity rq /\ starts_at (sa_positions reference) rq /\
  forall values, start = Some values -> exists declared,
    robot_pose_from_rpy values = Returned declared /\ with_start product side reference declared rq.
Proof.
  unfold plan_linear, cartesian_planner, trajectory_of. intros H.
  apply obind_returned in H as (plan & H & [= <-]).
  unfold build_linear_trajectory_plan_from_reference in H. destruct start as [values|].
  - apply obind_returned in H as (declared & Hd & H).
    eapply plan_with_start_spec in H as [Hp Hs].
    + split; [exact Hp|]. split; [by eapply with_start_begins|]. intros ? [= <-]. eauto.
    + intros r p Hb. split; [by eapply linear_common_direct|by eapply linear_common_near].
  - apply linear_common_direct in H as [Hp _ Hs]. by split_and!.
Qed.

Lemma plan_circular_spec product mode side reference start via end_pose acceleration velocity rq :
  plan_circular product mode side reference start via end_pose acceleration velocity = Returned rq ->
  planned product acceleration velocity rq /\
  exists declared, robot_pose_from_rpy start = Returned declared /\
                   with_start product side reference declared rq.
Proof.
  unfold plan_circular, cartesian_planner, trajectory_of. intros H.
  apply obind_returned in H as (plan & H & [= <-]).
  unfold build_circular_trajectory_plan_from_reference in H.
  apply obind_returned in H as (declared & Hd & H).
  eapply plan_with_start_spec in H as [Hp Hs]; [split; eauto|].
  intros r p Hb. split; [by eapply circular_common_direct|by eapply circular_common_near].
Qed.

End Planner.
