(* ===== verification/RequestLaws.v ===== *)
(** * Requests of the product against the checks of the safety runtime

    [start_trajectory] checks a request before it looks at its waypoints: its
    shape, and every joint against the motors and against the limits of the
    request.  The joints of the product pass these checks for every motion the
    planner builds at a speed of at most one hundred percent. *)

From S2P Require Import Prelude Float32 FloatOrder Float64 PvShaping RuntimeTypes NativeTypes SafetyState Motions Commands Planning Gravity Yunyi Product ProductCommands ProductOps ProductLaws CartesianMath CartesianTiming Cartesian PlannerLaws.
#[local] Open Scope mdl_scope.

(** ** The table of the joints *)

Definition units_of (n : Z) : Z := f32_units (f32_of_Z n).

(** Everything [check_request_joint] asks of a joint of the product but its
    motor, and room for a velocity of 1 and an acceleration of 6. *)
Definition trajectory_joint_ok (j : NativeTrajectoryJoint) : bool :=
  f32_isfinite (tj_direction j) && SFeqb (f32_abs (tj_direction j)) f32_one &&
  positive_finite (tj_velocity_command_scale j) && positive_finite (tj_velocity_feedback_scale j) &&
  positive_finite (tj_torque_command_scale j) &&
  f32_isfinite (tj_lower_position j) && f32_isfinite (tj_upper_position j) &&
  negb (f32_ge (tj_lower_position j) (tj_upper_position j)) &&
  positive_finite (tj_velocity_limit j) && positive_finite (tj_acceleration_limit j) &&
  positive_finite (tj_torque_limit j) &&
  positive_finite (tj_pv_velocity_limit j) &&
  negb (f32_gt (tj_pv_velocity_limit j) (tj_velocity_limit j)) &&
  f32_isfinite (tj_pv_hold_velocity_limit j) &&
  negb (f32_lt (tj_pv_hold_velocity_limit j) f32_zero) &&
  negb (f32_gt (tj_pv_hold_velocity_limit j) (tj_pv_velocity_limit j)) &&
  negb (f32_gt kYunyiPvDriveVelocityLimit (tj_velocity_limit j)) &&
  f32_exact (tj_velocity_limit j) && f32_exact (tj_acceleration_limit j) &&
  (units_of 1 <=? f32_units (tj_velocity_limit j)) &&
  (units_of 6 <=? f32_units (tj_acceleration_limit j)).

Definition table_joint (side index : nat) (motor : handle) (k : nat) : NativeTrajectoryJoint :=
  trajectory_joint (product_joint side index motor) k.

Lemma table_joints_ok :
  forallb (fun side => forallb (fun index => trajectory_joint_ok (table_joint side index 0%nat 0%nat))
                         (seq 0 PRODUCT_ARM_DOF)) [0; 1]%nat = true.
Proof. vm_compute. reflexivity. Qed.

Lemma table_joint_ok side index motor k :
  (side < 2)%nat -> (index < PRODUCT_ARM_DOF)%nat ->
  trajectory_joint_ok (table_joint side index motor k) = true.
Proof.
  intros Hs Hi. change (trajectory_joint_ok (table_joint side index motor k))
    with (trajectory_joint_ok (table_joint side index 0%nat 0%nat)).
  pose proof table_joints_ok as H. rewrite forallb_forall in H.
  assert (Hf : forallb (fun index => trajectory_joint_ok (table_joint side index 0%nat 0%nat))
                 (seq 0 PRODUCT_ARM_DOF) = true).
  { apply (H side). destruct side as [|[|?]]; [left|right; left|lia]; done. }
  rewrite forallb_forall in Hf. apply Hf, in_seq. lia.
Qed.

Lemma upto_not_above b x c :
  f32_upto b x -> f32_exact c = true -> b <= f32_units c -> f32_gt x c = false.
Proof.
  intros (V & F & _ & Hb) Hc Hle. pose proof (f32_exact_number c Hc) as Nc.
  unfold f32_exact in Hc. apply andb_prop in Hc as [_ Fc].
  unfold f32_gt. change (SFltb c x) with (f32_lt c x).
  rewrite f32_lt_place; [|done|by split; [|destruct x]].
  rewrite !f32_place_finite by done. apply Z.ltb_ge. lia.
Qed.

(** ** One joint *)

Lemma first_refusal_none l : Forall (fun o => o = None) l -> first_refusal l = None.
Proof. by induction 1 as [|o l -> _ IH]. Qed.

Lemma product_joint_accepted product acceleration velocity rq motors seen side index motor k :
  planned product acceleration velocity rq -> (side < 2)%nat -> (index < PRODUCT_ARM_DOF)%nat ->
  f32_upto (units_of 1) velocity -> f32_upto (units_of 6) acceleration ->
  motor <> 0%nat -> find_arm motors motor <> None -> motor ∉ seen ->
  check_request_joint rq motors seen (table_joint side index motor k) = None.
Proof.
  intros Hp Hs Hi Hv Ha Hm Hf Hn. pose proof (table_joint_ok side index motor k Hs Hi) as H.
  set (j := table_joint side index motor k) in *. unfold trajectory_joint_ok in H.
  rewrite !andb_true_iff in H.
  destruct H as [[[[[[[[[[[[[[[[[[[[H1 H2] H3] H4] H5] H6] H7] H8] H9] H10] H11] H12] H13] H14] H15] H16] H17] H18] H19] H20] H21].
  apply Z.leb_le in H20, H21. apply negb_true_iff in H13, H15, H16, H17.
  assert (Hvalid : request_joint_valid motors seen j = true).
  { unfold request_joint_valid. rewrite !andb_true_iff. split_and!; try done.
    - apply negb_true_iff, Nat.eqb_neq. exact Hm.
    - apply negb_true_iff, bool_decide_eq_false. exact Hf.
    - apply negb_true_iff, bool_decide_eq_false. exact Hn. }
  unfold check_request_joint, pv_execution. rewrite Hvalid, (pl_mode _ _ _ _ Hp), (pl_execution _ _ _ _ Hp),
    (pl_velocity _ _ _ _ Hp), (pl_acceleration _ _ _ _ Hp), (pl_drive _ _ _ _ Hp).
  rewrite H12, H13, H14, H15, H16, H17.
  rewrite (upto_not_above _ _ _ Hv H18 H20), (upto_not_above _ _ _ Ha H19 H21). reflexivity.
Qed.

(** ** All joints *)

Lemma collect_joints_distinct velocity motors configured l joints :
  collect_joints velocity motors configured l = inr joints ->
  NoDup (map jcc_motor l) /\
  forall v, v ∈ l -> configured !! jcc_motor v = None /\ find_arm motors (jcc_motor v) <> None.
Proof.
  revert configured. induction l as [|v l IH]; intros configured; cbn [collect_joints].
  { intros _. split; [constructor|]. by intros v ?%not_elem_of_nil. }
  destruct (joint_config_valid velocity motors v) eqn:Ev; cbn [negb]; [|done].
  destruct (configured !! jcc_motor v) eqn:Ec; [done|]. intros [Hd Hl]%IH. split.
  - cbn. constructor; [|done]. intros Hin. apply list_elem_of_In, in_map_iff in Hin as (w & E & Hw).
    apply list_elem_of_In, Hl in Hw as [Hw _]. by rewrite E, lookup_insert_eq in Hw.
  - intros w [->|Hw]%elem_of_cons.
    + split; [done|]. unfold joint_config_valid in Ev. repeat apply andb_prop in Ev as [Ev _].
      by apply negb_true_iff, bool_decide_eq_false in Ev.
    + apply Hl in Hw as [Hw ?]. split; [|done]. by apply lookup_insert_None in Hw as [? _].
Qed.

Lemma check_request_joints_none rq motors seen l :
  NoDup (map tj_motor l) -> (forall j, j ∈ l -> tj_motor j ∉ seen) ->
  (forall j seen, j ∈ l -> tj_motor j ∉ seen -> check_request_joint rq motors seen j = None) ->
  check_request_joints rq motors seen l = None.
Proof.
  revert seen. induction l as [|j l IH]; intros seen Hd Hs Hj; cbn [check_request_joints]; [done|].
  cbn [map] in Hd. apply NoDup_cons in Hd as [Hn Hd].
  rewrite Hj; [|by left|by apply Hs; left]. apply IH; [done| |].
  - intros i Hi. apply not_elem_of_union. split; [|by apply Hs; right].
    rewrite not_elem_of_singleton. intros E. apply Hn. rewrite <- E.
    apply list_elem_of_In, in_map, list_elem_of_In, Hi.
  - intros i s Hi. apply Hj. by right.
Qed.

Lemma map_nth_seq {A} (d : A) l : map (fun i => nth i l d) (seq 0 (length l)) = l.
Proof.
  apply list_eq. intros i. rewrite list_lookup_fmap.
  destruct (decide (i < length l)%nat) as [Hi|Hi].
  - rewrite lookup_seq_lt by done. cbn. rewrite nth_lookup.
    by destruct (lookup_lt_is_Some_2 l i Hi) as [x ->].
  - rewrite lookup_seq_ge by lia. cbn. by rewrite (proj2 (lookup_ge_None _ _)) by lia.
Qed.

Section Configured.
Context (arm_motors : list handle) (r : YunyiRuntimeResources).
Context (Harm : length arm_motors = PRODUCT_DUAL_ARM_DOF).
Context (Hr : ry_joints r = (configure_joint_table arm_motors).1).

Lemma product_joint_table i :
  (i < PRODUCT_DUAL_ARM_DOF)%nat ->
  trajectory_joint (joint_at r i) i =
  table_joint (i / PRODUCT_ARM_DOF) (i mod PRODUCT_ARM_DOF) (nth i arm_motors 0%nat) i.
Proof. intros Hi. by rewrite (joint_at_configured arm_motors). Qed.

Lemma product_motors : map tj_motor (product_cartesian_joints r) = arm_motors.
Proof.
  unfold product_cartesian_joints. rewrite map_map. etrans; [|apply (map_nth_seq (A := handle) 0%nat)].
  rewrite Harm. apply map_ext_in. intros i Hi%in_seq. rewrite product_joint_table by lia. done.
Qed.

Lemma config_motors : map jcc_motor (configure_joint_table arm_motors).2 = arm_motors.
Proof.
  cbn. apply list_eq. intros i. rewrite list_lookup_fmap, !list_lookup_imap.
  by destruct (arm_motors !! i).
Qed.

Context (velocity : f32) (motors : list MotorRecord) (joints : gmap handle JointControlConfig).
Context (Hj : collect_joints velocity motors ∅ (configure_joint_table arm_motors).2 = inr joints).
Context (Hnz : 0%nat ∉ arm_motors).

Lemma planned_joints_accepted acceleration speed rq :
  planned r acceleration speed rq ->
  f32_upto (units_of 1) speed -> f32_upto (units_of 6) acceleration ->
  check_request_joints rq motors ∅ (rq_joints rq) = None.
Proof.
  intros Hp Hv Ha. destruct (collect_joints_distinct _ _ _ _ _ Hj) as [Hd Hf].
  rewrite config_motors in Hd. rewrite (pl_joints _ _ _ _ Hp).
  apply check_request_joints_none; [by rewrite product_motors|intros j _; apply not_elem_of_empty|].
  intros j seen Hin Hs. apply list_elem_of_In, in_map_iff in Hin as (i & <- & Hi%in_seq).
  assert (Hi' : (i < PRODUCT_DUAL_ARM_DOF)%nat) by lia. destruct (joint_side i Hi') as [Hside Hm].
  pose proof (Hf _ (config_configured arm_motors r Harm Hr i Hi')) as [_ Hk].
  rewrite (joint_at_configured arm_motors) in Hk by done. cbn in Hk.
  rewrite product_joint_table in * by done.
  eapply product_joint_accepted; try done.
  intros E. apply Hnz. rewrite <- E. apply list_elem_of_In, nth_In. lia.
Qed.

Lemma planned_shape_accepted acceleration speed rq :
  planned r acceleration speed rq -> arm_count motors = PRODUCT_DUAL_ARM_DOF ->
  check_request_shape rq motors = None.
Proof.
  intros Hp Hc. destruct Hp as [[Hpa Hpv] Hm He Hv Ha Hd Hjs Hn Hs _].
  assert (Hl : length (rq_joints rq) = PRODUCT_DUAL_ARM_DOF)
    by (rewrite Hjs; unfold product_cartesian_joints; by rewrite length_map, length_seq).
  unfold kNativeMaximumTrajectoryWaypoints in Hn.
  apply first_refusal_none. unfold pv_execution. rewrite Hm, He, Hv, Ha, Hd, Hpa, Hpv, Hc, Hl.
  unfold kNativeMaximumTrajectoryWaypoints.
  repeat constructor; unfold refuse_if; [..|].
  - destruct (Nat.ltb_spec (length (rq_waypoints rq)) 2); [lia|].
    destruct (Z.ltb_spec 30000 (Z.of_nat (length (rq_waypoints rq)))); [lia|done].
  - by destruct (Z.leb_spec (Z.of_nat (length (rq_waypoints rq))) (rq_approach_segment_count rq)); [lia|].
Qed.

End Configured.

(** ** The speed *)

Lemma f32_mul_one_upto b x y :
  f32_bound b -> f32_upto b x -> f32_upto (f32_units f32_one) y -> f32_upto b (f32_mul x y).
Proof.
  intros Hb Hx Hy. apply (f32_mul_upto _ _ _ _ _ Hx Hy Hb).
  destruct Hx as (_ & _ & Hx), Hy as (_ & _ & Hy).
  change (f32_units f32_one) with (2 ^ 149) in *. nia.
Qed.

Lemma speed_scale_upto p :
  f32_valid p -> percent_valid f32_one p = true ->
  f32_upto (units_of 1) (reference_velocity (speed_scale_of p)) /\
  f32_upto (units_of 6) (reference_acceleration (speed_scale_of p)).
Proof.
  intros V H. pose proof (scale_upto_one p (percent_one_upto p V H)) as Hs.
  unfold speed_scale_of. cbn [reference_velocity reference_acceleration].
  set (scale := f32_div p percent_hundred) in *.
  assert (H1 : f32_upto (units_of 1) kYunyiCartesianMaximumVelocity) by (by split_and!; vm_compute).
  assert (H6 : f32_upto (units_of 6) kYunyiTrajectoryPvAccelerationLimit)
    by (by split_and!; vm_compute).
  split; repeat apply f32_mul_one_upto; done || (apply f32_bound_of_units; by vm_compute).
Qed.
