(* ===== verification/CartesianTheorems.v ===== *)
(** * Theorems on Cartesian motions

    Timed paths stay within velocity and acceleration; a joint path is refused
    exactly when it jumps or chatters; what inverse kinematics answers has
    converged; a motion with a declared start begins there or approaches it; and
    the requests the planner makes pass the checks of the safety runtime. *)

From Stdlib Require Import String Sorted.
From S2P Require Import Prelude Float32 FloatOrder Float64 FloatRound PvShaping RuntimeTypes NativeTypes SafetyState Motions Commands Planning Yunyi Product ProductCommands ProductOps ProductLaws ProductTheorems CartesianMath CartesianTiming Cartesian IkSearch CartesianLaws PlannerLaws RequestLaws.
#[local] Open Scope mdl_scope.
#[local] Open Scope plan_scope.

(** ** A sample

    An arm whose hand is where its first joint is, on a line; a Newton step for
    it is the residual. *)

#[local] Instance sample_libm : Libm := {|
  libm_sin _ := d0; libm_cos _ := d1; libm_asin _ := d0; libm_acos _ := d0; libm_atan2 _ _ := d0 |}.

Definition line_pose (x : f64) : ArticoreRobotPose := {|
  rp_position := [x; d0; d0]; rp_rotation := [d1; d0; d0; d0; d1; d0; d0; d0; d1] |}.

#[local] Instance sample_models : RobotModels := {|
  robot_model_error _ _ := None; robot_fk _ _ q := Returned (line_pose (nth 0 q d0)) |}.

Definition line_residual (target : ArticoreRobotPose) (q : list f64) : list f64 :=
  f64_sub (nth 0 (rp_position target) d0) (nth 0 q d0) :: replicate 5 d0.

#[local] Instance sample_body : RigidBody := {|
  kin_residual _ _ target q := line_residual target q;
  kin_step _ _ target q _ _ _ := line_residual target q ++ [d0];
  kin_integrate q delta := pointwise f64_add q delta;
  eig_norm l := fold_left (fun s x => f64_add s (f64_abs x)) l d0;
  eig_squared_norm l := fold_left (fun s x => f64_add s (f64_mul x x)) l d0;
  eig_rotation _ := true; libm_hypot a b := f64_add a b; libm_square x := f64_mul x x;
  random_draw _ _ lower _ := lower; search_clock n := Z.of_nat n |}.

Definition sample_reference : NativeTrajectorySample := {|
  sa_active := false; sa_motion_id := 0; sa_operation := OPERATION_NONE; sa_positions := still;
  sa_velocities := still; sa_accelerations := still |}.

Definition sample_speed : CartesianSpeedScale := speed_scale_of (f32_of_Z 100).

(** The hand is declared to be at 1/64, and stays there. *)
Definition sample_start : Pose := f32_lit 1 64 :: zeros 5.

Definition sample_line : outcome NativeTrajectoryRequest :=
  plan_linear sample_resources ModePv 0 sample_reference (Some sample_start) sample_start
    (reference_acceleration sample_speed) (reference_velocity sample_speed).

(** What is computed of a result, where there is one. *)
Definition seen {A T} (f : A -> T) (o : outcome A) : option T :=
  match o with Returned x => Some (f x) | _ => None end.

Lemma seen_some {A T} (f : A -> T) o y : seen f o = Some y -> exists x, o = Returned x /\ f x = y.
Proof. destruct o as [x| | |]; cbn [seen]; [intros [= H]; by exists x|discriminate..]. Qed.

Lemma sample_line_planned :
  exists rq, sample_line = Returned rq /\ rq_approach_segment_count rq = 4 /\
             length (rq_waypoints rq) = 7%nat.
Proof.
  assert (H : seen (fun rq => (rq_approach_segment_count rq, length (rq_waypoints rq))) sample_line =
              Some (4, 7%nat)) by (lazy; reflexivity).
  apply seen_some in H as (rq & E & H). injection H as H1 H2. exists rq. split_and!; assumption.
Qed.

(** ** Timing *)

Lemma intervals_kept_at c vmax amax before a l pre x y post :
  intervals_kept c vmax amax before a l -> a :: l = pre ++ x :: y :: post ->
  (f64_isfinite (interval x y) = true /\ f64_lt d0 (interval x y) = true) /\
  (forall j, j ∈ joints14 -> kept c (velocity_ratio vmax (joint_velocity x y j))) /\
  (forall z l' j, pre = l' ++ [z] -> j ∈ joints14 ->
     kept c (acceleration_ratio amax (joint_acceleration z x y j))) /\
  (forall j, before = None -> pre = [] -> j ∈ joints14 ->
     kept c (acceleration_ratio amax (starting_acceleration x y j))).
Proof.
  revert before a pre. induction l as [|b l IH]; intros before a pre H E.
  { apply (f_equal length) in E. rewrite length_app in E. cbn in E. lia. }
  cbn [intervals_kept] in H. destruct H as (Hi & Hj & Hrest).
  destruct pre as [|a' pre].
  - injection E as <- <- <-. split; [exact Hi|]. split; [|split].
    + intros j Hin. by apply Hj.
    + intros z l' j E. by destruct l'.
    + intros j -> _ Hin. by destruct (Hj j Hin).
  - injection E as <- E. destruct (IH _ _ _ Hrest E) as (H1 & H2 & H3 & H4).
    split; [done|]. split; [done|]. split; [|done].
    intros z l' j Ez Hin. destruct l' as [|w l'].
    + injection Ez as -> ->. injection E as -> ->.
      cbn [intervals_kept] in Hrest. destruct Hrest as (_ & Hj' & _). by apply Hj'.
    + injection Ez as -> ->. by apply (H3 z l').
Qed.

(** C11. Timing within limits.  A path that can be timed is returned as knots that
    begin with its first point at time 0 and end with its last point at a
    duration of at most 60 seconds; there are at most 29998 of them and each
    interval is finite and positive.  Between any two knots no joint exceeds the
    maximum velocity by more than one part in ten thousand, and none of its
    accelerations, between neighbouring intervals, from rest and to rest,
    exceeds the maximum acceleration by more than 2.1 parts in ten thousand. *)
Theorem cartesian_timing_within path vmax amax knots :
  time_parameterize_cartesian_trajectory path vmax amax = Returned knots ->
  exists duration inner,
    knots = (d0, front path) :: inner ++ [(duration, back path)] /\
    f64_isfinite duration = true /\ f64_lt (f64_of_Z 60) duration = false /\
    Z.of_nat (length knots) <= 29998 /\
    forall pre x y post, knots = pre ++ x :: y :: post ->
      f64_isfinite (interval x y) = true /\ f64_lt d0 (interval x y) = true /\
      forall j, (j < 14)%nat ->
        f64_lt (f64_lit 10001 10000) (velocity_ratio vmax (joint_velocity x y j)) = false /\
        (forall l z, pre = l ++ [z] ->
           f64_lt (f64_lit 100021 100000) (acceleration_share amax (joint_acceleration z x y j)) = false) /\
        (pre = [] ->
           f64_lt (f64_lit 100021 100000) (acceleration_share amax (starting_acceleration x y j)) = false) /\
        (post = [] ->
           f64_lt (f64_lit 100021 100000) (acceleration_share amax (stopping_acceleration x y j)) = false).
Proof.
  unfold time_parameterize_cartesian_trajectory. intros H.
  apply obind_returned in H as ([] & _ & H). apply obind_returned in H as ([] & _ & H).
  apply timing_attempts_spec in H as (duration & Hf & Hd & (inner & E & Hlen) & Hk).
  exists duration, inner. split_and!; [done|done|done|done|]. intros pre x y post Ek.
  rewrite E in Hk, Ek. cbn [timing_kept] in Hk. destruct Hk as [Hk Hstop].
  destruct (intervals_kept_at _ _ _ _ _ _ _ _ _ _ Hk Ek) as ([? ?] & Hv & Ha & Hs).
  split; [done|]. split; [done|]. intros j Hj.
  assert (Hin : j ∈ joints14) by (apply elem_of_seq; unfold PRODUCT_DUAL_ARM_DOF; lia).
  split_and!; [by apply Hv|intros l z ->|intros ->|intros ->]; apply acceleration_share_kept;
    [by apply (Ha z l)|by apply Hs|by apply (Hstop pre)].
Qed.

Definition sample_path : list CartesianJointPoint := [still; f32_lit 1 64 :: tl still].

Lemma cartesian_timing_within_witness :
  exists knots,
    time_parameterize_cartesian_trajectory sample_path d1 (f64_of_Z 6) = Returned knots /\
    length knots = 5%nat /\
    exists duration inner,
      knots = (d0, still) :: inner ++ [(duration, f32_lit 1 64 :: tl still)] /\
      f64_isfinite duration = true.
Proof.
  assert (H : seen (fun l => length l)
                (time_parameterize_cartesian_trajectory sample_path d1 (f64_of_Z 6)) = Some 5%nat)
    by (lazy; reflexivity).
  apply seen_some in H as (knots & E & Hn). exists knots. split; [exact E|]. split; [exact Hn|].
  destruct (cartesian_timing_within sample_path d1 (f64_of_Z 6) knots E)
    as (duration & inner & H1 & H2 & _).
  exists duration, inner. split; [exact H1|exact H2].
Defined.

(** ** Continuity *)

(** The steps of one joint over the samples of a path. *)
Fixpoint follow_steps (side : Z) (label : nat -> string) (joint sample : nat) (steps : list f64)
    (t : JointTrend) : outcome JointTrend :=
  match steps with
  | [] => Returned t
  | step :: rest =>
      let* t := joint_continuity side (label sample) sample joint step t in
      follow_steps side label joint (S sample) rest t
  end.

(** The runs of a sequence of steps: maximal stretches in one direction with the
    distance travelled, the last run first; steps below the deadband do not
    count. *)
Definition add_step (runs : list (Z * f64)) (step : f64) : list (Z * f64) :=
  let travel := f64_abs step in
  let direction := if f64_lt d0 step then 1 else -1 in
  if f64_le kYunyiCartesianIkDirectionDeadband travel then
    match runs with
    | (d, t) :: rest =>
        if direction =? d then (d, f64_add t travel) :: rest else (direction, travel) :: runs
    | [] => [(direction, travel)]
    end
  else runs.

Definition runs_of (steps : list f64) : list (Z * f64) := fold_left add_step steps [].

(** A run that is neither the first nor the last one. *)
Definition inner_runs (runs : list (Z * f64)) : list (Z * f64) := tl (removelast runs).

Definition small_step (step : f64) : Prop :=
  f64_isfinite step = true /\
  f64_lt kYunyiCartesianMaximumIkJointStep (f64_abs step) = false.

Definition long_run (run : Z * f64) : Prop := f64_le run.2 kYunyiCartesianIkChatterExcursion = false.

(** What the trend of a joint is after its steps. *)
Definition trend_of (runs : list (Z * f64)) : JointTrend :=
  match runs with
  | [] => no_trend
  | (d, t) :: rest => Build_JointTrend d t (negb (length rest =? 0)%nat)
  end.

Definition runs_fine (runs : list (Z * f64)) : Prop :=
  Forall (fun r => r.1 <> 0) runs /\ Forall long_run (inner_runs runs).

Lemma inner_runs_cons r s rest :
  inner_runs (r :: s :: rest) = if (length rest =? 0)%nat then [] else s :: inner_runs (s :: rest).
Proof. by destruct rest as [|x rest]. Qed.

Lemma inner_runs_head r r' rest : inner_runs (r :: rest) = inner_runs (r' :: rest).
Proof. by destruct rest. Qed.

Lemma joint_continuity_step side label sample joint step runs t :
  runs_fine runs ->
  joint_continuity side label sample joint step (trend_of runs) = Returned t <->
  small_step step /\ runs_fine (add_step runs step) /\ t = trend_of (add_step runs step).
Proof.
  intros [Hd Hl]. unfold joint_continuity, small_step, add_step.
  destruct (f64_isfinite step); cbn [negb oguard obind]; [|by split; [|intros ([] & _)]].
  destruct (f64_lt kYunyiCartesianMaximumIkJointStep (f64_abs step)); cbn [oguard obind];
    [by split; [|intros ([] & _)]|].
  destruct (f64_le kYunyiCartesianIkDirectionDeadband (f64_abs step)).
  2: { split; [intros [= <-]|intros (_ & _ & ->)]; done. }
  set (direction := if f64_lt d0 step then 1 else -1).
  assert (Hdir : direction <> 0) by (subst direction; by destruct (f64_lt d0 step)).
  destruct runs as [|[d x] rest]; cbn [trend_of jt_direction jt_excursion jt_reversed Z.eqb no_trend].
  - split; [intros [= <-]|intros (_ & _ & ->)]; [|done].
    split; [done|]. split; [|done]. by split; [repeat constructor|].
  - apply Forall_cons in Hd as [Hd0 Hd]. cbn in Hd0. rewrite (proj2 (Z.eqb_neq d 0) Hd0).
    destruct (Z.eqb_spec direction d) as [->|Hne].
    + assert (Hf : runs_fine ((d, f64_add x (f64_abs step)) :: rest)).
      { split; [by constructor|]. by rewrite (inner_runs_head _ (d, x)). }
      split; [intros [= <-]|intros (_ & _ & ->)]; done.
    + unfold runs_fine. rewrite inner_runs_cons. cbn [trend_of length Nat.eqb negb].
      assert (Hn : Forall (fun r : Z * f64 => r.1 <> 0) ((direction, f64_abs step) :: (d, x) :: rest))
        by (by repeat constructor).
      destruct (length rest =? 0)%nat; cbn [negb andb oguard obind].
      { split; [intros [= <-]|intros (_ & _ & ->)]; done. }
      destruct (f64_le x kYunyiCartesianIkChatterExcursion) eqn:Ex; cbn [oguard obind].
      * split; [done|]. intros (_ & (_ & Hlong) & _). apply Forall_cons in Hlong as [Hlong _].
        unfold long_run in Hlong. cbn in Hlong. congruence.
      * split; [intros [= <-]|intros (_ & _ & ->)]; [|done].
        split; [done|]. split; [|done]. split; [done|]. by constructor.
Qed.

Lemma inner_runs_monotone runs step :
  Forall long_run (inner_runs (add_step runs step)) -> Forall long_run (inner_runs runs).
Proof.
  unfold add_step. destruct (f64_le _ _); [|done]. destruct runs as [|[d x] rest]; [done|].
  destruct (_ =? d); [by rewrite (inner_runs_head _ (d, x))|]. rewrite inner_runs_cons.
  destruct rest; [done|]. cbn [length Nat.eqb]. by intros [_ H]%Forall_cons.
Qed.

Lemma runs_fine_monotone runs steps :
  Forall (fun r => r.1 <> 0) runs -> Forall long_run (inner_runs (fold_left add_step steps runs)) ->
  runs_fine runs.
Proof.
  intros Hd H. split; [done|]. clear Hd. revert runs H.
  induction steps as [|s steps IH]; intros runs H; [done|]. apply IH in H. by apply inner_runs_monotone in H.
Qed.

Lemma add_step_directions runs step :
  Forall (fun r => r.1 <> 0) runs -> Forall (fun r => r.1 <> 0) (add_step runs step).
Proof.
  intros H. unfold add_step. destruct (f64_le _ _); [|done].
  assert ((if f64_lt d0 step then 1 else -1) <> 0) by (by destruct (f64_lt d0 step)).
  destruct runs as [|[d x] rest]; [by repeat constructor|].
  apply Forall_cons in H as [? ?]. destruct (_ =? d); by repeat constructor.
Qed.

Lemma follow_steps_runs side label joint sample steps runs t :
  runs_fine runs ->
  follow_steps side label joint sample steps (trend_of runs) = Returned t <->
  Forall small_step steps /\ Forall long_run (inner_runs (fold_left add_step steps runs)) /\
  t = trend_of (fold_left add_step steps runs).
Proof.
  revert sample runs. induction steps as [|s steps IH]; intros sample runs Hf; cbn [follow_steps fold_left].
  - split; [intros [= <-]|by intros (_ & _ & ->)]. split; [done|]. split; [apply Hf|done].
  - split.
    + intros H. apply obind_returned in H as (t1 & H1 & H).
      apply joint_continuity_step in H1 as (Hs & Hf1 & ->); [|done].
      apply IH in H as (? & ? & ?); [|done]. split; [by constructor|done].
    + intros ([Hs Hss]%Forall_cons & Hl & Ht).
      assert (Hf1 : runs_fine (add_step runs s)).
      { apply (runs_fine_monotone _ steps); [|done]. apply add_step_directions, Hf. }
      rewrite (proj2 (joint_continuity_step side (label sample) sample joint s runs _ Hf)
                 (conj Hs (conj Hf1 eq_refl))).
      cbn [obind]. by apply IH.
Qed.

(** All seven joints: the loop over the samples of a path, each sample with its
    label. *)
Fixpoint follow_path (side : Z) (label : nat -> string) (sample : nat) (previous : list f64)
    (path : list (list f64)) (trends : list JointTrend) : outcome (list JointTrend) :=
  match path with
  | [] => Returned trends
  | q :: rest =>
      let* trends := require_cartesian_ik_continuity side previous q trends (label sample) sample in
      follow_path side label (S sample) q rest trends
  end.

(** The steps of one joint along a path. *)
Fixpoint steps_of (joint : nat) (previous : list f64) (path : list (list f64)) : list f64 :=
  match path with
  | [] => []
  | q :: rest => f64_sub (nth joint q d0) (nth joint previous d0) :: steps_of joint q rest
  end.

Lemma joints_continuity_spec side label sample k steps trends ts :
  length steps = length trends ->
  joints_continuity side label sample k steps trends = Returned ts <->
  length ts = length trends /\
  forall i, (i < length trends)%nat ->
    joint_continuity side label sample (k + i) (nth i steps d0) (nth i trends no_trend) =
    Returned (nth i ts no_trend).
Proof.
  revert k trends ts. induction steps as [|s steps IH]; intros k [|t trends] ts Hl; try done;
    cbn [joints_continuity].
  { split; [intros [= <-]; split; [done|cbn; lia]|]. intros [H _]. by destruct ts. }
  injection Hl as Hl. split.
  - intros H. apply obind_returned in H as (t1 & H1 & H). apply obind_returned in H as (rest & H2 & H).
    injection H as <-. apply IH in H2 as [Hr H2]; [|done]. cbn. split; [by rewrite Hr|].
    intros [|i] Hi; [by rewrite Nat.add_0_r|]. rewrite <- plus_n_Sm. apply H2. lia.
  - intros [Hr H]. destruct ts as [|t1 ts]; [done|].
    pose proof (H 0%nat ltac:(cbn; lia)) as H0. cbn in H0. rewrite Nat.add_0_r in H0. rewrite H0.
    cbn [obind]. rewrite (proj2 (IH (S k) trends ts Hl)); [done|]. split; [by injection Hr|].
    intros i Hi. specialize (H (S i) ltac:(cbn; lia)). by rewrite <- plus_n_Sm in H.
Qed.

Lemma continuity_spec side previous q trends label sample ts :
  length trends = PRODUCT_ARM_DOF -> side_valid side = true ->
  require_cartesian_ik_continuity side previous q trends label sample = Returned ts <->
  length ts = PRODUCT_ARM_DOF /\
  forall j, (j < PRODUCT_ARM_DOF)%nat ->
    joint_continuity side label sample j (f64_sub (nth j q d0) (nth j previous d0))
      (nth j trends no_trend) = Returned (nth j ts no_trend).
Proof.
  intros Hl Hs. unfold require_cartesian_ik_continuity. rewrite Hs. cbn [negb oguard obind].
  rewrite joints_continuity_spec by (unfold joint_steps; by rewrite length_map, Hl). rewrite Hl.
  assert (Hn : forall j, (j < PRODUCT_ARM_DOF)%nat ->
    nth j (joint_steps previous q) d0 = f64_sub (nth j q d0) (nth j previous d0)).
  { intros j Hj. unfold PRODUCT_ARM_DOF in Hj. do 7 (destruct j as [|j]; [done|]). lia. }
  split; intros [H1 H2]; (split; [done|]); intros j Hj; specialize (H2 j Hj); cbn [Nat.add] in *;
    [by rewrite Hn in H2|by rewrite Hn].
Qed.

Lemma follow_path_spec side label sample previous path trends ts :
  length trends = PRODUCT_ARM_DOF -> side_valid side = true ->
  follow_path side label sample previous path trends = Returned ts <->
  length ts = PRODUCT_ARM_DOF /\
  forall j, (j < PRODUCT_ARM_DOF)%nat ->
    follow_steps side label j sample (steps_of j previous path) (nth j trends no_trend) =
    Returned (nth j ts no_trend).
Proof.
  intros Hl Hs. revert sample previous trends Hl.
  induction path as [|q path IH]; intros sample previous trends Hl; cbn [follow_path steps_of follow_steps].
  - split.
    + intros [= <-]. done.
    + intros [Ht H]. f_equal. apply (nth_ext _ _ no_trend no_trend); [by rewrite Ht|].
      intros j Hj. specialize (H j ltac:(by rewrite <- Hl)). by injection H.
  - split.
    + intros H. apply obind_returned in H as (t1 & H1 & H). apply continuity_spec in H1 as [L1 H1]; [|done..].
      apply IH in H as [L H]; [|done]. split; [done|]. intros j Hj. rewrite (H1 j Hj). by apply H.
    + intros [L H].
      set (t1 := map (fun j => match joint_continuity side (label sample) sample j
                     (f64_sub (nth j q d0) (nth j previous d0)) (nth j trends no_trend) with
                   | Returned t => t | _ => no_trend end) (seq 0 PRODUCT_ARM_DOF)).
      assert (H1 : forall j, (j < PRODUCT_ARM_DOF)%nat ->
        joint_continuity side (label sample) sample j (f64_sub (nth j q d0) (nth j previous d0))
          (nth j trends no_trend) = Returned (nth j t1 no_trend)).
      { intros j Hj. destruct (obind_returned _ _ _ (H j Hj)) as (t & Ht & _). rewrite Ht. f_equal.
        subst t1. rewrite nth_lookup, list_lookup_fmap, lookup_seq_lt by done. cbn. by rewrite Ht. }
      rewrite (proj2 (continuity_spec side previous q trends (label sample) sample t1 Hl Hs)).
      2: { split; [subst t1; by rewrite length_map, length_seq|done]. }
      cbn [obind]. apply IH; [subst t1; by rewrite length_map, length_seq|]. split; [done|].
      intros j Hj. specialize (H j Hj). by rewrite (H1 j Hj) in H.
Qed.

(** C15. Continuity of a joint path.  A path is accepted exactly when, of every one
    of the seven joints, each step is finite and at most 0.35 rad and the
    movement, cut into runs of one direction with steps below 1 mrad left out,
    has no inner run of 10 mrad or less: only the first and the last run may be
    that short. *)
Theorem continuity_is_no_chatter side label sample start path :
  (exists trends, follow_path side label sample start path no_trends = Returned trends) <->
  (path = [] \/ side_valid side = true) /\
  forall joint, (joint < PRODUCT_ARM_DOF)%nat ->
    Forall small_step (steps_of joint start path) /\
    Forall long_run (inner_runs (runs_of (steps_of joint start path))).
Proof.
  assert (Hn : forall j, (j < PRODUCT_ARM_DOF)%nat -> nth j no_trends no_trend = trend_of []).
  { intros j Hj. unfold PRODUCT_ARM_DOF in Hj. do 7 (destruct j as [|j]; [done|]). lia. }
  assert (Hf : runs_fine []) by done. split.
  - intros [ts H]. assert (Hp : path = [] \/ side_valid side = true).
    { destruct path as [|q path]; [by left|right]. cbn [follow_path] in H.
      apply obind_returned in H as (t1 & H & _). unfold require_cartesian_ik_continuity in H.
      apply obind_returned in H as ([] & H & _). by apply oguard_returned, negb_false_iff in H. }
    split; [exact Hp|]. intros j Hj. destruct Hp as [->|Hs]; [done|].
    apply follow_path_spec in H as [_ H]; [|done..]. specialize (H j Hj). rewrite Hn in H by done.
    apply follow_steps_runs in H as (? & ? & _); [|done]. done.
  - intros [[->|Hs] H]; [by exists no_trends|].
    exists (map (fun j => trend_of (runs_of (steps_of j start path))) (seq 0 PRODUCT_ARM_DOF)).
    apply follow_path_spec; [done..|]. split; [by rewrite length_map, length_seq|]. intros j Hj.
    rewrite Hn by done. rewrite nth_lookup, list_lookup_fmap, lookup_seq_lt by done. cbn.
    destruct (H j Hj) as [H1 H2].
    by apply (follow_steps_runs side label j sample _ []).
Qed.

(** ** Inverse kinematics *)

Section Searches.
Context `{body : !RigidBody}.

(** Where a configuration can come from: a seed, or a step cut off at the limits
    of the model. *)
Definition reached (p : Problem) (o : Policy) (q : list f64) : Prop :=
  q = pb_seed p \/ q ∈ default [] (po_fallbacks o) \/ (exists k, q = random_seed_at p k) \/
  exists x, q = inside_model p x.

Definition answer (p : Problem) (o : Policy) (q : list f64) : Prop :=
  converged p (residual_at p q) = true /\ reached p o q.

Definition sound_attempt (p : Problem) (o : Policy) (a : Attempt) : Prop :=
  at_success a = true -> answer p o (at_q a).

Lemma line_search_inside p q delta error alpha lines g q' g' :
  line_search p q delta error alpha lines g = (Some q', g') -> exists x, q' = inside_model p x.
Proof.
  revert alpha g. induction lines as [|n IH]; intros alpha g; cbn [line_search]; [done|].
  destruct (pr_expired _); [done|]. destruct (f64_lt _ _); [|apply IH]. intros [= <- _]. eauto.
Qed.

Lemma settle_attempt_sound p o a g a' g' :
  settle_attempt p a g = (a', g') -> at_success a = false -> reached p o (at_q a) ->
  sound_attempt p o a'.
Proof.
  unfold settle_attempt, sound_attempt, answer. destruct (pr_expired g); intros [= <- <-]; [congruence|done].
Qed.

Lemma iterate_sound p o n i a g a' g' :
  iterate p n i a g = (a', g') -> at_success a = false -> reached p o (at_q a) -> sound_attempt p o a'.
Proof.
  revert i a g. induction n as [|n IH]; intros i a g; cbn [iterate]; [apply settle_attempt_sound|].
  destruct (pr_expired _); [apply settle_attempt_sound|].
  destruct (converged p _) eqn:Ec.
  - intros [= <- <-] _ Hr. unfold sound_attempt, answer. cbn. done.
  - destruct (line_search _ _ _ _ _ _) as [[q|] g1] eqn:El; intros H Hs Hr; cbn [at_q] in *.
    + eapply IH; [done|done|]. cbn [at_q]. apply line_search_inside in El. by do 3 right.
    + eapply settle_attempt_sound; [exact H|done|done].
Qed.

Lemma solve_sound p o q g a g' : solve p q g = (a, g') -> reached p o q -> sound_attempt p o a.
Proof. intros H Hr. by eapply iterate_sound. Qed.

Definition sound_ranking (p : Problem) (o : Policy) (r : Ranking) : Prop :=
  sound_attempt p o (rk_best r) /\ Forall (answer p o) (rk_candidates r) /\
  (po_nearest o = true -> at_success (rk_best r) = true <-> rk_candidates r <> []).

Lemma record_candidate_sound p o a l :
  sound_attempt p o a -> Forall (answer p o) l -> Forall (answer p o) (record_candidate a l).
Proof.
  intros Ha Hl. unfold record_candidate. destruct (at_success a) eqn:E; cbn [negb]; [|done].
  destruct (existsb _ l); [done|]. apply Forall_app. split; [done|]. constructor; [by apply Ha|done].
Qed.

Lemma record_candidate_nil a l :
  record_candidate a l <> [] <-> at_success a = true \/ l <> [].
Proof.
  unfold record_candidate. destruct (at_success a); cbn [negb]; [|intuition done].
  destruct (existsb _ l) eqn:E; [destruct l; [done|intuition done]|].
  split; [by left|]. intros _. by destruct l.
Qed.

Lemma rank_sound nearest p o a r :
  (po_nearest o = true -> nearest = true) ->
  sound_attempt p o a -> sound_ranking p o r -> sound_ranking p o (rank nearest p a r).
Proof.
  intros Hn Ha (Hb & Hc & Hi). pose proof (record_candidate_sound p o a _ Ha Hc) as Hrec.
  pose proof (record_candidate_nil a (rk_candidates r)) as Hnil. unfold rank, sound_ranking.
  destruct (at_success a && nearest) eqn:E1; cycle 1.
  - destruct (negb (at_success (rk_best r)) && _) eqn:E2; cbn [rk_best rk_candidates].
    + split_and!; [done|done|]. intros H. specialize (Hn H). subst nearest.
      rewrite andb_true_r in E1. rewrite E1 in *. apply andb_true_iff in E2 as [E2 _].
      apply negb_true_iff in E2. rewrite Hnil, <- (Hi H), E2. intuition done.
    + split_and!; [done|done|]. intros H. specialize (Hn H). subst nearest.
      rewrite andb_true_r in E1. rewrite Hnil, <- (Hi H), E1. intuition done.
  - apply andb_true_iff in E1 as [E1 _]. destruct (negb _ || _) eqn:E2; cbn [rk_best rk_candidates].
    + split_and!; [done|done|]. intros _. rewrite Hnil. intuition done.
    + split_and!; [done|done|]. intros H. apply orb_false_iff in E2 as [E2 _].
      apply negb_false_iff in E2. rewrite Hnil, E2. intuition done.
Qed.

Lemma try_fallbacks_sound p o l x :
  Forall (reached p o) l -> sound_ranking p o x.1 -> sound_ranking p o (try_fallbacks p l x).1.
Proof.
  revert x. induction l as [|q l IH]; intros x Hl Hx; cbn [try_fallbacks]; [done|].
  apply Forall_cons in Hl as [Hq Hl]. destruct (pr_expired _); [done|].
  destruct (f64_le _ _); [by apply IH|]. destruct (solve p q x.2) as [a g] eqn:E.
  apply IH; [done|]. apply rank_sound; [done| |done]. by apply (solve_sound p o q x.2 a g).
Qed.

Lemma try_random_sound p o always l x :
  sound_ranking p o x.1 -> sound_ranking p o (try_random p (po_nearest o) always l x).1.
Proof.
  revert x. induction l as [|k l IH]; intros x Hx; cbn [try_random]; [done|].
  destruct (_ || _); [done|]. destruct (solve p _ x.2) as [a g] eqn:E.
  apply IH. apply rank_sound; [done| |done]. apply (solve_sound p o _ _ _ _ E). right; right; left. eauto.
Qed.

Lemma search_sound p o : sound_ranking p o (search p o).1.
Proof.
  unfold search. destruct (solve p (pb_seed p) no_progress) as [a g] eqn:E.
  assert (Ha : sound_attempt p o a) by (apply (solve_sound p o _ _ _ _ E); by left).
  assert (H0 : sound_ranking p o (first_ranking p a)).
  { split_and!; cbn [first_ranking rk_best rk_candidates]; [done|by apply record_candidate_sound|].
    intros _. rewrite record_candidate_nil. intuition done. }
  assert (H1 : sound_ranking p o
    (match po_fallbacks o with
     | Some fallbacks =>
         if negb (at_success a) || po_candidates o then try_fallbacks p fallbacks (first_ranking p a, g)
         else (first_ranking p a, g)
     | None => (first_ranking p a, g)
     end).1).
  { destruct (po_fallbacks o) as [l|] eqn:El; [|done]. destruct (_ || _); [|done].
    apply try_fallbacks_sound; [|done]. apply Forall_forall. intros q Hq. right; left. by rewrite El. }
  destruct (po_random o); [by apply try_random_sound|done].
Qed.

(** A later candidate is not nearer to the seed. *)
Definition not_nearer (p : Problem) (q q' : list f64) : Prop :=
  f64_lt (candidate_distance p q') (candidate_distance p q) = false.

Lemma insert_candidate_sorted p q l :
  Sorted (not_nearer p) l -> Sorted (not_nearer p) (insert_candidate p q l).
Proof.
  induction 1 as [|q' l Hs IH Hd]; cbn [insert_candidate]; [by repeat constructor|].
  destruct (f64_lt _ _) eqn:E.
  - constructor; [by constructor|]. constructor. by apply f64_lt_asym.
  - constructor; [done|]. destruct l as [|q2 l]; cbn [insert_candidate] in *; [by repeat constructor|].
    destruct (f64_lt (candidate_distance p q) (candidate_distance p q2)); [by constructor|].
    constructor. by inversion Hd.
Qed.

Lemma insert_candidate_perm p q l : insert_candidate p q l ≡ₚ q :: l.
Proof.
  induction l as [|q' l IH]; cbn [insert_candidate]; [done|]. destruct (f64_lt _ _); [done|].
  rewrite IH. apply Permutation_swap.
Qed.

Lemma sort_candidates_spec p l :
  Sorted (not_nearer p) (sort_candidates p l) /\ sort_candidates p l ≡ₚ l.
Proof.
  unfold sort_candidates.
  assert (H : forall acc, Sorted (not_nearer p) acc ->
    Sorted (not_nearer p) (fold_left (fun s q => insert_candidate p q s) l acc) /\
    fold_left (fun s q => insert_candidate p q s) l acc ≡ₚ acc ++ l).
  { induction l as [|q l IH]; intros acc Hacc; cbn [fold_left]; [by rewrite app_nil_r|].
    destruct (IH (insert_candidate p q acc)) as [H1 H2]; [by apply insert_candidate_sorted|].
    split; [done|]. rewrite H2, insert_candidate_perm. cbn [app]. by rewrite <- Permutation_middle. }
  destruct (H [] ltac:(constructor)) as [H1 H2]. split; [done|]. by rewrite H2.
Qed.

(** C12. Answers of inverse kinematics.  Whatever the rigid-body functions, the
    clock and the random numbers do: a search that reports success has converged
    at the configuration it returns, and so has every candidate it returns; each
    of them is a seed or was cut off at the limits of the model.  The candidates
    are in the order of their distance to the seed, and an endpoint search
    reports success exactly when it has one. *)
Theorem ik_answers_converged p o candidates r :
  ik_impl p o = Returned (candidates, r) ->
  (ik_success r = true -> answer p o (ik_q r)) /\ Forall (answer p o) candidates /\
  Sorted (not_nearer p) candidates /\
  (po_nearest o = true -> po_candidates o = true -> ik_success r = true <-> candidates <> []).
Proof.
  unfold ik_impl. intros H. apply obind_returned in H as ([] & _ & H).
  apply obind_returned in H as ([] & _ & H). apply obind_returned in H as ([] & _ & H).
  pose proof (search_sound p o) as (Hb & Hc & Hi). destruct (search p o) as [rk g].
  apply obind_returned in H as ([] & _ & H). injection H as <- <-. cbn [fst] in *.
  destruct (sort_candidates_spec p (rk_candidates rk)) as [Hs Hp].
  split_and!; [exact Hb| | |].
  - destruct (po_candidates o); [|done]. by rewrite Hp.
  - destruct (po_candidates o); [done|constructor].
  - intros Hn ->. cbn [result_of ik_success]. rewrite (Hi Hn).
    apply Permutation_length in Hp.
    split; intros Hne E; apply Hne, nil_length_inv; rewrite E in Hp;
      [by rewrite <- Hp|by rewrite E, Hp].
Qed.

End Searches.

(** The search for the candidates of an endpoint at 1/64. *)
Definition sample_problem : Problem :=
  problem 0 [] (line_pose (f64_lit 1 64)) zero_seed product_endpoint_ik_options false (Some 1000000).
Definition sample_policy : Policy := {|
  po_nearest := true;
  po_fallbacks := match fallback_seeds 0 with Returned l => Some l | _ => None end;
  po_random := true; po_candidates := true |}.

Lemma ik_answers_converged_witness :
  exists candidates r, ik_impl sample_problem sample_policy = Returned (candidates, r) /\
    length candidates = 8%nat /\ answer sample_problem sample_policy (ik_q r).
Proof.
  assert (H : seen (fun x => (length x.1, ik_success x.2)) (ik_impl sample_problem sample_policy) =
              Some (8%nat, true)) by (lazy; reflexivity).
  apply seen_some in H as ([candidates r] & E & H). injection H as Hn Hs.
  exists candidates, r. split; [exact E|]. split; [exact Hn|].
  apply (ik_answers_converged sample_problem sample_policy candidates r E). exact Hs.
Defined.

(** ** Motions *)

Section Motions.
Context `{libm : !Libm} `{models : !RobotModels} `{ik : !InverseKinematics}.

(** C13. A declared start is kept.  A linear or circular motion that is planned
    with a start pose either begins where the reference is, which has that pose
    within the tolerances, without an approach; or it leads in its approach
    segments from the reference to joint positions within the limits of the
    product that have the declared pose within the tolerances, and stops there
    with zero velocity and acceleration at the approach deadline.  In both cases
    it is a POS_VEL trajectory of all fourteen joints with 2 to 30000 complete
    waypoints and fewer approach segments than waypoints. *)
Theorem declared_start_kept product mode side reference values via end_pose acceleration velocity rq :
  plan_linear product mode side reference (Some values) end_pose acceleration velocity = Returned rq \/
  plan_circular product mode side reference values via end_pose acceleration velocity = Returned rq ->
  planned product acceleration velocity rq /\
  exists declared, robot_pose_from_rpy values = Returned declared /\
    ((starts_near product side reference declared /\ rq_approach_segment_count rq = 0 /\
      starts_at (sa_positions reference) rq) \/
     exists q, branch_within_limits product side q = true /\
       starts_near product side
         (approach_reference reference (with_side (sa_positions reference) side q)) declared /\
       approaches (sa_positions reference) (with_side (sa_positions reference) side q) rq).
Proof.
  intros [H|H].
  - apply plan_linear_spec in H as (Hp & _ & Hd). split; [done|]. by apply Hd.
  - by apply plan_circular_spec in H.
Qed.


(** C14. The runtime accepts what the planner makes of its joints.  For a product
    with its joint table, motors configured from it and any speed percentage in
    its range: the request of every planned line or arc passes the checks the
    safety runtime makes before it looks at the positions of the waypoints: the
    shape, every joint with its motor and limits, and the first timestamp; only
    a waypoint or a deadline can be refused then. *)
Theorem cartesian_requests_accepted arm_motors r velocity motors joints mode side reference start
    declared via end_pose percent rq :
  length arm_motors = PRODUCT_DUAL_ARM_DOF -> 0%nat ∉ arm_motors ->
  ry_joints r = (configure_joint_table arm_motors).1 ->
  collect_joints velocity motors ∅ (configure_joint_table arm_motors).2 = inr joints ->
  arm_count motors = PRODUCT_DUAL_ARM_DOF ->
  f32_valid percent -> percent_valid f32_one percent = true ->
  plan_linear r mode side reference start end_pose
    (reference_acceleration (speed_scale_of percent)) (reference_velocity (speed_scale_of percent)) =
    Returned rq \/
  plan_circular r mode side reference declared via end_pose
    (reference_acceleration (speed_scale_of percent)) (reference_velocity (speed_scale_of percent)) =
    Returned rq ->
  first_refusal
    [check_request_shape rq motors; check_request_joints rq motors ∅ (rq_joints rq);
     refuse_if (negb (f64_isfinite (first_time (rq_waypoints rq))) ||
                f64_lt (first_time (rq_waypoints rq)) f64_zero)
       "trajectory first timestamp must be finite and non-negative"] = None.
Proof.
  intros Ha Hz Hr Hj Hc Hv Hp H.
  assert (planned r (reference_acceleration (speed_scale_of percent))
            (reference_velocity (speed_scale_of percent)) rq /\
          starts_at (sa_positions reference) rq) as [Hpl (w & rest & Ew & Ht & _)].
  { destruct H as [H|H].
    - by apply plan_linear_spec in H as (? & ? & _).
    - apply plan_circular_spec in H as (? & d & _ & ?). split; [done|]. by eapply with_start_begins. }
  destruct (speed_scale_upto percent Hv Hp) as [Hs1 Hs2].
  apply first_refusal_none. repeat constructor.
  - by eapply planned_shape_accepted.
  - by eapply planned_joints_accepted.
  - rewrite Ew. cbn [first_time]. rewrite Ht. reflexivity.
Qed.

End Motions.

Lemma declared_start_kept_witness :
  exists rq, sample_line = Returned rq /\ 0 < rq_approach_segment_count rq /\
    planned sample_resources (reference_acceleration sample_speed)
      (reference_velocity sample_speed) rq.
Proof.
  destruct sample_line_planned as (rq & E & Hc & _). exists rq.
  split; [exact E|]. split; [rewrite Hc; lia|].
  apply (declared_start_kept sample_resources ModePv 0 sample_reference sample_start [] sample_start).
  left. unfold sample_line in E. exact E.
Defined.

Lemma cartesian_requests_accepted_witness :
  exists rq, sample_line = Returned rq /\
    first_refusal
      [check_request_shape rq sample_motors; check_request_joints rq sample_motors ∅ (rq_joints rq);
       refuse_if (negb (f64_isfinite (first_time (rq_waypoints rq))) ||
                  f64_lt (first_time (rq_waypoints rq)) f64_zero)
         "trajectory first timestamp must be finite and non-negative"] = None.
Proof.
  destruct sample_line_planned as (rq & E & _). exists rq. split; [exact E|].
  apply (cartesian_requests_accepted sample_arms sample_resources (f32_lit 2 10) sample_motors
    sample_joints ModePv 0 sample_reference (Some sample_start) [] [] sample_start (f32_of_Z 100) rq);
    [reflexivity|apply (bool_decide_unpack (0%nat ∉ sample_arms)); vm_compute; exact I|reflexivity|exact sample_collected|
     reflexivity|vm_compute; reflexivity|vm_compute; reflexivity|].
  left. unfold sample_line in E. exact E.
Defined.

(** ** The limits of the model and of the product *)

Definition upper_accepted (side : Z) : list bool :=
  [false; side =? 0; true; true; true; true; false].
Definition lower_accepted (side : Z) : list bool :=
  [false; side =? 1; true; true; true; true; false].

Lemma joint_at_side arm_motors r (side : Z) i :
  length arm_motors = PRODUCT_DUAL_ARM_DOF -> ry_joints r = (configure_joint_table arm_motors).1 ->
  side = 0 \/ side = 1 -> (i < PRODUCT_ARM_DOF)%nat ->
  exists motor, joint_at r (side_offset side + i) = product_joint (Z.to_nat side) i motor.
Proof.
  intros Ha Hr Hs Hi. exists (nth (side_offset side + i) arm_motors 0%nat).
  unfold PRODUCT_DUAL_ARM_DOF, PRODUCT_ARM_DOF in *.
  assert (E : side_offset side = (7 * Z.to_nat side)%nat) by (by destruct Hs as [-> | ->]).
  rewrite (joint_at_configured arm_motors) by
    (done || (unfold PRODUCT_DUAL_ARM_DOF; rewrite E; destruct Hs as [-> | ->]; lia)).
  unfold PRODUCT_ARM_DOF. by destruct Hs as [-> | ->]; do 7 (destruct i as [|i]; [done|]); lia.
Qed.

(** The limits of the model the product refuses. *)
Definition refused_limit (side : Z) (i : nat) (q : f64) : Prop :=
  (q = nth i (model_upper side) d0 /\ nth i (upper_accepted side) true = false) \/
  (q = nth i (model_lower side) d0 /\ nth i (lower_accepted side) true = false).

(** An answer with a refused joint is thrown away with the message for the first
    refused one. *)
Lemma checked_result_refused r side context answer i :
  (i < PRODUCT_ARM_DOF)%nat -> ik_success answer = true ->
  within_product_limits (joint_at r (side_offset side + i)) (nth i (ik_q answer) d0) = false ->
  exists j, (j <= i)%nat /\
    checked_ik_result r side context answer =
      Thrown (ik_limit_error context (side_offset side + j) (joint_at r (side_offset side + j))
                (nth j (ik_q answer) d0)).
Proof.
  intros Hi Hs Hr. unfold checked_ik_result. rewrite Hs. cbn [negb oguard obind].
  assert (H : forall n k, (k <= i < k + n)%nat ->
    exists j, (j <= i)%nat /\ require_within_limits r side context (ik_q answer) (seq k n) =
      Thrown (ik_limit_error context (side_offset side + j) (joint_at r (side_offset side + j))
                (nth j (ik_q answer) d0))).
  { induction n as [|n IH]; intros k Hk; [lia|]. cbn [seq require_within_limits].
    destruct (within_product_limits (joint_at r (side_offset side + k)) _) eqn:E.
    - cbn [negb oguard obind]. apply IH. assert (k <> i) by congruence. lia.
    - exists k. split; [lia|done]. }
  destruct (H PRODUCT_ARM_DOF 0%nat ltac:(lia)) as (j & Hj & E). exists j. split; [done|].
  change arm_indices with (seq 0 PRODUCT_ARM_DOF). by rewrite E.
Qed.

Section ModelLimits.
Context `{libm : !Libm} `{models : !RobotModels} `{ik : !InverseKinematics}.

(** C16. The limits of the model lie outside those of the product.  Both tables are
    written with the same decimals, the one of the model in double precision, the
    one of the product in single precision: of the limits to which the search
    cuts off its steps, the product refuses both of the first and of the last
    joint of either arm and one of the second.  Whatever search is used, an answer
    that has converged with a joint at such a limit is thrown away, by the paths
    of lines and arcs and by the endpoints. *)
Theorem model_limits_refused arm_motors r side :
  length arm_motors = PRODUCT_DUAL_ARM_DOF -> ry_joints r = (configure_joint_table arm_motors).1 ->
  side = 0 \/ side = 1 ->
  (forall i, (i < PRODUCT_ARM_DOF)%nat ->
    within_product_limits (joint_at r (side_offset side + i)) (nth i (model_upper side) d0) =
      nth i (upper_accepted side) true /\
    within_product_limits (joint_at r (side_offset side + i)) (nth i (model_lower side) d0) =
      nth i (lower_accepted side) true) /\
  forall i target seed context answer,
    (i < PRODUCT_ARM_DOF)%nat -> ik_success answer = true ->
    refused_limit side i (nth i (ik_q answer) d0) ->
    exists j, (j <= i)%nat /\
      let refusal := Thrown (ik_limit_error context (side_offset side + j)
                       (joint_at r (side_offset side + j)) (nth j (ik_q answer) d0)) in
      (ik_from_seed side (tcp_offset_of r side) target seed product_path_ik_options =
         Returned answer ->
       solve_path_ik r side target seed context = refusal) /\
      (forall deadline,
         ik_nearest_until side (tcp_offset_of r side) target seed product_endpoint_ik_options
           deadline = Returned answer ->
         solve_endpoint_ik r side target seed context deadline = refusal).
Proof.
  intros Ha Hr Hs.
  assert (Ht : forall i, (i < PRODUCT_ARM_DOF)%nat ->
     within_product_limits (joint_at r (side_offset side + i)) (nth i (model_upper side) d0) =
       nth i (upper_accepted side) true /\
     within_product_limits (joint_at r (side_offset side + i)) (nth i (model_lower side) d0) =
       nth i (lower_accepted side) true).
  { intros i Hi. destruct (joint_at_side arm_motors r side i Ha Hr Hs Hi) as [motor ->].
    unfold PRODUCT_ARM_DOF in Hi.
    destruct Hs as [-> | ->]; do 7 (destruct i as [|i]; [split; vm_compute; reflexivity|]); lia. }
  split; [exact Ht|]. intros i target seed context answer Hi Hsuccess Hq.
  assert (Hw : within_product_limits (joint_at r (side_offset side + i)) (nth i (ik_q answer) d0) = false).
  { destruct (Ht i Hi) as [Hu Hl]. destruct Hq as [[-> Hq]|[-> Hq]]; congruence. }
  destruct (checked_result_refused r side context answer i Hi Hsuccess Hw) as (j & Hj & E).
  exists j. split; [exact Hj|]. split; [intros Hk|intros deadline Hk];
    unfold solve_path_ik, solve_endpoint_ik; by rewrite Hk.
Qed.

End ModelLimits.

(** A hand that is asked for a fifth of a millimetre beyond the reach of the first
    joint: the search stops at the limit of the model, within its tolerance. *)
Definition reach : ArticoreRobotPose := line_pose (f64_lit 27452 10000).

Lemma model_limits_refused_witness :
  exists answer, ik_from_seed 0 (tcp_offset_of sample_resources 0) reach zero_seed
      product_path_ik_options = Returned answer /\
    nth 0 (ik_q answer) d0 = nth 0 (model_upper 0) d0 /\
    solve_path_ik sample_resources 0 reach zero_seed "target" =
      Thrown (ik_limit_error "target" 0 (joint_at sample_resources 0) (nth 0 (model_upper 0) d0)).
Proof.
  assert (H : seen (fun x => (ik_success x, ik_q x))
                (ik_from_seed 0 (tcp_offset_of sample_resources 0) reach zero_seed
                   product_path_ik_options) =
              Some (true, nth 0 (model_upper 0) d0 :: replicate 6 d0)) by (vm_compute; reflexivity).
  apply seen_some in H as (answer & E & H). injection H as Hs Hq.
  assert (Hq0 : nth 0 (ik_q answer) d0 = nth 0 (model_upper 0) d0) by by rewrite Hq.
  exists answer. split; [exact E|]. split; [exact Hq0|].
  destruct (model_limits_refused sample_arms sample_resources 0 eq_refl eq_refl (or_introl eq_refl))
    as [_ Hr].
  destruct (Hr 0%nat reach zero_seed "target"%string answer) as (j & Hj & Hp & _);
    [unfold PRODUCT_ARM_DOF; lia|exact Hs|left; split; [exact Hq0|reflexivity]|].
  rewrite (Hp E). assert (j = 0%nat) as -> by lia. by rewrite Hq0.
Defined.
